(* ===== verification/_CoqProject ===== *)
-Q . S2P
Prelude.v
Lmdb.v
Data.v
Compare.v
Tables.v
Chain.v
Subaddress.v
Accounts.v
Account.v
Readers.v
Webhooks.v
Update.v
KeyImages.v
MultisigStore.v
Kex.v
Storage.v
Identity.v
Msgpack.v
Wire.v
Json.v
JsonWrite.v
Messages.v
Queue.v
Workload.v
Server.v
Scan.v
Decoys.v
Sync.v
Loop.v
Requests.v
Overlay.v
Balance.v
Async.v
Multisig.v
Txsets.v
Endpoints.v
Rpc.v
Responses.v
Files.v
Admin.v
AdminRpc.v
HttpClient.v
