(* ===== verification/Prelude.v ===== *)
(** * A verification library for xfo-lws, a Monero light-wallet server

    The server follows the block chain on behalf of clients that gave it their
    view keys.  Its parts, under src/src/:

    - the database (db/storage.cpp, db/data.cpp) keeps the hashes of the chain,
      the accounts with how far each is scanned, the outputs and spends found,
      the requests of clients, their subaddresses and their webhooks;
    - the scanner (scanner.cpp, rpc/scanner/) loads the active accounts from it
      (db/account.cpp), fetches blocks from the daemon, matches their outputs
      with the accounts and stores what it found with [storage::update].  When
      the chain of the daemon branches off, [sync_chain] rolls the database back;
    - the REST server (rest_server.cpp) answers the clients and the
      administration commands (rpc/admin.cpp) out of the same database;
    - the multisig store (db/multisig_store.cpp) is a separate file the REST
      server keeps for multisig wallets, and the registry of key exchanges
      (rest_server.cpp) another, in which the participants of a wallet meet
      before it is stored.

    This library models the database with its types, everything the scanner
    does between a block of the daemon and the database (dividing accounts among
    threads and remote scanners, matching transactions, storing, synchronising the
    chain), the messages between scanners down to their bytes, the multisig store
    and the key exchanges, the selection of decoys, what the REST server does for
    the wallets (logins, imports, balances, histories, unspent outputs, decoys,
    multisig wallets) and the commands of the administration.

    ** Files

    - [Prelude]: machine integers, results ([expect]), orders given by
      comparison functions, automation, and lemmas on lists the rest shares.
    - [Lmdb]: the interface of the key-value store.  [Lmdb] gives the operations
      on a table of sorted duplicates, [LmdbLaws] what each write does to the
      contents of every key; all storage theorems are proved against these two
      classes.  [ListDb] implements them, and the examples run on it.
    - [Data]: db/data.h and db/data.cpp.  The types, their orders, the packed
      flag bytes, the wire form of outputs and spends.
    - [Compare]: the comparators of storage.cpp on the bytes LMDB hands them.
    - [Tables]: the sixteen tables of [storage_internal], with their keys, values
      and comparators, and [db], the state all operations of storage.cpp act on:
      the contents of every table.  [touches] says which tables may differ.
    - [Chain]: blocks and proof-of-work entries: what [storage::open] checks, the
      summaries sent to the daemon, [sync_chain], [sync_pow] and the rollback of
      every table.
    - [Subaddress]: [do_upsert] and [do_lookahead] on the ranges and indexes.
    - [Accounts]: the three tables of accounts and the queue of requests.
    - [Account]: [lws::account] (db/account.h, db/account.cpp).
    - [Readers]: the streams of rows and [get_full_account].
    - [Webhooks]: registering, finding and clearing webhooks.
    - [Update]: [storage::update].
    - [KeyImages]: [import_key_images] and [record_pending_spends].
    - [Storage]: the database as a state machine, one rule of [transaction] for
      each operation that commits.  [transaction false] is whatever the code does;
      [transaction true] keeps to three conditions the code leaves to its callers.
    - [Identity]: what the transactions leave of an account, and where accounts
      come from.
    - [MultisigStore]: db/multisig_store.cpp, with the file it writes.
    - [Kex]: the registry of key exchanges in rest_server.cpp, its three handlers
      and its file; it hands finished wallets to [MultisigStore].
    - [Msgpack]: the tokens of msgpack, read and written (wire/msgpack/).
    - [Wire]: objects, arrays and fields on top of them (wire/read.h, write.h,
      field.h), by descriptions of types.
    - [Json]: JSON with the same objects and arrays, read (wire/json/read.cpp).
    - [JsonWrite]: JSON, written (wire/json/write.cpp).
    - [Messages]: the four messages scanners exchange, with all they contain, their
      headers, and the buffers on both ends (rpc/scanner/).
    - [Queue]: the queue of a scanning thread and the thread that waits for it
      (rpc/scanner/queue.cpp), under the mutex ([step]) and with the condition
      variable ([monitor]).
    - [Workload]: how [check_loop] divides accounts among threads, and a remote
      scanner among its own (rpc/scanner/client.cpp).
    - [Server]: the server of remote scanners (rpc/scanner/server.cpp).
    - [Scan]: [scan_transaction_base] and what is done with what it finds.
    - [Decoys]: util/gamma_picker.cpp and util/random_outputs.cpp.
    - [Sync]: util/blocks.cpp, [sync_quick] and [sync_full].
    - [Loop]: a round of [scanner::loop], with [user_data::store].
    - [Requests]: the handlers of rest_server.cpp that open an account or change
      it, in [handler], a state and error monad over the database and the
      connection.
    - [Overlay]: [fetch_txpool_incoming_overlay], the incoming transactions of the
      pool.
    - [Balance]: [get_address_info], [get_address_txs] and [get_unspent_outs].
    - [Async]: the endpoints that wait for the daemon and share a connection:
      [submit_raw_tx], [get_random_outs], [daemon_status], [get_unspent_outs].
    - [Multisig]: the handlers in front of [MultisigStore].
    - [Txsets]: the registry of transaction sets to unstake.
    - [Endpoints]: the tables of endpoints, their search, authentication and the
      status of the response.
    - [Rpc]: the requests of wallets in JSON (rpc/light_wallet.cpp, rpc/multisig.cpp),
      and the way of what is posted through [Endpoints] to the handlers of [Requests].
    - [Responses]: what wallets are answered, in JSON (the same files).
    - [Files]: the JSON in the files of [MultisigStore] and [Kex].
    - [Admin]: the administration commands (rpc/admin.cpp), over REST and from the
      command line (admin_main.cpp).
    - [AdminRpc]: their requests in JSON, and the server with both ways.
    - [HttpClient]: the client for webhooks and exchange rates (net/http/client.cpp).

    Each file has definitions first and says which lines of the source it
    models; a definition has the name of the function it models.

    ** How the code is represented

    - Integers of a fixed width are of type [Z]; where an operation can leave its
      width the definition wraps it.  Hashes, keys and key images are the numbers
      their 32 bytes spell, so that [memcmp] is the comparison of numbers.  A
      [double] is a [spec_float] of 53 bits.
    - [expect A] is [Ok] or [Err] with the error code; an exception is an [Err]
      too.  [try_write] commits the state an operation computes, or on [Err]
      nothing.  Operations whose callers go on after [max_subaddresses] return the
      state with the error, since what was written up to then is then committed.
    - A cursor is the list of the rows from its position on, in the direction it
      moves.  Where a loop deletes or moves the rows it walks over, the
      definition walks the list of rows taken before: the code deletes the row
      it is on and goes to the next, or reads from a second cursor.
    - A thread with its queue, the server of remote scanners and the loop of a
      scanning thread are states with steps; what others do between two steps is
      any other step, or an arbitrary change of the queue and the database; a
      [notify_all] is a step of its own, some time after the operation.  So
      are the coroutines of [Async] and of [HttpClient], which go on when the network
      answers; the latter are cut at their yields.
    - A message is described by a type that is interpreted both ways
      ([Wire.read_object], [Wire.write_object]); a [codec] adds the C++ value.  A
      request in JSON is a [json_type] and a [jcodec]; rapidjson, which parses the
      single values, is a parameter ([JsonLibrary]) with laws ([JsonLaws], [JsonTexts]);
      so is the text it prints ([JsonWriter], [JsonWriterLaws]: a value has one text,
      which is read back, and arrays and objects are put together of the texts inside).
      A response is a [writer], the type with the object and its range.
    - The clock, the outcome of writing a file, what the daemon answers and the
      outcome of sending are arguments; the order in which an unordered map is
      iterated is a parameter ([HashOrder]).  The checkpoints and constants of
      Monero ([ChainConfig]), its functions on keys ([Crypto]), transactions
      ([ScanCrypto]) and blocks ([BlockCrypto]), its random source ([Random]),
      libsodium's hash of passwords, epee's URL parser ([UrlParser]) and the
      environment ([KexEnv]) are parameters, with laws only where a theorem needs
      them ([ChainConfigLaws]: no checkpoint is above [get_max_height];
      [RandomLaws]: draws are in range).

    ** Theorems

    Invariants.  [Storage.storage_consistent]: whatever transactions run, every
    webhook event in progress has its webhook; and if they keep to the conditions of
    [transaction true] (ids left, rescans and imports from where the account has
    been, no address twice in an import) the three account tables agree
    ([accounts_ok]: each account has an entry for its address and one for its
    height, with its status, and there are no others).  Its parts are
    [Update.update_consistent] and [Accounts.rollback_accounts_consistent], which
    also say how scan heights move, and the lemmas on each operation of
    [Accounts].  [Subaddress.merge_ranges_ok] keeps ranges apart and in order;
    [MultisigStore.register_tx_ok] keeps totals, bounds and distinct hashes;
    [Kex.kex_registry_ok] is about every registry requests and restarts lead to.

    The chain.  [Chain.sync_chain_merges]: the stored chain afterwards is the
    common part followed by what the daemon sent.
    [Chain.sync_chain_keeps_checkpointed]: no block up to the last checkpoint is
    replaced.  [Sync.sync_full_verified]: a daemon that is not trusted only gets
    chains stored that are linked and worked for, however the synchronisation ends.  [Chain.get_blocks_spec]: what
    summaries hold, and their length.  [Chain.rollback_outputs_spec] and
    [Chain.rollback_events_spec] say exactly which rows a rollback removes.

    Scanning, from blocks to rows.  [Loop.loop_requests_cover] and
    [Loop.scan_chunk_blocks]: the blocks given to the accounts of a thread are
    consecutive, from no further than where the accounts are, and, unless accounts
    were replaced, from where the first of them is.
    [Scan.scan_transaction_spec]: without subaddresses, and without an encrypted
    payment id, a transaction gives an account what a comprehension over its rings
    and outputs says;
    [Scan.scan_transaction_owned]: in any case only what is its own.
    [Update.update_stores_outputs] and [Loop.store_moves_all]: accounts behind the
    last block are moved to it and all their outputs are stored.
    [Readers.get_full_account_knows], [Account.add_out_spec] and
    [Account.get_spendable_complete]: the account the scanner works on recognises
    exactly the outputs it has.

    Threads and remote scanners.  [Queue.queue_refines] and
    [Queue.waiting_thread_returns]: a thread has the accounts it was assigned,
    whatever the interleaving, and does not wait forever, since no wake-up is lost.
    [Workload.assign_by_count_exact], [Workload.assign_by_depth_exact] and
    [Workload.client_workload]: dividing loses no account and gives none to two
    threads, but in the case the theorem names.  [Server.server_tracks_active],
    [Server.replace_users_exact] and [Server.accounts_need_password]: without
    connections the threads have each active account, dividing accounts for each
    but for the remainder, and who has no password is given none.

    Messages.  [Wire.from_bytes_typed], [Wire.from_bytes_terminates],
    [Wire.unknown_fields_skipped]: reading is safe on every input;
    [Wire.to_bytes_refines] and [Wire.from_to_bytes]: what is written is what the
    type says, and is read back; [Messages.write_command_unpacks] and
    [Messages.messages_arrive]: so are the messages, in order, however the stream
    is cut.

    Wallets and administrators.  [Requests.requests_keep_consistent] and
    [Admin.admin_keeps_consistent]: requests and commands commit transactions of
    [Storage] only, and those that are safe do not break the tables.  [Requests.opened_with_key],
    [Requests.login_opens] and [Endpoints.admin_authenticated]: who may do what.
    [Identity.accounts_keep_identity] and [Admin.admins_stay_the_same]: who it is
    does not change, and nobody becomes an administrator over REST;
    [Admin.create_admin_authenticates], [Admin.validated_keys_open] and
    [Admin.webhook_added]: what the commands are for.
    [Balance.address_info_sent] and [Balance.unspent_outs_spec] say what the
    responses hold, [Balance.balance_covers] and [Balance.history_matches_balance]
    how they fit together, [Overlay.overlay_exact] what the pool adds, with either kind of key, and
    [Balance.is_locked_by_height] what counts as locked.

    Posted texts.  [Json.json_from_bytes_safe]: reading JSON ends on every input, with
    an object of the type or an error that is caught; [Json.json_texts_read] and
    [Rpc.requests_read]: every text of a request gives it.  [Rpc.requests_arrive] and
    [AdminRpc.admin_requests_arrive] take it to its handler; [Rpc.bodies_answered]
    says what other bytes are answered, and [AdminRpc.server_keeps_consistent] that no
    bytes but a request that is not safe break the database.

    Written texts.  [JsonWrite.json_from_to_bytes]: what is written is read back, also by
    a reader with optional fields and limits.  So are the responses
    ([Responses.responses_read]) and the files ([Files.store_file_reads_back],
    [Files.kex_file_reads_back]); [Files.store_file_safe] says what any content of the
    file of the store can be loaded as, and [Files.store_file_refines] and
    [Files.kex_file_refines] that the files of [MultisigStore] and [Kex] stand for it.

    Sharing the daemon.  [Async.serial_answers] and [Async.batch_answers]: who
    waits is answered, once and in order, unless an exception ends the coroutine;
    [Async.batch_fresh]: what is kept of an answer, or for [daemon_status] of a
    failure, is recent; [Async.submit_records_relayed]: only what was relayed is
    remembered as pending; [Async.random_outs_asks]: what rings are made of.

    The HTTP client.  [HttpClient.http_answers] and [HttpClient.http_drains]: who
    asks is told, once and in order, and the coroutine ends;
    [HttpClient.http_protocol]: messages go to their own host and port only, and
    through TLS when they are https.  Each has the condition that keeps clear of a
    defect: [HttpClient.two_loops] and [HttpClient.scheme_is_not_compared].

    Multisig wallets.  [Multisig.registered_amount]: what a registered
    transaction counts for; [Txsets.txset_registry_ok], [Txsets.txset_owner] and
    [Txsets.txset_never_submitted]: what sets there are, who changes them, and
    how far they get.

    Below them: [Accounts.get_account_sound], [Subaddress.do_upsert_finds] and
    [Subaddress.merge_ranges_covers] (what was asked for is recognised, and the
    ranges cover nothing else), [Webhooks.find_webhook_exact],
    [Webhooks.clear_webhooks_spec], those of [KeyImages] on what is confirmed,
    stored and counted, [Decoys.pick_random_outputs_rings] and
    [Decoys.gamma_picker_range] on the decoys for a transaction.

    Encodings.  [Compare.comparators_are_orders]: the byte comparators are the
    orders of the tables; [Data.read_write_output], [MultisigStore.reload_saved]
    and [Kex.kex_reload] are round trips, the last two with what happens beyond the
    limits of the reader.

    Defects.  The code does not always do what it means to.  The theorems
    [Accounts.rescan_above_scan_height], [Accounts.create_accounts_foreign_indexes],
    [Update.check_spends_not_found], [Subaddress.received_loop_termination],
    [Subaddress.upsert_bridging_range], [Subaddress.lookahead_loses_ranges],
    [Webhooks.clear_webhooks_keeps_tx_spend] and
    [MultisigStore.io_error_keeps_transaction], [Requests.import_above_scan_height],
    [Requests.import_shrink_ignored], [Requests.check_lookahead_wraps],
    [Balance.unspent_outs_spec], [Balance.is_locked_far_future],
    [Endpoints.endpoints_found], [Async.status_ahead],
    [Txsets.capacity_never_reached], [Admin.stoull_prefix], and the lemmas at the ends
    of [Wire], [Queue], [Workload], [Server], [Scan], [Decoys] and [Loop] state what it
    does instead, and [Storage] has the side conditions that keep clear of them.

    ** Fuel

    - The loop of [Kex] that evicts the oldest entries has their number as fuel
      ([evict_loop_spec]: it ends for the reasons the code has); so has that of
      [Txsets] ([capacity_never_reached]: it makes room).
    - A coroutine of [Async] ends after two rounds for each request that waits,
      and one ([serial_answers]); a request whose decoys take more draws than there
      is fuel is not served ([Unfinished]), and still waits.
    - A round of [HttpClient] that ends without a yield takes a message from the
      queue: their number is fuel enough, and no run of [http_answers] lacks it.
    - [received_loop] of [do_lookahead]: in the code it repeats forever at an output
      of the primary address.  [Subaddress.received_loop_termination] shows that it
      ends exactly when there is no such output, and that fuel for their number is
      then enough.
    - The loops that read an object, skip a value or cut commands out of a stream
      have the length of the input as fuel, and never run out
      ([Wire.from_bytes_terminates], [Json.json_from_bytes_safe]); the round robin of
      [Server] has the number of new accounts.
    - [Decoys.triangular_draw] draws until an index is in range: any fuel above the
      number of draws thrown away is enough ([triangular_draw_ends]).
    - [Sync.sync_quick] and [Sync.sync_full] ask until the daemon has no more, which a
      daemon that makes up blocks can put off; their fuel is the number of requests,
      and what they say of the database holds for every number.

    All other recursion is structural; loops over a number of blocks or tries take
    the number from the source.

    ** What is not modelled

    - LMDB, rapidjson, boost and asio: libraries outside the repository.
    - The migration of tables of older versions, which depends on the layout of
      structs, and the log and the JSON dump of the database.
    - The memory of the process (the cursors a read keeps open), running out of
      space, and starting and joining threads.
    - The JSON of [get_version] and of what administrators are answered, and the
      exchange rates in that of [get_address_info]: fields that are only written.
      The handlers that wait for a response are not tied to [Responses]: the status
      is what [Rpc] says of them.
    - ZeroMQ, sockets, command lines, exchange rates: input and output.  What the
      daemon answers is an argument, also where the code keeps the transactions
      of the pool for two seconds. *)

From stdpp Require Export base numbers list gmap strings sorting.
From Stdlib Require Export Lia ZArith.

#[global] Open Scope Z_scope.

(** ** Machine integers

    [std::uint8_t] .. [std::uint64_t] are integers of type [Z]; an operation
    that can leave the range of its C++ type is wrapped explicitly. *)

(** The block targets of Monero, in seconds. *)
Definition DIFFICULTY_TARGET_V1 : Z := 60.
Definition DIFFICULTY_TARGET_V2 : Z := 120.

Definition u8_max : Z := 2 ^ 8 - 1.
Definition u32_max : Z := 2 ^ 32 - 1.
Definition u64_max : Z := 2 ^ 64 - 1.

(** [wrap w z] is [z] reduced to an unsigned integer of [w] bits. *)
Definition wrap (w z : Z) : Z := z mod 2 ^ w.

Lemma wrap_small w z : 0 <= z < 2 ^ w → wrap w z = z.
Proof. intros Hz. unfold wrap. by apply Z.mod_small. Qed.

Lemma wrap_range w z : 0 <= w → 0 <= wrap w z < 2 ^ w.
Proof. intros Hw. unfold wrap. apply Z.mod_pos_bound. by apply Z.pow_pos_nonneg. Qed.

Lemma land_ones_mod a n : 0 <= n → Z.land a (2 ^ n - 1) = a mod 2 ^ n.
Proof. intros Hn. by rewrite <-Z.land_ones, Z.ones_equiv, <-Z.sub_1_r by done. Qed.

(** Packing [b] of [n] bits below [a]. *)
Lemma lor_shiftl_add a b n :
  0 <= n → 0 <= b < 2 ^ n → Z.lor (Z.shiftl a n) b = a * 2 ^ n + b.
Proof.
  intros Hn Hb. rewrite <-Z.shiftl_mul_pow2 by done.
  assert (Z.land (Z.shiftl a n) b = 0) as H0.
  { apply Z.bits_inj'. intros i Hi. rewrite Z.land_spec, Z.bits_0.
    destruct (decide (i < n)); [by rewrite Z.shiftl_spec_low|].
    rewrite <-(Z.mod_small b (2 ^ n)), Z.mod_pow2_bits_high by lia. apply andb_false_r. }
  by rewrite <-Z.lxor_lor, Z.add_nocarry_lxor.
Qed.

(** ** Errors

    [lws::error] of src/error.h, the two LMDB codes the storage code
    distinguishes, [common_error::kInvalidArgument], [std::errc] of a reader that
    cannot be had and the wire errors.
    [undefined_behaviour] is no error of the code: it stands for what C++ leaves
    open, such as a vector indexed past its end. *)

Inductive schema_error : Set :=
  | schema_array | schema_array_max_element | schema_array_min_size | schema_binary
  | schema_boolean | schema_enumeration | schema_fixed_binary | schema_integer
  | schema_invalid_key | schema_larger_integer | schema_maximum_depth | schema_missing_key
  | schema_number | schema_object | schema_smaller_integer | schema_string.

Inductive msgpack_error : Set :=
  | incomplete | integer_encoding | invalid | max_tree_size | not_enough_bytes | underflow_tree.

(** [rapidjson::ParseErrorCode]; the codes that the reader throws itself, and those
    of the parser. *)
Inductive json_error : Set :=
  | miss_quotation_mark | miss_comma_or_bracket | miss_comma_or_curly | miss_colon | unspecific_syntax
  | parse_error (code : Z).

Inductive error : Set :=
  | account_exists | account_max | account_not_found | bad_address | bad_view_key
  | bad_blockchain | bad_client_tx | bad_daemon_response | bad_height | bad_url | bad_verb
  | bad_webhook | blockchain_reorg | configuration | crypto_failure | create_queue_max_
  | daemon_timeout | duplicate_request | exceeded_rest_request_limit | invalid_range | max_subaddresses_
  | tx_relay_failed
  | not_enough_mixin | not_enough_amount | system_clock_invalid_range
  | mdb_notfound | mdb_keyexist | invalid_argument | no_lock_available
  | schema (e : schema_error) | msgpack (e : msgpack_error) | json (e : json_error)
  | logic_error | runtime_error | out_of_fuel
  | undefined_behaviour.

#[global] Instance schema_error_eq_dec : EqDecision schema_error.
Proof. solve_decision. Defined.
#[global] Instance msgpack_error_eq_dec : EqDecision msgpack_error.
Proof. solve_decision. Defined.
#[global] Instance json_error_eq_dec : EqDecision json_error.
Proof. solve_decision. Defined.
#[global] Instance error_eq_dec : EqDecision error.
Proof. solve_decision. Defined.

(** ** [expect<T>]: a value or an error *)

Inductive expect (A : Type) : Type :=
  | Ok (a : A)
  | Err (e : error).
Arguments Ok {A} a.
Arguments Err {A} e.

#[global] Instance expect_ret : MRet expect := @Ok.
#[global] Instance expect_bind : MBind expect := λ A B f m,
  match m with Ok a => f a | Err e => Err e end.
#[global] Instance expect_fmap : FMap expect := λ A B f m,
  match m with Ok a => Ok (f a) | Err e => Err e end.

(** [MONERO_PRECOND] and the early returns of the form [if (c) return e]. *)
Definition guard_err (c : bool) (e : error) : expect unit := if c then Ok tt else Err e.

Definition of_option {A} (e : error) (o : option A) : expect A :=
  match o with Some a => Ok a | None => Err e end.

Lemma expect_bind_ok {A B} (m : expect A) (f : A → expect B) b :
  m ≫= f = Ok b ↔ ∃ a, m = Ok a ∧ f a = Ok b.
Proof. destruct m; simpl; naive_solver. Qed.

Lemma guard_err_ok c e u : guard_err c e = Ok u ↔ c = true.
Proof. destruct c, u; simpl; naive_solver. Qed.

Lemma of_option_ok {A} e (o : option A) a : of_option e o = Ok a ↔ o = Some a.
Proof. destruct o; simpl; naive_solver. Qed.

(** A left fold whose step may fail: a C++ [for] loop with early error returns. *)
Fixpoint fold_err {A S} (f : S → A → expect S) (s : S) (l : list A) : expect S :=
  match l with
  | [] => Ok s
  | a :: l => s' ← f s a; fold_err f s' l
  end.

Lemma fold_err_invariant {A S} (P : S → Prop) (f : S → A → expect S) s l s' :
  P s → (∀ s a s', a ∈ l → P s → f s a = Ok s' → P s') →
  fold_err f s l = Ok s' → P s'.
Proof.
  revert s. induction l as [|a l IH]; simpl; intros s Hs Hf Hr.
  - by simplify_eq.
  - apply expect_bind_ok in Hr as (s1 & H1 & H2).
    eapply IH; [|intros s2 b s3 Hin; apply Hf; by right|exact H2].
    eapply Hf; [by left|exact Hs|exact H1].
Qed.

Lemma fold_err_app {A S} (f : S → A → expect S) s l1 l2 :
  fold_err f s (l1 ++ l2) = (s' ← fold_err f s l1; fold_err f s' l2).
Proof.
  revert s. induction l1 as [|a l1 IH]; intros s; [done|]. simpl. destruct (f s a); simpl; [apply IH|done].
Qed.

(** Inverts every successful bind and guard of a hypothesis. *)
Ltac inv_expect :=
  repeat match goal with
  | H : _ ≫= _ = Ok _ |- _ => apply expect_bind_ok in H as (? & ? & ?)
  | H : guard_err _ _ = Ok _ |- _ => apply guard_err_ok in H
  | H : of_option _ _ = Ok _ |- _ => apply of_option_ok in H
  | H : Ok _ = Ok _ |- _ => injection H as H; try subst
  | H : Err _ = Ok _ |- _ => discriminate H
  | H : mret _ = Ok _ |- _ => unfold mret, expect_ret in H
  | H : Ok _ = mret _ |- _ => unfold mret, expect_ret in H
  end.

(** ** Orders given by a three-way comparison

    The comparators of the database return a negative, zero or positive [int];
    [CmpOrder] states that one is a total order whose equality is Leibniz. *)

Class CmpOrder {A} (cmp : A → A → comparison) : Prop := {
  cmp_eq_iff : ∀ x y, cmp x y = Eq ↔ x = y;
  cmp_opp : ∀ x y, cmp y x = CompOpp (cmp x y);
  cmp_lt_trans : ∀ x y z, cmp x y = Lt → cmp y z = Lt → cmp x z = Lt
}.

Arguments cmp_eq_iff {A} cmp {_} x y.
Arguments cmp_opp {A} cmp {_} x y.
Arguments cmp_lt_trans {A} cmp {_} x y z _ _.

#[global] Instance Z_compare_order : CmpOrder Z.compare.
Proof.
  split.
  - apply Z.compare_eq_iff.
  - intros x y. apply Z.compare_antisym.
  - intros x y z. rewrite !Z.compare_lt_iff. lia.
Qed.

Definition lex_cmp {A B} (ca : A → A → comparison) (cb : B → B → comparison)
    (x y : A * B) : comparison :=
  match ca x.1 y.1 with Eq => cb x.2 y.2 | r => r end.

Definition proj_cmp {A B} (f : A → B) (cb : B → B → comparison) (x y : A) : comparison :=
  cb (f x) (f y).

Section cmp_order.
Context {A} (cmp : A → A → comparison) `{!CmpOrder cmp}.

Lemma cmp_refl x : cmp x x = Eq.
Proof. by apply cmp_eq_iff. Qed.

Lemma cmp_gt_lt x y : cmp x y = Gt ↔ cmp y x = Lt.
Proof. rewrite (cmp_opp cmp x y). destruct (cmp x y); naive_solver. Qed.

Lemma cmp_eq x y : cmp x y = Eq → x = y.
Proof. by intros ?%cmp_eq_iff. Qed.

Lemma cmp_irrefl x : cmp x x ≠ Lt.
Proof. by rewrite cmp_refl. Qed.
End cmp_order.

#[global] Instance lex_cmp_order {A B} (ca : A → A → comparison) (cb : B → B → comparison) :
  CmpOrder ca → CmpOrder cb → CmpOrder (lex_cmp ca cb).
Proof.
  intros Ha Hb. unfold lex_cmp. split.
  - intros [a b] [a' b']; simpl. destruct (ca a a') eqn:E.
    + apply (cmp_eq ca) in E as ->. rewrite (cmp_eq_iff cb). naive_solver.
    + split; [done|]. intros [= -> _]. by rewrite (cmp_refl ca) in E.
    + split; [done|]. intros [= -> _]. by rewrite (cmp_refl ca) in E.
  - intros [a b] [a' b']; simpl. rewrite (cmp_opp ca a a').
    destruct (ca a a'); simpl; [apply (cmp_opp cb)|done|done].
  - intros [a b] [a' b'] [a'' b'']; simpl.
    destruct (ca a a') eqn:E1; [apply (cmp_eq ca) in E1 as ->| |done];
      destruct (ca a' a'') eqn:E2; try done.
    + apply (cmp_lt_trans cb).
    + apply (cmp_eq ca) in E2 as ->. by rewrite E1.
    + by rewrite (cmp_lt_trans ca a a' a'').
Qed.

#[global] Instance proj_cmp_order {A B} (f : A → B) (cb : B → B → comparison) :
  Inj (=) (=) f → CmpOrder cb → CmpOrder (proj_cmp f cb).
Proof.
  intros Hf Hb. unfold proj_cmp. split.
  - intros x y. rewrite (cmp_eq_iff cb). split; [apply Hf|by intros ->].
  - intros x y. apply (cmp_opp cb).
  - intros x y z. apply (cmp_lt_trans cb).
Qed.

(** ** Generic list lemmas *)

(** [std::lower_bound] on a range partitioned by [below]: the position of the
    first element that is not [below]. *)
Fixpoint lower_bound {A} (below : A → bool) (l : list A) : nat :=
  match l with
  | [] => 0%nat
  | x :: l => if below x then S (lower_bound below l) else 0%nat
  end.

(** [vector::insert] at a position. *)
Definition insert_at {A} (i : nat) (x : A) (l : list A) : list A := take i l ++ x :: drop i l.

Fixpoint drop_while {A} (p : A → bool) (l : list A) : list A :=
  match l with
  | [] => []
  | x :: l' => if p x then drop_while p l' else l
  end.

Lemma drop_while_suffix {A} (p : A → bool) (l : list A) : drop_while p l `suffix_of` l.
Proof.
  induction l as [|x l IH]; simpl; [done|].
  destruct (p x); [by apply suffix_cons_r|done].
Qed.

Lemma drop_while_all {A} (p : A → bool) (l : list A) : (∀ x, x ∈ l → p x = true) → drop_while p l = [].
Proof.
  induction l as [|x l IH]; intros Hp; simpl; [done|]. rewrite (Hp x) by by left.
  apply IH. intros y Hy. apply Hp. by right.
Qed.

Lemma elem_of_drop_while {A} (R : A → A → Prop) (p : A → bool) l x :
  StronglySorted R l → (∀ a b, R a b → p b = true → p a = true) →
  x ∈ drop_while p l ↔ x ∈ l ∧ p x = false.
Proof.
  intros Hl Hp. induction Hl as [|y l Hl IH Hy]; simpl; [rewrite elem_of_nil; tauto|].
  rewrite Forall_forall in Hy. destruct (p y) eqn:E.
  - rewrite IH, elem_of_cons. split; [tauto|]. intros [[->|Hx] Hf]; [congruence|done].
  - rewrite elem_of_cons. split; [|tauto]. intros [->|Hx]; [by auto|]. split; [by right|].
    destruct (p x) eqn:Ex; [|done]. rewrite (Hp y x (Hy x Hx) Ex) in E. done.
Qed.

Lemma sorted_rev {A} (R : A → A → Prop) l :
  StronglySorted R l → StronglySorted (flip R) (rev l).
Proof.
  induction 1 as [|x l Hl IH Hx]; simpl; [constructor|].
  apply StronglySorted_app. split_and!; [|done|by repeat constructor].
  intros y z Hy ->%list_elem_of_singleton. rewrite Forall_forall in Hx.
  apply Hx. by apply list_elem_of_In, in_rev, list_elem_of_In.
Qed.

Lemma sorted_impl {A} (R R' : A → A → Prop) l :
  StronglySorted R l → (∀ x y, R x y → R' x y) → StronglySorted R' l.
Proof.
  intros Hl HR. induction Hl as [|x l Hl IH Hx]; constructor; [done|].
  eapply Forall_impl; [exact Hx|]. auto.
Qed.

Lemma elem_of_rev {A} (x : A) l : x ∈ rev l ↔ x ∈ l.
Proof. by rewrite !list_elem_of_In, <-in_rev. Qed.

Lemma sorted_snoc {A} (R : A → A → Prop) `{!Transitive R} l x y :
  StronglySorted R l → last l = Some y → R y x → StronglySorted R (l ++ [x]).
Proof.
  intros Hl Hy Hx. apply StronglySorted_app. split_and!; [|done|by repeat constructor].
  intros z w Hz ->%list_elem_of_singleton.
  apply last_Some in Hy as [l' ->]. apply elem_of_app in Hz as [Hz| ->%list_elem_of_singleton]; [|done].
  trans y; [|done]. apply StronglySorted_app in Hl as (H & _ & _). apply H; [done|by left].
Qed.

Lemma sorted_last {A} (R : A → A → Prop) l x :
  StronglySorted R l → x ∈ l → ∃ y, last l = Some y ∧ (x = y ∨ R x y).
Proof.
  intros Hl Hx. destruct (last l) as [y|] eqn:E; [|apply last_None in E as ->; by apply elem_of_nil in Hx].
  exists y. split; [done|]. apply last_Some in E as [l' ->].
  apply elem_of_app in Hx as [Hx| ->%list_elem_of_singleton]; [right|by left].
  apply StronglySorted_app in Hl as (H & _ & _). apply H; [done|by left].
Qed.

Lemma sorted_drop_while {A} (R : A → A → Prop) (p : A → bool) l :
  StronglySorted R l → StronglySorted R (drop_while p l).
Proof.
  induction 1 as [|x l Hl IH Hx]; simpl; [constructor|]. by destruct (p x); [|constructor].
Qed.

(** A list sorted by a strict order is determined by its elements. *)
Lemma sorted_ext {A} (R : A → A → Prop) (l1 l2 : list A) :
  (∀ a b, R a b → R b a → False) → StronglySorted R l1 → StronglySorted R l2 →
  (∀ x, x ∈ l1 ↔ x ∈ l2) → l1 = l2.
Proof.
  intros HR H1. revert l2. induction H1 as [|a l1 H1 IH Ha]; intros l2 H2 Heq.
  - destruct l2 as [|b l2]; [done|]. exfalso. apply (not_elem_of_nil b), Heq. by left.
  - destruct H2 as [|b l2 H2 Hb]; [exfalso; apply (not_elem_of_nil a), Heq; by left|].
    rewrite Forall_forall in Ha, Hb.
    assert (a = b) as <-.
    { assert (a ∈ b :: l2) as Ha2 by (apply Heq; by left).
      assert (b ∈ a :: l1) as Hb1 by (apply Heq; by left).
      apply elem_of_cons in Ha2 as [?|Ha2]; [done|].
      apply elem_of_cons in Hb1 as [?|Hb1]; [done|]. destruct (HR a b); auto. }
    f_equal. apply IH; [done|]. intros x. specialize (Heq x). rewrite !elem_of_cons in Heq.
    assert (¬ R a a) by (intros Haa; by apply (HR a a)).
    split; intros Hx.
    + destruct (proj1 Heq (or_intror Hx)) as [->|?]; [by destruct H; apply Ha|done].
    + destruct (proj2 Heq (or_intror Hx)) as [->|?]; [by destruct H; apply Hb|done].
Qed.

Lemma elem_of_insert_at {A} i (x y : A) l : y ∈ insert_at i x l ↔ y = x ∨ y ∈ l.
Proof.
  unfold insert_at. rewrite elem_of_app, elem_of_cons.
  rewrite <- (take_drop i l) at 3. rewrite elem_of_app. tauto.
Qed.

Lemma length_insert_at {A} i (x : A) l : length (insert_at i x l) = S (length l).
Proof.
  unfold insert_at. rewrite length_app. simpl.
  rewrite <- (take_drop i l) at 3. rewrite length_app. lia.
Qed.

Lemma lower_bound_length {A} (p : A → bool) l : (lower_bound p l <= length l)%nat.
Proof. induction l as [|x l IH]; simpl; [lia|]. destruct (p x); lia. Qed.

Lemma drop_lower_bound {A} (p : A → bool) l : drop (lower_bound p l) l = drop_while p l.
Proof. induction l as [|x l IH]; simpl; [done|]. by destruct (p x). Qed.

(** The search for a value in a sorted vector. *)
Lemma lower_bound_lookup (pub : Z) (l : list Z) :
  StronglySorted Z.le l →
  match l !! lower_bound (λ p, p <? pub) l with Some p => p =? pub | None => false end = true ↔
    pub ∈ l.
Proof.
  induction 1 as [|y l Hl IH Hy]; simpl; [split; [done|by intros ?%elem_of_nil]|].
  rewrite Forall_forall in Hy. destruct (Z.ltb_spec y pub) as [Hlt|Hge]; simpl.
  - rewrite IH, elem_of_cons. split; [by right|]. intros [->|?]; [lia|done].
  - rewrite Z.eqb_eq, elem_of_cons. split; [by left|]. intros [->|Hp]; [done|].
    specialize (Hy _ Hp). lia.
Qed.

(** Case analysis on the first [match] or [if] of the goal. *)
Ltac case_first :=
  match goal with
  | |- context [match ?x with _ => _ end] => destruct x eqn:?
  end.

(** Turns boolean comparisons on [Z] in hypotheses and goal into [Prop]. *)
Ltac to_prop :=
  repeat match goal with
  | H : (_ && _) = true |- _ => apply andb_true_iff in H as [? ?]
  | H : (_ || _) = false |- _ => apply orb_false_iff in H as [? ?]
  | H : negb _ = true |- _ => apply negb_true_iff in H
  | H : negb _ = false |- _ => apply negb_false_iff in H
  | H : (_ <? _) = true |- _ => apply Z.ltb_lt in H
  | H : (_ <? _) = false |- _ => apply Z.ltb_ge in H
  | H : (_ <=? _) = true |- _ => apply Z.leb_le in H
  | H : (_ <=? _) = false |- _ => apply Z.leb_gt in H
  | H : (_ =? _) = true |- _ => apply Z.eqb_eq in H
  | H : (_ =? _) = false |- _ => apply Z.eqb_neq in H
  | H : bool_decide _ = true |- _ => apply bool_decide_eq_true in H
  | H : bool_decide _ = false |- _ => apply bool_decide_eq_false in H
  end.

Create HintDb lws.
Create Rewrite HintDb lws.
#[export] Hint Resolve wrap_range lower_bound_length : lws.
#[export] Hint Rewrite @length_insert_at @drop_lower_bound : lws.

(** ** Bytes *)

(** A byte is an integer of [0, 256); a span of bytes is a list of them. *)
Definition is_byte (b : Z) : Prop := 0 <= b < 256.

(** The little-endian integer a span holds, and the [n] bytes of an integer. *)
Fixpoint le_combine (l : list Z) : Z :=
  match l with
  | [] => 0
  | b :: l => b + 256 * le_combine l
  end.

Fixpoint le_split (n : nat) (z : Z) : list Z :=
  match n with
  | O => []
  | S n => z mod 256 :: le_split n (z / 256)
  end.

Lemma length_le_split n z : length (le_split n z) = n.
Proof. revert z. induction n; simpl; auto. Qed.

Lemma le_combine_split n z : 0 <= z < 256 ^ Z.of_nat n → le_combine (le_split n z) = z.
Proof.
  revert z. induction n as [|n IH]; intros z Hz; cbn [le_split le_combine].
  - change (256 ^ Z.of_nat 0) with 1 in Hz. lia.
  - rewrite Nat2Z.inj_succ, Z.pow_succ_r in Hz by lia. rewrite IH.
    + pose proof (Z.div_mod z 256 ltac:(lia)). lia.
    + split; [apply Z.div_pos; lia|]. apply Z.div_lt_upper_bound; lia.
Qed.

Lemma le_split_combine l : Forall is_byte l → le_split (length l) (le_combine l) = l.
Proof.
  unfold is_byte. induction 1 as [|b l Hb Hl IH]; cbn [length le_split le_combine]; [done|].
  rewrite (Z.mul_comm 256), Z.mod_add, Z.div_add, Z.div_small, Z.mod_small by lia.
  by rewrite Z.add_0_l, IH.
Qed.
