(* ===== verification/Lmdb.v ===== *)
(** * The interface of the key-value store

    The storage component keeps its data in LMDB, a library the repository does
    not contain.  What the storage code relies on is stated here as an
    interface: an abstract type of tables with duplicate keys ([MDB_DUPSORT]),
    the reads it performs through cursors and the two writes, and their
    documented effect on the sorted duplicates of every key ([LmdbLaws]).  The
    storage definitions and theorems are proved against this interface; an
    implementation of it, [ListDb], runs the concrete examples. *)

From S2P Require Import Prelude.

(** A table: its key type, the type of its (duplicate) values, the part of a
    value its comparator looks at, and the two comparators. *)
Record table_spec : Type := TableSpec {
  ts_key : Type;
  ts_val : Type;
  ts_dup : Type;
  ts_dup_of : ts_val → ts_dup;
  ts_key_cmp : ts_key → ts_key → comparison;
  ts_dup_cmp : ts_dup → ts_dup → comparison;
  ts_key_order : CmpOrder ts_key_cmp;
  ts_dup_order : CmpOrder ts_dup_cmp
}.
#[export] Existing Instance ts_key_order.
#[export] Existing Instance ts_dup_order.

Definition cmp_eqb (c : comparison) : bool := match c with Eq => true | _ => false end.
Definition cmp_ltb (c : comparison) : bool := match c with Lt => true | _ => false end.

Lemma cmp_eqb_eq {A} (cmp : A → A → comparison) `{!CmpOrder cmp} x y :
  cmp_eqb (cmp x y) = true ↔ x = y.
Proof. rewrite <-(cmp_eq_iff cmp). destruct (cmp x y); naive_solver. Qed.

Section ordered_dups.
Context (s : table_spec).
Implicit Types (v u : ts_val s) (l : list (ts_val s)) (d : ts_dup s).

Definition dup_lt v u : Prop := ts_dup_cmp s (ts_dup_of s v) (ts_dup_of s u) = Lt.

(** The duplicate [v] has the comparison key [d]. *)
Definition dup_is d v : bool := cmp_eqb (ts_dup_cmp s (ts_dup_of s v) d).

(** [mdb_cursor_put] without [MDB_NODUPDATA] on the duplicates of a key: an
    entry that compares equal is overwritten. *)
Fixpoint insert_dup v l : list (ts_val s) :=
  match l with
  | [] => [v]
  | u :: l' =>
      match ts_dup_cmp s (ts_dup_of s v) (ts_dup_of s u) with
      | Lt => v :: l
      | Eq => v :: l'
      | Gt => u :: insert_dup v l'
      end
  end.

(** [mdb_cursor_del] on the duplicates of a key. *)
Definition delete_dup d l : list (ts_val s) := List.filter (λ v, negb (dup_is d v)) l.

Lemma dup_is_eq d v : dup_is d v = true ↔ ts_dup_of s v = d.
Proof. unfold dup_is. apply (cmp_eqb_eq (ts_dup_cmp s)). Qed.

Lemma dup_is_neq d v : dup_is d v = false ↔ ts_dup_of s v ≠ d.
Proof. rewrite <-dup_is_eq. destruct (dup_is d v); naive_solver. Qed.

#[export] Instance dup_lt_trans : Transitive dup_lt.
Proof. intros v u w. apply (cmp_lt_trans (ts_dup_cmp s)). Qed.

Lemma dup_lt_neq v u : dup_lt v u → ts_dup_of s v ≠ ts_dup_of s u.
Proof. unfold dup_lt. intros Hlt Heq. rewrite Heq in Hlt. by apply (cmp_irrefl (ts_dup_cmp s)) in Hlt. Qed.

Lemma Forall_insert_dup (P : ts_val s → Prop) v l :
  P v → Forall P l → Forall P (insert_dup v l).
Proof.
  intros Hv. induction 1 as [|u l Hu Hl IH]; simpl; [by repeat constructor|].
  destruct (ts_dup_cmp _ _ _); by repeat constructor.
Qed.

Lemma sorted_insert_dup v l :
  StronglySorted dup_lt l → StronglySorted dup_lt (insert_dup v l).
Proof.
  induction 1 as [|u l Hl IH Hu]; simpl; [by repeat constructor|].
  destruct (ts_dup_cmp s (ts_dup_of s v) (ts_dup_of s u)) eqn:E.
  - apply (cmp_eq (ts_dup_cmp s)) in E. constructor; [done|].
    eapply Forall_impl; [exact Hu|]. unfold dup_lt. intros w. by rewrite E.
  - constructor; [by constructor|]. constructor; [done|].
    eapply Forall_impl; [exact Hu|]. intros w. by apply dup_lt_trans.
  - constructor; [done|]. apply Forall_insert_dup; [|done].
    unfold dup_lt. by apply (cmp_gt_lt (ts_dup_cmp s)).
Qed.

Lemma sorted_delete_dup d l :
  StronglySorted dup_lt l → StronglySorted dup_lt (delete_dup d l).
Proof.
  unfold delete_dup. induction 1 as [|u l Hl IH Hu]; simpl; [constructor|].
  destruct (dup_is d u); simpl; [done|]. constructor; [done|].
  apply Forall_forall. intros w [Hw _]%list_elem_of_In%filter_In.
  rewrite Forall_forall in Hu. by apply Hu, list_elem_of_In.
Qed.

Lemma elem_of_delete_dup d l v : v ∈ delete_dup d l ↔ v ∈ l ∧ ts_dup_of s v ≠ d.
Proof.
  unfold delete_dup. rewrite !list_elem_of_In, filter_In, negb_true_iff, dup_is_neq.
  tauto.
Qed.

Lemma elem_of_insert_dup v l u :
  StronglySorted dup_lt l →
  u ∈ insert_dup v l ↔ u = v ∨ (u ∈ l ∧ ts_dup_of s u ≠ ts_dup_of s v).
Proof.
  induction 1 as [|w l Hl IH Hw]; simpl; [set_solver|].
  rewrite Forall_forall in Hw.
  destruct (ts_dup_cmp s (ts_dup_of s v) (ts_dup_of s w)) eqn:E.
  - apply (cmp_eq (ts_dup_cmp s)) in E. rewrite !elem_of_cons. split.
    + intros [->|Hu]; [by left|right]. split; [by right|].
      intros Heq. apply (dup_lt_neq w u); [by apply Hw|congruence].
    + intros [->|[[->|Hu] Hne]]; [by left|congruence|by right].
  - rewrite !elem_of_cons. split; [|naive_solver].
    intros [->|[->|Hu]]; [by left|right|right].
    + split; [by left|]. intros Heq. rewrite Heq in E. by apply (cmp_irrefl (ts_dup_cmp s)) in E.
    + split; [by right|]. intros Heq.
      apply (dup_lt_neq v u); [|done]. trans w; [done|by apply Hw].
  - rewrite !elem_of_cons, IH. split; [|naive_solver].
    intros [->|[->|[Hu Hne]]]; [right|by left|right; by split; [right|]].
    split; [by left|]. intros Heq. rewrite Heq in E. by rewrite (cmp_refl (ts_dup_cmp s)) in E.
Qed.

(** In sorted duplicates the comparison key identifies the value. *)
Lemma sorted_dup_inj l v u :
  StronglySorted dup_lt l → v ∈ l → u ∈ l → ts_dup_of s v = ts_dup_of s u → v = u.
Proof.
  induction 1 as [|w l Hl IH Hw]; [by intros ?%elem_of_nil|].
  rewrite Forall_forall in Hw. rewrite !elem_of_cons.
  intros [->|Hv] [->|Hu] Heq; [done| | |by apply IH].
  - by destruct (dup_lt_neq w u); [apply Hw|].
  - by destruct (dup_lt_neq w v); [apply Hw|].
Qed.

Lemma insert_dup_head v l : Forall (dup_lt v) l → insert_dup v l = v :: l.
Proof. destruct 1 as [|u l Hu]; simpl; [done|]. by rewrite Hu. Qed.

Lemma delete_dup_insert_comm v l d :
  StronglySorted dup_lt l →
  delete_dup d (insert_dup v l) =
    if dup_is d v then delete_dup d l else insert_dup v (delete_dup d l).
Proof.
  intros Hl.
  assert (∀ x y, ts_dup_of s x = ts_dup_of s y → dup_is d x = dup_is d y) as Hd.
  { intros x y Hxy. unfold dup_is. by rewrite Hxy. }
  induction Hl as [|u l Hl IH Hu]; simpl; [by destruct (dup_is d v)|].
  destruct (ts_dup_cmp s (ts_dup_of s v) (ts_dup_of s u)) eqn:E; simpl.
  - apply (cmp_eq (ts_dup_cmp s)) in E. rewrite <-(Hd _ _ E).
    destruct (dup_is d v); simpl; [done|]. by rewrite E, (cmp_refl (ts_dup_cmp s)).
  - destruct (dup_is d v) eqn:Ev, (dup_is d u) eqn:Eu; simpl; try done.
    + symmetry. apply insert_dup_head.
      apply Forall_forall. intros w [Hw _]%elem_of_delete_dup.
      trans u; [done|]. rewrite Forall_forall in Hu. by apply Hu.
    + by rewrite E.
  - rewrite IH. destruct (dup_is d v) eqn:Ev, (dup_is d u) eqn:Eu; simpl; try done.
    by rewrite E.
Qed.
End ordered_dups.

(** ** The operations the storage code calls *)

Class Lmdb : Type := {
  tbl : table_spec → Type;
  (** a table just created *)
  mdb_empty : ∀ s, tbl s;
  (** the keys in order: [MDB_FIRST] and then [MDB_NEXT_NODUP] *)
  mdb_keys : ∀ {s}, tbl s → list (ts_key s);
  (** the duplicates of a key in order: [MDB_SET] and then [MDB_NEXT_DUP] *)
  mdb_dups : ∀ {s}, tbl s → ts_key s → list (ts_val s);
  (** [mdb_cursor_put] with flags 0 or [MDB_CURRENT] *)
  mdb_put : ∀ {s}, tbl s → ts_key s → ts_val s → tbl s;
  (** [mdb_cursor_del] of the entry the cursor is on *)
  mdb_del : ∀ {s}, tbl s → ts_key s → ts_dup s → tbl s
}.

Definition key_is (s : table_spec) (k k' : ts_key s) : bool := cmp_eqb (ts_key_cmp s k k').

Class LmdbLaws (L : Lmdb) : Prop := {
  mdb_dups_empty s k : mdb_dups (mdb_empty s) k = [];
  mdb_dups_sorted s (t : tbl s) k : StronglySorted (dup_lt s) (mdb_dups t k);
  mdb_dups_put s (t : tbl s) k v k' :
    mdb_dups (mdb_put t k v) k' =
      if key_is s k k' then insert_dup s v (mdb_dups t k') else mdb_dups t k';
  mdb_dups_del s (t : tbl s) k d k' :
    mdb_dups (mdb_del t k d) k' =
      if key_is s k k' then delete_dup s d (mdb_dups t k') else mdb_dups t k';
  mdb_keys_spec s (t : tbl s) k : k ∈ mdb_keys t ↔ mdb_dups t k ≠ [];
  mdb_keys_sorted s (t : tbl s) :
    StronglySorted (λ k k', ts_key_cmp s k k' = Lt) (mdb_keys t)
}.

Section derived.
Context `{L : Lmdb} {s : table_spec}.
Implicit Types (t : tbl s) (k : ts_key s) (v : ts_val s) (d : ts_dup s).

(** [MDB_GET_BOTH]: the duplicate of [k] with comparison key [d]. *)
Definition mdb_get_both t k d : option (ts_val s) :=
  List.find (dup_is s d) (mdb_dups t k).

(** [MDB_GET_BOTH_RANGE] and the [MDB_NEXT_DUP]s after it: the duplicates
    from the first one that is not [below] the searched value. *)
Definition mdb_get_both_range t k (below : ts_val s → bool) : list (ts_val s) :=
  drop_while below (mdb_dups t k).

(** [MDB_SET], [MDB_LAST_DUP]. *)
Definition mdb_last_dup t k : option (ts_val s) := last (mdb_dups t k).

(** [mdb_cursor_put] with [MDB_NODUPDATA]. *)
Definition mdb_put_nodup t k v : expect (tbl s) :=
  match mdb_get_both t k (ts_dup_of s v) with
  | Some _ => Err mdb_keyexist
  | None => Ok (mdb_put t k v)
  end.

(** Every entry in order: [MDB_FIRST] and then [MDB_NEXT]. *)
Definition mdb_all t : list (ts_key s * ts_val s) :=
  k ← mdb_keys t; (λ v, (k, v)) <$> mdb_dups t k.
End derived.

Section laws.
Context `{LL : LmdbLaws}.

Lemma key_is_eq s k k' : key_is s k k' = true ↔ k = k'.
Proof. apply (cmp_eqb_eq (ts_key_cmp s)). Qed.

Lemma key_is_refl s k : key_is s k k = true.
Proof. by apply key_is_eq. Qed.

Lemma elem_of_put s (t : tbl s) k v k' u :
  u ∈ mdb_dups (mdb_put t k v) k' ↔
    (k = k' ∧ u = v) ∨ (u ∈ mdb_dups t k' ∧ (k = k' → ts_dup_of s u ≠ ts_dup_of s v)).
Proof.
  rewrite mdb_dups_put. destruct (key_is s k k') eqn:E.
  - apply key_is_eq in E as ->. rewrite elem_of_insert_dup by apply mdb_dups_sorted.
    naive_solver.
  - assert (k ≠ k') by (intros ->; by rewrite key_is_refl in E). naive_solver.
Qed.

Lemma elem_of_del s (t : tbl s) k d k' u :
  u ∈ mdb_dups (mdb_del t k d) k' ↔
    u ∈ mdb_dups t k' ∧ (k = k' → ts_dup_of s u ≠ d).
Proof.
  rewrite mdb_dups_del. destruct (key_is s k k') eqn:E.
  - apply key_is_eq in E as ->. rewrite elem_of_delete_dup. naive_solver.
  - assert (k ≠ k') by (intros ->; by rewrite key_is_refl in E). naive_solver.
Qed.

Lemma dups_put_ne s (t : tbl s) k v k' :
  k ≠ k' → mdb_dups (mdb_put t k v) k' = mdb_dups t k'.
Proof.
  intros Hne. rewrite mdb_dups_put. destruct (key_is s k k') eqn:E; [|done].
  by apply key_is_eq in E.
Qed.

Lemma dups_del_ne s (t : tbl s) k d k' :
  k ≠ k' → mdb_dups (mdb_del t k d) k' = mdb_dups t k'.
Proof.
  intros Hne. rewrite mdb_dups_del. destruct (key_is s k k') eqn:E; [|done].
  by apply key_is_eq in E.
Qed.

Lemma get_both_some s (t : tbl s) k d v :
  mdb_get_both t k d = Some v ↔ v ∈ mdb_dups t k ∧ ts_dup_of s v = d.
Proof.
  unfold mdb_get_both. split.
  - intros [Hin Hd]%find_some. apply dup_is_eq in Hd. by rewrite list_elem_of_In.
  - intros [Hin <-]. destruct (List.find _ _) as [u|] eqn:E.
    + apply find_some in E as [Hu Hd]. apply dup_is_eq in Hd. f_equal.
      apply (sorted_dup_inj s (mdb_dups t k));
        [apply mdb_dups_sorted|by rewrite list_elem_of_In|done|done].
    + apply list_elem_of_In in Hin. eapply find_none in E; [|exact Hin].
      by apply dup_is_neq in E.
Qed.

Lemma get_both_none s (t : tbl s) k d :
  mdb_get_both t k d = None ↔ ∀ v, v ∈ mdb_dups t k → ts_dup_of s v ≠ d.
Proof.
  split.
  - intros E v Hin <-. assert (mdb_get_both t k (ts_dup_of s v) = Some v) as H
      by by apply get_both_some. congruence.
  - intros H. destruct (mdb_get_both t k d) as [v|] eqn:E; [|done].
    apply get_both_some in E as [Hin Hd]. by destruct (H v).
Qed.

Lemma put_nodup_ok s (t : tbl s) k v t' :
  mdb_put_nodup t k v = Ok t' ↔
    t' = mdb_put t k v ∧ ∀ u, u ∈ mdb_dups t k → ts_dup_of s u ≠ ts_dup_of s v.
Proof.
  unfold mdb_put_nodup. rewrite <-get_both_none.
  destruct (mdb_get_both _ _ _); naive_solver.
Qed.

(** An entry of the table is found under its own key and comparison key. *)
Lemma get_both_self s (t : tbl s) k v :
  v ∈ mdb_dups t k → mdb_get_both t k (ts_dup_of s v) = Some v.
Proof. intros Hin. by apply get_both_some. Qed.

Lemma dups_inj s (t : tbl s) k v u :
  v ∈ mdb_dups t k → u ∈ mdb_dups t k → ts_dup_of s v = ts_dup_of s u → v = u.
Proof. apply sorted_dup_inj, mdb_dups_sorted. Qed.

Lemma elem_of_mdb_all s (t : tbl s) k v : (k, v) ∈ mdb_all t ↔ v ∈ mdb_dups t k.
Proof.
  unfold mdb_all. rewrite list_elem_of_bind. split.
  - intros (k' & (v' & [= -> ->] & Hv)%list_elem_of_fmap & Hk). done.
  - intros Hv. exists k. split; [by apply list_elem_of_fmap; eauto|].
    apply mdb_keys_spec. intros E. rewrite E in Hv. by apply elem_of_nil in Hv.
Qed.

(** Entries of one key come in the order of its duplicates. *)
Lemma mdb_all_sorted s (t : tbl s) :
  StronglySorted (λ e e', e.1 = e'.1 → dup_lt s e.2 e'.2) (mdb_all t).
Proof.
  unfold mdb_all. induction (mdb_keys_sorted s t) as [|k l Hl IH Hk]; simpl; [constructor|].
  apply StronglySorted_app. split_and!; [| |exact IH].
  - intros [k1 v1] [k2 v2] (? & [= -> ->] & _)%list_elem_of_fmap
      (k3 & (? & [= -> ->] & _)%list_elem_of_fmap & Hin)%list_elem_of_bind.
    simpl. intros ->. rewrite Forall_forall in Hk. apply Hk in Hin.
    by apply (cmp_irrefl (ts_key_cmp s)) in Hin.
  - induction (mdb_dups_sorted s t k) as [|v vs Hvs IHvs Hv]; simpl; constructor; [done|].
    apply Forall_fmap. eapply Forall_impl; [exact Hv|]. by intros u Hu _.
Qed.

Lemma mdb_all_keys_sorted s (t : tbl s) (R : ts_key s → ts_key s → Prop) :
  (∀ k, R k k) → (∀ k k', ts_key_cmp s k k' = Lt → R k k') →
  StronglySorted (λ e e', R e.1 e'.1) (mdb_all t).
Proof.
  intros Hrefl HR. unfold mdb_all.
  induction (mdb_keys_sorted s t) as [|k l Hl IH Hk]; simpl; [constructor|].
  apply StronglySorted_app. split_and!; [| |exact IH].
  - intros [k1 v1] [k2 v2] (? & [= -> ->] & _)%list_elem_of_fmap
      (k3 & (? & [= -> ->] & _)%list_elem_of_fmap & Hin)%list_elem_of_bind.
    simpl. rewrite Forall_forall in Hk. by apply HR, Hk.
  - induction (mdb_dups t k) as [|v vs IHvs]; simpl; constructor; [done|].
    apply Forall_fmap, Forall_forall. intros u _. apply Hrefl.
Qed.
End laws.

(** ** An implementation

    A table is the log of its surviving puts, the latest first; the reads sort
    it.  Every law holds of every log. *)
Module ListDb.
Definition log (s : table_spec) : Type := list (ts_key s * ts_val s).

Definition dups {s} (t : log s) (k : ts_key s) : list (ts_val s) :=
  foldr (λ e acc, if key_is s e.1 k then insert_dup s e.2 acc else acc) [] t.

Fixpoint insert_key {s : table_spec} (k : ts_key s) (l : list (ts_key s)) : list (ts_key s) :=
  match l with
  | [] => [k]
  | k' :: l' =>
      match ts_key_cmp s k k' with Lt => k :: l | Eq => l | Gt => k' :: insert_key k l' end
  end.

Definition keys {s} (t : log s) : list (ts_key s) := foldr (λ e, insert_key e.1) [] t.

Definition put {s} (t : log s) (k : ts_key s) (v : ts_val s) : log s := (k, v) :: t.

Definition del {s} (t : log s) (k : ts_key s) (d : ts_dup s) : log s :=
  List.filter (λ e, negb (key_is s k e.1 && dup_is s d e.2)) t.

Lemma log_dups_sorted s (t : log s) k : StronglySorted (dup_lt s) (dups t k).
Proof.
  induction t as [|[k' v] t IH]; simpl; [constructor|].
  destruct (key_is s k' k); [by apply sorted_insert_dup|done].
Qed.

Lemma dups_del s (t : log s) k d k' :
  dups (del t k d) k' = if key_is s k k' then delete_dup s d (dups t k') else dups t k'.
Proof.
  destruct (key_is s k k') eqn:E.
  - apply (cmp_eqb_eq (ts_key_cmp s)) in E as <-.
    induction t as [|[k0 v] t IH]; simpl; [done|].
    destruct (key_is s k k0) eqn:E0; simpl.
    + apply (cmp_eqb_eq (ts_key_cmp s)) in E0 as <-.
      assert (key_is s k k = true) as Hk by by apply (cmp_eqb_eq (ts_key_cmp s)).
      rewrite Hk, delete_dup_insert_comm by apply log_dups_sorted.
      destruct (dup_is s d v); simpl; [done|]. by rewrite Hk, IH.
    + destruct (key_is s k0 k) eqn:E1; [|done].
      apply (cmp_eqb_eq (ts_key_cmp s)) in E1 as ->.
      unfold key_is in E0. by rewrite (cmp_refl (ts_key_cmp s)) in E0.
  - induction t as [|[k0 v] t IH]; simpl; [done|].
    destruct (key_is s k k0) eqn:E0; simpl; [|by rewrite IH].
    apply (cmp_eqb_eq (ts_key_cmp s)) in E0 as <-.
    destruct (dup_is s d v); simpl; by rewrite E, ?IH.
Qed.

Lemma elem_of_insert_key s (k k' : ts_key s) l : k' ∈ insert_key k l ↔ k' = k ∨ k' ∈ l.
Proof.
  induction l as [|k0 l IH]; simpl; [set_solver|].
  destruct (ts_key_cmp s k k0) eqn:E; [apply (cmp_eq (ts_key_cmp s)) in E as ->| |];
    rewrite ?elem_of_cons, ?IH; set_solver.
Qed.

Lemma keys_sorted s (t : log s) :
  StronglySorted (λ k k', ts_key_cmp s k k' = Lt) (keys t).
Proof.
  induction t as [|[k v] t IH]; simpl; [constructor|]. revert IH.
  generalize (keys t). induction 1 as [|k0 l Hl IH Hk]; simpl; [by repeat constructor|].
  destruct (ts_key_cmp s k k0) eqn:E.
  - by constructor.
  - constructor; [by constructor|]. constructor; [done|].
    eapply Forall_impl; [exact Hk|]. intros k1. by apply (cmp_lt_trans (ts_key_cmp s)).
  - constructor; [done|]. apply Forall_forall. intros k1 [->|Hin]%elem_of_insert_key.
    + by apply (cmp_gt_lt (ts_key_cmp s)).
    + rewrite Forall_forall in Hk. by apply Hk.
Qed.

Lemma insert_dup_nonempty s v l : insert_dup s v l ≠ [].
Proof. destruct l; simpl; [done|]. by destruct (ts_dup_cmp _ _ _). Qed.

Lemma keys_spec s (t : log s) k : k ∈ keys t ↔ dups t k ≠ [].
Proof.
  induction t as [|[k0 v] t IH]; simpl; [set_solver|]. rewrite elem_of_insert_key.
  destruct (key_is s k0 k) eqn:E.
  - apply (cmp_eqb_eq (ts_key_cmp s)) in E as ->.
    split; [intros _; apply insert_dup_nonempty|by left].
  - rewrite IH. split; [intros [->|?]; [|done]|by right].
    unfold key_is in E. by rewrite (cmp_refl (ts_key_cmp s)) in E.
Qed.

Definition lmdb : Lmdb := {|
  tbl := log; mdb_empty := λ s, []; mdb_keys := @keys; mdb_dups := @dups;
  mdb_put := @put; mdb_del := @del |}.

Lemma lmdb_laws : LmdbLaws lmdb.
Proof.
  split; simpl; intros.
  - done.
  - apply log_dups_sorted.
  - done.
  - apply dups_del.
  - apply keys_spec.
  - apply keys_sorted.
Qed.
End ListDb.
#[export] Existing Instance ListDb.lmdb_laws.
