(* ===== verification/Data.v ===== *)
(** * Database types (src/src/db/data.h, src/src/db/data.cpp)

    Plain structs are records, enum classes are inductive types or integers of
    their width.  [crypto::hash], keys and key images are opaque blocks of 32
    bytes the code only copies and compares with [std::memcmp]: they are the
    256-bit number the bytes spell, most significant first, so that [memcmp]
    is [Z.compare].  Payment ids, which the code also reads in parts, are lists
    of bytes. *)

From S2P Require Import Prelude.

(** ** Scalars *)

Definition account_id_invalid : Z := u32_max.
Definition block_id_txpool : Z := u64_max.

(** [to_uint(...)]: the integer under an enum class. *)
Definition to_uint (x : Z) : Z := x.

Record output_id := OutputId { high : Z; low : Z }.

Definition output_id_txpool : output_id := OutputId 0 u64_max.

Inductive account_status := active | inactive | hidden.

Definition account_status_to_Z (s : account_status) : Z :=
  match s with active => 0 | inactive => 1 | hidden => 2 end.

(** [account_flags], a bitmask. *)
Definition default_account : Z := 0.
Definition admin_account : Z := 1.
Definition account_generated_locally : Z := 2.

Inductive request := create | import_scan.

Definition request_to_Z (r : request) : Z := match r with create => 0 | import_scan => 1 end.

Record account_address := AccountAddress { view_public : Z; spend_public : Z }.

Record address_index := AddressIndex { maj_i : Z; min_i : Z }.

Definition is_zero (i : address_index) : bool := (maj_i i =? 0) && (min_i i =? 0).

(** [index_range] is the pair of the first and last minor index. *)
Definition index_range : Type := Z * Z.
Definition subaddress_dict : Type := Z * list index_range.

Record subaddress_map := SubaddressMap { sm_subaddress : Z; sm_index : address_index }.

Record account := Account {
  acc_id : Z;
  acc_access : Z;
  acc_address : account_address;
  acc_key : Z;
  acc_scan_height : Z;
  acc_start_height : Z;
  acc_creation : Z;
  acc_flags : Z;
  acc_lookahead : address_index;
  acc_lookahead_fail : Z
}.

Record block_info := BlockInfo { bi_id : Z; bi_hash : Z }.
Record block_difficulty := BlockDifficulty { bd_high : Z; bd_low : Z }.
Record block_pow := BlockPow { bp_id : Z; bp_timestamp : Z; bp_cumulative_diff : block_difficulty }.
Record pow_sync := PowSync { ps_timestamp : Z; ps_cumulative_diff : block_difficulty }.

Record transaction_link := TransactionLink { tl_height : Z; tl_tx_hash : Z }.

(** [extra] flags and the byte they share with the length of the payment id. *)
Definition coinbase_output : Z := 1.
Definition ringct_output : Z := 2.

Record spend_meta := SpendMeta {
  sme_id : output_id;
  sme_amount : Z;
  sme_mixin_count : Z;
  sme_index : Z;
  sme_tx_public : Z
}.

(** [payment_id] is the union of [short_] (its first 8 bytes) and [long_] (all 32). *)
Record output := Output {
  o_link : transaction_link;
  o_spend_meta : spend_meta;
  o_timestamp : Z;
  o_unlock_time : Z;
  o_tx_prefix_hash : Z;
  o_pub : Z;
  o_ringct_mask : Z;
  o_extra : Z;
  o_payment_id : list Z;
  o_fee : Z;
  o_recipient : address_index
}.

Record spend := Spend {
  s_link : transaction_link;
  s_image : Z;
  s_source : output_id;
  s_timestamp : Z;
  s_unlock_time : Z;
  s_mixin_count : Z;
  s_length : Z;
  s_payment_id : list Z;
  s_sender : address_index
}.

Record key_image := KeyImage { ki_value : Z; ki_link : transaction_link }.

Record key_image_source := KeyImageSource {
  kis_image : Z;
  kis_source : output_id;
  kis_tx_hash : Z;
  kis_pub : Z;
  kis_out_index : Z
}.

Record pending_spend := PendingSpend {
  pend_source : output_id;
  pend_tx_hash : Z;
  pend_pub : Z;
  pend_out_index : Z;
  pend_recorded : Z
}.

Record request_info := RequestInfo {
  ri_address : account_address;
  ri_key : Z;
  ri_start_height : Z;
  ri_creation : Z;
  ri_creation_flags : Z;
  ri_lookahead : address_index
}.

Inductive webhook_type := tx_confirmation | new_account | tx_spend.

Definition webhook_type_to_Z (t : webhook_type) : Z :=
  match t with tx_confirmation => 0 | new_account => 1 | tx_spend => 2 end.

Record webhook_key := WebhookKey { wk_user : Z; wk_type : webhook_type }.
Record webhook_dupsort := WebhookDupsort { wd_payment_id : Z; wd_event_id : Z }.
Record webhook_data := WebhookData { wd_url : string; wd_token : string; wd_confirmations : Z }.
Definition webhook_value : Type := webhook_dupsort * webhook_data.

Record webhook_tx_confirmation := WebhookTxConfirmation {
  wtc_key : webhook_key;
  wtc_value : webhook_value;
  wtc_tx_info : output
}.

Record webhook_tx_spend := WebhookTxSpend {
  wts_key : webhook_key;
  wts_value : webhook_value;
  wts_input : spend;
  wts_source : spend_meta
}.

Record webhook_output := WebhookOutput { wo_tx : transaction_link; wo_out : output_id }.
Record webhook_event := WebhookEvent { we_link : webhook_output; we_link_webhook : webhook_dupsort }.
Record webhook_new_account := WebhookNewAccount {
  wna_value : webhook_value;
  wna_account : account_address
}.

(** ** Decidable equality *)

#[global] Instance output_id_eq_dec : EqDecision output_id.
Proof. solve_decision. Defined.
#[global] Instance account_status_eq_dec : EqDecision account_status.
Proof. solve_decision. Defined.
#[global] Instance request_eq_dec : EqDecision request.
Proof. solve_decision. Defined.
#[global] Instance account_address_eq_dec : EqDecision account_address.
Proof. solve_decision. Defined.
#[global] Instance address_index_eq_dec : EqDecision address_index.
Proof. solve_decision. Defined.
#[global] Instance block_info_eq_dec : EqDecision block_info.
Proof. solve_decision. Defined.
#[global] Instance block_difficulty_eq_dec : EqDecision block_difficulty.
Proof. solve_decision. Defined.
#[global] Instance transaction_link_eq_dec : EqDecision transaction_link.
Proof. solve_decision. Defined.
#[global] Instance spend_meta_eq_dec : EqDecision spend_meta.
Proof. solve_decision. Defined.
#[global] Instance output_eq_dec : EqDecision output.
Proof. solve_decision. Defined.
#[global] Instance spend_eq_dec : EqDecision spend.
Proof. solve_decision. Defined.
#[global] Instance key_image_source_eq_dec : EqDecision key_image_source.
Proof. solve_decision. Defined.
#[global] Instance webhook_type_eq_dec : EqDecision webhook_type.
Proof. solve_decision. Defined.

(** ** The comparison operators of data.h and data.cpp *)

Definition address_index_ltb (l r : address_index) : bool :=
  if maj_i l =? maj_i r then min_i l <? min_i r else maj_i l <? maj_i r.

Definition output_id_eqb (l r : output_id) : bool := (high l =? high r) && (low l =? low r).

Definition output_id_ltb (l r : output_id) : bool :=
  if high l =? high r then low l <? low r else high l <? high r.

Definition output_id_leb (l r : output_id) : bool :=
  if high l =? high r then low l <=? low r else high l <? high r.

Definition transaction_link_eqb (l r : transaction_link) : bool :=
  (tl_height l =? tl_height r) && (tl_tx_hash l =? tl_tx_hash r).

Definition transaction_link_ltb (l r : transaction_link) : bool :=
  if tl_height l =? tl_height r then tl_tx_hash l <? tl_tx_hash r
  else tl_height l <? tl_height r.

Definition transaction_link_leb (l r : transaction_link) : bool :=
  if tl_height r =? tl_height l then tl_tx_hash l <=? tl_tx_hash r
  else tl_height l <? tl_height r.

Definition webhook_key_ltb (l r : webhook_key) : bool :=
  if wk_user l =? wk_user r then webhook_type_to_Z (wk_type l) <? webhook_type_to_Z (wk_type r)
  else wk_user l <? wk_user r.

Definition webhook_dupsort_ltb (l r : webhook_dupsort) : bool :=
  if wd_payment_id l =? wd_payment_id r then wd_event_id l <? wd_event_id r
  else wd_payment_id l <? wd_payment_id r.

Definition webhook_output_eqb (l r : webhook_output) : bool :=
  output_id_eqb (wo_out l) (wo_out r) && transaction_link_eqb (wo_tx l) (wo_tx r).

Definition webhook_output_ltb (l r : webhook_output) : bool :=
  if transaction_link_eqb (wo_tx l) (wo_tx r) then output_id_ltb (wo_out l) (wo_out r)
  else transaction_link_ltb (wo_tx l) (wo_tx r).

Definition webhook_event_ltb (l r : webhook_event) : bool :=
  if webhook_output_eqb (we_link l) (we_link r)
  then webhook_dupsort_ltb (we_link_webhook l) (we_link_webhook r)
  else webhook_output_ltb (we_link l) (we_link r).


(** ** The comparisons as total orders

    [x < y] of the C++ operators is [cmp x y = Lt] of a three-way comparison,
    so that the library on [CmpOrder] applies to them. *)

Definition output_id_cmp : output_id → output_id → comparison :=
  proj_cmp (λ o, (high o, low o)) (lex_cmp Z.compare Z.compare).
Definition transaction_link_cmp : transaction_link → transaction_link → comparison :=
  proj_cmp (λ l, (tl_height l, tl_tx_hash l)) (lex_cmp Z.compare Z.compare).
Definition address_index_cmp : address_index → address_index → comparison :=
  proj_cmp (λ i, (maj_i i, min_i i)) (lex_cmp Z.compare Z.compare).
Definition webhook_key_cmp : webhook_key → webhook_key → comparison :=
  proj_cmp (λ k, (wk_user k, webhook_type_to_Z (wk_type k))) (lex_cmp Z.compare Z.compare).
Definition webhook_dupsort_cmp : webhook_dupsort → webhook_dupsort → comparison :=
  proj_cmp (λ d, (wd_payment_id d, wd_event_id d)) (lex_cmp Z.compare Z.compare).
Definition webhook_output_cmp : webhook_output → webhook_output → comparison :=
  proj_cmp (λ o, (wo_tx o, wo_out o)) (lex_cmp transaction_link_cmp output_id_cmp).
Definition webhook_event_cmp : webhook_event → webhook_event → comparison :=
  proj_cmp (λ e, (we_link e, we_link_webhook e)) (lex_cmp webhook_output_cmp webhook_dupsort_cmp).

#[export] Instance output_id_order : CmpOrder output_id_cmp.
Proof. apply proj_cmp_order; [|apply _]. by intros [] [] [= -> ->]. Qed.
#[export] Instance transaction_link_order : CmpOrder transaction_link_cmp.
Proof. apply proj_cmp_order; [|apply _]. by intros [] [] [= -> ->]. Qed.
#[export] Instance address_index_order : CmpOrder address_index_cmp.
Proof. apply proj_cmp_order; [|apply _]. by intros [] [] [= -> ->]. Qed.
#[export] Instance webhook_key_order : CmpOrder webhook_key_cmp.
Proof. apply proj_cmp_order; [|apply _]. by intros [? []] [? []] [= ->]. Qed.
#[export] Instance webhook_dupsort_order : CmpOrder webhook_dupsort_cmp.
Proof. apply proj_cmp_order; [|apply _]. by intros [] [] [= -> ->]. Qed.
#[export] Instance webhook_output_order : CmpOrder webhook_output_cmp.
Proof. apply proj_cmp_order; [|apply _]. by intros [] [] [= -> ->]. Qed.
#[export] Instance webhook_event_order : CmpOrder webhook_event_cmp.
Proof. apply proj_cmp_order; [|apply _]. by intros [] [] [= -> ->]. Qed.

(** Closes the agreement of a boolean operator with a lexicographic comparison. *)
Ltac solve_ltb :=
  unfold proj_cmp, lex_cmp; simpl;
  repeat match goal with
  | |- context [?x =? ?y] => destruct (Z.eqb_spec x y) as [->|]
  | |- context [?x ?= ?x] => rewrite Z.compare_refl
  | |- context [?x ?= ?y] => destruct (Z.compare_spec x y)
  end; rewrite ?Z.ltb_lt; split; intros; try done; lia.

Lemma output_id_ltb_cmp x y : output_id_ltb x y = true ↔ output_id_cmp x y = Lt.
Proof. unfold output_id_ltb, output_id_cmp. solve_ltb. Qed.
Lemma transaction_link_ltb_cmp x y :
  transaction_link_ltb x y = true ↔ transaction_link_cmp x y = Lt.
Proof. unfold transaction_link_ltb, transaction_link_cmp. solve_ltb. Qed.
Lemma address_index_ltb_cmp x y : address_index_ltb x y = true ↔ address_index_cmp x y = Lt.
Proof. unfold address_index_ltb, address_index_cmp. solve_ltb. Qed.
Lemma webhook_key_ltb_cmp x y : webhook_key_ltb x y = true ↔ webhook_key_cmp x y = Lt.
Proof. unfold webhook_key_ltb, webhook_key_cmp. solve_ltb. Qed.
Lemma webhook_dupsort_ltb_cmp x y :
  webhook_dupsort_ltb x y = true ↔ webhook_dupsort_cmp x y = Lt.
Proof. unfold webhook_dupsort_ltb, webhook_dupsort_cmp. solve_ltb. Qed.

Lemma output_id_eqb_eq x y : output_id_eqb x y = true ↔ x = y.
Proof.
  unfold output_id_eqb. rewrite andb_true_iff, !Z.eqb_eq.
  destruct x, y; simpl. naive_solver.
Qed.
Lemma transaction_link_eqb_eq x y : transaction_link_eqb x y = true ↔ x = y.
Proof.
  unfold transaction_link_eqb. rewrite andb_true_iff, !Z.eqb_eq.
  destruct x, y; simpl. naive_solver.
Qed.
Lemma webhook_output_eqb_eq x y : webhook_output_eqb x y = true ↔ x = y.
Proof.
  unfold webhook_output_eqb. rewrite andb_true_iff, output_id_eqb_eq, transaction_link_eqb_eq.
  destruct x, y; simpl. naive_solver.
Qed.

(** ** Operations of data.h and data.cpp *)

(** [pack] and [unpack]: the flags in the top two bits, the length below. *)
Definition pack (val length : Z) : Z :=
  wrap 8 (Z.lor (Z.shiftl val 6) (Z.land length 63)).

Definition unpack (val : Z) : Z * Z := (Z.shiftr val 6, Z.land val 63).
Arguments unpack : simpl never.

(** The loop of [check_subaddress_dict]; [last] is [None] for the first range. *)
Fixpoint check_ranges (last : option Z) (l : list index_range) : bool :=
  match l with
  | [] => true
  | (first, second) :: l =>
      if second <? first then false
      else if (match last with Some p => first <=? p + 1 | None => false end) then false
      else check_ranges (Some second) l
  end.

Definition check_subaddress_dict (self : subaddress_dict) : bool := check_ranges None self.2.

(** [read_bytes] and [write_bytes] of a [subaddress_dict], after the fields
    are decoded. *)
Definition checked_subaddress_dict (self : subaddress_dict) : expect subaddress_dict :=
  if check_subaddress_dict self then Ok self else Err (schema schema_array).

(** [block_difficulty]: a 128-bit integer in two halves. *)
Definition set_difficulty (i : Z) : block_difficulty :=
  BlockDifficulty (Z.land (Z.shiftr i 64) u64_max) (Z.land i u64_max).

Definition get_difficulty (d : block_difficulty) : Z :=
  wrap 128 (Z.shiftl (bd_high d) 64) + bd_low d.

(** The primitives of Monero's crypto library the code calls;
    [secret_key_to_public_key] fails on a key that is not a reduced scalar. *)
Class Crypto : Type := {
  HASH_KEY_SUBADDRESS : list Z;
  hash_to_scalar : list Z → Z;
  secret_key_to_public_key : Z → option Z;
  addKeys : Z → Z → Z
}.

(** An injective stand-in for the examples, in which a secret key is its own
    public key. *)
Definition test_crypto : Crypto :=
  {| HASH_KEY_SUBADDRESS := [83; 0];
     hash_to_scalar l := le_combine (drop 34 l);
     secret_key_to_public_key := Some;
     addKeys := Z.add |}.

(** The 32 bytes of a key. *)
Definition key_bytes (k : Z) : list Z := rev (le_split 32 k).

Definition subaddress_message `{Crypto} (a major minor : Z) : list Z :=
  HASH_KEY_SUBADDRESS ++ key_bytes a ++ le_split 4 major ++ le_split 4 minor.

Definition get_subaddress_secret_key `{Crypto} (a major minor : Z) : Z :=
  hash_to_scalar (subaddress_message a major minor).

Definition get_spend_public `{Crypto} (self : address_index) (base : account_address)
    (view : Z) : Z :=
  if is_zero self then spend_public base
  else
    let m := get_subaddress_secret_key view (maj_i self) (min_i self) in
    addKeys (spend_public base) (default 0 (secret_key_to_public_key m)).

(** ** The wire form of an output and of a spend

    The fields [wire::object] reads and writes; an optional field may be absent. *)

Record wire_output := WireOutput {
  w_id : option output_id;
  w_block : option Z;
  w_index : Z;
  w_amount : Z;
  w_timestamp : Z;
  w_tx_hash : Z;
  w_tx_prefix_hash : Z;
  w_tx_public : Z;
  w_rct_mask : option Z;
  w_payment_id : option (list Z);
  w_unlock_time : Z;
  w_mixin_count : Z;
  w_coinbase : bool;
  w_fee : Z;
  w_recipient : address_index;
  w_pub : Z
}.

(** [wire::defaulted]: omitted when equal to the default, the default when absent. *)
Definition write_defaulted {A} `{EqDecision A} (value default_ : A) : option A :=
  if decide (value = default_) then None else Some value.
Definition read_defaulted {A} (o : option A) (default_ : A) : A := default default_ o.

(** [std::memcpy] of [n] bytes over the start of [dest]. *)
Definition memcpy (n : nat) (dest src : list Z) : list Z := take n src ++ drop n dest.

(** [read_bytes(wire::reader&, output&)]; [self] is the object read into, of
    which only the payment id survives in part. *)
Definition read_output (source : wire_output) (self : list Z) : expect output :=
  let pay_length :=
    match w_payment_id source with Some p => wrap 8 (Z.of_nat (length p)) | None => 0 end in
  _ ← guard_err ((pay_length =? 0) || (pay_length =? 8) || (pay_length =? 32))
        (schema schema_binary);
  let bytes := default [] (w_payment_id source) in
  let payment_id := if pay_length =? 8 then memcpy 8 self bytes else self in
  let payment_id := if pay_length =? 32 then memcpy 32 payment_id bytes else payment_id in
  let flags := if w_coinbase source then coinbase_output else 0 in
  let flags := match w_rct_mask source with
               | Some _ => Z.lor ringct_output flags
               | None => flags
               end in
  Ok {| o_link := TransactionLink (read_defaulted (w_block source) block_id_txpool)
                    (w_tx_hash source);
        o_spend_meta := SpendMeta (read_defaulted (w_id source) output_id_txpool)
                          (w_amount source) (w_mixin_count source) (w_index source)
                          (w_tx_public source);
        o_timestamp := w_timestamp source;
        o_unlock_time := w_unlock_time source;
        o_tx_prefix_hash := w_tx_prefix_hash source;
        o_pub := w_pub source;
        o_ringct_mask := default 0 (w_rct_mask source);
        o_extra := pack flags pay_length;
        o_payment_id := payment_id;
        o_fee := w_fee source;
        o_recipient := w_recipient source |}.

Definition write_output (self : output) : wire_output :=
  let unpacked := unpack (o_extra self) in
  let coinbase := negb (Z.land unpacked.1 coinbase_output =? 0) in
  let rct := negb (Z.land unpacked.1 ringct_output =? 0) in
  let payment_bytes :=
    if unpacked.2 =? 32 then o_payment_id self
    else if unpacked.2 =? 8 then take 8 (o_payment_id self)
    else [] in
  {| w_id := write_defaulted (sme_id (o_spend_meta self)) output_id_txpool;
     w_block := write_defaulted (tl_height (o_link self)) block_id_txpool;
     w_index := sme_index (o_spend_meta self);
     w_amount := sme_amount (o_spend_meta self);
     w_timestamp := o_timestamp self;
     w_tx_hash := tl_tx_hash (o_link self);
     w_tx_prefix_hash := o_tx_prefix_hash self;
     w_tx_public := sme_tx_public (o_spend_meta self);
     w_rct_mask := if rct then Some (o_ringct_mask self) else None;
     w_payment_id := match payment_bytes with [] => None | _ => Some payment_bytes end;
     w_unlock_time := o_unlock_time self;
     w_mixin_count := sme_mixin_count (o_spend_meta self);
     w_coinbase := coinbase;
     w_fee := o_fee self;
     w_recipient := o_recipient self;
     w_pub := o_pub self |}.

Record wire_spend := WireSpend {
  ws_height : Z;
  ws_tx_hash : Z;
  ws_image : Z;
  ws_source : output_id;
  ws_timestamp : Z;
  ws_unlock_time : Z;
  ws_mixin_count : Z;
  ws_payment_id : option (list Z);
  ws_sender : address_index
}.

Definition read_spend (source : wire_spend) (self : list Z) : spend :=
  {| s_link := TransactionLink (ws_height source) (ws_tx_hash source);
     s_image := ws_image source;
     s_source := ws_source source;
     s_timestamp := ws_timestamp source;
     s_unlock_time := ws_unlock_time source;
     s_mixin_count := ws_mixin_count source;
     s_length := match ws_payment_id source with Some _ => 32 | None => 0 end;
     s_payment_id := default self (ws_payment_id source);
     s_sender := ws_sender source |}.

Definition write_spend (source : spend) : wire_spend :=
  {| ws_height := tl_height (s_link source);
     ws_tx_hash := tl_tx_hash (s_link source);
     ws_image := s_image source;
     ws_source := s_source source;
     ws_timestamp := s_timestamp source;
     ws_unlock_time := s_unlock_time source;
     ws_mixin_count := s_mixin_count source;
     ws_payment_id := if s_length source =? 32 then Some (s_payment_id source) else None;
     ws_sender := s_sender source |}.

(** ** Theorems *)

Lemma pack_eq val length :
  0 <= val < 4 → 0 <= length < 64 → pack val length = val * 64 + length.
Proof.
  intros Hv Hl. unfold pack. change 63 with (2 ^ 6 - 1). rewrite land_ones_mod by lia.
  rewrite (Z.mod_small length), lor_shiftl_add by lia. apply wrap_small. lia.
Qed.

Lemma unpack_eq val : unpack val = (val / 64, val mod 64).
Proof.
  unfold unpack. change 63 with (2 ^ 6 - 1). rewrite land_ones_mod by lia.
  by rewrite Z.shiftr_div_pow2 by lia.
Qed.

(** [unpack] inverts [pack] on the flags and lengths the code packs. *)
Lemma unpack_pack val length :
  0 <= val < 4 → 0 <= length < 64 → unpack (pack val length) = (val, length).
Proof.
  intros Hv Hl. rewrite unpack_eq, pack_eq by done.
  rewrite Z.add_comm, Z.mod_add, Z.div_add, Z.div_small, Z.mod_small by lia. done.
Qed.

Lemma pack_unpack x : is_byte x → pack (unpack x).1 (unpack x).2 = x.
Proof.
  unfold is_byte. intros Hx. rewrite unpack_eq. simpl.
  pose proof (Z.div_mod x 64 ltac:(lia)). pose proof (Z.mod_pos_bound x 64 ltac:(lia)).
  rewrite pack_eq; lia.
Qed.

(** Ranges as the database keeps them: none empty, each ending more than one
    before the start of the next. *)
Definition ranges_ok (l : list index_range) : Prop :=
  Forall (λ r, r.1 <= r.2) l ∧ StronglySorted (λ r r', r.2 + 1 < r'.1) l.

Lemma check_ranges_spec last l :
  check_ranges last l = true ↔
    ranges_ok l ∧ (∀ p r, last = Some p → r ∈ l → p + 1 < r.1).
Proof.
  unfold ranges_ok. revert last. induction l as [|[first second] l IH]; intros last; simpl.
  { split; [|done]. intros _. repeat split; try constructor. by intros p r _ ?%elem_of_nil. }
  destruct (second <? first) eqn:E1.
  { to_prop. split; [done|]. intros [[HF _] _]. apply Forall_cons in HF as [HF _]. simpl in HF. lia. }
  to_prop. destruct last as [p|]; [destruct (first <=? p + 1) eqn:E2|].
  { to_prop. split; [done|]. intros [_ Hp].
    specialize (Hp p (first, second) eq_refl ltac:(left)). simpl in Hp. lia. }
  all: rewrite IH; to_prop; split.
  - intros [[HF HS] Hp]. repeat split; [by constructor| |].
    + constructor; [done|]. apply Forall_forall. intros r Hr. by apply (Hp second).
    + intros p' r [= <-] [->|Hr]%elem_of_cons; [simpl; lia|]. specialize (Hp second r eq_refl Hr). lia.
  - intros [[HF HS] Hp]. apply Forall_cons in HF as [_ HF]. apply StronglySorted_inv in HS as [HS Hl].
    repeat split; [done..|]. intros p' r [= <-] Hr. rewrite Forall_forall in Hl. by apply Hl.
  - intros [[HF HS] Hp]. repeat split; [by constructor| |done].
    constructor; [done|]. apply Forall_forall. intros r Hr. by apply (Hp second).
  - intros [[HF HS] Hp]. apply Forall_cons in HF as [_ HF]. apply StronglySorted_inv in HS as [HS Hl].
    repeat split; [done..|]. intros p' r [= <-] Hr. rewrite Forall_forall in Hl. by apply Hl.
Qed.

Lemma check_subaddress_dict_ok self : check_subaddress_dict self = true ↔ ranges_ok self.2.
Proof. unfold check_subaddress_dict. rewrite check_ranges_spec. naive_solver. Qed.

Lemma set_difficulty_eq i :
  0 <= i < 2 ^ 128 → set_difficulty i = BlockDifficulty (i / 2 ^ 64) (i mod 2 ^ 64).
Proof.
  intros Hi. unfold set_difficulty, u64_max. rewrite !land_ones_mod, Z.shiftr_div_pow2 by lia.
  f_equal. apply Z.mod_small. split; [apply Z.div_pos; lia|apply Z.div_lt_upper_bound; lia].
Qed.

(** A stored difficulty is read back, and splitting is canonical. *)
Lemma get_set_difficulty i : 0 <= i < 2 ^ 128 → get_difficulty (set_difficulty i) = i.
Proof.
  intros Hi. rewrite set_difficulty_eq by done. unfold get_difficulty. simpl.
  pose proof (Z.div_mod i (2 ^ 64) ltac:(lia)). pose proof (Z.mod_pos_bound i (2 ^ 64) ltac:(lia)).
  rewrite Z.shiftl_mul_pow2 by lia. rewrite wrap_small; lia.
Qed.

Lemma set_get_difficulty d :
  0 <= bd_high d < 2 ^ 64 → 0 <= bd_low d < 2 ^ 64 → set_difficulty (get_difficulty d) = d.
Proof.
  destruct d as [h l]. simpl. intros Hh Hl. unfold get_difficulty. simpl.
  rewrite Z.shiftl_mul_pow2, wrap_small by lia.
  rewrite set_difficulty_eq by lia.
  by rewrite Z.add_comm, Z.div_add, Z.mod_add, Z.div_small, Z.mod_small, Z.add_0_l by lia.
Qed.

(** The hashed message names the subaddress: no two keys and indexes share one. *)
Lemma le_split_inj n x y :
  0 <= x < 256 ^ Z.of_nat n → 0 <= y < 256 ^ Z.of_nat n → le_split n x = le_split n y → x = y.
Proof. intros Hx Hy E. by rewrite <-(le_combine_split n x), E, le_combine_split. Qed.

Lemma subaddress_message_inj `{Crypto} a a' maj maj' min min' :
  0 <= a < 2 ^ 256 → 0 <= a' < 2 ^ 256 →
  0 <= maj <= u32_max → 0 <= maj' <= u32_max → 0 <= min <= u32_max → 0 <= min' <= u32_max →
  subaddress_message a maj min = subaddress_message a' maj' min' →
  a = a' ∧ maj = maj' ∧ min = min'.
Proof.
  unfold u32_max. intros ?????? E. unfold subaddress_message, key_bytes in E.
  apply (inj (app _)) in E.
  apply app_inj_1 in E as [E1 E]; [|by rewrite !length_rev, !length_le_split].
  apply app_inj_1 in E as [E2 E3]; [|by rewrite !length_le_split].
  apply (f_equal (@rev Z)) in E1. rewrite !rev_involutive in E1.
  split_and!; [apply (le_split_inj 32)|apply (le_split_inj 4)|apply (le_split_inj 4)]; done || lia.
Qed.

(** *** The wire round trips *)

Lemma read_write_defaulted {A} `{EqDecision A} (v d : A) :
  read_defaulted (write_defaulted v d) d = v.
Proof. unfold write_defaulted. by destruct (decide (v = d)). Qed.

(** An output as the scanner builds it: the flags fit their two bits, the
    length is that of a short or a long payment id or none, and an output
    that is not RingCT has a zero mask. *)
Record output_ok (o : output) : Prop := {
  ook_extra : is_byte (o_extra o);
  ook_length : (unpack (o_extra o)).2 ∈ [0; 8; 32];
  ook_payment : length (o_payment_id o) = 32%nat;
  ook_mask : Z.land (unpack (o_extra o)).1 ringct_output = 0 → o_ringct_mask o = 0
}.

(** The bytes of the payment id the length covers. *)
Definition payment_bytes (o : output) : list Z :=
  take (Z.to_nat (unpack (o_extra o)).2) (o_payment_id o).

Definition with_payment_id (p : list Z) (o : output) : output :=
  {| o_link := o_link o; o_spend_meta := o_spend_meta o; o_timestamp := o_timestamp o;
     o_unlock_time := o_unlock_time o; o_tx_prefix_hash := o_tx_prefix_hash o;
     o_pub := o_pub o; o_ringct_mask := o_ringct_mask o; o_extra := o_extra o;
     o_payment_id := p; o_fee := o_fee o; o_recipient := o_recipient o |}.

(** What [write_output] makes of the payment id. *)
Lemma write_output_payment o :
  output_ok o →
  w_payment_id (write_output o) =
    if (unpack (o_extra o)).2 =? 0 then None else Some (payment_bytes o).
Proof.
  intros [_ Hl Hp _]. unfold payment_bytes, write_output. cbn [w_payment_id].
  destruct (o_payment_id o) as [|b p] eqn:E; [done|].
  apply elem_of_cons in Hl as [->|[->|[->|[]%elem_of_nil]%elem_of_cons]%elem_of_cons]; try done.
  simpl Z.eqb. cbn iota. by rewrite firstn_all2 by (rewrite Hp; done).
Qed.

Lemma unpack_flags x : is_byte x → 0 <= (unpack x).1 < 4.
Proof.
  unfold is_byte. intros Hx. rewrite unpack_eq. simpl.
  split; [apply Z.div_pos; lia|apply Z.div_lt_upper_bound; lia].
Qed.

(** The flags read back from the optional mask and the coinbase field. *)
Lemma write_output_flags o :
  output_ok o →
  match w_rct_mask (write_output o) with
  | Some _ => Z.lor ringct_output (if w_coinbase (write_output o) then coinbase_output else 0)
  | None => if w_coinbase (write_output o) then coinbase_output else 0
  end = (unpack (o_extra o)).1.
Proof.
  intros Hok. pose proof (unpack_flags _ (ook_extra o Hok)) as Hv.
  unfold write_output. cbn [w_rct_mask w_coinbase].
  generalize dependent (unpack (o_extra o)).1. intros v Hv.
  assert (v = 0 ∨ v = 1 ∨ v = 2 ∨ v = 3) as [->|[->|[->| ->]]] by lia; done.
Qed.

Lemma write_output_mask o :
  output_ok o → default 0 (w_rct_mask (write_output o)) = o_ringct_mask o.
Proof.
  intros [_ _ _ Hmask]. unfold write_output. cbn [w_rct_mask]. destruct (Z.land _ _ =? 0) eqn:E; simpl; [|done].
  symmetry. by apply Hmask, Z.eqb_eq.
Qed.

Lemma length_payment_bytes o :
  output_ok o → length (payment_bytes o) = Z.to_nat (unpack (o_extra o)).2.
Proof.
  intros [_ Hl Hp _]. unfold payment_bytes. rewrite length_take, Hp.
  by apply elem_of_cons in Hl as [->|[->|[->|[]%elem_of_nil]%elem_of_cons]%elem_of_cons].
Qed.

Lemma memcpy_all n (self p : list Z) : length p = n → memcpy n self p = p ++ drop n self.
Proof. intros <-. unfold memcpy. by rewrite firstn_all. Qed.

Lemma read_write_output_ok o self :
  output_ok o →
  read_output (write_output o) self =
    Ok (with_payment_id (payment_bytes o ++ drop (length (payment_bytes o)) self) o).
Proof.
  intros Hok. unfold read_output.
  rewrite (write_output_payment o Hok), (write_output_flags o Hok), (write_output_mask o Hok).
  pose proof (length_payment_bytes o Hok) as Hlen.
  pose proof (pack_unpack _ (ook_extra o Hok)) as Hpack. destruct Hok as [_ Hl _ _].
  revert Hlen Hpack. unfold with_payment_id.
  apply elem_of_cons in Hl as [->|[->|[->|[]%elem_of_nil]%elem_of_cons]%elem_of_cons];
    intros Hlen Hpack; cbn [Z.eqb Pos.eqb]; simpl default; rewrite ?Hlen; simpl guard_err;
    cbn [mbind expect_bind]; rewrite ?memcpy_all by done; simpl w_block; simpl w_id;
    rewrite ?read_write_defaulted.
  all: change (Z.to_nat 0) with 0%nat in *; change (Z.to_nat 8) with 8%nat in *;
    change (Z.to_nat 32) with 32%nat in *.
  all: change (wrap 8 (Z.of_nat 8)) with 8; change (wrap 8 (Z.of_nat 32)) with 32;
    cbn [Z.eqb Pos.eqb]; rewrite ?memcpy_all by done.
  all: rewrite ?(nil_length_inv (payment_bytes o)) by done.
  all: rewrite Hpack; by destruct o as [[] [] ? ? ? ? ? ? ? ? ?].
Qed.

(** An output written to the wire and read back is the same output; of the
    payment id exactly the bytes its length covers are kept, the others are
    those of the object read into. *)
Theorem read_write_output o self :
  output_ok o →
  read_output (write_output o) self =
    Ok (with_payment_id (payment_bytes o ++ drop (length (payment_bytes o)) self) o).
Proof. apply read_write_output_ok. Qed.

(** A spend keeps its payment id exactly when its length is that of one. *)
Theorem read_write_spend s self :
  s_length s = 0 ∨ s_length s = 32 →
  read_spend (write_spend s) self =
    {| s_link := s_link s; s_image := s_image s; s_source := s_source s;
       s_timestamp := s_timestamp s; s_unlock_time := s_unlock_time s;
       s_mixin_count := s_mixin_count s; s_length := s_length s;
       s_payment_id := if s_length s =? 0 then self else s_payment_id s;
       s_sender := s_sender s |}.
Proof.
  intros Hl. unfold read_spend, write_spend. cbn.
  destruct s as [[] ? ? ? ? ? ? ? ?]; simpl in *. by destruct Hl as [-> | ->].
Qed.

(** ** Witnesses *)

(** A ringct output with a short payment id. *)
Definition wire_test_output : output :=
  {| o_link := TransactionLink 9 7; o_spend_meta := SpendMeta (OutputId 0 3) 5 11 0 9;
     o_timestamp := 100; o_unlock_time := 0; o_tx_prefix_hash := 1; o_pub := 2; o_ringct_mask := 3;
     o_extra := 136; o_payment_id := [1; 2; 3; 4; 5; 6; 7; 8] ++ replicate 24 0; o_fee := 1;
     o_recipient := AddressIndex 0 1 |}.

Lemma read_write_output_witness :
  payment_bytes wire_test_output = [1; 2; 3; 4; 5; 6; 7; 8] ∧
  read_output (write_output wire_test_output) (replicate 32 255) =
    Ok (with_payment_id ([1; 2; 3; 4; 5; 6; 7; 8] ++ replicate 24 255) wire_test_output).
Proof.
  split; [reflexivity|]. apply (read_write_output wire_test_output (replicate 32 255)). split.
  - vm_compute. split; [discriminate|reflexivity].
  - vm_compute. right. left.
  - reflexivity.
  - vm_compute. discriminate.
Defined.
