(* ===== verification/Compare.v ===== *)
(** * The comparators of the tables (src/src/db/storage.cpp, lines 229-401)

    LMDB hands its comparators the raw bytes of two values.  The functions that
    order the outputs, spends, pending spends and imported key image sources
    are modelled on those bytes, and shown to be the lexicographic order of the
    leading fields of the structs; the tables of [Tables] are ordered by the
    latter.  Integers are little endian; blocks of 32 bytes are compared with
    [memcmp], which on the numbers that stand for them is [Z.compare]. *)

From S2P Require Import Prelude Data.

Definition span : Type := list Z.

(** ** Primitives *)

(** [memcmp] of the first [n] bytes. *)
Fixpoint memcmp (n : nat) (left right : span) : comparison :=
  match n, left, right with
  | S n, l :: left', r :: right' =>
      match l ?= r with Eq => memcmp n left' right' | d => d end
  | _, _, _ => Eq
  end.

Section less.
Context {T : Type} (size : nat) (load : span → T) (ltb : T → T → bool).

(** [less<T>]: the two values of type [T] the spans start with; a short span
    is least. *)
Definition less (left right : span) : comparison :=
  if (length left <? size)%nat then Lt
  else if (length right <? size)%nat then Gt
  else
    let left_val := load (take size left) in
    let right_val := load (take size right) in
    if ltb left_val right_val then Lt else if ltb right_val left_val then Gt else Eq.

Lemma less_spec (store : T → span) (cmp : T → T → comparison) `{!CmpOrder cmp} x y l r :
  length (store x) = size → length (store y) = size →
  load (store x) = x → load (store y) = y →
  (∀ a b, ltb a b = true ↔ cmp a b = Lt) →
  less (store x ++ l) (store y ++ r) = cmp x y.
Proof.
  intros Hx Hy Lx Ly Hcmp. unfold less.
  assert (∀ a b : span, length a = size → (length (a ++ b) <? size)%nat = false) as Hlen.
  { intros a b <-. rewrite length_app. apply Nat.ltb_ge. lia. }
  rewrite !Hlen by done. rewrite !take_app_length', Lx, Ly by done. cbn zeta.
  destruct (ltb x y) eqn:E1; [by rewrite (proj1 (Hcmp x y) E1)|].
  destruct (ltb y x) eqn:E2.
  - apply Hcmp in E2. by rewrite (proj2 (cmp_gt_lt cmp x y) E2).
  - destruct (cmp x y) eqn:E; [done| |].
    + apply Hcmp in E. congruence.
    + apply (cmp_gt_lt cmp), Hcmp in E. congruence.
Qed.
End less.

Definition less_uint (size : nat) : span → span → comparison := less size le_combine Z.ltb.

Definition store_output_id (o : output_id) : span := le_split 8 (high o) ++ le_split 8 (low o).
Definition load_output_id (s : span) : output_id :=
  OutputId (le_combine (take 8 s)) (le_combine (drop 8 s)).

Definition less_output_id : span → span → comparison := less 16 load_output_id output_id_ltb.

Definition compare_32bytes (left right : span) : comparison :=
  if (length left <? 32)%nat then Lt
  else if (length right <? 32)%nat then Gt
  else memcmp 32 left right.

(** ** The comparators *)

(** [if (diff) return diff;] *)
Notation "d ';then' e" := (match d with Eq => e | r => r end)
  (at level 60, right associativity, only parsing).

Definition remove_prefix (n : nat) (s : span) : span := drop n s.

Definition output_compare (left right : span) : comparison :=
  less_uint 8 left right ;then
  let left := remove_prefix 8 left in let right := remove_prefix 8 right in
  compare_32bytes left right ;then
  let left := remove_prefix 32 left in let right := remove_prefix 32 right in
  less_output_id left right.

Definition spend_compare (left right : span) : comparison :=
  less_uint 8 left right ;then
  let left := remove_prefix 8 left in let right := remove_prefix 8 right in
  compare_32bytes left right ;then
  let left := remove_prefix 32 left in let right := remove_prefix 32 right in
  compare_32bytes left right ;then
  let left := remove_prefix 32 left in let right := remove_prefix 32 right in
  less_output_id left right.

Definition pending_spend_compare (left right : span) : comparison :=
  less_output_id left right ;then
  let left := remove_prefix 16 left in let right := remove_prefix 16 right in
  compare_32bytes left right ;then
  let left := remove_prefix 32 left in let right := remove_prefix 32 right in
  compare_32bytes left right ;then
  let left := remove_prefix 32 left in let right := remove_prefix 32 right in
  less_uint 4 left right ;then
  let left := remove_prefix 4 left in let right := remove_prefix 4 right in
  less_uint 4 left right.

Definition key_image_source_compare (left right : span) : comparison :=
  compare_32bytes left right ;then
  let left := remove_prefix 32 left in let right := remove_prefix 32 right in
  less_output_id left right.

(** ** The leading bytes of the structs (data.h) *)

Definition output_prefix (o : output) : span :=
  le_split 8 (tl_height (o_link o)) ++ key_bytes (tl_tx_hash (o_link o)) ++
  store_output_id (sme_id (o_spend_meta o)).

Definition spend_prefix (s : spend) : span :=
  le_split 8 (tl_height (s_link s)) ++ key_bytes (tl_tx_hash (s_link s)) ++
  key_bytes (s_image s) ++ store_output_id (s_source s).

Definition pending_spend_bytes (p : pending_spend) : span :=
  store_output_id (pend_source p) ++ key_bytes (pend_tx_hash p) ++ key_bytes (pend_pub p) ++
  le_split 4 (pend_out_index p) ++ le_split 4 (pend_recorded p).

Definition key_image_source_prefix (k : key_image_source) : span :=
  key_bytes (kis_image k) ++ store_output_id (kis_source k).

(** Fields in the range of their C++ type. *)
Definition u64_ok (z : Z) : Prop := 0 <= z < 2 ^ 64.
Definition u32_ok (z : Z) : Prop := 0 <= z < 2 ^ 32.
Definition b32_ok (z : Z) : Prop := 0 <= z < 2 ^ 256.
Definition output_id_ok (o : output_id) : Prop := u64_ok (high o) ∧ u64_ok (low o).

(** ** The orders of the fields *)

Definition output_key : Type := transaction_link * output_id.
Definition output_key_cmp : output_key → output_key → comparison :=
  lex_cmp transaction_link_cmp output_id_cmp.
Definition output_key_of (o : output) : output_key := (o_link o, sme_id (o_spend_meta o)).

Definition spend_key : Type := transaction_link * (Z * output_id).
Definition spend_key_cmp : spend_key → spend_key → comparison :=
  lex_cmp transaction_link_cmp (lex_cmp Z.compare output_id_cmp).
Definition spend_key_of (s : spend) : spend_key := (s_link s, (s_image s, s_source s)).

Definition pending_spend_cmp : pending_spend → pending_spend → comparison :=
  proj_cmp (λ p, (pend_source p, (pend_tx_hash p, (pend_pub p, (pend_out_index p, pend_recorded p)))))
    (lex_cmp output_id_cmp
      (lex_cmp Z.compare (lex_cmp Z.compare (lex_cmp Z.compare Z.compare)))).

Definition key_image_source_key : Type := Z * output_id.
Definition key_image_source_key_cmp : key_image_source_key → key_image_source_key → comparison :=
  lex_cmp Z.compare output_id_cmp.
Definition key_image_source_key_of (k : key_image_source) : key_image_source_key :=
  (kis_image k, kis_source k).

#[export] Instance pending_spend_order : CmpOrder pending_spend_cmp.
Proof. apply proj_cmp_order; [|apply _]. by intros [] [] [= -> -> -> -> ->]. Qed.

(** ** Agreement of the primitives with the orders *)

Lemma le_combine_range l : Forall is_byte l → 0 <= le_combine l < 256 ^ Z.of_nat (length l).
Proof.
  unfold is_byte. induction 1 as [|b l Hb Hl IH]; cbn [le_combine length]; [done|].
  rewrite Nat2Z.inj_succ, Z.pow_succ_r by lia. lia.
Qed.

Lemma le_combine_snoc l b :
  le_combine (l ++ [b]) = le_combine l + 256 ^ Z.of_nat (length l) * b.
Proof.
  induction l as [|c l IH]; cbn [le_combine length app]; [cbn; lia|].
  rewrite IH, Nat2Z.inj_succ, Z.pow_succ_r by lia. lia.
Qed.

Lemma le_split_bytes n z : Forall is_byte (le_split n z).
Proof.
  revert z. induction n as [|n IH]; intros z; constructor; [|apply IH].
  apply Z.mod_pos_bound. lia.
Qed.

(** [memcmp] orders equally long spans as the big-endian numbers they spell. *)
Lemma memcmp_be n l r :
  length l = n → length r = n → Forall is_byte l → Forall is_byte r →
  memcmp n l r = (le_combine (rev l) ?= le_combine (rev r)).
Proof.
  revert l r. induction n as [|n IH]; intros [|a l] [|b r] Hl Hr Fl Fr; try done.
  apply Forall_cons in Fl as [Ha Fl]. apply Forall_cons in Fr as [Hb Fr].
  simpl in Hl, Hr. cbn [memcmp rev]. rewrite !le_combine_snoc, !length_rev.
  pose proof (le_combine_range (rev l) (Forall_rev Fl)) as Rl.
  pose proof (le_combine_range (rev r) (Forall_rev Fr)) as Rr. rewrite length_rev in Rl, Rr.
  assert (length l = n ∧ length r = n) as [El Er] by lia. rewrite El in *. rewrite Er in *.
  unfold is_byte in *. set (p := 256 ^ Z.of_nat n) in *. destruct (Z.compare_spec a b) as [->|Hlt|Hgt].
  - rewrite IH by (done || lia). rewrite !(Z.add_comm _ (_ * b)). symmetry. apply Z.add_compare_mono_l.
  - symmetry. apply Z.compare_lt_iff. nia.
  - symmetry. apply Z.compare_gt_iff. nia.
Qed.

Lemma length_key_bytes k : length (key_bytes k) = 32%nat.
Proof. unfold key_bytes. by rewrite length_rev, length_le_split. Qed.

Lemma memcmp_app n l r l' r' :
  length l = n → length r = n → memcmp n (l ++ l') (r ++ r') = memcmp n l r.
Proof.
  revert l r. induction n as [|n IH]; intros [|a l] [|b r] Hl Hr; try done.
  simpl in *. by rewrite IH by lia.
Qed.

Lemma compare_32bytes_spec x y l r :
  b32_ok x → b32_ok y → compare_32bytes (key_bytes x ++ l) (key_bytes y ++ r) = (x ?= y).
Proof.
  intros Hx Hy. unfold compare_32bytes. rewrite !length_app, !length_key_bytes. simpl Nat.ltb.
  cbn iota. rewrite memcmp_app by apply length_key_bytes. rewrite memcmp_be.
  - unfold key_bytes. rewrite !rev_involutive, !le_combine_split by done. done.
  - apply length_key_bytes.
  - apply length_key_bytes.
  - apply Forall_rev, le_split_bytes.
  - apply Forall_rev, le_split_bytes.
Qed.

Lemma less_uint_spec size x y l r :
  0 <= x < 256 ^ Z.of_nat size → 0 <= y < 256 ^ Z.of_nat size →
  less_uint size (le_split size x ++ l) (le_split size y ++ r) = (x ?= y).
Proof.
  intros Hx Hy. unfold less_uint. apply (less_spec size le_combine Z.ltb (le_split size) Z.compare);
    rewrite ?length_le_split, ?le_combine_split; try done.
  intros a b. by rewrite Z.ltb_lt, Z.compare_lt_iff.
Qed.

Lemma less_output_id_spec x y l r :
  output_id_ok x → output_id_ok y →
  less_output_id (store_output_id x ++ l) (store_output_id y ++ r) = output_id_cmp x y.
Proof.
  assert (∀ o, output_id_ok o → load_output_id (store_output_id o) = o) as Hload.
  { intros [h w] [Hh Hw]. unfold load_output_id, store_output_id. simpl high. simpl low.
    rewrite (take_app_length' (le_split 8 h)), (drop_app_length' (le_split 8 h))
      by (by rewrite length_le_split).
    rewrite !le_combine_split by done. done. }
  intros Hx Hy. apply (less_spec 16 load_output_id output_id_ltb store_output_id output_id_cmp);
    try (by apply Hload); try apply output_id_ltb_cmp;
    unfold store_output_id; by rewrite length_app, !length_le_split.
Qed.

Lemma remove_le_split size x s : remove_prefix size (le_split size x ++ s) = s.
Proof. apply drop_app_length'. by rewrite length_le_split. Qed.
Lemma remove_key_bytes x s : remove_prefix 32 (key_bytes x ++ s) = s.
Proof. apply drop_app_length'. by rewrite length_key_bytes. Qed.
Lemma remove_output_id x s : remove_prefix 16 (store_output_id x ++ s) = s.
Proof. apply drop_app_length'. unfold store_output_id. by rewrite length_app, !length_le_split. Qed.

#[export] Hint Rewrite remove_le_split remove_key_bytes remove_output_id : lws.

(** Compares the next field of two encoded structs, after its predecessors
    were found equal. *)
Ltac compare_fields :=
  repeat match goal with
  | |- context [remove_prefix _ _] => progress autorewrite with lws
  | |- context [less_uint ?n (le_split ?n ?x ++ _) (le_split ?n ?y ++ _)] =>
      rewrite (less_uint_spec n x y) by done
  | |- context [compare_32bytes (key_bytes ?x ++ _) (key_bytes ?y ++ _)] =>
      rewrite (compare_32bytes_spec x y) by done
  | |- context [less_output_id (store_output_id ?x ++ _) (store_output_id ?y ++ _)] =>
      rewrite (less_output_id_spec x y) by done
  end.

(** ** The comparators are the orders of the fields *)

Definition output_key_ok (k : output_key) : Prop :=
  u64_ok (tl_height k.1) ∧ b32_ok (tl_tx_hash k.1) ∧ output_id_ok k.2.
Definition spend_key_ok (k : spend_key) : Prop :=
  u64_ok (tl_height k.1) ∧ b32_ok (tl_tx_hash k.1) ∧ b32_ok k.2.1 ∧ output_id_ok k.2.2.
Definition pending_spend_ok (p : pending_spend) : Prop :=
  output_id_ok (pend_source p) ∧ b32_ok (pend_tx_hash p) ∧ b32_ok (pend_pub p) ∧
  u32_ok (pend_out_index p) ∧ u32_ok (pend_recorded p).
Definition key_image_source_key_ok (k : key_image_source_key) : Prop :=
  b32_ok k.1 ∧ output_id_ok k.2.

(** [output_compare] on the bytes of two outputs is the lexicographic order
    of their height, transaction hash and output id, whatever follows. *)
Lemma output_compare_spec (x y : output) (l r : span) :
  output_key_ok (output_key_of x) → output_key_ok (output_key_of y) →
  output_compare (output_prefix x ++ l) (output_prefix y ++ r) =
    output_key_cmp (output_key_of x) (output_key_of y).
Proof.
  intros (? & ? & ?) (? & ? & ?). unfold output_compare, output_prefix, output_key_cmp.
  rewrite <-!(assoc (++)). compare_fields.
  unfold lex_cmp at 1, transaction_link_cmp, proj_cmp, lex_cmp at 1. simpl.
  by do 2 (destruct (_ ?= _); try done).
Qed.

(** [spend_compare] on the bytes of two spends is the lexicographic order
    of their height, transaction hash, key image and source. *)
Lemma spend_compare_spec (x y : spend) (l r : span) :
  spend_key_ok (spend_key_of x) → spend_key_ok (spend_key_of y) →
  spend_compare (spend_prefix x ++ l) (spend_prefix y ++ r) =
    spend_key_cmp (spend_key_of x) (spend_key_of y).
Proof.
  intros (? & ? & ? & ?) (? & ? & ? & ?). unfold spend_compare, spend_prefix, spend_key_cmp.
  rewrite <-!(assoc (++)). compare_fields.
  unfold lex_cmp at 1, transaction_link_cmp, proj_cmp, lex_cmp at 1. simpl.
  do 2 (destruct (_ ?= _); try done).
Qed.

(** [pending_spend_compare] is the lexicographic order of the whole marker. *)
Lemma pending_spend_compare_spec (x y : pending_spend) (l r : span) :
  pending_spend_ok x → pending_spend_ok y →
  pending_spend_compare (pending_spend_bytes x ++ l) (pending_spend_bytes y ++ r) =
    pending_spend_cmp x y.
Proof.
  intros (? & ? & ? & ? & ?) (? & ? & ? & ? & ?).
  unfold pending_spend_compare, pending_spend_bytes, pending_spend_cmp, proj_cmp, lex_cmp.
  cbn [fst snd]. rewrite <-!(assoc (++)). by compare_fields.
Qed.

(** [key_image_source_compare] is the lexicographic order of the image and
    the output id. *)
Lemma key_image_source_compare_spec (x y : key_image_source) (l r : span) :
  key_image_source_key_ok (key_image_source_key_of x) →
  key_image_source_key_ok (key_image_source_key_of y) →
  key_image_source_compare (key_image_source_prefix x ++ l) (key_image_source_prefix y ++ r) =
    key_image_source_key_cmp (key_image_source_key_of x) (key_image_source_key_of y).
Proof.
  intros [? ?] [? ?].
  unfold key_image_source_compare, key_image_source_prefix, key_image_source_key_cmp.
  rewrite <-!(assoc (++)). by compare_fields.
Qed.

(** [MDB_GET_BOTH_RANGE] with a value of which only the height is set (the
    other fields are zero) finds the outputs from that height on. *)
Lemma output_range_height k h :
  u64_ok (tl_height k.1) → b32_ok (tl_tx_hash k.1) → output_id_ok k.2 →
  output_key_cmp k (TransactionLink h 0, OutputId 0 0) = Lt ↔ tl_height k.1 < h.
Proof.
  destruct k as [[h' t] [i j]]. simpl. intros _ [Ht _] [[Hi _] [Hj _]].
  unfold output_key_cmp, lex_cmp at 1, transaction_link_cmp, output_id_cmp, proj_cmp, lex_cmp.
  simpl in *. destruct (Z.compare_spec h' h); [|by split|by split; [|lia]].
  destruct (Z.compare_spec t 0); [|lia|by split; [|lia]].
  destruct (Z.compare_spec i 0); [|lia|by split; [|lia]].
  destruct (Z.compare_spec j 0); split; try done; lia.
Qed.

(** [compare] on bytes, whatever follows those of a value, is the order [cmp] of the
    keys of the values. *)
Definition compares {A K} (compare : span → span → comparison) (bytes : A → span) (key : A → K)
    (ok : K → Prop) (cmp : K → K → comparison) : Prop :=
  ∀ x y l r, ok (key x) → ok (key y) → compare (bytes x ++ l) (bytes y ++ r) = cmp (key x) (key y).

(** The comparators handed to LMDB are, on the bytes of values of their tables
    and whatever follows them, the lexicographic orders of the keys: height, hash
    and output id of outputs; height, hash, image and source of spends; all of a
    pending spend; image and output id of an imported source. *)
Theorem comparators_are_orders :
  compares output_compare output_prefix output_key_of output_key_ok output_key_cmp ∧
  compares spend_compare spend_prefix spend_key_of spend_key_ok spend_key_cmp ∧
  compares pending_spend_compare pending_spend_bytes (λ p, p) pending_spend_ok pending_spend_cmp ∧
  compares key_image_source_compare key_image_source_prefix key_image_source_key_of key_image_source_key_ok
    key_image_source_key_cmp.
Proof.
  split_and!; intros x y l r.
  - apply output_compare_spec.
  - apply spend_compare_spec.
  - apply pending_spend_compare_spec.
  - apply key_image_source_compare_spec.
Qed.

(** ** Witnesses *)

Definition compared_output (height low : Z) : output :=
  {| o_link := TransactionLink height 7; o_spend_meta := SpendMeta (OutputId 0 low) 5 11 0 9;
     o_timestamp := 0; o_unlock_time := 0; o_tx_prefix_hash := 1; o_pub := 2; o_ringct_mask := 3;
     o_extra := 128; o_payment_id := []; o_fee := 1; o_recipient := AddressIndex 0 0 |}.

Definition compared_spend (image : Z) : spend :=
  {| s_link := TransactionLink 6 8; s_image := image; s_source := OutputId 0 2; s_timestamp := 0;
     s_unlock_time := 0; s_mixin_count := 9; s_length := 0; s_payment_id := [];
     s_sender := AddressIndex 0 1 |}.

Lemma comparators_are_orders_witness :
  output_compare (output_prefix (compared_output 256 3) ++ [9]) (output_prefix (compared_output 1 4)) = Gt ∧
  spend_compare (spend_prefix (compared_spend 255) ++ [1]) (spend_prefix (compared_spend 256) ++ [0]) = Lt ∧
  pending_spend_compare (pending_spend_bytes (PendingSpend (OutputId 0 2) 8 9 0 5) ++ [])
    (pending_spend_bytes (PendingSpend (OutputId 0 2) 8 9 1 4) ++ []) = Lt ∧
  key_image_source_compare (key_image_source_prefix (KeyImageSource 5 (OutputId 0 2) 1 1 0) ++ [3])
    (key_image_source_prefix (KeyImageSource 5 (OutputId 0 2) 2 2 0) ++ [4]) = Eq.
Proof.
  destruct comparators_are_orders as (Hout & Hspend & Hpending & Hsource). split_and!.
  - rewrite <-(app_nil_r (output_prefix (compared_output 1 4))).
    apply (Hout (compared_output 256 3) (compared_output 1 4) [9] []);
      (split; [|split; [|split]]); vm_compute; (split; [discriminate|reflexivity]).
  - apply (Hspend (compared_spend 255) (compared_spend 256) [1] [0]);
      (split; [|split; [|split; [|split]]]); vm_compute; (split; [discriminate|reflexivity]).
  - apply (Hpending (PendingSpend (OutputId 0 2) 8 9 0 5) (PendingSpend (OutputId 0 2) 8 9 1 4) [] []);
      (split; [split|split; [|split; [|split]]]); vm_compute; (split; [discriminate|reflexivity]).
  - apply (Hsource (KeyImageSource 5 (OutputId 0 2) 1 1 0) (KeyImageSource 5 (OutputId 0 2) 2 2 0) [3] [4]);
      (split; [|split]); vm_compute; (split; [discriminate|reflexivity]).
Defined.
