(* ===== verification/Tables.v ===== *)
(** * The tables of the database (src/src/db/storage.cpp, lines 205-226, 403-545)

    The sixteen tables [storage_internal] keeps open, the comparators they are
    sorted by, and the state the storage operations act on: a [db] gives every
    table its contents.  An operation runs inside a write transaction
    ([try_write]), so it either commits the state it computes or, on an error,
    leaves the database as it was. *)

From S2P Require Import Prelude Lmdb Data Compare.

(** ** Values only the database uses *)

Record account_lookup := AccountLookup { lk_id : Z; lk_status : account_status }.
Record account_by_address := AccountByAddress {
  aba_address : account_address;
  aba_lookup : account_lookup
}.

#[global] Instance account_lookup_eq_dec : EqDecision account_lookup.
Proof. solve_decision. Defined.
#[global] Instance account_by_address_eq_dec : EqDecision account_by_address.
Proof. solve_decision. Defined.

Definition blocks_version : Z := 0.
Definition by_address_version : Z := 0.
Definition pows_version : Z := 1.
Definition pows_previous_version : Z := 0.

(** ** The tables *)

Inductive table_name : Set :=
  | blocks | pows | accounts | accounts_by_address | accounts_by_height
  | outputs | spends | images | confirmed_spends | imported_spend_sources | pending_spends
  | requests | webhooks | events_by_account_id | subaddress_ranges | subaddress_indexes.

#[global] Instance table_name_eq_dec : EqDecision table_name.
Proof. solve_decision. Defined.

Definition status_cmp : account_status → account_status → comparison :=
  proj_cmp account_status_to_Z Z.compare.
Definition request_cmp : request → request → comparison := proj_cmp request_to_Z Z.compare.

#[export] Instance status_order : CmpOrder status_cmp.
Proof. apply proj_cmp_order; [|apply _]. by intros [] []. Qed.
#[export] Instance request_order : CmpOrder request_cmp.
Proof. apply proj_cmp_order; [|apply _]. by intros [] []. Qed.

(** The key and value types of every table, and the part of a value that
    [MONERO_SORT_BY], [MONERO_COMPARE], [lmdb::less] or its own comparator
    looks at. *)
Definition blocks_spec : table_spec :=
  TableSpec Z block_info Z bi_id Z.compare Z.compare _ _.
Definition pows_spec : table_spec :=
  TableSpec Z block_pow Z bp_id Z.compare Z.compare _ _.
Definition accounts_spec : table_spec :=
  TableSpec account_status account Z acc_id status_cmp Z.compare _ _.
Definition accounts_by_address_spec : table_spec :=
  TableSpec Z account_by_address Z (λ v, view_public (aba_address v)) Z.compare Z.compare _ _.
Definition accounts_by_height_spec : table_spec :=
  TableSpec Z account_lookup Z lk_id Z.compare Z.compare _ _.
Definition outputs_spec : table_spec :=
  TableSpec Z output output_key output_key_of Z.compare output_key_cmp _ _.
Definition spends_spec : table_spec :=
  TableSpec Z spend spend_key spend_key_of Z.compare spend_key_cmp _ _.
Definition images_spec : table_spec :=
  TableSpec output_id key_image Z ki_value output_id_cmp Z.compare _ _.
Definition confirmed_spends_spec : table_spec :=
  TableSpec Z Z Z id Z.compare Z.compare _ _.
Definition imported_spend_sources_spec : table_spec :=
  TableSpec Z key_image_source key_image_source_key key_image_source_key_of
    Z.compare key_image_source_key_cmp _ _.
Definition pending_spends_spec : table_spec :=
  TableSpec Z pending_spend pending_spend id Z.compare pending_spend_cmp _ _.
Definition requests_spec : table_spec :=
  TableSpec request request_info Z (λ v, spend_public (ri_address v)) request_cmp Z.compare _ _.
Definition webhooks_spec : table_spec :=
  TableSpec webhook_key webhook_value webhook_dupsort fst webhook_key_cmp webhook_dupsort_cmp _ _.
Definition events_by_account_id_spec : table_spec :=
  TableSpec Z webhook_event webhook_event id Z.compare webhook_event_cmp _ _.
Definition subaddress_ranges_spec : table_spec :=
  TableSpec Z subaddress_dict Z fst Z.compare Z.compare _ _.
Definition subaddress_indexes_spec : table_spec :=
  TableSpec Z subaddress_map Z sm_subaddress Z.compare Z.compare _ _.

Definition spec_of (n : table_name) : table_spec :=
  match n with
  | blocks => blocks_spec
  | pows => pows_spec
  | accounts => accounts_spec
  | accounts_by_address => accounts_by_address_spec
  | accounts_by_height => accounts_by_height_spec
  | outputs => outputs_spec
  | spends => spends_spec
  | images => images_spec
  | confirmed_spends => confirmed_spends_spec
  | imported_spend_sources => imported_spend_sources_spec
  | pending_spends => pending_spends_spec
  | requests => requests_spec
  | webhooks => webhooks_spec
  | events_by_account_id => events_by_account_id_spec
  | subaddress_ranges => subaddress_ranges_spec
  | subaddress_indexes => subaddress_indexes_spec
  end.

(** ** The database *)

Section db.
Context `{L : Lmdb}.

Definition db : Type := ∀ n, tbl (spec_of n).

Definition empty_db : db := λ n, mdb_empty (spec_of n).

Definition set_tbl (n : table_name) (t : tbl (spec_of n)) (d : db) : db := λ m,
  match decide (n = m) with
  | left e => eq_rect n (λ m, tbl (spec_of m)) t m e
  | right _ => d m
  end.

Lemma set_tbl_eq n t d : set_tbl n t d n = t.
Proof.
  unfold set_tbl. destruct (decide (n = n)) as [e|]; [|done].
  by rewrite (proof_irrel e eq_refl).
Qed.

Lemma set_tbl_ne n m t d : n ≠ m → set_tbl n t d m = d m.
Proof. intros Hne. unfold set_tbl. by destruct (decide (n = m)). Qed.

(** The cursor operations on one table of the database. *)
Definition dups (n : table_name) (k : ts_key (spec_of n)) (d : db) : list (ts_val (spec_of n)) :=
  mdb_dups (d n) k.

Definition get_both (n : table_name) (k : ts_key (spec_of n)) (v : ts_dup (spec_of n)) (d : db) :
    option (ts_val (spec_of n)) :=
  mdb_get_both (d n) k v.

Definition put (n : table_name) (k : ts_key (spec_of n)) (v : ts_val (spec_of n)) (d : db) : db :=
  set_tbl n (mdb_put (d n) k v) d.

(** [mdb_cursor_put] with [MDB_NODUPDATA]; [MDB_KEYEXIST] for a duplicate. *)
Definition put_nodup (n : table_name) (k : ts_key (spec_of n)) (v : ts_val (spec_of n)) (d : db) :
    expect db :=
  t ← mdb_put_nodup (d n) k v; Ok (set_tbl n t d).

Definition del (n : table_name) (k : ts_key (spec_of n)) (v : ts_dup (spec_of n)) (d : db) : db :=
  set_tbl n (mdb_del (d n) k v) d.

(** [mdb_cursor_del] with [MDB_NODUPDATA]: every duplicate of the key. *)
Definition del_all (n : table_name) (k : ts_key (spec_of n)) (d : db) : db :=
  foldl (λ d v, del n k (ts_dup_of _ v) d) d (dups n k d).

(** A put that skips an entry already present. *)
Definition put_skip (n : table_name) (k : ts_key (spec_of n)) (d : db) (v : ts_val (spec_of n)) :
    db :=
  match put_nodup n k v d with Ok d' => d' | Err _ => d end.

(** [bulk_insert]: [MDB_MULTIPLE] stores a run of values up to the first that
    is already there ([MDB_KEYEXIST]), which is skipped. *)
Definition bulk_insert (n : table_name) (k : ts_key (spec_of n)) (values : list (ts_val (spec_of n)))
    (d : db) : db :=
  foldl (put_skip n k) d values.

(** [MDB_GET_BOTH] and the [MDB_NEXT_DUP]s (resp. [MDB_PREV_DUP]s) that follow
    it: the entry found and those after (before) it; nothing when not found. *)
Definition seek (n : table_name) (k : ts_key (spec_of n)) (v : ts_dup (spec_of n)) (d : db) :
    list (ts_val (spec_of n)) :=
  drop_while (λ u, negb (dup_is _ v u)) (dups n k d).

Definition seek_prev (n : table_name) (k : ts_key (spec_of n)) (v : ts_dup (spec_of n)) (d : db) :
    list (ts_val (spec_of n)) :=
  drop_while (λ u, negb (dup_is _ v u)) (rev (dups n k d)).

(** [MDB_GET_BOTH_RANGE] with a value that is [below] some of the entries, and
    the [MDB_NEXT_DUP]s that follow. *)
Definition seek_range (n : table_name) (k : ts_key (spec_of n)) (below : ts_val (spec_of n) → bool)
    (d : db) : list (ts_val (spec_of n)) :=
  drop_while below (dups n k d).

(** [bulk_insert] with flags 0: entries already present are overwritten. *)
Definition bulk_put (n : table_name) (k : ts_key (spec_of n)) (values : list (ts_val (spec_of n)))
    (d : db) : db :=
  foldl (λ d v, put n k v d) d values.

(** [try_write]: commits what [f] computes, or leaves the database alone. *)
Definition try_write {A} (f : db → expect (A * db)) (d : db) : expect A * db :=
  match f d with
  | Ok (a, d') => (Ok a, d')
  | Err e => (Err e, d)
  end.
End db.
Arguments db : clear implicits.
Arguments db L : assert.

Section db_lemmas.
Context `{LL : LmdbLaws}.
Implicit Types (d : db L) (n m : table_name).

Lemma dups_put_other n k v d m k' : n ≠ m → dups m k' (put n k v d) = dups m k' d.
Proof. intros Hne. unfold dups, put. by rewrite set_tbl_ne. Qed.

Lemma dups_del_other n k v d m k' : n ≠ m → dups m k' (del n k v d) = dups m k' d.
Proof. intros Hne. unfold dups, del. by rewrite set_tbl_ne. Qed.

Lemma elem_of_dups_put n k v d k' u :
  u ∈ dups n k' (put n k v d) ↔
    (k = k' ∧ u = v) ∨
    (u ∈ dups n k' d ∧ (k = k' → ts_dup_of _ u ≠ ts_dup_of _ v)).
Proof. unfold dups, put. rewrite set_tbl_eq. apply elem_of_put. Qed.

Lemma elem_of_dups_del n k v d k' u :
  u ∈ dups n k' (del n k v d) ↔ u ∈ dups n k' d ∧ (k = k' → ts_dup_of _ u ≠ v).
Proof. unfold dups, del. rewrite set_tbl_eq. apply elem_of_del. Qed.

Lemma dups_put_same n k v d : dups n k (put n k v d) = insert_dup _ v (dups n k d).
Proof. unfold dups, put. by rewrite set_tbl_eq, mdb_dups_put, key_is_refl. Qed.

Lemma dups_del_same n k v d : dups n k (del n k v d) = delete_dup _ v (dups n k d).
Proof. unfold dups, del. by rewrite set_tbl_eq, mdb_dups_del, key_is_refl. Qed.

Lemma dups_put_key n k v d k' : k ≠ k' → dups n k' (put n k v d) = dups n k' d.
Proof. intros Hne. unfold dups, put. rewrite set_tbl_eq. by apply dups_put_ne. Qed.

Lemma dups_del_key n k v d k' : k ≠ k' → dups n k' (del n k v d) = dups n k' d.
Proof. intros Hne. unfold dups, del. rewrite set_tbl_eq. by apply dups_del_ne. Qed.

Lemma put_nodup_Ok n k v d d' :
  put_nodup n k v d = Ok d' ↔
    d' = put n k v d ∧ ∀ u, u ∈ dups n k d → ts_dup_of _ u ≠ ts_dup_of _ v.
Proof.
  unfold put_nodup, put. rewrite expect_bind_ok. split.
  - intros (t & [-> Hu]%put_nodup_ok & [= <-]). done.
  - intros [-> Hu]. eexists. split; [by apply put_nodup_ok|done].
Qed.

Lemma get_both_Some n k v d u :
  get_both n k v d = Some u ↔ u ∈ dups n k d ∧ ts_dup_of _ u = v.
Proof. apply get_both_some. Qed.

Lemma get_both_None n k v d :
  get_both n k v d = None ↔ ∀ u, u ∈ dups n k d → ts_dup_of _ u ≠ v.
Proof. apply get_both_none. Qed.

Lemma dups_sorted n k d : StronglySorted (dup_lt _) (dups n k d).
Proof. apply mdb_dups_sorted. Qed.

Lemma dups_unique n k d u v :
  u ∈ dups n k d → v ∈ dups n k d → ts_dup_of _ u = ts_dup_of _ v → u = v.
Proof. apply dups_inj. Qed.

(** Folds of writes to one table leave the others alone. *)
Lemma dups_foldl_other {A} (f : db L → A → db L) (l : list A) d m k :
  (∀ d a, dups m k (f d a) = dups m k d) → dups m k (foldl f d l) = dups m k d.
Proof. intros Hf. revert d. induction l as [|a l IH]; intros d; simpl; [done|]. by rewrite IH, Hf. Qed.

Lemma elem_of_foldl_del n k d k' u l :
  u ∈ dups n k' (foldl (λ d v, del n k (ts_dup_of _ v) d) d l) ↔
    u ∈ dups n k' d ∧ (k = k' → ∀ v, v ∈ l → ts_dup_of _ u ≠ ts_dup_of _ v).
Proof.
  revert d. induction l as [|v l IH]; intros d; simpl.
  - split; [|by intros []]. intros Hu. split; [done|]. by intros _ v ?%elem_of_nil.
  - rewrite IH, elem_of_dups_del. setoid_rewrite elem_of_cons. naive_solver.
Qed.

Lemma elem_of_del_all n k d k' u :
  u ∈ dups n k' (del_all n k d) ↔ u ∈ dups n k' d ∧ k ≠ k'.
Proof.
  unfold del_all. rewrite elem_of_foldl_del. split; intros [Hu H]; (split; [done|]).
  - intros <-. by apply (H eq_refl u).
  - by intros <-.
Qed.

Lemma dups_del_all_other n k d m k' : n ≠ m → dups m k' (del_all n k d) = dups m k' d.
Proof. intros Hne. apply dups_foldl_other. intros. by apply dups_del_other. Qed.

Lemma put_skip_other n k d v m k' : n ≠ m → dups m k' (put_skip n k d v) = dups m k' d.
Proof.
  intros Hne. unfold put_skip. destruct (put_nodup n k v d) eqn:E; [|done].
  apply put_nodup_Ok in E as [-> _]. by apply dups_put_other.
Qed.

Lemma elem_of_put_skip n k d v k' u :
  u ∈ dups n k' (put_skip n k d v) ↔
    u ∈ dups n k' d ∨
    (k = k' ∧ u = v ∧ ∀ w, w ∈ dups n k d → ts_dup_of _ w ≠ ts_dup_of _ v).
Proof.
  unfold put_skip. destruct (put_nodup n k v d) eqn:E.
  - apply put_nodup_Ok in E as [-> Hv]. rewrite elem_of_dups_put. split; [naive_solver|].
    intros [Hu|(<- & -> & _)]; [right|by left]. split; [done|]. intros <-. by apply Hv.
  - split; [by left|]. intros [Hu|(<- & -> & Hv)]; [done|].
    assert (put_nodup n k v d = Ok (put n k v d)) as E' by by apply put_nodup_Ok.
    congruence.
Qed.

Lemma put_skip_present n k d v :
  ∃ u, u ∈ dups n k (put_skip n k d v) ∧ ts_dup_of _ u = ts_dup_of _ v.
Proof.
  destruct (get_both n k (ts_dup_of _ v) d) as [u|] eqn:E.
  - apply get_both_Some in E as [Hu Hd]. exists u. split; [|done].
    apply elem_of_put_skip. by left.
  - exists v. split; [|done]. apply elem_of_put_skip. right.
    rewrite get_both_None in E. naive_solver.
Qed.

Lemma bulk_insert_keeps n k vs d k' u :
  u ∈ dups n k' d → u ∈ dups n k' (bulk_insert n k vs d).
Proof.
  unfold bulk_insert. revert d. induction vs as [|v vs IH]; intros d Hu; simpl; [done|].
  apply IH, elem_of_put_skip. by left.
Qed.

(** What a bulk insert adds comes from the values inserted. *)
Lemma bulk_insert_from n k vs d k' u :
  u ∈ dups n k' (bulk_insert n k vs d) → u ∈ dups n k' d ∨ (k = k' ∧ u ∈ vs).
Proof.
  unfold bulk_insert. revert d. induction vs as [|v vs IH]; intros d Hu; simpl in *; [by left|].
  apply IH in Hu as [[Hu|(<- & -> & _)]%elem_of_put_skip|[<- Hu]]; [by left| |].
  - right. split; [done|]. by left.
  - right. split; [done|]. by right.
Qed.

Lemma bulk_insert_present n k vs d v :
  v ∈ vs → ∃ u, u ∈ dups n k (bulk_insert n k vs d) ∧ ts_dup_of _ u = ts_dup_of _ v.
Proof.
  unfold bulk_insert. revert d.
  induction vs as [|w vs IH]; intros d; [by intros ?%elem_of_nil|].
  intros [->|Hv]%elem_of_cons; simpl; [|by apply IH].
  destruct (put_skip_present n k d w) as (u & Hu & Hd). exists u. split; [|done].
  by apply (bulk_insert_keeps n k vs).
Qed.

Lemma bulk_insert_other n k vs d m k' : n ≠ m → dups m k' (bulk_insert n k vs d) = dups m k' d.
Proof. intros Hne. apply dups_foldl_other. intros. by apply put_skip_other. Qed.
(** A put keeps every comparison key present. *)
Lemma put_present n k v d k' u :
  u ∈ dups n k' d → ∃ w, w ∈ dups n k' (put n k v d) ∧ ts_dup_of _ w = ts_dup_of _ u.
Proof.
  intros Hu. destruct (key_is (spec_of n) k k') eqn:E.
  - apply key_is_eq in E as <-.
    destruct (dup_is (spec_of n) (ts_dup_of _ v) u) eqn:Ed;
      [apply dup_is_eq in Ed as Heq|apply dup_is_neq in Ed as Hne].
    + exists v. split; [apply elem_of_dups_put; by left|done].
    + exists u. split; [|done]. apply elem_of_dups_put. right. by split.
  - assert (k ≠ k') by (intros ?%(key_is_eq (spec_of n)); congruence).
    exists u. by rewrite dups_put_key.
Qed.

(** The entries a bulk insert gives depend on those of its table only. *)
Lemma bulk_insert_ext n k vs d1 d2 k' :
  (∀ k, dups n k d1 = dups n k d2) → dups n k' (bulk_insert n k vs d1) = dups n k' (bulk_insert n k vs d2).
Proof.
  unfold bulk_insert. intros Hd. revert k' d1 d2 Hd.
  induction vs as [|v vs IH]; intros k' d1 d2 Hd; simpl; [done|]. apply IH. clear k'. intros k'.
  unfold put_skip. destruct (put_nodup n k v d1) as [d1'|] eqn:E1, (put_nodup n k v d2) as [d2'|] eqn:E2.
  - apply put_nodup_Ok in E1 as [-> _]. apply put_nodup_Ok in E2 as [-> _].
    destruct (key_is (spec_of n) k k') eqn:E.
    + apply key_is_eq in E as <-. by rewrite !dups_put_same, Hd.
    + assert (k ≠ k') by (intros ?%(key_is_eq (spec_of n)); congruence). by rewrite !dups_put_key.
  - assert (put_nodup n k v d2 = Ok (put n k v d2)) as E'; [|congruence].
    apply put_nodup_Ok in E1 as [_ E1]. apply put_nodup_Ok. by rewrite <-Hd.
  - assert (put_nodup n k v d1 = Ok (put n k v d1)) as E'; [|congruence].
    apply put_nodup_Ok in E2 as [_ E2]. apply put_nodup_Ok. by rewrite Hd.
  - apply Hd.
Qed.
End db_lemmas.

(** ** Which tables an operation writes *)
Section touches.
Context `{LL : LmdbLaws}.
Implicit Types (d : db L) (n m : table_name) (T : list table_name).

(** From [d] to [d'] only the tables [T] changed. *)
Definition touches (T : list table_name) (d d' : db L) : Prop :=
  ∀ m k, m ∉ T → dups m k d' = dups m k d.

#[export] Instance touches_preorder T : PreOrder (touches T).
Proof.
  split; [by intros d m k|]. intros d1 d2 d3 H1 H2 m k Hm.
  by rewrite (H2 m k Hm), (H1 m k Hm).
Qed.

Lemma touches_weaken T T' d d' : T ⊆ T' → touches T d d' → touches T' d d'.
Proof. intros HT H m k Hm. apply H. by intros ?%HT. Qed.

Lemma touches_put T n k v d : n ∈ T → touches T d (put n k v d).
Proof. intros Hn m k' Hm. apply dups_put_other. by intros ->. Qed.

Lemma touches_del T n k v d : n ∈ T → touches T d (del n k v d).
Proof. intros Hn m k' Hm. apply dups_del_other. by intros ->. Qed.

Lemma touches_del_all T n k d : n ∈ T → touches T d (del_all n k d).
Proof. intros Hn m k' Hm. apply dups_del_all_other. by intros ->. Qed.

Lemma touches_put_nodup T n k v d d' : n ∈ T → put_nodup n k v d = Ok d' → touches T d d'.
Proof. intros Hn [-> _]%put_nodup_Ok. by apply touches_put. Qed.

Lemma touches_foldl {A} T (f : db L → A → db L) l d :
  (∀ d a, touches T d (f d a)) → touches T d (foldl f d l).
Proof.
  intros Hf. revert d. induction l as [|a l IH]; intros d; simpl; [done|].
  trans (f d a); auto.
Qed.

Lemma touches_bulk_insert T n k vs d : n ∈ T → touches T d (bulk_insert n k vs d).
Proof. intros Hn m k' Hm. apply bulk_insert_other. by intros ->. Qed.

(** The same write on both sides. *)
Lemma touches_put_both T n k v d d' : touches T d d' → touches T (put n k v d) (put n k v d').
Proof.
  intros Ht m k' Hm. destruct (decide (n = m)) as [<-|Hne]; [|by rewrite !dups_put_other, Ht].
  destruct (key_is (spec_of n) k k') eqn:E.
  - apply key_is_eq in E as <-. by rewrite !dups_put_same, Ht.
  - assert (k ≠ k') by (intros ?%(key_is_eq (spec_of n)); congruence). by rewrite !dups_put_key, Ht.
Qed.

Lemma touches_del_both T n k v d d' : touches T d d' → touches T (del n k v d) (del n k v d').
Proof.
  intros Ht m k' Hm. destruct (decide (n = m)) as [<-|Hne]; [|by rewrite !dups_del_other, Ht].
  destruct (key_is (spec_of n) k k') eqn:E.
  - apply key_is_eq in E as <-. by rewrite !dups_del_same, Ht.
  - assert (k ≠ k') by (intros ?%(key_is_eq (spec_of n)); congruence). by rewrite !dups_del_key, Ht.
Qed.

Lemma touches_bulk_put T n k vs d : n ∈ T → touches T d (bulk_put n k vs d).
Proof. intros Hn. apply touches_foldl. intros. by apply touches_put. Qed.

Lemma touches_fold_err {A} T (f : db L → A → expect (db L)) l d d' :
  (∀ d a d', f d a = Ok d' → touches T d d') → fold_err f d l = Ok d' → touches T d d'.
Proof.
  intros Hf Hr. apply (fold_err_invariant (touches T d) f d l d'); [done| |done].
  intros d1 a d2 _ H1 H2. trans d1; [done|]. by eapply Hf.
Qed.

(** *** Lookups after a write *)

Lemma get_both_touches T n k v d d' : touches T d d' → n ∉ T → get_both n k v d' = get_both n k v d.
Proof.
  intros Ht Hn. unfold get_both, mdb_get_both. pose proof (Ht n k Hn) as Hd. unfold dups in Hd.
  by rewrite Hd.
Qed.

Lemma get_both_ext n k v d d' :
  (∀ u, ts_dup_of _ u = v → u ∈ dups n k d' ↔ u ∈ dups n k d) →
  get_both n k v d' = get_both n k v d.
Proof.
  intros Hu. destruct (get_both n k v d) as [u|] eqn:E.
  - apply get_both_Some in E as [Hin Hd]. apply get_both_Some. by rewrite Hu.
  - rewrite get_both_None in E. apply get_both_None. intros u Hin Hd. apply (E u); [|done].
    by apply Hu.
Qed.

Lemma get_both_put_same n k u d v : v = ts_dup_of _ u → get_both n k v (put n k u d) = Some u.
Proof. intros ->. apply get_both_Some. split; [|done]. apply elem_of_dups_put. by left. Qed.

Lemma get_both_put_ne n k u d k' v :
  k ≠ k' ∨ ts_dup_of _ u ≠ v → get_both n k' v (put n k u d) = get_both n k' v d.
Proof.
  intros Hne. apply get_both_ext. intros w Hw. rewrite elem_of_dups_put.
  naive_solver.
Qed.

Lemma get_both_del_same n k v d : get_both n k v (del n k v d) = None.
Proof. apply get_both_None. intros u [_ Hne]%elem_of_dups_del. by apply Hne. Qed.

Lemma get_both_del_ne n k v d k' v' :
  k ≠ k' ∨ v ≠ v' → get_both n k' v' (del n k v d) = get_both n k' v' d.
Proof.
  intros Hne. apply get_both_ext. intros w Hw. rewrite elem_of_dups_del.
  naive_solver.
Qed.

Lemma get_both_foldl_del_in n k d v l u :
  u ∈ l → ts_dup_of _ u = v → get_both n k v (foldl (λ d u, del n k (ts_dup_of _ u) d) d l) = None.
Proof.
  intros Hu <-. apply get_both_None. intros w [_ Hw]%elem_of_foldl_del. by apply Hw.
Qed.

Lemma get_both_foldl_del_out n k d v l :
  (∀ u, u ∈ l → ts_dup_of _ u ≠ v) →
  get_both n k v (foldl (λ d u, del n k (ts_dup_of _ u) d) d l) = get_both n k v d.
Proof.
  intros Hl. apply get_both_ext. intros w Hw. rewrite elem_of_foldl_del.
  split; [by intros [? _]|]. intros Hin. split; [done|]. intros _ u Hu. rewrite Hw.
  intros Heq. by apply (Hl u).
Qed.
End touches.
#[export] Hint Resolve touches_put touches_del touches_del_all touches_put_nodup touches_foldl
  touches_bulk_insert touches_bulk_put touches_fold_err : lws.
#[export] Hint Extern 1 (_ ∈ _ :: _) => (by set_solver) : lws.
