(* ===== verification/Chain.v ===== *)
(** * The stored block chain (src/src/db/storage.cpp, lines 550-795, 922-1058, 1644-2098)

    The [blocks] table holds the hashes of the chain the daemon reported, the
    [pows] table the proof-of-work data of untrusted mode.  Modelled are the
    checks made when the database is opened, the summaries of the chain that
    are sent to the daemon, and the two updates that compare the chain the
    daemon answers with to the stored one, roll back every table at a
    reorganisation and append the new blocks.

    An LMDB cursor on the duplicates of a key is the list of the entries from
    its position on, in the direction the code moves it. *)

From S2P Require Import Prelude Lmdb Data Compare Tables.

(** What the build of Monero the server is linked with fixes: the checkpoints
    (height and hash, in order of height) and two consensus constants. *)
Class ChainConfig : Type := {
  get_points : list (Z * Z);
  get_max_height : Z;
  DIFFICULTY_BLOCKS_COUNT : Z;
  BLOCKCHAIN_TIMESTAMP_CHECK_WINDOW : Z
}.

(** The height the checkpoints reach is that of the last one. *)
Class ChainConfigLaws (C : ChainConfig) : Prop := {
  max_height_points h hash : (h, hash) ∈ get_points → h <= get_max_height;
  max_height_nonneg : 0 <= get_max_height
}.

Section chain.
Context `{L : Lmdb} `{C : ChainConfig}.
Implicit Types d : db L.

(** [do_get_block_hash] *)
Definition do_get_block_hash (d : db L) (id : Z) : expect Z :=
  bi_hash <$> of_option mdb_notfound (get_both blocks blocks_version id d).

(** [check_blockchain]: a new database is given the genesis block and the last
    checkpoint; an existing one must have the same genesis block. *)
Definition check_blockchain (d : db L) : expect (db L) :=
  match get_points with
  | [] => Err bad_blockchain
  | (h0, hash0) :: rest =>
      _ ← guard_err (h0 =? 0) bad_blockchain;
      match dups blocks blocks_version d with
      | [] =>
          d ← put_nodup blocks blocks_version (BlockInfo h0 hash0) d;
          match last rest with
          | None => Ok d
          | Some (h, hash) => put_nodup blocks blocks_version (BlockInfo h hash) d
          end
      | _ :: _ =>
          genesis ← do_get_block_hash d 0;
          _ ← guard_err (genesis =? hash0) bad_blockchain;
          Ok d
      end
  end.

(** [check_pow]: moves the entries of the previous schema to the current key,
    or starts a new table. *)
Definition check_pow (d : db L) : expect (db L) :=
  match dups pows pows_version d with
  | _ :: _ => Ok d
  | [] =>
      match dups pows pows_previous_version d with
      | [] => put_nodup pows pows_version (BlockPow 0 0 (BlockDifficulty 0 1)) d
      | migrated =>
          let d := foldl (λ d v, del pows pows_previous_version (bp_id v) d) d migrated in
          Ok (bulk_insert pows pows_version migrated d)
      end
  end.

(** *** Summaries of the chain *)

(** The first loop of [get_blocks_tail]: up to [n] blocks from the cursor
    backwards; whether the first block of the table was reached. *)
Fixpoint last_blocks (n : nat) (value : list block_info) : list block_info * bool :=
  match n, value with
  | S n, b :: value =>
      match value with
      | [] => ([b], true)
      | _ => let '(out, done) := last_blocks n value in (b :: out, done)
      end
  | _, _ => ([], false)
  end.

Definition add_block (d : db L) (out : list block_info) (id : Z) : expect (list block_info) :=
  hash ← do_get_block_hash d id; Ok (out ++ [BlockInfo id hash]).

(** [2 << i], an [int] that is converted to [std::uint64_t]. *)
Definition block_offset (i : Z) : Z :=
  let shifted := wrap 32 (Z.shiftl 2 i) in
  if shifted <? 2 ^ 31 then shifted else wrap 64 (shifted - 2 ^ 32).

(** The second loop: blocks at exponentially growing distances, down to the
    last checkpoint. *)
Fixpoint internal_blocks (d : db L) (n : nat) (i anchor : Z) (out : list block_info) :
    expect (list block_info) :=
  match n with
  | O => Ok out
  | S n =>
      let offset := block_offset i in
      if (anchor <? offset) || (wrap 64 (anchor - offset) <? get_max_height) then Ok out
      else
        out ← add_block d out (anchor - offset);
        internal_blocks d n (i + 1) anchor out
  end.

Definition back_id (out : list block_info) : Z := from_option bi_id 0 (last out).

Definition get_blocks_tail (d : db L) (value : list block_info) (max_internal : nat) :
    expect (list block_info) :=
  let '(out, done) := last_blocks 10 value in
  if done then
    _ ← guard_err (back_id out =? 0) bad_blockchain; Ok out
  else
    let checkpoint := get_max_height in
    out ← internal_blocks d max_internal 1 (back_id out) out;
    out ← (if checkpoint <? back_id out then add_block d out checkpoint else Ok out);
    if back_id out =? 0 then Ok out else add_block d out 0.

Definition get_blocks (d : db L) (max_internal : nat) : expect (list block_info) :=
  match rev (dups blocks blocks_version d) with
  | [] => Err mdb_notfound
  | value => get_blocks_tail d value (Nat.min 64 max_internal)
  end.

Definition get_blocks_from_height (d : db L) (max_internal : nat) (last_pow : Z) :
    expect (list block_info) :=
  match seek_prev blocks blocks_version last_pow d with
  | [] => Err mdb_notfound
  | value => get_blocks_tail d value (Nat.min 64 max_internal)
  end.

Fixpoint last_pows (n : nat) (value : list block_pow) : list block_pow * bool :=
  match n, value with
  | S n, b :: value =>
      match value with
      | [] => ([b], true)
      | _ => let '(out, done) := last_pows n value in (b :: out, done)
      end
  | _, _ => ([], false)
  end.

Definition get_pow_blocks (d : db L) (max_internal : nat) : expect (list block_pow) :=
  match rev (dups pows pows_version d) with
  | [] => Err mdb_notfound
  | value =>
      let '(out, done) := last_pows (Nat.min 64 max_internal) value in
      if done then
        _ ← guard_err (from_option bp_id 0 (last out) =? 0) bad_blockchain; Ok out
      else Ok out
  end.

Definition get_last_block (d : db L) : expect block_info :=
  of_option mdb_notfound (last (dups blocks blocks_version d)).

Definition get_last_pow_block (d : db L) : expect block_pow :=
  of_option mdb_notfound (last (dups pows pows_version d)).

Definition get_block_hash (d : db L) (height : Z) : expect Z := do_get_block_hash d height.

Definition get_chain_sync (d : db L) : expect (list Z) :=
  out ← get_blocks d 64; Ok (map bi_hash out).

Definition get_pow_sync (d : db L) : expect (list Z) :=
  pow ← get_last_pow_block d;
  out ← get_blocks_from_height d 64 (bp_id pow);
  Ok (map bi_hash out).

Record pow_window := PowWindow {
  pow_timestamps : list Z;
  cumulative_diffs : list Z;
  median_timestamps : list Z
}.

(** The loops of [get_pow_window]: [n] entries from the cursor on. *)
Fixpoint next_pows (n : nat) (value : list block_pow) : expect (list block_pow) :=
  match n, value with
  | O, _ => Ok []
  | S _, [] => Err mdb_notfound
  | S n, b :: value => rest ← next_pows n value; Ok (b :: rest)
  end.

Definition get_pow_window (d : db L) (last : Z) : expect pow_window :=
  if last =? 0 then Ok (PowWindow [] [] [])
  else
    let next :=
      if DIFFICULTY_BLOCKS_COUNT <? last then last - (DIFFICULTY_BLOCKS_COUNT - 1) else 0 in
    diffs ← next_pows (Z.to_nat (last + 1 - next)) (seek pows pows_version next d);
    let pow_timestamps := map bp_timestamp diffs in
    let cumulative_diffs := map (λ b, get_difficulty (bp_cumulative_diff b)) diffs in
    if last <? BLOCKCHAIN_TIMESTAMP_CHECK_WINDOW then
      Ok (PowWindow pow_timestamps cumulative_diffs [])
    else
      let next := last - (BLOCKCHAIN_TIMESTAMP_CHECK_WINDOW - 1) in
      medians ← next_pows (Z.to_nat (last + 1 - next)) (seek pows pows_version next d);
      Ok (PowWindow pow_timestamps cumulative_diffs (map bp_timestamp medians)).

(** [storage::get_last_checkpoint] *)
Definition get_last_checkpoint : expect block_info :=
  match last get_points with
  | None => Err bad_blockchain
  | Some (h, hash) => Ok (BlockInfo h hash)
  end.

(** *** Rolling back *)

(** [rollback_spends]: the spends of a user from a height on, each with its
    key image, which must be there. *)
Fixpoint rollback_spends_loop (user : Z) (l : list spend) (d : db L) : expect (db L) :=
  match l with
  | [] => Ok d
  | s :: l =>
      match get_both images (s_source s) (s_image s) d with
      | None => Err mdb_notfound
      | Some _ =>
          let d := del images (s_source s) (s_image s) d in
          let d := del spends user (spend_key_of s) d in
          rollback_spends_loop user l d
      end
  end.

Definition rollback_spends (user height : Z) (d : db L) : expect (db L) :=
  rollback_spends_loop user
    (seek_range spends user (λ s, tl_height (s_link s) <? height) d) d.

Definition rollback_outputs (user height : Z) (d : db L) : db L :=
  foldl (λ d o, del outputs user (output_key_of o) d) d
    (seek_range outputs user (λ o, tl_height (o_link o) <? height) d).

(** The entries of [accounts_by_height] from [MDB_SET_RANGE] on. *)
Definition by_height_from (height : Z) (d : db L) : list (Z * account_lookup) :=
  drop_while (λ e, e.1 <? height) (mdb_all (d accounts_by_height)).

Definition with_heights (scan start : Z) (a : account) : account :=
  {| acc_id := acc_id a; acc_access := acc_access a; acc_address := acc_address a;
     acc_key := acc_key a; acc_scan_height := scan; acc_start_height := start;
     acc_creation := acc_creation a; acc_flags := acc_flags a;
     acc_lookahead := acc_lookahead a; acc_lookahead_fail := acc_lookahead_fail a |}.

(** One round of the loop of [rollback_accounts], for the entry [lookup] at
    scan height [at_height]. *)
Definition rollback_account (height new_height : Z) (st : list account_lookup * db L)
    (e : Z * account_lookup) : expect (list account_lookup * db L) :=
  let '(new_by_heights, d) := st in
  let '(at_height, lookup) := e in
  user ← of_option mdb_notfound (get_both accounts (lk_status lookup) (lk_id lookup) d);
  let user := with_heights new_height (Z.min new_height (acc_start_height user)) user in
  let d := put accounts (lk_status lookup) user d in
  let d := rollback_outputs (acc_id user) height d in
  d ← rollback_spends (acc_id user) height d;
  let d := del accounts_by_height at_height (lk_id lookup) d in
  Ok (new_by_heights ++ [AccountLookup (acc_id user) (lk_status lookup)], d).

Definition rollback_accounts (height : Z) (d : db L) : expect (db L) :=
  let new_height := Z.max height 1 - 1 in
  '(new_by_heights, d) ←
    fold_err (rollback_account height new_height) ([], d) (by_height_from height d);
  Ok (bulk_insert accounts_by_height new_height new_by_heights d).

(** [rollback_events] moves from the last event of the last user backwards;
    at an event below [height] it goes on with the previous user. *)
Fixpoint rollback_events_loop (height : Z) (skip : option Z) (l : list (Z * webhook_event))
    (d : db L) : db L :=
  match l with
  | [] => d
  | (user, event) :: l =>
      if bool_decide (skip = Some user) then rollback_events_loop height skip l d
      else if tl_height (wo_tx (we_link event)) <? height then
        rollback_events_loop height (Some user) l d
      else
        rollback_events_loop height None l (del events_by_account_id user event d)
  end.

Definition rollback_events (height : Z) (d : db L) : db L :=
  rollback_events_loop height None (rev (mdb_all (d events_by_account_id))) d.

(** [rollback_chain]: [cur] is the cursor on the blocks to remove. *)
Definition rollback_chain (cur : list block_info) (height : Z) (d : db L) : expect (db L) :=
  let d := foldl (λ d b, del blocks blocks_version (bi_id b) d) d cur in
  let d := foldl (λ d b, del pows pows_version (bp_id b) d) d (seek pows pows_version height d) in
  d ← rollback_accounts height d;
  Ok (rollback_events height d).

(** *** Appending *)

(** [append_block_hashes]: written in batches of 25, overwriting. *)
Fixpoint append_block_hashes_loop (hashes : list block_info) (height : Z) (chain : list Z)
    (d : db L) : db L :=
  let full := bool_decide (length hashes = 25%nat) in
  let d' := bulk_put blocks blocks_version hashes d in
  match chain with
  | [] => d'
  | hash :: chain =>
      let rest := if full then [] else hashes in
      append_block_hashes_loop (rest ++ [BlockInfo height hash]) (wrap 64 (height + 1)) chain
        (if full then d' else d)
  end.

Definition append_block_hashes (first : Z) (chain : list Z) (d : db L) : db L :=
  append_block_hashes_loop [] first chain d.

(** [append_pow]: written in batches of 31, keeping what is there. *)
Fixpoint append_pow_loop (buffer : list block_pow) (height : Z) (chain : list pow_sync)
    (d : db L) : db L :=
  let full := bool_decide (length buffer = 31%nat) in
  let d' := bulk_insert pows pows_version buffer d in
  match chain with
  | [] => d'
  | p :: chain =>
      let rest := if full then [] else buffer in
      append_pow_loop (rest ++ [BlockPow height (ps_timestamp p) (ps_cumulative_diff p)])
        (wrap 64 (height + 1)) chain (if full then d' else d)
  end.

Definition append_pow (first : Z) (chain : list pow_sync) (d : db L) : db L :=
  append_pow_loop [] first chain d.

(** *** The transactions *)

(** [storage::rollback] *)
Definition rollback (height : Z) (d : db L) : expect (db L) :=
  match seek blocks blocks_version height d with
  | [] => Ok d
  | cur => rollback_chain cur height d
  end.

(** The loop of [sync_chain]: skips the blocks that agree; at the first that
    does not, rolls back.  Returns the height and the hashes to append. *)
Fixpoint sync_chain_loop (regtest : bool) (cur : list block_info) (current : Z) (chain : list Z)
    (d : db L) : expect (Z * list Z * db L) :=
  match chain, cur with
  | [], _ => Ok (current, [], d)
  | _, [] => Ok (current, chain, d)
  | hash :: chain', b :: cur' =>
      if bi_hash b =? hash then
        sync_chain_loop regtest cur' (wrap 64 (current + 1)) chain' d
      else
        _ ← guard_err (negb (negb regtest && (current <=? get_max_height))) bad_blockchain;
        d ← rollback_chain cur current d;
        Ok (current, chain, d)
  end.

Definition sync_chain (height : Z) (hashes : list Z) (regtest : bool) (d : db L) :
    expect (db L) :=
  match hashes with
  | [] => Err invalid_argument
  | first :: chain =>
      hash ← do_get_block_hash d height;
      _ ← guard_err (hash =? first) bad_blockchain;
      '(current, chain, d) ←
        sync_chain_loop regtest (tail (seek blocks blocks_version height d))
          (wrap 64 (height + 1)) chain d;
      Ok (append_block_hashes current chain d)
  end.

(** [checkpoints.get_points().find(height)] finds no other hash. *)
Definition agrees_with_checkpoint (height hash : Z) : bool :=
  match List.find (λ p, p.1 =? height) get_points with
  | Some (_, expected) => expected =? hash
  | None => true
  end.

Fixpoint sync_pow_loop (cur : list block_info) (current : Z) (chain : list Z) (d : db L) :
    expect (Z * list Z * db L) :=
  match chain with
  | [] => Ok (current, [], d)
  | hash :: chain' =>
      _ ← guard_err (agrees_with_checkpoint current hash) bad_blockchain;
      match cur with
      | [] => Ok (current, chain, d)
      | b :: cur' =>
          if negb (bi_id b =? current) then Ok (current, chain, d)
          else if bi_hash b =? hash then
            sync_pow_loop cur' (wrap 64 (current + 1)) chain' d
          else
            _ ← guard_err (negb (current <=? get_max_height)) bad_blockchain;
            d ← rollback_chain cur current d;
            Ok (current, chain, d)
      end
  end.

(** The second pass over the new hashes. *)
Fixpoint scan_checkpoints (current : Z) (chain : list Z) : bool :=
  match chain with
  | [] => true
  | hash :: chain => agrees_with_checkpoint current hash && scan_checkpoints (wrap 64 (current + 1)) chain
  end.

Definition sync_pow (height : Z) (hashes : list Z) (pow : list pow_sync) (d : db L) :
    expect (db L) :=
  match hashes with
  | [] => Err invalid_argument
  | first :: chain =>
      _ ← guard_err (bool_decide (length hashes = length pow)) invalid_argument;
      hash ← do_get_block_hash d height;
      _ ← guard_err (hash =? first) bad_blockchain;
      '(current, chain, d) ←
        sync_pow_loop (tail (seek blocks blocks_version height d)) (wrap 64 (height + 1)) chain d;
      _ ← guard_err (scan_checkpoints current chain) bad_blockchain;
      let first_pow := drop (length hashes - length chain) pow in
      let d := append_block_hashes current chain d in
      Ok (append_pow current first_pow d)
  end.
End chain.

(** ** Theorems *)

Section rollback_theorems.
Context `{LL : LmdbLaws}.
Implicit Types d : db L.

(** *** Which tables the operations write *)

Lemma touches_rollback_spends_loop user l d d' :
  rollback_spends_loop user l d = Ok d' → touches [spends; images] d d'.
Proof.
  revert d. induction l as [|s l IH]; intros d; simpl; [by intros [= ->]|].
  destruct (get_both _ _ _ _); [|done]. intros H%IH.
  trans (del images (s_source s) (s_image s) d); [auto with lws|].
  trans (del spends user (spend_key_of s) (del images (s_source s) (s_image s) d)); auto with lws.
Qed.

Lemma touches_rollback_spends user h d d' :
  rollback_spends user h d = Ok d' → touches [spends; images] d d'.
Proof. apply touches_rollback_spends_loop. Qed.

Lemma touches_rollback_outputs user h d : touches [outputs] d (rollback_outputs user h d).
Proof. apply touches_foldl. auto with lws. Qed.

Lemma touches_rollback_account h nh st e st' :
  rollback_account h nh st e = Ok st' →
  touches [accounts; outputs; spends; images; accounts_by_height] st.2 st'.2.
Proof.
  destruct st as [nbh d], e as [ah lookup]. simpl. intros (user & _ & H)%expect_bind_ok.
  apply expect_bind_ok in H as (d2 & H2 & [= <-]). simpl.
  etrans; [|apply touches_del; set_solver].
  etrans; [|eapply touches_weaken, touches_rollback_spends, H2; set_solver].
  etrans; [|eapply touches_weaken, touches_rollback_outputs; set_solver].
  auto with lws.
Qed.

Lemma touches_rollback_accounts h d d' :
  rollback_accounts h d = Ok d' →
  touches [accounts; outputs; spends; images; accounts_by_height] d d'.
Proof.
  unfold rollback_accounts. intros ([nbh d1] & H1 & [= <-])%expect_bind_ok.
  etrans; [|apply touches_bulk_insert; set_solver].
  apply (fold_err_invariant
    (λ st, touches [accounts; outputs; spends; images; accounts_by_height] d st.2)) in H1; [done|done|].
  intros st e st' _ Hst He. etrans; [exact Hst|by eapply touches_rollback_account].
Qed.

Lemma touches_append_block_hashes first chain d :
  touches [blocks] d (append_block_hashes first chain d).
Proof.
  unfold append_block_hashes. generalize (@nil block_info). revert first d.
  induction chain as [|x chain IH]; intros first d buf; simpl; [apply touches_bulk_put; set_solver|].
  case_bool_decide; [|apply IH]. etrans; [|apply IH]. apply touches_bulk_put. set_solver.
Qed.

Lemma touches_append_pow first chain d : touches [pows] d (append_pow first chain d).
Proof.
  unfold append_pow. generalize (@nil block_pow). revert first d.
  induction chain as [|x chain IH]; intros first d buf; simpl;
    [apply touches_bulk_insert; set_solver|].
  case_bool_decide; [|apply IH]. etrans; [|apply IH]. apply touches_bulk_insert. set_solver.
Qed.

Lemma touches_rollback_events_loop h skip l d :
  touches [events_by_account_id] d (rollback_events_loop h skip l d).
Proof.
  revert skip d. induction l as [|[u e] l IH]; intros skip d; simpl; [done|].
  repeat case_match; try apply IH. etrans; [|apply IH]. auto with lws.
Qed.

Lemma touches_rollback_events h d : touches [events_by_account_id] d (rollback_events h d).
Proof. apply touches_rollback_events_loop. Qed.

Lemma touches_rollback_chain cur h d d' :
  rollback_chain cur h d = Ok d' →
  touches [blocks; pows; accounts; outputs; spends; images; accounts_by_height;
    events_by_account_id] d d'.
Proof.
  unfold rollback_chain. intros (d1 & H1 & [= <-])%expect_bind_ok.
  etrans; [|eapply touches_weaken, touches_rollback_events_loop; set_solver].
  etrans; [|eapply touches_weaken, touches_rollback_accounts, H1; set_solver].
  etrans; [|apply touches_foldl; auto with lws]. apply touches_foldl; auto with lws.
Qed.

(** *** Rolling back one account *)

Lemma output_key_lt_height (x y : ts_val outputs_spec) :
  dup_lt outputs_spec x y → tl_height (o_link x) <= tl_height (o_link y).
Proof.
  unfold dup_lt, output_key_of. simpl. unfold output_key_cmp, lex_cmp, transaction_link_cmp, proj_cmp, lex_cmp.
  simpl. destruct (Z.compare_spec (tl_height (o_link x)) (tl_height (o_link y))); [lia|lia|done].
Qed.

Lemma spend_key_lt_height (x y : ts_val spends_spec) :
  dup_lt spends_spec x y → tl_height (s_link x) <= tl_height (s_link y).
Proof.
  unfold dup_lt, spend_key_of. simpl. unfold spend_key_cmp, lex_cmp, transaction_link_cmp, proj_cmp, lex_cmp.
  simpl. destruct (Z.compare_spec (tl_height (s_link x)) (tl_height (s_link y))); [lia|lia|done].
Qed.

Lemma elem_of_outputs_from user h d o :
  o ∈ seek_range outputs user (λ o, tl_height (o_link o) <? h) d ↔
    o ∈ dups outputs user d ∧ h <= tl_height (o_link o).
Proof.
  unfold seek_range. rewrite (elem_of_drop_while (dup_lt outputs_spec)).
  - by rewrite Z.ltb_ge.
  - apply (dups_sorted outputs).
  - intros a b Hab%output_key_lt_height ?%Z.ltb_lt. apply Z.ltb_lt. lia.
Qed.

Lemma elem_of_spends_from user h d s :
  s ∈ seek_range spends user (λ s, tl_height (s_link s) <? h) d ↔
    s ∈ dups spends user d ∧ h <= tl_height (s_link s).
Proof.
  unfold seek_range. rewrite (elem_of_drop_while (dup_lt spends_spec)).
  - by rewrite Z.ltb_ge.
  - apply (dups_sorted spends).
  - intros a b Hab%spend_key_lt_height ?%Z.ltb_lt. apply Z.ltb_lt. lia.
Qed.

(** [rollback_outputs] removes exactly the outputs of the user received at
    or above the height, and no output of another user. *)
Theorem rollback_outputs_spec user h d k o :
  o ∈ dups outputs k (rollback_outputs user h d) ↔
    o ∈ dups outputs k d ∧ (user = k → tl_height (o_link o) < h).
Proof.
  unfold rollback_outputs. rewrite (elem_of_foldl_del outputs user d k o).
  setoid_rewrite elem_of_outputs_from. split; intros [Ho Hk]; (split; [done|]); intros <-.
  - destruct (decide (h <= tl_height (o_link o))); [|lia]. by destruct (Hk eq_refl o).
  - intros v [Hv Hh] Heq. assert (o = v) as ->; [|specialize (Hk eq_refl); lia].
    by apply (dups_unique outputs user d).
Qed.

Lemma spends_loop_elem user l d d' k s :
  rollback_spends_loop user l d = Ok d' →
  s ∈ dups spends k d' ↔
    s ∈ dups spends k d ∧ (user = k → ∀ v, v ∈ l → spend_key_of s ≠ spend_key_of v).
Proof.
  revert d. induction l as [|v l IH]; intros d; simpl.
  - intros [= ->]. split; [|by intros []]. intros Hs. split; [done|]. by intros _ ? ?%elem_of_nil.
  - destruct (get_both _ _ _ _); [|done]. intros ->%IH.
    rewrite (elem_of_dups_del spends user), (dups_del_other images _ _ _ spends) by done.
    setoid_rewrite elem_of_cons. simpl. split.
    + intros [[Hs Hv] Hl]. split; [done|]. intros Hk w [->|Hw]; auto.
    + intros [Hs Hl]. auto.
Qed.

(** [rollback_spends] removes exactly the spends of the user seen at or above
    the height. *)
Lemma rollback_spends_spec user h d d' k s :
  rollback_spends user h d = Ok d' →
  s ∈ dups spends k d' ↔ s ∈ dups spends k d ∧ (user = k → tl_height (s_link s) < h).
Proof.
  intros H. rewrite (spends_loop_elem user _ d d' k s H). setoid_rewrite elem_of_spends_from.
  split; intros [Hs Hk]; (split; [done|]); intros <-.
  - destruct (decide (h <= tl_height (s_link s))); [|lia]. by destruct (Hk eq_refl s).
  - intros v [Hv Hh] Heq. assert (s = v) as ->; [|specialize (Hk eq_refl); lia].
    by apply (dups_unique spends user d).
Qed.

Definition event_height (e : webhook_event) : Z := tl_height (wo_tx (we_link e)).

Lemma event_lt_height (x y : ts_val events_by_account_id_spec) :
  dup_lt events_by_account_id_spec x y → event_height x <= event_height y.
Proof.
  unfold dup_lt, event_height. simpl. unfold webhook_event_cmp, webhook_output_cmp,
    transaction_link_cmp, proj_cmp, lex_cmp. simpl.
  match goal with |- context [?a ?= ?b] => destruct (Z.compare_spec a b) end; [lia|lia|done].
Qed.

Lemma rollback_events_loop_elem h l skip d k e :
  StronglySorted (λ a b, a.1 = b.1 → event_height b.2 <= event_height a.2) l →
  (∀ u f, skip = Some u → (u, f) ∈ l → event_height f < h) →
  e ∈ dups events_by_account_id k (rollback_events_loop h skip l d) ↔
    e ∈ dups events_by_account_id k d ∧ ((k, e) ∈ l → event_height e < h).
Proof.
  intros Hl. revert skip d. induction Hl as [|[u f] l Hl IH Hu]; intros skip d Hskip; simpl.
  { split; [|by intros []]. intros He. split; [done|]. by intros ?%elem_of_nil. }
  rewrite Forall_forall in Hu. case_bool_decide as Hs; [|destruct (Z.ltb_spec (event_height f) h) as [Hlt|Hge]];
    unfold event_height in *; simpl in *.
  - rewrite IH by (intros u' f' Hu' Hin; eapply Hskip; [exact Hu'|by right]).
    setoid_rewrite elem_of_cons. split; intros [He Hh]; (split; [done|]); [|by auto].
    intros [[= -> ->]|Hin]; [|by apply Hh]. by apply (Hskip u f); [|left].
  - rewrite (proj2 (Z.ltb_lt _ _) Hlt). rewrite IH.
    + setoid_rewrite elem_of_cons. split; intros [He Hh]; (split; [done|]); [|by auto].
      by intros [[= -> ->]|Hin]; [|apply Hh].
    + intros u' f' [= <-] Hin. specialize (Hu _ Hin eq_refl). simpl in Hu. lia.
  - rewrite (proj2 (Z.ltb_ge _ _) Hge). rewrite IH by done.
    rewrite (elem_of_dups_del events_by_account_id u f). setoid_rewrite elem_of_cons.
    split; [intros [[He Hne] Hh]|intros [He Hh]].
    + split; [done|]. intros [[= -> ->]|Hin]; [by destruct Hne|by apply Hh].
    + split; [|by auto]. split; [done|]. intros <- Heq. simpl in Heq. subst f.
      specialize (Hh (or_introl eq_refl)). lia.
Qed.

Lemma rollback_events_elem h d k e :
  e ∈ dups events_by_account_id k (rollback_events h d) ↔
    e ∈ dups events_by_account_id k d ∧ event_height e < h.
Proof.
  unfold rollback_events. rewrite rollback_events_loop_elem; [| |done].
  - rewrite elem_of_rev. unfold dups. rewrite (elem_of_mdb_all (spec_of events_by_account_id)). tauto.
  - apply (sorted_impl _ _ _ (sorted_rev _ _ (mdb_all_sorted (spec_of events_by_account_id)
      (d events_by_account_id)))).
    intros [k1 e1] [k2 e2] H. simpl in *. intros Hk. by apply event_lt_height, H.
Qed.

(** [rollback_events] removes exactly the webhook events of every user that
    an output at or above the height triggered. *)
Theorem rollback_events_spec h d k e :
  e ∈ dups events_by_account_id k (rollback_events h d) ↔
    e ∈ dups events_by_account_id k d ∧ event_height e < h.
Proof. apply rollback_events_elem. Qed.
End rollback_theorems.

Section chain_theorems.
Context `{LL : LmdbLaws} `{CL : ChainConfigLaws}.
Implicit Types d : db L.

(** *** The stored chain and its update *)

(** The hash stored for a height. *)
Definition hash_at (d : db L) (h : Z) : option Z := bi_hash <$> get_both blocks blocks_version h d.

(** [d] stores the chain [l] from [height] on, and no block after it. *)
Definition stores (d : db L) (height : Z) (l : list Z) : Prop :=
  ∀ i : nat, hash_at d (height + Z.of_nat i) = l !! i.

Lemma do_get_block_hash_ok d h hash : do_get_block_hash d h = Ok hash ↔ hash_at d h = Some hash.
Proof. unfold do_get_block_hash, hash_at. by destruct (get_both _ _ _ _); simpl; split; intros [= ->]. Qed.

Lemma stores_tail d h x l : stores d h (x :: l) → stores d (h + 1) l.
Proof. intros H i. change (l !! i) with ((x :: l) !! S i). rewrite <-H. f_equal. lia. Qed.

(** The cursor entries a stored chain gives. *)
Fixpoint infos (height : Z) (l : list Z) : list block_info :=
  match l with
  | [] => []
  | hash :: l => BlockInfo height hash :: infos (height + 1) l
  end.

Lemma elem_of_infos h l b :
  b ∈ infos h l ↔ ∃ i : nat, bi_id b = h + Z.of_nat i ∧ l !! i = Some (bi_hash b).
Proof.
  revert h. induction l as [|x l IH]; intros h; simpl.
  - split; [by intros ?%elem_of_nil|]. by intros (i & _ & ?).
  - rewrite elem_of_cons, IH. split.
    + intros [->|(i & Hb & Hl)]; [by exists 0%nat; split; [simpl; lia|]|].
      exists (S i). split; [lia|done].
    + intros ([|i] & Hb & Hl); simpl in Hl.
      * left. destruct b; simpl in *. injection Hl as ->. f_equal. lia.
      * right. exists i. split; [lia|done].
Qed.

Lemma infos_sorted h l : StronglySorted (dup_lt blocks_spec) (infos h l).
Proof.
  revert h. induction l as [|x l IH]; intros h; simpl; constructor; [apply IH|].
  apply Forall_forall. intros b (i & Hb & _)%elem_of_infos. unfold dup_lt. simpl.
  apply Z.compare_lt_iff. lia.
Qed.

Lemma hash_at_elem d h hash :
  hash_at d h = Some hash ↔ BlockInfo h hash ∈ dups blocks blocks_version d.
Proof.
  unfold hash_at. rewrite fmap_Some. split.
  - intros ([h' x] & Hin & ->). apply (get_both_Some blocks) in Hin as [Hin <-]. done.
  - intros Hin. exists (BlockInfo h hash). split; [|done]. by apply (get_both_Some blocks).
Qed.

(** [MDB_GET_BOTH] and the entries after it are the entries from a key on. *)
Lemma seek_blocks_elem d h b :
  hash_at d h ≠ None →
  b ∈ seek blocks blocks_version h d ↔ b ∈ dups blocks blocks_version d ∧ h <= bi_id b.
Proof.
  intros Hh. destruct (hash_at d h) as [x|] eqn:E; [|done]. clear Hh.
  apply hash_at_elem in E. unfold seek. pose proof (dups_sorted blocks blocks_version d) as Hs.
  revert E Hs. generalize (dups blocks blocks_version d). cbn [spec_of blocks_spec ts_val].
  induction l as [|c l IH]; intros E Hs; [by apply elem_of_nil in E|].
  apply StronglySorted_inv in Hs as [Hs Hc]. rewrite Forall_forall in Hc.
  assert (∀ y, y ∈ l → bi_id c < bi_id y) as Hlt.
  { intros y Hy. apply Z.compare_lt_iff. by apply Hc. }
  cbn [drop_while]. destruct (dup_is blocks_spec h c) eqn:Ec; cbn [negb].
  - apply dup_is_eq in Ec. simpl in Ec. subst h. split; [|by intros []]. intros Hb. split; [done|].
    apply elem_of_cons in Hb as [->|Hb]; [lia|]. specialize (Hlt b Hb). lia.
  - apply dup_is_neq in Ec. simpl in Ec.
    apply elem_of_cons in E as [<-|E]; [done|]. rewrite IH by done. rewrite elem_of_cons.
    split; [by intuition|]. intros [[->|Hb] Hh]; [|done].
    specialize (Hlt _ E). simpl in Hlt. lia.
Qed.

Lemma seek_sorted d h : StronglySorted (dup_lt blocks_spec) (seek blocks blocks_version h d).
Proof.
  apply sorted_drop_while, (dups_sorted blocks).
Qed.

(** A stored chain is what the cursor at its first block goes through. *)
Lemma seek_stored d h x l :
  stores d h (x :: l) → seek blocks blocks_version h d = infos h (x :: l).
Proof.
  intros Hst. apply (sorted_ext (dup_lt blocks_spec)); [|apply seek_sorted|apply infos_sorted|].
  - intros a b Hab Hba. apply (dup_lt_neq blocks_spec a a); [by trans b|done].
  - pose proof (Hst 0%nat) as H0. rewrite Z.add_0_r in H0. simpl in H0.
    intros [i hash]. rewrite seek_blocks_elem by (by rewrite H0). rewrite <-hash_at_elem, elem_of_infos.
    simpl. split.
    + intros [Hi Hh]. exists (Z.to_nat (i - h)). rewrite <-Hst.
      replace (h + Z.of_nat (Z.to_nat (i - h))) with i by lia. split; [lia|done].
    + intros (n & -> & Hn). rewrite (Hst n). split; [done|lia].
Qed.

(** *** Appending *)

Lemma bulk_put_app n k vs vs' d :
  bulk_put n k (vs ++ vs') d = bulk_put n k vs' (bulk_put n k vs d).
Proof. apply foldl_app. Qed.

Lemma bulk_put_infos h x l d :
  bulk_put blocks blocks_version (infos h (x :: l)) d =
    bulk_put blocks blocks_version (infos (h + 1) l) (put blocks blocks_version (BlockInfo h x) d).
Proof. done. Qed.

Lemma append_block_hashes_loop_eq hashes height chain d :
  0 <= height → height + Z.of_nat (length chain) < 2 ^ 64 →
  append_block_hashes_loop hashes height chain d =
    bulk_put blocks blocks_version (hashes ++ infos height chain) d.
Proof.
  revert hashes height d. induction chain as [|x chain IH]; intros hashes height d Hh Hlt;
    cbn [append_block_hashes_loop infos length] in *; [by rewrite app_nil_r|].
  rewrite Nat2Z.inj_succ in Hlt. destruct chain as [|y chain].
  - cbn [append_block_hashes_loop infos]. case_bool_decide; [by rewrite (bulk_put_app blocks _ hashes)|done].
  - rewrite wrap_small, IH by (cbn [length] in *; lia).
    rewrite <-(assoc (++)). case_bool_decide; [by rewrite (bulk_put_app blocks _ hashes)|done].
Qed.

Lemma hash_at_put d h hash h' :
  hash_at (put blocks blocks_version (BlockInfo h hash) d) h' =
    if decide (h = h') then Some hash else hash_at d h'.
Proof.
  unfold hash_at. destruct (decide (h = h')) as [<-|Hne].
  - by rewrite (get_both_put_same blocks).
  - by rewrite (get_both_put_ne blocks) by by right.
Qed.

Lemma hash_at_append_lt first chain d h :
  h < first → hash_at (bulk_put blocks blocks_version (infos first chain) d) h = hash_at d h.
Proof.
  revert first d. induction chain as [|x chain IH]; intros first d Hh; [done|].
  rewrite bulk_put_infos, IH by lia. rewrite hash_at_put. by destruct (decide _); [lia|].
Qed.

Lemma stores_append first chain d :
  stores d first [] → stores (bulk_put blocks blocks_version (infos first chain) d) first chain.
Proof.
  assert (∀ first d, (∀ h, first <= h → hash_at d h = None) →
    stores (bulk_put blocks blocks_version (infos first chain) d) first chain) as Haux.
  { clear first d. induction chain as [|x chain IH]; intros first d Hd i.
    - rewrite lookup_nil. apply Hd. lia.
    - rewrite bulk_put_infos. destruct i as [|i].
      + rewrite Z.add_0_r, hash_at_append_lt, hash_at_put by lia. by destruct (decide _).
      + simpl. rewrite <-(IH (first + 1) (put blocks blocks_version (BlockInfo first x) d)).
        * f_equal. lia.
        * intros h Hh. rewrite hash_at_put. destruct (decide _); [lia|]. apply Hd. lia. }
  intros Hd. apply Haux. intros h Hh. rewrite <-(lookup_nil (Z.to_nat (h - first))), <-Hd.
  f_equal. lia.
Qed.

(** *** Rolling back the blocks *)

Lemma hash_at_touches T d d' h : touches T d d' → blocks ∉ T → hash_at d' h = hash_at d h.
Proof. intros Ht Hn. unfold hash_at. by rewrite (get_both_touches T _ _ _ d d'). Qed.

Lemma hash_at_rollback_chain h l d d' h' :
  rollback_chain (infos h l) h d = Ok d' → stores d h l →
  hash_at d' h' = if decide (h <= h') then None else hash_at d h'.
Proof.
  unfold rollback_chain. intros (d1 & H1 & [= <-])%expect_bind_ok Hst.
  rewrite (hash_at_touches _ _ _ _ (touches_rollback_events _ _)) by set_solver.
  rewrite (hash_at_touches _ _ _ _ (touches_rollback_accounts _ _ _ H1)) by set_solver.
  rewrite (hash_at_touches [pows] (foldl (λ d b, del blocks blocks_version (bi_id b) d) d (infos h l)));
    [|apply touches_foldl; auto with lws|set_solver].
  unfold hash_at. destruct (decide (h <= h')) as [Hle|Hlt].
  - pose proof (Hst (Z.to_nat (h' - h))) as Hi. replace (h + _) with h' in Hi by lia.
    destruct (l !! Z.to_nat (h' - h)) as [x|] eqn:E.
    + refine (f_equal (fmap bi_hash) (get_both_foldl_del_in blocks blocks_version d h' (infos h l)
        (BlockInfo h' x) _ _)); [|done].
      apply elem_of_infos. exists (Z.to_nat (h' - h)). simpl. split; [lia|done].
    + etrans; [|exact Hi].
      refine (f_equal (fmap bi_hash) (get_both_foldl_del_out blocks blocks_version d h' (infos h l) _)).
      intros b (i & Hb & Hl)%elem_of_infos. simpl. intros <-. rewrite Hb in E.
      replace (Z.to_nat _) with i in E by lia. congruence.
  - refine (f_equal (fmap bi_hash) (get_both_foldl_del_out blocks blocks_version d h' (infos h l) _)).
    intros b (i & Hb & Hl)%elem_of_infos. simpl. lia.
Qed.

(** *** [sync_chain] refines the merge of two lists *)

(** The chain that results from the daemon's answer [new] when [old] is stored:
    blocks that agree are kept, also those the answer does not reach; the
    first that differs starts the rest of the answer. *)
Fixpoint merge_chain (old new : list Z) : list Z :=
  match old, new with
  | o :: old', n :: new' => if o =? n then o :: merge_chain old' new' else new
  | [], _ => new
  | _, [] => old
  end.

Lemma stores_cons d h x l : hash_at d h = Some x → stores d (h + 1) l → stores d h (x :: l).
Proof.
  intros Hx Hl [|i]; [by rewrite Z.add_0_r|]. simpl. rewrite <-Hl. f_equal. lia.
Qed.

Lemma sync_chain_loop_spec regtest current old new d current' rest d' :
  sync_chain_loop regtest (infos current old) current new d = Ok (current', rest, d') →
  stores d current old → 0 <= current → current + Z.of_nat (length new) < 2 ^ 64 →
  stores (append_block_hashes current' rest d') current (merge_chain old new) ∧
  ∀ h, h < current → hash_at (append_block_hashes current' rest d') h = hash_at d h.
Proof.
  revert current old d. induction new as [|n new IH]; intros current old d Hrun Hst Hc Hlt.
  { assert (merge_chain old [] = old) as -> by by destruct old.
    assert (Ok (current, [], d) = Ok (current', rest, d')) as [= <- <- <-].
    { rewrite <-Hrun. by destruct old. }
    unfold append_block_hashes. by rewrite append_block_hashes_loop_eq. }
  destruct old as [|o old]; simpl in Hrun.
  { injection Hrun as <- <- <-. unfold append_block_hashes.
    rewrite append_block_hashes_loop_eq by done. cbn [app merge_chain].
    split; [by apply stores_append|]. intros h Hh. by apply hash_at_append_lt. }
  cbn [length] in Hlt. rewrite Nat2Z.inj_succ in Hlt. cbn [merge_chain].
  destruct (Z.eqb_spec o n) as [->|Hne].
  - rewrite wrap_small in Hrun by lia. apply IH in Hrun as [Hs Hlow]; [|by eapply stores_tail|lia|lia].
    split; [|intros h Hh; apply Hlow; lia]. apply stores_cons; [|done].
    rewrite Hlow by lia. rewrite <-(Z.add_0_r current). apply (Hst 0%nat).
  - apply expect_bind_ok in Hrun as (_ & _ & Hrun).
    apply expect_bind_ok in Hrun as (d1 & Hd1 & [= <- <- <-]).
    change (BlockInfo current o :: infos (current + 1) old) with (infos current (o :: old)) in Hd1.
    unfold append_block_hashes. rewrite append_block_hashes_loop_eq by (cbn [length]; lia).
    cbn [app]. split.
    + apply stores_append. intros i. rewrite (hash_at_rollback_chain _ _ _ _ _ Hd1 Hst).
      by destruct (decide _); [|lia].
    + intros h Hh. rewrite hash_at_append_lt by done.
      rewrite (hash_at_rollback_chain _ _ _ _ _ Hd1 Hst). by destruct (decide _); [lia|].
Qed.

Lemma sync_chain_stores height hashes regtest d d' old :
  sync_chain height hashes regtest d = Ok d' → stores d height old →
  0 <= height → height + Z.of_nat (length hashes) < 2 ^ 64 →
  stores d' height (merge_chain old hashes) ∧
  ∀ h, h < height → hash_at d' h = hash_at d h.
Proof.
  unfold sync_chain. destruct hashes as [|first chain]; [done|]. intros Hrun Hst Hh Hlt.
  apply expect_bind_ok in Hrun as (hash & Hhash & Hrun).
  apply expect_bind_ok in Hrun as ([] & Heq%guard_err_ok%Z.eqb_eq & Hrun). subst hash.
  apply expect_bind_ok in Hrun as ([[current rest] d1] & Hloop & [= <-]).
  apply do_get_block_hash_ok in Hhash. pose proof (Hst 0%nat) as H0.
  rewrite Z.add_0_r, Hhash in H0. destruct old as [|o old]; [done|]. injection H0 as <-.
  rewrite (seek_stored _ _ _ _ Hst) in Hloop. cbn [infos tail length] in *.
  rewrite Nat2Z.inj_succ in Hlt. rewrite wrap_small in Hloop by lia.
  apply sync_chain_loop_spec in Hloop as [Hs Hlow]; [|by eapply stores_tail|lia|lia].
  cbn [merge_chain]. rewrite Z.eqb_refl. split; [|intros h ?; apply Hlow; lia].
  apply stores_cons; [|done]. by rewrite Hlow by lia.
Qed.

(** C4: a successful [sync_chain] leaves exactly the merge of the stored chain
    and the daemon's answer from the first answered block on, and every block
    below as it was. *)
Theorem sync_chain_merges height hashes regtest d d' old :
  sync_chain height hashes regtest d = Ok d' → stores d height old →
  0 <= height → height + Z.of_nat (length hashes) < 2 ^ 64 →
  stores d' height (merge_chain old hashes) ∧
  ∀ h, h < height → hash_at d' h = hash_at d h.
Proof. apply sync_chain_stores. Qed.

Lemma sync_chain_loop_checkpoint current old new d r :
  sync_chain_loop false (infos current old) current new d = Ok r →
  0 <= current → current + Z.of_nat (length new) < 2 ^ 64 →
  ∀ (i : nat) x, old !! i = Some x → current + Z.of_nat i <= get_max_height →
  merge_chain old new !! i = Some x.
Proof.
  revert current old d. induction new as [|n new IH]; intros current old d Hrun Hc Hlt i x Hi Hmax;
    [by destruct old|]. destruct old as [|o old]; [done|]. cbn [length] in Hlt.
  rewrite Nat2Z.inj_succ in Hlt. simpl in Hrun. cbn [merge_chain]. destruct (Z.eqb_spec o n) as [->|Hne].
  - destruct i as [|i]; [done|]. simpl in Hi |- *. rewrite wrap_small in Hrun by lia.
    eapply (IH (current + 1)); [exact Hrun|lia|lia|exact Hi|lia].
  - apply expect_bind_ok in Hrun as (_ & Hg%guard_err_ok & _).
    apply negb_true_iff, Z.leb_gt in Hg. lia.
Qed.

(** Outside regtest a chain update never replaces or removes a stored block
    at or below the last checkpoint. *)
Theorem sync_chain_keeps_checkpointed height hashes d d' old h hash :
  sync_chain height hashes false d = Ok d' → stores d height old →
  0 <= height → height + Z.of_nat (length hashes) < 2 ^ 64 →
  h <= get_max_height → hash_at d h = Some hash → hash_at d' h = Some hash.
Proof.
  intros Hrun Hst Hh Hlt Hmax Hhash.
  destruct (sync_chain_stores _ _ _ _ _ _ Hrun Hst Hh Hlt) as [Hst' Hlow].
  destruct (decide (h < height)); [by rewrite Hlow|].
  pose proof (Hst (Z.to_nat (h - height))) as Ho. pose proof (Hst' (Z.to_nat (h - height))) as Ho'.
  replace (height + _) with h in Ho, Ho' by lia. rewrite Ho'. rewrite Hhash in Ho. symmetry in Ho.
  unfold sync_chain in Hrun. destruct hashes as [|first chain]; [done|].
  apply expect_bind_ok in Hrun as (hash0 & Hhash0 & Hrun).
  apply expect_bind_ok in Hrun as ([] & Heq%guard_err_ok%Z.eqb_eq & Hrun). subst hash0.
  apply expect_bind_ok in Hrun as (r & Hloop & _).
  apply do_get_block_hash_ok in Hhash0. pose proof (Hst 0%nat) as H0.
  rewrite Z.add_0_r, Hhash0 in H0. destruct old as [|o old]; [done|]. injection H0 as <-.
  rewrite (seek_stored _ _ _ _ Hst) in Hloop. cbn [infos tail length merge_chain] in *.
  rewrite Nat2Z.inj_succ in Hlt. rewrite wrap_small in Hloop by lia. rewrite Z.eqb_refl.
  destruct (Z.to_nat (h - height)) as [|i] eqn:Ei; [done|]. simpl in Ho |- *.
  eapply sync_chain_loop_checkpoint; [exact Hloop|lia|lia|exact Ho|lia].
Qed.

(** *** The summary sent to the daemon *)

Definition decreasing (l : list block_info) : Prop := StronglySorted (λ a b, bi_id b < bi_id a) l.

#[local] Instance decreasing_trans : Transitive (λ a b : block_info, bi_id b < bi_id a).
Proof. intros x y z. lia. Qed.

Lemma back_id_last out b : last out = Some b → back_id out = bi_id b.
Proof. unfold back_id. by intros ->. Qed.

Definition stored_block (d : db L) (b : block_info) : Prop := hash_at d (bi_id b) = Some (bi_hash b).

(** The invariant of [get_blocks_tail]: blocks of the table, in strictly
    decreasing order, from [top] on. *)
Record tail_ok (d : db L) (top : block_info) (out : list block_info) : Prop := {
  to_head : head out = Some top;
  to_decreasing : decreasing out;
  to_stored : Forall (stored_block d) out
}.

Lemma tail_ok_add d top out id out' :
  tail_ok d top out → id < back_id out → add_block d out id = Ok out' →
  tail_ok d top out' ∧ back_id out' = id ∧ length out' = S (length out).
Proof.
  intros [Hh Hd Hs] Hid (hash & Hhash & [= <-])%expect_bind_ok.
  apply do_get_block_hash_ok in Hhash. destruct out as [|b out]; [done|].
  split_and!; [split|unfold back_id; by rewrite last_snoc|rewrite length_app; simpl; lia].
  - done.
  - destruct (last (b :: out)) as [y|] eqn:E; [|by apply last_None in E].
    apply (sorted_snoc _ _ _ y); [done|done|]. by rewrite (back_id_last _ _ E) in Hid.
  - apply Forall_app. split; [done|]. by repeat constructor.
Qed.

Lemma last_blocks_spec d n b value out done' :
  last_blocks (S n) (b :: value) = (out, done') →
  decreasing (b :: value) → Forall (stored_block d) (b :: value) →
  tail_ok d b out ∧ (length out <= S n)%nat ∧ back_id out ∈ bi_id <$> (b :: value) ∧
  (∀ x, x ∈ out → x ∈ b :: value).
Proof.
  revert b value out. induction n as [|n IH]; intros b value out; intros Hl Hd Hs;
    destruct value as [|c value]; cbn [last_blocks] in Hl.
  1,2,3: injection Hl as <- <-; unfold back_id; simpl; split_and!; [split|lia|by left|set_solver];
    [done|by repeat constructor|apply Forall_cons in Hs as [? _]; by repeat constructor].
  destruct (last_blocks (S n) (c :: value)) as [out1 done1] eqn:E. cbn [last_blocks] in E.
  rewrite E in Hl. injection Hl as <- <-.
  apply StronglySorted_inv in Hd as [Hd Hb]. apply Forall_cons in Hs as [Hsb Hs].
  destruct (IH c value out1 E Hd Hs) as ([Hh1 Hd1 Hs1] & Hlen & Hback & Hin).
  split_and!; [split| | |].
  - done.
  - constructor; [done|]. apply Forall_forall. intros x Hx%Hin. rewrite Forall_forall in Hb. by apply Hb.
  - by constructor.
  - simpl. lia.
  - destruct out1 as [|y out1]; [done|]. right. exact Hback.
  - intros x [->|Hx]%elem_of_cons; [by left|right; by apply Hin].
Qed.

Lemma block_offset_small i : 1 <= i < 30 → block_offset i = 2 ^ (i + 1).
Proof.
  intros Hi. unfold block_offset. rewrite Z.shiftl_mul_pow2 by lia.
  rewrite <-(Z.pow_succ_r 2 i) by lia. unfold Z.succ.
  assert (2 ^ (i + 1) < 2 ^ 31) by (apply Z.pow_lt_mono_r; lia).
  rewrite wrap_small by (split; [apply Z.pow_nonneg|]; lia).
  by rewrite (proj2 (Z.ltb_lt _ _)).
Qed.

(** While [i] grows the distance doubles, so every block added is below the
    last; the loop ends before [2 << i] leaves the range of [int]. *)
Lemma internal_blocks_spec d top n i anchor out out' :
  internal_blocks d n i anchor out = Ok out' → tail_ok d top out →
  1 <= i <= 30 → 0 <= anchor < 2 ^ 31 → anchor - 2 ^ (i + 1) < back_id out →
  0 <= back_id out <= anchor →
  tail_ok d top out' ∧ (length out' <= length out + n)%nat ∧ 0 <= back_id out' <= anchor.
Proof.
  revert i out. induction n as [|n IH]; intros i out Hrun Hok Hi Ha Hb Hb0; cbn [internal_blocks] in Hrun.
  { injection Hrun as <-. split_and!; [done|lia|lia|lia]. }
  destruct (_ || _) eqn:E; [injection Hrun as <-; split_and!; [done|lia|lia|lia]|].
  apply orb_false_iff in E as [E _]. apply Z.ltb_ge in E.
  assert (i < 30) as Hi'.
  { destruct (decide (i = 30)) as [->|]; [|lia]. vm_compute (block_offset 30) in E. lia. }
  rewrite block_offset_small in E, Hrun by lia.
  apply expect_bind_ok in Hrun as (out1 & H1 & Hrun).
  destruct (tail_ok_add _ _ _ _ _ Hok Hb H1) as (Hok1 & Hback & Hlen).
  assert (0 < 2 ^ (i + 1)) by (apply Z.pow_pos_nonneg; lia).
  assert (2 ^ (i + 1 + 1) = 2 * 2 ^ (i + 1)) by (rewrite <-Z.pow_succ_r by lia; f_equal; lia).
  apply IH in Hrun; [|done|lia|lia|rewrite Hback; lia|rewrite Hback; lia].
  rewrite Hlen in Hrun. destruct Hrun as (? & ? & ?). split_and!; [done|lia|lia|lia].
Qed.

Lemma get_blocks_tail_spec d top value n out :
  get_blocks_tail d (top :: value) n = Ok out →
  decreasing (top :: value) → Forall (stored_block d) (top :: value) →
  Forall (λ b, 0 <= bi_id b < 2 ^ 31) (top :: value) →
  tail_ok d top out ∧ back_id out = 0 ∧ (length out <= 12 + n)%nat.
Proof.
  unfold get_blocks_tail. intros Hrun Hd Hs Hr.
  destruct (last_blocks 10 (top :: value)) as [out0 done0] eqn:E.
  destruct (last_blocks_spec d 9 top value out0 done0 E Hd Hs) as (Hok & Hlen & Hback & Hin).
  destruct done0.
  { apply expect_bind_ok in Hrun as (_ & Hg%guard_err_ok%Z.eqb_eq & [= <-]).
    split_and!; [done|done|lia]. }
  assert (0 <= back_id out0 < 2 ^ 31) as Hb.
  { apply list_elem_of_fmap in Hback as (b & -> & Hb). rewrite Forall_forall in Hr. by apply Hr. }
  apply expect_bind_ok in Hrun as (out1 & H1 & Hrun).
  apply (internal_blocks_spec d top) in H1 as (Hok1 & Hlen1 & Hb1); [|done|lia|lia|lia|lia].
  apply expect_bind_ok in Hrun as (out2 & H2 & Hrun).
  assert (tail_ok d top out2 ∧ (length out2 <= 11 + n)%nat ∧ 0 <= back_id out2) as (Hok2 & Hlen2 & Hb2).
  { destruct (Z.ltb_spec get_max_height (back_id out1)) as [Hlt|Hge].
    - destruct (tail_ok_add _ _ _ _ _ Hok1 Hlt H2) as (? & Hb2 & ?). rewrite Hb2.
      split_and!; [done|lia|apply max_height_nonneg].
    - injection H2 as <-. split_and!; [done|lia|lia]. }
  destruct (Z.eqb_spec (back_id out2) 0) as [H0|Hne]; [injection Hrun as <-; split_and!; [done|done|lia]|].
  assert (0 < back_id out2) as Hpos by lia.
  destruct (tail_ok_add _ _ _ _ _ Hok2 Hpos Hrun) as (? & ? & ?). split_and!; [done|done|lia].
Qed.

(** The summary of the chain starts at the last stored block, goes down
    strictly, ends at the genesis block, holds only stored blocks and at most
    76 of them, when the stored heights are below 2^31. *)
Theorem get_blocks_spec d n out :
  get_blocks d n = Ok out →
  (∀ b, b ∈ dups blocks blocks_version d → 0 <= bi_id b < 2 ^ 31) →
  head out = last (dups blocks blocks_version d) ∧ decreasing out ∧
  Forall (stored_block d) out ∧ back_id out = 0 ∧ (length out <= 76)%nat.
Proof.
  unfold get_blocks. intros Hrun Hr. destruct (rev _) as [|top value] eqn:E; [done|].
  assert (∀ b, b ∈ top :: value ↔ b ∈ dups blocks blocks_version d) as Hin.
  { intros b. rewrite <-E. apply elem_of_rev. }
  apply (get_blocks_tail_spec d top value) in Hrun as ([Hh Hd Hs] & H0 & Hlen).
  - split_and!; [|done|done|done|lia]. rewrite Hh.
    assert (dups blocks blocks_version d = rev value ++ [top]) as ->; [|by rewrite last_snoc].
    rewrite <-(rev_involutive (dups _ _ _)), E. done.
  - pose proof (sorted_rev _ _ (dups_sorted blocks blocks_version d)) as Hsort.
    rewrite E in Hsort. apply (sorted_impl _ _ _ Hsort). intros x y Hxy. by apply Z.compare_lt_iff.
  - apply Forall_forall. intros b Hb%Hin. unfold stored_block. apply hash_at_elem. by destruct b.
  - apply Forall_forall. intros b Hb%Hin. by apply Hr.
Qed.
End chain_theorems.

(** ** Witnesses, on the list implementation of the tables *)

#[local] Instance test_config : ChainConfig :=
  {| get_points := [(0, 100); (2, 102)]; get_max_height := 2;
     DIFFICULTY_BLOCKS_COUNT := 735; BLOCKCHAIN_TIMESTAMP_CHECK_WINDOW := 60 |}.
#[local] Instance test_config_laws : ChainConfigLaws test_config.
Proof.
  split; simpl; [|lia].
  intros h hash [[= -> ->]|[[= -> ->]|[]%elem_of_nil]%elem_of_cons]%elem_of_cons; lia.
Qed.

Definition test_output (height low : Z) : output :=
  {| o_link := TransactionLink height 7; o_spend_meta := SpendMeta (OutputId 0 low) 5 11 0 9;
     o_timestamp := 0; o_unlock_time := 0; o_tx_prefix_hash := 1; o_pub := 2; o_ringct_mask := 3;
     o_extra := 128; o_payment_id := replicate 32 0; o_fee := 1; o_recipient := AddressIndex 0 0 |}.

Definition test_outputs : db ListDb.lmdb :=
  put outputs 1 (test_output 9 1) (put outputs 1 (test_output 4 2) empty_db).

Lemma rollback_outputs_spec_witness :
  test_output 4 2 ∈ dups outputs 1 (rollback_outputs 1 5 test_outputs) ↔
    test_output 4 2 ∈ dups outputs 1 test_outputs ∧ (1 = 1 → 4 < 5).
Proof. exact (rollback_outputs_spec 1 5 test_outputs 1 (test_output 4 2)). Defined.

(** Blocks 0 to 4, with the checkpoint of [test_config] at height 2. *)
Definition chain_db : db ListDb.lmdb :=
  bulk_put blocks blocks_version (infos 0 [100; 101; 102; 103; 104]) empty_db.

Lemma chain_db_blocks :
  dups blocks blocks_version chain_db =
    [BlockInfo 0 100; BlockInfo 1 101; BlockInfo 2 102; BlockInfo 3 103; BlockInfo 4 104].
Proof. reflexivity. Qed.

Lemma chain_db_stores : stores chain_db 3 [103; 104].
Proof.
  intros n. destruct n as [|[|n]]; [reflexivity|reflexivity|]. simpl.
  destruct (hash_at chain_db _) as [hash|] eqn:E; [|done].
  apply hash_at_elem in E.
  rewrite chain_db_blocks in E.
  repeat (apply elem_of_cons in E as [E|E]; [apply (f_equal bi_id) in E; simpl in E; lia|]).
  by apply elem_of_nil in E.
Qed.

Lemma rollback_events_spec_witness :
  let event := WebhookEvent (WebhookOutput (TransactionLink 9 7) (OutputId 0 1)) (WebhookDupsort 4 1) in
  let d := put events_by_account_id 1 event chain_db in
  event ∈ dups events_by_account_id 1 (rollback_events 9 d) ↔
    event ∈ dups events_by_account_id 1 d ∧ 9 < 9.
Proof.
  intros event d. exact (rollback_events_spec 9 d 1 event).
Defined.

Definition forked_db : db ListDb.lmdb :=
  match sync_chain 3 [103; 204; 205] false chain_db with Ok d => d | Err _ => empty_db end.

Lemma forked_db_run : sync_chain 3 [103; 204; 205] false chain_db = Ok forked_db.
Proof. reflexivity. Qed.

Lemma sync_chain_merges_witness : stores forked_db 3 [103; 204; 205] ∧ hash_at forked_db 2 = Some 102.
Proof.
  destruct (sync_chain_merges 3 [103; 204; 205] false chain_db forked_db [103; 104]
    forked_db_run chain_db_stores) as [Hs Hlow]; [lia|simpl; lia|].
  split; [exact Hs|]. rewrite Hlow by lia. reflexivity.
Defined.

Lemma sync_chain_keeps_checkpointed_witness : hash_at forked_db 2 = Some 102.
Proof.
  apply (sync_chain_keeps_checkpointed 3 [103; 204; 205] chain_db forked_db [103; 104] 2 102
    forked_db_run chain_db_stores); [lia|simpl; lia|simpl; lia|reflexivity].
Defined.

Lemma get_blocks_spec_witness :
  ∃ out, get_blocks chain_db 64 = Ok out ∧ head out = Some (BlockInfo 4 104) ∧ back_id out = 0.
Proof.
  eexists. split; [reflexivity|].
  edestruct (get_blocks_spec chain_db 64) as (Hhead & _ & _ & H0 & _); [reflexivity| |].
  - rewrite chain_db_blocks.
    intros b Hb. repeat (apply elem_of_cons in Hb as [->|Hb]; [simpl; lia|]). by apply elem_of_nil in Hb.
  - split; [exact Hhead|exact H0].
Defined.
