(* ===== verification/Subaddress.v ===== *)
(** * Subaddresses of an account (src/src/db/storage.cpp, lines 827-833, 1273-1319, 2333-2611, 3495-3511)

    [subaddress_ranges] keeps, for every account and major index, the ranges of
    minor indexes the scanner looks for; [subaddress_indexes] maps the spend
    public key of each of them to its index.  [do_upsert] adds ranges to both;
    [do_lookahead] computes the ranges a lookahead asks for.  Both can fail
    after having written; callers that go on after [max_subaddresses] commit
    what was written, so these functions return the database also with an
    error. *)

From S2P Require Import Prelude Lmdb Data Compare Tables.

(** [add_and_clamp<std::uint32_t>] *)
Definition add_and_clamp (start count : Z) : Z :=
  if u32_max - count <? start then u32_max else start + count.

(** ** Merging ranges *)

(** What the loops of [do_upsert] accumulate for one major index: the number of
    subaddresses counted, the merged ranges, and the ranges reported as added. *)
Record upsert_state := UpsertState {
  us_count : Z;
  us_dict : list index_range;
  us_out : list subaddress_dict
}.

(** The lambda [add_out]. *)
Definition add_out (major : Z) (minor : index_range) (out : list subaddress_dict) :
    list subaddress_dict :=
  match last out with
  | Some (m, ranges) =>
      if m =? major then removelast out ++ [(m, ranges ++ [minor])] else out ++ [(major, [minor])]
  | None => [(major, [minor])]
  end.

(** The lambdas [check_max_range] and [check_max_ranges]. *)
Definition check_max_range (max_subaddr subaddr_count : Z) (range : index_range) : option Z :=
  let more := wrap 32 (range.2 - range.1) in
  if max_subaddr - subaddr_count <=? more then None else Some (subaddr_count + (more + 1)).

Fixpoint check_max_ranges (max_subaddr subaddr_count : Z) (ranges : list index_range) : option Z :=
  match ranges with
  | [] => Some subaddr_count
  | range :: ranges =>
      count ← check_max_range max_subaddr subaddr_count range;
      check_max_ranges max_subaddr count ranges
  end.

Section merge.
Context (major max_subaddr : Z).

Definition push_dict (r : index_range) (st : upsert_state) : upsert_state :=
  UpsertState (us_count st) (us_dict st ++ [r]) (us_out st).

(** [check_max_range] and [add_out] of a new range. *)
Definition take_new (r : index_range) (st : upsert_state) : option upsert_state :=
  count ← check_max_range max_subaddr (us_count st) r;
  Some (UpsertState count (us_dict st) (add_out major r (us_out st))).

(** The last loop: the remaining new ranges. *)
Fixpoint append_new (new : list index_range) (st : upsert_state) : option upsert_state :=
  match new with
  | [] => Some st
  | n :: new => st ← take_new n st; append_new new (push_dict n st)
  end.

(** The parts of a new range that overlaps an old one before and after it, and
    the old range extended by them. *)
Definition extend_range (o n : index_range) (st : upsert_state) : option (index_range * upsert_state) :=
  st ← (if n.1 <? o.1 then take_new (n.1, o.1 - 1) st else Some st);
  st ← (if o.2 <? n.2 then take_new (o.2 + 1, n.2) st else Some st);
  Some ((if n.1 <? o.1 then n.1 else o.1, if o.2 <? n.2 then n.2 else o.2), st).

(** The merge of the new ranges with the old ones; [None] is
    [error::max_subaddresses]. *)
Fixpoint merge_ranges (new : list index_range) :
    list index_range → upsert_state → option upsert_state :=
  match new with
  | [] => λ old st, Some (UpsertState (us_count st) (us_dict st ++ old) (us_out st))
  | n :: new' =>
      fix go (old : list index_range) (st : upsert_state) {struct old} : option upsert_state :=
        match old with
        | [] => append_new new st
        | o :: old' =>
            if n.2 + 1 <? o.1 then
              st ← take_new n st; merge_ranges new' old (push_dict n st)
            else if o.2 + 1 <? n.1 then go old' (push_dict o st)
            else if (o.1 <=? n.1) && (n.2 <=? o.2) then merge_ranges new' old st
            else
              '(o', st) ← extend_range o n st;
              merge_ranges new' (o' :: old') st
        end
  end.
End merge.

Section subaddress.
Context `{L : Lmdb} `{Crypto}.
Implicit Types d : db L.

(** ** Readers *)

Definition get_subaddresses (id : Z) (d : db L) : list subaddress_dict :=
  dups subaddress_ranges id d.

Definition find_subaddress (id address : Z) (d : db L) : expect address_index :=
  sm_index <$> of_option mdb_notfound (get_both subaddress_indexes id address d).

(** ** [do_upsert] *)

(** [boost::counting_range(first, last + 1)] *)
Definition minors (r : index_range) : list Z := seqZ r.1 (r.2 + 1 - r.1).

Definition index_entry (address : account_address) (view_key major minor : Z) : subaddress_map :=
  let index := AddressIndex major minor in
  SubaddressMap (get_spend_public index address view_key) index.

(** The loops that write [subaddress_indexes]; an index already there is kept. *)
Definition put_indexes (id : Z) (address : account_address) (view_key major : Z)
    (dict : list index_range) (d : db L) : db L :=
  foldl (λ d r,
    foldl (λ d minor,
      put_skip subaddress_indexes id d (index_entry address view_key major minor)) d (minors r))
    d dict.

Section do_upsert.
Context (id : Z) (address : account_address) (view_key max_subaddr : Z).

Definition write_major (major : Z) (dict : list index_range) (d : db L) : expect (db L) :=
  put_nodup subaddress_ranges id (major, dict) (put_indexes id address view_key major dict d).

(** One round of the loop over the major indexes. *)
Definition upsert_major (major_entry : subaddress_dict) (count : Z) (out : list subaddress_dict)
    (d : db L) : expect (Z * list subaddress_dict) * db L :=
  let major := major_entry.1 in
  if negb (check_subaddress_dict major_entry) then (Err (schema schema_array), d)
  else
    match get_both subaddress_ranges id major d with
    | None =>
        match check_max_ranges max_subaddr count major_entry.2 with
        | None => (Err max_subaddresses_, d)
        | Some count =>
            match write_major major major_entry.2 d with
            | Ok d' => (Ok (count, out ++ [major_entry]), d')
            | Err e => (Err e, d)
            end
        end
    | Some old_dict =>
        let d := del subaddress_ranges id major d in
        match merge_ranges major max_subaddr major_entry.2 old_dict.2 (UpsertState count [] out) with
        | None => (Err max_subaddresses_, d)
        | Some st =>
            match write_major major (us_dict st) d with
            | Ok d' => (Ok (us_count st, us_out st), d')
            | Err e => (Err e, d)
            end
        end
    end.

Fixpoint upsert_loop (subaddrs : list subaddress_dict) (count : Z) (out : list subaddress_dict)
    (d : db L) : expect (list subaddress_dict) * db L :=
  match subaddrs with
  | [] => (Ok out, d)
  | major_entry :: subaddrs =>
      match upsert_major major_entry count out d with
      | (Ok (count, out), d) => upsert_loop subaddrs count out d
      | (Err e, d) => (Err e, d)
      end
  end.

Definition do_upsert (subaddrs : list subaddress_dict) (d : db L) :
    expect (list subaddress_dict) * db L :=
  let subaddr_count := Z.of_nat (length (dups subaddress_indexes id d)) in
  if max_subaddr <? subaddr_count then (Err max_subaddresses_, d)
  else upsert_loop subaddrs subaddr_count [] d.
End do_upsert.

(** [storage::upsert_subaddresses]; [std::sort] puts the pairs of a major index
    and its ranges in lexicographic order. *)
Fixpoint ranges_leb (l r : list index_range) : bool :=
  match l, r with
  | [], _ => true
  | _, [] => false
  | (a, b) :: l', (a', b') :: r' =>
      if a <? a' then true else if a' <? a then false
      else if b <? b' then true else if b' <? b then false
      else ranges_leb l' r'
  end.

Definition dict_leb (l r : subaddress_dict) : bool :=
  if l.1 <? r.1 then true else if r.1 <? l.1 then false else ranges_leb l.2 r.2.

Definition upsert_subaddresses (id : Z) (address : account_address) (view_key : Z)
    (subaddrs : list subaddress_dict) (max_subaddr : Z) (d : db L) :
    expect (list subaddress_dict) * db L :=
  let subaddrs := merge_sort dict_leb subaddrs in
  try_write (λ d, match do_upsert id address view_key max_subaddr subaddrs d with
                  | (Ok out, d) => Ok (out, d)
                  | (Err e, _) => Err e
                  end) d.

(** ** [do_lookahead] *)

(** [initial]: for every major index, the last minor index wanted, if any is
    recorded ([index_ranges] is empty or holds one range from 0). *)
Definition resize (n : nat) (l : list (option Z)) : list (option Z) :=
  l ++ replicate (n - length l) None.

(** The loop over the received outputs.  [mdb_cursor_get(..., MDB_NEXT_DUP)] is
    inside the condition on the recipient, so at an output of the primary
    address the loop stays where it is; [fuel] bounds its rounds. *)
Fixpoint received_loop (fuel : nat) (major minor max_subaddresses : Z) (outs : list output)
    (initial : list (option Z)) : expect (list (option Z)) :=
  match fuel, outs with
  | _, [] => Ok initial
  | O, _ => Err out_of_fuel
  | S fuel, o :: outs' =>
      let recipient := o_recipient o in
      if negb (is_zero recipient) then
        let index := maj_i recipient in
        let needed := add_and_clamp index major in
        let this_minor := add_and_clamp (minor - 1) (min_i recipient) in
        _ ← guard_err (negb (negb (minor =? 0) && (u32_max <? needed / minor))) max_subaddresses_;
        _ ← guard_err (negb (max_subaddresses <? wrap 32 (needed * minor))) max_subaddresses_;
        let initial := resize (Z.to_nat needed) initial in
        elem ← of_option logic_error (initial !! Z.to_nat index);
        let elem := match elem with
                    | Some current => Z.max current this_minor
                    | None => this_minor
                    end in
        received_loop fuel major minor max_subaddresses outs'
          (<[Z.to_nat index := Some elem]> initial)
      else received_loop fuel major minor max_subaddresses outs initial
  end.

(** The loop that fills the gaps with the default range; [i] is the major
    index. *)
Fixpoint fill_gaps (i minor max_subaddresses total_subs : Z) (initial : list (option Z)) :
    expect (list subaddress_dict) :=
  match initial with
  | [] => Ok []
  | elem :: initial =>
      let '(last, this_minor) :=
        match elem with Some last => (last, last) | None => (minor - 1, minor) end in
      _ ← guard_err (negb (max_subaddresses - total_subs <? this_minor)) max_subaddresses_;
      rest ← fill_gaps (i + 1) minor max_subaddresses (total_subs + this_minor) initial;
      Ok ((i, [(0, last)]) :: rest)
  end.

Definition lookahead_ranges (fuel : nat) (outs : list output) (lookahead : address_index)
    (max_subaddresses : Z) : expect (list subaddress_dict) :=
  let major := maj_i lookahead in
  let minor := min_i lookahead in
  _ ← guard_err (negb (u32_max <? major / minor)) max_subaddresses_;
  _ ← guard_err (negb (max_subaddresses <? wrap 32 (major * minor))) max_subaddresses_;
  initial ← received_loop fuel major minor max_subaddresses outs
    (replicate (Z.to_nat major) None);
  fill_gaps 0 minor max_subaddresses 0 initial.

Definition do_lookahead (fuel : nat) (id : Z) (address : account_address) (view_key : Z)
    (lookahead : address_index) (max_subaddresses : Z) (d : db L) : expect unit * db L :=
  if (maj_i lookahead =? 0) || (min_i lookahead =? 0) then (Ok tt, d)
  else
    match lookahead_ranges fuel (dups outputs id d) lookahead max_subaddresses with
    | Err e => (Err e, d)
    | Ok initial =>
        match do_upsert id address view_key max_subaddresses initial d with
        | (Ok _, d) => (Ok tt, d)
        | (Err e, d) => (Err e, d)
        end
    end.

Definition with_lookahead (lookahead : address_index) (fail : Z) (a : account) : account :=
  {| acc_id := acc_id a; acc_access := acc_access a; acc_address := acc_address a;
     acc_key := acc_key a; acc_scan_height := acc_scan_height a;
     acc_start_height := acc_start_height a; acc_creation := acc_creation a;
     acc_flags := acc_flags a; acc_lookahead := lookahead; acc_lookahead_fail := fail |}.

(** The overload that records the outcome in the account; running into the
    maximum is not an error. *)
Definition do_lookahead_user (fuel : nat) (user : account) (lookahead : address_index)
    (max_subaddresses : Z) (d : db L) : expect (account * db L) :=
  match do_lookahead fuel (acc_id user) (acc_address user) (acc_key user) lookahead
          max_subaddresses d with
  | (Ok _, d) => Ok (with_lookahead lookahead (acc_lookahead_fail user) user, d)
  | (Err e, d) =>
      if decide (e = max_subaddresses_) then
        Ok (with_lookahead lookahead (Z.max 1 (acc_start_height user)) user, d)
      else Err e
  end.

(** The ranges [update_lookahead] asks for. *)
Definition match_ranges (lookahead matched : address_index) : list subaddress_dict :=
  let fresh := maj_i matched in
  let stop := add_and_clamp fresh (maj_i lookahead) in
  map (λ i,
    let last := if i =? fresh then add_and_clamp (min_i matched) (min_i lookahead - 1)
                else min_i lookahead - 1 in
    (i, [(0, last)])) (seqZ 0 stop).
End subaddress.

(** ** Theorems on the merge *)

(** The minor indexes a list of ranges covers. *)
Definition covered (x : Z) (l : list index_range) : Prop := ∃ r, r ∈ l ∧ r.1 <= x <= r.2.

Lemma covered_nil x : covered x [] ↔ False.
Proof. split; [|done]. by intros (r & ?%elem_of_nil & _). Qed.

Lemma covered_cons x r l : covered x (r :: l) ↔ r.1 <= x <= r.2 ∨ covered x l.
Proof.
  unfold covered. setoid_rewrite elem_of_cons. split.
  - intros (s & [->|Hs] & Hx); [by left|right; eauto].
  - intros [Hx|(s & Hs & Hx)]; eauto.
Qed.

Lemma covered_app x l1 l2 : covered x (l1 ++ l2) ↔ covered x l1 ∨ covered x l2.
Proof.
  unfold covered. setoid_rewrite elem_of_app. split.
  - intros (s & [?|?] & Hx); [left|right]; eauto.
  - intros [(s & Hs & Hx)|(s & Hs & Hx)]; eauto.
Qed.

Lemma take_new_dict major max n st st' : take_new major max n st = Some st' → us_dict st' = us_dict st.
Proof. unfold take_new. destruct (check_max_range _ _ _); [|done]. by intros [= <-]. Qed.

Lemma append_new_dict major max new st st' :
  append_new major max new st = Some st' → us_dict st' = us_dict st ++ new.
Proof.
  revert st. induction new as [|n new IH]; intros st; simpl; [intros [= ->]; by rewrite app_nil_r|].
  destruct (take_new _ _ _ _) as [st1|] eqn:E; simpl; [|done]. intros ->%IH. simpl.
  by rewrite (take_new_dict _ _ _ _ _ E), <-(assoc (++)).
Qed.

Lemma extend_range_spec major max o n st o' st' :
  extend_range major max o n st = Some (o', st') →
  us_dict st' = us_dict st ∧ o'.1 = Z.min o.1 n.1 ∧ o'.2 = Z.max o.2 n.2.
Proof.
  unfold extend_range. destruct (Z.ltb_spec n.1 o.1), (Z.ltb_spec o.2 n.2); simpl; intros Hrun;
    repeat match type of Hrun with
    | context [take_new ?a ?b ?c ?d] =>
        let E := fresh "E" in destruct (take_new a b c d) eqn:E; simpl in Hrun; [|done];
        apply take_new_dict in E
    end; injection Hrun as <- <-; simpl; split_and!; try lia; congruence.
Qed.

Lemma merge_ranges_elem major max new old st st' x :
  Forall (λ r, r.1 <= r.2) new → Forall (λ r, r.1 <= r.2) old →
  merge_ranges major max new old st = Some st' →
  covered x (us_dict st') ↔ covered x (us_dict st) ∨ covered x old ∨ covered x new.
Proof.
  intros Hnew. revert old st. induction Hnew as [|n new Hn Hnew IH]; intros old st Hold Hrun.
  { injection Hrun as <-. simpl. rewrite covered_app, covered_nil. tauto. }
  revert st Hrun. induction Hold as [|o old Ho Hold IHo]; intros st Hrun.
  { rewrite covered_nil. change (append_new major max (n :: new) st = Some st') in Hrun.
    apply append_new_dict in Hrun. rewrite Hrun, covered_app. tauto. }
  cbn [merge_ranges] in Hrun.
  destruct (Z.ltb_spec (n.2 + 1) o.1) as [Hlt|Hge].
  { destruct (take_new _ _ _ _) as [st1|] eqn:E; [|done]. simpl in Hrun.
    apply IH in Hrun; [|by constructor]. rewrite Hrun. simpl.
    rewrite (take_new_dict _ _ _ _ _ E), covered_app, !covered_cons, covered_nil. tauto. }
  destruct (Z.ltb_spec (o.2 + 1) n.1) as [Hlt|Hge'].
  { apply IHo in Hrun. rewrite Hrun. simpl. rewrite covered_app, !covered_cons, covered_nil. tauto. }
  destruct ((o.1 <=? n.1) && (n.2 <=? o.2)) eqn:Hin.
  { to_prop. apply IH in Hrun; [|by constructor]. rewrite Hrun, !covered_cons. intuition lia. }
  destruct (extend_range _ _ _ _ _) as [[o' st1]|] eqn:E; [|done]. simpl in Hrun.
  apply extend_range_spec in E as (Hd & H1 & H2).
  apply IH in Hrun; [|constructor; [lia|done]]. rewrite Hrun, Hd, !covered_cons, H1, H2.
  intuition lia.
Qed.

(** The merged ranges cover exactly the minor indexes the old and the new
    ranges cover. *)
Theorem merge_ranges_covers major max new old st st' x :
  Forall (λ r, r.1 <= r.2) new → Forall (λ r, r.1 <= r.2) old →
  merge_ranges major max new old st = Some st' →
  covered x (us_dict st') ↔ covered x (us_dict st) ∨ covered x old ∨ covered x new.
Proof. apply merge_ranges_elem. Qed.

Lemma merge_ranges_valid major max new old st st' :
  Forall (λ r, r.1 <= r.2) new → Forall (λ r, r.1 <= r.2) old →
  Forall (λ r, r.1 <= r.2) (us_dict st) →
  merge_ranges major max new old st = Some st' → Forall (λ r, r.1 <= r.2) (us_dict st').
Proof.
  intros Hnew. revert old st. induction Hnew as [|n new Hn Hnew IH]; intros old st Hold Hst Hrun.
  { injection Hrun as <-. by apply Forall_app. }
  revert st Hst Hrun. induction Hold as [|o old Ho Hold IHo]; intros st Hst Hrun.
  { change (append_new major max (n :: new) st = Some st') in Hrun.
    apply append_new_dict in Hrun. rewrite Hrun. apply Forall_app. auto. }
  cbn [merge_ranges] in Hrun. destruct (n.2 + 1 <? o.1).
  { destruct (take_new _ _ _ _) as [st1|] eqn:E; [|done]. apply take_new_dict in E.
    eapply IH; [|  |exact Hrun]; [by constructor|]. simpl. rewrite E. apply Forall_app. auto. }
  destruct (o.2 + 1 <? n.1); [eapply IHo; [|exact Hrun]; apply Forall_app; auto|].
  destruct (_ && _); [eapply IH; [| |exact Hrun]; auto|].
  destruct (extend_range _ _ _ _ _) as [[o' st1]|] eqn:E; [|done].
  apply extend_range_spec in E as (Hd & H1 & H2).
  eapply IH; [| |exact Hrun]; [constructor; [lia|done]|by rewrite Hd].
Qed.

(** Ranges that overlap or are adjacent. *)
Definition touching (r s : index_range) : Prop := r.1 <= s.2 + 1 ∧ s.1 <= r.2 + 1.

Lemma ranges_ok_cons r l :
  ranges_ok (r :: l) ↔ r.1 <= r.2 ∧ (∀ s, s ∈ l → r.2 + 1 < s.1) ∧ ranges_ok l.
Proof.
  unfold ranges_ok. rewrite Forall_cons. split.
  - intros [[? ?] [? Hr]%StronglySorted_inv]. rewrite Forall_forall in Hr. done.
  - intros (? & Hr & ? & ?). split; [done|]. constructor; [done|]. by apply Forall_forall.
Qed.

Lemma ranges_ok_app l1 l2 :
  ranges_ok (l1 ++ l2) ↔
    ranges_ok l1 ∧ ranges_ok l2 ∧ (∀ r s, r ∈ l1 → s ∈ l2 → r.2 + 1 < s.1).
Proof. unfold ranges_ok. rewrite Forall_app, StronglySorted_app. naive_solver. Qed.

Lemma ranges_ok_snoc l r :
  ranges_ok l → r.1 <= r.2 → (∀ x, x ∈ l → x.2 + 1 < r.1) → ranges_ok (l ++ [r]).
Proof.
  intros Hl Hr Hx. apply ranges_ok_app. split_and!; [done|by repeat constructor|].
  intros x s Hin ->%list_elem_of_singleton. auto.
Qed.

Lemma ranges_ok_elem l r : ranges_ok l → r ∈ l → r.1 <= r.2.
Proof. intros [HF _] Hr. rewrite Forall_forall in HF. by apply HF. Qed.

(** Extending the only old range the new one touches keeps the old ones apart. *)
Lemma extended_ranges_ok n o o' old :
  ranges_ok (o :: old) → n.1 <= n.2 → touching n o →
  o'.1 = Z.min o.1 n.1 → o'.2 = Z.max o.2 n.2 →
  (∀ s, s ∈ old → touching n s → o = s) → ranges_ok (o' :: old).
Proof.
  intros (Ho & Hoo & Hold)%ranges_ok_cons Hn Hto H1 H2 Hone. apply ranges_ok_cons.
  split_and!; [lia| |done]. intros s Hs. specialize (Hoo s Hs). pose proof (ranges_ok_elem _ _ Hold Hs).
  assert (¬ touching n s) as Hns by (intros Hts; specialize (Hone s Hs Hts) as ->; lia).
  unfold touching in *. lia.
Qed.

(** As long as no new range touches two stored ones, the merged ranges
    satisfy the condition [check_subaddress_dict] tests. *)
Theorem merge_ranges_ok major max new old st st' :
  ranges_ok new → ranges_ok old → ranges_ok (us_dict st) →
  (∀ r s, r ∈ us_dict st → s ∈ old ∨ s ∈ new → r.2 + 1 < s.1) →
  (∀ n o1 o2, n ∈ new → o1 ∈ old → o2 ∈ old → touching n o1 → touching n o2 → o1 = o2) →
  merge_ranges major max new old st = Some st' → ranges_ok (us_dict st').
Proof.
  revert old st. induction new as [|n new IH]; intros old st Hnew Hold Hst Hlow Hone Hrun.
  { injection Hrun as <-. simpl. apply ranges_ok_app. split_and!; [done|done|]. auto. }
  pose proof Hnew as Hnew0. apply ranges_ok_cons in Hnew as (Hn & Hnn & Hnew).
  revert st Hst Hlow Hrun. induction old as [|o old IHo]; intros st Hst Hlow Hrun.
  { change (append_new major max (n :: new) st = Some st') in Hrun.
    apply append_new_dict in Hrun. rewrite Hrun. apply ranges_ok_app. split_and!; [done|done|]. auto. }
  pose proof Hold as Hold0. apply ranges_ok_cons in Hold as (Ho & Hoo & Hold).
  cbn [merge_ranges] in Hrun. setoid_rewrite elem_of_cons in Hlow. setoid_rewrite elem_of_cons in Hone.
  destruct (Z.ltb_spec (n.2 + 1) o.1) as [Hlt|Hge].
  { destruct (take_new _ _ _ _) as [st1|] eqn:E; [|done]. simpl in Hrun.
    apply take_new_dict in E. eapply IH; [done|exact Hold0| | |set_solver|exact Hrun]; simpl; rewrite E.
    - apply ranges_ok_snoc; auto.
    - intros r s [Hr| ->%list_elem_of_singleton]%elem_of_app Hs; [set_solver|].
      destruct Hs as [[->|Hs]%elem_of_cons|Hs]; [done| |auto]. specialize (Hoo s Hs). lia. }
  destruct (Z.ltb_spec (o.2 + 1) n.1) as [Hlt|Hge'].
  { eapply (IHo Hold); [set_solver| | |exact Hrun]; simpl.
    - apply ranges_ok_snoc; auto.
    - intros r s [Hr| ->%list_elem_of_singleton]%elem_of_app Hs; [set_solver|].
      destruct Hs as [Hs|[->|Hs]%elem_of_cons]; [auto|done|]. specialize (Hnn s Hs). lia. }
  destruct ((o.1 <=? n.1) && (n.2 <=? o.2)) eqn:Hin.
  { eapply IH; [done|exact Hold0|exact Hst| | |exact Hrun]; set_solver. }
  destruct (extend_range _ _ _ _ _) as [[o' st1]|] eqn:E; [|done]. simpl in Hrun.
  apply extend_range_spec in E as (Hd & H1 & H2). assert (touching n o) as Hto by (unfold touching; lia).
  eapply IH; [done| |by rewrite Hd| | |exact Hrun].
  - apply (extended_ranges_ok n o); try done. intros s Hs Hts. by eapply Hone; eauto.
  - intros r s Hr Hs. rewrite Hd in Hr. rewrite elem_of_cons in Hs. destruct Hs as [[->|Hs]|Hs]; [|auto|auto].
    assert (r.2 + 1 < o.1) by auto. assert (r.2 + 1 < n.1) by auto. lia.
  - intros n' o1 o2 Hn' Ho1 Ho2 Ht1 Ht2. pose proof (ranges_ok_elem _ _ Hnew Hn'). specialize (Hnn n' Hn').
    assert (touching n' o' → touching n' o) as Hto' by (unfold touching in *; lia).
    assert (∀ s, s ∈ old → touching n' o' → touching n' s → False) as Hno.
    { intros s Hs Ht Hts. assert (o = s) as -> by (eapply Hone; eauto). specialize (Hoo _ Hs). lia. }
    apply elem_of_cons in Ho1 as [->|Ho1]; apply elem_of_cons in Ho2 as [->|Ho2];
      [done|by destruct (Hno o2)|by destruct (Hno o1)|eapply Hone; eauto].
Qed.

(** ** Theorems on [do_upsert] *)

Section upsert_theorems.
Context `{LL : LmdbLaws} `{Crypto}.
Implicit Types d : db L.
Context (id : Z) (address : account_address) (view_key : Z).

(** Every entry of the index table is filed under its own public key. *)
Definition indexes_ok (d : db L) : Prop :=
  ∀ e, e ∈ dups subaddress_indexes id d →
    sm_subaddress e = get_spend_public (sm_index e) address view_key.

(** The scanner recognises the subaddress. *)
Definition recognised (d : db L) (major minor : Z) : Prop :=
  ∃ e, e ∈ dups subaddress_indexes id d ∧
    sm_subaddress e = get_spend_public (AddressIndex major minor) address view_key.

Definition ranges_valid (d : db L) : Prop :=
  ∀ old, old ∈ dups subaddress_ranges id d → Forall (λ r, r.1 <= r.2) old.2.

Lemma put_indexes_keeps major dict d e :
  e ∈ dups subaddress_indexes id d →
  e ∈ dups subaddress_indexes id (put_indexes id address view_key major dict d).
Proof.
  intros He. unfold put_indexes. revert d He. induction dict as [|r dict IH]; intros d He; simpl; [done|].
  apply IH. clear IH. revert d He. induction (minors r) as [|m ms IH]; intros d He; simpl; [done|].
  apply IH, (elem_of_put_skip subaddress_indexes). by left.
Qed.

Lemma put_minors_ok major ms d :
  indexes_ok d →
  indexes_ok (foldl (λ d m, put_skip subaddress_indexes id d (index_entry address view_key major m)) d ms) ∧
  ∀ m, m ∈ ms →
    recognised (foldl (λ d m, put_skip subaddress_indexes id d (index_entry address view_key major m)) d ms)
      major m.
Proof.
  revert d. induction ms as [|m ms IH]; intros d Hd; cbn [foldl].
  { split; [done|]. by intros m ?%elem_of_nil. }
  assert (indexes_ok (put_skip subaddress_indexes id d (index_entry address view_key major m))) as Hd1.
  { intros e [He|(_ & -> & _)]%(elem_of_put_skip subaddress_indexes); [by apply Hd|done]. }
  destruct (IH _ Hd1) as [Hok Hrec]. split; [done|]. intros m' [->|Hm]%elem_of_cons; [|by apply Hrec].
  destruct (put_skip_present subaddress_indexes id d (index_entry address view_key major m)) as (e & He & Hk).
  exists e. split; [|exact Hk].
  clear -He LL. revert He. generalize (put_skip subaddress_indexes id d (index_entry address view_key major m)).
  induction ms as [|m1 ms IH]; intros d1 He; cbn [foldl]; [done|]. apply IH.
  apply (elem_of_put_skip subaddress_indexes). by left.
Qed.

Lemma recognised_keeps d d' major minor :
  (∀ e, e ∈ dups subaddress_indexes id d → e ∈ dups subaddress_indexes id d') →
  recognised d major minor → recognised d' major minor.
Proof. intros Hk (e & He & Heq). exists e. auto. Qed.

Lemma put_indexes_ok major dict d :
  indexes_ok d →
  indexes_ok (put_indexes id address view_key major dict d) ∧
  ∀ m, covered m dict → recognised (put_indexes id address view_key major dict d) major m.
Proof.
  revert d. induction dict as [|r dict IH]; intros d Hd; [split; [done|]; by intros m ?%covered_nil|].
  destruct (put_minors_ok major (minors r) d Hd) as [Hd1 Hrec1].
  destruct (IH _ Hd1) as [Hd2 Hrec2]. split; [exact Hd2|]. intros m [Hm|Hm]%covered_cons; [|by apply Hrec2].
  eapply recognised_keeps; [|apply (Hrec1 m)].
  - intros e He. by apply (put_indexes_keeps major dict).
  - apply elem_of_seqZ. lia.
Qed.

(** What an upsert keeps: entries, and the association of keys with indexes. *)
Record upsert_keeps (d d' : db L) : Prop := {
  uk_entries e : e ∈ dups subaddress_indexes id d → e ∈ dups subaddress_indexes id d';
  uk_indexes : indexes_ok d → indexes_ok d'
}.

Lemma write_major_ok major dict d d' :
  write_major id address view_key major dict d = Ok d' →
  upsert_keeps d d' ∧ (indexes_ok d → ∀ m, covered m dict → recognised d' major m).
Proof.
  unfold write_major. intros [-> _]%put_nodup_Ok.
  assert (∀ e d1, e ∈ dups subaddress_indexes id (put subaddress_ranges id (major, dict) d1) ↔
    e ∈ dups subaddress_indexes id d1) as Hput.
  { intros e d1. by rewrite (dups_put_other subaddress_ranges id (major, dict) d1 subaddress_indexes) by done. }
  split; [split|].
  - intros e He. rewrite Hput. by apply put_indexes_keeps.
  - intros Hd e. rewrite Hput. by apply (put_indexes_ok major dict).
  - intros Hd m Hm. destruct (put_indexes_ok major dict d Hd) as [_ Hrec].
    eapply recognised_keeps; [|by apply Hrec]. intros e. by rewrite Hput.
Qed.

Lemma upsert_major_ok max entry count out d count' out' d' :
  upsert_major id address view_key max entry count out d = (Ok (count', out'), d') →
  ranges_valid d →
  upsert_keeps d d' ∧ (indexes_ok d → ∀ m, covered m entry.2 → recognised d' entry.1 m) ∧
  ranges_valid d'.
Proof.
  unfold upsert_major. intros Hrun Hold. destruct (check_subaddress_dict entry) eqn:Hcheck; [|done].
  apply check_subaddress_dict_ok in Hcheck as [Hval _].
  assert (∀ dict d1 d2, write_major id address view_key entry.1 dict d1 = Ok d2 →
    Forall (λ r, r.1 <= r.2) dict → ranges_valid d1 → ranges_valid d2) as Hranges.
  { intros dict d1 d2 [-> _]%put_nodup_Ok Hdict Hd1 old [[_ ->]|[Ho _]]%(elem_of_dups_put subaddress_ranges);
      [done|]. apply Hd1. revert Ho. unfold put_indexes.
    rewrite (dups_foldl_other _ dict d1 subaddress_ranges); [done|]. intros d3 r.
    apply dups_foldl_other. intros d4 m. by apply put_skip_other. }
  destruct (get_both _ _ _ _) as [old_dict|] eqn:E; simpl in Hrun.
  - destruct (merge_ranges _ _ _ _ _) as [st|] eqn:Em; [|done].
    destruct (write_major _ _ _ _ _ _) as [d2|] eqn:Ew; [|done]. injection Hrun as <- <- <-.
    apply (get_both_Some subaddress_ranges) in E as [Hin _].
    assert (∀ x, covered x (us_dict st) ↔ covered x old_dict.2 ∨ covered x entry.2) as Hcov.
    { intros x. rewrite (merge_ranges_elem _ _ _ _ _ _ x Hval (Hold _ Hin) Em). simpl.
      rewrite covered_nil. tauto. }
    destruct (write_major_ok _ _ _ _ Ew) as [[Hk1 Hk2] Hrec].
    assert (∀ e, e ∈ dups subaddress_indexes id (del subaddress_ranges id entry.1 d) ↔
      e ∈ dups subaddress_indexes id d) as Hdel.
    { intros e. by rewrite (dups_del_other subaddress_ranges id entry.1 d subaddress_indexes) by done. }
    split_and!; [split| |].
    + intros e He. apply Hk1. by rewrite Hdel.
    + intros Hd. apply Hk2. intros e. rewrite Hdel. apply Hd.
    + intros Hd m Hm. apply Hrec; [|apply Hcov; by right]. intros e. rewrite Hdel. apply Hd.
    + eapply Hranges; [exact Ew| |].
      * eapply merge_ranges_valid; [exact Hval|by apply Hold| |exact Em]. constructor.
      * intros old [Ho _]%(elem_of_dups_del subaddress_ranges). by apply Hold.
  - destruct (check_max_ranges _ _ _) as [c|]; [|done].
    destruct (write_major _ _ _ _ _ _) as [d2|] eqn:Ew; [|done]. injection Hrun as <- <- <-.
    destruct (write_major_ok _ _ _ _ Ew) as [Hk Hrec]. split_and!; [done|done|]. by eapply Hranges.
Qed.

Lemma upsert_loop_ok max subaddrs count out d out' d' :
  upsert_loop id address view_key max subaddrs count out d = (Ok out', d') →
  ranges_valid d → indexes_ok d →
  upsert_keeps d d' ∧
  ∀ major ranges m, (major, ranges) ∈ subaddrs → covered m ranges → recognised d' major m.
Proof.
  revert count out d. induction subaddrs as [|entry subaddrs IH]; intros count out d Hrun Hval Hd;
    simpl in Hrun.
  { injection Hrun as <- <-. split; [done|]. by intros ? ? ? ?%elem_of_nil. }
  destruct (upsert_major _ _ _ _ _ _ _ _) as [[[count1 out1]|] d1] eqn:E; [|done].
  destruct (upsert_major_ok _ _ _ _ _ _ _ _ E Hval) as ([Hk1 Hk2] & Hrec & Hval1).
  destruct (IH _ _ _ Hrun Hval1 (Hk2 Hd)) as ([Hk3 Hk4] & Hrec1). split; [split; auto|].
  intros major ranges m [<-|Hin]%elem_of_cons Hm; [|by eapply Hrec1].
  eapply recognised_keeps; [exact Hk3|]. by apply Hrec.
Qed.

(** After a successful upsert the scanner finds every subaddress of the
    requested ranges by its spend public key, under an index with that key,
    and every key found before is still found. *)
Theorem do_upsert_finds max subaddrs d out d' :
  do_upsert id address view_key max subaddrs d = (Ok out, d') →
  ranges_valid d → indexes_ok d →
  (∀ major ranges m, (major, ranges) ∈ subaddrs → covered m ranges →
     ∃ index, find_subaddress id (get_spend_public (AddressIndex major m) address view_key) d' =
       Ok index ∧
       get_spend_public index address view_key =
         get_spend_public (AddressIndex major m) address view_key) ∧
  (∀ key index, find_subaddress id key d = Ok index → find_subaddress id key d' = Ok index).
Proof.
  unfold do_upsert. intros Hrun Hval Hd. destruct (max <? _); [done|].
  destruct (upsert_loop_ok _ _ _ _ _ _ _ Hrun Hval Hd) as ([Hk1 Hk2] & Hrec). split.
  - intros major ranges m Hin Hm. destruct (Hrec _ _ _ Hin Hm) as (e & He & Heq).
    exists (sm_index e). split; [|by rewrite <-(Hk2 Hd e He)]. unfold find_subaddress.
    by rewrite (proj2 (get_both_Some (L:=L) subaddress_indexes id _ d' e)).
  - unfold find_subaddress. intros key index. destruct (get_both subaddress_indexes id key d) as [e|] eqn:E; [|done].
    apply (get_both_Some subaddress_indexes) in E as [He Heq].
    assert (get_both subaddress_indexes id key d' = Some e) as -> by (apply (get_both_Some subaddress_indexes); auto).
    done.
Qed.
End upsert_theorems.

(** ** Theorems on the lookahead *)

Lemma received_loop_stuck fuel major minor max outs initial r :
  received_loop fuel major minor max outs initial = Ok r →
  Forall (λ o, is_zero (o_recipient o) = false) outs.
Proof.
  revert outs initial. induction fuel as [|fuel IH]; intros [|o outs] initial; simpl; try done.
  destruct (is_zero _) eqn:E; simpl; [apply IH|]. intros Hrun.
  repeat (apply expect_bind_ok in Hrun as (? & _ & Hrun)). constructor; [done|]. by eapply IH.
Qed.

(** When every output went to a subaddress the loop ends, in one round each. *)
Lemma received_loop_total fuel major minor max outs initial :
  Forall (λ o, is_zero (o_recipient o) = false) outs → (length outs <= fuel)%nat →
  received_loop fuel major minor max outs initial ≠ Err out_of_fuel.
Proof.
  intros Houts. revert fuel initial.
  induction Houts as [|o outs Ho Houts IH]; intros fuel initial Hf; [by destruct fuel|].
  cbn [length] in Hf. destruct fuel as [|fuel]; [lia|]. cbn [received_loop]. rewrite Ho.
  unfold guard_err. cbn [negb].
  do 2 match goal with |- context [if ?c then Ok tt else _] => destruct c end;
    cbn [mbind expect_bind]; try done.
  destruct (_ !! _); cbn [of_option mbind expect_bind]; [|done]. apply IH. lia.
Qed.

(** The loop over the received outputs of an account ends, in one round for
    each, when none of them was received by the primary address; when one was it
    never returns a result, since it never leaves that output. *)
Theorem received_loop_termination major minor max outs initial :
  (Forall (λ o, is_zero (o_recipient o) = false) outs →
   received_loop (length outs) major minor max outs initial ≠ Err out_of_fuel) ∧
  (∀ o, o ∈ outs → is_zero (o_recipient o) = true →
   ∀ fuel r, received_loop fuel major minor max outs initial ≠ Ok r).
Proof.
  split; [intros; by apply received_loop_total|]. intros o Ho Hz fuel r Hrun%received_loop_stuck.
  rewrite Forall_forall in Hrun. by rewrite Hrun in Hz.
Qed.

(** ** Which tables the operations write *)

Section subaddress_touches.
Context `{LL : LmdbLaws} `{Crypto}.
Implicit Types d : db L.

Notation touched := [subaddress_ranges; subaddress_indexes].

Lemma touches_put_skip T n k d v : n ∈ T → touches T d (put_skip n k d v).
Proof. intros Hn m k' Hm. apply put_skip_other. by intros ->. Qed.

Lemma touches_put_indexes id address key major dict d :
  touches touched d (put_indexes id address key major dict d).
Proof.
  apply touches_foldl. intros d1 r. apply touches_foldl. intros d2 m.
  apply touches_put_skip. set_solver.
Qed.

Lemma touches_write_major id address key major dict d d' :
  write_major id address key major dict d = Ok d' → touches touched d d'.
Proof.
  intros H1. etrans; [apply (touches_put_indexes id address key major dict)|].
  eapply touches_put_nodup; [|exact H1]. set_solver.
Qed.

Lemma touches_upsert_major id address key max entry count out d r d' :
  upsert_major id address key max entry count out d = (r, d') → touches touched d d'.
Proof.
  unfold upsert_major. destruct (negb _); [by intros [= _ <-]|].
  assert (∀ v, touches touched d (del subaddress_ranges id v d)) as Hdel.
  { intros v. apply touches_del. set_solver. }
  destruct (get_both _ _ _ _) as [old|].
  - destruct (merge_ranges _ _ _ _ _); [|intros [= _ <-]; apply Hdel].
    destruct (write_major _ _ _ _ _ _) eqn:E; intros [= _ <-]; [|apply Hdel].
    etrans; [apply (Hdel entry.1)|by eapply touches_write_major].
  - destruct (check_max_ranges _ _ _); [|by intros [= _ <-]].
    destruct (write_major _ _ _ _ _ _) eqn:E; intros [= _ <-]; [|done]. by eapply touches_write_major.
Qed.

Lemma touches_do_upsert id address key max subaddrs d r d' :
  do_upsert id address key max subaddrs d = (r, d') → touches touched d d'.
Proof.
  unfold do_upsert. destruct (max <? _); [by intros [= _ <-]|].
  generalize (Z.of_nat (length (dups subaddress_indexes id d))), (@nil subaddress_dict).
  revert d. induction subaddrs as [|entry subaddrs IH]; intros d count out; simpl; [by intros [= _ <-]|].
  destruct (upsert_major _ _ _ _ _ _ _ _) as [[[c o]|e] d1] eqn:E; apply touches_upsert_major in E.
  - intros Hr%IH. by trans d1.
  - by intros [= _ <-].
Qed.

Lemma touches_do_lookahead fuel id address key lookahead max d r d' :
  do_lookahead fuel id address key lookahead max d = (r, d') → touches touched d d'.
Proof.
  unfold do_lookahead. destruct (_ || _); [by intros [= _ <-]|].
  destruct (lookahead_ranges _ _ _ _); [|by intros [= _ <-]].
  destruct (do_upsert _ _ _ _ _ _) as [[o|e] d1] eqn:E; apply touches_do_upsert in E; by intros [= _ <-].
Qed.

(** The account [do_lookahead_user] returns differs in its lookahead only. *)
Lemma do_lookahead_user_ok fuel user lookahead max d user' d' :
  do_lookahead_user fuel user lookahead max d = Ok (user', d') →
  touches touched d d' ∧ ∃ fail, user' = with_lookahead lookahead fail user.
Proof.
  unfold do_lookahead_user. destruct (do_lookahead _ _ _ _ _ _ _) as [[o|e] d1] eqn:E;
    apply touches_do_lookahead in E; [|destruct (decide _); [|done]]; intros [= <- <-]; eauto.
Qed.
End subaddress_touches.

(** ** Two defects of the upsert *)

Definition lost_ranges_address : account_address := AccountAddress 7 1000.

(** A new range that touches two stored ranges leaves ranges that overlap,
    which [check_subaddress_dict] rejects, and reports indexes as added that
    were there: the loop extends the first stored range without looking at the
    next. *)
Theorem upsert_bridging_range :
  let upsert := do_upsert (H := test_crypto) 1 lost_ranges_address 7 100 in
  let d := (upsert [(0, [(0, 5); (10, 20)])] empty_db).2 in
  (upsert [(0, [(3, 15)])] d).1 = Ok [(0, [(6, 15)])] ∧
  find_subaddress (L := ListDb.lmdb) 1
    (get_spend_public (H := test_crypto) (AddressIndex 0 12) lost_ranges_address 7) d =
    Ok (AddressIndex 0 12) ∧
  get_subaddresses 1 (upsert [(0, [(3, 15)])] d).2 = [(0, [(0, 15); (10, 20)])] ∧
  check_subaddress_dict (0, [(0, 15); (10, 20)]) = false.
Proof. vm_compute. repeat split. Qed.

(** An account with one subaddress range for each of two major indexes. *)
Definition lost_ranges_db : db ListDb.lmdb :=
  (do_upsert (H := test_crypto) 1 lost_ranges_address 7 100 [(0, [(0, 0)]); (1, [(0, 3)])] empty_db).2.

(** A lookahead that runs into the maximum is reported as success, and the
    range of the major index being merged, deleted before the merge, is lost:
    its subaddress stays in the index table but in no range. *)
Theorem lookahead_loses_ranges :
  get_subaddresses 1 lost_ranges_db = [(0, [(0, 0)]); (1, [(0, 3)])] ∧
  match do_lookahead_user (H := test_crypto) 10
          (Account 1 0 lost_ranges_address 7 0 0 0 0 (AddressIndex 0 0) 0)
          (AddressIndex 1 4) 6 lost_ranges_db with
  | Ok (user, d') =>
      acc_lookahead_fail user = 1 ∧ get_subaddresses 1 d' = [(1, [(0, 3)])] ∧
      find_subaddress 1 (get_spend_public (H := test_crypto) (AddressIndex 0 0) lost_ranges_address 7) d' =
        Ok (AddressIndex 0 0)
  | Err _ => False
  end.
Proof. vm_compute. repeat split. Qed.

(** ** Witnesses *)

Lemma merge_ranges_covers_witness :
  covered 12 [(0, 15); (30, 40)] ↔ covered 12 [] ∨ covered 12 [(0, 5); (30, 40)] ∨ covered 12 [(3, 15)].
Proof.
  apply (merge_ranges_covers 0 100 [(3, 15)] [(0, 5); (30, 40)] (UpsertState 0 [] [])
    (UpsertState 10 [(0, 15); (30, 40)] [(0, [(6, 15)])])).
  - repeat constructor; simpl; lia.
  - repeat constructor; simpl; lia.
  - vm_compute. reflexivity.
Defined.

Lemma merge_ranges_ok_witness : ranges_ok [(0, 15); (30, 40)].
Proof.
  apply (merge_ranges_ok 0 100 [(3, 15)] [(0, 5); (30, 40)] (UpsertState 0 [] [])
    (UpsertState 10 [(0, 15); (30, 40)] [(0, [(6, 15)])])).
  - by apply (check_subaddress_dict_ok (0, [(3, 15)])).
  - by apply (check_subaddress_dict_ok (0, [(0, 5); (30, 40)])).
  - by apply (check_subaddress_dict_ok (0, [])).
  - intros r s Hr. by apply elem_of_nil in Hr.
  - intros n o1 o2 ->%list_elem_of_singleton
      [->|[->|[]%elem_of_nil]%elem_of_cons]%elem_of_cons
      [->|[->|[]%elem_of_nil]%elem_of_cons]%elem_of_cons [? ?] [? ?]; simpl in *; (done || lia).
  - vm_compute. reflexivity.
Defined.

Lemma do_upsert_finds_witness :
  ∃ index, find_subaddress 1
      (get_spend_public (H := test_crypto) (AddressIndex 1 2) lost_ranges_address 7) lost_ranges_db =
    Ok index ∧
    get_spend_public (H := test_crypto) index lost_ranges_address 7 =
      get_spend_public (H := test_crypto) (AddressIndex 1 2) lost_ranges_address 7.
Proof.
  refine (proj1 (do_upsert_finds (H := test_crypto) 1 lost_ranges_address 7 100
    [(0, [(0, 0)]); (1, [(0, 3)])] empty_db [(0, [(0, 0)]); (1, [(0, 3)])] lost_ranges_db _ _ _)
    1 [(0, 3)] 2 _ _).
  - vm_compute. reflexivity.
  - intros old Hold. by apply elem_of_nil in Hold.
  - intros e He. by apply elem_of_nil in He.
  - right. left.
  - apply covered_cons. left. simpl. lia.
Defined.
