(* ===== verification/Accounts.v ===== *)
(** * Accounts and requests (src/src/db/storage.cpp, lines 797-825, 1060-1192, 2100-2330, 2613-3126, 3813-3923)

    An account is kept in three tables: [accounts] under its status,
    [accounts_by_address] under its view public key and [accounts_by_height]
    under its scan height.  Modelled are the operations that add an account,
    change its status, height or lookahead and find it, and the queue of
    requests that clients make and administrators accept or reject.  The
    theorems state the consistency of the three tables ([accounts_ok]) and that
    the operations preserve it. *)

From S2P Require Import Prelude Lmdb Data Compare Tables Chain Subaddress.

Section accounts.
Context `{L : Lmdb} `{Crypto}.
Implicit Types d : db L.

(** ** Finding accounts *)

(** [get_account_time]: the clock reading [now] in seconds. *)
Definition get_account_time (now : Z) : expect Z :=
  if (now <? 0) || (u32_max <? now) then Err system_clock_invalid_range else Ok now.

(** [find_last_id]: the greatest id of the last accounts of every status. *)
Definition best_id (d : db L) (best : Z) (status : account_status) : Z :=
  match last (dups accounts status d) with
  | Some a => Z.max best (acc_id a)
  | None => best
  end.

Definition find_last_id (d : db L) : Z := foldl (best_id d) 0 (mdb_keys (d accounts)).

(** [storage_reader::get_account] by status and id *)
Definition get_account_by_id (status : account_status) (id : Z) (d : db L) : expect account :=
  of_option account_not_found (get_both accounts status id d).

(** The lookup by address most operations start with: only the view public key
    is compared. *)
Definition find_by_address (address : account_address) (d : db L) : option account_by_address :=
  get_both accounts_by_address by_address_version (view_public address) d.

(** [storage_reader::get_account] by address, which compares the whole address. *)
Definition get_account (address : account_address) (d : db L) : expect (account_status * account) :=
  match find_by_address address d with
  | None => Err account_not_found
  | Some value =>
      _ ← guard_err (bool_decide (aba_address value = address)) account_not_found;
      let lookup := aba_lookup value in
      user ← get_account_by_id (lk_status lookup) (lk_id lookup) d;
      Ok (lk_status lookup, user)
  end.

(** The account a lookup refers to, in the operations that update it. *)
Definition lookup_account (lookup : account_lookup) (d : db L) : expect account :=
  of_option mdb_notfound (get_both accounts (lk_status lookup) (lk_id lookup) d).

(** [mdb_cursor_put(accounts_cur, ..., MDB_CURRENT)]: the new value takes the
    place of the entry the cursor is on, which has the same id. *)
Definition put_account (lookup : account_lookup) (user : account) (d : db L) : db L :=
  put accounts (lk_status lookup) user d.

(** ** Access time and status *)

Definition with_access (access : Z) (a : account) : account :=
  {| acc_id := acc_id a; acc_access := access; acc_address := acc_address a;
     acc_key := acc_key a; acc_scan_height := acc_scan_height a;
     acc_start_height := acc_start_height a; acc_creation := acc_creation a;
     acc_flags := acc_flags a; acc_lookahead := acc_lookahead a;
     acc_lookahead_fail := acc_lookahead_fail a |}.

Definition update_access_time (now : Z) (address : account_address) (d : db L) : expect (db L) :=
  current_time ← get_account_time now;
  value ← of_option account_not_found (find_by_address address d);
  let lookup := aba_lookup value in
  user ← lookup_account lookup d;
  Ok (put_account lookup (with_access current_time user) d).

(** The body of the loop of [change_status]. *)
Definition change_status_one (status : account_status) (st : list account_address * db L)
    (address : account_address) : expect (list account_address * db L) :=
  let '(changed, d) := st in
  match find_by_address address d with
  | None => Ok (changed, d)
  | Some by_address =>
      let current := lk_status (aba_lookup by_address) in
      let id := lk_id (aba_lookup by_address) in
      if decide (current = status) then Ok (changed ++ [address], d)
      else
        let lookup := AccountLookup id status in
        let d := put accounts_by_address by_address_version
                   (AccountByAddress (aba_address by_address) lookup) d in
        user ← of_option mdb_notfound (get_both accounts current id d);
        let d := del accounts current id d in
        d ← put_nodup accounts status user d;
        _ ← of_option mdb_notfound (get_both accounts_by_height (acc_scan_height user) (acc_id user) d);
        let d := put accounts_by_height (acc_scan_height user) lookup d in
        Ok (changed ++ [address], d)
  end.

Definition change_status (status : account_status) (addresses : list account_address) (d : db L) :
    expect (list account_address * db L) :=
  fold_err (change_status_one status) ([], d) addresses.

(** ** Adding an account *)

Definition do_add_account (user : account) (d : db L) : expect (db L) :=
  verify ← of_option bad_view_key (secret_key_to_public_key (acc_key user));
  _ ← guard_err (verify =? view_public (acc_address user)) bad_view_key;
  let status := if acc_flags user =? admin_account then hidden else active in
  let by_address := AccountByAddress (acc_address user) (AccountLookup (acc_id user) status) in
  d ← match put_nodup accounts_by_address by_address_version by_address d with
      | Ok d => Ok d
      | Err _ => Err account_exists
      end;
  d ← put_nodup accounts_by_height (acc_scan_height user) (aba_lookup by_address) d;
  put_nodup accounts status user d.

Definition add_account (now : Z) (address : account_address) (key flags : Z) (d : db L) :
    expect (db L) :=
  current_time ← get_account_time now;
  let last_id := find_last_id d in
  height ← bi_id <$> get_last_block d;
  let next_id := wrap 32 (last_id + 1) in
  do_add_account
    {| acc_id := next_id; acc_access := current_time; acc_address := address; acc_key := key;
       acc_scan_height := height; acc_start_height := height; acc_creation := current_time;
       acc_flags := flags; acc_lookahead := AddressIndex 0 0; acc_lookahead_fail := 0 |} d.

(** ** Changing the scan height *)

Definition with_fail (fail : Z) (a : account) : account := with_lookahead (acc_lookahead a) fail a.

(** [change_height]; [cursors] says whether the subaddress cursors are given. *)
Definition change_height (fuel : nat) (cursors : bool) (height : Z) (address : account_address)
    (lookahead : address_index) (max_subaddresses : Z) (d : db L) : expect (db L) :=
  value ← of_option account_not_found (find_by_address address d);
  let lookup := aba_lookup value in
  user ← lookup_account lookup d;
  let current_height := acc_scan_height user in
  let user := with_heights (Z.min height (acc_scan_height user)) (Z.min height (acc_start_height user)) user in
  let user := if height <=? acc_lookahead_fail user then with_fail 0 user else user in
  let d := rollback_outputs (acc_id user) height d in
  d ← rollback_spends (acc_id user) height d;
  '(user, d) ←
    (if negb (is_zero lookahead) && cursors
     then do_lookahead_user fuel user lookahead max_subaddresses d
     else Ok (user, d));
  let d := put_account lookup user d in
  _ ← of_option mdb_notfound (get_both accounts_by_height current_height (acc_id user) d);
  let d := del accounts_by_height current_height (acc_id user) d in
  put_nodup accounts_by_height height lookup d.

(** The loop shared by [rescan] and [import_accounts]: an account that is not
    found is skipped. *)
Definition collect_changed (changed : expect (db L)) (address : account_address)
    (st : list account_address * db L) : expect (list account_address * db L) :=
  match changed with
  | Ok d => Ok (st.1 ++ [address], d)
  | Err e => if decide (e = account_not_found) then Ok st else Err e
  end.

Definition rescan (height : Z) (addresses : list account_address) (d : db L) :
    expect (list account_address * db L) :=
  current_height ← bi_id <$> get_last_block d;
  _ ← guard_err (negb (current_height <? height)) bad_height;
  fold_err (λ st address,
    collect_changed (change_height 0 false height address (AddressIndex 0 0) 0 st.2) address st)
    ([], d) addresses.

(** ** Requests *)

Definition get_request (type : request) (address : account_address) (d : db L) : expect request_info :=
  of_option mdb_notfound (get_both requests type (spend_public address) d).

Definition creation_request (create_queue_max now : Z) (address : account_address) (key flags : Z)
    (lookahead : address_index) (d : db L) : expect (list webhook_new_account * db L) :=
  _ ← guard_err (negb (create_queue_max =? 0)) create_queue_max_;
  current_time ← get_account_time now;
  match find_by_address address d with
  | Some _ => Err account_exists
  | None =>
      _ ← guard_err (match dups requests create d with
                     | [] => true
                     | l => negb (create_queue_max <=? Z.of_nat (length l))
                     end) create_queue_max_;
      height ← bi_id <$> get_last_block d;
      let info := RequestInfo address key height current_time flags lookahead in
      d ← match put_nodup requests create info d with
          | Ok d => Ok d
          | Err _ => Err duplicate_request
          end;
      let hooks := dups webhooks (WebhookKey account_id_invalid new_account) d in
      Ok (map (λ v, WebhookNewAccount v address) hooks, d)
  end.

Definition import_request (now : Z) (address : account_address) (height : Z)
    (lookahead : address_index) (d : db L) : expect (db L) :=
  _ ← get_account_time now;
  match find_by_address address d with
  | None => Err account_not_found
  | Some _ =>
      match put_nodup requests import_scan (RequestInfo address 0 height 0 0 lookahead) d with
      | Ok d => Ok d
      | Err _ => Err duplicate_request
      end
  end.

Definition shrink_lookahead (address : account_address) (lookahead : address_index) (d : db L) :
    expect (db L) :=
  value ← of_option account_not_found (find_by_address address d);
  let lookup := aba_lookup value in
  user ← lookup_account lookup d;
  _ ← guard_err (negb (negb (acc_lookahead_fail user =? 0) ||
        (maj_i (acc_lookahead user) <? maj_i lookahead) ||
        (min_i (acc_lookahead user) <? min_i lookahead))) max_subaddresses_;
  Ok (put_account lookup (with_lookahead lookahead (acc_lookahead_fail user) user) d).

(** The body of the loop of [create_accounts]; the state carries the last id. *)
Definition create_account (fuel : nat) (current_time max_subaddresses : Z)
    (st : list account_address * Z * db L) (address : account_address) :
    expect (list account_address * Z * db L) :=
  let '(stored, last_id, d) := st in
  match get_both requests create (spend_public address) d with
  | None => Ok st
  | Some info =>
      let d := del requests create (spend_public address) d in
      let next_id := wrap 32 (last_id + 1) in
      _ ← guard_err (negb (next_id =? account_id_invalid)) account_max;
      let user :=
        {| acc_id := next_id; acc_access := current_time; acc_address := address;
           acc_key := ri_key info; acc_scan_height := ri_start_height info;
           acc_start_height := ri_start_height info; acc_creation := ri_creation info;
           acc_flags := ri_creation_flags info; acc_lookahead := AddressIndex 0 0;
           acc_lookahead_fail := 0 |} in
      '(user, d) ← (if negb (is_zero (ri_lookahead info))
                    then do_lookahead_user fuel user (ri_lookahead info) max_subaddresses d
                    else Ok (user, d));
      match do_add_account user d with
      | Ok d => Ok (stored ++ [address], next_id, d)
      | Err e =>
          if decide (e = account_exists ∨ e = bad_view_key) then Ok (stored, last_id, d) else Err e
      end
  end.

Definition create_accounts (fuel : nat) (now : Z) (addresses : list account_address)
    (max_subaddresses : Z) (d : db L) : expect (list account_address * db L) :=
  current_time ← get_account_time now;
  '(stored, _, d) ← fold_err (create_account fuel current_time max_subaddresses)
                      ([], find_last_id d, d) addresses;
  Ok (stored, d).

Definition import_account (fuel : nat) (max_subaddresses : Z) (st : list account_address * db L)
    (address : account_address) : expect (list account_address * db L) :=
  match get_both requests import_scan (spend_public address) st.2 with
  | None => Ok st
  | Some info =>
      let d := del requests import_scan (spend_public address) st.2 in
      collect_changed
        (change_height fuel true (ri_start_height info) address (ri_lookahead info) max_subaddresses d)
        address (st.1, d)
  end.

Definition import_accounts (fuel : nat) (addresses : list account_address) (max_subaddresses : Z)
    (d : db L) : expect (list account_address * db L) :=
  fold_err (import_account fuel max_subaddresses) ([], d) addresses.

Definition accept_requests (fuel : nat) (now : Z) (req : request) (addresses : list account_address)
    (max_subaddresses : Z) (d : db L) : expect (list account_address * db L) :=
  match addresses with
  | [] => Ok ([], d)
  | _ =>
      match req with
      | create => create_accounts fuel now addresses max_subaddresses d
      | import_scan => import_accounts fuel addresses max_subaddresses d
      end
  end.

Definition reject_request (req : request) (st : list account_address * db L)
    (address : account_address) : list account_address * db L :=
  match get_both requests req (spend_public address) st.2 with
  | None => st
  | Some _ => (st.1 ++ [address], del requests req (spend_public address) st.2)
  end.

Definition reject_requests (req : request) (addresses : list account_address) (d : db L) :
    list account_address * db L :=
  foldl (reject_request req) ([], d) addresses.

(** ** Growing the lookahead *)

(** [storage::update_lookahead]: the number of major indexes changed, or -1 when
    the maximum of subaddresses was reached. *)
Definition update_lookahead (address : account_address) (height : Z) (matched : address_index)
    (max_subaddresses : Z) (d : db L) : expect (Z * db L) :=
  value ← of_option account_not_found (find_by_address address d);
  let lookup := aba_lookup value in
  user ← lookup_account lookup d;
  let major := maj_i (acc_lookahead user) in
  let minor := min_i (acc_lookahead user) in
  if (major =? 0) || (minor =? 0) then Ok (0, d)
  else
    let '(upserted, d) :=
      if (major / minor <=? u32_max) && (wrap 32 (major * minor) <=? max_subaddresses)
      then do_upsert (acc_id user) address (acc_key user) max_subaddresses
             (match_ranges (acc_lookahead user) matched) d
      else (Err max_subaddresses_, d) in
    match upserted with
    | Ok out => Ok (Z.min u32_max (Z.of_nat (length out)), d)
    | Err e =>
        _ ← guard_err (bool_decide (e = max_subaddresses_)) e;
        let fail := if acc_lookahead_fail user =? 0 then Z.max 1 height
                    else Z.max 1 (Z.min (acc_lookahead_fail user) height) in
        Ok (-1, put_account lookup (with_fail fail user) d)
    end.
End accounts.

(** ** Consistency of the account tables *)

Section consistency.
Context `{LL : LmdbLaws} `{Crypto}.
Implicit Types d : db L.

Definition ids_unique (d : db L) : Prop :=
  ∀ s s' a a', a ∈ dups accounts s d → a' ∈ dups accounts s' d → acc_id a = acc_id a' →
    s = s' ∧ a = a'.

(** The entry of [accounts_by_address] of an account. *)
Definition address_entry (s : account_status) (a : account) : account_by_address :=
  AccountByAddress (acc_address a) (AccountLookup (acc_id a) s).

(** An account [lookup] refers to has scan height [h]. *)
Definition has_height (d : db L) (h : Z) (lookup : account_lookup) : Prop :=
  ∃ a, a ∈ dups accounts (lk_status lookup) d ∧ acc_id a = lk_id lookup ∧ acc_scan_height a = h.

Record accounts_ok (d : db L) : Prop := {
  ao_address v :
    v ∈ dups accounts_by_address by_address_version d ↔
      ∃ s a, a ∈ dups accounts s d ∧ v = address_entry s a;
  ao_height h lookup : lookup ∈ dups accounts_by_height h d ↔ has_height d h lookup;
  ao_unique : ids_unique d
}.

Lemma accounts_ok_touches T d d' :
  touches T d d' → accounts ∉ T → accounts_by_address ∉ T → accounts_by_height ∉ T →
  accounts_ok d → accounts_ok d'.
Proof.
  intros Ht H1 H2 H3 [Ha Hh Hu]. split.
  - intros v. rewrite (Ht accounts_by_address _ H2), Ha. by setoid_rewrite (Ht accounts _ H1).
  - intros h lk. rewrite (Ht accounts_by_height _ H3), Hh. unfold has_height.
    by rewrite (Ht accounts _ H1).
  - intros s s' a a'. rewrite !(Ht accounts _ H1). apply Hu.
Qed.

Lemma no_accounts_ok d :
  (∀ s, dups accounts s d = []) → (∀ k, dups accounts_by_address k d = []) →
  (∀ h, dups accounts_by_height h d = []) → accounts_ok d.
Proof.
  intros Ha Hba Hbh. split.
  - intros v. rewrite Hba. split; [by intros ?%elem_of_nil|]. intros (s & a & Hin & _).
    rewrite Ha in Hin. by apply elem_of_nil in Hin.
  - intros h lk. rewrite Hbh. split; [by intros ?%elem_of_nil|]. intros (a & Hin & _).
    rewrite Ha in Hin. by apply elem_of_nil in Hin.
  - intros s s' a a' Hin. rewrite Ha in Hin. by apply elem_of_nil in Hin.
Qed.

Lemma empty_accounts_ok : accounts_ok (empty_db (L := L)).
Proof. apply no_accounts_ok; intros; unfold dups, empty_db; apply mdb_dups_empty. Qed.

(** *** Replacing the value of an account *)

Lemma elem_of_put_account d s a a' s' x :
  ids_unique d → a ∈ dups accounts s d → acc_id a' = acc_id a →
  x ∈ dups accounts s' (put accounts s a' d) ↔
    (s' = s ∧ x = a') ∨ (x ∈ dups accounts s' d ∧ acc_id x ≠ acc_id a).
Proof.
  intros Hu Ha Hid. rewrite (elem_of_dups_put accounts). simpl. rewrite Hid. split.
  - intros [[-> ->]|[Hx Hne]]; [by left|right]. split; [done|]. intros Heq.
    destruct (Hu _ _ _ _ Hx Ha Heq) as [-> _]. by apply Hne.
  - intros [[-> ->]|[Hx Hne]]; [by left|right]. by split.
Qed.

Lemma put_account_unique d s a a' :
  ids_unique d → a ∈ dups accounts s d → acc_id a' = acc_id a → ids_unique (put accounts s a' d).
Proof.
  intros Hu Ha Hid s1 s2 x y.
  rewrite !(elem_of_put_account d s a a') by done.
  intros [[-> ->]|[Hx Hnx]] [[-> ->]|[Hy Hny]] Heq; [done|congruence|congruence|by eapply Hu].
Qed.

Lemma put_account_address d s a a' v :
  accounts_ok d → a ∈ dups accounts s d → acc_id a' = acc_id a → acc_address a' = acc_address a →
  v ∈ dups accounts_by_address by_address_version d ↔
    ∃ s' x, x ∈ dups accounts s' (put accounts s a' d) ∧ v = address_entry s' x.
Proof.
  intros [Haddr _ Hu] Ha Hid Had. rewrite Haddr. unfold address_entry.
  setoid_rewrite (elem_of_put_account d s a a'); [|done..]. split.
  - intros (s1 & x & Hx & ->). destruct (decide (acc_id x = acc_id a)) as [Heq|Hne].
    + destruct (Hu _ _ _ _ Hx Ha Heq) as [-> ->]. exists s, a'. split; [by left|]. by rewrite Hid, Had.
    + exists s1, x. split; [by right|done].
  - intros (s1 & x & [[-> ->]|[Hx Hne]] & ->); [|by exists s1, x].
    exists s, a. split; [done|]. by rewrite Hid, Had.
Qed.

(** An update that keeps id, address and scan height keeps the tables consistent. *)
Lemma put_account_ok d s a a' :
  accounts_ok d → a ∈ dups accounts s d → acc_id a' = acc_id a → acc_address a' = acc_address a →
  acc_scan_height a' = acc_scan_height a → accounts_ok (put accounts s a' d).
Proof.
  intros Hok Ha Hid Had Hsc. pose proof Hok as [_ Hh Hu]. split.
  - intros v. rewrite (dups_put_other accounts _ _ _ accounts_by_address) by done.
    by apply (put_account_address _ _ a).
  - intros h lk. rewrite (dups_put_other accounts _ _ _ accounts_by_height) by done.
    rewrite Hh. unfold has_height. setoid_rewrite (elem_of_put_account d s a a'); [|done..]. split.
    + intros (x & Hx & Hi & Hs). destruct (decide (acc_id x = acc_id a)) as [Heq|Hne].
      * destruct (Hu _ _ _ _ Hx Ha Heq) as [<- ->]. exists a'. split; [by left|]. by rewrite Hid, Hsc.
      * exists x. split; [by right|done].
    + intros (x & [[-> ->]|[Hx Hne]] & Hi & Hs); [|by exists x].
      exists a. split; [done|]. by rewrite <-Hid, <-Hsc.
  - by apply (put_account_unique _ _ a).
Qed.

(** Moving an account to another scan height, together with its other fields. *)
Lemma move_account_ok d s a a' :
  accounts_ok d → a ∈ dups accounts s d → acc_id a' = acc_id a → acc_address a' = acc_address a →
  accounts_ok (put accounts_by_height (acc_scan_height a') (AccountLookup (acc_id a) s)
    (del accounts_by_height (acc_scan_height a) (acc_id a) (put accounts s a' d))).
Proof.
  intros Hok Ha Hid Had. pose proof Hok as [_ Hh Hu].
  assert (∀ s' x, x ∈ dups accounts s' (put accounts_by_height (acc_scan_height a') (AccountLookup (acc_id a) s)
    (del accounts_by_height (acc_scan_height a) (acc_id a) (put accounts s a' d))) ↔
    (s' = s ∧ x = a') ∨ (x ∈ dups accounts s' d ∧ acc_id x ≠ acc_id a)) as Hacc.
  { intros s' x. rewrite (dups_put_other accounts_by_height _ _ _ accounts) by done.
    rewrite (dups_del_other accounts_by_height _ _ _ accounts) by done.
    by apply elem_of_put_account. }
  split.
  - intros v. rewrite (dups_put_other accounts_by_height _ _ _ accounts_by_address) by done.
    rewrite (dups_del_other accounts_by_height _ _ _ accounts_by_address) by done.
    rewrite (dups_put_other accounts _ _ _ accounts_by_address) by done.
    rewrite (put_account_address d s a a') by done.
    split; intros (s' & x & Hx & ->); exists s', x; (split; [|done]);
      [rewrite Hacc|apply Hacc in Hx]; by apply (elem_of_put_account d s a a') in Hx ||
        by apply (elem_of_put_account d s a a').
  - intros h lk. rewrite (elem_of_dups_put accounts_by_height), (elem_of_dups_del accounts_by_height).
    rewrite (dups_put_other accounts _ _ _ accounts_by_height) by done. rewrite Hh. simpl.
    unfold has_height. setoid_rewrite Hacc. split.
    + intros [[<- ->]|[[(x & Hx & Hi & Hs) Hne] _]]; [exists a'; simpl; by auto|].
      exists x. split; [|done]. right. split; [done|]. intros Heq.
      destruct (Hu _ _ _ _ Hx Ha Heq) as [Hst ->]. apply Hne; congruence.
    + intros (x & [[Hst ->]|[Hx Hne]] & Hi & Hs).
      * left. split; [done|]. destruct lk; simpl in *. congruence.
      * right. split; [|intros _; congruence]. split; [by exists x|]. intros _. congruence.
  - intros s1 s2 x y. rewrite !Hacc.
    intros [[-> ->]|[Hx Hnx]] [[-> ->]|[Hy Hny]] Heq; [done|congruence|congruence|by eapply Hu].
Qed.

(** *** What a lookup by address finds *)

Lemma find_by_address_ok d address v :
  accounts_ok d → find_by_address address d = Some v →
  ∃ a, a ∈ dups accounts (lk_status (aba_lookup v)) d ∧
    v = address_entry (lk_status (aba_lookup v)) a ∧
    view_public (acc_address a) = view_public address ∧
    lookup_account (aba_lookup v) d = Ok a.
Proof.
  intros [Ha _ _] Hf. unfold find_by_address in Hf.
  apply (get_both_Some accounts_by_address) in Hf as [Hin Hv].
  apply Ha in Hin as (s & a & Hin & ->). exists a. split_and!; [done|done|done|].
  unfold lookup_account. apply of_option_ok. by apply (get_both_Some accounts).
Qed.

Lemma get_account_iff d address s a :
  accounts_ok d →
  get_account address d = Ok (s, a) ↔ a ∈ dups accounts s d ∧ acc_address a = address.
Proof.
  intros Hok. unfold get_account. split.
  - destruct (find_by_address address d) as [v|] eqn:E; [|done]. intros Hrun.
    apply expect_bind_ok in Hrun as ([] & Hg%guard_err_ok%bool_decide_eq_true & Hrun).
    apply expect_bind_ok in Hrun as (user & Hg2%of_option_ok & [= <- <-]).
    destruct (find_by_address_ok _ _ _ Hok E) as (a & Ha & Hv & _ & Hl%of_option_ok).
    rewrite Hl in Hg2. injection Hg2 as <-. split; [done|]. by rewrite <-Hg, Hv.
  - intros [Hin <-]. assert (find_by_address (acc_address a) d = Some (address_entry s a)) as ->.
    { apply (get_both_Some accounts_by_address). split; [|done]. apply Hok. eauto. }
    simpl. rewrite bool_decide_eq_true_2 by done. simpl. unfold get_account_by_id.
    assert (get_both accounts s (acc_id a) d = Some a) as -> by by apply (get_both_Some accounts).
    done.
Qed.

(** An account found by its address has that address, and is the one the
    account table holds under the id and status of the address table. *)
Theorem get_account_sound d address s a :
  accounts_ok d →
  get_account address d = Ok (s, a) ↔ a ∈ dups accounts s d ∧ acc_address a = address.
Proof. apply get_account_iff. Qed.

(** Accounts are identified by their view public key. *)
Lemma view_public_unique d s s' a a' :
  accounts_ok d → a ∈ dups accounts s d → a' ∈ dups accounts s' d →
  view_public (acc_address a) = view_public (acc_address a') → s = s' ∧ a = a'.
Proof.
  intros [Ha _ Hu] Hin Hin' Heq. apply Hu; [done|done|].
  assert (address_entry s a = address_entry s' a') as He; [|by injection He].
  apply (dups_unique accounts_by_address by_address_version d); [apply Ha; eauto..|done].
Qed.

(** The effect on the three tables of replacing account [a] by [a'] with status
    [s'], or of adding [a'] when [a] is not there. *)
Record replaced (d d' : db L) (a : account) (s' : account_status) (a' : account) : Prop := {
  re_accounts s x : x ∈ dups accounts s d' ↔
    (s = s' ∧ x = a') ∨ (x ∈ dups accounts s d ∧ acc_id x ≠ acc_id a);
  re_address v : v ∈ dups accounts_by_address by_address_version d' ↔
    v = address_entry s' a' ∨
    (v ∈ dups accounts_by_address by_address_version d ∧ lk_id (aba_lookup v) ≠ acc_id a);
  re_height h lk : lk ∈ dups accounts_by_height h d' ↔
    (h = acc_scan_height a' ∧ lk = AccountLookup (acc_id a') s') ∨
    (lk ∈ dups accounts_by_height h d ∧ lk_id lk ≠ acc_id a)
}.

Lemma replaced_ok d d' a s' a' :
  accounts_ok d → acc_id a' = acc_id a → replaced d d' a s' a' → accounts_ok d'.
Proof.
  intros [Ha Hh Hu] Hid [Racc Raddr Rh]. split.
  - intros v. rewrite Raddr, Ha. split.
    + intros [->|[(s & x & Hx & ->) Hne]]; [exists s', a'|exists s, x]; rewrite Racc; auto.
    + intros (s & x & [[-> ->]|[Hx Hne]]%Racc & ->); [by left|right]. split; [eauto|done].
  - intros h lk. rewrite Rh, Hh. unfold has_height. split.
    + intros [[-> ->]|[(x & Hx & Hi & Hs) Hne]]; [exists a'|exists x]; rewrite Racc; simpl; auto.
      split; [|done]. right. split; [done|]. congruence.
    + intros (x & [[Hst ->]|[Hx Hne]]%Racc & Hi & Hs).
      * left. split; [done|]. destruct lk; simpl in *. congruence.
      * right. split; [eauto|congruence].
  - intros s1 s2 x y [[-> ->]|[Hx Hnx]]%Racc [[-> ->]|[Hy Hny]]%Racc Heq;
      [done|congruence|congruence|by eapply Hu].
Qed.

Lemma update_access_time_ok now address d d' :
  accounts_ok d → update_access_time now address d = Ok d' → accounts_ok d'.
Proof.
  intros Hok Hrun. unfold update_access_time in Hrun.
  apply expect_bind_ok in Hrun as (t & _ & Hrun).
  apply expect_bind_ok in Hrun as (v & Hv%of_option_ok & Hrun).
  apply expect_bind_ok in Hrun as (user & Hl & [= <-]).
  destruct (find_by_address_ok _ _ _ Hok Hv) as (a & Ha & _ & _ & Hl'). rewrite Hl in Hl'.
  injection Hl' as ->. by apply (put_account_ok _ _ a).
Qed.

Lemma shrink_lookahead_ok address lookahead d d' :
  accounts_ok d → shrink_lookahead address lookahead d = Ok d' → accounts_ok d'.
Proof.
  intros Hok Hrun. unfold shrink_lookahead in Hrun.
  apply expect_bind_ok in Hrun as (v & Hv%of_option_ok & Hrun).
  apply expect_bind_ok in Hrun as (user & Hl & Hrun).
  apply expect_bind_ok in Hrun as (_ & _ & [= <-]).
  destruct (find_by_address_ok _ _ _ Hok Hv) as (a & Ha & _ & _ & Hl'). rewrite Hl in Hl'.
  injection Hl' as ->. by apply (put_account_ok _ _ a).
Qed.

Lemma change_status_one_ok status st address st' :
  accounts_ok st.2 → change_status_one status st address = Ok st' → accounts_ok st'.2.
Proof.
  destruct st as [changed d]. intros Hok Hrun. simpl in *.
  destruct (find_by_address address d) as [v|] eqn:Hv; [|by injection Hrun as <-].
  destruct (find_by_address_ok _ _ _ Hok Hv) as (a & Ha & Hve & _ & _).
  set (current := lk_status (aba_lookup v)) in *.
  assert (lk_id (aba_lookup v) = acc_id a) as Hid by by rewrite Hve.
  assert (aba_address v = acc_address a) as Had by by rewrite Hve. rewrite Hid, Had in Hrun.
  destruct (decide (current = status)) as [|Hne]; [by injection Hrun as <-|].
  apply expect_bind_ok in Hrun as (user & Hu%of_option_ok & Hrun).
  apply (get_both_Some accounts) in Hu as [Hu Hui].
  rewrite (dups_put_other accounts_by_address _ _ _ accounts) in Hu by done.
  destruct (ao_unique _ Hok _ _ _ _ Hu Ha Hui) as [_ ->]. clear Hu Hui.
  apply expect_bind_ok in Hrun as (d2 & [-> Hfresh]%put_nodup_Ok & Hrun).
  apply expect_bind_ok in Hrun as (lk & _ & [= <-]). cbn [snd].
  apply (replaced_ok d _ a status a); [done|done|]. split.
  - intros s x. rewrite (dups_put_other accounts_by_height _ _ _ accounts) by done.
    rewrite (elem_of_dups_put accounts), (elem_of_dups_del accounts).
    rewrite (dups_put_other accounts_by_address _ _ _ accounts) by done. simpl. split.
    + intros [[-> ->]|[[Hx Hnc] Hns]]; [by left|right]. split; [done|]. intros Heq.
      destruct (ao_unique _ Hok _ _ _ _ Hx Ha Heq) as [-> ->]. by apply Hnc.
    + intros [[-> ->]|[Hx Hnx]]; [by left|right]. auto.
  - intros w. rewrite (dups_put_other accounts_by_height _ _ _ accounts_by_address) by done.
    rewrite (dups_put_other accounts _ _ _ accounts_by_address) by done.
    rewrite (dups_del_other accounts _ _ _ accounts_by_address) by done.
    rewrite (elem_of_dups_put accounts_by_address). simpl. split.
    + intros [[_ ->]|[Hw Hnw]]; [by left|right]. split; [done|]. intros Heq. apply Hnw; [done|].
      apply (ao_address _ Hok) in Hw as (s & x & Hx & ->). simpl in *.
      by destruct (ao_unique _ Hok _ _ _ _ Hx Ha Heq) as [_ ->].
    + intros [->|[Hw Hnw]]; [by left|right]. split; [done|]. intros _ Heq. apply Hnw.
      apply (ao_address _ Hok) in Hw as (s & x & Hx & ->). simpl in *.
      by destruct (view_public_unique _ _ _ _ _ Hok Hx Ha Heq) as [_ ->].
  - intros h lk'. rewrite (elem_of_dups_put accounts_by_height).
    rewrite (dups_put_other accounts _ _ _ accounts_by_height) by done.
    rewrite (dups_del_other accounts _ _ _ accounts_by_height) by done.
    rewrite (dups_put_other accounts_by_address _ _ _ accounts_by_height) by done. simpl. split.
    + intros [[<- ->]|[Hlk Hnk]]; [by left|right]. split; [done|]. intros Heq.
      apply (ao_height _ Hok) in Hlk as (x & Hx & Hi & Hs).
      destruct (ao_unique _ Hok _ _ _ _ Hx Ha ltac:(congruence)) as [_ ->]. by apply Hnk.
    + intros [[-> ->]|[Hlk Hnk]]; [by left|right]. auto.
Qed.

Lemma change_status_ok status addresses d changed d' :
  accounts_ok d → change_status status addresses d = Ok (changed, d') → accounts_ok d'.
Proof.
  intros Hok Hrun.
  apply (fold_err_invariant (λ st, accounts_ok st.2)) in Hrun; [done|done|].
  intros st a st' _ Hst Hr. by eapply change_status_one_ok.
Qed.

(** *** Adding *)

Lemma do_add_account_ok user d d' :
  accounts_ok d → (∀ s a, a ∈ dups accounts s d → acc_id a ≠ acc_id user) →
  do_add_account user d = Ok d' → accounts_ok d'.
Proof.
  intros Hok Hfresh Hrun. unfold do_add_account in Hrun.
  apply expect_bind_ok in Hrun as (verify & _ & Hrun).
  apply expect_bind_ok in Hrun as (_ & _ & Hrun).
  set (status := if acc_flags user =? admin_account then hidden else active) in *.
  apply expect_bind_ok in Hrun as (d1 & Hd1 & Hrun).
  destruct (put_nodup accounts_by_address _ _ _) as [d1'|] eqn:E1; [|done]. injection Hd1 as <-.
  apply put_nodup_Ok in E1 as [-> Hf1].
  apply expect_bind_ok in Hrun as (d2 & [-> Hf2]%put_nodup_Ok & [-> Hf3]%put_nodup_Ok).
  apply (replaced_ok d _ user status user); [done|done|]. split.
  - intros s x. rewrite (elem_of_dups_put accounts).
    rewrite (dups_put_other accounts_by_height _ _ _ accounts) by done.
    rewrite (dups_put_other accounts_by_address _ _ _ accounts) by done. simpl. split.
    + intros [[-> ->]|[Hx _]]; [by left|right]. split; [done|by eapply Hfresh].
    + intros [[-> ->]|[Hx Hne]]; [by left|right]. auto.
  - intros v. rewrite (dups_put_other accounts _ _ _ accounts_by_address) by done.
    rewrite (dups_put_other accounts_by_height _ _ _ accounts_by_address) by done.
    rewrite (elem_of_dups_put accounts_by_address). simpl. split.
    + intros [[_ ->]|[Hv _]]; [by left|right]. split; [done|].
      apply (ao_address _ Hok) in Hv as (s & x & Hx & ->). by eapply Hfresh.
    + intros [->|[Hv _]]; [by left|right]. split; [done|]. intros _. by apply Hf1.
  - intros h lk. rewrite (dups_put_other accounts _ _ _ accounts_by_height) by done.
    rewrite (elem_of_dups_put accounts_by_height).
    rewrite (dups_put_other accounts_by_address _ _ _ accounts_by_height) by done. simpl. split.
    + intros [[<- ->]|[Hlk _]]; [by left|right]. split; [done|].
      apply (ao_height _ Hok) in Hlk as (x & Hx & <- & _). by eapply Hfresh.
    + intros [[-> ->]|[Hlk Hne]]; [by left|right]. auto.
Qed.

(** The last id is at least that of every account, so the next one is fresh. *)
Lemma find_last_id_max d s a : a ∈ dups accounts s d → acc_id a <= find_last_id d.
Proof.
  intros Ha. unfold find_last_id.
  assert (s ∈ mdb_keys (d accounts)) as Hs.
  { apply (mdb_keys_spec (spec_of accounts)). intros E. unfold dups in Ha. rewrite E in Ha.
    by apply elem_of_nil in Ha. }
  assert (∃ b, last (dups accounts s d) = Some b ∧ acc_id a <= acc_id b) as (b & Hb & Hle).
  { destruct (sorted_last _ _ _ (dups_sorted accounts s d) Ha) as (b & Hb & [->|Hlt]); [by exists b|].
    exists b. split; [done|]. apply Z.lt_le_incl, Z.compare_lt_iff, Hlt. }
  assert (∀ best, acc_id a <= best_id d best s) as Hbest.
  { intros best. unfold best_id. rewrite Hb. etrans; [exact Hle|apply Z.le_max_r]. }
  assert (∀ l best, best <= foldl (best_id d) best l) as Hmono.
  { induction l as [|s1 l IH]; intros best; simpl; [lia|]. etrans; [|apply IH].
    clear. unfold best_id. case_match; lia. }
  revert Hs. generalize (mdb_keys (d accounts)) as l. intros l. generalize 0.
  induction l as [|s1 l IH]; intros best Hs; [by apply elem_of_nil in Hs|].
  simpl. apply elem_of_cons in Hs as [<-|Hs]; [|by apply IH]. etrans; [|apply Hmono]. apply Hbest.
Qed.

Lemma add_account_ok now address key flags d d' :
  accounts_ok d → 0 <= find_last_id d < u32_max → add_account now address key flags d = Ok d' →
  accounts_ok d'.
Proof.
  intros Hok Hlast Hrun. unfold add_account in Hrun.
  apply expect_bind_ok in Hrun as (t & _ & Hrun). apply expect_bind_ok in Hrun as (h & _ & Hrun).
  eapply do_add_account_ok; [done| |exact Hrun]. intros s a Ha%find_last_id_max. cbn [acc_id].
  rewrite wrap_small by (unfold u32_max in Hlast; lia). lia.
Qed.

(** *** Changing the height *)

(** What [change_height] does: one account is replaced and filed under [height]. *)
Lemma change_height_effect fuel cursors height address lookahead max d d' :
  accounts_ok d → change_height fuel cursors height address lookahead max d = Ok d' →
  ∃ s a a', a ∈ dups accounts s d ∧ view_public (acc_address a) = view_public address ∧
    acc_id a' = acc_id a ∧ acc_address a' = acc_address a ∧
    acc_scan_height a' = Z.min height (acc_scan_height a) ∧
    touches [outputs; spends; images; subaddress_ranges; subaddress_indexes]
      (put accounts_by_height height (AccountLookup (acc_id a) s)
         (del accounts_by_height (acc_scan_height a) (acc_id a) (put accounts s a' d))) d'.
Proof.
  intros Hok Hrun. unfold change_height in Hrun.
  apply expect_bind_ok in Hrun as (v & Hv%of_option_ok & Hrun).
  apply expect_bind_ok in Hrun as (a & Hl & Hrun). cbv zeta in Hrun.
  destruct (find_by_address_ok _ _ _ Hok Hv) as (a0 & Ha & Hve & Hview & Hl'). rewrite Hl in Hl'.
  injection Hl' as <-.
  match type of Hrun with context [rollback_spends (acc_id ?u) _ _] => set (user := u) in * end.
  assert (acc_id user = acc_id a ∧ acc_address user = acc_address a ∧
    acc_scan_height user = Z.min height (acc_scan_height a)) as (Hui & Hua & Hus).
  { unfold user. by destruct (_ <=? _). }
  apply expect_bind_ok in Hrun as (d1 & H1 & Hrun).
  apply expect_bind_ok in Hrun as ([user' d2] & H2 & Hrun).
  apply expect_bind_ok in Hrun as (lk & _ & [-> _]%put_nodup_Ok).
  assert (touches [outputs; spends; images; subaddress_ranges; subaddress_indexes] d d2 ∧
    acc_id user' = acc_id a ∧ acc_address user' = acc_address a ∧
    acc_scan_height user' = Z.min height (acc_scan_height a)) as (Ht & Hui' & Hua' & Hus').
  { assert (touches [outputs; spends; images; subaddress_ranges; subaddress_indexes] d d1) as Ht1.
    { etrans; [eapply touches_weaken, touches_rollback_outputs; set_solver|].
      eapply touches_weaken, touches_rollback_spends, H1; set_solver. }
    destruct (_ && _); [|injection H2 as <- <-; done].
    apply do_lookahead_user_ok in H2 as [Ht2 [fail ->]]. split; [|done].
    etrans; [exact Ht1|]. eapply touches_weaken, Ht2; set_solver. }
  exists (lk_status (aba_lookup v)), a, user'. split_and!; [done..|].
  assert (aba_lookup v = AccountLookup (acc_id a) (lk_status (aba_lookup v))) as E by by rewrite Hve.
  rewrite Hui', E. unfold put_account. cbn [lk_status].
  apply touches_put_both, touches_del_both, touches_put_both. exact Ht.
Qed.

Lemma change_height_ok fuel cursors height address lookahead max d d' :
  accounts_ok d → change_height fuel cursors height address lookahead max d = Ok d' →
  (∀ s a, a ∈ dups accounts s d → view_public (acc_address a) = view_public address →
     height <= acc_scan_height a) →
  accounts_ok d' ∧
  (∀ k, dups requests k d' = dups requests k d) ∧
  ∀ s a', a' ∈ dups accounts s d' → a' ∈ dups accounts s d ∨
    (view_public (acc_address a') = view_public address ∧ acc_scan_height a' = height).
Proof.
  intros Hok Hrun Hle.
  apply change_height_effect in Hrun as (s & a & a' & Ha & Hv & Hid & Had & Hsc & Ht); [|done].
  specialize (Hle _ _ Ha Hv). rewrite Z.min_l in Hsc by done. subst height. split_and!.
  - eapply accounts_ok_touches; [exact Ht|set_solver..|]. by apply move_account_ok.
  - intros k. rewrite (Ht requests) by set_solver.
    rewrite (dups_put_other accounts_by_height _ _ _ requests) by done.
    rewrite (dups_del_other accounts_by_height _ _ _ requests) by done.
    by rewrite (dups_put_other accounts _ _ _ requests) by done.
  - intros s' x. rewrite (Ht accounts) by set_solver.
    rewrite (dups_put_other accounts_by_height _ _ _ accounts) by done.
    rewrite (dups_del_other accounts_by_height _ _ _ accounts) by done.
    rewrite (elem_of_put_account d s a a') by (apply Hok || done).
    intros [[-> ->]|[Hx _]]; [right|by left]. by rewrite Had.
Qed.

(** *** Rolling back the accounts *)

(** The invariant of the loop of [rollback_accounts]: the accounts [pending]
    have their new height, but are in no entry of [accounts_by_height]. *)
Record rolling (nh : Z) (pending : list account_lookup) (d : db L) : Prop := {
  ro_address v :
    v ∈ dups accounts_by_address by_address_version d ↔
      ∃ s a, a ∈ dups accounts s d ∧ v = address_entry s a;
  ro_height h lookup :
    lookup ∈ dups accounts_by_height h d ↔ has_height d h lookup ∧ lookup ∉ pending;
  ro_pending lookup : lookup ∈ pending → has_height d nh lookup;
  ro_unique : ids_unique d
}.

Lemma rolling_done nh pending d :
  rolling nh pending d → accounts_ok (bulk_insert accounts_by_height nh pending d).
Proof.
  intros [Ha Hh Hp Hu].
  assert (touches [accounts_by_height] d (bulk_insert accounts_by_height nh pending d)) as Ht.
  { apply touches_bulk_insert. set_solver. }
  assert (∀ s, dups accounts s (bulk_insert accounts_by_height nh pending d) = dups accounts s d) as Hacc.
  { intros s. apply Ht. set_solver. }
  split.
  - intros v. rewrite (Ht accounts_by_address) by set_solver. rewrite Ha. by setoid_rewrite Hacc.
  - intros h lk. unfold has_height. rewrite Hacc. fold (has_height d h lk). split.
    + intros [Hlk|[-> Hlk]]%(bulk_insert_from accounts_by_height); [by apply Hh in Hlk as []|by apply Hp].
    + intros Hlk. destruct (decide (lk ∈ pending)) as [Hin|Hout].
      2: { apply (bulk_insert_keeps accounts_by_height), Hh. done. }
      destruct Hlk as (a & Hain & Hai & Hah). destruct (Hp _ Hin) as (a' & Hain' & Hai' & Hah').
      destruct (Hu _ _ _ _ Hain Hain' ltac:(congruence)) as [_ <-]. assert (h = nh) as -> by congruence.
      destruct (bulk_insert_present accounts_by_height nh pending d lk Hin) as (w & Hw & Hwid).
      simpl in Hwid. assert (w = lk) as <-; [|done].
      assert (has_height d nh w) as (b & Hb & Hbi & _).
      { apply (bulk_insert_from accounts_by_height) in Hw as [Hw|[_ Hw]]; [by apply Hh in Hw as []|by apply Hp]. }
      destruct (Hu _ _ _ _ Hb Hain ltac:(congruence)) as [Hst _].
      destruct w, lk; simpl in *. congruence.
  - intros s s' a a'. rewrite !Hacc. apply Hu.
Qed.

(** One account gets the new height and leaves [accounts_by_height]. *)
Lemma rolling_move nh pending d d' s a a' :
  rolling nh pending d → a ∈ dups accounts s d → AccountLookup (acc_id a) s ∉ pending →
  acc_id a' = acc_id a → acc_address a' = acc_address a → acc_scan_height a' = nh →
  (∀ s', dups accounts s' d' = dups accounts s' (put accounts s a' d)) →
  (∀ k, dups accounts_by_address k d' = dups accounts_by_address k d) →
  (∀ h lk, lk ∈ dups accounts_by_height h d' ↔
     lk ∈ dups accounts_by_height h d ∧ (h = acc_scan_height a → lk_id lk ≠ acc_id a)) →
  rolling nh (pending ++ [AccountLookup (acc_id a) s]) d'.
Proof.
  intros [Ha Hh Hp Hu] Hain Hnp Hid Had Hsc Hacc0 Hba Hbh.
  assert (∀ s' x, x ∈ dups accounts s' d' ↔
    (s' = s ∧ x = a') ∨ (x ∈ dups accounts s' d ∧ acc_id x ≠ acc_id a)) as Hacc.
  { intros s' x. rewrite Hacc0. by apply elem_of_put_account. }
  assert (∀ h lk, has_height d h lk → lk_id lk ≠ acc_id a → has_height d' h lk) as Hkeep.
  { intros h lk (x & Hx & Hi & Hs) Hne. exists x. split; [|done]. apply Hacc. right.
    split; [done|congruence]. }
  split.
  - intros v. rewrite Hba, Ha. setoid_rewrite Hacc. unfold address_entry. split.
    + intros (s1 & x & Hx & ->). destruct (decide (acc_id x = acc_id a)) as [Heq|Hne].
      * destruct (Hu _ _ _ _ Hx Hain Heq) as [-> ->]. exists s, a'. rewrite Hid, Had. by split; [left|].
      * exists s1, x. by split; [right|].
    + intros (s1 & x & [[-> ->]|[Hx Hne]] & ->); [exists s, a; by rewrite Hid, Had|by exists s1, x].
  - intros h lk. rewrite Hbh, Hh, elem_of_app, list_elem_of_singleton. split.
    + intros [[Hhh Hnpl] Hne]. assert (lk_id lk ≠ acc_id a) as Hni.
      { intros Heq. destruct Hhh as (x & Hx & Hi & Hs).
        destruct (Hu _ _ _ _ Hx Hain ltac:(congruence)) as [_ ->]. apply Hne; congruence. }
      split; [by apply Hkeep|]. intros [?| ->]; done.
    + intros [(x & [[Hst ->]|[Hx Hne]]%Hacc & Hi & Hs) Hnpl].
      * exfalso. apply Hnpl. right. destruct lk; simpl in *. congruence.
      * split; [|intros _; congruence]. split; [by exists x|]. intros ?. apply Hnpl. by left.
  - intros lk [Hlk| ->%list_elem_of_singleton]%elem_of_app.
    + apply Hkeep; [by apply Hp|]. intros Heq. apply Hnp.
      destruct (Hp _ Hlk) as (x & Hx & Hi & _).
      destruct (Hu _ _ _ _ Hx Hain ltac:(congruence)) as [Hst _].
      assert (AccountLookup (acc_id a) s = lk) as ->; [|done]. destruct lk; simpl in *. congruence.
    + exists a'. split_and!; [|done|done]. apply Hacc. by left.
  - intros s1 s2 x y. rewrite !Hacc.
    intros [[-> ->]|[Hx Hnx]] [[-> ->]|[Hy Hny]] Heq; [done|congruence|congruence|by eapply Hu].
Qed.

Lemma rolling_step height nh pending d h lookup st' :
  rolling nh pending d → lookup ∈ dups accounts_by_height h d →
  rollback_account height nh (pending, d) (h, lookup) = Ok st' →
  rolling nh st'.1 st'.2 ∧
  (∀ h' lk, lk ∈ dups accounts_by_height h' d → lk_id lk ≠ lk_id lookup →
    lk ∈ dups accounts_by_height h' st'.2) ∧
  (∀ h' lk, lk ∈ dups accounts_by_height h' st'.2 →
    lk ∈ dups accounts_by_height h' d ∧ (h', lk) ≠ (h, lookup)).
Proof.
  intros Hr Hin Hrun. pose proof Hr as [_ Hh _ Hu]. unfold rollback_account in Hrun.
  apply expect_bind_ok in Hrun as (a & Hga%of_option_ok & Hrun).
  apply (get_both_Some accounts) in Hga as [Hain Hid]. simpl in Hid.
  apply expect_bind_ok in Hrun as (d1 & H1 & [= <-]). cbn [fst snd].
  set (a' := with_heights nh (Z.min nh (acc_start_height a)) a) in *.
  change (acc_id a') with (acc_id a) in *.
  assert (AccountLookup (acc_id a) (lk_status lookup) = lookup) as Hlk.
  { destruct lookup; simpl in *. congruence. }
  assert (touches [outputs; spends; images] (put accounts (lk_status lookup) a' d) d1) as Ht.
  { etrans; [eapply touches_weaken, touches_rollback_outputs; set_solver|].
    eapply touches_weaken, touches_rollback_spends, H1; set_solver. }
  apply Hh in Hin as [(a0 & Ha0 & Hi0 & Hsc) Hnp].
  assert (a0 = a) as -> by (destruct (Hu _ _ _ _ Ha0 Hain ltac:(congruence)) as [_ ?]; done).
  assert (∀ h' lk, lk ∈ dups accounts_by_height h' (del accounts_by_height h (lk_id lookup) d1) ↔
    lk ∈ dups accounts_by_height h' d ∧ (h = h' → lk_id lk ≠ lk_id lookup)) as Hbh.
  { intros h' lk. rewrite (elem_of_dups_del accounts_by_height).
    rewrite (Ht accounts_by_height) by set_solver.
    by rewrite (dups_put_other accounts _ _ _ accounts_by_height) by done. }
  split_and!.
  - apply (rolling_move _ _ d _ _ _ a'); try done; [by rewrite Hlk| | |].
    + intros s'. rewrite (dups_del_other accounts_by_height _ _ _ accounts) by done.
      apply Ht. set_solver.
    + intros k. rewrite (dups_del_other accounts_by_height _ _ _ accounts_by_address) by done.
      rewrite (Ht accounts_by_address) by set_solver.
      by rewrite (dups_put_other accounts _ _ _ accounts_by_address) by done.
    + intros h' lk. rewrite Hbh, Hid, Hsc. split; intros [? Hne]; (split; [done|]); intros ->; by apply Hne.
  - intros h' lk Hin' Hne. apply Hbh. by split.
  - intros h' lk [Hin' Hne]%Hbh. split; [done|]. intros [= -> ->]. by apply Hne.
Qed.

Lemma by_height_from_elem height d h lk :
  (h, lk) ∈ by_height_from height d ↔ lk ∈ dups accounts_by_height h d ∧ height <= h.
Proof.
  unfold by_height_from. rewrite (elem_of_drop_while (λ e e', e.1 <= e'.1)).
  - unfold dups. rewrite (elem_of_mdb_all (spec_of accounts_by_height)), Z.ltb_ge. done.
  - apply (mdb_all_keys_sorted (spec_of accounts_by_height)).
    + intros k. lia.
    + intros k k' Hk. apply Z.lt_le_incl. by apply Z.compare_lt_iff.
  - intros [a x] [b y] Hab ?%Z.ltb_lt. apply Z.ltb_lt. by eapply Z.le_lt_trans.
Qed.

(** The entries of [accounts_by_height] are of different accounts. *)
Lemma by_height_ids d height :
  accounts_ok d →
  StronglySorted (λ e e' : Z * account_lookup, lk_id e.2 ≠ lk_id e'.2) (by_height_from height d).
Proof.
  intros Hok.
  assert (∀ e, e ∈ by_height_from height d → has_height d e.1 e.2) as Hall.
  { intros [h lk] [Hlk _]%by_height_from_elem. by apply (ao_height _ Hok). }
  pose proof (sorted_drop_while _ (λ e, e.1 <? height) _
    (mdb_all_sorted (spec_of accounts_by_height) (d accounts_by_height))) as Hs.
  change (drop_while _ _) with (by_height_from height d) in Hs.
  revert Hs Hall. generalize (by_height_from height d) as l. intros l Hs.
  induction Hs as [|e l Hl IH He]; intros Hall; constructor.
  - apply IH. intros e' He'. apply Hall. by right.
  - rewrite Forall_forall in He. apply Forall_forall. intros e' He' Heq.
    destruct (Hall e ltac:(left)) as (a & Ha & Hi & Hh).
    destruct (Hall e' ltac:(by right)) as (a' & Ha' & Hi' & Hh').
    destruct (ao_unique _ Hok _ _ _ _ Ha Ha' ltac:(congruence)) as [_ <-].
    specialize (He e' He' (eq_trans (eq_sym Hh) Hh')). by apply (dup_lt_neq accounts_by_height_spec) in He.
Qed.

Lemma rolling_loop height nh l pending d st' :
  rolling nh pending d →
  (∀ e, e ∈ l → e.2 ∈ dups accounts_by_height e.1 d) →
  StronglySorted (λ e e' : Z * account_lookup, lk_id e.2 ≠ lk_id e'.2) l →
  fold_err (rollback_account height nh) (pending, d) l = Ok st' →
  rolling nh st'.1 st'.2 ∧
  ∀ h lk, lk ∈ dups accounts_by_height h st'.2 → lk ∈ dups accounts_by_height h d ∧ (h, lk) ∉ l.
Proof.
  intros Hr Hin Hs. revert pending d Hr Hin. induction Hs as [|[h lk] l Hl IH He]; intros pending d Hr Hin Hrun.
  { injection Hrun as <-. split; [done|]. intros h lk Hlk. split; [done|]. apply not_elem_of_nil. }
  simpl in Hrun. apply expect_bind_ok in Hrun as ([p1 d1] & H1 & Hrun).
  destruct (rolling_step _ _ _ _ _ _ _ Hr (Hin (h, lk) ltac:(left)) H1) as (Hr1 & Hkeep & Hfrom).
  rewrite Forall_forall in He. destruct (IH p1 d1 Hr1) as [Hr2 Hfrom2]; [|exact Hrun|].
  - intros e' He'. apply Hkeep; [by apply Hin; right|]. intros Heq. by apply (He e' He').
  - split; [done|]. intros h' lk' [Hlk Hn]%Hfrom2. apply Hfrom in Hlk as [Hlk Hne].
    split; [done|]. by intros [Heq|Hin']%elem_of_cons.
Qed.

Lemma rollback_accounts_ok height d d' :
  accounts_ok d → rollback_accounts height d = Ok d' →
  accounts_ok d' ∧
  ∀ s a, a ∈ dups accounts s d' → acc_scan_height a < Z.max height 1.
Proof.
  intros Hok Hrun. unfold rollback_accounts in Hrun.
  apply expect_bind_ok in Hrun as ([pending d1] & H1 & [= <-]).
  apply rolling_loop in H1 as [Hr Hfrom]; cbn [fst snd] in *.
  - split; [by apply rolling_done|]. intros s a Ha.
    assert (accounts_ok (bulk_insert accounts_by_height (Z.max height 1 - 1) pending d1)) as Hok'
      by by apply rolling_done.
    assert (AccountLookup (acc_id a) s ∈ dups accounts_by_height (acc_scan_height a)
      (bulk_insert accounts_by_height (Z.max height 1 - 1) pending d1)) as Hlk
      by (apply (ao_height _ Hok'); by exists a).
    apply (bulk_insert_from accounts_by_height) in Hlk as [Hlk|[<- _]]; [|lia].
    apply Hfrom in Hlk as [Hlk Hn]. destruct (decide (height <= acc_scan_height a)); [|lia].
    destruct Hn. by apply by_height_from_elem.
  - destruct Hok as [Ha Hh Hu]. split; [done| |by intros ? ?%elem_of_nil|done].
    intros h lk. rewrite Hh. split; [|by intros []]. intros ?. split; [done|]. apply not_elem_of_nil.
  - intros [h lk] [Hlk _]%by_height_from_elem. done.
  - by apply by_height_ids.
Qed.

(** Rolling back keeps the account tables consistent and leaves no account
    that claims to have scanned a block at or above the height rolled back to. *)
Theorem rollback_accounts_consistent height d d' :
  accounts_ok d → rollback_accounts height d = Ok d' →
  accounts_ok d' ∧
  ∀ s a, a ∈ dups accounts s d' → acc_scan_height a < Z.max height 1.
Proof. apply rollback_accounts_ok. Qed.

(** *** The other operations *)

Lemma collect_changed_ok (P : db L → Prop) changed address st st' :
  P st.2 → (∀ d, changed = Ok d → P d) → collect_changed changed address st = Ok st' → P st'.2.
Proof.
  unfold collect_changed. intros Hst Hc. destruct changed; [intros [= <-]; by apply Hc|].
  destruct (decide _); [by intros [= <-]|done].
Qed.

Lemma touches_accounts_ok T d d' :
  touches T d d' → T ⊆ [blocks; pows; outputs; spends; images; confirmed_spends;
    imported_spend_sources; pending_spends; requests; webhooks; events_by_account_id;
    subaddress_ranges; subaddress_indexes] →
  accounts_ok d → accounts_ok d'.
Proof. intros Ht HT. apply (accounts_ok_touches _ _ _ Ht); intros ?%HT; set_solver. Qed.

(** The bound under which ids do not wrap. *)
Definition ids_below (bound : Z) (d : db L) : Prop := ∀ s a, a ∈ dups accounts s d → acc_id a <= bound.

Lemma do_add_account_accounts user d d' s a :
  do_add_account user d = Ok d' → a ∈ dups accounts s d' → a = user ∨ a ∈ dups accounts s d.
Proof.
  intros Hrun Ha. unfold do_add_account in Hrun.
  apply expect_bind_ok in Hrun as (verify & _ & Hrun). apply expect_bind_ok in Hrun as (_ & _ & Hrun).
  apply expect_bind_ok in Hrun as (d1 & Hd1 & Hrun).
  destruct (put_nodup accounts_by_address _ _ _) as [d1'|] eqn:E1; [|done]. injection Hd1 as <-.
  apply put_nodup_Ok in E1 as [-> _].
  apply expect_bind_ok in Hrun as (d2 & [-> _]%put_nodup_Ok & [-> _]%put_nodup_Ok).
  apply (elem_of_dups_put accounts) in Ha as [[_ ->]|[Ha _]]; [by left|right].
  rewrite (dups_put_other accounts_by_height _ _ _ accounts) in Ha by done.
  by rewrite (dups_put_other accounts_by_address _ _ _ accounts) in Ha by done.
Qed.

Lemma create_account_ok fuel now max st address st' :
  accounts_ok st.2 → ids_below st.1.2 st.2 → 0 <= st.1.2 < u32_max →
  create_account fuel now max st address = Ok st' →
  accounts_ok st'.2 ∧ ids_below st'.1.2 st'.2 ∧ 0 <= st'.1.2 < u32_max.
Proof.
  destruct st as [[stored last_id] d]. cbn [fst snd]. intros Hok Hids Hlast Hrun.
  unfold create_account in Hrun.
  destruct (get_both _ _ _ _) as [info|]; [|by injection Hrun as <-].
  apply expect_bind_ok in Hrun as (_ & Hg%guard_err_ok & Hrun).
  apply negb_true_iff, Z.eqb_neq in Hg. unfold account_id_invalid in Hg.
  assert (wrap 32 (last_id + 1) = last_id + 1) as Hw by (apply wrap_small; unfold u32_max in *; lia).
  rewrite Hw in Hg. apply expect_bind_ok in Hrun as ([user d1] & H1 & Hrun).
  assert (touches [requests; subaddress_ranges; subaddress_indexes] d d1 ∧ acc_id user = last_id + 1)
    as [Ht Hid].
  { destruct (negb _).
    - apply do_lookahead_user_ok in H1 as [Ht [fail ->]]. split; [|done].
      etrans; [apply touches_del|eapply touches_weaken, Ht]; set_solver.
    - injection H1 as <- <-. split; [apply touches_del; set_solver|done]. }
  assert (accounts_ok d1) as Hok1 by (eapply touches_accounts_ok; [exact Ht|set_solver|done]).
  assert (∀ s, dups accounts s d1 = dups accounts s d) as Hacc by (intros s; apply Ht; set_solver).
  destruct (do_add_account user d1) as [d2|e] eqn:E.
  - injection Hrun as <-. cbn [fst snd]. rewrite Hw. split_and!; [|intros s a Ha|lia|lia].
    + eapply do_add_account_ok; [exact Hok1| |exact E]. intros s a. rewrite Hacc. intros Ha%Hids. lia.
    + apply (do_add_account_accounts _ _ _ _ _ E) in Ha as [->|Ha]; [lia|].
      rewrite Hacc in Ha. apply Hids in Ha. lia.
  - destruct (decide _); [|done]. injection Hrun as <-. cbn [fst snd].
    split_and!; [done|intros s a; rewrite Hacc; apply Hids|lia|lia].
Qed.

Lemma create_accounts_ok fuel now addresses max d stored d' :
  accounts_ok d → find_last_id d < u32_max → 0 <= find_last_id d →
  create_accounts fuel now addresses max d = Ok (stored, d') → accounts_ok d'.
Proof.
  intros Hok Hlast H0 Hrun. unfold create_accounts in Hrun.
  apply expect_bind_ok in Hrun as (t & _ & Hrun).
  apply expect_bind_ok in Hrun as ([[stored1 last1] d1] & H1 & [= <- <-]).
  apply (fold_err_invariant (λ st,
    accounts_ok st.2 ∧ ids_below st.1.2 st.2 ∧ 0 <= st.1.2 < u32_max)) in H1; [by destruct H1| |].
  - split_and!; [done| |done|done]. intros s a. apply find_last_id_max.
  - intros st a st' _ (Hs1 & Hs2 & Hs3) Hr. by eapply create_account_ok.
Qed.

Lemma update_lookahead_ok address height matched max d r d' :
  accounts_ok d → update_lookahead address height matched max d = Ok (r, d') → accounts_ok d'.
Proof.
  intros Hok Hrun. unfold update_lookahead in Hrun.
  apply expect_bind_ok in Hrun as (v & Hv%of_option_ok & Hrun).
  apply expect_bind_ok in Hrun as (user & Hl & Hrun).
  destruct (find_by_address_ok _ _ _ Hok Hv) as (a & Ha & _ & _ & Hl'). rewrite Hl in Hl'.
  injection Hl' as ->. destruct (_ || _); [by injection Hrun as <- <-|].
  match type of Hrun with (let '(_, _) := ?x in _) = _ => destruct x as [upserted d1] eqn:E end.
  assert (touches [subaddress_ranges; subaddress_indexes] d d1) as Ht.
  { destruct (_ && _); [by eapply touches_do_upsert|by injection E as <- <-]. }
  assert (accounts_ok d1) as Hok1 by (eapply touches_accounts_ok; [exact Ht|set_solver|done]).
  destruct upserted as [out|e]; [by injection Hrun as <- <-|].
  apply expect_bind_ok in Hrun as (_ & _ & [= <- <-]).
  apply (put_account_ok _ _ a); try done. rewrite (Ht accounts); [done|set_solver].
Qed.

Lemma rollback_chain_ok cur height d d' :
  accounts_ok d → rollback_chain cur height d = Ok d' → accounts_ok d'.
Proof.
  unfold rollback_chain. intros Hok (d1 & H1 & [= <-])%expect_bind_ok.
  eapply (touches_accounts_ok [events_by_account_id]); [apply touches_rollback_events|set_solver|].
  eapply rollback_accounts_ok; [|exact H1].
  eapply (touches_accounts_ok [blocks; pows]); [|set_solver|exact Hok].
  etrans; [|apply touches_foldl; intros; apply touches_del; set_solver].
  apply touches_foldl; intros; apply touches_del; set_solver.
Qed.

(** Accounts of the addresses have scanned at least up to [height]. *)
Definition scanned_to (height : Z) (address : account_address) (d : db L) : Prop :=
  ∀ s a, a ∈ dups accounts s d → view_public (acc_address a) = view_public address →
    height <= acc_scan_height a.

Lemma rescan_ok height addresses d changed d' :
  accounts_ok d → (∀ address, address ∈ addresses → scanned_to height address d) →
  rescan height addresses d = Ok (changed, d') → accounts_ok d'.
Proof.
  intros Hok Hle Hrun. unfold rescan in Hrun.
  apply expect_bind_ok in Hrun as (cur & _ & Hrun). apply expect_bind_ok in Hrun as (_ & _ & Hrun).
  apply (fold_err_invariant (λ st, accounts_ok st.2 ∧
    ∀ address, address ∈ addresses → scanned_to height address st.2)) in Hrun; [by destruct Hrun|done|].
  intros st address st' Hin [Hst1 Hst2] Hc.
  eapply (collect_changed_ok (λ d, accounts_ok d ∧
    ∀ address, address ∈ addresses → scanned_to height address d)); [by split| |exact Hc].
  intros d1 H1. apply change_height_ok in H1 as (Hok1 & _ & Hfrom); [|done|by apply Hst2].
  split; [done|]. intros address1 Hin1 s a [Ha|[_ ->]]%Hfrom Hv; [|lia]. by apply (Hst2 address1 Hin1 s).
Qed.

Lemma import_accounts_ok fuel addresses max d changed d' :
  accounts_ok d → NoDup (view_public <$> addresses) →
  (∀ address info, address ∈ addresses →
     get_both requests import_scan (spend_public address) d = Some info →
     scanned_to (ri_start_height info) address d) →
  import_accounts fuel addresses max d = Ok (changed, d') → accounts_ok d'.
Proof.
  unfold import_accounts. generalize (@nil account_address) as acc.
  revert d. induction addresses as [|address addresses IH]; intros d acc Hok Hnd Hle Hrun.
  { by injection Hrun as <- <-. }
  simpl in Hrun. apply expect_bind_ok in Hrun as ([acc1 d1] & H1 & Hrun).
  rewrite fmap_cons in Hnd. apply NoDup_cons in Hnd as [Hnew Hnd].
  assert (∀ a info, a ∈ addresses → get_both requests import_scan (spend_public a) d = Some info →
    scanned_to (ri_start_height info) a d) as Hle' by (intros ? ? ?; apply Hle; by right).
  assert (accounts_ok d1 ∧
    (∀ r, r ∈ dups requests import_scan d1 → r ∈ dups requests import_scan d) ∧
    ∀ s a', a' ∈ dups accounts s d1 →
      a' ∈ dups accounts s d ∨ view_public (acc_address a') = view_public address) as (Hok1 & Hreq & Hfrom).
  { unfold import_account in H1. cbn [fst snd] in H1.
    destruct (get_both requests _ _ _) as [info|] eqn:E; [|injection H1 as <- <-; auto].
    set (d2 := del requests import_scan (spend_public address) d) in *.
    assert (touches [requests] d d2) as Ht by (apply touches_del; set_solver).
    assert (accounts_ok d2) as Hok2 by (eapply touches_accounts_ok; [exact Ht|set_solver|done]).
    assert (∀ r, r ∈ dups requests import_scan d2 → r ∈ dups requests import_scan d) as Hr2
      by by intros r [? _]%(elem_of_dups_del requests).
    assert (∀ s, dups accounts s d2 = dups accounts s d) as Ha2 by (intros s; apply Ht; set_solver).
    apply (collect_changed_ok (λ d1, accounts_ok d1 ∧
      (∀ r, r ∈ dups requests import_scan d1 → r ∈ dups requests import_scan d) ∧
      ∀ s a', a' ∈ dups accounts s d1 →
        a' ∈ dups accounts s d ∨ view_public (acc_address a') = view_public address)) in H1; [exact H1|..].
    - cbn [snd]. split_and!; [done|done|]. intros s a'. rewrite Ha2. by left.
    - intros d3 H3. apply change_height_ok in H3 as (Hok3 & Hr3 & Hf3); [|done|].
      + split_and!; [done|intros r; by rewrite Hr3; apply Hr2|].
        intros s a' [Ha|[Hv _]]%Hf3; [left; by rewrite <-Ha2|by right].
      + intros s a. rewrite Ha2. apply (Hle address info); [by left|done]. }
  eapply (IH d1 acc1 Hok1 Hnd); [|exact Hrun]. intros a info Hin Hg s x Hx Hv.
  apply (get_both_Some requests) in Hg as [Hg%Hreq Hgs].
  apply Hfrom in Hx as [Hx|Hx].
  - eapply Hle'; [exact Hin|by apply (get_both_Some requests)|exact Hx|exact Hv].
  - destruct Hnew. rewrite <-Hx, Hv. by apply list_elem_of_fmap_2.
Qed.

Lemma sync_chain_ok `{C : ChainConfig} height hashes regtest d d' :
  accounts_ok d → sync_chain height hashes regtest d = Ok d' → accounts_ok d'.
Proof.
  intros Hok Hrun. unfold sync_chain in Hrun. destruct hashes as [|first chain]; [done|].
  apply expect_bind_ok in Hrun as (hash & _ & Hrun). apply expect_bind_ok in Hrun as (_ & _ & Hrun).
  apply expect_bind_ok in Hrun as ([[current rest] d1] & Hloop & [= <-]).
  assert (accounts_ok d1) as Hok1.
  { clear hash first. revert Hloop Hok. generalize (wrap 64 (height + 1)).
    generalize (tail (seek blocks blocks_version height d)). cbn [spec_of blocks_spec ts_val].
    induction chain as [|x chain IH]; intros cur c Hloop Hok; [by destruct cur; injection Hloop as <- <- <-|].
    destruct cur as [|b cur]; [by injection Hloop as <- <- <-|]. simpl in Hloop.
    destruct (_ =? _); [by eapply IH|].
    apply expect_bind_ok in Hloop as (_ & _ & Hloop). apply expect_bind_ok in Hloop as (d2 & Hr & [= <- <- <-]).
    by eapply rollback_chain_ok. }
  eapply (touches_accounts_ok [blocks]); [apply touches_append_block_hashes|set_solver|exact Hok1].
Qed.
End consistency.

(** ** Witnesses *)

Definition test_address (n : Z) : account_address := AccountAddress n (n + 10).

(** The chain of [Chain.chain_db] with an account, at height 4. *)
Definition account_db : db ListDb.lmdb :=
  match add_account (H := test_crypto) 1000 (test_address 6) 6 0 chain_db with
  | Ok d => d
  | Err _ => empty_db
  end.

Definition test_account (id n height : Z) : account :=
  {| acc_id := id; acc_access := 1000; acc_address := test_address n; acc_key := n;
     acc_scan_height := height; acc_start_height := height; acc_creation := 1000; acc_flags := 0;
     acc_lookahead := AddressIndex 0 0; acc_lookahead_fail := 0 |}.

Lemma account_db_ok : accounts_ok account_db.
Proof.
  eapply (add_account_ok (H := test_crypto) 1000 (test_address 6) 6 0 chain_db).
  - apply no_accounts_ok; reflexivity.
  - vm_compute. split; [discriminate|reflexivity].
  - reflexivity.
Qed.

Lemma get_account_sound_witness :
  test_account 1 6 4 ∈ dups accounts active account_db ∧
  get_account (test_address 6) account_db = Ok (active, test_account 1 6 4).
Proof.
  assert (test_account 1 6 4 ∈ dups accounts active account_db) as Hin by (vm_compute; left).
  split; [exact Hin|].
  apply (get_account_sound account_db (test_address 6) active (test_account 1 6 4) account_db_ok).
  split; [exact Hin|reflexivity].
Defined.

Definition rolled_db : db ListDb.lmdb :=
  match rollback_accounts 3 account_db with Ok d => d | Err _ => empty_db end.

Lemma rollback_accounts_consistent_witness :
  rollback_accounts 3 account_db = Ok rolled_db ∧ accounts_ok rolled_db ∧
  test_account 1 6 2 ∈ dups accounts active rolled_db.
Proof.
  assert (rollback_accounts 3 account_db = Ok rolled_db) as Hrun by reflexivity.
  split; [exact Hrun|]. split; [|vm_compute; left].
  exact (proj1 (rollback_accounts_consistent 3 account_db rolled_db account_db_ok Hrun)).
Defined.

(** ** A height above the scan height *)

(** Two more blocks after the height of the account. *)
Definition chain_and_account_db : db ListDb.lmdb :=
  bulk_put blocks blocks_version (infos 5 [105; 106]) account_db.

(** [change_height] files an account under the height asked for, also when
    the scan height stays lower: a [rescan] from a height above that of the
    account, which the guard against the height of the chain lets through,
    leaves it at its height but indexed under the other one, and changing its
    status then fails. *)
Theorem rescan_above_scan_height :
  (∃ d, rescan (H := test_crypto) 6 [test_address 6] chain_and_account_db = Ok ([test_address 6], d) ∧
     test_account 1 6 4 ∈ dups accounts active d ∧
     AccountLookup 1 active ∈ dups accounts_by_height 6 d ∧
     change_status inactive [test_address 6] d = Err mdb_notfound) ∧
  accounts_ok chain_and_account_db.
Proof.
  split.
  - eexists. split; [reflexivity|]. split_and!; [vm_compute; left..|reflexivity].
  - eapply (touches_accounts_ok [blocks]); [apply touches_bulk_put; set_solver|set_solver|].
    apply account_db_ok.
Qed.

(** ** Leftovers of a request that is not stored *)

Definition creation_info (n : Z) (lookahead : address_index) : request_info :=
  RequestInfo (test_address n) n 4 1000 0 lookahead.

(** Creation requests for the existing account, with a lookahead, and for a new one. *)
Definition requests_db : db ListDb.lmdb :=
  put requests create (creation_info 7 (AddressIndex 0 0))
    (put requests create (creation_info 6 (AddressIndex 1 2)) account_db).

(** When a creation request is accepted whose account exists by now, the
    account is not stored but the subaddresses of its lookahead are, under the
    id that the next account created gets: that account then owns the
    subaddresses of another one. *)
Theorem create_accounts_foreign_indexes :
  let create := create_accounts (H := test_crypto) 10 1000 [test_address 6; test_address 7] 100 requests_db in
  ∃ d e, create = Ok ([test_address 7], d) ∧
    test_account 2 7 4 ∈ dups accounts active d ∧
    e ∈ dups subaddress_indexes 2 d ∧
    sm_subaddress e = get_spend_public (H := test_crypto) (sm_index e) (test_address 6) 6 ∧
    sm_subaddress e ≠ get_spend_public (H := test_crypto) (sm_index e) (test_address 7) 7.
Proof.
  eexists _, _. split; [reflexivity|]. split; [vm_compute; right; left|].
  split; [vm_compute; left|]. split; vm_compute; [reflexivity|discriminate].
Qed.
