(* ===== verification/Account.v ===== *)
(** * An account while it is scanned (src/src/db/account.h, src/src/db/account.cpp)

    [lws::account] holds what the scanner needs of a database account: its keys,
    the output ids it can recognise as spends, the one-time public keys it has
    seen, and the outputs and spends found since the last check-in.  The two
    lookup vectors are kept sorted and searched with [std::lower_bound]. *)

From S2P Require Import Prelude Lmdb Data.

(** [account::internal]; [in_address] is the base58 string of the address. *)
Record internal := Internal {
  in_address : string;
  in_id : Z;
  in_pubs : account_address;
  in_view_key : Z
}.

Definition spendable_entry : Type := output_id * address_index.

(** [immutable_] is [None] after the object was moved from. *)
Record lws_account := LwsAccount {
  la_immutable : option internal;
  la_spendable : list spendable_entry;
  la_pubs : list Z;
  la_spends : list spend;
  la_outputs : list output;
  la_height : Z
}.

(** [operator<] of [std::pair<db::output_id, db::address_index>] *)
Definition spendable_cmp : spendable_entry → spendable_entry → comparison :=
  lex_cmp output_id_cmp address_index_cmp.
Definition spendable_ltb (l r : spendable_entry) : bool := cmp_ltb (spendable_cmp l r).
Definition spendable_leb (l r : spendable_entry) : bool := negb (spendable_ltb r l).

(** ** Operations *)

Section account.
Context (address_string : account_address → string).

Definition make_internal (source : account) : internal :=
  Internal (address_string (acc_address source)) (acc_id source) (acc_address source) (acc_key source).

(** The constructor from a database account; [std::sort] of both vectors. *)
Definition make_account (source : account) (spendable : list spendable_entry) (pubs : list Z) :
    lws_account :=
  LwsAccount (Some (make_internal source)) (merge_sort (λ l r, spendable_leb l r) spendable)
    (merge_sort Z.le pubs) [] [] (acc_scan_height source).
End account.

(** [null_check] *)
Definition null_check (self : lws_account) : expect internal :=
  of_option invalid_argument (la_immutable self).

Definition clone (self : lws_account) : lws_account :=
  LwsAccount (la_immutable self) (la_spendable self) (la_pubs self) (la_spends self)
    (la_outputs self) (la_height self).

Definition updated (new_height : Z) (self : lws_account) : lws_account :=
  LwsAccount (la_immutable self) (la_spendable self) (la_pubs self) [] []
    (Z.max (la_height self) new_height).

Definition account_id (self : lws_account) : Z :=
  match la_immutable self with Some i => in_id i | None => account_id_invalid end.

Definition db_address (self : lws_account) : expect account_address :=
  in_pubs <$> null_check self.

Definition scan_height (self : lws_account) : Z := la_height self.

Definition get_spendable (id : output_id) (self : lws_account) : option address_index :=
  let searchable := (id, AddressIndex 0 0) in
  match drop (lower_bound (λ e, spendable_ltb e searchable) (la_spendable self)) (la_spendable self) with
  | [] => None
  | e :: _ => if output_id_eqb e.1 id then Some e.2 else None
  end.

Definition add_out (out : output) (self : lws_account) : bool * lws_account :=
  let existing_pub := lower_bound (λ p, p <? o_pub out) (la_pubs self) in
  if match la_pubs self !! existing_pub with Some p => p =? o_pub out | None => false end
  then (false, self)
  else
    let spendable_value := (sme_id (o_spend_meta out), o_recipient out) in
    (true,
     LwsAccount (la_immutable self)
       (insert_at (lower_bound (λ e, spendable_ltb e spendable_value) (la_spendable self))
          spendable_value (la_spendable self))
       (insert_at existing_pub (o_pub out) (la_pubs self))
       (la_spends self) (la_outputs self ++ [out]) (la_height self)).

Definition add_spend (s : spend) (self : lws_account) : lws_account :=
  LwsAccount (la_immutable self) (la_spendable self) (la_pubs self) (la_spends self ++ [s])
    (la_outputs self) (la_height self).

(** [by_height] *)
Definition by_height (l r : lws_account) : bool := scan_height l <? scan_height r.

(** ** Theorems *)

(** Both vectors are sorted, and every output found is in them. *)
Record account_sorted (self : lws_account) : Prop := {
  as_spendable : StronglySorted (λ l r, spendable_cmp l r ≠ Gt) (la_spendable self);
  as_pubs : StronglySorted Z.le (la_pubs self);
  as_outputs : Forall (λ o, o_pub o ∈ la_pubs self ∧
    (sme_id (o_spend_meta o), o_recipient o) ∈ la_spendable self) (la_outputs self);
  as_distinct : NoDup (o_pub <$> la_outputs self)
}.

(** [insert_at] of a [lower_bound] keeps a vector sorted. *)
Lemma sorted_insert_lower_bound {A} (R : A → A → Prop) (below : A → bool) x l :
  (∀ y, below y = true → R y x) → (∀ y, below y = false → R x y) → Transitive R →
  StronglySorted R l → StronglySorted R (insert_at (lower_bound below l) x l).
Proof.
  intros Hlt Hge Htrans. unfold insert_at. induction 1 as [|y l Hl IH Hy]; simpl; [by repeat constructor|].
  destruct (below y) eqn:E; simpl.
  - constructor; [done|]. rewrite Forall_forall in Hy. apply Forall_forall.
    intros z Hz. rewrite elem_of_app, elem_of_cons in Hz.
    destruct Hz as [Hz|[->|Hz]]; [apply Hy|by apply Hlt|apply Hy].
    + rewrite <-(take_drop (lower_bound below l) l). apply elem_of_app. by left.
    + rewrite <-(take_drop (lower_bound below l) l). apply elem_of_app. by right.
  - constructor; [by constructor|]. constructor; [by apply Hge|].
    eapply Forall_impl; [exact Hy|]. intros z. by apply Htrans, Hge.
Qed.

(** An output with a key seen before changes nothing. *)
Lemma add_out_duplicate out self :
  account_sorted self → o_pub out ∈ la_pubs self → add_out out self = (false, self).
Proof.
  intros [_ Hp _ _] Hin. unfold add_out.
  by rewrite (proj2 (lower_bound_lookup (o_pub out) (la_pubs self) Hp) Hin).
Qed.

(** An output is taken exactly when its one-time public key was not seen
    before, and then it is found among the outputs, the keys and the spendable
    ids; the account stays sorted. *)
Theorem add_out_spec out self :
  account_sorted self →
  let '(added, self') := add_out out self in
  account_sorted self' ∧ (added = true ↔ o_pub out ∉ la_pubs self) ∧
  la_outputs self' = la_outputs self ++ (if added then [out] else []) ∧
  (∀ p, p ∈ la_pubs self' ↔ p ∈ la_pubs self ∨ p = o_pub out) ∧
  (∀ e, e ∈ la_spendable self' ↔
     e ∈ la_spendable self ∨ (added = true ∧ e = (sme_id (o_spend_meta out), o_recipient out))).
Proof.
  intros [Hs Hp Ho Hd]. unfold add_out.
  pose proof (lower_bound_lookup (o_pub out) (la_pubs self) Hp) as Hl.
  destruct (match _ with Some _ => _ | None => _ end) eqn:E.
  - apply proj1 in Hl. specialize (Hl eq_refl). split_and!.
    + by split.
    + by split.
    + by rewrite app_nil_r.
    + intros p. split; [by left|]. by intros [?| ->].
    + intros e. split; [by left|]. by intros [?|[? _]].
  - assert (o_pub out ∉ la_pubs self) as Hnew by (intros Hin%Hl; congruence). simpl.
    set (v := (sme_id (o_spend_meta out), o_recipient out)).
    split_and!; [split; simpl| | | |].
    + apply sorted_insert_lower_bound; [| | |done].
      * intros y Hy. unfold spendable_ltb in Hy. by destruct (spendable_cmp y v).
      * intros y Hy Hgt. apply (cmp_gt_lt spendable_cmp) in Hgt. unfold spendable_ltb in Hy.
        by rewrite Hgt in Hy.
      * intros x y z Hxy Hyz Hxz. apply (cmp_gt_lt spendable_cmp) in Hxz.
        destruct (spendable_cmp x y) eqn:E1; [|clear Hxy|done].
        -- apply (cmp_eq spendable_cmp) in E1 as ->. by apply Hyz, (cmp_gt_lt spendable_cmp).
        -- apply Hyz, (cmp_gt_lt spendable_cmp). by eapply (cmp_lt_trans spendable_cmp).
    + apply sorted_insert_lower_bound; [| |apply _|done]; intros y; [rewrite Z.ltb_lt|rewrite Z.ltb_ge]; lia.
    + apply Forall_app. split; [|constructor; [|done]].
      * eapply Forall_impl; [exact Ho|]. intros o [? ?]. rewrite !elem_of_insert_at. auto.
      * rewrite !elem_of_insert_at. auto.
    + rewrite fmap_app. apply NoDup_app. split_and!; [done| |apply NoDup_singleton].
      intros p (o & -> & Hin)%list_elem_of_fmap Heq%list_elem_of_singleton. apply Hnew.
      rewrite Forall_forall in Ho. destruct (Ho o Hin) as [Hpub _]. by rewrite <-Heq.
    + done.
    + done.
    + intros p. rewrite elem_of_insert_at. tauto.
    + intros e. rewrite elem_of_insert_at. intuition.
Qed.

(** Sorted vectors put the entries of an id from its least index on. *)
Lemma get_spendable_spec id self :
  account_sorted self →
  (∀ e, e ∈ la_spendable self → 0 <= maj_i e.2 ∧ 0 <= min_i e.2) →
  match get_spendable id self with
  | Some index =>
      (id, index) ∈ la_spendable self ∧
      ∀ index', (id, index') ∈ la_spendable self → address_index_cmp index index' ≠ Gt
  | None => ∀ index, (id, index) ∉ la_spendable self
  end.
Proof.
  intros [Hs _ _ _] Hpos. unfold get_spendable. rewrite drop_lower_bound.
  induction Hs as [|e l Hl IH He]; simpl; [intros index; apply not_elem_of_nil|].
  assert (∀ e', e' ∈ l → 0 <= maj_i e'.2 ∧ 0 <= min_i e'.2) as Hpos' by (intros; by apply Hpos; right).
  specialize (IH Hpos'). rewrite Forall_forall in He.
  destruct (spendable_ltb e (id, AddressIndex 0 0)) eqn:E.
  - assert (e.1 ≠ id) as Hne.
    { intros <-. unfold spendable_ltb, spendable_cmp, lex_cmp in E. simpl in E.
      rewrite (cmp_refl output_id_cmp) in E. destruct (Hpos e ltac:(left)) as [H1 H2].
      unfold address_index_cmp, proj_cmp, lex_cmp in E. simpl in E.
      destruct (Z.compare_spec (maj_i e.2) 0); [|lia|done].
      destruct (Z.compare_spec (min_i e.2) 0); [done|lia|done]. }
    destruct (match drop_while _ l with [] => None | e :: _ => _ end) as [index|].
    + destruct IH as [Hin Hmin]. split; [by right|]. intros index' [<-|Hin']%elem_of_cons; [done|by apply Hmin].
    + intros index [<-|Hin]%elem_of_cons; [done|]. by apply IH in Hin.
  - destruct (output_id_eqb e.1 id) eqn:Eid.
    + apply output_id_eqb_eq in Eid as <-. destruct e as [i index]. simpl. split; [by left|].
      intros index' [[= <-]|Hin]%elem_of_cons; [by rewrite (cmp_refl address_index_cmp)|].
      specialize (He _ Hin). unfold spendable_cmp, lex_cmp in He. simpl in He.
      by rewrite (cmp_refl output_id_cmp) in He.
    + assert (e.1 ≠ id) as Hne by (intros ?%output_id_eqb_eq; congruence).
      intros index [<-|Hin]%elem_of_cons; [done|]. specialize (He _ Hin).
      unfold spendable_ltb, spendable_cmp, lex_cmp in *. simpl in *.
      destruct (output_id_cmp e.1 id) eqn:Ec; [by apply (cmp_eq output_id_cmp) in Ec|done|done].
Qed.

Lemma get_spendable_ok id self :
  account_sorted self →
  (∀ e, e ∈ la_spendable self → 0 <= maj_i e.2 ∧ 0 <= min_i e.2) →
  (get_spendable id self = None ↔ ∀ index, (id, index) ∉ la_spendable self) ∧
  ∀ index, get_spendable id self = Some index → (id, index) ∈ la_spendable self.
Proof.
  intros Hs Hpos. pose proof (get_spendable_spec id self Hs Hpos) as H.
  destruct (get_spendable id self) as [index|]; split.
  - split; [done|]. intros Hno. by destruct (Hno index), H.
  - by intros index' [= <-]; destruct H.
  - done.
  - done.
Qed.

(** In a sorted account an output id is reported spendable exactly when it
    was recorded, with the least address index recorded for it. *)
Theorem get_spendable_complete id self :
  account_sorted self →
  (∀ e, e ∈ la_spendable self → 0 <= maj_i e.2 ∧ 0 <= min_i e.2) →
  (get_spendable id self = None ↔ ∀ index, (id, index) ∉ la_spendable self) ∧
  ∀ index, get_spendable id self = Some index → (id, index) ∈ la_spendable self.
Proof. apply get_spendable_ok. Qed.

(** A new account, and one that was checked in, is sorted. *)
Lemma spendable_leb_le l r : spendable_leb l r ↔ spendable_cmp l r ≠ Gt.
Proof.
  unfold spendable_leb, spendable_ltb. rewrite (cmp_opp spendable_cmp l r).
  by destruct (spendable_cmp l r).
Qed.

#[export] Instance spendable_le_trans : Transitive (λ l r : spendable_entry, spendable_leb l r).
Proof.
  intros x y z Hxy Hyz. rewrite spendable_leb_le in Hxy, Hyz |- *. intros Hxz.
  apply (cmp_gt_lt spendable_cmp) in Hxz. destruct (spendable_cmp x y) eqn:E1; [|clear Hxy|done].
  - apply (cmp_eq spendable_cmp) in E1 as ->. by apply Hyz, (cmp_gt_lt spendable_cmp).
  - apply Hyz, (cmp_gt_lt spendable_cmp). by eapply (cmp_lt_trans spendable_cmp).
Qed.

#[export] Instance spendable_le_total : Total (λ l r : spendable_entry, spendable_leb l r).
Proof.
  intros x y. rewrite !spendable_leb_le, (cmp_opp spendable_cmp x y).
  destruct (spendable_cmp x y); simpl; auto.
Qed.

Lemma make_account_sorted address_string source spendable pubs :
  account_sorted (make_account address_string source spendable pubs).
Proof.
  split; simpl; [| |done|constructor].
  - eapply sorted_impl; [apply (StronglySorted_merge_sort (λ l r : spendable_entry, spendable_leb l r))|].
    intros x y. apply spendable_leb_le.
  - apply StronglySorted_merge_sort; apply _.
Qed.

Lemma updated_sorted new_height self : account_sorted self → account_sorted (updated new_height self).
Proof. intros [? ? _ _]. split; [done|done|done|constructor]. Qed.

(** ** Witnesses *)

Definition test_found (pub low : Z) : output :=
  {| o_link := TransactionLink 5 7; o_spend_meta := SpendMeta (OutputId 0 low) 5 11 0 9;
     o_timestamp := 0; o_unlock_time := 0; o_tx_prefix_hash := 1; o_pub := pub; o_ringct_mask := 3;
     o_extra := 128; o_payment_id := replicate 32 0; o_fee := 1; o_recipient := AddressIndex 0 1 |}.

Definition test_scanned : lws_account :=
  LwsAccount None [(OutputId 0 3, AddressIndex 0 0); (OutputId 0 8, AddressIndex 2 1)] [4; 9] [] [] 5.

Lemma test_scanned_sorted : account_sorted test_scanned.
Proof. split; repeat constructor; done. Qed.

Lemma add_out_spec_witness : o_pub (test_found 6 7) ∉ la_pubs test_scanned.
Proof.
  apply (add_out_spec (test_found 6 7) test_scanned test_scanned_sorted). vm_compute. reflexivity.
Defined.

Lemma get_spendable_complete_witness :
  (OutputId 0 8, AddressIndex 2 1) ∈ la_spendable test_scanned ∧
  (OutputId 0 4, AddressIndex 0 0) ∉ la_spendable test_scanned.
Proof.
  assert (∀ e, e ∈ la_spendable test_scanned → 0 <= maj_i e.2 ∧ 0 <= min_i e.2) as Hnonneg.
  { intros e [->|[->|[]%elem_of_nil]%elem_of_cons]%elem_of_cons; simpl; lia. }
  split.
  - by apply (get_spendable_complete (OutputId 0 8) test_scanned test_scanned_sorted Hnonneg).
  - by apply (get_spendable_complete (OutputId 0 4) test_scanned test_scanned_sorted Hnonneg).
Defined.
