(* ===== verification/Readers.v ===== *)
(** * Reading the tables (src/src/db/storage.cpp, lines 1095-1156 and 1194-1255)

    The streams over the rows of a key, and [get_full_account], which loads an
    account with its received outputs for the scanner. *)

From S2P Require Import Prelude Lmdb Data Compare Tables Account.

Section readers.
Context `{L : Lmdb}.
Implicit Types d : db L.

(** A [value_stream] lists the rows of one key, a [key_stream] the keys with their rows. *)
Definition get_accounts (d : db L) : list (account_status * list account) :=
  map (λ status, (status, dups accounts status d)) (mdb_keys (d accounts)).
Definition get_accounts_of (status : account_status) (d : db L) : list account := dups accounts status d.
Definition get_outputs (id : Z) (d : db L) : list output := dups outputs id d.
Definition get_spends (id : Z) (d : db L) : list spend := dups spends id d.
Definition get_images (id : output_id) (d : db L) : list key_image := dups images id d.
Definition get_confirmed_spend_images (id : Z) (d : db L) : list Z := dups confirmed_spends id d.
Definition get_imported_spend_sources (id : Z) (d : db L) : list key_image_source :=
  dups imported_spend_sources id d.
Definition get_pending_spends (id : Z) (d : db L) : list pending_spend := dups pending_spends id d.
Definition get_requests (d : db L) : list (request * list request_info) :=
  map (λ req, (req, dups requests req d)) (mdb_keys (d requests)).

Definition get_full_account (address_string : account_address → string) (user : account) (d : db L) :
    lws_account :=
  let receive_list := get_outputs (acc_id user) d in
  make_account address_string user
    ((λ o, (sme_id (o_spend_meta o), o_recipient o)) <$> receive_list)
    (o_pub <$> receive_list).
End readers.

Section reader_theorems.
Context `{LL : LmdbLaws}.
Implicit Types d : db L.

Lemma elem_of_full_spendable address_string user d e :
  e ∈ la_spendable (get_full_account address_string user d) ↔
    ∃ o, o ∈ dups outputs (acc_id user) d ∧ e = (sme_id (o_spend_meta o), o_recipient o).
Proof.
  simpl. rewrite merge_sort_Permutation. rewrite list_elem_of_fmap.
  unfold get_outputs. split; intros (o & H1 & H2); exists o; by split.
Qed.

(** The account loaded for the scanner knows exactly the stored outputs: an
    output id is spendable when a stored output of the account has it, with the
    recipient of such an output, and an output whose key is stored already is
    not accepted again. *)
Theorem get_full_account_knows address_string user d id :
  (∀ o, o ∈ dups outputs (acc_id user) d → 0 <= maj_i (o_recipient o) ∧ 0 <= min_i (o_recipient o)) →
  let loaded := get_full_account address_string user d in
  (get_spendable id loaded = None ↔
     ∀ o, o ∈ dups outputs (acc_id user) d → sme_id (o_spend_meta o) ≠ id) ∧
  (∀ index, get_spendable id loaded = Some index →
     ∃ o, o ∈ dups outputs (acc_id user) d ∧ sme_id (o_spend_meta o) = id ∧ o_recipient o = index) ∧
  ∀ out, (∃ o, o ∈ dups outputs (acc_id user) d ∧ o_pub o = o_pub out) → add_out out loaded = (false, loaded).
Proof.
  intros Hpos loaded.
  assert (account_sorted loaded) as Hsorted by apply make_account_sorted.
  destruct (get_spendable_ok id loaded) as [Hnone Hsome]; [done| |].
  { intros e (o & Ho & ->)%elem_of_full_spendable. by apply Hpos. }
  split_and!.
  - rewrite Hnone. split.
    + intros Hno o Ho <-. apply (Hno (o_recipient o)). apply elem_of_full_spendable. by exists o.
    + intros Hno index (o & Ho & [= -> ->])%elem_of_full_spendable. by apply (Hno o).
  - intros index (o & Ho & [= -> ->])%Hsome%elem_of_full_spendable. by exists o.
  - intros out (o & Ho & Heq). apply add_out_duplicate; [done|]. simpl.
    rewrite merge_sort_Permutation, <-Heq. by apply list_elem_of_fmap_2.
Qed.
End reader_theorems.

(** ** Witnesses *)

Lemma get_full_account_knows_witness :
  let user := {| acc_id := 1; acc_access := 0; acc_address := AccountAddress 6 16; acc_key := 6;
     acc_scan_height := 5; acc_start_height := 0; acc_creation := 0; acc_flags := 0;
     acc_lookahead := AddressIndex 0 0; acc_lookahead_fail := 0 |} in
  let d : db ListDb.lmdb := put outputs 1 (test_found 3 2) empty_db in
  (add_out (test_found 3 8) (get_full_account (λ _, ""%string) user d)).1 = false.
Proof.
  intros user d. assert (dups outputs (acc_id user) d = [test_found 3 2]) as E by reflexivity.
  destruct (get_full_account_knows (λ _, ""%string) user d (OutputId 0 2)) as (_ & _ & Hadd).
  - rewrite E. intros o [->|[]%elem_of_nil]%elem_of_cons. simpl. lia.
  - rewrite (Hadd (test_found 3 8)); [reflexivity|]. exists (test_found 3 2). split; [rewrite E; left|reflexivity].
Defined.
