(* ===== verification/Webhooks.v ===== *)
(** * Webhooks (src/src/db/storage.cpp, lines 1321-1395, 3925-4066)

    A webhook is registered under a user and a type, and among those ordered by
    payment id and event id.  Each output that matches one leaves an event in
    [events_by_account_id] until it has the requested confirmations. *)

From S2P Require Import Prelude Lmdb Data Compare Tables Chain Subaddress Accounts.

(** epee's [parse_url]: the scheme of a URL it accepts. *)
Class UrlParser : Type := { parse_url : string → option string }.

(** Boost's [binary_search] of a sorted vector of ids. *)
Definition has_id (ids : list Z) (id : Z) : bool := bool_decide (id ∈ ids).

(** The entries an iteration takes while [p] holds. *)
Fixpoint take_while {A} (p : A → bool) (l : list A) : list A :=
  match l with
  | [] => []
  | x :: l => if p x then x :: take_while p l else []
  end.

Section webhooks.
Context `{L : Lmdb}.
Implicit Types d : db L.

(** The loop [find_webhook] and [check_hooks] share: [MDB_GET_BOTH_RANGE] from
    the least event id of a payment id on, while the payment id is the same. *)
Definition find_webhook (key : webhook_key) (payment_id : Z) (d : db L) : list webhook_value :=
  take_while (λ v : webhook_value, wd_payment_id v.1 =? payment_id)
    (seek_range webhooks key
       (λ v, webhook_dupsort_ltb v.1 (WebhookDupsort payment_id 0)) d).

Definition get_webhooks (d : db L) : list (webhook_key * list webhook_value) :=
  map (λ key, (key, dups webhooks key d)) (mdb_keys (d webhooks)).

Definition add_webhook `{UrlParser} (type : webhook_type) (address : option account_address)
    (event : webhook_value) (d : db L) : expect (db L) :=
  _ ← (if decide (wd_url event.2 = "zmq"%string) then Ok tt
       else if decide (wd_url event.2 = ""%string) then Err bad_url
       else
         match parse_url (wd_url event.2) with
         | None => Err bad_url
         | Some url_schema =>
             guard_err (bool_decide (url_schema = "http"%string ∨ url_schema = "https"%string)) bad_url
         end);
  let user :=
    match address with
    | Some address =>
        match find_by_address address d with
        | Some v => lk_id (aba_lookup v)
        | None => account_id_invalid
        end
    | None => account_id_invalid
    end in
  _ ← guard_err (negb ((user =? account_id_invalid) &&
        bool_decide (type = tx_confirmation ∨ type = tx_spend))) bad_webhook;
  Ok (put webhooks (WebhookKey user type) event d).

(** [clear_webhooks] by account *)
Definition clear_account_webhooks (d : db L) (address : account_address) : expect (db L) :=
  v ← of_option mdb_notfound (find_by_address address d);
  let user := lk_id (aba_lookup v) in
  let d := del_all webhooks (WebhookKey user tx_confirmation) d in
  Ok (del_all events_by_account_id user d).

Definition clear_webhooks_of (addresses : list account_address) (d : db L) : expect (db L) :=
  fold_err clear_account_webhooks d addresses.

(** [clear_webhooks] by event id: every webhook, then every event. *)
Definition clear_webhooks (ids : list Z) (d : db L) : db L :=
  let d := foldl (λ d (e : webhook_key * webhook_value),
    if has_id ids (wd_event_id e.2.1) then del webhooks e.1 e.2.1 d else d) d
    (mdb_all (d webhooks)) in
  foldl (λ d (e : Z * webhook_event),
    if has_id ids (wd_event_id (we_link_webhook e.2)) then del events_by_account_id e.1 e.2 d else d) d
    (mdb_all (d events_by_account_id)).
End webhooks.

(** ** Theorems *)

Section webhook_theorems.
Context `{LL : LmdbLaws}.
Implicit Types d : db L.

Lemma webhook_range (v : webhook_value) pid :
  0 <= wd_event_id v.1 →
  webhook_dupsort_ltb v.1 (WebhookDupsort pid 0) = true ↔ wd_payment_id v.1 < pid.
Proof.
  unfold webhook_dupsort_ltb. simpl. destruct (Z.eqb_spec (wd_payment_id v.1) pid);
    rewrite Z.ltb_lt; lia.
Qed.

Lemma webhook_lt_payment (x y : ts_val webhooks_spec) :
  dup_lt webhooks_spec x y → wd_payment_id x.1 <= wd_payment_id y.1.
Proof.
  unfold dup_lt. simpl. unfold webhook_dupsort_cmp, proj_cmp, lex_cmp. simpl.
  destruct (Z.compare_spec (wd_payment_id x.1) (wd_payment_id y.1)); [lia|lia|done].
Qed.

Lemma elem_of_take_while_eq {A} (f : A → Z) l x z :
  StronglySorted (λ a b, f a <= f b) l → (∀ y, y ∈ l → z <= f y) →
  x ∈ take_while (λ y, f y =? z) l ↔ x ∈ l ∧ f x = z.
Proof.
  intros Hl Hz. induction Hl as [|y l Hl IH Hy]; simpl; [rewrite elem_of_nil; tauto|].
  rewrite Forall_forall in Hy. destruct (Z.eqb_spec (f y) z) as [Heq|Hne].
  - rewrite !elem_of_cons, IH by (intros; apply Hz; by right).
    split; [intros [->|[? ?]]; auto|]. intros [[->|?] ?]; auto.
  - rewrite elem_of_nil, elem_of_cons. split; [done|]. specialize (Hz y ltac:(left)).
    intros [[->|Hx] Heq]; [done|]. specialize (Hy x Hx). lia.
Qed.

(** The webhooks found for a payment id are exactly those registered for
    it under the key. *)
Theorem find_webhook_exact key payment_id d v :
  (∀ w, w ∈ dups webhooks key d → 0 <= wd_event_id w.1) →
  v ∈ find_webhook key payment_id d ↔
    v ∈ dups webhooks key d ∧ wd_payment_id v.1 = payment_id.
Proof.
  intros Hid. unfold find_webhook, seek_range.
  pose proof (sorted_impl _ _ _ (dups_sorted webhooks key d) webhook_lt_payment) as Hs.
  revert Hid Hs. generalize (dups webhooks key d). cbn [spec_of webhooks_spec ts_val]. intros l Hid Hs.
  induction Hs as [|w l Hl IH Hw]; cbn [drop_while]; [cbn [take_while]; rewrite elem_of_nil; tauto|].
  destruct (webhook_dupsort_ltb w.1 _) eqn:E.
  - apply webhook_range in E; [|by apply Hid; left]. rewrite IH, elem_of_cons by (intros; apply Hid; by right).
    split; [tauto|]. intros [[->|Hv] Heq]; [lia|done].
  - assert (payment_id <= wd_payment_id w.1) as Hge.
    { destruct (decide (wd_payment_id w.1 < payment_id)) as [Hlt|]; [|lia].
      apply webhook_range in Hlt; [congruence|by apply Hid; left]. }
    apply (elem_of_take_while_eq (λ v : webhook_value, wd_payment_id v.1)); [by constructor|].
    rewrite Forall_forall in Hw. intros y [->|Hy]%elem_of_cons; [done|]. specialize (Hw y Hy). simpl in Hw. lia.
Qed.

(** The events in progress refer to registered webhooks of their user. *)
Definition events_have_hooks (d : db L) : Prop :=
  ∀ user e, e ∈ dups events_by_account_id user d →
    ∃ v, v ∈ dups webhooks (WebhookKey user tx_confirmation) d ∧ v.1 = we_link_webhook e.

Lemma elem_of_cond_del n (p : ts_val (spec_of n) → bool) l d k v :
  v ∈ dups n k (foldl (λ d e, if p e.2 then del n e.1 (ts_dup_of _ e.2) d else d) d l) ↔
    v ∈ dups n k d ∧ (∀ u, (k, u) ∈ l → p u = true → ts_dup_of _ v ≠ ts_dup_of _ u).
Proof.
  revert d. induction l as [|[k1 u1] l IH]; intros d; simpl.
  - split; [|by intros []]. intros Hv. split; [done|]. by intros u ?%elem_of_nil.
  - rewrite IH. setoid_rewrite elem_of_cons. destruct (p u1) eqn:E.
    + rewrite elem_of_dups_del. split.
      * intros [[Hv Hne] Hl]. split; [done|]. intros u [[= -> ->]|Hu] Hp; auto.
      * intros [Hv Hl]. split_and!; [done|intros ->; by apply Hl; [left|]|auto].
    + split; intros [Hv Hl]; (split; [done|]); [|by auto]. intros u [[= -> ->]|Hu] Hp; [congruence|auto].
Qed.

Lemma clear_webhooks_elem ids d :
  (∀ key v, v ∈ dups webhooks key (clear_webhooks ids d) ↔
     v ∈ dups webhooks key d ∧ wd_event_id v.1 ∉ ids) ∧
  (∀ user e, e ∈ dups events_by_account_id user (clear_webhooks ids d) ↔
     e ∈ dups events_by_account_id user d ∧ wd_event_id (we_link_webhook e) ∉ ids) ∧
  (events_have_hooks d → events_have_hooks (clear_webhooks ids d)).
Proof.
  set (d1 := foldl (λ d (e : webhook_key * webhook_value),
    if has_id ids (wd_event_id e.2.1) then del webhooks e.1 e.2.1 d else d) d (mdb_all (d webhooks))).
  assert (touches [webhooks] d d1) as Ht1.
  { apply touches_foldl. intros d2 e. destruct (has_id _ _); [apply touches_del; set_solver|done]. }
  assert (touches [events_by_account_id] d1 (clear_webhooks ids d)) as Ht2.
  { apply touches_foldl. intros d2 e. destruct (has_id _ _); [apply touches_del; set_solver|done]. }
  assert (∀ key v, v ∈ dups webhooks key (clear_webhooks ids d) ↔
     v ∈ dups webhooks key d ∧ wd_event_id v.1 ∉ ids) as Hw.
  { intros key v. rewrite (Ht2 webhooks) by set_solver.
    etrans; [apply (elem_of_cond_del webhooks (λ v, has_id ids (wd_event_id v.1)) (mdb_all (d webhooks)) d key v)|].
    setoid_rewrite (elem_of_mdb_all (spec_of webhooks)). unfold has_id. split; intros [Hv Hn]; (split; [done|]).
    - intros Hin. by apply (Hn v); [|apply bool_decide_eq_true_2|].
    - intros u Hu Hp%bool_decide_eq_true Heq. apply Hn. simpl in Heq. by rewrite Heq. }
  assert (∀ user e, e ∈ dups events_by_account_id user (clear_webhooks ids d) ↔
     e ∈ dups events_by_account_id user d ∧ wd_event_id (we_link_webhook e) ∉ ids) as He.
  { intros user e. unfold clear_webhooks. fold d1.
    etrans; [apply (elem_of_cond_del events_by_account_id (λ e, has_id ids (wd_event_id (we_link_webhook e)))
      (mdb_all (d1 events_by_account_id)) d1 user e)|].
    setoid_rewrite (elem_of_mdb_all (spec_of events_by_account_id)).
    change (mdb_dups (d1 events_by_account_id) user) with (dups events_by_account_id user d1).
    rewrite (Ht1 events_by_account_id) by set_solver.
    unfold has_id. split; intros [Hv Hn]; (split; [done|]).
    - intros Hin. by apply (Hn e); [|apply bool_decide_eq_true_2|].
    - intros u Hu Hp%bool_decide_eq_true Heq. apply Hn. simpl in Heq. by rewrite Heq. }
  split_and!; [done|done|]. intros Hd user e [Hin Hn]%He. destruct (Hd _ _ Hin) as (v & Hv & Heq).
  exists v. split; [|done]. apply Hw. split; [done|]. by rewrite Heq.
Qed.

(** Clearing webhooks by id removes exactly the webhooks and the events
    in progress with those ids, so that events keep referring to registered
    webhooks. *)
Theorem clear_webhooks_spec ids d :
  (∀ key v, v ∈ dups webhooks key (clear_webhooks ids d) ↔
     v ∈ dups webhooks key d ∧ wd_event_id v.1 ∉ ids) ∧
  (∀ user e, e ∈ dups events_by_account_id user (clear_webhooks ids d) ↔
     e ∈ dups events_by_account_id user d ∧ wd_event_id (we_link_webhook e) ∉ ids) ∧
  (events_have_hooks d → events_have_hooks (clear_webhooks ids d)).
Proof. apply clear_webhooks_elem. Qed.

Lemma clear_webhooks_hooks ids d : events_have_hooks d → events_have_hooks (clear_webhooks ids d).
Proof. apply clear_webhooks_elem. Qed.

Lemma touches_clear_webhooks ids d :
  touches [webhooks; events_by_account_id] d (clear_webhooks ids d).
Proof.
  unfold clear_webhooks. match goal with |- touches _ _ (foldl _ ?d1 _) => trans d1 end;
    apply touches_foldl; intros d1 e; (destruct (has_id _ _); [apply touches_del; set_solver|done]).
Qed.


(** Clearing the webhooks of an account leaves no event in progress of it. *)
Lemma clear_account_webhooks_ok d address d' :
  clear_account_webhooks d address = Ok d' → events_have_hooks d → events_have_hooks d'.
Proof.
  unfold clear_account_webhooks. intros (v & _ & [= <-])%expect_bind_ok Hd user e.
  rewrite (elem_of_del_all events_by_account_id).
  rewrite (dups_del_all_other webhooks _ _ events_by_account_id) by done.
  intros [Hin Hne]. destruct (Hd _ _ Hin) as (w & Hw & Heq). exists w. split; [|done].
  rewrite (dups_del_all_other events_by_account_id _ _ webhooks) by done.
  apply (elem_of_del_all webhooks). split; [done|]. intros [= Hu]. by apply Hne.
Qed.

Lemma clear_webhooks_of_hooks addresses d d' :
  clear_webhooks_of addresses d = Ok d' → events_have_hooks d → events_have_hooks d'.
Proof.
  intros Hrun Hd. unfold clear_webhooks_of in Hrun.
  apply (fold_err_invariant events_have_hooks) in Hrun; [done|done|].
  intros d1 a d2 _ H1 H2. by eapply clear_account_webhooks_ok.
Qed.

Lemma touches_clear_webhooks_of addresses d d' :
  clear_webhooks_of addresses d = Ok d' → touches [webhooks; events_by_account_id] d d'.
Proof.
  apply (touches_fold_err [webhooks; events_by_account_id]). intros d1 a d2.
  unfold clear_account_webhooks. intros (v & _ & [= <-])%expect_bind_ok.
  etrans; [apply (touches_del_all _ webhooks)|apply touches_del_all]; set_solver.
Qed.

(** Clearing the webhooks of accounts leaves every [tx_spend] webhook in
    place; the administration manual says that all webhooks of the address are
    deleted. *)
Theorem clear_webhooks_keeps_tx_spend addresses d d' user :
  clear_webhooks_of addresses d = Ok d' →
  dups webhooks (WebhookKey user tx_spend) d' = dups webhooks (WebhookKey user tx_spend) d.
Proof.
  unfold clear_webhooks_of. intros Hrun.
  apply (fold_err_invariant (λ d', dups webhooks (WebhookKey user tx_spend) d' =
    dups webhooks (WebhookKey user tx_spend) d)) in Hrun; [done|done|].
  intros d1 address d2 _ Hd1. unfold clear_account_webhooks. intros (v & _ & [= <-])%expect_bind_ok.
  rewrite (dups_del_all_other events_by_account_id _ _ webhooks) by done. rewrite <-Hd1.
  apply (sorted_ext (dup_lt webhooks_spec)); [|apply (dups_sorted webhooks)..|].
  - intros a b Hab Hba. apply (dup_lt_neq webhooks_spec a a); [by trans b|done].
  - intros w. rewrite (elem_of_del_all webhooks). split; [by intros []|]. by split.
Qed.
End webhook_theorems.

(** ** Witnesses *)

Definition test_hook (payment event : Z) : webhook_value :=
  (WebhookDupsort payment event, WebhookData "zmq" "" 3).

Definition hooks_db : db ListDb.lmdb :=
  put accounts_by_address by_address_version
    (AccountByAddress (AccountAddress 5 6) (AccountLookup 1 active))
    (put webhooks (WebhookKey 1 tx_spend) (test_hook 0 9)
      (put webhooks (WebhookKey 1 tx_confirmation) (test_hook 7 2)
        (put webhooks (WebhookKey 1 tx_confirmation) (test_hook 4 1) empty_db))).

Lemma find_webhook_exact_witness :
  test_hook 7 2 ∈ find_webhook (WebhookKey 1 tx_confirmation) 7 hooks_db ↔
    test_hook 7 2 ∈ dups webhooks (WebhookKey 1 tx_confirmation) hooks_db ∧ 7 = 7.
Proof.
  apply (find_webhook_exact (WebhookKey 1 tx_confirmation) 7 hooks_db (test_hook 7 2)).
  change (dups webhooks (WebhookKey 1 tx_confirmation) hooks_db) with [test_hook 4 1; test_hook 7 2].
  intros w [->|[->|[]%elem_of_nil]%elem_of_cons]%elem_of_cons; simpl; lia.
Defined.

Lemma clear_webhooks_spec_witness :
  dups webhooks (WebhookKey 1 tx_confirmation) (clear_webhooks [2] hooks_db) = [test_hook 4 1] ∧
  (test_hook 7 2 ∈ dups webhooks (WebhookKey 1 tx_confirmation) (clear_webhooks [2] hooks_db) ↔
    test_hook 7 2 ∈ dups webhooks (WebhookKey 1 tx_confirmation) hooks_db ∧ 2 ∉ [2]).
Proof.
  split; [vm_compute; reflexivity|].
  apply (clear_webhooks_spec [2] hooks_db).
Defined.

Lemma clear_webhooks_keeps_tx_spend_witness :
  ∃ d', clear_webhooks_of [AccountAddress 5 6] hooks_db = Ok d' ∧
    dups webhooks (WebhookKey 1 tx_spend) d' = dups webhooks (WebhookKey 1 tx_spend) hooks_db.
Proof.
  eexists. split; [reflexivity|].
  apply (clear_webhooks_keeps_tx_spend [AccountAddress 5 6] hooks_db). reflexivity.
Defined.
