(* ===== verification/Update.v ===== *)
(** * Storing the result of a scan (src/src/db/storage.cpp, lines 3128-3493)

    [storage::update] appends the scanned blocks, moves every scanned account to
    the last of them, stores the outputs and spends found and collects the
    webhooks that are due. *)

From S2P Require Import Prelude Lmdb Data Compare Tables Chain Subaddress Accounts Account Webhooks.

Section update.
Context `{L : Lmdb} `{C : ChainConfig}.
Implicit Types d : db L.

(** ** Spends and webhooks *)

Definition add_spends (user : Z) (l : list spend) (d : db L) : db L :=
  let d := bulk_insert spends user l d in
  foldl (λ d entry, put_skip images (s_source entry) d (KeyImage (s_image entry) (s_link entry))) d l.

(** The first 8 bytes of a payment id, as the integer webhooks are sorted by. *)
Definition short_payment_id (o : output) : Z := le_combine (take 8 (o_payment_id o)).

Definition output_link (o : output) : webhook_output :=
  WebhookOutput (o_link o) (sme_id (o_spend_meta o)).

(** [check_hooks]: an event for every output and every webhook of its payment id. *)
Definition check_hooks (user_id : Z) (found : list output) (d : db L) : db L :=
  foldl (λ d out,
    foldl (λ d (v : webhook_value),
      put events_by_account_id user_id (WebhookEvent (output_link out) v.1) d) d
      (find_webhook (WebhookKey user_id tx_confirmation) (short_payment_id out) d)) d found.

Definition set_confirmations (n : Z) (v : webhook_value) : webhook_value :=
  (v.1, WebhookData (wd_url v.2) (wd_token v.2) n).

(** The copies for the blocks after the first, until the requested number of
    confirmations; [n] blocks are left. *)
Fixpoint copy_confirmations (n : nat) (requested : Z) (ev : webhook_tx_confirmation) :
    list webhook_tx_confirmation * Z :=
  let conf := wd_confirmations (wtc_value ev).2 in
  match n with
  | O => ([ev], conf)
  | S n =>
      if requested <=? conf then ([ev], conf)
      else
        let next := WebhookTxConfirmation (wtc_key ev)
                      (set_confirmations (wrap 32 (conf + 1)) (wtc_value ev)) (wtc_tx_info ev) in
        let '(rest, last) := copy_confirmations n requested next in
        (ev :: rest, last)
  end.

(** The body of the loop of [add_ongoing_hooks]. *)
Definition ongoing_hook (user start stop : Z) (st : list webhook_tx_confirmation * db L)
    (event : webhook_event) : expect (list webhook_tx_confirmation * db L) :=
  let '(events, d) := st in
  let height := tl_height (wo_tx (we_link event)) in
  let this_begin := Z.max start height in
  if this_begin <? stop then
    let hook_key := WebhookKey user tx_confirmation in
    v ← of_option mdb_notfound (get_both webhooks hook_key (we_link_webhook event) d);
    out ← of_option mdb_notfound
            (get_both outputs user (wo_tx (we_link event), wo_out (we_link event)) d);
    let requested := wd_confirmations v.2 in
    let first := WebhookTxConfirmation hook_key
                   (set_confirmations (wrap 32 (this_begin - height + 1)) v) out in
    let '(copies, last) := copy_confirmations (Z.to_nat (stop - (this_begin + 1))) requested first in
    let d := if requested <=? last then del events_by_account_id user event d else d in
    Ok (events ++ copies, d)
  else Ok (events, d).

Definition add_ongoing_hooks (events : list webhook_tx_confirmation) (user start stop : Z) (d : db L) :
    expect (list webhook_tx_confirmation * db L) :=
  if start =? stop then Ok (events, d)
  else fold_err (ongoing_hook user start stop) (events, d) (dups events_by_account_id user d).

(** The search for the source of a spend: [MDB_GET_BOTH_RANGE] at the height of
    the spend, then [MDB_PREV_DUP] until the output with the source id. *)
Definition find_source (user : Z) (s : spend) (d : db L) : expect spend_meta :=
  let below := λ o, tl_height (o_link o) <? tl_height (s_link s) in
  match seek_range outputs user below d with
  | [] => Err mdb_notfound
  | at_or_after :: _ =>
      let candidates := at_or_after :: rev (take_while below (dups outputs user d)) in
      of_option mdb_notfound
        (List.find (λ m, output_id_eqb (sme_id m) (s_source s)) (map o_spend_meta candidates))
  end.

Definition check_spends (events : list webhook_tx_spend) (user_id : Z) (found : list spend) (d : db L) :
    expect (list webhook_tx_spend) :=
  let hook_key := WebhookKey user_id tx_spend in
  fold_err (λ events v,
    fold_err (λ events s,
      meta ← find_source user_id s d;
      Ok (events ++ [WebhookTxSpend hook_key v s meta])) events found)
    events (dups webhooks hook_key d).

(** ** [storage::update] *)

Record updated_result := Updated {
  confirm_pubs : list webhook_tx_confirmation;
  spend_pubs : list webhook_tx_spend;
  accounts_updated : Z
}.

(** The part on the chain: the scanned blocks from [height] on must agree with
    the stored ones; those after the last stored one are appended. *)
Definition update_chain (height : Z) (chain : list Z) (pow : list pow_sync) (last_update : Z)
    (d : db L) : expect (db L) :=
  if get_max_height <=? last_update then
    last_block ← get_last_block d;
    _ ← guard_err (negb (bi_id last_block <? height)) bad_blockchain;
    let last_same := Z.min (bi_id last_block) last_update in
    let offset := Z.to_nat (last_same - height) in
    hash ← do_get_block_hash d last_same;
    _ ← guard_err (bool_decide (chain !! offset = Some hash)) blockchain_reorg;
    let first := wrap 64 (height + Z.of_nat offset + 1) in
    let d := append_block_hashes first (drop (offset + 1) chain) d in
    Ok (match pow with
        | [] => d
        | _ => append_pow first (drop (offset + 1) pow) d
        end)
  else
    match get_both blocks blocks_version last_update d with
    | None => Ok d
    | Some cur_block =>
        _ ← guard_err (bool_decide (last chain = Some (bi_hash cur_block))) bad_blockchain;
        Ok d
    end.

(** The account a scanned account stands for: active, or under the status of
    the address table; [None] when it is not in the database any more. *)
Definition existing_account (user : lws_account) (d : db L) : expect (option (account_status * account)) :=
  match get_both accounts active (account_id user) d with
  | Some existing => Ok (Some (active, existing))
  | None =>
      address ← db_address user;
      match find_by_address address d with
      | None => Ok None
      | Some v =>
          let status := lk_status (aba_lookup v) in
          existing ← of_option mdb_notfound (get_both accounts status (account_id user) d);
          Ok (Some (status, existing))
      end
  end.

Definition with_scan_height (h : Z) (a : account) : account := with_heights h (acc_start_height a) a.

(** What is written for an account that moves to [last_update]. *)
Definition store_scan (last_update first_new : Z) (user : lws_account) (status : account_status)
    (existing : account) (out : updated_result) (d : db L) : expect (updated_result * db L) :=
  let id := account_id user in
  let existing_height := acc_scan_height existing in
  let d := put accounts status (with_scan_height last_update existing) d in
  _ ← of_option mdb_notfound (get_both accounts_by_height existing_height id d);
  let d := del accounts_by_height existing_height id d in
  let d := bulk_insert outputs id (la_outputs user) d in
  let d := add_spends id (la_spends user) d in
  let ongoing_start := Z.max first_new (wrap 64 (existing_height + 1)) in
  let d := check_hooks id (la_outputs user) d in
  '(confirms, d) ← add_ongoing_hooks (confirm_pubs out) id ongoing_start (wrap 64 (last_update + 1)) d;
  spent ← check_spends (spend_pubs out) id (la_spends user) d;
  Ok (Updated confirms spent (accounts_updated out), d).

(** The loop over the accounts; [heights] are the entries of [accounts_by_height]
    not yet written, flushed in batches of 127. *)
Fixpoint update_users (last_update first_new : Z) (users : list lws_account)
    (heights : list account_lookup) (out : updated_result) (d : db L) :
    expect (updated_result * db L) :=
  let full := bool_decide (length heights = 127%nat) in
  let flushed := bulk_insert accounts_by_height last_update heights d in
  match users with
  | [] => Ok (out, flushed)
  | user :: users =>
      let d := if full then flushed else d in
      let heights := if full then [] else heights in
      found ← existing_account user d;
      match found with
      | None => update_users last_update first_new users heights out d
      | Some (status, existing) =>
          if acc_scan_height existing <? scan_height user then
            update_users last_update first_new users heights out d
          else
            let out := Updated (confirm_pubs out) (spend_pubs out) (accounts_updated out + 1) in
            if last_update <=? acc_scan_height existing then
              update_users last_update first_new users heights out d
            else
              '(out, d) ← store_scan last_update first_new user status existing out d;
              update_users last_update first_new users
                (heights ++ [AccountLookup (account_id user) status]) out d
      end
  end.

Definition update (height : Z) (chain : list Z) (users : list lws_account) (pow : list pow_sync)
    (d : db L) : expect (updated_result * db L) :=
  if bool_decide (users = []) && bool_decide (chain = []) then Ok (Updated [] [] 0, d)
  else
    _ ← guard_err (negb (bool_decide (chain = []))) invalid_argument;
    _ ← guard_err (bool_decide (pow = []) || bool_decide (length chain = length pow)) invalid_argument;
    let last_update := wrap 64 (height + Z.of_nat (length chain) - 1) in
    let first_new := wrap 64 (height + 1) in
    d ← update_chain height chain pow last_update d;
    update_users last_update first_new users [] (Updated [] [] 0) d.
End update.

(** ** Theorems *)

Section update_theorems.
Context `{LL : LmdbLaws} `{C : ChainConfig}.
Implicit Types d : db L.

Lemma touches_add_spends user l d : touches [spends; images] d (add_spends user l d).
Proof.
  unfold add_spends. etrans; [apply (touches_bulk_insert _ spends); set_solver|].
  apply touches_foldl. intros d1 s m k Hm. apply put_skip_other. intros <-. set_solver.
Qed.

Lemma touches_check_hooks user l d : touches [events_by_account_id] d (check_hooks user l d).
Proof.
  apply touches_foldl. intros d1 o. apply touches_foldl. intros d2 v. apply touches_put. set_solver.
Qed.

Lemma touches_add_ongoing_hooks events user start stop d events' d' :
  add_ongoing_hooks events user start stop d = Ok (events', d') →
  touches [events_by_account_id] d d'.
Proof.
  unfold add_ongoing_hooks. destruct (_ =? _); [by intros [= <- <-]|]. intros Hrun.
  apply (fold_err_invariant (λ st, touches [events_by_account_id] d st.2)) in Hrun; [done|done|].
  intros [evs d1] ev st _ Hd1 Hs. cbn [snd] in *. unfold ongoing_hook in Hs.
  destruct (_ <? _); [|by injection Hs as <-].
  apply expect_bind_ok in Hs as (v & _ & Hs). apply expect_bind_ok in Hs as (o & _ & Hs).
  destruct (copy_confirmations _ _ _) as [copies last]. injection Hs as <-. cbn [snd].
  destruct (_ <=? _); [|done]. etrans; [exact Hd1|apply touches_del; set_solver].
Qed.

(** What [store_scan] does to the database, beyond the account tables. *)
Lemma store_scan_effect lu first_new user s a out d out' d' :
  store_scan lu first_new user s a out d = Ok (out', d') →
  touches [outputs; spends; images; events_by_account_id]
    (del accounts_by_height (acc_scan_height a) (account_id user)
       (put accounts s (with_scan_height lu a) d)) d' ∧
  (∀ k, dups outputs k d' = dups outputs k (bulk_insert outputs (account_id user) (la_outputs user) d)).
Proof.
  unfold store_scan. intros Hrun. set (d0 := put accounts s _ d) in *.
  apply expect_bind_ok in Hrun as (lk & _ & Hrun).
  set (d1 := del accounts_by_height _ _ d0) in *.
  set (d2 := bulk_insert outputs _ _ d1) in *. set (d3 := add_spends _ _ d2) in *.
  set (d4 := check_hooks _ _ d3) in *.
  apply expect_bind_ok in Hrun as ([confirms d5] & H5 & Hrun).
  apply expect_bind_ok in Hrun as (spent & _ & [= <- <-]).
  apply touches_add_ongoing_hooks in H5.
  assert (touches [spends; images; events_by_account_id] d2 d5) as Ht.
  { etrans; [eapply touches_weaken, touches_add_spends; set_solver|].
    etrans; [eapply touches_weaken, touches_check_hooks; set_solver|].
    eapply touches_weaken, H5. set_solver. }
  split.
  - etrans; [apply (touches_bulk_insert _ outputs); set_solver|]. eapply touches_weaken, Ht. set_solver.
  - intros k. rewrite (Ht outputs) by set_solver. apply (bulk_insert_ext outputs). intros k'.
    unfold d1, d0. rewrite (dups_del_other accounts_by_height _ _ _ outputs) by done.
    by rewrite (dups_put_other accounts _ _ _ outputs) by done.
Qed.
Lemma existing_account_ok user d s a :
  existing_account user d = Ok (Some (s, a)) → a ∈ dups accounts s d ∧ acc_id a = account_id user.
Proof.
  unfold existing_account. destruct (get_both accounts active _ d) as [b|] eqn:E.
  { intros [= <- <-]. by apply (get_both_Some accounts) in E. }
  intros (address & _ & Hrun)%expect_bind_ok. destruct (find_by_address _ _) as [v|]; [|done].
  apply expect_bind_ok in Hrun as (b & Hb%of_option_ok & [= <- <-]).
  by apply (get_both_Some accounts) in Hb.
Qed.

(** The accounts of [d] at or below [lu] moved to [lu], or stayed where they are. *)
Record advanced (lu : Z) (d d' : db L) : Prop := {
  adv_kept s a : a ∈ dups accounts s d → ∃ a', a' ∈ dups accounts s d' ∧
    (a' = a ∨ acc_scan_height a < lu ∧ a' = with_scan_height lu a);
  adv_from s a' : a' ∈ dups accounts s d' → ∃ a, a ∈ dups accounts s d ∧
    (a' = a ∨ acc_scan_height a < lu ∧ a' = with_scan_height lu a)
}.

#[local] Instance advanced_preorder lu : PreOrder (advanced lu).
Proof.
  split; [intros d; split; intros s a Ha; exists a; auto|].
  intros d1 d2 d3 [K12 F12] [K23 F23]. split.
  - intros s a Ha. destruct (K12 s a Ha) as (b & Hb & Hab). destruct (K23 s b Hb) as (c & Hc & Hbc).
    exists c. split; [done|]. destruct Hbc as [->|[Hlt ->]]; [done|].
    destruct Hab as [->|[_ ->]]; [by right|]. simpl in Hlt. lia.
  - intros s c Hc. destruct (F23 s c Hc) as (b & Hb & Hbc). destruct (F12 s b Hb) as (a & Ha & Hab).
    exists a. split; [done|]. destruct Hbc as [->|[Hlt ->]]; [done|].
    destruct Hab as [->|[_ ->]]; [by right|]. simpl in Hlt. lia.
Qed.

Lemma advanced_same lu d d' : (∀ s, dups accounts s d' = dups accounts s d) → advanced lu d d'.
Proof. intros Hd. split; intros s a Ha; exists a; [rewrite Hd|rewrite <-Hd]; auto. Qed.

Lemma store_scan_ok lu first_new user s a out d out' d' pending :
  rolling lu pending d → a ∈ dups accounts s d → acc_id a = account_id user →
  acc_scan_height a < lu → store_scan lu first_new user s a out d = Ok (out', d') →
  rolling lu (pending ++ [AccountLookup (account_id user) s]) d' ∧ advanced lu d d' ∧
  (∀ k, dups accounts_by_address k d' = dups accounts_by_address k d) ∧
  (∀ s' x, x ∈ dups accounts s' d' ↔
    (s' = s ∧ x = with_scan_height lu a) ∨ (x ∈ dups accounts s' d ∧ acc_id x ≠ account_id user)).
Proof.
  intros Hr Ha Hid Hlt Hrun. apply store_scan_effect in Hrun as [Ht _]. rewrite <-Hid in *.
  assert (∀ s', dups accounts s' d' = dups accounts s' (put accounts s (with_scan_height lu a) d)) as Hacc.
  { intros s'. rewrite (Ht accounts) by set_solver.
    by rewrite (dups_del_other accounts_by_height _ _ _ accounts) by done. }
  assert (∀ s' x, x ∈ dups accounts s' d' ↔
    (s' = s ∧ x = with_scan_height lu a) ∨ (x ∈ dups accounts s' d ∧ acc_id x ≠ acc_id a)) as Hel.
  { intros s' x. rewrite Hacc. apply elem_of_put_account; [apply Hr|done|done]. }
  assert (∀ k, dups accounts_by_address k d' = dups accounts_by_address k d) as Hba.
  { intros k. rewrite (Ht accounts_by_address) by set_solver.
    rewrite (dups_del_other accounts_by_height _ _ _ accounts_by_address) by done.
    by rewrite (dups_put_other accounts _ _ _ accounts_by_address) by done. }
  split_and!; [|split|done|done].
  - apply (rolling_move _ _ d _ _ _ (with_scan_height lu a)); try done.
    + intros (b & Hb & Hbi & Hbh)%(ro_pending _ _ _ Hr). simpl in *.
      destruct (ro_unique _ _ _ Hr _ _ _ _ Hb Ha Hbi) as [_ ->]. lia.
    + intros h lk. rewrite (Ht accounts_by_height) by set_solver. rewrite (elem_of_dups_del accounts_by_height).
      rewrite (dups_put_other accounts _ _ _ accounts_by_height) by done. simpl. split; intros [? Hn]; auto.
  - intros s' x Hx. destruct (decide (acc_id x = acc_id a)) as [Heq|Hne].
    + destruct (ro_unique _ _ _ Hr _ _ _ _ Hx Ha Heq) as [-> ->].
      exists (with_scan_height lu a). rewrite Hel. auto.
    + exists x. rewrite Hel. auto.
  - intros s' x [[-> ->]|[Hx _]]%Hel; [exists a|exists x]; auto.
Qed.

Lemma rolling_flush lu pending d :
  rolling lu pending d → rolling lu [] (bulk_insert accounts_by_height lu pending d).
Proof.
  intros [Ha Hh Hu]%rolling_done. split; [done| |by intros ? ?%elem_of_nil|done].
  intros h lk. rewrite Hh. split; [intros; split; [done|apply not_elem_of_nil]|by intros []].
Qed.

Lemma update_users_ok lu first_new users : ∀ heights out d out' d',
  rolling lu heights d → update_users lu first_new users heights out d = Ok (out', d') →
  accounts_ok d' ∧ advanced lu d d'.
Proof.
  induction users as [|user users IH]; intros heights out d out' d' Hr Hrun;
    cbn [update_users] in Hrun; cbv zeta in Hrun.
  { injection Hrun as <- <-. split; [by apply rolling_done|].
    apply advanced_same. intros s. by rewrite (bulk_insert_other accounts_by_height _ _ _ accounts). }
  set (full := bool_decide (length heights = 127%nat)) in *.
  set (d1 := if full then bulk_insert accounts_by_height lu heights d else d) in *.
  set (h1 := if full then [] else heights) in *.
  assert (rolling lu h1 d1) as Hr1 by (unfold h1, d1; destruct full; [by apply rolling_flush|done]).
  assert (advanced lu d d1) as Had.
  { apply advanced_same. intros s. unfold d1. destruct full; [|done].
    by rewrite (bulk_insert_other accounts_by_height _ _ _ accounts). }
  apply expect_bind_ok in Hrun as (found & Hf & Hrun).
  assert (∀ hs out d2, rolling lu hs d2 → advanced lu d1 d2 →
    update_users lu first_new users hs out d2 = Ok (out', d') → accounts_ok d' ∧ advanced lu d d') as Hnext.
  { intros hs o d2 Hr2 Ha2 H2. apply IH in H2 as [Hok Ha3]; [|done]. split; [done|].
    trans d1; [done|]. by trans d2. }
  destruct found as [[s a]|]; [|by eapply (Hnext h1); [done| |exact Hrun]].
  destruct (_ <? scan_height user); [by eapply (Hnext h1); [done| |exact Hrun]|].
  destruct (Z.leb_spec lu (acc_scan_height a)) as [Hle|Hlt]; [by eapply (Hnext h1); [done| |exact Hrun]|].
  apply expect_bind_ok in Hrun as ([out1 d2] & Hs & Hrun).
  apply existing_account_ok in Hf as [Hin Hid].
  destruct (store_scan_ok _ _ _ _ _ _ _ _ _ _ Hr1 Hin Hid Hlt Hs) as (Hr2 & Ha2 & _).
  by eapply Hnext; [exact Hr2| |exact Hrun].
Qed.

Lemma touches_update_chain height chain pow lu d d' :
  update_chain height chain pow lu d = Ok d' → touches [blocks; pows] d d'.
Proof.
  unfold update_chain. destruct (_ <=? _).
  - intros (b & _ & Hrun)%expect_bind_ok. apply expect_bind_ok in Hrun as (_ & _ & Hrun).
    apply expect_bind_ok in Hrun as (h & _ & Hrun). apply expect_bind_ok in Hrun as (_ & _ & [= <-]).
    destruct pow; [eapply touches_weaken, touches_append_block_hashes; set_solver|].
    etrans; [eapply touches_weaken, touches_append_block_hashes; set_solver|].
    eapply touches_weaken, touches_append_pow; set_solver.
  - destruct (get_both _ _ _ _); [|by intros [= <-]]. by intros (_ & _ & [= <-])%expect_bind_ok.
Qed.

Lemma update_consistent_ok height chain users pow d out d' :
  accounts_ok d → update height chain users pow d = Ok (out, d') →
  accounts_ok d' ∧
  ∀ s a, a ∈ dups accounts s d →
    ∃ a', a' ∈ dups accounts s d' ∧
      (a' = a ∨
       let last_update := wrap 64 (height + Z.of_nat (length chain) - 1) in
       acc_scan_height a < last_update ∧ a' = with_scan_height last_update a).
Proof.
  intros Hok. unfold update. destruct (_ && _); [intros [= <- <-]; eauto|]. cbv zeta.
  intros (_ & _ & Hrun)%expect_bind_ok. apply expect_bind_ok in Hrun as (_ & _ & Hrun).
  apply expect_bind_ok in Hrun as (d1 & H1%touches_update_chain & Hrun).
  apply update_users_ok in Hrun as [Hok' [Hadv _]].
  - split; [done|]. intros s a Ha. apply Hadv. rewrite (H1 accounts); [done|set_solver].
  - assert (accounts_ok d1) as [Ha Hh Hu] by (eapply accounts_ok_touches; [exact H1|set_solver..|done]).
    split; [done| |by intros ? ?%elem_of_nil|done].
    intros h lk. rewrite Hh. split; [intros; split; [done|apply not_elem_of_nil]|by intros []].
Qed.

Lemma update_consistent_accounts height chain users pow d out d' :
  accounts_ok d → update height chain users pow d = Ok (out, d') → accounts_ok d'.
Proof. intros Hok Hrun. by eapply update_consistent_ok. Qed.

(** Storing the result of a scan keeps the account tables consistent, and
    every account keeps its data but for the scan height, which only moves
    forward, and only to the last scanned block. *)
Theorem update_consistent height chain users pow d out d' :
  accounts_ok d → update height chain users pow d = Ok (out, d') →
  accounts_ok d' ∧
  ∀ s a, a ∈ dups accounts s d →
    ∃ a', a' ∈ dups accounts s d' ∧
      (a' = a ∨
       let last_update := wrap 64 (height + Z.of_nat (length chain) - 1) in
       acc_scan_height a < last_update ∧ a' = with_scan_height last_update a).
Proof. apply update_consistent_ok. Qed.

(** *** The outputs found are stored *)

Lemma existing_account_ext user d d' :
  (∀ s, get_both accounts s (account_id user) d' = get_both accounts s (account_id user) d) →
  (∀ k, dups accounts_by_address k d' = dups accounts_by_address k d) →
  existing_account user d' = existing_account user d.
Proof.
  intros Hacc Hba. unfold existing_account. rewrite Hacc. destruct (get_both accounts active _ d); [done|].
  destruct (db_address user) as [address|]; [|done]. simpl.
  assert (find_by_address address d' = find_by_address address d) as ->.
  { apply (get_both_ext accounts_by_address). intros v _. by rewrite Hba. }
  destruct (find_by_address address d) as [v|]; [|done]. by rewrite Hacc.
Qed.

Lemma store_scan_outputs lu first_new user s a out d out' d' k o :
  store_scan lu first_new user s a out d = Ok (out', d') →
  o ∈ dups outputs k d → o ∈ dups outputs k d'.
Proof. intros [_ Ho]%store_scan_effect Hin. rewrite Ho. by apply (bulk_insert_keeps outputs). Qed.

Lemma update_users_outputs lu first_new users k o : ∀ heights out d out' d',
  update_users lu first_new users heights out d = Ok (out', d') →
  o ∈ dups outputs k d → o ∈ dups outputs k d'.
Proof.
  induction users as [|user users IH]; intros heights out d out' d' Hrun Hin;
    cbn [update_users] in Hrun; cbv zeta in Hrun.
  { injection Hrun as <- <-. by rewrite (bulk_insert_other accounts_by_height _ _ _ outputs). }
  set (d1 := if bool_decide (length heights = 127%nat) then _ else d) in *.
  assert (o ∈ dups outputs k d1) as H1.
  { unfold d1. case_bool_decide; [|done]. by rewrite (bulk_insert_other accounts_by_height _ _ _ outputs). }
  apply expect_bind_ok in Hrun as ([[s a]|] & _ & Hrun); [|by eapply IH].
  destruct (_ <? scan_height user); [by eapply IH|].
  destruct (lu <=? acc_scan_height a); [by eapply IH|].
  apply expect_bind_ok in Hrun as ([out1 d2] & Hs & Hrun).
  eapply IH; [exact Hrun|]. by eapply store_scan_outputs.
Qed.

(** What is stored for a scanned account. *)
Definition scan_stored (lu : Z) (user : lws_account) (s : account_status) (a : account) (d : db L) : Prop :=
  with_scan_height lu a ∈ dups accounts s d ∧
  ∀ o, o ∈ la_outputs user → ∃ o', o' ∈ dups outputs (account_id user) d ∧ output_key_of o' = output_key_of o.

Lemma update_users_stored lu first_new users user s a : ∀ heights out d out' d',
  NoDup (account_id <$> users) → user ∈ users →
  rolling lu heights d → existing_account user d = Ok (Some (s, a)) →
  scan_height user <= acc_scan_height a < lu →
  update_users lu first_new users heights out d = Ok (out', d') → scan_stored lu user s a d'.
Proof.
  induction users as [|u users IH]; intros heights out d out' d' Hnd Hin Hr Hex Hh Hrun;
    [by apply elem_of_nil in Hin|].
  cbn [update_users] in Hrun; cbv zeta in Hrun.
  set (full := bool_decide (length heights = 127%nat)) in *.
  set (d1 := if full then bulk_insert accounts_by_height lu heights d else d) in *.
  set (h1 := if full then [] else heights) in *.
  assert (rolling lu h1 d1) as Hr1 by (unfold h1, d1; destruct full; [by apply rolling_flush|done]).
  assert (touches [accounts_by_height] d d1) as Ht1.
  { unfold d1. destruct full; [apply touches_bulk_insert; set_solver|done]. }
  assert (existing_account user d1 = Ok (Some (s, a))) as Hex1.
  { rewrite <-Hex. apply existing_account_ext; [|intros; apply Ht1; set_solver].
    intros s'. apply (get_both_touches _ accounts _ _ _ _ Ht1). set_solver. }
  apply expect_bind_ok in Hrun as (found & Hf & Hrun). rewrite fmap_cons in Hnd.
  apply NoDup_cons in Hnd as [Hu Hnd]. apply elem_of_cons in Hin as [<-|Hin].
  - rewrite Hex1 in Hf. injection Hf as <-.
    destruct (Z.ltb_spec (acc_scan_height a) (scan_height user)); [lia|].
    destruct (Z.leb_spec lu (acc_scan_height a)); [lia|].
    apply expect_bind_ok in Hrun as ([out1 d2] & Hs & Hrun).
    destruct (existing_account_ok _ _ _ _ Hex1) as [Ha Hid].
    destruct (store_scan_ok _ _ _ _ _ _ _ _ _ _ Hr1 Ha Hid ltac:(lia) Hs) as (Hr2 & _ & _ & Hel). split.
    + apply update_users_ok in Hrun as [_ [Hadv _]]; [|exact Hr2].
      destruct (Hadv s (with_scan_height lu a)) as (x & Hx & [->|[Hlt _]]); [|done|simpl in Hlt; lia].
      apply Hel. by left.
    + intros o Ho. apply store_scan_effect in Hs as [_ Hout].
      destruct (bulk_insert_present outputs (account_id user) (la_outputs user) d1 o Ho) as (o' & Ho' & Heq).
      exists o'. split; [|done]. eapply update_users_outputs; [exact Hrun|]. by rewrite Hout.
  - destruct found as [[s1 a1]|]; [|by eapply IH].
    destruct (_ <? scan_height u); [by eapply IH|].
    destruct (Z.leb_spec lu (acc_scan_height a1)) as [|Hlt]; [by eapply IH|].
    apply expect_bind_ok in Hrun as ([out1 d2] & Hs & Hrun).
    apply existing_account_ok in Hf as [Ha Hid].
    destruct (store_scan_ok _ _ _ _ _ _ _ _ _ _ Hr1 Ha Hid Hlt Hs) as (Hr2 & _ & Hba & Hel).
    eapply IH; [done|done|exact Hr2| |done|exact Hrun]. rewrite <-Hex1.
    apply existing_account_ext; [|done]. intros s'. apply (get_both_ext accounts). intros x Hx. rewrite Hel.
    assert (account_id user ≠ account_id u) as Hne.
    { intros Heq. apply Hu. rewrite <-Heq. by apply list_elem_of_fmap_2. }
    simpl in Hx. split; [|intros; right; split; [done|congruence]].
    intros [[-> ->]|[? _]]; [|done]. simpl in Hx. congruence.
Qed.

(** C2: an update that succeeds stores every output of every account it moves
    forward: an account in the database that is behind the last scanned block,
    and not behind what was scanned, ends at that block with its outputs in the
    table. *)
Theorem update_stores_outputs height chain users pow d out d' user s a :
  let last_update := wrap 64 (height + Z.of_nat (length chain) - 1) in
  accounts_ok d → NoDup (account_id <$> users) → user ∈ users →
  existing_account user d = Ok (Some (s, a)) →
  scan_height user <= acc_scan_height a < last_update →
  update height chain users pow d = Ok (out, d') →
  with_scan_height last_update a ∈ dups accounts s d' ∧
  ∀ o, o ∈ la_outputs user →
    ∃ o', o' ∈ dups outputs (account_id user) d' ∧ output_key_of o' = output_key_of o.
Proof.
  intros lu Hok Hnd Hin Hex Hh. unfold update. destruct (_ && _) eqn:E.
  { apply andb_true_iff in E as [->%bool_decide_eq_true _]. by apply elem_of_nil in Hin. }
  cbv zeta. fold lu. intros (_ & _ & Hrun)%expect_bind_ok. apply expect_bind_ok in Hrun as (_ & _ & Hrun).
  apply expect_bind_ok in Hrun as (d1 & H1%touches_update_chain & Hrun).
  assert (accounts_ok d1) as [Ha Hbh Hu] by (eapply accounts_ok_touches; [exact H1|set_solver..|done]).
  eapply (update_users_stored lu _ users); [done|done| | |done|exact Hrun].
  - split; [done| |by intros ? ?%elem_of_nil|done].
    intros h lk. rewrite Hbh. split; [intros; split; [done|apply not_elem_of_nil]|by intros []].
  - rewrite <-Hex. apply existing_account_ext; [|intros; apply H1; set_solver].
    intros s'. apply (get_both_touches _ accounts _ _ _ _ H1). set_solver.
Qed.
(** *** The webhooks of spends *)

Lemma fold_err_fails {A S} (f : S → A → expect S) (e : error) (l : list A) (x : A) :
  x ∈ l → (∀ s, f s x = Err e) → (∀ s a, (∃ s', f s a = Ok s') ∨ f s a = Err e) →
  ∀ s, fold_err f s l = Err e.
Proof.
  intros Hin Hx Hf. induction l as [|a l IH]; intros s; [by apply elem_of_nil in Hin|]. simpl.
  apply elem_of_cons in Hin as [<-|Hin]; [by rewrite Hx|].
  destruct (Hf s a) as [[s' ->]| ->]; [by apply IH|done].
Qed.

Lemma fold_err_or {A S} (f : S → A → expect S) (e : error) (l : list A) :
  (∀ s a, (∃ s', f s a = Ok s') ∨ f s a = Err e) →
  ∀ s, (∃ s', fold_err f s l = Ok s') ∨ fold_err f s l = Err e.
Proof.
  intros Hf. induction l as [|a l IH]; intros s; simpl; [eauto|].
  destruct (Hf s a) as [[s' ->]| ->]; [apply IH|by right].
Qed.

Lemma find_source_or user s d : (∃ m, find_source user s d = Ok m) ∨ find_source user s d = Err mdb_notfound.
Proof. unfold find_source. destruct (seek_range _ _ _ _); [by right|]. destruct (List.find _ _); eauto. Qed.

(** The search for the source of a spend starts from an output at or above
    the height of the spend.  When an account has no such output, a single
    [tx_spend] webhook makes [check_spends], and with it the whole update, fail,
    wherever the source is stored. *)
Theorem check_spends_not_found events user found s v d :
  s ∈ found → v ∈ dups webhooks (WebhookKey user tx_spend) d →
  (∀ o, o ∈ dups outputs user d → tl_height (o_link o) < tl_height (s_link s)) →
  check_spends events user found d = Err mdb_notfound.
Proof.
  intros Hs Hv Hbelow. unfold check_spends.
  assert (find_source user s d = Err mdb_notfound) as Hfind.
  { unfold find_source, seek_range. rewrite drop_while_all; [done|].
    intros o Ho. apply Z.ltb_lt. by apply Hbelow. }
  apply (fold_err_fails _ _ _ v); [exact Hv| |].
  - intros evs. apply (fold_err_fails _ _ _ s); [done|intros; by rewrite Hfind|].
    intros evs' s'. destruct (find_source_or user s' d) as [[m ->]| ->]; simpl; eauto.
  - intros evs w. apply fold_err_or.
    intros evs' s'. destruct (find_source_or user s' d) as [[m ->]| ->]; simpl; eauto.
Qed.
End update_theorems.

(** ** Witnesses *)

#[local] Existing Instance test_config.

(** The account of [Accounts.account_db], with an output found in block 5. *)
Definition scanned_user (spends_found : list spend) : lws_account :=
  LwsAccount (Some (Internal "" 1 (test_address 6) 6)) [] [] spends_found [test_found 3 2] 4.

Definition updated_db : db ListDb.lmdb :=
  match update 4 [104; 105] [scanned_user []] [] account_db with
  | Ok (_, d) => d
  | Err _ => empty_db
  end.

Lemma updated_db_run : update 4 [104; 105] [scanned_user []] [] account_db = Ok (Updated [] [] 1, updated_db).
Proof. reflexivity. Qed.

Lemma update_consistent_witness :
  accounts_ok updated_db ∧ ∃ a', a' ∈ dups accounts active updated_db ∧ acc_scan_height a' = 5.
Proof.
  destruct (update_consistent 4 [104; 105] [scanned_user []] [] account_db _ updated_db
    account_db_ok updated_db_run) as [Hok _].
  split; [exact Hok|]. exists (with_scan_height 5 (test_account 1 6 4)).
  split; [vm_compute; left|reflexivity].
Defined.

Lemma update_stores_outputs_witness :
  with_scan_height 5 (test_account 1 6 4) ∈ dups accounts active updated_db ∧
  ∃ o', o' ∈ dups outputs 1 updated_db ∧ output_key_of o' = output_key_of (test_found 3 2).
Proof.
  destruct (update_stores_outputs 4 [104; 105] [scanned_user []] [] account_db (Updated [] [] 1) updated_db
    (scanned_user []) active (test_account 1 6 4)) as [Ha Ho].
  - exact account_db_ok.
  - vm_compute. repeat constructor. by intros ?%elem_of_nil.
  - by left.
  - reflexivity.
  - vm_compute. split; [discriminate|reflexivity].
  - exact updated_db_run.
  - split; [exact Ha|]. apply Ho. by left.
Defined.

(** A spend in block 6 of the output of block 5, with a webhook for spends. *)
Definition test_spend : spend :=
  {| s_link := TransactionLink 6 8; s_image := 21; s_source := OutputId 0 2; s_timestamp := 0;
     s_unlock_time := 0; s_mixin_count := 9; s_length := 0; s_payment_id := [];
     s_sender := AddressIndex 0 1 |}.

Definition hooked_db : db ListDb.lmdb :=
  put webhooks (WebhookKey 1 tx_spend) (test_hook 0 9) updated_db.

Definition spending_user : lws_account :=
  LwsAccount (Some (Internal "" 1 (test_address 6) 6)) [] [] [test_spend] [] 5.

Lemma check_spends_not_found_witness :
  test_found 3 2 ∈ dups outputs 1 hooked_db ∧
  sme_id (o_spend_meta (test_found 3 2)) = s_source test_spend ∧
  check_spends [] 1 [test_spend] hooked_db = Err mdb_notfound ∧
  update 5 [105; 106] [spending_user] [] hooked_db = Err mdb_notfound ∧
  ∃ out d', update 5 [105; 106] [spending_user] [] updated_db = Ok (out, d').
Proof.
  split; [vm_compute; left|]. split; [reflexivity|]. split.
  - apply (check_spends_not_found [] 1 [test_spend] test_spend (test_hook 0 9) hooked_db).
    + by left.
    + vm_compute. left.
    + assert (dups outputs 1 hooked_db = [test_found 3 2]) as -> by reflexivity.
      intros o [->|[]%elem_of_nil]%elem_of_cons. simpl. lia.
  - split; [reflexivity|]. eexists _, _. reflexivity.
Defined.
