(* ===== verification/KeyImages.v ===== *)
(** * Key images from the client (src/src/db/storage.cpp, lines 3513-3811)

    A view-only server does not know which outputs are spent: clients send the
    key images of their outputs ([import_key_images]) and the outputs of
    transactions they just submitted ([record_pending_spends]).  The counters of
    the result are unbounded here; the code's are 64 bits wide.  The summaries
    the code only logs are left out. *)

From S2P Require Import Prelude Lmdb Data Compare Tables.

Section key_images.
Context `{L : Lmdb}.
Implicit Types d : db L.

(** The fields of [import_key_images_result], each a counter. *)
Inductive counter :=
  | imported | confirmed | unconfirmed | unique_inputs | known_spend_inputs | already_confirmed
  | exact_source_candidates | exact_source_known_spend | exact_source_unknown_spend
  | exact_source_matched_output | exact_source_missing_output | exact_source_inserted
  | exact_source_already_present | exact_source_replaced.

#[export] Instance counter_eq_dec : EqDecision counter.
Proof. solve_decision. Defined.

Definition import_key_images_result : Type := counter → Z.

Definition incr (c : counter) (out : import_key_images_result) : import_key_images_result :=
  λ c', if decide (c = c') then out c' + 1 else out c'.

(** The [std::set] of key images of the account's spends. *)
Definition known_spends (id : Z) (d : db L) : list Z := s_image <$> dups spends id d.

(** The [std::set] of the images given, in order. *)
Definition unique_input (images : list Z) : list Z := merge_sort Z.le (remove_dups images).

(** The body of the loop over the unique images. *)
Definition import_image (id : Z) (known : list Z) (st : import_key_images_result * db L) (image : Z) :
    import_key_images_result * db L :=
  let '(out, d) := st in
  if bool_decide (image ∉ known) then (incr unconfirmed out, d)
  else
    let out := incr confirmed (incr known_spend_inputs out) in
    match put_nodup confirmed_spends id image d with
    | Ok d => (incr imported out, d)
    | Err _ => (incr already_confirmed out, d)
    end.

(** An output is the one an imported source names. *)
Definition source_matches (source : key_image_source) (out_row : output) : bool :=
  (low (sme_id (o_spend_meta out_row)) =? low (kis_source source)) &&
  (sme_index (o_spend_meta out_row) =? kis_out_index source) &&
  (tl_tx_hash (o_link out_row) =? kis_tx_hash source) &&
  (o_pub out_row =? kis_pub source).

Definition resolve (source : key_image_source) (out_row : output) : key_image_source :=
  KeyImageSource (kis_image source) (sme_id (o_spend_meta out_row)) (kis_tx_hash source)
    (kis_pub source) (kis_out_index source).

Definition delete_source (id : Z) (st : import_key_images_result * db L) (existing : key_image_source) :
    import_key_images_result * db L :=
  let '(out, d) := st in
  match get_both imported_spend_sources id (key_image_source_key_of existing) d with
  | None => (out, d)
  | Some _ =>
      (incr exact_source_replaced out,
       del imported_spend_sources id (key_image_source_key_of existing) d)
  end.

(** A source that matches an output takes the place of those stored for its image. *)
Definition store_source (id : Z) (resolved : key_image_source) (st : import_key_images_result * db L) :
    import_key_images_result * db L :=
  let '(out, d) := st in
  let existing_sources :=
    filter (λ e, kis_image e = kis_image resolved) (dups imported_spend_sources id d) in
  if bool_decide (resolved ∈ existing_sources) then (incr exact_source_already_present out, d)
  else
    let '(out, d) := foldl (delete_source id) (out, d) existing_sources in
    match put_nodup imported_spend_sources id resolved d with
    | Ok d => (incr exact_source_inserted out, d)
    | Err _ => (incr exact_source_already_present out, d)
    end.

(** The body of the loop over the sources. *)
Definition import_source (id : Z) (known : list Z) (output_rows : list output)
    (st : import_key_images_result * db L) (source : key_image_source) :
    import_key_images_result * db L :=
  let '(out, d) := st in
  let out := incr exact_source_candidates out in
  if bool_decide (kis_image source ∉ known) then (incr exact_source_unknown_spend out, d)
  else
    let out := incr exact_source_known_spend out in
    match List.find (source_matches source) output_rows with
    | None => (incr exact_source_missing_output out, d)
    | Some out_row =>
        store_source id (resolve source out_row) (incr exact_source_matched_output out, d)
    end.

Definition import_key_images (id : Z) (images : list Z) (sources : list key_image_source) (d : db L) :
    import_key_images_result * db L :=
  let known := known_spends id d in
  let unique := unique_input images in
  let out := λ c, if decide (c = unique_inputs) then Z.of_nat (length unique) else 0 in
  let '(out, d) := foldl (import_image id known) (out, d) unique in
  foldl (import_source id known (dups outputs id d)) (out, d) sources.

Definition record_pending_spends (id : Z) (l : list pending_spend) (d : db L) : db L :=
  foldl (put_skip pending_spends id) d l.
End key_images.

(** ** Theorems *)

Section key_image_theorems.
Context `{LL : LmdbLaws}.
Implicit Types (d : db L) (st : import_key_images_result * db L).

Lemma incr_eq c out : incr c out c = out c + 1.
Proof. unfold incr. by rewrite decide_True. Qed.

Lemma incr_ne c c' out : c ≠ c' → incr c out c' = out c'.
Proof. intros. unfold incr. by rewrite decide_False. Qed.

(** What the loop over the images has done after the images [seen]. *)
Record images_imported (id : Z) (known seen : list Z) (d : db L) st : Prop := {
  ii_touches : touches [confirmed_spends] d st.2;
  ii_elem image : image ∈ dups confirmed_spends id st.2 ↔
    image ∈ dups confirmed_spends id d ∨ image ∈ seen ∧ image ∈ known;
  ii_confirmed : st.1 imported + st.1 already_confirmed = st.1 confirmed;
  ii_seen : st.1 confirmed + st.1 unconfirmed = Z.of_nat (length seen)
}.

Lemma import_image_ok id known seen d st image :
  images_imported id known seen d st →
  images_imported id known (seen ++ [image]) d (import_image id known st image).
Proof.
  destruct st as [out d1]. intros [Ht He Hc Hs]. cbn [fst snd] in *. unfold import_image.
  assert (∀ x, x ∈ seen ++ [image] ↔ x ∈ seen ∨ x = image) as Hsnoc.
  { intros x. by rewrite elem_of_app, list_elem_of_singleton. }
  case_bool_decide as Hk.
  { split; cbn [fst snd]; [done| | |].
    - intros x. rewrite He, Hsnoc. split; [tauto|]. intros [?|[[?| ->] ?]]; tauto.
    - by rewrite !incr_ne.
    - rewrite incr_eq, incr_ne, length_app by done. simpl. lia. }
  destruct (put_nodup confirmed_spends id image d1) as [d2|] eqn:E.
  - apply put_nodup_Ok in E as [-> _]. split; cbn [fst snd].
    + etrans; [exact Ht|apply touches_put; set_solver].
    + intros x. rewrite (elem_of_dups_put confirmed_spends), He, Hsnoc. cbn.
      destruct (decide (x = image)) as [->|Hne]; [by intuition|].
      split; [intros [[_ ->]|[? _]]; [done|tauto]|]. intros Hx. right. split; [|by intros _].
      destruct Hx as [?|[[?| ->] ?]]; tauto.
    + repeat first [rewrite incr_eq|rewrite incr_ne by done]. lia.
    + rewrite length_app. repeat first [rewrite incr_eq|rewrite incr_ne by done]. simpl. lia.
  - assert (image ∈ dups confirmed_spends id d1) as Hin.
    { destruct (get_both confirmed_spends id image d1) as [u|] eqn:G.
      - apply (get_both_Some confirmed_spends) in G as [G Gu]. cbn in Gu. by rewrite <-Gu.
      - assert (put_nodup confirmed_spends id image d1 = Ok (put confirmed_spends id image d1)) as E';
          [|congruence]. apply put_nodup_Ok. split; [done|]. by apply (get_both_None confirmed_spends). }
    split; cbn [fst snd]; [done| | |].
    + intros x. rewrite He, Hsnoc. split; [tauto|]. intros [?|[[?| ->] ?]]; [tauto..|by apply He].
    + repeat first [rewrite incr_eq|rewrite incr_ne by done]. lia.
    + rewrite length_app. repeat first [rewrite incr_eq|rewrite incr_ne by done]. simpl. lia.
Qed.

Lemma import_images_ok id known images d : ∀ seen st,
  images_imported id known seen d st →
  images_imported id known (seen ++ images) d (foldl (import_image id known) st images).
Proof.
  induction images as [|image images IH]; intros seen st Hst; simpl; [by rewrite app_nil_r|].
  rewrite (cons_middle image seen images), app_assoc. apply IH. by apply import_image_ok.
Qed.

(** What the loop over the sources preserves; [known], [outs] and [sources] are
    those of the account. *)
Record sources_imported (id : Z) (known : list Z) (outs : list output) (sources : list key_image_source)
    (d : db L) st : Prop := {
  si_touches : touches [imported_spend_sources] d st.2;
  si_from x : x ∈ dups imported_spend_sources id st.2 →
    x ∈ dups imported_spend_sources id d ∨
    ∃ source o, source ∈ sources ∧ o ∈ outs ∧ kis_image source ∈ known ∧
      source_matches source o = true ∧ x = resolve source o;
  si_unique x y :
    (∀ x y, x ∈ dups imported_spend_sources id d → y ∈ dups imported_spend_sources id d →
       kis_image x = kis_image y → x = y) →
    x ∈ dups imported_spend_sources id st.2 → y ∈ dups imported_spend_sources id st.2 →
    kis_image x = kis_image y → x = y
}.

Lemma delete_sources_elem id l out d :
  touches [imported_spend_sources] d (foldl (delete_source id) (out, d) l).2 ∧
  ∀ x, x ∈ dups imported_spend_sources id (foldl (delete_source id) (out, d) l).2 ↔
    x ∈ dups imported_spend_sources id d ∧
    ∀ e, e ∈ l → key_image_source_key_of x ≠ key_image_source_key_of e.
Proof.
  revert out d. induction l as [|e l IH]; intros out d; cbn [foldl].
  { split; [done|]. intros x. split; [|by intros []]. intros Hx. split; [done|]. by intros e ?%elem_of_nil. }
  unfold delete_source at 2 4.
  destruct (get_both imported_spend_sources id (key_image_source_key_of e) d) as [u|] eqn:E.
  - destruct (IH (incr exact_source_replaced out)
      (del imported_spend_sources id (key_image_source_key_of e) d)) as [Ht Hx]. split.
    + etrans; [|exact Ht]. apply touches_del. set_solver.
    + intros x. rewrite Hx, (elem_of_dups_del imported_spend_sources). setoid_rewrite elem_of_cons. simpl.
      split; [intros [[Hin Hne] Hl]|intros [Hin Hl]; split_and!; [done|by auto|by auto]].
      split; [done|]. intros e' [->|He']; auto.
  - destruct (IH out d) as [Ht Hx]. split; [done|]. intros x. rewrite Hx. setoid_rewrite elem_of_cons.
    split; [intros [Hin Hl]|intros [Hin Hl]; split; [done|by auto]].
    split; [done|]. intros e' [->|He']; [|by auto].
    by apply (proj1 (get_both_None imported_spend_sources id _ d) E).
Qed.

Lemma store_source_ok id known outs sources d st source o :
  sources_imported id known outs sources d st →
  source ∈ sources → o ∈ outs → kis_image source ∈ known → source_matches source o = true →
  sources_imported id known outs sources d (store_source id (resolve source o) st).
Proof.
  destruct st as [out d1]. intros [Ht Hf Hu] Hs Ho Hk Hm. cbn [fst snd] in *. unfold store_source.
  set (r := resolve source o). set (existing := filter _ _).
  case_bool_decide; [by split|].
  destruct (foldl (delete_source id) (out, d1) existing) as [out2 d2] eqn:E.
  destruct (delete_sources_elem id existing out d1) as [Ht2 Hel]. rewrite E in Ht2, Hel.
  cbn [fst snd] in Ht2, Hel.
  assert (∀ x, x ∈ dups imported_spend_sources id d2 →
    x ∈ dups imported_spend_sources id d1 ∧ kis_image x ≠ kis_image r) as Hd2.
  { intros x [Hin Hne]%Hel. split; [done|]. intros Heq. apply (Hne x); [|done].
    by apply list_elem_of_filter. }
  assert (touches [imported_spend_sources] d d2) as Ht' by by trans d1.
  assert (sources_imported id known outs sources d (out2, d2)) as Hskip.
  { split; cbn [fst snd]; [done| |].
    - intros x [Hin _]%Hd2. by apply Hf.
    - intros x y Hd [Hx _]%Hd2 [Hy _]%Hd2. by apply Hu. }
  destruct (put_nodup imported_spend_sources id r d2) as [d3|] eqn:E3; [|by destruct Hskip].
  apply put_nodup_Ok in E3 as [-> _]. split; cbn [fst snd].
  - etrans; [exact Ht'|apply touches_put; set_solver].
  - intros x [[_ ->]|[Hx _]]%(elem_of_dups_put imported_spend_sources); [|by apply Hskip].
    right. by exists source, o.
  - intros x y Hd [[_ ->]|[Hx _]]%(elem_of_dups_put imported_spend_sources)
      [[_ ->]|[Hy _]]%(elem_of_dups_put imported_spend_sources); [done| | |by apply Hskip].
    + intros Heq. by apply Hd2 in Hy as [_ []].
    + intros Heq. by apply Hd2 in Hx as [_ []].
Qed.
Lemma import_sources_ok id known outs sources l d st :
  (∀ x, x ∈ l → x ∈ sources) → sources_imported id known outs sources d st →
  sources_imported id known outs sources d (foldl (import_source id known outs) st l).
Proof.
  revert st. induction l as [|source l IH]; intros st Hl Hst; simpl; [done|].
  apply IH; [intros x Hx; apply Hl; by right|]. destruct st as [out d1]. unfold import_source.
  assert (∀ out', sources_imported id known outs sources d (out', d1)) as Hout by by destruct Hst.
  case_bool_decide as Hk; [by apply Hout|].
  assert (kis_image source ∈ known) by (destruct (decide (kis_image source ∈ known)); tauto).
  destruct (List.find (source_matches source) outs) as [o|] eqn:E; [|by apply Hout].
  apply find_some in E as [Ho Hm]. apply store_source_ok; [done|apply Hl; by left| |done|done].
  by apply list_elem_of_In.
Qed.

Lemma elem_of_unique_input x images : x ∈ unique_input images ↔ x ∈ images.
Proof. unfold unique_input. by rewrite merge_sort_Permutation, elem_of_remove_dups. Qed.

Lemma import_images_spec id images d :
  let unique := unique_input images in
  let start : import_key_images_result :=
    λ c, if decide (c = unique_inputs) then Z.of_nat (length unique) else 0 in
  images_imported id (known_spends id d) unique d
    (foldl (import_image id (known_spends id d)) (start, d) unique).
Proof.
  intros unique start. apply (import_images_ok _ _ unique d []). split; cbn [fst snd]; [done| |done|done].
  intros x. rewrite elem_of_nil. tauto.
Qed.

(** Importing key images confirms exactly those that an observed spend of
    the account has, and leaves the other tables, but for the imported sources,
    alone. *)
Theorem import_key_images_confirms id images sources d :
  let d' := (import_key_images id images sources d).2 in
  (∀ image, image ∈ dups confirmed_spends id d' ↔
     image ∈ dups confirmed_spends id d ∨
     image ∈ images ∧ ∃ s, s ∈ dups spends id d ∧ s_image s = image) ∧
  touches [confirmed_spends; imported_spend_sources] d d'.
Proof.
  cbv zeta. unfold import_key_images. pose proof (import_images_spec id images d) as Hi.
  cbv zeta in Hi. destruct (foldl _ _ (unique_input images)) as [out d1].
  destruct Hi as [Ht He _ _]. cbn [fst snd] in *.
  assert (dups outputs id d1 = dups outputs id d) as -> by (apply Ht; set_solver).
  assert (sources_imported id (known_spends id d) (dups outputs id d) sources d1
    (foldl (import_source id (known_spends id d) (dups outputs id d)) (out, d1) sources)) as [Ht2 _ _].
  { apply import_sources_ok; [done|]. split; cbn [fst snd]; [done|by left|by auto]. }
  split.
  - intros image. rewrite (Ht2 confirmed_spends) by set_solver. rewrite He, elem_of_unique_input.
    unfold known_spends. rewrite list_elem_of_fmap. split; intros [?|[? (s & Hs)]]; [by left| |by left|];
      right; (split; [done|]); exists s; [by destruct Hs|by destruct Hs].
  - etrans; eapply touches_weaken; [|exact Ht| |exact Ht2]; set_solver.
Qed.

(** Every source that importing stores is that of an output of the account
    with the same transaction, key and index, for the image of an observed
    spend, and an account keeps at most one source for an image. *)
Theorem import_key_images_sources id images sources d :
  let d' := (import_key_images id images sources d).2 in
  (∀ x y, x ∈ dups imported_spend_sources id d → y ∈ dups imported_spend_sources id d →
     kis_image x = kis_image y → x = y) →
  (∀ x y, x ∈ dups imported_spend_sources id d' → y ∈ dups imported_spend_sources id d' →
     kis_image x = kis_image y → x = y) ∧
  ∀ x, x ∈ dups imported_spend_sources id d' →
    x ∈ dups imported_spend_sources id d ∨
    ∃ source o s, source ∈ sources ∧ o ∈ dups outputs id d ∧ s ∈ dups spends id d ∧
      s_image s = kis_image source ∧ source_matches source o = true ∧ x = resolve source o.
Proof.
  cbv zeta. unfold import_key_images. pose proof (import_images_spec id images d) as Hi.
  cbv zeta in Hi. destruct (foldl _ _ (unique_input images)) as [out d1].
  destruct Hi as [Ht _ _ _]. cbn [fst snd] in *. intros Hu.
  assert (dups outputs id d1 = dups outputs id d) as -> by (apply Ht; set_solver).
  assert (dups imported_spend_sources id d1 = dups imported_spend_sources id d) as Hd1
    by (apply Ht; set_solver).
  assert (sources_imported id (known_spends id d) (dups outputs id d) sources d1
    (foldl (import_source id (known_spends id d) (dups outputs id d)) (out, d1) sources)) as [_ Hf Hu'].
  { apply import_sources_ok; [done|]. split; cbn [fst snd]; [done|by left|by auto]. }
  split; [intros x y; apply Hu'; by rewrite Hd1|].
  intros x [Hx|(source & o & Hs & Ho & Hk & Hm & ->)]%Hf; [left; by rewrite <-Hd1|right].
  unfold known_spends in Hk. apply list_elem_of_fmap in Hk as (s & Heq & Hin). by exists source, o, s.
Qed.

(** The counters of the result add up: every image is either confirmed or
    not, and every confirmed one is new or was confirmed before. *)
Theorem import_key_images_counts id images d :
  let out := (import_key_images id images [] d).1 in
  out imported + out already_confirmed = out confirmed ∧
  out confirmed + out unconfirmed = Z.of_nat (length (unique_input images)).
Proof.
  cbv zeta. unfold import_key_images. pose proof (import_images_spec id images d) as Hi.
  cbv zeta in Hi. destruct (foldl _ _ (unique_input images)) as [out d1]. by destruct Hi.
Qed.

Lemma touches_import_key_images id images sources d :
  touches [confirmed_spends; imported_spend_sources] d (import_key_images id images sources d).2.
Proof.
  unfold import_key_images. pose proof (import_images_spec id images d) as Hi.
  cbv zeta in Hi. destruct (foldl _ _ (unique_input images)) as [out d1].
  destruct Hi as [Ht _ _ _]. cbn [fst snd] in *.
  assert (sources_imported id (known_spends id d) (dups outputs id d1) sources d1
    (foldl (import_source id (known_spends id d) (dups outputs id d1)) (out, d1) sources)) as [Ht2 _ _].
  { apply import_sources_ok; [done|]. split; cbn [fst snd]; [done|by left|by auto]. }
  etrans; eapply touches_weaken; [|exact Ht| |exact Ht2]; set_solver.
Qed.

Lemma touches_record_pending_spends id l d : touches [pending_spends] d (record_pending_spends id l d).
Proof. apply (touches_bulk_insert _ pending_spends). set_solver. Qed.
End key_image_theorems.

(** ** Witnesses *)

Definition spent_db : db ListDb.lmdb :=
  put outputs 1 {| o_link := TransactionLink 4 7; o_spend_meta := SpendMeta (OutputId 0 2) 5 11 0 9;
     o_timestamp := 0; o_unlock_time := 0; o_tx_prefix_hash := 1; o_pub := 2; o_ringct_mask := 3;
     o_extra := 128; o_payment_id := []; o_fee := 1; o_recipient := AddressIndex 0 0 |}
    (put spends 1 {| s_link := TransactionLink 6 8; s_image := 21; s_source := OutputId 0 2; s_timestamp := 0;
     s_unlock_time := 0; s_mixin_count := 9; s_length := 0; s_payment_id := [];
     s_sender := AddressIndex 0 1 |} empty_db).

Lemma import_key_images_confirms_witness :
  21 ∈ dups confirmed_spends 1 (import_key_images 1 [21; 22] [] spent_db).2.
Proof.
  apply (import_key_images_confirms 1 [21; 22] [] spent_db). right.
  split; [by left|]. eexists. split; [vm_compute; left|reflexivity].
Defined.

Lemma import_key_images_sources_witness :
  let sources := [KeyImageSource 21 (OutputId 9 2) 7 2 0] in
  let d' := (import_key_images 1 [21] sources spent_db).2 in
  KeyImageSource 21 (OutputId 0 2) 7 2 0 ∈ dups imported_spend_sources 1 d' ∧
  ∀ x y, x ∈ dups imported_spend_sources 1 d' → y ∈ dups imported_spend_sources 1 d' →
     kis_image x = kis_image y → x = y.
Proof.
  cbv zeta. split; [vm_compute; left|].
  apply (import_key_images_sources 1 [21] [KeyImageSource 21 (OutputId 9 2) 7 2 0] spent_db).
  assert (dups imported_spend_sources 1 spent_db = []) as -> by reflexivity.
  by intros x y ?%elem_of_nil.
Defined.

Lemma import_key_images_counts_witness :
  let out := (import_key_images 1 [21; 22; 21] [] spent_db).1 in
  out imported + out already_confirmed = out confirmed ∧ out confirmed + out unconfirmed = 2.
Proof. exact (import_key_images_counts 1 [21; 22; 21] spent_db). Defined.
