(* ===== verification/MultisigStore.v ===== *)
(** * The store of multisig wallets (src/src/db/multisig_store.cpp)

    A file next to the database keeps the multisig addresses with their locked
    transactions, and the multisig wallets.  Here the file is the record that
    its JSON text holds, with what reading enforces: the maximum number of elements
    of the arrays and the fallback to the first version of the format.  [Files] has
    the text, and shows that this is what any bytes are read as. *)

From stdpp Require Import pretty.
From S2P Require Import Prelude.

(** ** Data *)

Record multisig_tx_record := MultisigTxRecord {
  mtx_hash : string;
  mtx_amount : Z;
  mtx_timestamp : Z;
  mtx_context : string
}.

Record multisig_wallet_record := MultisigWalletRecord {
  mw_wallet_id : string;
  mw_address : string;
  mw_context : string;
  mw_threshold : Z;
  mw_total : Z;
  mw_participants : list string;
  mw_status : string;
  mw_created_at : Z
}.

Record multisig_address_data := MultisigAddressData {
  mad_address : string;
  mad_transactions : list multisig_tx_record;
  mad_total_locked : Z;
  mad_primary_context : string
}.

(** [multisig_snapshot_v2].  A file of the first version, which has no
    [wallets], is read as one with an empty list of them. *)
Record multisig_snapshot := MultisigSnapshot {
  snap_addresses : list multisig_address_data;
  snap_wallets : list multisig_wallet_record
}.

(** The file: missing or empty, a snapshot, or something that does not parse. *)
Inductive storage_file := Absent | Text (snapshot : multisig_snapshot) | Broken.

Record multisig_store := MultisigStore {
  ms_data : gmap string multisig_address_data;
  ms_wallets : list multisig_wallet_record;
  ms_file : storage_file
}.

Inductive register_tx_result := inserted | tx_updated | duplicate | invalid_input | overflow | io_error.

(** How writing the file ends: complete, without opening it, or after it was
    truncated, which leaves any content. *)
Inductive io := Written | OpenFailed | WriteFailed (content : storage_file).

(** ** Writing and reading the file *)

Definition max_multisig_txs : nat := 32.
Definition max_multisig_addresses : nat := 16.
Definition max_multisig_wallets : nat := 64.
Definition max_participants : nat := 8.

Definition address_leb (l r : string * multisig_address_data) : bool := String.leb l.1 r.1.

(** The entries of the [std::map] in order. *)
Definition ordered (data : gmap string multisig_address_data) : list multisig_address_data :=
  (merge_sort address_leb (map_to_list data)).*2.

Definition save_locked (res : io) (s : multisig_store) : bool * multisig_store :=
  let snapshot := MultisigSnapshot (ordered (ms_data s)) (ms_wallets s) in
  match res with
  | Written => (true, MultisigStore (ms_data s) (ms_wallets s) (Text snapshot))
  | OpenFailed => (false, s)
  | WriteFailed content => (false, MultisigStore (ms_data s) (ms_wallets s) content)
  end.

Definition addresses_fit (l : list multisig_address_data) : bool :=
  (length l <=? max_multisig_addresses)%nat &&
  forallb (λ a, length (mad_transactions a) <=? max_multisig_txs)%nat l.

Definition wallets_fit (l : list multisig_wallet_record) : bool :=
  (length l <=? max_multisig_wallets)%nat &&
  forallb (λ w, length (mw_participants w) <=? max_participants)%nat l.

(** [from_bytes] of [multisig_snapshot_v2] and of [multisig_snapshot], which
    skips the unknown field [wallets]. *)
Definition read_snapshot_v2 (t : multisig_snapshot) : expect multisig_snapshot :=
  _ ← guard_err (addresses_fit (snap_addresses t) && wallets_fit (snap_wallets t))
        (schema schema_array_max_element);
  Ok t.

Definition read_snapshot (t : multisig_snapshot) : expect (list multisig_address_data) :=
  _ ← guard_err (addresses_fit (snap_addresses t)) (schema schema_array_max_element);
  Ok (snap_addresses t).

(** [data.emplace]: an entry with the key stays. *)
Definition emplace (m : gmap string multisig_address_data) (a : multisig_address_data) :
    gmap string multisig_address_data :=
  match m !! mad_address a with Some _ => m | None => <[mad_address a := a]> m end.

Definition emplace_all (l : list multisig_address_data) : gmap string multisig_address_data :=
  foldl emplace ∅ l.

(** [load_locked]; an exception is [Err]. *)
Definition load_locked (s : multisig_store) : expect multisig_store :=
  match ms_file s with
  | Absent => Ok s
  | Broken => Err (schema schema_object)
  | Text t =>
      match read_snapshot_v2 t with
      | Ok t => Ok (MultisigStore (emplace_all (snap_addresses t)) (snap_wallets t) (ms_file s))
      | Err _ =>
          addresses ← read_snapshot t;
          Ok (MultisigStore (emplace_all addresses) [] (ms_file s))
      end
  end.

(** The constructor, on the file it finds. *)
Definition open_store (file : storage_file) : expect multisig_store :=
  load_locked (MultisigStore ∅ [] file).

(** ** Operations *)

Definition empty_address (address : string) : multisig_address_data :=
  MultisigAddressData address [] 0 "".

(** [data_[address]], with the address filled in. *)
Definition slot_of (address : string) (data : gmap string multisig_address_data) : multisig_address_data :=
  let slot := default (MultisigAddressData "" [] 0 "") (data !! address) in
  if decide (mad_address slot = ""%string)
  then MultisigAddressData address (mad_transactions slot) (mad_total_locked slot) (mad_primary_context slot)
  else slot.

Definition or_else (s t : string) : string := if decide (s = ""%string) then t else s.

Definition set_slot (address : string) (slot : multisig_address_data) (s : multisig_store) : multisig_store :=
  MultisigStore (<[address := slot]> (ms_data s)) (ms_wallets s) (ms_file s).

(** The first transaction with the hash, with its place. *)
Definition find_tx (tx_hash : string) (l : list multisig_tx_record) : option (nat * multisig_tx_record) :=
  list_find (λ tx, mtx_hash tx = tx_hash) l.

Definition register_tx_ex (res : io) (now : Z) (address tx_hash : string) (amount : Z) (context : string)
    (s : multisig_store) : register_tx_result * multisig_store :=
  if decide (address = ""%string ∨ tx_hash = ""%string) then (invalid_input, s)
  else
    let slot := slot_of address (ms_data s) in
    let total := mad_total_locked slot in
    let too_much := u64_max - total <? amount in
    let primary := or_else (mad_primary_context slot) context in
    let store := λ done transactions,
      let slot := MultisigAddressData (mad_address slot) transactions (total + amount) primary in
      let '(saved, s) := save_locked res (set_slot address slot s) in
      (if saved then done else io_error, s) in
    match find_tx tx_hash (mad_transactions slot) with
    | Some (i, tx) =>
        if (mtx_amount tx =? 0) && (0 <? amount) then
          if too_much then (overflow, set_slot address slot s)
          else
            store tx_updated
              (<[i := MultisigTxRecord (mtx_hash tx) amount (mtx_timestamp tx) (or_else (mtx_context tx) context)]>
                 (mad_transactions slot))
        else (duplicate, set_slot address slot s)
    | None =>
        if too_much then (overflow, set_slot address slot s)
        else store inserted (mad_transactions slot ++ [MultisigTxRecord tx_hash amount now context])
    end.

Definition register_tx (res : io) (now : Z) (address tx_hash : string) (amount : Z) (context : string)
    (s : multisig_store) : bool * multisig_store :=
  let '(result, s) := register_tx_ex res now address tx_hash amount context s in
  (match result with inserted => true | _ => false end, s).

(** An existing wallet with the id is replaced. *)
Definition put_wallet (wallet : multisig_wallet_record) (l : list multisig_wallet_record) :
    list multisig_wallet_record :=
  match list_find (λ w, mw_wallet_id w = mw_wallet_id wallet) l with
  | Some (i, _) => <[i := wallet]> l
  | None => l ++ [wallet]
  end.

Definition register_wallet (res : io) (wallet : multisig_wallet_record) (s : multisig_store) :
    bool * multisig_store :=
  if decide (mw_wallet_id wallet = ""%string ∨ mw_address wallet = ""%string) then (false, s)
  else save_locked res (MultisigStore (ms_data s) (put_wallet wallet (ms_wallets s)) (ms_file s)).

Definition list_wallets (s : multisig_store) : list multisig_wallet_record := ms_wallets s.

Definition get_balance (address : string) (s : multisig_store) : multisig_address_data :=
  default (empty_address address) (ms_data s !! address).

Definition get_multisig_transactions (address : string) (s : multisig_store) : list multisig_tx_record :=
  match ms_data s !! address with Some a => mad_transactions a | None => [] end.

(** ** Theorems *)

Definition sum_amounts (l : list multisig_tx_record) : Z := foldr (λ tx n, mtx_amount tx + n) 0 l.

Record slot_ok (address : string) (slot : multisig_address_data) : Prop := {
  so_address : mad_address slot = address;
  so_total : mad_total_locked slot = sum_amounts (mad_transactions slot);
  so_bound : 0 <= mad_total_locked slot <= u64_max;
  so_hashes : NoDup (mtx_hash <$> mad_transactions slot)
}.

Record store_ok (s : multisig_store) : Prop := {
  sto_slots address slot : ms_data s !! address = Some slot → address ≠ ""%string ∧ slot_ok address slot;
  sto_wallets : NoDup (mw_wallet_id <$> ms_wallets s)
}.

Lemma sum_amounts_app l k : sum_amounts (l ++ k) = sum_amounts l + sum_amounts k.
Proof. induction l as [|tx l IH]; simpl; [done|]. rewrite IH. lia. Qed.

Lemma sum_amounts_insert i tx tx' l :
  l !! i = Some tx → sum_amounts (<[i := tx']> l) = sum_amounts l - mtx_amount tx + mtx_amount tx'.
Proof.
  revert i. induction l as [|x l IH]; intros [|i] Hl; simpl in *; [done|done|injection Hl as ->; lia|].
  rewrite (IH i Hl). lia.
Qed.

Lemma slot_of_ok address s : store_ok s → slot_ok address (slot_of address (ms_data s)).
Proof.
  intros Hs. unfold slot_of. destruct (ms_data s !! address) as [slot|] eqn:E; simpl.
  - destruct (sto_slots s Hs _ _ E) as [Hne Hok]. rewrite decide_False; [done|].
    by rewrite (so_address _ _ Hok).
  - split; simpl; [done|done|unfold u64_max; lia|constructor].
Qed.

Lemma set_slot_ok address slot s :
  store_ok s → address ≠ ""%string → slot_ok address slot → store_ok (set_slot address slot s).
Proof.
  intros [Hs Hw] Hne Hok. split; [|done]. intros a sl. simpl.
  intros [[<- <-]|[_ Hl]]%lookup_insert_Some; [done|by apply Hs].
Qed.

Lemma save_locked_data res s saved s' :
  save_locked res s = (saved, s') → ms_data s' = ms_data s ∧ ms_wallets s' = ms_wallets s.
Proof. by destruct res; intros [= <- <-]. Qed.

Lemma store_ok_same s s' :
  ms_data s' = ms_data s → ms_wallets s' = ms_wallets s → store_ok s → store_ok s'.
Proof. intros Hd Hw [H1 H2]. split; [by rewrite Hd|by rewrite Hw]. Qed.

Lemma find_tx_Some h l i tx :
  find_tx h l = Some (i, tx) → l !! i = Some tx ∧ mtx_hash tx = h.
Proof. intros (? & ? & _)%list_find_Some. done. Qed.

Lemma find_tx_None h l : find_tx h l = None → h ∉ mtx_hash <$> l.
Proof.
  intros Hf%list_find_None. rewrite Forall_forall in Hf. intros (tx & -> & Htx)%list_elem_of_fmap.
  by apply (Hf tx).
Qed.

(** The transactions [register_tx_ex] stores. *)
Lemma stored_slot_ok address slot txs amount primary :
  slot_ok address slot → 0 <= amount → mad_total_locked slot + amount <= u64_max →
  sum_amounts txs = sum_amounts (mad_transactions slot) + amount → NoDup (mtx_hash <$> txs) →
  slot_ok address (MultisigAddressData (mad_address slot) txs (mad_total_locked slot + amount) primary).
Proof.
  intros [Ha Ht Hb Hn] H0 Hle Hsum Hnd. split; simpl; [done|by rewrite Ht, Hsum|lia|done].
Qed.

Lemma register_tx_keeps res now address tx_hash amount context s :
  store_ok s → 0 <= amount →
  store_ok (register_tx_ex res now address tx_hash amount context s).2.
Proof.
  intros Hs H0. unfold register_tx_ex. case_decide as Hempty; [done|].
  assert (address ≠ ""%string) as Hne by tauto.
  pose proof (slot_of_ok address s Hs) as Hslot. cbv zeta. set (slot := slot_of address (ms_data s)) in *.
  assert (∀ txs primary done,
    mad_total_locked slot + amount <= u64_max →
    sum_amounts txs = sum_amounts (mad_transactions slot) + amount → NoDup (mtx_hash <$> txs) →
    store_ok (let '(saved, s) := save_locked res (set_slot address
      (MultisigAddressData (mad_address slot) txs (mad_total_locked slot + amount) primary) s) in
      (if saved then done else io_error, s)).2) as Hstore.
  { intros txs primary done Hle Hsum Hnd.
    destruct (save_locked res _) as [saved s'] eqn:E. apply save_locked_data in E as [Hd Hw]. cbn [snd].
    eapply store_ok_same; [exact Hd|exact Hw|]. apply set_slot_ok; [exact Hs|exact Hne|].
    by apply stored_slot_ok. }
  destruct (find_tx _ _) as [[i tx]|] eqn:E.
  - apply find_tx_Some in E as [Hi Hh].
    destruct (_ && _) eqn:Ez; [|by apply set_slot_ok].
    apply andb_true_iff in Ez as [Ez%Z.eqb_eq _].
    destruct (Z.ltb_spec (u64_max - mad_total_locked slot) amount); [by apply set_slot_ok|].
    apply Hstore; [lia| |].
    + rewrite (sum_amounts_insert _ tx) by done. simpl. lia.
    + rewrite list_fmap_insert. simpl. rewrite list_insert_id; [apply Hslot|].
      by rewrite list_lookup_fmap, Hi.
  - apply find_tx_None in E.
    destruct (Z.ltb_spec (u64_max - mad_total_locked slot) amount); [by apply set_slot_ok|].
    apply Hstore; [lia| |].
    + rewrite sum_amounts_app. simpl. lia.
    + rewrite fmap_app. simpl. apply NoDup_app. split_and!; [apply Hslot| |apply NoDup_singleton].
      by intros h Hin ->%list_elem_of_singleton.
Qed.

(** C21: registering a transaction keeps the books of every address, whether the
    file could be written or not: the locked total is the sum of the amounts,
    fits 64 bits, and no hash is stored twice. *)
Theorem register_tx_ok res now address tx_hash amount context s :
  store_ok s → 0 <= amount →
  store_ok (register_tx_ex res now address tx_hash amount context s).2.
Proof. apply register_tx_keeps. Qed.

(** *** Wallets *)

Lemma put_wallet_ids wallet l :
  NoDup (mw_wallet_id <$> l) → NoDup (mw_wallet_id <$> put_wallet wallet l).
Proof.
  intros Hn. unfold put_wallet. destruct (list_find _ l) as [[i w]|] eqn:E.
  - apply list_find_Some in E as (Hi & Hw & _). rewrite list_fmap_insert, list_insert_id; [done|].
    by rewrite list_lookup_fmap, Hi, <-Hw.
  - apply list_find_None in E. rewrite Forall_forall in E. rewrite fmap_app. simpl.
    apply NoDup_app. split_and!; [done| |apply NoDup_singleton].
    intros id (w & -> & Hin)%list_elem_of_fmap Heq%list_elem_of_singleton. by apply (E w).
Qed.

(** Registering a wallet stores it under its id, in the place of the wallet
    with that id if there is one, and changes no other wallet. *)
Theorem register_wallet_spec wallet s s' :
  store_ok s → register_wallet Written wallet s = (true, s') →
  store_ok s' ∧ ms_data s' = ms_data s ∧ wallet ∈ list_wallets s' ∧
  ∀ w, mw_wallet_id w ≠ mw_wallet_id wallet → w ∈ list_wallets s' ↔ w ∈ list_wallets s.
Proof.
  intros [Hd Hw]. unfold register_wallet, list_wallets. case_decide; [done|]. intros [= <-]. simpl.
  split; [split; [done|by apply put_wallet_ids]|]. split; [done|].
  unfold put_wallet. destruct (list_find _ (ms_wallets s)) as [[i w]|] eqn:E.
  - apply list_find_Some in E as (Hi & Hid & _). split.
    { apply list_elem_of_lookup. exists i. apply list_lookup_insert_eq. by eapply lookup_lt_Some. }
    intros w' Hne. split; intros [j Hj]%list_elem_of_lookup; apply list_elem_of_lookup; exists j.
    + apply list_lookup_insert_Some in Hj as [(-> & <- & _)|[_ Hj]]; done.
    + rewrite list_lookup_insert_ne; [done|]. intros <-. congruence.
  - split; [apply elem_of_app; right; by left|]. intros w' Hne.
    rewrite elem_of_app, list_elem_of_singleton. split; [|by left]. by intros [?| ->].
Qed.

Lemma register_wallet_ok res wallet s b s' :
  register_wallet res wallet s = (b, s') → store_ok s → store_ok s'.
Proof.
  unfold register_wallet. intros Hrun Hs. case_decide; [by injection Hrun as _ <-|].
  apply save_locked_data in Hrun as [Hd Hw]. destruct Hs as [Hslots Hwallets].
  split; [by rewrite Hd|rewrite Hw; by apply put_wallet_ids].
Qed.

(** *** Reading back what was written *)

Lemma emplace_all_elem (l : list multisig_address_data) m (a : string) x :
  NoDup (mad_address <$> l) → (∀ y, y ∈ l → m !! mad_address y = None) →
  foldl emplace m l !! a = Some x ↔ m !! a = Some x ∨ (x ∈ l ∧ mad_address x = a).
Proof.
  revert m. induction l as [|y l IH]; intros m Hnd Hm; simpl.
  { rewrite elem_of_nil. tauto. }
  unfold emplace at 2.
  rewrite fmap_cons in Hnd. apply NoDup_cons in Hnd as [Hy Hnd].
  rewrite (Hm y) by by left. rewrite IH; [|done|].
  - rewrite lookup_insert_Some, elem_of_cons. split.
    + intros [[[<- <-]|[_ Hx]]|[Hx Hxa]]; auto.
    + intros [Hx|[[->|Hx] <-]]; [|auto..]. left. right. split; [|done].
      intros <-. rewrite (Hm y) in Hx by by left. done.
  - intros z Hz. rewrite lookup_insert_ne; [apply Hm; by right|]. intros Heq. apply Hy.
    rewrite Heq. by apply list_elem_of_fmap_2.
Qed.

Lemma elem_of_ordered data x : x ∈ ordered data ↔ ∃ a, data !! a = Some x.
Proof.
  unfold ordered. rewrite merge_sort_Permutation, list_elem_of_fmap. split.
  - intros ([a y] & -> & Hin%elem_of_map_to_list). by exists a.
  - intros [a Ha]. exists (a, x). split; [done|]. by apply elem_of_map_to_list.
Qed.

Lemma ordered_addresses s : store_ok s → NoDup (mad_address <$> ordered (ms_data s)).
Proof.
  intros Hs. assert (mad_address <$> ordered (ms_data s) =
    (merge_sort address_leb (map_to_list (ms_data s))).*1) as ->.
  { unfold ordered. rewrite <-list_fmap_compose. apply list_fmap_ext. intros i [a slot] Hi. simpl.
    apply list_elem_of_lookup_2 in Hi. rewrite merge_sort_Permutation in Hi.
    apply elem_of_map_to_list in Hi. by destruct (sto_slots s Hs _ _ Hi) as [_ [-> _ _ _]]. }
  rewrite merge_sort_Permutation. apply NoDup_fst_map_to_list.
Qed.

Lemma emplace_ordered s : store_ok s → emplace_all (ordered (ms_data s)) = ms_data s.
Proof.
  intros Hs. apply map_eq. intros a. apply option_eq. intros x. unfold emplace_all.
  rewrite emplace_all_elem; [|by apply ordered_addresses|done]. rewrite lookup_empty, elem_of_ordered. split.
  - intros [?|[[b Hb] <-]]; [done|]. by destruct (sto_slots s Hs _ _ Hb) as [_ [-> _ _ _]].
  - intros Ha. right. split; [by exists a|]. by destruct (sto_slots s Hs _ _ Ha) as [_ [-> _ _ _]].
Qed.

(** A store that was saved is read back the same if it keeps the limits of
    the reader.  With too many wallets, or participants of one, the fallback to
    the first format succeeds and all wallets are lost; with too many addresses
    or transactions the constructor throws. *)
Theorem reload_saved s s' :
  store_ok s → save_locked Written s = (true, s') →
  open_store (ms_file s') =
    if addresses_fit (ordered (ms_data s)) then
      Ok (MultisigStore (ms_data s) (if wallets_fit (ms_wallets s) then ms_wallets s else []) (ms_file s'))
    else Err (schema schema_array_max_element).
Proof.
  intros Hs [= <-]. unfold open_store, load_locked. simpl. unfold read_snapshot_v2, read_snapshot. simpl.
  destruct (addresses_fit _) eqn:Ea; simpl; [|done].
  destruct (wallets_fit _) eqn:Ew; simpl; by rewrite emplace_ordered.
Qed.

(** *** Registering again *)

Lemma slot_of_set address slot s :
  mad_address slot ≠ ""%string → slot_of address (ms_data (set_slot address slot s)) = slot.
Proof.
  intros Hne. unfold slot_of, set_slot. simpl. rewrite lookup_insert_eq. simpl. by rewrite decide_False.
Qed.

Lemma slot_of_same address s s' : ms_data s' = ms_data s → slot_of address (ms_data s') = slot_of address (ms_data s).
Proof. by intros ->. Qed.

(** A transaction that could not be written is kept in memory: the answer is
    [io_error], but registering it again is answered with [duplicate] and does
    not write it either, so that it is lost when the server stops. *)
Theorem io_error_keeps_transaction now now' address tx_hash amount context context' s :
  store_ok s → address ≠ ""%string → tx_hash ≠ ""%string →
  find_tx tx_hash (mad_transactions (slot_of address (ms_data s))) = None →
  0 < amount → mad_total_locked (slot_of address (ms_data s)) + amount <= u64_max →
  let '(result, s') := register_tx_ex OpenFailed now address tx_hash amount context s in
  result = io_error ∧ ms_file s' = ms_file s ∧
  register_tx_ex Written now' address tx_hash amount context' s' = (duplicate, s').
Proof.
  intros Hs Ha Ht Hnone H0 Hle. unfold register_tx_ex at 1. rewrite decide_False by tauto. cbv zeta.
  rewrite Hnone. pose proof (slot_of_ok address s Hs) as Hslot.
  set (slot := slot_of address (ms_data s)) in *.
  destruct (Z.ltb_spec (u64_max - mad_total_locked slot) amount); [lia|]. simpl.
  split; [done|]. split; [done|].
  match goal with |- register_tx_ex _ _ _ _ _ _ (set_slot _ ?sl _) = _ => set (slot' := sl) end.
  assert (mad_address slot' = address) as Haddr by (simpl; apply Hslot).
  unfold register_tx_ex. rewrite decide_False by tauto. cbv zeta.
  rewrite slot_of_set by by rewrite Haddr.
  assert (∃ i tx, find_tx tx_hash (mad_transactions slot') = Some (i, tx) ∧ mtx_amount tx = amount)
    as (i & tx & -> & Htx).
  { exists (length (mad_transactions slot)), (MultisigTxRecord tx_hash amount now context).
    split; [|done]. unfold find_tx. simpl. rewrite list_find_app_r by exact Hnone. simpl.
    by rewrite decide_True. }
  rewrite Htx. destruct (Z.eqb_spec amount 0); [lia|]. simpl.
  f_equal. unfold set_slot. simpl. by rewrite insert_insert_eq.
Qed.

(** ** Examples *)

Definition empty_store : multisig_store := MultisigStore ∅ [] Absent.

Definition wallet (id : string) : multisig_wallet_record :=
  MultisigWalletRecord id "4A" "" 2 3 ["a"; "b"; "c"]%string "active" 0.

(** A store with one transaction of which the amount is not known yet. *)
Definition one_tx : multisig_store := (register_tx_ex Written 7 "4A" "t1" 0 "" empty_store).2.

Lemma empty_store_ok : store_ok empty_store.
Proof. split; [|constructor]. intros a slot. simpl. by rewrite lookup_empty. Qed.

Lemma one_tx_ok : store_ok one_tx.
Proof. apply register_tx_keeps; [apply empty_store_ok|lia]. Qed.

Lemma register_tx_ok_witness :
  store_ok (register_tx_ex Written 9 "4A" "t1" 5 "rent" one_tx).2 ∧
  (register_tx_ex Written 9 "4A" "t1" 5 "rent" one_tx).1 = tx_updated ∧
  mad_total_locked (get_balance "4A" (register_tx_ex Written 9 "4A" "t1" 5 "rent" one_tx).2) = 5.
Proof.
  split; [|split; vm_compute; reflexivity]. apply register_tx_ok; [apply one_tx_ok|lia].
Defined.

Definition with_wallet : multisig_store := (register_wallet Written (wallet "w1") one_tx).2.

Lemma register_wallet_spec_witness :
  wallet "w1" ∈ list_wallets with_wallet ∧ ms_data with_wallet = ms_data one_tx.
Proof.
  destruct (register_wallet_spec (wallet "w1") one_tx with_wallet one_tx_ok) as (_ & Hd & Hw & _).
  - reflexivity.
  - by split.
Defined.

(** 65 wallets are written, and none is read back. *)
Definition many_wallets : multisig_store :=
  MultisigStore (ms_data one_tx) ((λ n, wallet (pretty n)) <$> seq 0 65) Absent.

Lemma many_wallets_ok : store_ok many_wallets.
Proof.
  split; [apply one_tx_ok|]. unfold many_wallets. cbn [ms_wallets]. rewrite <-(list_fmap_compose (λ n : nat, wallet (pretty n)) mw_wallet_id).
  apply NoDup_fmap_2; [|apply NoDup_seq]. intros n m Heq. by apply (inj pretty) in Heq.
Qed.

Lemma reload_saved_witness :
  open_store (ms_file with_wallet) = Ok (MultisigStore (ms_data one_tx) [wallet "w1"] (ms_file with_wallet)) ∧
  open_store (ms_file (save_locked Written many_wallets).2) =
    Ok (MultisigStore (ms_data one_tx) [] (ms_file (save_locked Written many_wallets).2)).
Proof.
  split.
  - rewrite (reload_saved (MultisigStore (ms_data one_tx) [wallet "w1"] (ms_file one_tx)) with_wallet).
    + reflexivity.
    + split; [apply one_tx_ok|]. apply NoDup_singleton.
    + reflexivity.
  - rewrite (reload_saved many_wallets (save_locked Written many_wallets).2 many_wallets_ok).
    + reflexivity.
    + reflexivity.
Defined.

Lemma io_error_keeps_transaction_witness :
  let '(result, s') := register_tx_ex OpenFailed 9 "4A" "t2" 5 "" one_tx in
  result = io_error ∧ ms_file s' = ms_file one_tx ∧
  register_tx_ex Written 10 "4A" "t2" 5 "" s' = (duplicate, s').
Proof.
  apply (io_error_keeps_transaction 9 10 "4A" "t2" 5 "" "" one_tx one_tx_ok);
    [done|done|reflexivity|lia|vm_compute; discriminate].
Defined.
