(* ===== verification/Kex.v ===== *)
(** * The registry of multisig key exchanges (src/src/rest_server.cpp, lines 212-272, 293-309, 359-505, 534-625 and 3611-3769)

    The participants of a multisig wallet exchange their key material through
    the server: each submits what it has for a round and gets what the others
    submitted.  The registry is kept in memory and in a file; a finalised wallet
    is handed to the multisig store.

    The iteration order of [std::unordered_map] is that of the class
    [HashOrder], of which only that it lists every entry once is known.  The
    clock and whether writing a file succeeds are arguments.  Every handler holds
    the mutex of the registry; [multisig_kex_finalize] releases it while it calls
    the multisig store, and is modelled as if nothing came in between. *)

From S2P Require Import Prelude MultisigStore.

Class HashOrder : Type := { entries : ∀ A, gmap string A → list (string * A) }.
Arguments entries {_ A} _.

Class HashOrderLaws (H : HashOrder) : Prop :=
  entries_perm : ∀ A (m : gmap string A), entries m ≡ₚ map_to_list m.

(** What the server reads from its environment and epee: the variables and
    whether a string is an address. *)
Class KexEnv : Type := {
  env_or_empty : string → string;
  address_string : string → bool
}.

(** ** Data *)

Record lws_multisig_kex_peer := KexPeer {
  kp_participant : string;
  kp_multisig_info : string;
  kp_round : Z;
  kp_updated_at : Z
}.

Record lws_multisig_kex_record := KexRecord {
  kr_wallet_id : string;
  kr_context : string;
  kr_threshold : Z;
  kr_total : Z;
  kr_participants : list string;
  kr_peers : gmap string lws_multisig_kex_peer;
  kr_address : string;
  kr_state : string;
  kr_created_at : Z;
  kr_updated_at : Z
}.

(** The record as it is written: the peers as an array. *)
Record lws_multisig_kex_record_snapshot := KexRecordSnapshot {
  ks_wallet_id : string;
  ks_context : string;
  ks_threshold : Z;
  ks_total : Z;
  ks_participants : list string;
  ks_peers : list lws_multisig_kex_peer;
  ks_address : string;
  ks_state : string;
  ks_created_at : Z;
  ks_updated_at : Z
}.

(** The file: missing or empty, the snapshots, or something that does not parse. *)
Inductive kex_file :=
  | KexAbsent
  | KexText (records : list lws_multisig_kex_record_snapshot)
  | KexBroken.

Record kex_registry := KexRegistry {
  kx_records : gmap string lws_multisig_kex_record;
  kx_file : kex_file
}.

Record multisig_kex_submit_request := KexSubmitRequest {
  sub_wallet_id : string;
  sub_context : string;
  sub_participant : string;
  sub_multisig_info : string;
  sub_round : Z;
  sub_threshold : Z;
  sub_total : Z;
  sub_created_at : Z;
  sub_auth_token : string
}.

(** The messages of the responses, which are constants, are left out. *)
Record multisig_kex_response := KexResponse {
  kxr_success : bool;
  kxr_wallet_id : string;
  kxr_state : string;
  kxr_threshold : Z;
  kxr_total : Z;
  kxr_participants : list string;
  kxr_peer_multisig_info : list string;
  kxr_created_at : Z
}.

Record multisig_kex_status_request := KexStatusRequest {
  st_wallet_id : string;
  st_context : string
}.

Record multisig_kex_status_response := KexStatusResponse {
  sr_success : bool;
  sr_wallet_id : string;
  sr_context : string;
  sr_state : string;
  sr_threshold : Z;
  sr_total : Z;
  sr_participants : list string;
  sr_submitted_participants : list string;
  sr_missing_participants : list string;
  sr_round : Z;
  sr_address : string;
  sr_created_at : Z;
  sr_updated_at : Z
}.

Record multisig_kex_finalize_request := KexFinalizeRequest {
  fin_wallet_id : string;
  fin_address : string;
  fin_context : string;
  fin_status : string
}.

Section kex.
Context `{O : HashOrder} `{E : KexEnv}.

(** ** Limits *)

Definition lws_multisig_kex_max_entries : nat := 128.
Definition lws_multisig_kex_ttl_seconds : Z := 60 * 60.
Definition max_lws_multisig_kex_records : nat := 256.
Definition max_lws_multisig_kex_participants : nat := 8.
Definition max_lws_multisig_kex_peers : nat := 8.

(** ** Authorisation *)

Definition expected_kex_token_for_participant (participant : string) : string :=
  if decide (participant = "oracle"%string) then env_or_empty "XFO_LWS_ORACLE_KEX_TOKEN"
  else if decide (participant = "dao"%string) then env_or_empty "XFO_LWS_DAO_KEX_TOKEN"
  else if decide (participant = "pool"%string) then env_or_empty "XFO_LWS_POOL_KEX_TOKEN"
  else "".

Definition is_internal_kex_participant (participant : string) : bool :=
  bool_decide (participant = "oracle"%string) || bool_decide (participant = "dao"%string) ||
  bool_decide (participant = "pool"%string).

Definition has_valid_kex_participant_auth (participant auth_token : string) : bool :=
  if negb (is_internal_kex_participant participant) then true
  else
    let expected := expected_kex_token_for_participant participant in
    negb (bool_decide (expected = ""%string)) && bool_decide (auth_token = expected).

(** ** Writing and reading the file *)

Definition snapshot_record (r : lws_multisig_kex_record) : lws_multisig_kex_record_snapshot :=
  KexRecordSnapshot (kr_wallet_id r) (kr_context r) (kr_threshold r) (kr_total r) (kr_participants r)
    (entries (kr_peers r)).*2 (kr_address r) (kr_state r) (kr_created_at r) (kr_updated_at r).

Definition snapshot_lws_multisig_kex (records : gmap string lws_multisig_kex_record) :
    list lws_multisig_kex_record_snapshot :=
  snapshot_record <$> (entries records).*2.

(** The snapshot is written beside the file and then takes its place: on a
    failure the file is as it was. *)
Definition save_lws_multisig_kex_registry (written : bool) (s : kex_registry) : bool * kex_registry :=
  if written then (true, KexRegistry (kx_records s) (KexText (snapshot_lws_multisig_kex (kx_records s))))
  else (false, s).

Definition kex_file_fits (l : list lws_multisig_kex_record_snapshot) : bool :=
  (length l <=? max_lws_multisig_kex_records)%nat &&
  forallb (λ r, (length (ks_participants r) <=? max_lws_multisig_kex_participants)%nat &&
                (length (ks_peers r) <=? max_lws_multisig_kex_peers)%nat) l.

(** An element without a name is skipped; of two with one name the last stays. *)
Definition insert_named {A B} (name : A → string) (f : A → B) (m : gmap string B) (x : A) : gmap string B :=
  if decide (name x = ""%string) then m else <[name x := f x]> m.

Definition load_peers (l : list lws_multisig_kex_peer) : gmap string lws_multisig_kex_peer :=
  foldl (insert_named kp_participant id) ∅ l.

Definition load_record (r : lws_multisig_kex_record_snapshot) : lws_multisig_kex_record :=
  KexRecord (ks_wallet_id r) (ks_context r) (ks_threshold r) (ks_total r) (ks_participants r)
    (load_peers (ks_peers r)) (ks_address r) (ks_state r) (ks_created_at r) (ks_updated_at r).

Definition load_records (l : list lws_multisig_kex_record_snapshot) : gmap string lws_multisig_kex_record :=
  foldl (insert_named ks_wallet_id load_record) ∅ l.

(** [load_lws_multisig_kex_registry]: a file that cannot be read is ignored. *)
Definition load_lws_multisig_kex_registry (s : kex_registry) : kex_registry :=
  match kx_file s with
  | KexText l => if kex_file_fits l then KexRegistry (load_records l) (kx_file s) else s
  | _ => s
  end.

(** ** Expiry *)

Definition kex_unix_seconds (timestamp : Z) : Z :=
  if 100000000000 <? timestamp then timestamp / 1000 else timestamp.

Definition kept_state (state : string) : bool :=
  bool_decide (state = "active"%string) || bool_decide (state = "finalized"%string).

Definition multisig_kex_is_expired (record : lws_multisig_kex_record) (now : Z) : bool :=
  if kept_state (kr_state record) then false
  else
    let last_seen := Z.max (kex_unix_seconds (kr_created_at record)) (kex_unix_seconds (kr_updated_at record)) in
    (last_seen =? 0) || (wrap 64 (last_seen + lws_multisig_kex_ttl_seconds) <? now).

(** The entry least recently updated, of those that are not kept. *)
Definition older (oldest : option (string * lws_multisig_kex_record)) (it : string * lws_multisig_kex_record) :
    option (string * lws_multisig_kex_record) :=
  if kept_state (kr_state it.2) then oldest
  else
    match oldest with
    | None => Some it
    | Some old => if kr_updated_at it.2 <? kr_updated_at old.2 then Some it else oldest
    end.

Definition oldest_record (records : gmap string lws_multisig_kex_record) :
    option (string * lws_multisig_kex_record) :=
  foldl older None (entries records).

(** The second loop of [prune]; every round takes an entry out, so that their
    number is enough [fuel]. *)
Fixpoint evict_loop (fuel : nat) (now : Z) (records : gmap string lws_multisig_kex_record) (changed : bool) :
    gmap string lws_multisig_kex_record * bool :=
  if (lws_multisig_kex_ttl_seconds <? now) && (lws_multisig_kex_max_entries <=? size records)%nat then
    match oldest_record records, fuel with
    | Some oldest, S fuel => evict_loop fuel now (delete oldest.1 records) true
    | _, _ => (records, changed)
    end
  else (records, changed).

Definition prune_lws_multisig_kex (written : bool) (now : Z) (s : kex_registry) : kex_registry :=
  let alive := filter (λ e, multisig_kex_is_expired e.2 now = false) (kx_records s) in
  let changed := negb (size alive =? size (kx_records s))%nat in
  let '(records, changed) := evict_loop (size alive) now alive changed in
  let s := KexRegistry records (kx_file s) in
  if changed then (save_lws_multisig_kex_registry written s).2 else s.

(** ** The handlers *)

Definition participants_for_kex (context participant : string) : list string :=
  if decide (context = "task_payment"%string) then [participant; "oracle"%string; "pool"%string]
  else [participant; "oracle"%string; "dao"%string].

Definition peer_infos_for_round (record : lws_multisig_kex_record) (participant : string) (round : Z) :
    list string :=
  omap (λ peer,
    if decide (peer.1 = participant ∨ kp_round peer.2 ≠ round ∨ kp_multisig_info peer.2 = ""%string)
    then None else Some (kp_multisig_info peer.2)) (entries (kr_peers record)).

Definition submitted_participants_for_kex (record : lws_multisig_kex_record) : list string :=
  merge_sort String.leb
    (filter (λ peer, kp_multisig_info peer.2 ≠ ""%string) (entries (kr_peers record))).*1.

Definition missing_participants_for_kex (record : lws_multisig_kex_record) : list string :=
  filter (λ p, from_option kp_multisig_info ""%string (kr_peers record !! p) = ""%string)
    (kr_participants record).

Definition max_round_for_kex (record : lws_multisig_kex_record) : Z :=
  foldl (λ round peer, Z.max round (kp_round peer.2)) 0 (entries (kr_peers record)).

Definition kex_failed (wallet_id : string) (threshold total : Z) (participants : list string) (created_at : Z) :
    multisig_kex_response :=
  KexResponse false wallet_id "failed" threshold total participants [] created_at.

Definition empty_record : lws_multisig_kex_record := KexRecord "" "" 0 0 [] ∅ "" "" 0 0.

(** [wallet_id]: without one, context and participant make it. *)
Definition submit_wallet_id (req : multisig_kex_submit_request) : string :=
  if decide (sub_wallet_id req = ""%string) then (sub_context req ++ ":" ++ sub_participant req)%string
  else sub_wallet_id req.

Definition submit_round (req : multisig_kex_submit_request) : Z :=
  if sub_round req =? 0 then 1 else sub_round req.

(** The record of a wallet, filled in when it is new. *)
Definition record_for (now : Z) (req : multisig_kex_submit_request) (slot : lws_multisig_kex_record) :
    lws_multisig_kex_record :=
  if decide (kr_wallet_id slot = ""%string) then
    KexRecord (submit_wallet_id req) (sub_context req) (sub_threshold req) (sub_total req)
      (participants_for_kex (sub_context req) (sub_participant req)) (kr_peers slot) (kr_address slot)
      "pending_peers" (if sub_created_at req =? 0 then wrap 64 (now * 1000) else sub_created_at req)
      (kr_updated_at slot)
  else slot.

(** What the submission changes in its record. *)
Definition submit_to (now : Z) (req : multisig_kex_submit_request) (record : lws_multisig_kex_record) :
    list string * lws_multisig_kex_record :=
  let participant := sub_participant req in
  let participants := if decide (participant ∈ kr_participants record) then kr_participants record
                      else kr_participants record ++ [participant] in
  let peers := <[participant := KexPeer participant (sub_multisig_info req) (submit_round req) now]>
                 (kr_peers record) in
  let record := KexRecord (kr_wallet_id record) (kr_context record) (sub_threshold req) (sub_total req)
                  participants peers (kr_address record) (kr_state record) (kr_created_at record) now in
  let peer_infos := peer_infos_for_round record participant (submit_round req) in
  let required_peer_count := if kr_total record <=? 1 then 0 else kr_total record - 1 in
  let state :=
    if decide (kr_state record = "active"%string) then kr_state record
    else if required_peer_count <=? Z.of_nat (length peer_infos) then "ready_to_make"%string
    else "pending_peers"%string in
  (peer_infos,
   KexRecord (kr_wallet_id record) (kr_context record) (kr_threshold record) (kr_total record)
     (kr_participants record) (kr_peers record) (kr_address record) state (kr_created_at record)
     (kr_updated_at record)).

(** [multisig_kex_submit::handle]; [pruned] and [written] say whether the two
    writes of the file succeed. *)
Definition multisig_kex_submit (pruned written : bool) (now : Z) (req : multisig_kex_submit_request)
    (s : kex_registry) : multisig_kex_response * kex_registry :=
  let refused := kex_failed (sub_wallet_id req) (sub_threshold req) (sub_total req) [] (sub_created_at req) in
  if decide (sub_context req = ""%string ∨ sub_participant req = ""%string ∨
             sub_multisig_info req = ""%string) then (refused, s)
  else if (sub_threshold req =? 0) || (sub_total req =? 0) || (sub_total req <? sub_threshold req) ||
          (8 <? sub_total req) then (refused, s)
  else if negb (has_valid_kex_participant_auth (sub_participant req) (sub_auth_token req)) then (refused, s)
  else
    let wallet_id := submit_wallet_id req in
    let s := prune_lws_multisig_kex pruned now s in
    let before := kx_records s !! wallet_id in
    if bool_decide (before = None) && (lws_multisig_kex_max_entries <=? size (kx_records s))%nat then
      (kex_failed wallet_id (sub_threshold req) (sub_total req) [] (sub_created_at req), s)
    else
      let record := record_for now req (default empty_record before) in
      if negb (bool_decide (kr_context record = sub_context req)) then
        (kex_failed wallet_id (kr_threshold record) (kr_total record) (kr_participants record)
           (kr_created_at record), s)
      else
        let '(peer_infos, record) := submit_to now req record in
        let '(saved, s) := save_lws_multisig_kex_registry written
                             (KexRegistry (<[wallet_id := record]> (kx_records s)) (kx_file s)) in
        if saved then
          (KexResponse true wallet_id (kr_state record) (kr_threshold record) (kr_total record)
             (kr_participants record) peer_infos (kr_created_at record), s)
        else
          let records := match before with
                         | Some previous => <[wallet_id := previous]> (kx_records s)
                         | None => delete wallet_id (kx_records s)
                         end in
          (kex_failed wallet_id (kr_threshold record) (kr_total record) (kr_participants record)
             (kr_created_at record), KexRegistry records (kx_file s)).

Definition status_failed (req : multisig_kex_status_request) (state : string) : multisig_kex_status_response :=
  KexStatusResponse false (st_wallet_id req) (st_context req) state 0 0 [] [] [] 0 "" 0 0.

(** [multisig_kex_status::handle] *)
Definition multisig_kex_status (pruned : bool) (now : Z) (req : multisig_kex_status_request)
    (s : kex_registry) : multisig_kex_status_response * kex_registry :=
  if decide (st_wallet_id req = ""%string) then (status_failed req "failed", s)
  else
    let s := prune_lws_multisig_kex pruned now s in
    match kx_records s !! st_wallet_id req with
    | None => (status_failed req "not_found", s)
    | Some r =>
        if negb (bool_decide (st_context req = ""%string)) && negb (bool_decide (kr_context r = st_context req))
        then
          (KexStatusResponse false (st_wallet_id req) (st_context req) "failed" (kr_threshold r) (kr_total r)
             (kr_participants r) [] [] (max_round_for_kex r) (kr_address r) (kr_created_at r)
             (kr_updated_at r), s)
        else
          (KexStatusResponse true (kr_wallet_id r) (kr_context r) (kr_state r) (kr_threshold r) (kr_total r)
             (kr_participants r) (submitted_participants_for_kex r) (missing_participants_for_kex r)
             (max_round_for_kex r) (kr_address r) (kr_created_at r) (kr_updated_at r), s)
    end.

(** [multisig_kex_finalize::handle], on the registry and the multisig store;
    [written], [res] and [rewritten] are the outcomes of its writes. *)
Definition multisig_kex_finalize (written rewritten : bool) (res : io) (now : Z)
    (req : multisig_kex_finalize_request) (s : kex_registry) (store : multisig_store) :
    bool * kex_registry * multisig_store :=
  if decide (fin_wallet_id req = ""%string ∨ fin_address req = ""%string) then (false, s, store)
  else if negb (address_string (fin_address req)) then (false, s, store)
  else
    match kx_records s !! fin_wallet_id req with
    | None => (false, s, store)
    | Some previous =>
        let status := or_else (fin_status req) "active" in
        let snapshot := KexRecord (kr_wallet_id previous) (kr_context previous) (kr_threshold previous)
                          (kr_total previous) (kr_participants previous) (kr_peers previous)
                          (fin_address req) status (kr_created_at previous) now in
        let '(saved, s') := save_lws_multisig_kex_registry written
                              (KexRegistry (<[fin_wallet_id req := snapshot]> (kx_records s)) (kx_file s)) in
        if saved then
          let wallet := MultisigWalletRecord (kr_wallet_id snapshot) (fin_address req)
                          (or_else (fin_context req) (kr_context snapshot)) (kr_threshold snapshot)
                          (kr_total snapshot) (kr_participants snapshot) status (kr_created_at snapshot) in
          let '(registered, store) := register_wallet res wallet store in
          if registered then (true, s', store)
          else
            let '(_, s'') := save_lws_multisig_kex_registry rewritten
                               (KexRegistry (<[fin_wallet_id req := previous]> (kx_records s')) (kx_file s')) in
            (false, s'', store)
        else (false, s, store)
    end.
End kex.

(** ** Well-formed registries *)

Record record_ok (key : string) (r : lws_multisig_kex_record) : Prop := {
  ro_key : key ≠ ""%string;
  ro_id : kr_wallet_id r = key;
  ro_total : 1 <= kr_threshold r <= kr_total r ∧ kr_total r <= 8;
  ro_peers p peer : kr_peers r !! p = Some peer →
    p ≠ ""%string ∧ kp_participant peer = p ∧ kp_multisig_info peer ≠ ""%string ∧ p ∈ kr_participants r
}.

Definition records_ok (m : gmap string lws_multisig_kex_record) : Prop :=
  (size m ≤ 128)%nat ∧ map_Forall record_ok m.

Lemma records_ok_empty : records_ok ∅.
Proof. split; [vm_compute; lia|apply map_Forall_empty]. Qed.

(** The file gives a well-formed registry as well. *)
Definition file_ok (f : kex_file) : Prop := ∀ l, f = KexText l → records_ok (load_records l).

Definition kex_ok (s : kex_registry) : Prop := records_ok (kx_records s) ∧ file_ok (kx_file s).

Lemma insert_named_elem {A B} (name : A → string) (f : A → B) (l : list A) (m : gmap string B) k y :
  NoDup (name <$> l) → (∀ x, x ∈ l → name x ≠ ""%string ∧ m !! name x = None) →
  foldl (insert_named name f) m l !! k = Some y ↔ m !! k = Some y ∨ ∃ x, x ∈ l ∧ name x = k ∧ f x = y.
Proof.
  revert m. induction l as [|x l IH]; intros m Hnd Hl; simpl.
  { split; [by left|]. intros [?|(x & ?%elem_of_nil & _)]; done. }
  rewrite fmap_cons in Hnd. apply NoDup_cons in Hnd as [Hx Hnd].
  destruct (Hl x) as [Hne Hm]; [by left|]. unfold insert_named at 2. rewrite decide_False by done.
  rewrite IH; [|done|].
  - rewrite lookup_insert_Some. split.
    + intros [[[<- <-]|[_ Hk]]|(z & Hz & Hzk)]; [|by left|].
      * right. exists x. split; [by left|done].
      * right. exists z. split; [by right|done].
    + intros [Hk|(z & [->|Hz]%elem_of_cons & <- & <-)]; [left; right|left; by left|].
      * split; [|done]. intros <-. congruence.
      * right. by exists z.
  - intros z Hz. destruct (Hl z) as [Hzne Hzm]; [by right|]. split; [done|].
    rewrite lookup_insert_ne; [done|]. intros Heq. apply Hx. rewrite Heq. by apply list_elem_of_fmap_2.
Qed.

Section kex_theorems.
Context `{O : HashOrder} `{!HashOrderLaws O} `{E : KexEnv}.

Lemma elem_of_entries {A} (m : gmap string A) k x : (k, x) ∈ entries m ↔ m !! k = Some x.
Proof. rewrite (entries_perm A m). apply elem_of_map_to_list. Qed.

Lemma entries_keys {A} (m : gmap string A) : NoDup (entries m).*1.
Proof. rewrite (entries_perm A m). apply NoDup_fst_map_to_list. Qed.

Lemma length_entries {A} (m : gmap string A) : length (entries m) = size m.
Proof. rewrite (entries_perm A m). apply length_map_to_list. Qed.

Lemma elem_of_entries_snd {A} (m : gmap string A) x : x ∈ (entries m).*2 ↔ ∃ k, m !! k = Some x.
Proof.
  rewrite list_elem_of_fmap. split.
  - intros ([k y] & -> & Hk%elem_of_entries). by exists k.
  - intros [k Hk%elem_of_entries]. by exists (k, x).
Qed.

(** The values of a map whose entries have their key as name, read back. *)
Lemma load_entries {A B C} (name : A → string) (f : A → B) (g : C → A) (m : gmap string C) k y :
  (∀ k x, m !! k = Some x → k ≠ ""%string ∧ name (g x) = k) →
  foldl (insert_named name f) ∅ (g <$> (entries m).*2) !! k = Some y ↔ f ∘ g <$> m !! k = Some y.
Proof.
  intros Hm. assert (name <$> (g <$> (entries m).*2) = (entries m).*1) as Hkeys.
  { rewrite <-!list_fmap_compose. apply list_fmap_ext. intros i [k' x] Hi. simpl.
    apply list_elem_of_lookup_2, elem_of_entries in Hi. by destruct (Hm _ _ Hi). }
  rewrite insert_named_elem.
  - rewrite lookup_empty, fmap_Some. split.
    + intros [?|(a & (x & -> & [k' Hk]%elem_of_entries_snd)%list_elem_of_fmap & <- & <-)]; [done|].
      destruct (Hm _ _ Hk) as [_ ->]. by exists x.
    + intros (x & Hx & ->). right. exists (g x). destruct (Hm _ _ Hx) as [_ Hn].
      split; [|done]. apply list_elem_of_fmap_2, elem_of_entries_snd. by exists k.
  - rewrite Hkeys. apply entries_keys.
  - intros a (x & -> & [k' Hk]%elem_of_entries_snd)%list_elem_of_fmap.
    destruct (Hm _ _ Hk) as [Hne ->]. split; [done|]. apply lookup_empty.
Qed.

Lemma load_snapshot_record key r : record_ok key r → load_record (snapshot_record r) = r.
Proof.
  intros Hr. destruct r as [wid ctx th tot parts peers addr st cr up]. unfold load_record, snapshot_record. simpl.
  f_equal. apply map_eq. intros k. apply option_eq. intros y. unfold load_peers.
  pose proof (load_entries kp_participant id id peers k y) as Hl. rewrite list_fmap_id in Hl.
  rewrite Hl.
  - simpl. destruct (peers !! k); done.
  - intros k' x Hx. destruct (ro_peers _ _ Hr _ _ Hx) as (? & ? & _). done.
Qed.

Lemma load_snapshot m : records_ok m → load_records (snapshot_lws_multisig_kex m) = m.
Proof.
  intros [_ Hm]. apply map_eq. intros k. apply option_eq. intros y. unfold load_records, snapshot_lws_multisig_kex.
  rewrite load_entries.
  - destruct (m !! k) as [r|] eqn:Hk; simpl; [|done]. rewrite (load_snapshot_record k); [done|by apply Hm].
  - intros k' r Hr. split; [by apply (ro_key _ _ (Hm _ _ Hr))|by apply (ro_id _ _ (Hm _ _ Hr))].
Qed.

(** *** Pruning *)

Lemma records_ok_sub m m' : records_ok m → m' ⊆ m → records_ok m'.
Proof.
  intros [Hs Hm] Hsub. split; [apply map_subseteq_size in Hsub; lia|].
  intros k r Hk. apply Hm. by eapply lookup_weaken.
Qed.

Lemma oldest_record_in m o : oldest_record m = Some o → m !! o.1 = Some o.2.
Proof.
  intros Ho. rewrite <-elem_of_entries, <-surjective_pairing. revert Ho. unfold oldest_record.
  assert (∀ l acc, foldl older acc l = Some o → acc = Some o ∨ o ∈ l) as Hl.
  { induction l as [|x l IH]; intros acc Hf; simpl in *; [by left|].
    destruct (IH _ Hf) as [Hx|Hx]; [|right; by right].
    unfold older in Hx. destruct (kept_state _); [by left|].
    destruct acc as [old|]; [destruct (_ <? _); [|by left]|]; injection Hx as <-; right; by left. }
  intros Ho. by destruct (Hl _ _ Ho).
Qed.

Lemma oldest_record_none m : oldest_record m = None → map_Forall (λ _ r, kept_state (kr_state r) = true) m.
Proof.
  unfold oldest_record. intros Ho k r Hr%elem_of_entries. revert Ho Hr.
  assert (∀ l acc, foldl older acc l = None → acc = None ∧ ∀ x, x ∈ l → kept_state (kr_state x.2) = true) as Hl.
  { induction l as [|x l IH]; intros acc Hf; simpl in *; [split; [done|by intros x ?%elem_of_nil]|].
    destruct (IH _ Hf) as [Hx Hin]. unfold older in Hx.
    destruct (kept_state (kr_state x.2)) eqn:Ek; [|destruct acc as [old|]; [destruct (_ <? _)|]; done].
    split; [done|]. intros z [->|Hz]%elem_of_cons; [done|by apply Hin]. }
  intros Ho Hr. by apply (proj2 (Hl _ _ Ho) _ Hr).
Qed.

Lemma evict_loop_spec fuel now m changed m' changed' :
  evict_loop fuel now m changed = (m', changed') →
  m' ⊆ m ∧ ((size m ≤ fuel)%nat →
    now <= lws_multisig_kex_ttl_seconds ∨ (size m' < lws_multisig_kex_max_entries)%nat ∨
    map_Forall (λ _ r, kept_state (kr_state r) = true) m').
Proof.
  revert m changed. induction fuel as [|fuel IH]; intros m changed Hrun; cbn [evict_loop] in Hrun;
    destruct (_ && _) eqn:Eg.
  2, 4: injection Hrun as <- <-; split; [done|]; intros _; apply andb_false_iff in Eg as [Hg|Hg];
    [left; apply Z.ltb_ge in Hg; lia|right; left; apply Nat.leb_gt in Hg; lia].
  - destruct (oldest_record m); injection Hrun as <- <-; (split; [done|]); intros Hle; right; left;
      unfold lws_multisig_kex_max_entries; lia.
  - destruct (oldest_record m) as [o|] eqn:Eo.
    + apply oldest_record_in in Eo. destruct (IH _ _ Hrun) as [Hsub Hexit]. split.
      * etrans; [exact Hsub|apply delete_subseteq].
      * intros Hle. apply Hexit. rewrite map_size_delete_Some by by eexists. lia.
    + injection Hrun as <- <-. split; [done|]. intros _. right. right. by apply oldest_record_none.
Qed.

Lemma save_ok written s saved s' :
  save_lws_multisig_kex_registry written s = (saved, s') → kx_records s' = kx_records s ∧
  (records_ok (kx_records s) → file_ok (kx_file s) → file_ok (kx_file s')).
Proof.
  destruct written; intros [= <- <-]; (split; [done|]); intros Hr Hf; [|done].
  intros l [= <-]. by rewrite load_snapshot.
Qed.

Lemma prune_sub written now s : kx_records (prune_lws_multisig_kex written now s) ⊆ kx_records s.
Proof.
  unfold prune_lws_multisig_kex. destruct (evict_loop _ _ _ _) as [m changed] eqn:Ee.
  apply evict_loop_spec in Ee as [Hsub _].
  assert (m ⊆ kx_records s) as Hm by (etrans; [exact Hsub|apply map_filter_subseteq]).
  destruct changed; [|done]. by destruct written.
Qed.

Lemma prune_ok written now s : kex_ok s → kex_ok (prune_lws_multisig_kex written now s).
Proof.
  intros [Hr Hf]. assert (records_ok (kx_records (prune_lws_multisig_kex written now s))) as Hr'.
  { eapply records_ok_sub, prune_sub. done. }
  split; [done|]. revert Hr'. unfold prune_lws_multisig_kex. destruct (evict_loop _ _ _ _) as [m changed].
  destruct changed; [|done]. destruct written; [|done]. simpl. intros Hm l [= <-].
  by rewrite load_snapshot.
Qed.

(** *** Submitting *)

Lemma submit_wallet_id_ne req : submit_wallet_id req ≠ ""%string.
Proof. unfold submit_wallet_id. case_decide; [|done]. by destruct (sub_context req). Qed.

Lemma submit_to_ok now req record infos record' key :
  submit_to now req record = (infos, record') →
  key ≠ ""%string → kr_wallet_id record = key →
  (∀ p peer, kr_peers record !! p = Some peer →
    p ≠ ""%string ∧ kp_participant peer = p ∧ kp_multisig_info peer ≠ ""%string ∧ p ∈ kr_participants record) →
  sub_participant req ≠ ""%string → sub_multisig_info req ≠ ""%string →
  1 <= sub_threshold req <= sub_total req ∧ sub_total req <= 8 → record_ok key record'.
Proof.
  unfold submit_to. intros [= <- <-] Hkey Hid Hp Hpart Hinfo Ht. split; simpl; [done..|].
  intros p peer [[<- <-]|[Hne Hl]]%lookup_insert_Some.
  - split_and!; [done..|]. simpl. case_decide; [done|]. apply elem_of_app. right. by left.
  - destruct (Hp _ _ Hl) as (? & ? & ? & ?). split_and!; [done..|]. case_decide; [done|].
    apply elem_of_app. by left.
Qed.

Lemma submit_to_state now req record infos r :
  submit_to now req record = (infos, r) → 1 <= sub_total req →
  kr_state r = "ready_to_make"%string ↔
    kr_state r ≠ "active"%string ∧ sub_total req - 1 <= Z.of_nat (length infos).
Proof.
  unfold submit_to. cbv zeta.
  match goal with |- context [peer_infos_for_round ?a ?b ?c] => generalize (peer_infos_for_round a b c) end.
  intros l [= <- <-] Htot. cbn [kr_state kr_total].
  assert ((if sub_total req <=? 1 then 0 else sub_total req - 1) = sub_total req - 1) as ->.
  { destruct (Z.leb_spec (sub_total req) 1); lia. }
  destruct (decide (kr_state record = "active"%string)) as [Ha|Ha]; [rewrite Ha; by split; [|intros [? _]]|].
  destruct (Z.leb_spec (sub_total req - 1) (Z.of_nat (length l))); split; [done|done|done|].
  intros [_ ?]. lia.
Qed.

Lemma elem_of_peer_infos record p round info :
  info ∈ peer_infos_for_round record p round ↔
    ∃ q peer, q ≠ p ∧ kr_peers record !! q = Some peer ∧ kp_round peer = round ∧
      kp_multisig_info peer = info ∧ info ≠ ""%string.
Proof.
  unfold peer_infos_for_round. rewrite list_elem_of_omap. split.
  - intros ([q peer] & Hq%elem_of_entries & Hi). simpl in Hi. case_decide as Hd; [done|].
    injection Hi as <-. exists q, peer. apply Decidable.not_or in Hd as [? Hd].
    apply Decidable.not_or in Hd as [Hr ?]. split_and!; [done..| |done|done].
    by destruct (decide (kp_round peer = round)).
  - intros (q & peer & Hne & Hq%elem_of_entries & Hr & <- & Hi). exists (q, peer). split; [done|]. simpl.
    rewrite decide_False; [done|]. tauto.
Qed.

(** The record a submission starts from. *)
Lemma record_for_ok now req (m : gmap string lws_multisig_kex_record) :
  map_Forall record_ok m →
  let record := record_for now req (default empty_record (m !! submit_wallet_id req)) in
  kr_wallet_id record = submit_wallet_id req ∧
  ∀ p peer, kr_peers record !! p = Some peer →
    p ≠ ""%string ∧ kp_participant peer = p ∧ kp_multisig_info peer ≠ ""%string ∧ p ∈ kr_participants record.
Proof.
  intros Hm. destruct (m !! submit_wallet_id req) as [r|] eqn:E0; unfold record_for; simpl; [|done].
  apply Hm in E0. rewrite decide_False by (rewrite (ro_id _ _ E0); apply E0).
  split; [apply E0|apply E0].
Qed.

Lemma size_insert_le {A} (m : gmap string A) k x n :
  (size m ≤ n)%nat → (m !! k = None → size m < n)%nat → (size (<[k := x]> m) ≤ n)%nat.
Proof. intros Hle Hlt. rewrite map_size_insert. destruct (m !! k); [done|]. specialize (Hlt eq_refl). simpl. lia. Qed.

Lemma records_ok_insert m k r :
  records_ok m → record_ok k r → (m !! k = None → size m < 128)%nat → records_ok (<[k := r]> m).
Proof.
  intros [Hs Hm] Hr Hlt. split; [by apply size_insert_le|]. by apply map_Forall_insert_2.
Qed.

(** What a submission answers and stores. *)
Lemma kex_submit_cases pruned written now req s resp s' :
  0 <= sub_threshold req → kex_ok s →
  multisig_kex_submit pruned written now req s = (resp, s') →
  let p := prune_lws_multisig_kex pruned now s in
  kex_ok s' ∧
  if kxr_success resp then ∃ record,
    let '(infos, r) := submit_to now req record in
    kx_records s' = <[submit_wallet_id req := r]> (kx_records p) ∧
    record = record_for now req (default empty_record (kx_records p !! submit_wallet_id req)) ∧
    kr_context record = sub_context req ∧ resp = KexResponse true (submit_wallet_id req) (kr_state r)
      (kr_threshold r) (kr_total r) (kr_participants r) infos (kr_created_at r) ∧
    record_ok (submit_wallet_id req) r
  else kx_records s' = kx_records s ∨ kx_records s' = kx_records p.
Proof.
  intros Hth Hs. unfold multisig_kex_submit.
  case_decide as Hempty; [intros [= <- <-]; by split; [|left]|].
  destruct (_ || (8 <? _)) eqn:Et; [intros [= <- <-]; by split; [|left]|].
  destruct (negb (has_valid_kex_participant_auth _ _)); [intros [= <- <-]; by split; [|left]|].
  cbv zeta. pose proof (prune_ok pruned now s Hs) as Hp. set (p := prune_lws_multisig_kex pruned now s) in *.
  destruct (bool_decide _ && _) eqn:Ecap; [intros [= <- <-]; by split; [|right]|].
  set (record := record_for now req _).
  destruct (negb (bool_decide (kr_context record = _))) eqn:Ectx; [intros [= <- <-]; by split; [|right]|].
  apply negb_false_iff, bool_decide_eq_true_1 in Ectx.
  destruct (record_for_ok now req (kx_records p)) as [Hid Hpeers]; [apply Hp|]. fold record in Hid, Hpeers.
  destruct (submit_to now req record) as [infos r] eqn:Est.
  assert (record_ok (submit_wallet_id req) r) as Hr.
  { eapply submit_to_ok; [exact Est|apply submit_wallet_id_ne|exact Hid|exact Hpeers|tauto|tauto|]. lia. }
  assert (records_ok (<[submit_wallet_id req := r]> (kx_records p))) as Hins.
  { apply records_ok_insert; [apply Hp|done|]. intros Hnone. rewrite Hnone in Ecap.
    rewrite bool_decide_eq_true_2 in Ecap by done. apply Nat.leb_gt in Ecap. exact Ecap. }
  destruct (save_lws_multisig_kex_registry _ _) as [saved s1] eqn:Esave. simpl in Esave.
  apply save_ok in Esave as [Hk Hf]. simpl in Hk, Hf. destruct saved; intros [= <- <-]; cbn [kxr_success kex_failed].
  - split; [split; [by rewrite Hk|apply Hf; [done|apply Hp]]|]. exists record. rewrite Est. by rewrite Hk.
  - assert (match kx_records p !! submit_wallet_id req with
            | Some previous => <[submit_wallet_id req := previous]> (kx_records s1)
            | None => delete (submit_wallet_id req) (kx_records s1)
            end = kx_records p) as ->.
    { rewrite Hk. destruct (_ !! _) as [prev|] eqn:Eprev.
      - by rewrite insert_insert_eq, insert_id.
      - by rewrite delete_insert_id. }
    split; [|by right]. split; [apply Hp|apply Hf; [done|apply Hp]].
Qed.

(** *** The limits of the file *)

Lemma peers_participants key r :
  record_ok key r → (size (kr_peers r) ≤ length (kr_participants r))%nat.
Proof.
  intros Hr. rewrite <-length_entries, <-(length_fmap fst). apply submseteq_length, NoDup_submseteq.
  - apply entries_keys.
  - intros p ([q peer] & -> & Hq%elem_of_entries)%list_elem_of_fmap. by apply (ro_peers _ _ Hr) in Hq as (_ & _ & _ & ?).
Qed.

Lemma kex_file_fits_snapshot m :
  records_ok m → kex_file_fits (snapshot_lws_multisig_kex m) =
    bool_decide (map_Forall (λ _ r, (length (kr_participants r) ≤ 8)%nat) m).
Proof.
  intros [Hs Hm]. unfold kex_file_fits, snapshot_lws_multisig_kex.
  rewrite !length_fmap, length_entries. rewrite (proj2 (Nat.leb_le _ _)) by (unfold max_lws_multisig_kex_records; lia).
  cbn [andb]. apply eq_true_iff_eq. rewrite forallb_forall, bool_decide_eq_true. split.
  - intros Hall k r Hk. assert (In (snapshot_record r) (snapshot_record <$> (entries m).*2)) as Hin.
    { apply list_elem_of_In, list_elem_of_fmap_2, elem_of_entries_snd. by exists k. }
    apply Hall, andb_true_iff in Hin as [Hl _]. by apply Nat.leb_le in Hl.
  - intros Hall x (r & -> & [k Hk]%elem_of_entries_snd)%list_elem_of_In%list_elem_of_fmap. simpl.
    pose proof (peers_participants _ _ (Hm _ _ Hk)). specialize (Hall _ _ Hk). simpl in Hall.
    rewrite length_fmap, length_entries. apply andb_true_iff. rewrite !Nat.leb_le.
    unfold max_lws_multisig_kex_participants, max_lws_multisig_kex_peers. lia.
Qed.
End kex_theorems.

Lemma finalize_ok `{O : HashOrder} `{!HashOrderLaws O} `{E : KexEnv} written rewritten res now req s store b s' store' :
  multisig_kex_finalize written rewritten res now req s store = (b, s', store') →
  kex_ok s → store_ok store → kex_ok s' ∧ store_ok store'.
Proof.
  unfold multisig_kex_finalize. intros Hrun Hs Hst.
  case_decide; [by injection Hrun as _ <- <-|].
  destruct (negb _); [by injection Hrun as _ <- <-|].
  destruct (kx_records s !! fin_wallet_id req) as [previous|] eqn:Eprev; [|by injection Hrun as _ <- <-].
  destruct Hs as [Hr Hf]. pose proof (proj2 Hr _ _ Eprev) as Hok.
  cbv zeta in Hrun. set (snapshot := KexRecord _ _ _ _ _ _ (fin_address req) _ _ _) in *.
  assert (record_ok (fin_wallet_id req) snapshot) as Hsnap by (split; simpl; apply Hok).
  assert (records_ok (<[fin_wallet_id req := snapshot]> (kx_records s))) as Hins.
  { apply records_ok_insert; [done|done|]. by rewrite Eprev. }
  destruct (save_lws_multisig_kex_registry written _) as [saved s1] eqn:E1.
  apply save_ok in E1 as [Hk1 Hf1]. simpl in Hk1, Hf1. specialize (Hf1 Hins Hf).
  destruct saved; [|by injection Hrun as _ <- <-].
  destruct (register_wallet res _ store) as [registered store1] eqn:Ew.
  apply register_wallet_ok in Ew; [|done].
  destruct registered; [injection Hrun as _ <- <-; by split; [split; [rewrite Hk1|]|]|].
  destruct (save_lws_multisig_kex_registry rewritten _) as [saved s2] eqn:E2.
  apply save_ok in E2 as [Hk2 Hf2]. simpl in Hk2, Hf2. injection Hrun as _ <- <-.
  assert (records_ok (<[fin_wallet_id req := previous]> (kx_records s1))) as Hins'.
  { apply records_ok_insert; [by rewrite Hk1|done|]. by rewrite Hk1, lookup_insert_eq. }
  split; [|done]. split; [by rewrite Hk2|by apply Hf2].
Qed.

(** ** Everything that happens to the registry *)

(** One request, or a restart of the server: memory is lost and the file read.
    The iteration order and the environment may differ every time. *)
Inductive kex_step : kex_registry * multisig_store → kex_registry * multisig_store → Prop :=
  | step_submit (O : HashOrder) (HO : HashOrderLaws O) (E : KexEnv) pruned written now req s store :
      0 <= sub_threshold req →
      kex_step (s, store) ((multisig_kex_submit pruned written now req s).2, store)
  | step_status (O : HashOrder) (HO : HashOrderLaws O) pruned now req s store :
      kex_step (s, store) ((multisig_kex_status pruned now req s).2, store)
  | step_finalize (O : HashOrder) (HO : HashOrderLaws O) (E : KexEnv) written rewritten res now req s store
      b s' store' :
      multisig_kex_finalize written rewritten res now req s store = (b, s', store') →
      kex_step (s, store) (s', store')
  | step_restart s store :
      kex_step (s, store) (load_lws_multisig_kex_registry (KexRegistry ∅ (kx_file s)), store).

Lemma load_ok s : kex_ok s → kex_ok (load_lws_multisig_kex_registry (KexRegistry ∅ (kx_file s))).
Proof.
  intros [_ Hf]. unfold load_lws_multisig_kex_registry. simpl.
  assert (kex_ok (KexRegistry ∅ (kx_file s))) as Hempty.
  { split; [apply records_ok_empty|done]. }
  destruct (kx_file s) as [|l|] eqn:Ef; [done| |done]. destruct (kex_file_fits l); [|done].
  split; [by apply Hf|exact Hf].
Qed.

Lemma kex_step_ok st st' :
  kex_step st st' → kex_ok st.1 → store_ok st.2 → kex_ok st'.1 ∧ store_ok st'.2.
Proof.
  intros Hstep Hs Hst. destruct Hstep as [O HO E pruned written now req s store Hth|
    O HO pruned now req s store|O HO E written rewritten res now req s store b s' store' Hrun|s store].
  - split; [|exact Hst]. simpl. destruct (multisig_kex_submit pruned written now req s) as [resp s'] eqn:Erun.
    eapply kex_submit_cases; eauto.
  - split; [|exact Hst]. simpl. unfold multisig_kex_status. case_decide; [exact Hs|].
    cbv zeta. destruct (_ !! _); [destruct (_ && _)|]; by apply prune_ok.
  - by eapply finalize_ok.
  - split; [|exact Hst]. by apply load_ok.
Qed.

(** ** Theorems *)

(** C22: in every registry that requests and restarts lead to, at most 128 wallets
    are kept, each under its id, with a threshold between 1 and the total and a
    total of at most 8, and every peer is a participant that sent something; and
    the multisig store it feeds has no wallet twice. *)
Theorem kex_registry_ok st store s store' :
  kx_records st = ∅ → kx_file st = KexAbsent → store_ok store →
  rtc kex_step (st, store) (s, store') → kex_ok s ∧ store_ok store'.
Proof.
  intros Hr Hf Hst Hsteps.
  refine (rtc_ind_l (λ x, kex_ok x.1 → store_ok x.2 → kex_ok s ∧ store_ok store') (s, store')
            (λ H1 H2, conj H1 H2) _ _ Hsteps _ Hst).
  - intros x y Hxy _ IH H1 H2. destruct (kex_step_ok _ _ Hxy H1 H2) as [H1' H2']. by apply IH.
  - split; simpl; [rewrite Hr; apply records_ok_empty|].
    intros l. by rewrite Hf.
Qed.

(** C23: a submission that is accepted is stored in its wallet, next to what the
    others submitted; it is answered with what they submitted for the same round,
    and with [ready_to_make] exactly when these are all but one of the total and
    the wallet is not active yet.  One that is refused changes no wallet, beyond
    the removal of those that expired. *)
Theorem kex_submit_spec `{O : HashOrder} `{!HashOrderLaws O} `{E : KexEnv} pruned written now req s resp s' :
  0 <= sub_threshold req → kex_ok s →
  multisig_kex_submit pruned written now req s = (resp, s') →
  let old := kx_records (prune_lws_multisig_kex pruned now s) in
  let others := from_option kr_peers ∅ (old !! submit_wallet_id req) in
  if kxr_success resp then ∃ r,
    kx_records s' = <[submit_wallet_id req := r]> old ∧
    kr_context r = sub_context req ∧
    kr_peers r = <[sub_participant req :=
      KexPeer (sub_participant req) (sub_multisig_info req) (submit_round req) now]> others ∧
    (∀ info, info ∈ kxr_peer_multisig_info resp ↔ ∃ q peer,
       q ≠ sub_participant req ∧ others !! q = Some peer ∧ kp_round peer = submit_round req ∧
       kp_multisig_info peer = info) ∧
    (kxr_state resp = "ready_to_make"%string ↔
       kr_state r ≠ "active"%string ∧
       sub_total req - 1 <= Z.of_nat (length (kxr_peer_multisig_info resp)))
  else kx_records s' = kx_records s ∨ kx_records s' = old.
Proof.
  intros Hth Hs Hrun. destruct (kex_submit_cases _ _ _ _ _ _ _ Hth Hs Hrun) as [_ Hcases].
  pose proof (prune_ok pruned now s Hs) as [[_ Hp] _]. cbv zeta in *.
  destruct (kxr_success resp); [|done]. destruct Hcases as [record Hcases].
  set (old := kx_records (prune_lws_multisig_kex pruned now s)) in *.
  destruct (submit_to now req record) as [infos r] eqn:Est. destruct Hcases as (Hk & Hrec & Hctx & -> & Hok).
  assert (kr_peers record = from_option kr_peers ∅ (old !! submit_wallet_id req)) as <-.
  { rewrite Hrec. unfold record_for. case_decide; simpl; by destruct (old !! _). }
  exists r. split; [done|]. unfold submit_to in Est. injection Est as <- Hr. rewrite <-Hr. simpl.
  split; [done|]. split; [done|]. split.
  - intros info. rewrite elem_of_peer_infos. simpl. split.
    + intros (q & peer & Hne & Hq & Hround & Hi & _). exists q, peer.
      rewrite lookup_insert_ne in Hq by done. done.
    + intros (q & peer & Hne & Hq & Hround & <-). exists q, peer. rewrite lookup_insert_ne by done.
      split_and!; [done..|]. refine (proj1 (proj2 (proj2 (ro_peers _ _ Hok q peer _)))).
      rewrite <-Hr. simpl. by rewrite lookup_insert_ne.
  - refine (submit_to_state now req record _ _ eq_refl _).
    pose proof (ro_total _ _ Hok) as Ht. rewrite <-Hr in Ht. simpl in Ht. lia.
Qed.

(** A registry that was written is read back the same when no wallet has more
    than eight participants.  Participants are added without limit: if one wallet
    has more, the file cannot be read and every wallet of it is lost. *)
Theorem kex_reload `{O : HashOrder} `{!HashOrderLaws O} s s' :
  kex_ok s → save_lws_multisig_kex_registry true s = (true, s') →
  load_lws_multisig_kex_registry (KexRegistry ∅ (kx_file s')) =
    KexRegistry (if decide (map_Forall (λ _ r, (length (kr_participants r) ≤ 8)%nat) (kx_records s))
                 then kx_records s else ∅) (kx_file s').
Proof.
  intros [Hr _] [= <-]. unfold load_lws_multisig_kex_registry. simpl.
  assert (kex_file_fits (snapshot_lws_multisig_kex (kx_records s)) =
    bool_decide (map_Forall (λ _ r, (length (kr_participants r) ≤ 8)%nat) (kx_records s))) as ->.
  { apply kex_file_fits_snapshot, Hr. }
  case_bool_decide as Hfit.
  - by rewrite decide_True, load_snapshot.
  - by rewrite decide_False.
Qed.

(** ** Examples *)

#[local] Instance list_order : HashOrder := {| entries := λ A (m : gmap string A), map_to_list m |}.

#[local] Instance list_order_laws : HashOrderLaws list_order.
Proof. by intros A m. Qed.

#[local] Instance test_env : KexEnv := {| env_or_empty := λ name, name; address_string := λ _, true |}.

Definition no_wallets : kex_registry := KexRegistry ∅ KexAbsent.

Definition test_submit (participant token : string) : multisig_kex_submit_request :=
  KexSubmitRequest "w1" "miner_stake" participant ("info of " ++ participant) 1 2 3 0 token.

(** What the participants submit, one after the other. *)
Definition submits (participants : list string) : kex_registry :=
  foldl (λ s p, (multisig_kex_submit true true 10000 (test_submit p "") s).2) no_wallets participants.

Lemma no_wallets_ok : kex_ok no_wallets.
Proof. split; [apply records_ok_empty|done]. Qed.

Lemma submits_ok participants : kex_ok (submits participants).
Proof.
  unfold submits. generalize no_wallets_ok. generalize no_wallets.
  induction participants as [|p l IH]; intros s Hs; simpl; [done|]. apply IH.
  destruct (multisig_kex_submit _ _ _ _ _) as [resp s'] eqn:Erun.
  eapply kex_submit_cases; [|exact Hs|exact Erun]. simpl. lia.
Qed.

Lemma kex_registry_ok_witness :
  (kex_ok (submits ["alice"]) ∧ store_ok empty_store) ∧ size (kx_records (submits ["alice"%string])) = 1%nat.
Proof.
  split; [|reflexivity].
  apply (kex_registry_ok no_wallets empty_store (submits ["alice"]) empty_store);
    [reflexivity|reflexivity|apply empty_store_ok|].
  apply rtc_once. apply (step_submit list_order list_order_laws test_env true true 10000 (test_submit "alice" "")).
  simpl. lia.
Defined.

Lemma kex_submit_spec_witness :
  let run := multisig_kex_submit true true 10000 (test_submit "oracle" "XFO_LWS_ORACLE_KEX_TOKEN")
               (submits ["alice"; "bob"]) in
  kxr_success run.1 = true ∧ "info of bob"%string ∈ kxr_peer_multisig_info run.1.
Proof.
  intros run. assert (kxr_success run.1 = true) as Hok by reflexivity. split; [exact Hok|].
  assert (0 <= sub_threshold (test_submit "oracle" "XFO_LWS_ORACLE_KEX_TOKEN")) as Hth by (simpl; lia).
  pose proof (kex_submit_spec true true 10000 (test_submit "oracle" "XFO_LWS_ORACLE_KEX_TOKEN")
    (submits ["alice"; "bob"]) run.1 run.2 Hth (submits_ok _) (surjective_pairing run)) as Hspec.
  cbv zeta in Hspec. rewrite Hok in Hspec. destruct Hspec as (r & _ & _ & _ & Hinfos & _).
  apply Hinfos. exists "bob"%string, (KexPeer "bob" "info of bob" 1 10000).
  split_and!; [discriminate|reflexivity|reflexivity|reflexivity].
Defined.

(** Three participants are read back; with nine, all is lost. *)
Definition nine : list string := ["a"; "b"; "c"; "d"; "e"; "f"; "g"]%string.

Lemma kex_reload_witness :
  kx_records (load_lws_multisig_kex_registry (KexRegistry ∅ (kx_file (submits ["alice"%string])))) =
    kx_records (submits ["alice"%string]) ∧
  kx_records (load_lws_multisig_kex_registry (KexRegistry ∅ (kx_file (submits nine)))) = ∅.
Proof.
  split.
  - rewrite (kex_reload (submits ["alice"%string]) (submits ["alice"%string]) (submits_ok _)); vm_compute; reflexivity.
  - rewrite (kex_reload (submits nine) (submits nine) (submits_ok _)); vm_compute; reflexivity.
Defined.
