(* ===== verification/Storage.v ===== *)
(** * The database as a state machine (src/src/db/storage.cpp)

    Every transaction of [storage] that commits is a step of one relation.  The
    theorem is that in every state that can be reached from the empty database
    every webhook event in progress has its webhook, and that the three account
    tables agree with each other as long as the transactions keep to three
    conditions, which the code does not check and leaves to its callers: ids that do
    not run out, no account moved to a height above its own
    ([Accounts.rescan_above_scan_height] shows what happens otherwise), and no
    address twice in an import.  The first argument of the relation says whether
    they are kept. *)

From S2P Require Import Prelude Lmdb Data Compare Tables Chain Subaddress Accounts Account Webhooks.
From S2P Require Import Update KeyImages.

Section storage.
Context `{LL : LmdbLaws} `{C : ChainConfig} `{Crypto} `{UrlParser}.
Implicit Types d : db L.

Definition ids_left d : Prop := 0 <= find_last_id d < u32_max.

(** One committed transaction, in which new accounts and requests for one have
    flags of [F] only: any, or when [careful] one that keeps to the conditions. *)
Inductive transaction {careful : bool} {F : Z → Prop} : db L → db L → Prop :=
  | tx_check_blockchain d d' : check_blockchain d = Ok d' → transaction d d'
  | tx_check_pow d d' : check_pow d = Ok d' → transaction d d'
  | tx_rollback height d d' : rollback height d = Ok d' → transaction d d'
  | tx_sync_chain height hashes regtest d d' :
      sync_chain height hashes regtest d = Ok d' → transaction d d'
  | tx_sync_pow height hashes pow d d' : sync_pow height hashes pow d = Ok d' → transaction d d'
  | tx_update_access_time now address d d' :
      update_access_time now address d = Ok d' → transaction d d'
  | tx_change_status status addresses d changed d' :
      change_status status addresses d = Ok (changed, d') → transaction d d'
  | tx_add_account now address key flags d d' :
      (careful = true → ids_left d) → add_account now address key flags d = Ok d' → F flags → transaction d d'
  | tx_rescan height addresses d changed d' :
      (careful = true → ∀ address, address ∈ addresses → scanned_to height address d) →
      rescan height addresses d = Ok (changed, d') → transaction d d'
  | tx_creation_request queue_max now address key flags lookahead d hooks d' :
      creation_request queue_max now address key flags lookahead d = Ok (hooks, d') → F flags → transaction d d'
  | tx_import_request now address height lookahead d d' :
      import_request now address height lookahead d = Ok d' → transaction d d'
  | tx_shrink_lookahead address lookahead d d' :
      shrink_lookahead address lookahead d = Ok d' → transaction d d'
  | tx_create_accounts fuel now addresses max d stored d' :
      (careful = true → ids_left d) → create_accounts fuel now addresses max d = Ok (stored, d') → transaction d d'
  | tx_import_accounts fuel addresses max d changed d' :
      (careful = true → NoDup (view_public <$> addresses)) →
      (careful = true → ∀ address info, address ∈ addresses →
         get_both requests import_scan (spend_public address) d = Some info →
         scanned_to (ri_start_height info) address d) →
      import_accounts fuel addresses max d = Ok (changed, d') → transaction d d'
  | tx_reject_requests req addresses d :
      transaction d (reject_requests req addresses d).2
  | tx_update height chain users pow d out d' :
      update height chain users pow d = Ok (out, d') → transaction d d'
  | tx_upsert_subaddresses id address view_key subaddrs max d :
      transaction d (upsert_subaddresses id address view_key subaddrs max d).2
  | tx_import_key_images id images sources d :
      transaction d (import_key_images id images sources d).2
  | tx_record_pending_spends id l d : transaction d (record_pending_spends id l d)
  | tx_update_lookahead address height matched max d r d' :
      update_lookahead address height matched max d = Ok (r, d') → transaction d d'
  | tx_add_webhook type address event d d' :
      add_webhook type address event d = Ok d' → transaction d d'
  | tx_clear_webhooks_of addresses d d' : clear_webhooks_of addresses d = Ok d' → transaction d d'
  | tx_clear_webhooks ids d : transaction d (clear_webhooks ids d).

#[global] Arguments transaction careful F _ _ : clear implicits.

(** The conditions only restrict. *)
Lemma careful_transaction F d d' : transaction true F d d' → transaction false F d d'.
Proof.
  destruct 1;
    [eapply tx_check_blockchain|eapply tx_check_pow|eapply tx_rollback|eapply tx_sync_chain|eapply tx_sync_pow
    |eapply tx_update_access_time|eapply tx_change_status|eapply tx_add_account|eapply tx_rescan
    |eapply tx_creation_request|eapply tx_import_request|eapply tx_shrink_lookahead|eapply tx_create_accounts
    |eapply tx_import_accounts|eapply tx_reject_requests|eapply tx_update|eapply tx_upsert_subaddresses
    |eapply tx_import_key_images|eapply tx_record_pending_spends|eapply tx_update_lookahead|eapply tx_add_webhook
    |eapply tx_clear_webhooks_of|eapply tx_clear_webhooks];
    first [eassumption|intros [=]].
Qed.

Definition consistent d : Prop := accounts_ok d ∧ events_have_hooks d.

(** ** The tables the transactions write *)

(** The tables [events_have_hooks] says nothing about. *)
Definition no_hooks : list table_name :=
  [blocks; pows; accounts; accounts_by_address; accounts_by_height; outputs; spends; images;
   confirmed_spends; imported_spend_sources; pending_spends; requests; subaddress_ranges;
   subaddress_indexes].

Lemma events_have_hooks_touches T d d' :
  touches T d d' → T ⊆ no_hooks → events_have_hooks d → events_have_hooks d'.
Proof.
  intros Ht HT He user e. rewrite (Ht events_by_account_id), (Ht webhooks); [apply He|..];
    intros ?%HT; set_solver.
Qed.

(** The tables neither half of [consistent] says anything about. *)
Definition free_tables : list table_name :=
  [blocks; pows; outputs; spends; images; confirmed_spends; imported_spend_sources; pending_spends;
   requests; subaddress_ranges; subaddress_indexes].

Lemma consistent_touches d d' : touches free_tables d d' → consistent d → consistent d'.
Proof.
  intros Ht [Ha He]. split.
  - eapply touches_accounts_ok; [exact Ht|unfold free_tables; set_solver|done].
  - eapply events_have_hooks_touches; [exact Ht|unfold free_tables, no_hooks; set_solver|done].
Qed.

(** *** The hooks of the events *)

Lemma events_have_hooks_shrink d d' :
  (∀ user e, e ∈ dups events_by_account_id user d' → e ∈ dups events_by_account_id user d) →
  (∀ key, dups webhooks key d' = dups webhooks key d) → events_have_hooks d → events_have_hooks d'.
Proof. intros He Hw Hd user e Hin. rewrite Hw. by apply Hd, He. Qed.

Lemma rollback_chain_hooks cur height d d' :
  rollback_chain cur height d = Ok d' → events_have_hooks d → events_have_hooks d'.
Proof.
  unfold rollback_chain. intros (d1 & H1 & [= <-])%expect_bind_ok.
  apply touches_rollback_accounts in H1.
  assert (touches [blocks; pows; accounts; outputs; spends; images; accounts_by_height] d d1) as Ht.
  { etrans; [|eapply touches_weaken, H1; set_solver].
    etrans; [|apply touches_foldl; intros; apply touches_del; set_solver].
    apply touches_foldl; intros; apply touches_del; set_solver. }
  apply events_have_hooks_shrink.
  - intros user e [He _]%rollback_events_elem. by rewrite <-(Ht events_by_account_id) by set_solver.
  - intros key. rewrite (touches_rollback_events _ _ webhooks) by set_solver. apply Ht. set_solver.
Qed.

Lemma take_while_incl {A} (p : A → bool) x l : x ∈ take_while p l → x ∈ l.
Proof.
  induction l as [|y l IH]; simpl; [done|]. destruct (p y); [|by intros ?%elem_of_nil].
  rewrite !elem_of_cons. tauto.
Qed.

Lemma find_webhook_incl key pid d v : v ∈ find_webhook key pid d → v ∈ dups webhooks key d.
Proof.
  unfold find_webhook, seek_range. intros Hv%take_while_incl.
  destruct (drop_while_suffix (λ v, webhook_dupsort_ltb v.1 (WebhookDupsort pid 0)) (dups webhooks key d))
    as [l ->]. apply elem_of_app. by right.
Qed.

Lemma check_hooks_hooks user l d : events_have_hooks d → events_have_hooks (check_hooks user l d).
Proof.
  unfold check_hooks. revert d. induction l as [|o l IH]; intros d Hd; simpl; [done|]. apply IH.
  assert (∀ v, v ∈ find_webhook (WebhookKey user tx_confirmation) (short_payment_id o) d →
    v ∈ dups webhooks (WebhookKey user tx_confirmation) d) as Hv by (intros v; apply find_webhook_incl).
  revert Hv. generalize (find_webhook (WebhookKey user tx_confirmation) (short_payment_id o) d).
  intros vs. revert d Hd. clear IH. induction vs as [|v vs IH]; intros d Hd Hv; simpl; [done|].
  assert (∀ key d e, dups webhooks key (put events_by_account_id user e d) = dups webhooks key d) as Hw.
  { intros. by rewrite (dups_put_other events_by_account_id _ _ _ webhooks). }
  apply IH; [|intros w Hw'; rewrite Hw; apply Hv; by right].
  intros u e [[-> ->]|[He _]]%(elem_of_dups_put events_by_account_id); rewrite Hw; [|by apply Hd].
  exists v. split; [|done]. apply Hv. by left.
Qed.

Lemma add_ongoing_hooks_incl events user start stop d events' d' u e :
  add_ongoing_hooks events user start stop d = Ok (events', d') →
  e ∈ dups events_by_account_id u d' → e ∈ dups events_by_account_id u d.
Proof.
  unfold add_ongoing_hooks. destruct (_ =? _); [by intros [= <- <-]|]. intros Hrun.
  refine (fold_err_invariant (λ st,
    e ∈ dups events_by_account_id u st.2 → e ∈ dups events_by_account_id u d) _ _ _ _ _ _ Hrun); [done|].
  intros [evs d1] ev st _ Hd1 Hs. cbn [snd] in *. unfold ongoing_hook in Hs.
  destruct (_ <? _); [|by injection Hs as <-].
  apply expect_bind_ok in Hs as (v & _ & Hs). apply expect_bind_ok in Hs as (o & _ & Hs).
  destruct (copy_confirmations _ _ _) as [copies last]. injection Hs as <-. cbn [snd].
  destruct (_ <=? _); [|done]. intros [He _]%(elem_of_dups_del events_by_account_id). by apply Hd1.
Qed.

Lemma store_scan_hooks lu first_new user s a out d out' d' :
  store_scan lu first_new user s a out d = Ok (out', d') → events_have_hooks d → events_have_hooks d'.
Proof.
  unfold store_scan. intros Hrun Hd. set (d0 := put accounts s _ d) in *.
  apply expect_bind_ok in Hrun as (lk & _ & Hrun).
  set (d1 := del accounts_by_height _ _ d0) in *.
  set (d2 := bulk_insert outputs _ _ d1) in *. set (d3 := add_spends _ _ d2) in *.
  apply expect_bind_ok in Hrun as ([confirms d5] & H5 & Hrun).
  apply expect_bind_ok in Hrun as (spent & _ & [= <- <-]).
  assert (events_have_hooks (check_hooks (account_id user) (la_outputs user) d3)) as H4.
  { apply check_hooks_hooks.
    apply (events_have_hooks_touches [accounts; accounts_by_height; outputs; spends; images] d);
      [|unfold no_hooks; set_solver|done].
    etrans; [apply (touches_put _ accounts); set_solver|].
    etrans; [apply (touches_del _ accounts_by_height); set_solver|].
    etrans; [apply (touches_bulk_insert _ outputs); set_solver|].
    eapply touches_weaken, touches_add_spends; set_solver. }
  revert H4. apply events_have_hooks_shrink.
  - intros u e. by eapply add_ongoing_hooks_incl.
  - intros key. apply touches_add_ongoing_hooks in H5. apply H5. set_solver.
Qed.

Lemma update_users_hooks lu first_new users : ∀ heights out d out' d',
  update_users lu first_new users heights out d = Ok (out', d') →
  events_have_hooks d → events_have_hooks d'.
Proof.
  assert (∀ d hs, events_have_hooks d → events_have_hooks (bulk_insert accounts_by_height lu hs d)) as Hb.
  { intros d hs. apply (events_have_hooks_touches [accounts_by_height]);
      [apply touches_bulk_insert; set_solver|unfold no_hooks; set_solver]. }
  induction users as [|user users IH]; intros heights out d out' d' Hrun Hd;
    cbn [update_users] in Hrun; cbv zeta in Hrun.
  { injection Hrun as <- <-. by apply Hb. }
  set (d1 := if bool_decide (length heights = 127%nat) then _ else d) in *.
  assert (events_have_hooks d1) as H1 by (unfold d1; case_bool_decide; [by apply Hb|done]).
  apply expect_bind_ok in Hrun as ([[s a]|] & _ & Hrun); [|by eapply IH].
  destruct (_ <? scan_height user); [by eapply IH|].
  destruct (lu <=? acc_scan_height a); [by eapply IH|].
  apply expect_bind_ok in Hrun as ([out1 d2] & Hs & Hrun).
  eapply IH; [exact Hrun|]. by eapply store_scan_hooks.
Qed.

Lemma update_hooks height chain users pow d out d' :
  update height chain users pow d = Ok (out, d') → events_have_hooks d → events_have_hooks d'.
Proof.
  unfold update. destruct (_ && _); [by intros [= <- <-]|]. cbv zeta.
  intros (_ & _ & Hrun)%expect_bind_ok Hd. apply expect_bind_ok in Hrun as (_ & _ & Hrun).
  apply expect_bind_ok in Hrun as (d1 & H1%touches_update_chain & Hrun).
  eapply update_users_hooks; [exact Hrun|].
  eapply events_have_hooks_touches; [exact H1|unfold no_hooks; set_solver|done].
Qed.

(** ** The transactions *)

Ltac unbind H :=
  repeat match type of H with
  | (_ ← _; _) = Ok _ => let x := fresh "x" in let E := fresh "E" in apply expect_bind_ok in H as (x & E & H)
  end.

Lemma hooks_no_hooks d d' : touches no_hooks d d' → events_have_hooks d → events_have_hooks d'.
Proof. intros Ht. by apply (events_have_hooks_touches no_hooks). Qed.

Lemma touches_put_nodup_no_hooks n k v d d' :
  n ∈ no_hooks → put_nodup n k v d = Ok d' → touches no_hooks d d'.
Proof. apply touches_put_nodup. Qed.

Lemma do_add_account_touches user d d' : do_add_account user d = Ok d' → touches no_hooks d d'.
Proof.
  unfold do_add_account. intros Hrun. unbind Hrun.
  destruct (put_nodup accounts_by_address _ _ _) as [d1|] eqn:E3; [|done].
  injection E1 as <-. apply touches_put_nodup_no_hooks in E3, E2, Hrun; [|unfold no_hooks; set_solver..].
  etrans; [exact E3|]. etrans; [exact E2|exact Hrun].
Qed.

Lemma change_height_touches fuel cursors height address lookahead max d d' :
  change_height fuel cursors height address lookahead max d = Ok d' → touches no_hooks d d'.
Proof.
  unfold change_height. intros Hrun. unbind Hrun. cbv zeta in Hrun. unbind Hrun.
  destruct x2 as [user d2]. unbind Hrun.
  apply touches_put_nodup_no_hooks in Hrun; [|unfold no_hooks; set_solver].
  etrans; [|exact Hrun]. etrans; [|apply touches_del; unfold no_hooks; set_solver].
  etrans; [|apply (touches_put _ accounts); unfold no_hooks; set_solver].
  apply touches_rollback_spends in E1.
  etrans; [eapply touches_weaken, touches_rollback_outputs; unfold no_hooks; set_solver|].
  etrans; [eapply touches_weaken, E1; unfold no_hooks; set_solver|].
  destruct (_ && _); [|by injection E2 as <- <-].
  apply do_lookahead_user_ok in E2 as [Ht _]. eapply touches_weaken, Ht. unfold no_hooks. set_solver.
Qed.

Lemma change_status_touches status addresses d changed d' :
  change_status status addresses d = Ok (changed, d') → touches no_hooks d d'.
Proof.
  unfold change_status. intros Hrun.
  refine (fold_err_invariant (λ st, touches no_hooks d st.2) _ _ _ _ _ _ Hrun); [done|].
  intros [acc d1] address st _ Hd1 Hs. cbn [snd] in *. unfold change_status_one in Hs.
  destruct (find_by_address _ _) as [v|]; [|by injection Hs as <-].
  destruct (decide _); [by injection Hs as <-|]. unbind Hs. injection Hs as <-. cbn [snd].
  etrans; [exact Hd1|]. etrans; [|apply (touches_put _ accounts_by_height); unfold no_hooks; set_solver].
  apply touches_put_nodup_no_hooks in E0; [|unfold no_hooks; set_solver].
  etrans; [|exact E0]. etrans; [|apply (touches_del _ accounts); unfold no_hooks; set_solver].
  apply touches_put. unfold no_hooks. set_solver.
Qed.

Lemma collect_touches changed address st st' d :
  touches no_hooks d st.2 → (∀ d1, changed = Ok d1 → touches no_hooks d d1) →
  collect_changed changed address st = Ok st' → touches no_hooks d st'.2.
Proof. apply (collect_changed_ok (touches no_hooks d)). Qed.

Lemma rescan_touches height addresses d changed d' :
  rescan height addresses d = Ok (changed, d') → touches no_hooks d d'.
Proof.
  unfold rescan. intros Hrun. unbind Hrun.
  refine (fold_err_invariant (λ st, touches no_hooks d st.2) _ _ _ _ _ _ Hrun); [done|].
  intros st address st' _ Hd1 Hs. apply (collect_touches _ _ _ _ _ Hd1) in Hs; [done|].
  intros d1 H1%change_height_touches. by trans st.2.
Qed.

Lemma import_accounts_touches fuel addresses max d changed d' :
  import_accounts fuel addresses max d = Ok (changed, d') → touches no_hooks d d'.
Proof.
  unfold import_accounts. intros Hrun.
  refine (fold_err_invariant (λ st, touches no_hooks d st.2) _ _ _ _ _ _ Hrun); [done|].
  intros st address st' _ Hd1 Hs. unfold import_account in Hs.
  destruct (get_both requests _ _ _) as [info|]; [|by injection Hs as <-].
  assert (touches no_hooks d (del requests import_scan (spend_public address) st.2)) as Hdel.
  { etrans; [exact Hd1|apply touches_del; unfold no_hooks; set_solver]. }
  apply (collect_touches _ _ (st.1, _) _ _ Hdel) in Hs; [done|].
  intros d1 H1%change_height_touches. etrans; [exact Hdel|exact H1].
Qed.

Lemma create_accounts_touches fuel now addresses max d stored d' :
  create_accounts fuel now addresses max d = Ok (stored, d') → touches no_hooks d d'.
Proof.
  unfold create_accounts. intros Hrun. unbind Hrun. destruct x0 as [[acc last] d1]. injection Hrun as <- <-.
  refine (fold_err_invariant (λ st, touches no_hooks d st.2) _ _ _ _ _ _ E0); [done|].
  intros [[acc1 last1] d2] address st' _ Hd1 Hs. cbn [snd] in *. unfold create_account in Hs.
  destruct (get_both requests _ _ _) as [info|]; [|by injection Hs as <-].
  assert (touches no_hooks d (del requests create (spend_public address) d2)) as Hdel.
  { etrans; [exact Hd1|apply touches_del; unfold no_hooks; set_solver]. }
  unbind Hs. destruct x1 as [user d3].
  assert (touches no_hooks d d3) as H3.
  { destruct (negb (is_zero _)); [|by injection E2 as <- <-].
    apply do_lookahead_user_ok in E2 as [Ht _]. etrans; [exact Hdel|].
    eapply touches_weaken, Ht. unfold no_hooks. set_solver. }
  destruct (do_add_account user d3) as [d4|] eqn:E4.
  - injection Hs as <-. apply do_add_account_touches in E4. cbn [snd]. by trans d3.
  - destruct (decide _); [|done]. by injection Hs as <-.
Qed.

Lemma update_lookahead_touches address height matched max d r d' :
  update_lookahead address height matched max d = Ok (r, d') → touches no_hooks d d'.
Proof.
  unfold update_lookahead. intros Hrun. unbind Hrun.
  destruct (_ || _); [by injection Hrun as <- <-|].
  match type of Hrun with (let '(_, _) := ?x in _) = _ => destruct x as [upserted d1] eqn:E1 end.
  assert (touches no_hooks d d1) as Ht.
  { destruct (_ && _); [|by injection E1 as <- <-].
    apply touches_do_upsert in E1. eapply touches_weaken, E1. unfold no_hooks. set_solver. }
  destruct upserted; [by injection Hrun as <- <-|]. unbind Hrun. injection Hrun as <- <-.
  etrans; [exact Ht|apply (touches_put _ accounts); unfold no_hooks; set_solver].
Qed.

Lemma check_blockchain_touches d d' : check_blockchain d = Ok d' → touches [blocks] d d'.
Proof.
  unfold check_blockchain. destruct get_points as [|[h0 hash0] rest]; [done|]. intros Hrun. unbind Hrun.
  destruct (dups blocks _ d).
  - unbind Hrun. apply (touches_put_nodup [blocks]) in E0; [|set_solver].
    destruct (last rest) as [[h hash]|]; [|by injection Hrun as <-].
    apply (touches_put_nodup [blocks]) in Hrun; [|set_solver]. by trans x0.
  - unbind Hrun. by injection Hrun as <-.
Qed.

Lemma check_pow_touches d d' : check_pow d = Ok d' → touches [pows] d d'.
Proof.
  unfold check_pow. destruct (dups pows pows_version d); [|by intros [= <-]].
  destruct (dups pows pows_previous_version d) as [|p l];
    [by intros ?%(touches_put_nodup [pows]); [|set_solver]|].
  generalize (p :: l). intros migrated [= <-]. etrans; [|apply touches_bulk_insert; set_solver].
  apply (touches_foldl [pows]). intros. apply touches_del. set_solver.
Qed.

Lemma sync_pow_ok (P : db L → Prop) height hashes pow d d' :
  (∀ d d', touches [blocks; pows] d d' → P d → P d') →
  (∀ cur height d d', rollback_chain cur height d = Ok d' → P d → P d') →
  sync_pow height hashes pow d = Ok d' → P d → P d'.
Proof.
  intros Htouch Hroll. unfold sync_pow. destruct hashes as [|first chain]; [done|]. intros Hrun HP.
  apply expect_bind_ok in Hrun as (_ & _ & Hrun). apply expect_bind_ok in Hrun as (hash & _ & Hrun).
  apply expect_bind_ok in Hrun as (_ & _ & Hrun).
  apply expect_bind_ok in Hrun as ([[current rest] d1] & Hloop & Hrun).
  apply expect_bind_ok in Hrun as (_ & _ & [= <-]).
  apply (Htouch d1).
  { etrans; [eapply touches_weaken, touches_append_block_hashes; set_solver|].
    eapply touches_weaken, touches_append_pow; set_solver. }
  revert Hloop HP. generalize (wrap 64 (height + 1)), (tail (seek blocks blocks_version height d)).
  cbn [spec_of blocks_spec ts_val]. clear -Hroll.
  induction chain as [|x chain IH]; intros c cur; [by destruct cur; intros [= <- <- <-]|].
  destruct cur as [|b cur]; simpl; intros (_ & _ & Hrun)%expect_bind_ok; [by injection Hrun as <- <- <-|].
  destruct (negb _); [by injection Hrun as <- <- <-|]. destruct (_ =? _); [by apply (IH _ _ Hrun)|].
  apply expect_bind_ok in Hrun as (_ & _ & Hrun). apply expect_bind_ok in Hrun as (d2 & H2 & [= <- <- <-]).
  by eapply Hroll.
Qed.

Lemma sync_chain_hooks height hashes regtest d d' :
  sync_chain height hashes regtest d = Ok d' → events_have_hooks d → events_have_hooks d'.
Proof.
  unfold sync_chain. destruct hashes as [|first chain]; [done|]. intros Hrun Hd.
  apply expect_bind_ok in Hrun as (hash & _ & Hrun). apply expect_bind_ok in Hrun as (_ & _ & Hrun).
  apply expect_bind_ok in Hrun as ([[current rest] d1] & Hloop & [= <-]).
  apply (events_have_hooks_touches [blocks] d1);
    [apply touches_append_block_hashes|unfold no_hooks; set_solver|].
  revert Hloop Hd. generalize (wrap 64 (height + 1)), (tail (seek blocks blocks_version height d)).
  cbn [spec_of blocks_spec ts_val]. clear -LL.
  induction chain as [|x chain IH]; intros c cur; [by destruct cur; intros [= <- <- <-]|].
  destruct cur as [|b cur]; [by intros [= <- <- <-]|]. simpl. destruct (_ =? _); [by apply IH|].
  intros (_ & _ & Hrun)%expect_bind_ok. apply expect_bind_ok in Hrun as (d2 & H2 & [= <- <- <-]).
  by eapply rollback_chain_hooks.
Qed.

Lemma touches_creation_request queue_max now address key flags lookahead d hooks d' :
  creation_request queue_max now address key flags lookahead d = Ok (hooks, d') →
  touches free_tables d d'.
Proof.
  unfold creation_request. intros Hrun. unbind Hrun.
  destruct (find_by_address _ _); [done|]. unbind Hrun. injection Hrun as _ <-.
  destruct (put_nodup _ _ _ _) eqn:Ep; [|done]. injection E3 as <-.
  eapply touches_put_nodup; [|exact Ep]. unfold free_tables. set_solver.
Qed.

Lemma touches_import_request now address height lookahead d d' :
  import_request now address height lookahead d = Ok d' → touches free_tables d d'.
Proof.
  unfold import_request. intros Hrun. unbind Hrun.
  destruct (find_by_address _ _); [|done]. destruct (put_nodup _ _ _ _) eqn:Ep; [|done].
  injection Hrun as <-. eapply touches_put_nodup; [|exact Ep]. unfold free_tables. set_solver.
Qed.

Lemma touches_reject_requests req addresses d :
  touches free_tables d (reject_requests req addresses d).2.
Proof.
  unfold reject_requests. generalize (@nil account_address). revert d.
  induction addresses as [|a l IH]; intros d acc; simpl; [done|].
  assert (touches free_tables d (reject_request req (acc, d) a).2) as Hd1.
  { unfold reject_request. simpl. destruct (get_both _ _ _ _); [|done].
    apply touches_del. unfold free_tables. set_solver. }
  destruct (reject_request req (acc, d) a) as [acc1 d1]. trans d1; [exact Hd1|apply IH].
Qed.

Lemma touches_upsert_subaddresses id address view_key subaddrs max d :
  touches free_tables d (upsert_subaddresses id address view_key subaddrs max d).2.
Proof.
  unfold upsert_subaddresses, try_write.
  destruct (do_upsert _ _ _ _ _ _) as [[out|e] d1] eqn:E; [|done].
  apply touches_do_upsert in E. eapply touches_weaken, E. unfold free_tables. set_solver.
Qed.

Lemma add_webhook_touches type address event d d' :
  add_webhook type address event d = Ok d' → touches [webhooks] d d'.
Proof. unfold add_webhook. intros Hrun. unbind Hrun. injection Hrun as <-. apply touches_put. set_solver. Qed.

Lemma add_webhook_hooks type address event d d' :
  add_webhook type address event d = Ok d' → events_have_hooks d → events_have_hooks d'.
Proof.
  unfold add_webhook. intros Hrun He. unbind Hrun. injection Hrun as <-. intros u e.
  rewrite (dups_put_other webhooks _ _ _ events_by_account_id) by done. intros (v & Hv & Heq)%He.
  match goal with |- context [put webhooks ?key event d] =>
    destruct (put_present webhooks key event d _ v Hv) as (w & Hw & Hwv) end.
  exists w. split; [exact Hw|]. simpl in Hwv. congruence.
Qed.

Lemma hooks_free_tables d d' : touches free_tables d d' → events_have_hooks d → events_have_hooks d'.
Proof. intros Ht. eapply events_have_hooks_touches; [exact Ht|unfold free_tables, no_hooks; set_solver]. Qed.

Lemma accounts_free_tables d d' : touches free_tables d d' → accounts_ok d → accounts_ok d'.
Proof. intros Ht. eapply touches_accounts_ok; [exact Ht|unfold free_tables; set_solver]. Qed.

(** *** What every transaction keeps *)

Lemma transaction_hooks careful F d d' : transaction careful F d d' → events_have_hooks d → events_have_hooks d'.
Proof.
  intros Ht He. destruct Ht as
    [d d' H1|d d' H1|? d d' H1|? ? ? d d' H1|? ? ? d d' H1|? ? d d' H1|? ? d ? d' H1|? ? ? ? d d' _ H1 _|? ? d ? d' _ H1
    |? ? ? ? ? ? d ? d' H1 _|? ? ? ? d d' H1|? ? d d' H1|? ? ? ? d ? d' _ H1|? ? ? d ? d' _ _ H1|? ? d|? ? ? ? d ? d' H1
    |? ? ? ? ? d|? ? ? d|? ? d|? ? ? ? d ? d' H1|? ? ? d d' H1|? d d' H1|? d].
  - eapply hooks_free_tables, He. eapply touches_weaken, check_blockchain_touches; [|done]. unfold free_tables. set_solver.
  - eapply hooks_free_tables, He. eapply touches_weaken, check_pow_touches; [|done]. unfold free_tables. set_solver.
  - revert H1. unfold rollback. destruct (seek _ _ _ _); [by intros [= <-]|]. intros H1. by eapply rollback_chain_hooks.
  - by eapply sync_chain_hooks.
  - eapply sync_pow_ok; [| |exact H1|exact He]; [|by intros; eapply rollback_chain_hooks].
    intros d1 d2 Ht. apply hooks_free_tables. eapply touches_weaken, Ht. unfold free_tables. set_solver.
  - revert H1. unfold update_access_time. intros Hrun. unbind Hrun.
    injection Hrun as <-. eapply hooks_no_hooks, He. apply touches_put. unfold no_hooks. set_solver.
  - by eapply hooks_no_hooks, He; eapply change_status_touches.
  - revert H1. unfold add_account. intros Hrun. unbind Hrun. eapply hooks_no_hooks, He. by eapply do_add_account_touches.
  - by eapply hooks_no_hooks, He; eapply rescan_touches.
  - eapply hooks_free_tables, He. by eapply touches_creation_request.
  - eapply hooks_free_tables, He. by eapply touches_import_request.
  - revert H1. unfold shrink_lookahead. intros Hrun. unbind Hrun.
    injection Hrun as <-. eapply hooks_no_hooks, He. apply touches_put. unfold no_hooks. set_solver.
  - by eapply hooks_no_hooks, He; eapply create_accounts_touches.
  - by eapply hooks_no_hooks, He; eapply import_accounts_touches.
  - eapply hooks_free_tables, He. apply touches_reject_requests.
  - by eapply update_hooks.
  - eapply hooks_free_tables, He. apply touches_upsert_subaddresses.
  - eapply hooks_free_tables, He. eapply touches_weaken, touches_import_key_images. unfold free_tables. set_solver.
  - eapply hooks_free_tables, He. eapply touches_weaken, touches_record_pending_spends. unfold free_tables. set_solver.
  - by eapply hooks_no_hooks, He; eapply update_lookahead_touches.
  - by eapply add_webhook_hooks.
  - by eapply clear_webhooks_of_hooks.
  - by apply clear_webhooks_hooks.
Qed.

(** *** What the careful ones keep *)

Lemma transaction_accounts F d d' : transaction true F d d' → accounts_ok d → accounts_ok d'.
Proof.
  intros Ht Ha. destruct Ht as
    [d d' H1|d d' H1|? d d' H1|? ? ? d d' H1|? ? ? d d' H1|? ? d d' H1|? ? d ? d' H1|? ? ? ? d d' Hids H1 _|? ? d ? d' Hs H1
    |? ? ? ? ? ? d ? d' H1 _|? ? ? ? d d' H1|? ? d d' H1|? ? ? ? d ? d' Hids H1|? ? ? d ? d' Hn Hs H1|? ? d|? ? ? ? d ? d' H1
    |? ? ? ? ? d|? ? ? d|? ? d|? ? ? ? d ? d' H1|? ? ? d d' H1|? d d' H1|? d].
  - eapply accounts_free_tables, Ha. eapply touches_weaken, check_blockchain_touches; [|done]. unfold free_tables. set_solver.
  - eapply accounts_free_tables, Ha. eapply touches_weaken, check_pow_touches; [|done]. unfold free_tables. set_solver.
  - revert H1. unfold rollback. destruct (seek _ _ _ _); [by intros [= <-]|]. intros H1. by eapply rollback_chain_ok.
  - by eapply sync_chain_ok.
  - eapply sync_pow_ok; [| |exact H1|exact Ha]; [|by intros; eapply rollback_chain_ok].
    intros d1 d2 Ht. apply accounts_free_tables. eapply touches_weaken, Ht. unfold free_tables. set_solver.
  - by eapply update_access_time_ok.
  - by eapply change_status_ok.
  - specialize (Hids eq_refl). by eapply add_account_ok.
  - specialize (Hs eq_refl). by eapply rescan_ok.
  - eapply accounts_free_tables, Ha. by eapply touches_creation_request.
  - eapply accounts_free_tables, Ha. by eapply touches_import_request.
  - by eapply shrink_lookahead_ok.
  - destruct (Hids eq_refl). by eapply create_accounts_ok.
  - specialize (Hn eq_refl). specialize (Hs eq_refl). by eapply import_accounts_ok.
  - eapply accounts_free_tables, Ha. apply touches_reject_requests.
  - by eapply update_consistent_accounts.
  - eapply accounts_free_tables, Ha. apply touches_upsert_subaddresses.
  - eapply accounts_free_tables, Ha. eapply touches_weaken, touches_import_key_images. unfold free_tables. set_solver.
  - eapply accounts_free_tables, Ha. eapply touches_weaken, touches_record_pending_spends. unfold free_tables. set_solver.
  - by eapply update_lookahead_ok.
  - eapply (touches_accounts_ok [webhooks]); [by eapply add_webhook_touches|set_solver|done].
  - eapply (touches_accounts_ok [webhooks; events_by_account_id]); [by eapply touches_clear_webhooks_of|set_solver|done].
  - eapply (touches_accounts_ok [webhooks; events_by_account_id]); [apply touches_clear_webhooks|set_solver|done].
Qed.

Lemma transaction_consistent F d d' : transaction true F d d' → consistent d → consistent d'.
Proof. intros Ht [Ha He]. split; [by eapply transaction_accounts|by eapply transaction_hooks]. Qed.

Lemma transactions_hooks careful F d d' :
  rtc (transaction careful F) d d' → events_have_hooks d → events_have_hooks d'.
Proof. induction 1 as [|d1 d2 d3 Hstep _ IH]; [done|]. intros H1. by eapply IH, transaction_hooks. Qed.

(** C1: from the empty database on, whatever the sequence of transactions, every
    event in progress refers to a webhook of its account.  The three account tables
    agree, and no two accounts share an id, as long as every transaction keeps to
    the conditions of [transaction]: when accounts are added there are ids left, no
    account is rescanned from, or imported at, a height above the one it was
    scanned to, and no import names an address twice.  The code does not check
    these ([Accounts.rescan_above_scan_height] shows the tables after a rescan that
    does not keep to them). *)
Theorem storage_consistent F d :
  (rtc (transaction false F) empty_db d → events_have_hooks d) ∧
  (rtc (transaction true F) empty_db d → accounts_ok d).
Proof.
  split; intros Hr.
  - eapply transactions_hooks; [exact Hr|]. intros user e. unfold dups, empty_db. rewrite mdb_dups_empty.
    by intros ?%elem_of_nil.
  - assert (accounts_ok empty_db) as Hempty by apply empty_accounts_ok.
    revert Hempty. induction Hr as [|d1 d2 d3 Hstep _ IH]; [done|]. intros H1. by eapply IH, transaction_accounts.
Qed.
End storage.

(** ** Witnesses *)

#[local] Existing Instance test_config.
#[local] Instance no_urls : UrlParser := {| parse_url _ := None |}.

Definition first_db : db ListDb.lmdb :=
  match check_blockchain empty_db with Ok d => d | Err _ => empty_db end.

Definition second_db : db ListDb.lmdb :=
  match add_account (H := test_crypto) 1000 (test_address 6) 6 0 first_db with
  | Ok d => d
  | Err _ => empty_db
  end.

Lemma storage_consistent_witness :
  (accounts_ok second_db ∧ events_have_hooks second_db) ∧ test_account 1 6 2 ∈ dups accounts active second_db.
Proof.
  split; [|vm_compute; left].
  assert (rtc (transaction (H := test_crypto) true (Z.eq 0)) empty_db second_db) as Hsteps.
  { eapply rtc_l; [apply (tx_check_blockchain (H := test_crypto) empty_db first_db); reflexivity|].
    eapply rtc_l; [|apply rtc_refl].
    apply (tx_add_account (H := test_crypto) 1000 (test_address 6) 6 0); [|reflexivity|reflexivity].
    intros _. vm_compute. split; [discriminate|reflexivity]. }
  destruct (storage_consistent (H := test_crypto) (Z.eq 0) second_db) as [Hhooks Hok]. split; [by apply Hok|].
  apply Hhooks. clear -Hsteps. induction Hsteps as [|d1 d2 d3 Hstep _ IH]; [apply rtc_refl|].
  eapply rtc_l; [by apply careful_transaction|exact IH].
Defined.
