(* ===== verification/Identity.v ===== *)
(** * What never changes of an account (src/src/db/storage.cpp)

    An account keeps its id, address, view key, creation time and flags for as
    long as the database lives, and it is never removed: the operations move it
    between statuses and heights and change its lookahead.  The flags decide who
    administrates ([Endpoints.admin_auth]), so that it matters where an account
    can come from: [Storage.transaction] says which flags are given to new accounts
    and to requests for one, and shown is that there are no others. *)

From S2P Require Import Prelude Lmdb Data Compare Tables Chain Subaddress Account Accounts Webhooks Update KeyImages Storage.

Definition identity (a : account) : Z * account_address * Z * Z * Z :=
  (acc_id a, acc_address a, acc_key a, acc_creation a, acc_flags a).

Section identity.
Context `{LL : LmdbLaws} `{C : ChainConfig} `{Crypto} `{UrlParser}.
Context (F : Z → Prop).
Implicit Types d : db L.

(** ** Accounts that stay *)

Record kept d d' : Prop := {
  kept_old s a : a ∈ dups accounts s d → ∃ s' a', a' ∈ dups accounts s' d' ∧ identity a' = identity a;
  kept_new s' a' : a' ∈ dups accounts s' d' →
    F (acc_flags a') ∨ ∃ s a, a ∈ dups accounts s d ∧ identity a' = identity a
}.

Lemma identity_flags a a' : identity a' = identity a → acc_flags a' = acc_flags a.
Proof. by intros [=]. Qed.

#[local] Instance kept_preorder : PreOrder kept.
Proof.
  split.
  - intros d. split; [eauto|]. intros s a Ha. right. eauto.
  - intros d1 d2 d3 [Ho1 Hn1] [Ho2 Hn2]. split.
    + intros s a (s2 & a2 & Ha2 & E2)%Ho1. destruct (Ho2 _ _ Ha2) as (s3 & a3 & Ha3 & E3).
      exists s3, a3. split; [done|congruence].
    + intros s a [Hf|(s2 & a2 & Ha2 & E2)]%Hn2; [by left|].
      destruct (Hn1 _ _ Ha2) as [Hf|(s1 & a1 & Ha1 & E1)]; [left|right].
      * by rewrite (identity_flags _ _ E2).
      * exists s1, a1. split; [done|congruence].
Qed.

Lemma kept_same d d' : (∀ s, dups accounts s d' = dups accounts s d) → kept d d'.
Proof. intros Heq. split; intros s a Ha; [|right]; exists s, a; rewrite Heq in *; done. Qed.

Lemma kept_touches T d d' : touches T d d' → accounts ∉ T → kept d d'.
Proof. intros Ht HT. apply kept_same. intros s. by apply Ht. Qed.

(** The value of an account is replaced. *)
Lemma kept_put s a a' d : a ∈ dups accounts s d → identity a' = identity a → kept d (put accounts s a' d).
Proof.
  intros Ha E. assert (acc_id a' = acc_id a) as Hid by by injection E.
  split; intros s1 x.
  - intros Hx. destruct (decide (s = s1 ∧ acc_id x = acc_id a)) as [[<- Hi]|Hne].
    + assert (x = a) as -> by by apply (dups_unique accounts s d). exists s, a'. split; [|done].
      apply (elem_of_dups_put accounts). by left.
    + exists s1, x. split; [|done]. apply (elem_of_dups_put accounts). right. split; [done|]. simpl. naive_solver congruence.
  - intros [[<- ->]|[Hx _]]%(elem_of_dups_put accounts); right; [exists s, a|exists s1, x]; done.
Qed.

Lemma kept_put_account lookup user user' d :
  lookup_account lookup d = Ok user → identity user' = identity user → kept d (put_account lookup user' d).
Proof. intros [Hin _]%of_option_ok%(get_both_Some accounts). by apply kept_put. Qed.

(** A new account, which takes the place of none. *)
Lemma kept_put_nodup s a d d' : put_nodup accounts s a d = Ok d' → F (acc_flags a) → kept d d'.
Proof.
  intros [-> Hnew]%put_nodup_Ok Hf. split; intros s1 x.
  - intros Hx. exists s1, x. split; [|done]. apply (elem_of_dups_put accounts). right. split; [done|].
    intros <-. by apply Hnew.
  - intros [[<- ->]|[Hx _]]%(elem_of_dups_put accounts); [by left|right]. by exists s1, x.
Qed.

(** An account changes its status. *)
Lemma kept_move s s' a d d' :
  a ∈ dups accounts s d → put_nodup accounts s' a (del accounts s (acc_id a) d) = Ok d' → kept d d'.
Proof.
  intros Ha [-> Hnew]%put_nodup_Ok. split; intros s1 x.
  - intros Hx. destruct (decide (s = s1 ∧ acc_id x = acc_id a)) as [[<- Hi]|Hne].
    + assert (x = a) as -> by by apply (dups_unique accounts s d). exists s', a. split; [|done].
      apply (elem_of_dups_put accounts). by left.
    + exists s1, x. split; [|done].
      assert (x ∈ dups accounts s1 (del accounts s (acc_id a) d)) as Hx'.
      { apply (elem_of_dups_del accounts). split; [done|]. simpl. naive_solver. }
      apply (elem_of_dups_put accounts). right. split; [done|]. intros <-. by apply Hnew.
  - intros [[<- ->]|[Hx _]]%(elem_of_dups_put accounts); right; [by exists s, a|].
    apply (elem_of_dups_del accounts) in Hx as [Hx _]. by exists s1, x.
Qed.

(** ** Requests for an account *)

Definition asked d : Prop := ∀ info, info ∈ dups requests create d → F (ri_creation_flags info).

Definition grows d d' : Prop := asked d → asked d' ∧ kept d d'.

#[local] Instance grows_preorder : PreOrder grows.
Proof.
  split; [by intros d|]. intros d1 d2 d3 H12 H23 (H2 & Hk2)%H12. destruct (H23 H2). split; [done|by etrans].
Qed.

Lemma grows_kept d d' : kept d d' → (∀ info, info ∈ dups requests create d' → info ∈ dups requests create d) → grows d d'.
Proof. intros Hk Hr Ha. split; [|done]. intros info Hi. by apply Ha, Hr. Qed.

Lemma grows_touches T d d' : touches T d d' → accounts ∉ T → requests ∉ T → grows d d'.
Proof.
  intros Ht Ha Hr. apply grows_kept; [by eapply kept_touches|]. intros info. by rewrite (Ht requests) by done.
Qed.

Lemma grows_put_account lookup user user' d :
  lookup_account lookup d = Ok user → identity user' = identity user → grows d (put_account lookup user' d).
Proof.
  intros Hl Hi. apply grows_kept; [by eapply kept_put_account|]. intros info. unfold put_account.
  by rewrite (dups_put_other accounts _ _ _ requests) by done.
Qed.

Lemma grows_put_nodup n k v d d' : n ≠ accounts → n ≠ requests → put_nodup n k v d = Ok d' → grows d d'.
Proof. intros Ha Hr Hp. apply (touches_put_nodup [n]) in Hp; [|set_solver]. eapply grows_touches; [exact Hp|set_solver..]. Qed.

Lemma grows_put n k v d : n ≠ accounts → n ≠ requests → grows d (put n k v d).
Proof. intros Ha Hr. apply (grows_touches [n]); [apply touches_put; set_solver|set_solver..]. Qed.

Lemma grows_del_request req key d : grows d (del requests req key d).
Proof.
  apply grows_kept; [eapply (kept_touches [requests]); [apply touches_del; set_solver|set_solver]|].
  by intros info [Hi _]%(elem_of_dups_del requests).
Qed.

(** ** The operations *)

Lemma rollback_account_grows height nh st e st' : rollback_account height nh st e = Ok st' → grows st.2 st'.2.
Proof.
  destruct st as [l d], e as [h lookup]. unfold rollback_account.
  intros (user & Hl & Hrun)%expect_bind_ok. apply expect_bind_ok in Hrun as (d1 & H1%touches_rollback_spends & [= <-]).
  cbn [snd]. etrans; [apply (grows_put_account lookup user (with_heights nh (Z.min nh (acc_start_height user)) user) d Hl); done|].
  apply (grows_touches [outputs; spends; images; accounts_by_height]); [|set_solver..].
  etrans; [eapply touches_weaken, touches_rollback_outputs; set_solver|].
  etrans; [eapply touches_weaken, H1; set_solver|apply touches_del; set_solver].
Qed.

Lemma rollback_chain_grows cur height d d' : rollback_chain cur height d = Ok d' → grows d d'.
Proof.
  unfold rollback_chain. intros (d1 & H1 & [= <-])%expect_bind_ok. unfold rollback_accounts in H1.
  apply expect_bind_ok in H1 as ([l d2] & H2 & [= <-]).
  apply (fold_err_invariant (λ st, grows d st.2)) in H2; cbn [snd] in *.
  - etrans; [exact H2|]. apply (grows_touches [accounts_by_height; events_by_account_id]); [|set_solver..].
    etrans; [|eapply touches_weaken, touches_rollback_events; set_solver]. apply touches_bulk_insert. set_solver.
  - apply (grows_touches [blocks; pows]); [|set_solver..].
    etrans; [|apply touches_foldl; intros; apply touches_del; set_solver].
    apply touches_foldl; intros; apply touches_del; set_solver.
  - intros st e st' _ Hst Hs%rollback_account_grows. by etrans.
Qed.

Lemma sync_chain_grows height hashes regtest d d' : sync_chain height hashes regtest d = Ok d' → grows d d'.
Proof.
  unfold sync_chain. destruct hashes as [|first chain]; [done|]. intros Hrun.
  apply expect_bind_ok in Hrun as (hash & _ & Hrun). apply expect_bind_ok in Hrun as (_ & _ & Hrun).
  apply expect_bind_ok in Hrun as ([[current rest] d1] & Hloop & [= <-]). trans d1.
  - revert Hloop. generalize (wrap 64 (height + 1)), (tail (seek blocks blocks_version height d)).
    cbn [spec_of blocks_spec ts_val]. clear -LL.
    induction chain as [|x chain IH]; intros c cur; [by destruct cur; intros [= <- <- <-]|].
    destruct cur as [|b cur]; [by intros [= <- <- <-]|]. simpl. destruct (_ =? _); [by apply IH|].
    intros (_ & _ & Hrun)%expect_bind_ok. apply expect_bind_ok in Hrun as (d2 & H2 & [= <- <- <-]).
    by eapply rollback_chain_grows.
  - apply (grows_touches [blocks]); [apply touches_append_block_hashes|set_solver..].
Qed.

Lemma change_status_grows status addresses d changed d' :
  change_status status addresses d = Ok (changed, d') → grows d d'.
Proof.
  unfold change_status. intros Hrun.
  refine (fold_err_invariant (λ st, grows d st.2) _ _ _ _ _ _ Hrun); [done|].
  intros [acc d1] address st _ Hd1 Hs. cbn [snd] in *. etrans; [exact Hd1|]. unfold change_status_one in Hs.
  destruct (find_by_address _ _) as [v|]; [|by injection Hs as <-].
  destruct (decide _); [by injection Hs as <-|]. cbv zeta in Hs.
  apply expect_bind_ok in Hs as (user & Hu%of_option_ok & Hs). apply expect_bind_ok in Hs as (d2 & Hp & Hs).
  apply expect_bind_ok in Hs as (_ & _ & [= <-]). cbn [snd].
  apply (get_both_Some accounts) in Hu as [Hu Hid]. simpl in Hid. rewrite <-Hid in Hp.
  etrans; [|by apply (grows_put accounts_by_height)].
  match type of Hp with put_nodup _ _ _ (del _ _ _ ?d0) = _ => trans d0; [by apply grows_put|] end.
  apply grows_kept; [by eapply kept_move|]. apply put_nodup_Ok in Hp as [-> _]. intros info.
  rewrite (dups_put_other accounts _ _ _ requests) by done. by rewrite (dups_del_other accounts _ _ _ requests) by done.
Qed.

Lemma do_add_account_grows user d d' : do_add_account user d = Ok d' → F (acc_flags user) → grows d d'.
Proof.
  unfold do_add_account. intros Hrun Hf. apply expect_bind_ok in Hrun as (verify & _ & Hrun).
  apply expect_bind_ok in Hrun as (_ & _ & Hrun). apply expect_bind_ok in Hrun as (d1 & Hd1 & Hrun).
  destruct (put_nodup accounts_by_address _ _ _) as [d1'|] eqn:E1; [|done]. injection Hd1 as <-.
  apply expect_bind_ok in Hrun as (d2 & H2 & H3).
  etrans; [by eapply grows_put_nodup, E1|]. etrans; [by eapply grows_put_nodup, H2|].
  apply grows_kept; [by eapply kept_put_nodup|]. apply put_nodup_Ok in H3 as [-> _]. intros info.
  by rewrite (dups_put_other accounts _ _ _ requests) by done.
Qed.

Lemma change_height_grows fuel cursors height address lookahead max d d' :
  change_height fuel cursors height address lookahead max d = Ok d' → grows d d'.
Proof.
  unfold change_height. intros (v & _ & Hrun)%expect_bind_ok. apply expect_bind_ok in Hrun as (user & Hl & Hrun).
  cbv zeta in Hrun. apply expect_bind_ok in Hrun as (d1 & H1%touches_rollback_spends & Hrun).
  set (changed := if _ <=? _ then _ else _) in *.
  assert (identity changed = identity user) as Hc by (unfold changed; by destruct (_ <=? _)).
  apply expect_bind_ok in Hrun as ([user2 d2] & H2 & Hrun). apply expect_bind_ok in Hrun as (_ & _ & Hrun).
  assert (touches [outputs; spends; images; subaddress_ranges; subaddress_indexes] d d2 ∧ identity user2 = identity user)
    as [Ht Hi].
  { assert (touches [outputs; spends; images; subaddress_ranges; subaddress_indexes] d d1) as Hd1.
    { etrans; [eapply touches_weaken, touches_rollback_outputs; set_solver|eapply touches_weaken, H1; set_solver]. }
    destruct (_ && _); [|by injection H2 as <- <-]. apply do_lookahead_user_ok in H2 as [Ht [fail ->]].
    split; [|done]. etrans; [exact Hd1|eapply touches_weaken, Ht; set_solver]. }
  etrans; [|by eapply grows_put_nodup, Hrun].
  etrans; [|apply (grows_touches [accounts_by_height]); [apply touches_del; set_solver|set_solver..]].
  etrans; [apply (grows_touches _ _ _ Ht); set_solver|]. eapply grows_put_account; [|exact Hi].
  unfold lookup_account in *. by rewrite (get_both_touches _ _ _ _ _ _ Ht) by set_solver.
Qed.

Lemma create_account_grows fuel now max st address st' : create_account fuel now max st address = Ok st' → grows st.2 st'.2.
Proof.
  destruct st as [[stored last] d]. cbn [snd]. unfold create_account.
  destruct (get_both requests create _ d) as [info|] eqn:Hinfo; [|by intros [= <-]]. cbv zeta.
  intros (_ & _ & Hrun)%expect_bind_ok. apply expect_bind_ok in Hrun as ([user d1] & H1 & Hrun). intros Ha.
  apply (get_both_Some requests) in Hinfo as [Hinfo _].
  assert (grows (del requests create (spend_public address) d) d1 ∧ acc_flags user = ri_creation_flags info) as [Hg Hf].
  { destruct (negb _); [|by injection H1 as <- <-]. apply do_lookahead_user_ok in H1 as [Ht [fail ->]].
    split; [|done]. eapply grows_touches; [exact Ht|set_solver..]. }
  assert (grows d d1) as Hd by by etrans; [apply (grows_del_request create (spend_public address))|].
  destruct (do_add_account user d1) as [d2|e] eqn:E.
  - injection Hrun as <-. cbn [snd]. apply (transitivity Hd); [|done]. eapply do_add_account_grows; [exact E|].
    rewrite Hf. by apply Ha.
  - destruct (decide _); [|done]. injection Hrun as <-. by apply Hd.
Qed.

Lemma create_accounts_grows fuel now addresses max d stored d' :
  create_accounts fuel now addresses max d = Ok (stored, d') → grows d d'.
Proof.
  unfold create_accounts. intros (t & _ & Hrun)%expect_bind_ok.
  apply expect_bind_ok in Hrun as ([[acc last] d1] & Hrun & [= <- <-]).
  refine (fold_err_invariant (λ st, grows d st.2) _ _ _ _ _ _ Hrun); [done|].
  intros st a st' _ Hst Hs%create_account_grows. by etrans.
Qed.

Lemma rescan_grows height addresses d changed d' : rescan height addresses d = Ok (changed, d') → grows d d'.
Proof.
  unfold rescan. intros (h & _ & Hrun)%expect_bind_ok. apply expect_bind_ok in Hrun as (_ & _ & Hrun).
  refine (fold_err_invariant (λ st, grows d st.2) _ _ _ _ _ _ Hrun); [done|].
  intros st a st' _ Hst. apply (collect_changed_ok (grows d)); [done|].
  intros d1 H1%change_height_grows. by etrans.
Qed.

Lemma import_accounts_grows fuel addresses max d changed d' :
  import_accounts fuel addresses max d = Ok (changed, d') → grows d d'.
Proof.
  unfold import_accounts. intros Hrun.
  refine (fold_err_invariant (λ st, grows d st.2) _ _ _ _ _ _ Hrun); [done|].
  intros st a st' _ Hst. unfold import_account. destruct (get_both requests _ _ _) as [info|]; [|by intros [= <-]].
  assert (grows d (del requests import_scan (spend_public a) st.2)) as Hdel by (etrans; [exact Hst|apply grows_del_request]).
  apply (collect_changed_ok (grows d) _ a (st.1, _)); [done|]. intros d1 H1%change_height_grows. by etrans.
Qed.

Lemma reject_requests_grows req addresses d : grows d (reject_requests req addresses d).2.
Proof.
  unfold reject_requests. generalize (@nil account_address). revert d.
  induction addresses as [|a addresses IH]; intros d l; cbn [foldl]; [done|].
  unfold reject_request at 2. destruct (get_both requests _ _ _); [|apply IH].
  etrans; [apply grows_del_request|apply IH].
Qed.

Lemma store_scan_grows lu first_new user s a out d out' d' :
  a ∈ dups accounts s d → store_scan lu first_new user s a out d = Ok (out', d') → grows d d'.
Proof.
  unfold store_scan. intros Ha (lk & _ & Hrun)%expect_bind_ok.
  apply expect_bind_ok in Hrun as ([confirms d5] & H5%touches_add_ongoing_hooks & Hrun).
  apply expect_bind_ok in Hrun as (spent & _ & [= <- <-]).
  trans (put accounts s (with_scan_height lu a) d).
  - apply grows_kept; [by eapply kept_put|]. intros info. by rewrite (dups_put_other accounts _ _ _ requests) by done.
  - apply (grows_touches [accounts_by_height; outputs; spends; images; events_by_account_id]); [|set_solver..].
    etrans; [|eapply touches_weaken, H5; set_solver]. etrans; [|eapply touches_weaken, touches_check_hooks; set_solver].
    etrans; [|eapply touches_weaken, touches_add_spends; set_solver].
    etrans; [|apply (touches_bulk_insert _ outputs); set_solver]. apply touches_del. set_solver.
Qed.

Lemma update_users_grows lu first_new users : ∀ heights out d out' d',
  update_users lu first_new users heights out d = Ok (out', d') → grows d d'.
Proof.
  assert (∀ d hs, grows d (bulk_insert accounts_by_height lu hs d)) as Hb.
  { intros d hs. apply (grows_touches [accounts_by_height]); [apply touches_bulk_insert; set_solver|set_solver..]. }
  induction users as [|user users IH]; intros heights out d out' d' Hrun; cbn [update_users] in Hrun; cbv zeta in Hrun.
  { injection Hrun as <- <-. apply Hb. }
  set (d1 := if bool_decide (length heights = 127%nat) then _ else d) in *.
  trans d1; [unfold d1; case_bool_decide; [apply Hb|done]|].
  apply expect_bind_ok in Hrun as ([[s a]|] & Hex & Hrun); [|by eapply IH].
  destruct (_ <? scan_height user); [by eapply IH|]. destruct (lu <=? acc_scan_height a); [by eapply IH|].
  apply expect_bind_ok in Hrun as ([out1 d2] & Hs & Hrun). apply existing_account_ok in Hex as [Hex _].
  etrans; [by eapply store_scan_grows|]. by eapply IH.
Qed.

Lemma update_grows height chain users pow d out d' : update height chain users pow d = Ok (out, d') → grows d d'.
Proof.
  unfold update. destruct (_ && _); [by intros [= <- <-]|]. cbv zeta.
  intros (_ & _ & Hrun)%expect_bind_ok. apply expect_bind_ok in Hrun as (_ & _ & Hrun).
  apply expect_bind_ok in Hrun as (d1 & H1%touches_update_chain & Hrun%update_users_grows).
  etrans; [|exact Hrun]. eapply grows_touches; [exact H1|set_solver..].
Qed.

Lemma update_lookahead_grows address height matched max d r d' :
  update_lookahead address height matched max d = Ok (r, d') → grows d d'.
Proof.
  unfold update_lookahead. intros (v & _ & Hrun)%expect_bind_ok. apply expect_bind_ok in Hrun as (user & Hl & Hrun).
  cbv zeta in Hrun. destruct (_ || _); [by injection Hrun as <- <-|].
  match type of Hrun with (let '(_, _) := ?x in _) = _ => destruct x as [upserted d1] eqn:E end.
  assert (touches [subaddress_ranges; subaddress_indexes] d d1) as Ht.
  { destruct (_ && _); [by eapply touches_do_upsert|by injection E as <- <-]. }
  destruct upserted as [out|e].
  - injection Hrun as <- <-. eapply grows_touches; [exact Ht|set_solver..].
  - apply expect_bind_ok in Hrun as (_ & _ & [= <- <-]).
    etrans; [eapply grows_touches; [exact Ht|set_solver..]|]. apply (grows_put_account _ user); [|done].
    unfold lookup_account in *. by rewrite (get_both_touches _ _ _ _ _ _ Ht) by set_solver.
Qed.

Lemma creation_request_grows queue_max now address key flags lookahead d hooks d' :
  creation_request queue_max now address key flags lookahead d = Ok (hooks, d') → F flags → grows d d'.
Proof.
  unfold creation_request. intros Hrun Hf Ha. apply expect_bind_ok in Hrun as ([] & _ & Hrun).
  apply expect_bind_ok in Hrun as (t & _ & Hrun). destruct (find_by_address _ _); [done|].
  apply expect_bind_ok in Hrun as ([] & _ & Hrun). apply expect_bind_ok in Hrun as (h & _ & Hrun).
  apply expect_bind_ok in Hrun as (d1 & Hd1 & [= _ <-]). destruct (put_nodup _ _ _ _) eqn:E; [|done]. injection Hd1 as <-.
  apply put_nodup_Ok in E as [-> _]. split.
  - intros info [[_ ->]|[Hi _]]%(elem_of_dups_put requests); [done|by apply Ha].
  - apply (kept_touches [requests]); [apply touches_put; set_solver|set_solver].
Qed.

Lemma import_request_grows now address height lookahead d d' :
  import_request now address height lookahead d = Ok d' → grows d d'.
Proof.
  unfold import_request. intros (t & _ & Hrun)%expect_bind_ok. destruct (find_by_address _ _); [|done].
  destruct (put_nodup _ _ _ _) eqn:E; [|done]. injection Hrun as <-. apply put_nodup_Ok in E as [-> _].
  apply grows_kept; [apply (kept_touches [requests]); [apply touches_put; set_solver|set_solver]|].
  by intros info [[? _]|[Hi _]]%(elem_of_dups_put requests).
Qed.

(** ** The transactions *)

Lemma update_access_time_grows now address d d' : update_access_time now address d = Ok d' → grows d d'.
Proof.
  unfold update_access_time. intros (t & _ & Hrun)%expect_bind_ok. apply expect_bind_ok in Hrun as (v & _ & Hrun).
  apply expect_bind_ok in Hrun as (user & Hl & [= <-]). by apply (grows_put_account _ user).
Qed.

Lemma shrink_lookahead_grows address lookahead d d' : shrink_lookahead address lookahead d = Ok d' → grows d d'.
Proof.
  unfold shrink_lookahead. intros (v & _ & Hrun)%expect_bind_ok. apply expect_bind_ok in Hrun as (user & Hl & Hrun).
  apply expect_bind_ok in Hrun as (_ & _ & [= <-]). by apply (grows_put_account _ user).
Qed.

Lemma add_account_grows now address key flags d d' : add_account now address key flags d = Ok d' → F flags → grows d d'.
Proof.
  unfold add_account. intros (t & _ & Hrun)%expect_bind_ok Hf. apply expect_bind_ok in Hrun as (h & _ & Hrun).
  by eapply do_add_account_grows.
Qed.

Lemma add_webhook_grows type address event d d' : add_webhook type address event d = Ok d' → grows d d'.
Proof.
  unfold add_webhook. intros (_ & _ & Hrun)%expect_bind_ok. apply expect_bind_ok in Hrun as (_ & _ & [= <-]).
  by apply grows_put.
Qed.

Lemma sync_pow_grows height hashes pow d d' : sync_pow height hashes pow d = Ok d' → grows d d'.
Proof.
  intros Hrun. refine (sync_pow_ok (grows d) _ _ _ _ _ _ _ Hrun _); [| |done].
  - intros d1 d2 Ht Hd1. etrans; [exact Hd1|]. eapply grows_touches; [exact Ht|set_solver..].
  - intros cur h d1 d2 H1%rollback_chain_grows Hd1. by etrans.
Qed.

Lemma rollback_grows height d d' : rollback height d = Ok d' → grows d d'.
Proof. unfold rollback. destruct (seek _ _ _ _); [by intros [= <-]|]. by intros ?%rollback_chain_grows. Qed.

Lemma upsert_subaddresses_grows id address view_key subaddrs max d :
  grows d (upsert_subaddresses id address view_key subaddrs max d).2.
Proof.
  unfold upsert_subaddresses, try_write. destruct (do_upsert _ _ _ _ _ _) as [[out|e] d1] eqn:E; [|done].
  apply touches_do_upsert in E. eapply grows_touches; [exact E|set_solver..].
Qed.

Lemma transaction_grows careful d d' : transaction careful F d d' → grows d d'.
Proof.
  destruct 1;
    eauto using rollback_grows, sync_chain_grows, sync_pow_grows, change_status_grows, rescan_grows, import_accounts_grows,
      create_accounts_grows, creation_request_grows, import_request_grows, update_grows, update_lookahead_grows,
      reject_requests_grows, update_access_time_grows, shrink_lookahead_grows, add_account_grows, add_webhook_grows,
      upsert_subaddresses_grows.
  - eapply grows_touches; [by eapply check_blockchain_touches|set_solver..].
  - eapply grows_touches; [by eapply check_pow_touches|set_solver..].
  - eapply grows_touches; [apply touches_import_key_images|set_solver..].
  - eapply grows_touches; [apply touches_record_pending_spends|set_solver..].
  - eapply grows_touches; [by eapply touches_clear_webhooks_of|set_solver..].
  - eapply grows_touches; [apply touches_clear_webhooks|set_solver..].
Qed.

Lemma transactions_grow careful d d' : rtc (transaction careful F) d d' → grows d d'.
Proof. induction 1 as [|d1 d2 d3 H1%transaction_grows _ IH]; [done|]. by etrans. Qed.

(** C3: whatever transactions run, no account is removed, and none changes its id,
    address, view key, creation time or flags; an account that was not there
    before has flags the transactions give to new accounts and requests. *)
Theorem accounts_keep_identity d d' :
  asked d → rtc (transaction false F) d d' →
  (∀ s a, a ∈ dups accounts s d → ∃ s' a', a' ∈ dups accounts s' d' ∧ identity a' = identity a) ∧
  (∀ s' a', a' ∈ dups accounts s' d' → F (acc_flags a') ∨ ∃ s a, a ∈ dups accounts s d ∧ identity a' = identity a).
Proof. intros Ha Ht. destruct (transactions_grow _ _ _ Ht Ha) as [_ [Hold Hnew]]. by split. Qed.
End identity.

(** ** Example *)

#[local] Existing Instance test_config.
#[local] Instance no_urls : UrlParser := {| parse_url _ := None |}.
#[local] Existing Instance test_crypto.

Definition inactive_db : db ListDb.lmdb :=
  match change_status inactive [test_address 6] account_db with Ok (_, d) => d | Err _ => empty_db end.

(** The account of the example database is still the same when it is inactive. *)
Lemma accounts_keep_identity_witness :
  (∃ s' a', a' ∈ dups accounts s' inactive_db ∧ identity a' = identity (test_account 1 6 4)) ∧
  dups accounts inactive inactive_db = [test_account 1 6 4].
Proof.
  split; [|reflexivity].
  apply (accounts_keep_identity (Z.eq 0) account_db inactive_db) with active; [| |vm_compute; left].
  - intros info Hi. vm_compute in Hi. by apply elem_of_nil in Hi.
  - apply rtc_once. apply (tx_change_status inactive [test_address 6] account_db [test_address 6]). reflexivity.
Defined.
