(* ===== verification/Msgpack.v ===== *)
(** * The msgpack format (src/src/wire/msgpack/, src/src/wire/read.h, src/src/wire/write.h)

    Webhooks, subaddress ranges and the messages between scanners are stored and
    sent as msgpack.  Modelled are the reader and the writer, token by token:
    [reading] steps consume bytes and count the elements still expected, [writing]
    steps append them.  [msgpack_values] is the grammar of the format;
    [skip_value_ok] shows that the reader skips exactly one value of it.  The
    templates for C++ objects are in [Wire]. *)

From S2P Require Import Prelude.

(** ** Tags *)

Definition tag_nil : Z := 0xc0.
Definition tag_unused : Z := 0xc1.
Definition tag_False : Z := 0xc2.
Definition tag_True : Z := 0xc3.
Definition tag_binary8 : Z := 0xc4.
Definition tag_binary16 : Z := 0xc5.
Definition tag_binary32 : Z := 0xc6.
Definition tag_extension8 : Z := 0xc7.
Definition tag_extension16 : Z := 0xc8.
Definition tag_extension32 : Z := 0xc9.
Definition tag_float32 : Z := 0xca.
Definition tag_float64 : Z := 0xcb.
Definition tag_uint8 : Z := 0xcc.
Definition tag_uint16 : Z := 0xcd.
Definition tag_uint32 : Z := 0xce.
Definition tag_uint64 : Z := 0xcf.
Definition tag_int8 : Z := 0xd0.
Definition tag_int16 : Z := 0xd1.
Definition tag_int32 : Z := 0xd2.
Definition tag_int64 : Z := 0xd3.
Definition tag_fixed_extension1 : Z := 0xd4.
Definition tag_fixed_extension2 : Z := 0xd5.
Definition tag_fixed_extension4 : Z := 0xd6.
Definition tag_fixed_extension8 : Z := 0xd7.
Definition tag_fixed_extension16 : Z := 0xd8.
Definition tag_string8 : Z := 0xd9.
Definition tag_string16 : Z := 0xda.
Definition tag_string32 : Z := 0xdb.
Definition tag_array16 : Z := 0xdc.
Definition tag_array32 : Z := 0xdd.
Definition tag_object16 : Z := 0xde.
Definition tag_object32 : Z := 0xdf.

(** [fixed_tag<T, M, N>]: a tag with a value in its lower bits. *)
Record fixed_tag := FixedTag { ft_tag : Z; ft_mask : Z; ft_max : Z }.

Definition ftag_matches (f : fixed_tag) (value : Z) : bool := Z.land value (ft_mask f) =? ft_tag f.

(** [value & ~mask()], as [std::uint8_t]. *)
Definition ftag_extract (f : fixed_tag) (value : Z) : Z := wrap 8 (Z.land value (Z.lnot (ft_mask f))).

Definition ftag_unsigned : fixed_tag := FixedTag 0x00 0x80 0x7f.
Definition ftag_signed : fixed_tag := FixedTag 0xe0 0xe0 0.
Definition ftag_string : fixed_tag := FixedTag 0xa0 0xe0 31.
Definition ftag_array : fixed_tag := FixedTag 0x90 0xf0 15.
Definition ftag_object : fixed_tag := FixedTag 0x80 0xf0 15.

(** [msgpack::type<T, V>]: the width in bytes and the sign of [T], the tag. *)
Record tag_type := TagType { tt_bytes : nat; tt_signed : bool; tt_tag : Z }.

Definition tt_bits (t : tag_type) : Z := 8 * Z.of_nat (tt_bytes t).
Definition tt_min (t : tag_type) : Z := if tt_signed t then - 2 ^ (tt_bits t - 1) else 0.
Definition tt_max (t : tag_type) : Z :=
  if tt_signed t then 2 ^ (tt_bits t - 1) - 1 else 2 ^ tt_bits t - 1.

Definition signed_types : list tag_type :=
  [TagType 1 true tag_int8; TagType 2 true tag_int16; TagType 4 true tag_int32; TagType 8 true tag_int64].
Definition unsigned_types : list tag_type :=
  [TagType 1 false tag_uint8; TagType 2 false tag_uint16; TagType 4 false tag_uint32;
   TagType 8 false tag_uint64].
Definition string_types : list tag_type :=
  [TagType 1 false tag_string8; TagType 2 false tag_string16; TagType 4 false tag_string32].
Definition binary_types : list tag_type :=
  [TagType 1 false tag_binary8; TagType 2 false tag_binary16; TagType 4 false tag_binary32].
Definition array_types : list tag_type :=
  [TagType 2 false tag_array16; TagType 4 false tag_array32].
Definition object_types : list tag_type :=
  [TagType 2 false tag_object16; TagType 4 false tag_object32].

(** [boost::endian]'s big endian buffers. *)
Definition be_split (n : nat) (z : Z) : list Z := rev (le_split n z).
Definition be_combine (l : list Z) : Z := le_combine (rev l).

Definition sign_extend (bits z : Z) : Z := if z <? 2 ^ (bits - 1) then z else z - 2 ^ bits.

(** ** The writer

    [needs_flush] only decides when bytes leave the buffer, and is left out. *)

Record msgpack_writer := MsgpackWriter { w_bytes : list Z; w_expected : Z; w_integer_keys : bool }.

(** Writing can fail with an exception; the writer is then not used again. *)
Definition writing : Type := msgpack_writer → expect msgpack_writer.

Definition put_bytes (bytes : list Z) : writing := λ w,
  Ok (MsgpackWriter (w_bytes w ++ bytes) (w_expected w) (w_integer_keys w)).

(** [--expected_] and [expected_ += n], of a [std::size_t]. *)
Definition expect_more (n : Z) : writing := λ w,
  Ok (MsgpackWriter (w_bytes w) (wrap 64 (w_expected w + n)) (w_integer_keys w)).

Definition and_then (f g : writing) : writing := λ w, w ← f w; g w.
Infix ">>" := and_then (at level 60, right associativity).

Definition write_endian (value : Z) (type : tag_type) : writing :=
  put_bytes (tt_tag type :: be_split (tt_bytes type) (wrap (tt_bits type) value)).

(** [boost::fusion::any] with [match_size]: the first type that is large
    enough. *)
Fixpoint write_first (fits : tag_type → bool) (types : list tag_type) (value : Z) : writing :=
  match types with
  | [] => λ _, Err (msgpack integer_encoding)
  | type :: types => if fits type then write_endian value type else write_first fits types value
  end.

Definition write_count (types : list tag_type) (items : Z) : writing :=
  write_first (λ type, items <=? tt_max type) types items.

Definition write_fixed_count (tag : fixed_tag) (types : list tag_type) (items : Z) : writing :=
  if items <=? ft_max tag then put_bytes [Z.lor (ft_tag tag) items] else write_count types items.

(** [do_integer]: [value] is negative, so that the first test never holds. *)
Definition do_write_integer (value : Z) : writing :=
  if 0xe0 <? value then put_bytes [wrap 8 value]
  else write_first (λ type, tt_min type <=? value) signed_types value.

Definition do_write_unsigned (value : Z) : writing := write_count unsigned_types value.

Definition write_unsigned (value : Z) : writing :=
  (if value <=? ft_max ftag_unsigned then put_bytes [value] else do_write_unsigned value) >>
  expect_more (-1).

Definition write_integer (value : Z) : writing :=
  if 0 <=? value then write_unsigned value else do_write_integer value >> expect_more (-1).

Definition write_boolean (value : bool) : writing :=
  put_bytes [if value then tag_True else tag_False] >> expect_more (-1).

(** [real]: the bytes of the [double], of the bits [value], as a little endian
    machine has them. *)
Definition write_real (value : Z) : writing :=
  put_bytes (tag_float64 :: le_split 8 value) >> expect_more (-1).

Definition write_string (source : list Z) : writing :=
  write_fixed_count ftag_string string_types (Z.of_nat (length source)) >> put_bytes source >>
  expect_more (-1).

Definition write_binary (source : list Z) : writing :=
  write_count binary_types (Z.of_nat (length source)) >> put_bytes source >> expect_more (-1).

Definition start_write_array (items : Z) : writing :=
  write_fixed_count ftag_array array_types items >> expect_more items.
Definition start_write_object (items : Z) : writing :=
  write_fixed_count ftag_object object_types items >> expect_more (items * 2).
Definition end_write : writing := expect_more (-1).

Definition write_key (id : Z) (name : list Z) : writing := λ w,
  if w_integer_keys w then write_unsigned id w else write_string name w.

(** ** The reader *)

Record msgpack_reader := MsgpackReader { remaining : list Z; tags_remaining : Z; depth : Z }.

(** A reading step: changes the reader, or throws. *)
Definition reading (A : Type) : Type := msgpack_reader → expect (A * msgpack_reader).

#[global] Instance reading_ret : MRet reading := λ A a r, Ok (a, r).
#[global] Instance reading_bind : MBind reading := λ A B f m r,
  match m r with Ok (a, r) => f a r | Err e => Err e end.

Definition throw {A} (e : error) : reading A := λ _, Err e.
Definition check (c : bool) (e : error) : reading unit := λ r, if c then Ok (tt, r) else Err e.

Definition get_reader : reading msgpack_reader := λ r, Ok (r, r).
Definition remaining_size : reading Z := λ r, Ok (Z.of_nat (length (remaining r)), r).

(** [span::remove_prefix], which stops at the end of the span. *)
Definition remove_prefix (n : nat) : reading unit := λ r,
  Ok (tt, MsgpackReader (drop n (remaining r)) (tags_remaining r) (depth r)).

Definition update_tags_remaining : reading unit := λ r,
  if tags_remaining r =? 0 then Err (msgpack underflow_tree)
  else Ok (tt, MsgpackReader (remaining r) (tags_remaining r - 1) (depth r)).

Definition add_tags (n : Z) : reading unit := λ r,
  Ok (tt, MsgpackReader (remaining r) (tags_remaining r + n) (depth r)).

Definition max_read_depth : Z := 100.

Definition increment_depth : reading unit := λ r,
  if depth r + 1 =? max_read_depth then Err (schema schema_maximum_depth)
  else Ok (tt, MsgpackReader (remaining r) (tags_remaining r) (depth r + 1)).

(** [end_array] and [end_object] *)
Definition decrement_depth : reading unit := λ r,
  if depth r =? 0 then Err logic_error
  else Ok (tt, MsgpackReader (remaining r) (tags_remaining r) (depth r - 1)).

Definition peek_tag : reading Z := λ r,
  match remaining r with [] => Err (msgpack not_enough_bytes) | b :: _ => Ok (b, r) end.

Definition get_tag : reading Z :=
  next ← peek_tag; _ ← remove_prefix 1; mret next.

(** [read_raw(source, bytes)] *)
Definition read_raw (n : Z) : reading (list Z) := λ r,
  if Z.of_nat (length (remaining r)) <? n then Err (msgpack not_enough_bytes)
  else Ok (take (Z.to_nat n) (remaining r),
           MsgpackReader (drop (Z.to_nat n) (remaining r)) (tags_remaining r) (depth r)).

Definition read_endian (bytes : nat) (signed : bool) : reading Z :=
  raw ← read_raw (Z.of_nat bytes);
  mret (if signed then sign_extend (8 * Z.of_nat bytes) (be_combine raw) else be_combine raw).

(** [read_raw<T>]: a length of [bytes] bytes, then as many bytes. *)
Definition read_sized (bytes : nat) : reading (list Z) := n ← read_endian bytes false; read_raw n.

Definition is_type (types : list tag_type) (next : Z) : bool :=
  existsb (λ type, tt_tag type =? next) types.

Definition find_type (types : list tag_type) (next : Z) : option tag_type :=
  List.find (λ type, tt_tag type =? next) types.

Definition read_string_raw (next : Z) : reading (list Z) :=
  if ftag_matches ftag_string next then read_raw (ftag_extract ftag_string next)
  else match find_type string_types next with
       | Some type => read_sized (tt_bytes type)
       | None => throw (schema schema_string)
       end.

Definition read_binary_raw (next : Z) : reading (list Z) :=
  match find_type binary_types next with
  | Some type => read_sized (tt_bytes type)
  | None => throw (schema schema_string)
  end.

(** [boost::numeric_cast] to a type with the range [lo, hi]. *)
Definition numeric_cast (lo hi z : Z) : reading Z :=
  if z <? lo then throw (schema schema_larger_integer)
  else if hi <? z then throw (schema schema_smaller_integer) else mret z.

(** [read_integer<T>] *)
Definition read_integer_as (lo hi next : Z) : reading Z :=
  match find_type (signed_types ++ unsigned_types) next with
  | Some type => z ← read_endian (tt_bytes type) (tt_signed type); numeric_cast lo hi z
  | None => throw (schema schema_integer)
  end.

Definition i64_min : Z := - 2 ^ 63.
Definition i64_max : Z := 2 ^ 63 - 1.

(** [integer] with [do_integer] *)
Definition read_integer : reading Z :=
  _ ← update_tags_remaining;
  next ← get_tag;
  if next <=? ft_max ftag_unsigned then mret next
  else if ftag_matches ftag_signed next then mret (sign_extend 8 next)
  else read_integer_as i64_min i64_max next.

(** [unsigned_integer] with [do_unsigned_integer] *)
Definition read_unsigned : reading Z :=
  _ ← update_tags_remaining;
  next ← get_tag;
  if next <=? ft_max ftag_unsigned then mret next else read_integer_as 0 u64_max next.

Definition read_boolean : reading bool :=
  _ ← update_tags_remaining;
  next ← get_tag;
  if next =? tag_True then mret true else if next =? tag_False then mret false
  else throw (schema schema_boolean).

(** The bits of the [double] that equals the [float] of the bits [z]. *)
Definition widen (z : Z) : Z :=
  let sign := z / 2 ^ 31 in
  let e := (z / 2 ^ 23) mod 2 ^ 8 in
  let m := z mod 2 ^ 23 in
  let '(e, m) :=
    if e =? 255 then (2047, if m =? 0 then 0 else Z.lor (m * 2 ^ 29) (2 ^ 51))
    else if negb (e =? 0) then (e + 896, m * 2 ^ 29)
    else if m =? 0 then (0, 0)
    else (Z.log2 m + 874, (m - 2 ^ Z.log2 m) * 2 ^ (52 - Z.log2 m)) in
  sign * 2 ^ 63 + e * 2 ^ 52 + m.

(** [real]: the bits of the [double] that a [float] or a [double] gives. *)
Definition read_real : reading Z :=
  _ ← update_tags_remaining;
  next ← get_tag;
  if next =? tag_float32 then raw ← read_raw 4; mret (widen (le_combine raw))
  else if next =? tag_float64 then raw ← read_raw 8; mret (le_combine raw)
  else throw (schema schema_number).

Definition read_string : reading (list Z) :=
  _ ← update_tags_remaining; next ← get_tag; read_string_raw next.

Definition read_binary : reading (list Z) :=
  _ ← update_tags_remaining; next ← get_tag; read_binary_raw next.

(** [binary(span)] of a blob with [n] bytes. *)
Definition read_blob (n : nat) : reading (list Z) :=
  bytes ← read_binary; _ ← check (length bytes =? n)%nat (schema schema_fixed_binary); mret bytes.

Definition read_count (tag : fixed_tag) (types : list tag_type) (expected : schema_error) : reading Z :=
  next ← get_tag;
  if ftag_matches tag next then mret (ftag_extract tag next)
  else match find_type types next with
       | Some type => read_endian (tt_bytes type) false
       | None => throw (schema expected)
       end.

Definition start_array (min_element_size : Z) : reading Z :=
  upcoming ← read_count ftag_array array_types schema_array;
  r ← get_reader;
  _ ← check (negb (u64_max - tags_remaining r <? upcoming)) (msgpack max_tree_size);
  size ← remaining_size;
  _ ← check (negb (negb (min_element_size =? 0) && (size / min_element_size <? upcoming)))
        (schema schema_array);
  _ ← add_tags upcoming;
  _ ← increment_depth;
  mret upcoming.

(** [is_array_end(0)] *)
Definition array_end : reading unit := update_tags_remaining.

Definition start_object : reading Z :=
  upcoming ← read_count ftag_object object_types schema_object;
  _ ← check (negb (u64_max / 2 <? upcoming)) (msgpack max_tree_size);
  r ← get_reader;
  _ ← check (negb (u64_max - tags_remaining r <? upcoming * 2)) (msgpack max_tree_size);
  _ ← add_tags (upcoming * 2);
  _ ← increment_depth;
  mret upcoming.

(** One step of [skip_value]: what its [switch] removes of the value with tag
    [next].  Integers with a fixed tag, and arrays and objects but for their
    header, are left to the loop. *)
Definition skip_body (next : Z) : reading unit :=
  let among := existsb (Z.eqb next) in
  let ext (bytes : nat) : reading unit :=
    _ ← remove_prefix 1; _ ← read_sized bytes; remove_prefix 1 in
  if among [tag_nil; tag_unused; tag_False; tag_True] then remove_prefix 1
  else if is_type binary_types next then
    _ ← remove_prefix 1; _ ← read_binary_raw next; mret tt
  else if next =? tag_extension8 then ext 1%nat
  else if next =? tag_extension16 then ext 2%nat
  else if next =? tag_extension32 then ext 4%nat
  else if among [tag_int8; tag_uint8] then remove_prefix 2
  else if among [tag_int16; tag_uint16; tag_fixed_extension1] then remove_prefix 3
  else if among [tag_int32; tag_uint32; tag_float32] then remove_prefix 5
  else if among [tag_int64; tag_uint64; tag_float64] then remove_prefix 9
  else if next =? tag_fixed_extension2 then remove_prefix 4
  else if next =? tag_fixed_extension4 then remove_prefix 6
  else if next =? tag_fixed_extension8 then remove_prefix 10
  else if next =? tag_fixed_extension16 then remove_prefix 18
  else if ftag_matches ftag_string next || is_type string_types next then
    _ ← remove_prefix 1; _ ← read_string_raw next; mret tt
  else if ftag_matches ftag_array next || is_type array_types next then
    _ ← start_array 0; mret tt
  else if ftag_matches ftag_object next || is_type object_types next then
    _ ← start_object; mret tt
  else mret tt.

(** The body of the [do] loop. *)
Definition skip_step : reading unit :=
  size ← remaining_size;
  next ← peek_tag;
  _ ← skip_body next;
  size' ← remaining_size;
  _ ← (if size =? size' then
         _ ← check (ftag_matches ftag_unsigned next || ftag_matches ftag_signed next) (msgpack invalid);
         remove_prefix 1
       else mret tt);
  update_tags_remaining.

Fixpoint skip_loop (fuel : nat) (initial : Z) : reading unit :=
  match fuel with
  | O => throw out_of_fuel
  | S fuel =>
    _ ← skip_step;
    r ← get_reader;
    if initial <=? tags_remaining r then skip_loop fuel initial else mret tt
  end.

(** [skip_value]: every round of the loop removes a byte. *)
Definition skip_value : reading unit :=
  r ← get_reader;
  _ ← check (negb (tags_remaining r =? u64_max)) (msgpack max_tree_size);
  skip_loop (S (length (remaining r))) (tags_remaining r).

(** [key_map]: the names and ids of the fields. *)
Record key_map := KeyMap { km_name : list Z; km_id : Z }.

Fixpoint find_index {A} (p : A → bool) (l : list A) : option nat :=
  match l with
  | [] => None
  | a :: l => if p a then Some O else S <$> find_index p l
  end.

Definition key_index (map : list key_map) (next : Z) : reading (option nat) :=
  let single := ftag_matches ftag_unsigned next in
  if single || is_type unsigned_types next then
    key ← (if single then mret next else read_integer_as 0 u32_max next);
    mret (find_index (λ elem, km_id elem =? key) map)
  else if ftag_matches ftag_string next || is_type string_types next then
    key ← read_string_raw next;
    mret (find_index (λ elem, bool_decide (key = km_name elem)) map)
  else throw (schema schema_invalid_key).

(** [key]: the index of the next known field and the new [state], or [None] at
    the end of the object. *)
Fixpoint key (map : list key_map) (state : nat) : reading (option (nat * nat)) :=
  match state with
  | O => _ ← update_tags_remaining; mret None
  | S state =>
    _ ← update_tags_remaining;
    next ← get_tag;
    index ← key_index map next;
    match index with
    | Some index => mret (Some (index, state))
    | None => _ ← skip_value; key map state
    end
  end.

(** [check_complete] *)
Definition read_complete : reading unit := λ r,
  if tags_remaining r =? 0 then Ok (tt, r) else Err (msgpack incomplete).

(** A new reader of [source], and a new writer. *)
Definition new_reader (source : list Z) : msgpack_reader := MsgpackReader source 1 0.
Definition new_writer (integer_keys : bool) : msgpack_writer := MsgpackWriter [] 1 integer_keys.

(** [take_msgpack] with [check_complete] *)
Definition take_msgpack (w : msgpack_writer) : expect (list Z) :=
  if w_expected w =? 0 then Ok (w_bytes w) else Err logic_error.

(** ** The format

    [tag_form] is the table of the msgpack specification: what follows a tag. *)

Inductive tag_layout : Set :=
  | FixedSize (payload : nat)
  | SizedBy (width extra : nat)
  | Items (width : nat) (per_item : nat)
  | FixedItems (items : nat).

Definition tag_table : list (Z * tag_layout) :=
  [(tag_nil, FixedSize 0); (tag_False, FixedSize 0); (tag_True, FixedSize 0);
   (tag_int8, FixedSize 1); (tag_uint8, FixedSize 1);
   (tag_int16, FixedSize 2); (tag_uint16, FixedSize 2);
   (tag_int32, FixedSize 4); (tag_uint32, FixedSize 4); (tag_float32, FixedSize 4);
   (tag_int64, FixedSize 8); (tag_uint64, FixedSize 8); (tag_float64, FixedSize 8);
   (tag_fixed_extension1, FixedSize 2); (tag_fixed_extension2, FixedSize 3);
   (tag_fixed_extension4, FixedSize 5); (tag_fixed_extension8, FixedSize 9);
   (tag_fixed_extension16, FixedSize 17);
   (tag_binary8, SizedBy 1 0); (tag_binary16, SizedBy 2 0); (tag_binary32, SizedBy 4 0);
   (tag_string8, SizedBy 1 0); (tag_string16, SizedBy 2 0); (tag_string32, SizedBy 4 0);
   (tag_extension8, SizedBy 1 1); (tag_extension16, SizedBy 2 1); (tag_extension32, SizedBy 4 1);
   (tag_array16, Items 2 1); (tag_array32, Items 4 1);
   (tag_object16, Items 2 2); (tag_object32, Items 4 2)].

Definition tag_form (tag : Z) : option tag_layout :=
  if tag <? 0 then None
  else if tag <=? 0x7f then Some (FixedSize 0)
  else if tag <=? 0x8f then Some (FixedItems (2 * Z.to_nat (tag - 0x80)))
  else if tag <=? 0x9f then Some (FixedItems (Z.to_nat (tag - 0x90)))
  else if tag <=? 0xbf then Some (FixedSize (Z.to_nat (tag - 0xa0)))
  else if (0xe0 <=? tag) && (tag <=? 0xff) then Some (FixedSize 0)
  else snd <$> List.find (λ row, row.1 =? tag) tag_table.

(** A scalar token, and the header of a container with [n] items in it. *)
Inductive scalar_token : list Z → Prop :=
  | scalar_fixed tag payload :
      tag_form tag = Some (FixedSize (length payload)) → scalar_token (tag :: payload)
  | scalar_sized tag width extra n payload :
      tag_form tag = Some (SizedBy width extra) → 0 <= n < 2 ^ (8 * Z.of_nat width) →
      Z.of_nat (length payload) = n + Z.of_nat extra →
      scalar_token (tag :: be_split width n ++ payload).

Inductive container_header : list Z → nat → Prop :=
  | header_fixed tag n : tag_form tag = Some (FixedItems n) → container_header [tag] n
  | header_sized tag width per_item n :
      tag_form tag = Some (Items width per_item) → Z.of_nat n < 2 ^ (8 * Z.of_nat width) →
      container_header (tag :: be_split width (Z.of_nat n)) (n * per_item).

(** [msgpack_values k bytes c]: [bytes] are [k] values, with [c] containers in
    them.  The items of a container follow its header. *)
Inductive msgpack_values : nat → list Z → nat → Prop :=
  | values_nil : msgpack_values 0 [] 0
  | values_scalar token k bytes c :
      scalar_token token → msgpack_values k bytes c → msgpack_values (S k) (token ++ bytes) c
  | values_container header n k bytes c :
      container_header header n → msgpack_values (n + k) bytes c →
      msgpack_values (S k) (header ++ bytes) (S c).

(** The encodings, with the smallest form of each. *)
Definition encode_first (fits : tag_type → bool) (types : list tag_type) (value : Z) : list Z :=
  match List.find fits types with
  | Some type => tt_tag type :: be_split (tt_bytes type) (wrap (tt_bits type) value)
  | None => []
  end.

Definition encode_count (types : list tag_type) (items : Z) : list Z :=
  encode_first (λ type, items <=? tt_max type) types items.

Definition encode_header (tag : fixed_tag) (types : list tag_type) (items : Z) : list Z :=
  if items <=? ft_max tag then [ft_tag tag + items] else encode_count types items.

Definition encode_unsigned (value : Z) : list Z :=
  if value <=? 0x7f then [value] else encode_count unsigned_types value.

Definition encode_integer (value : Z) : list Z :=
  if 0 <=? value then encode_unsigned value
  else encode_first (λ type, tt_min type <=? value) signed_types value.

Definition encode_boolean (value : bool) : list Z := [if value then tag_True else tag_False].
Definition encode_real (value : Z) : list Z := tag_float64 :: le_split 8 value.
Definition encode_string (source : list Z) : list Z :=
  encode_header ftag_string string_types (Z.of_nat (length source)) ++ source.
Definition encode_binary (source : list Z) : list Z :=
  encode_count binary_types (Z.of_nat (length source)) ++ source.

Definition encode_key (integer_keys : bool) (id : Z) (name : list Z) : list Z :=
  if integer_keys then encode_unsigned id else encode_string name.

(** ** Lemmas *)

Lemma tag_form_range tag layout : tag_form tag = Some layout → tag ∈ seqZ 0 256.
Proof.
  rewrite elem_of_seqZ. unfold tag_form.
  repeat (case_match; [first [done | lia]|]). intros (row & Hfind & _)%fmap_Some.
  apply List.find_some in Hfind as [Hin Heq].
  assert (Forall (λ row, row.1 < 256) tag_table) as Hall by (repeat constructor).
  rewrite Forall_forall in Hall. apply list_elem_of_In in Hin. specialize (Hall _ Hin). lia.
Qed.

(** What [skip_body] does, by the layout of the tag. *)
Definition skip_body_spec (tag : Z) : Prop :=
  match tag_form tag with
  | Some (FixedSize n) =>
    skip_body tag = remove_prefix (S n) ∨
    skip_body tag = (_ ← remove_prefix 1; _ ← read_raw (Z.of_nat n); mret tt) ∨
    (skip_body tag = mret tt ∧ n = O ∧
     ftag_matches ftag_unsigned tag || ftag_matches ftag_signed tag = true)
  | Some (SizedBy width extra) =>
    skip_body tag = (_ ← remove_prefix 1; _ ← read_sized width; mret tt) ∧ extra = O ∨
    skip_body tag = (_ ← remove_prefix 1; _ ← read_sized width; remove_prefix 1) ∧ extra = 1%nat
  | Some (FixedItems n) =>
    (skip_body tag = (_ ← start_array 0; mret tt) ∧ ftag_matches ftag_array tag = true ∧
     ftag_extract ftag_array tag = Z.of_nat n) ∨
    (skip_body tag = (_ ← start_object; mret tt) ∧ ftag_matches ftag_object tag = true ∧
     2 * ftag_extract ftag_object tag = Z.of_nat n)
  | Some (Items width per_item) =>
    (skip_body tag = (_ ← start_array 0; mret tt) ∧ per_item = 1%nat ∧
     ftag_matches ftag_array tag = false ∧ tt_bytes <$> find_type array_types tag = Some width) ∨
    (skip_body tag = (_ ← start_object; mret tt) ∧ per_item = 2%nat ∧
     ftag_matches ftag_object tag = false ∧ tt_bytes <$> find_type object_types tag = Some width)
  | None => True
  end.

Lemma skip_body_ok tag layout : tag_form tag = Some layout → skip_body_spec tag.
Proof.
  intros Htag%tag_form_range.
  assert (Forall skip_body_spec (seqZ 0 256)) as Hall.
  { let tags := eval vm_compute in (seqZ 0 256) in change (seqZ 0 256) with tags.
    repeat (apply List.Forall_cons; [unfold skip_body_spec; simpl;
      first [exact I | left; reflexivity | right; left; reflexivity
            | right; right; repeat split; reflexivity
            | left; repeat split; reflexivity | right; repeat split; reflexivity]|]).
    apply List.Forall_nil. }
  rewrite Forall_forall in Hall. by apply Hall.
Qed.

(** *** Sequences of reading steps *)

(** [m] reads exactly [bytes] and returns [a], and leaves the counters alone. *)
Definition raw_reads {A} (m : reading A) (bytes : list Z) (a : A) : Prop :=
  ∀ rest t d, m (MsgpackReader (bytes ++ rest) t d) = Ok (a, MsgpackReader rest t d).

Lemma raw_reads_bind {A B} (m : reading A) (f : A → reading B) b1 b2 a b :
  raw_reads m b1 a → raw_reads (f a) b2 b → raw_reads (m ≫= f) (b1 ++ b2) b.
Proof. intros Hm Hf rest t d. unfold mbind, reading_bind. by rewrite <-app_assoc, Hm, Hf. Qed.

Lemma raw_reads_ret {A} (a : A) : raw_reads (mret a) [] a.
Proof. done. Qed.

Lemma raw_reads_bind_ret {A B} (m : reading A) (f : A → reading B) bytes a b :
  raw_reads m bytes a → f a = mret b → raw_reads (m ≫= f) bytes b.
Proof.
  intros Hm Hf. rewrite <-(app_nil_r bytes). eapply raw_reads_bind; [done|].
  rewrite Hf. apply raw_reads_ret.
Qed.

Lemma raw_reads_prefix bytes n : n = length bytes → raw_reads (remove_prefix n) bytes tt.
Proof. intros -> rest t d. unfold remove_prefix; simpl. by rewrite drop_app_length. Qed.

Lemma raw_reads_raw bytes n : n = Z.of_nat (length bytes) → raw_reads (read_raw n) bytes bytes.
Proof.
  intros -> rest t d. unfold read_raw; simpl. rewrite length_app.
  destruct (Z.ltb_spec (Z.of_nat (length bytes + length rest)) (Z.of_nat (length bytes))); [lia|].
  by rewrite Nat2Z.id, take_app_length, drop_app_length.
Qed.

Lemma raw_reads_tag tag : raw_reads get_tag [tag] tag.
Proof. intros rest t d. by unfold get_tag, peek_tag, mbind, reading_bind. Qed.

Lemma length_be_split n z : length (be_split n z) = n.
Proof. unfold be_split. by rewrite length_rev, length_le_split. Qed.

Lemma be_combine_split n z : 0 <= z < 2 ^ (8 * Z.of_nat n) → be_combine (be_split n z) = z.
Proof.
  intros Hz. unfold be_combine, be_split. rewrite rev_involutive. apply le_combine_split.
  by rewrite Z.pow_mul_r in Hz by lia.
Qed.

Lemma sign_extend_wrap bits z :
  0 < bits → - 2 ^ (bits - 1) <= z < 2 ^ (bits - 1) → sign_extend bits (wrap bits z) = z.
Proof.
  intros Hbits Hz. unfold sign_extend, wrap.
  assert (2 ^ bits = 2 * 2 ^ (bits - 1)) as Hpow
    by (rewrite <-Z.pow_succ_r by lia; f_equal; lia).
  destruct (decide (0 <= z)) as [Hpos|Hneg].
  - rewrite Z.mod_small by lia. destruct (Z.ltb_spec z (2 ^ (bits - 1))); lia.
  - assert (z mod 2 ^ bits = z + 2 ^ bits) as ->.
    { symmetry. apply (Z.mod_unique _ _ (-1)); lia. }
    destruct (Z.ltb_spec (z + 2 ^ bits) (2 ^ (bits - 1))); lia.
Qed.

Lemma raw_reads_endian type z :
  (0 < tt_bytes type)%nat → tt_min type <= z <= tt_max type →
  raw_reads (read_endian (tt_bytes type) (tt_signed type))
    (be_split (tt_bytes type) (wrap (tt_bits type) z)) z.
Proof.
  intros Hpos Hz. unfold tt_min, tt_max, tt_bits in *.
  eapply raw_reads_bind_ret; [by apply raw_reads_raw; rewrite length_be_split|]. simpl.
  rewrite be_combine_split by (apply wrap_range; lia).
  destruct (tt_signed type).
  - rewrite sign_extend_wrap by lia. done.
  - by rewrite wrap_small by lia.
Qed.

Lemma raw_reads_unsigned_endian n z :
  (0 < n)%nat → 0 <= z < 2 ^ (8 * Z.of_nat n) → raw_reads (read_endian n false) (be_split n z) z.
Proof.
  intros Hn Hz. pose proof (raw_reads_endian (TagType n false 0) z) as H.
  unfold tt_min, tt_max, tt_bits in H; simpl in H. rewrite wrap_small in H by done. apply H; lia.
Qed.

Lemma raw_reads_sized width payload :
  (0 < width)%nat → Z.of_nat (length payload) < 2 ^ (8 * Z.of_nat width) →
  raw_reads (read_sized width) (be_split width (Z.of_nat (length payload)) ++ payload) payload.
Proof.
  intros Hw Hn. eapply raw_reads_bind; [apply raw_reads_unsigned_endian; lia|].
  by apply raw_reads_raw.
Qed.

(** *** Skipping *)

Lemma tag_form_width tag width extra :
  tag_form tag = Some (SizedBy width extra) ∨ tag_form tag = Some (Items width extra) →
  (0 < width <= 4)%nat.
Proof.
  intros Htag. unfold tag_form in Htag. repeat (case_match; [by destruct Htag|]).
  assert (∃ layout, (snd <$> List.find (λ row, row.1 =? tag) tag_table) = Some layout ∧
    match layout with SizedBy w _ | Items w _ => w = width | _ => False end)
    as (layout & ((t & l) & Hfind & ->)%fmap_Some & Hl) by (destruct Htag as [->| ->]; eexists; split; reflexivity).
  apply List.find_some in Hfind as [Hin _]. apply list_elem_of_In in Hin.
  assert (Forall (λ row, match row.2 with SizedBy w _ | Items w _ => (0 < w <= 4)%nat | _ => True end)
            tag_table) as Hall by (repeat (constructor; [simpl; lia|]); constructor).
  rewrite Forall_forall in Hall. specialize (Hall _ Hin). simpl in *. by destruct l; subst.
Qed.

Lemma skip_step_raw tag payload rest t d :
  raw_reads (skip_body tag) (tag :: payload) tt → 1 <= t →
  skip_step (MsgpackReader (tag :: payload ++ rest) t d) = Ok (tt, MsgpackReader rest (t - 1) d).
Proof.
  intros Hbody Ht. unfold skip_step, remaining_size, peek_tag, mbind, reading_bind.
  cbn -[Z.eqb Z.of_nat length app].
  change (tag :: payload ++ rest) with ((tag :: payload) ++ rest). rewrite Hbody.
  cbn -[Z.eqb Z.of_nat length app]. rewrite length_app.
  destruct (Z.eqb_spec (Z.of_nat (length (tag :: payload) + length rest)) (Z.of_nat (length rest)))
    as [Heq|_]; [simpl in Heq; lia|].
  unfold update_tags_remaining; cbn -[Z.eqb]. by destruct (Z.eqb_spec t 0); [lia|].
Qed.

Lemma skip_step_scalar token rest t d :
  scalar_token token → 1 <= t →
  skip_step (MsgpackReader (token ++ rest) t d) = Ok (tt, MsgpackReader rest (t - 1) d).
Proof.
  intros [tag payload Htag|tag width extra n payload Htag Hn Hlen] Ht;
    pose proof (skip_body_ok _ _ Htag) as Hbody; unfold skip_body_spec in Hbody; rewrite Htag in Hbody.
  - destruct Hbody as [Hbody|[Hbody|(Hbody & Hnil & Hfixed)]].
    + apply skip_step_raw; [|done]. rewrite Hbody. by apply raw_reads_prefix.
    + apply skip_step_raw; [|done]. rewrite Hbody.
      eapply (raw_reads_bind _ _ [tag]); [by apply raw_reads_prefix|].
      eapply raw_reads_bind_ret; [by apply raw_reads_raw|done].
    + destruct payload; [|done]. unfold skip_step, remaining_size, peek_tag, mbind, reading_bind.
      cbn -[Z.eqb Z.of_nat length]. rewrite Hbody. cbn -[Z.eqb Z.of_nat length].
      rewrite Z.eqb_refl. unfold check. rewrite Hfixed.
      unfold update_tags_remaining; cbn -[Z.eqb]. by destruct (Z.eqb_spec t 0); [lia|].
  - pose proof (tag_form_width _ _ _ (or_introl Htag)) as Hwidth.
    apply skip_step_raw; [|done].
    destruct Hbody as [[Hbody ->]|[Hbody ->]]; rewrite Hbody;
      (eapply (raw_reads_bind _ _ [tag]); [by apply raw_reads_prefix|]).
    + assert (n = Z.of_nat (length payload)) as -> by lia.
      eapply raw_reads_bind_ret; [apply raw_reads_sized; lia|done].
    + destruct payload as [|last payload _] using rev_ind; [simpl in Hlen; lia|].
      rewrite length_app in Hlen. simpl in Hlen. assert (n = Z.of_nat (length payload)) as -> by lia.
      rewrite app_assoc. eapply raw_reads_bind; [apply raw_reads_sized; lia|].
      by apply raw_reads_prefix.
Qed.

Lemma start_array_ok header n min rest t d :
  (∀ e, raw_reads (read_count ftag_array array_types e) header n) →
  t + n <= u64_max → d + 1 <> max_read_depth → (min = 0 ∨ n <= Z.of_nat (length rest) / min) →
  start_array min (MsgpackReader (header ++ rest) t d) = Ok (n, MsgpackReader rest (t + n) (d + 1)).
Proof.
  intros Hcount Ht Hd Hmin. unfold start_array, mbind, reading_bind. rewrite Hcount.
  cbn -[Z.of_nat length Z.div u64_max]. unfold check, increment_depth, remaining_size.
  cbn -[Z.of_nat length Z.div u64_max Z.add max_read_depth].
  destruct (Z.ltb_spec (u64_max - t) n); [lia|].
  cbn -[Z.of_nat length Z.div u64_max Z.add max_read_depth].
  assert (negb (min =? 0) && (Z.of_nat (length rest) / min <? n) = false) as ->.
  { apply andb_false_iff. destruct Hmin as [-> |Hmin]; [by left|right; by apply Z.ltb_ge]. }
  cbn -[Z.add max_read_depth]. by destruct (Z.eqb_spec (d + 1) max_read_depth).
Qed.

Lemma start_object_ok header n rest t d :
  (∀ e, raw_reads (read_count ftag_object object_types e) header n) →
  0 <= t → t + 2 * n <= u64_max → d + 1 <> max_read_depth →
  start_object (MsgpackReader (header ++ rest) t d) =
    Ok (n, MsgpackReader rest (t + 2 * n) (d + 1)).
Proof.
  intros Hcount Ht Hn Hd. unfold start_object, mbind, reading_bind. rewrite Hcount.
  unfold check, increment_depth. cbn -[Z.div u64_max Z.mul].
  destruct (Z.ltb_spec (u64_max / 2) n) as [Hlt|_].
  { apply Z.lt_le_pred in Hlt. pose proof (Z.mul_succ_div_gt u64_max 2). lia. }
  cbn -[u64_max Z.mul Z.add max_read_depth].
  destruct (Z.ltb_spec (u64_max - t) (n * 2)); [lia|].
  cbn -[u64_max Z.mul Z.add max_read_depth]. rewrite (Z.mul_comm n 2).
  by destruct (Z.eqb_spec (d + 1) max_read_depth).
Qed.

Lemma raw_reads_count_fixed tag ftag types n e :
  ftag_matches ftag tag = true → ftag_extract ftag tag = n →
  raw_reads (read_count ftag types e) [tag] n.
Proof.
  intros Hmatch <-. eapply raw_reads_bind_ret; [apply raw_reads_tag|]. simpl. by rewrite Hmatch.
Qed.

Lemma raw_reads_count_sized tag ftag types width n e :
  ftag_matches ftag tag = false → tt_bytes <$> find_type types tag = Some width →
  (0 < width)%nat → 0 <= n < 2 ^ (8 * Z.of_nat width) →
  raw_reads (read_count ftag types e) (tag :: be_split width n) n.
Proof.
  intros Hmatch (type & Hfind & ->)%fmap_Some Hwidth Hn.
  change (tag :: ?l) with ([tag] ++ l). eapply raw_reads_bind; [apply raw_reads_tag|]. simpl.
  rewrite Hmatch, Hfind. by apply raw_reads_unsigned_endian.
Qed.

Lemma skip_step_header header n rest t d :
  container_header header n → 1 <= t → t + Z.of_nat n <= u64_max → d + 1 <> max_read_depth →
  skip_step (MsgpackReader (header ++ rest) t d) =
    Ok (tt, MsgpackReader rest (t - 1 + Z.of_nat n) (d + 1)).
Proof.
  intros Hheader Ht Hn Hd.
  assert (∃ tag bytes, header = tag :: bytes ∧
    skip_body tag (MsgpackReader (header ++ rest) t d) =
      Ok (tt, MsgpackReader rest (t + Z.of_nat n) (d + 1))) as (tag & bytes & -> & Hbody).
  { destruct Hheader as [tag n Htag|tag width per_item n Htag Hlen];
      (eexists tag, _; split; [reflexivity|]);
      pose proof (skip_body_ok _ _ Htag) as Hbody; unfold skip_body_spec in Hbody;
      rewrite Htag in Hbody.
    - destruct Hbody as [(-> & Hmatch & Hextract)|(-> & Hmatch & Hextract)];
        unfold mbind, reading_bind.
      + rewrite (start_array_ok _ (Z.of_nat n)); auto. intros e. by apply raw_reads_count_fixed.
      + rewrite (start_object_ok _ (ftag_extract ftag_object tag)); try lia.
        * simpl. by rewrite Hextract.
        * intros e. by apply raw_reads_count_fixed.
    - pose proof (tag_form_width _ _ _ (or_intror Htag)) as Hwidth.
      destruct Hbody as [(-> & -> & Hmatch & Hfind)|(-> & -> & Hmatch & Hfind)];
        unfold mbind, reading_bind.
      + rewrite (start_array_ok _ (Z.of_nat n)); auto; try lia.
        * replace (Z.of_nat (n * 1)) with (Z.of_nat n) by lia. done.
        * intros e. apply raw_reads_count_sized with (1 := Hmatch) (2 := Hfind); lia.
      + rewrite (start_object_ok _ (Z.of_nat n)); auto; try lia.
        * replace (Z.of_nat (n * 2)) with (2 * Z.of_nat n) by lia. done.
        * intros e. apply raw_reads_count_sized with (1 := Hmatch) (2 := Hfind); lia. }
  unfold skip_step, remaining_size, peek_tag, mbind, reading_bind.
  change ((tag :: bytes) ++ rest) with (tag :: (bytes ++ rest)) in Hbody |- *.
  cbn -[Z.eqb Z.of_nat length app]. rewrite Hbody.
  cbn -[Z.eqb Z.of_nat length app]. rewrite app_comm_cons, length_app.
  destruct (Z.eqb_spec (Z.of_nat (length (tag :: bytes) + length rest)) (Z.of_nat (length rest)))
    as [Heq|_]; [simpl in Heq; lia|].
  unfold update_tags_remaining; cbn -[Z.eqb]. destruct (Z.eqb_spec (t + Z.of_nat n) 0); [lia|].
  do 3 f_equal. lia.
Qed.

Lemma scalar_token_length token : scalar_token token → (1 <= length token)%nat.
Proof. by intros []; simpl; lia. Qed.

Lemma container_header_length header n : container_header header n → (1 <= length header)%nat.
Proof. by intros []; simpl; lia. Qed.

Lemma msgpack_values_length k bytes c : msgpack_values k bytes c → (k <= length bytes)%nat.
Proof.
  induction 1 as [|token k bytes c Htoken%scalar_token_length|header n k bytes c
    Hheader%container_header_length]; rewrite ?length_app; simpl; lia.
Qed.

Lemma msgpack_values_app k1 b1 c1 k2 b2 c2 :
  msgpack_values k1 b1 c1 → msgpack_values k2 b2 c2 →
  msgpack_values (k1 + k2) (b1 ++ b2) (c1 + c2).
Proof.
  intros H1 H2. induction H1; simpl; rewrite <-?app_assoc; [done| |].
  - by apply values_scalar.
  - eapply values_container; [done|]. by rewrite Nat.add_assoc.
Qed.

Lemma skip_loop_spec k bytes c fuel rest initial d :
  msgpack_values (S k) bytes c → 1 <= initial → (length bytes <= fuel)%nat →
  initial + Z.of_nat (length bytes) <= u64_max → 0 <= d → d + Z.of_nat c < max_read_depth →
  skip_loop fuel initial (MsgpackReader (bytes ++ rest) (initial + Z.of_nat k) d) =
    Ok (tt, MsgpackReader rest (initial - 1) (d + Z.of_nat c)).
Proof.
  remember (S k) as k' eqn:Hk. intros Hvalues Hinit. revert k Hk fuel d.
  induction Hvalues as [|token k' bytes c Htoken Hvalues IH|header n k' bytes c Hheader Hvalues IH];
    intros k Hk fuel d Hfuel Htags Hd Hdepth; [done|injection Hk as ->..];
    rewrite length_app in Hfuel, Htags.
  - pose proof (scalar_token_length _ Htoken) as Hlen. destruct fuel as [|fuel]; [lia|].
    simpl. unfold mbind, reading_bind, get_reader. rewrite <-app_assoc, skip_step_scalar by (done || lia).
    simpl. destruct k as [|k].
    + inversion Hvalues; subst; simpl. destruct (Z.leb_spec initial (initial + Z.of_nat 0 - 1)); [lia|].
      unfold mret, reading_ret. do 2 f_equal. f_equal; lia.
    + destruct (Z.leb_spec initial (initial + Z.of_nat (S k) - 1)); [|lia].
      replace (initial + Z.of_nat (S k) - 1) with (initial + Z.of_nat k) by lia.
      apply (IH k); auto; lia.
  - pose proof (container_header_length _ _ Hheader) as Hlen. destruct fuel as [|fuel]; [lia|].
    pose proof (msgpack_values_length _ _ _ Hvalues) as Hcount.
    simpl. unfold mbind, reading_bind, get_reader.
    rewrite <-app_assoc, (skip_step_header _ n) by (done || lia).
    simpl. destruct (n + k)%nat as [|m] eqn:Hm.
    + inversion Hvalues; subst. simpl.
      destruct (Z.leb_spec initial (initial + Z.of_nat k - 1 + Z.of_nat n)); [lia|].
      unfold mret, reading_ret. do 2 f_equal. f_equal; lia.
    + destruct (Z.leb_spec initial (initial + Z.of_nat k - 1 + Z.of_nat n)); [|lia].
      replace (initial + Z.of_nat k - 1 + Z.of_nat n) with (initial + Z.of_nat m) by lia.
      rewrite (IH m) by (auto; lia). do 2 f_equal. f_equal; lia.
Qed.

Lemma skip_value_ok bytes c rest t d :
  msgpack_values 1 bytes c → 1 <= t → t + Z.of_nat (length bytes) <= u64_max →
  0 <= d → d + Z.of_nat c < max_read_depth →
  skip_value (MsgpackReader (bytes ++ rest) t d) =
    Ok (tt, MsgpackReader rest (t - 1) (d + Z.of_nat c)).
Proof.
  intros Hvalues Ht Htags Hd Hdepth. pose proof (msgpack_values_length _ _ _ Hvalues).
  unfold skip_value, mbind, reading_bind, get_reader, check. cbn -[skip_loop length u64_max].
  destruct (Z.eqb_spec t u64_max); [lia|]. cbn -[skip_loop length].
  replace t with (t + Z.of_nat 0) at 2 by lia.
  apply skip_loop_spec; auto; rewrite ?length_app; lia.
Qed.

(** *** Writing tokens *)

(** [f] appends [bytes] and counts [n] more expected elements. *)
Definition writes (ik : bool) (f : writing) (bytes : list Z) (n : Z) : Prop :=
  ∀ b e, 0 <= e < 2 ^ 64 →
    f (MsgpackWriter b e ik) = Ok (MsgpackWriter (b ++ bytes) (wrap 64 (e + n)) ik).

Lemma writes_then ik f g b1 b2 n1 n2 :
  writes ik f b1 n1 → writes ik g b2 n2 → writes ik (f >> g) (b1 ++ b2) (n1 + n2).
Proof.
  intros Hf Hg b e He. unfold and_then. rewrite Hf by done. simpl.
  rewrite Hg by (apply wrap_range; lia). unfold wrap.
  by rewrite Zplus_mod_idemp_l, app_assoc, Z.add_assoc.
Qed.

Lemma writes_bytes ik bytes : writes ik (put_bytes bytes) bytes 0.
Proof. intros b e He. unfold put_bytes. simpl. by rewrite Z.add_0_r, wrap_small. Qed.

Lemma writes_expect ik n : writes ik (expect_more n) [] n.
Proof. intros b e He. unfold expect_more. simpl. by rewrite app_nil_r. Qed.

Lemma writes_last ik f bytes n : writes ik f bytes 0 → writes ik (f >> expect_more n) bytes n.
Proof.
  intros Hf. rewrite <-(app_nil_r bytes). apply (writes_then _ _ _ _ _ 0); [done|apply writes_expect].
Qed.

Lemma writes_first ik fits types value type :
  List.find fits types = Some type →
  writes ik (write_first fits types value) (encode_first fits types value) 0.
Proof.
  unfold encode_first. induction types as [|type' types IH]; simpl; [done|].
  destruct (fits type'); [|done]. intros [= ->]. apply writes_bytes.
Qed.

(** The largest of the types is the last. *)
Lemma find_type_max types value last :
  tt_max <$> list.last types = Some last → value <= last →
  ∃ type, List.find (λ type, value <=? tt_max type) types = Some type ∧
    type ∈ types ∧ value <= tt_max type.
Proof.
  intros Hlast Hv. destruct (List.find _ types) as [type|] eqn:Hfind.
  - apply List.find_some in Hfind as [Hin Hle]. exists type. split; [done|].
    apply list_elem_of_In in Hin. split; [done|lia].
  - exfalso. apply fmap_Some in Hlast as (type & Hlast & ->).
    apply last_Some in Hlast as [l ->].
    apply (List.find_none _ _) with (x := type) in Hfind; [lia|].
    apply in_or_app. by right; left.
Qed.

Lemma writes_count ik types value last :
  tt_max <$> list.last types = Some last → value <= last →
  writes ik (write_count types value) (encode_count types value) 0.
Proof.
  intros Hlast Hv. destruct (find_type_max _ _ _ Hlast Hv) as (type & Hfind & _).
  by eapply writes_first.
Qed.

Lemma writes_header ik tag types items last :
  tt_max <$> list.last types = Some last → items <= last →
  (∀ i, 0 <= i <= ft_max tag → Z.lor (ft_tag tag) i = ft_tag tag + i) → 0 <= items →
  writes ik (write_fixed_count tag types items) (encode_header tag types items) 0.
Proof.
  intros Hlast Hle Htag Hpos. unfold write_fixed_count, encode_header.
  destruct (Z.leb_spec items (ft_max tag)); [|by eapply writes_count].
  rewrite <-Htag by lia. apply writes_bytes.
Qed.

(** All the members of a list written out. *)
Ltac split_cases H :=
  match type of H with
  | _ ∨ _ => destruct H as [H|H]; split_cases H
  | False => destruct H
  | _ => subst
  end.
Ltac elem_cases H :=
  unfold signed_types, unsigned_types, app in H; rewrite ?elem_of_cons, ?elem_of_nil in H; split_cases H.

Lemma ftag_lor tag i :
  tag ∈ [ftag_string; ftag_array; ftag_object] → 0 <= i <= ft_max tag →
  Z.lor (ft_tag tag) i = ft_tag tag + i ∧
  ftag_matches tag (ft_tag tag + i) = true ∧ ftag_extract tag (ft_tag tag + i) = i.
Proof.
  intros Htag Hi.
  assert (forallb (λ tag, forallb (λ i, (Z.lor (ft_tag tag) i =? ft_tag tag + i) &&
    ftag_matches tag (ft_tag tag + i) && (ftag_extract tag (ft_tag tag + i) =? i))
      (seqZ 0 (ft_max tag + 1))) [ftag_string; ftag_array; ftag_object] = true) as Hall by done.
  rewrite forallb_forall in Hall. specialize (Hall tag). rewrite <-list_elem_of_In in Hall.
  specialize (Hall Htag). rewrite forallb_forall in Hall. specialize (Hall i).
  rewrite <-list_elem_of_In, elem_of_seqZ in Hall. specialize (Hall ltac:(lia)).
  apply andb_true_iff in Hall as [[H1 H2]%andb_true_iff H3].
  split_and!; [by apply Z.eqb_eq|done|by apply Z.eqb_eq].
Qed.

Lemma writes_unsigned ik z :
  0 <= z <= u64_max → writes ik (write_unsigned z) (encode_unsigned z) (-1).
Proof.
  intros Hz. apply writes_last. unfold encode_unsigned. change (ft_max ftag_unsigned) with 0x7f.
  destruct (z <=? 0x7f); [apply writes_bytes|]. apply (writes_count _ _ _ u64_max); [done|lia].
Qed.

Lemma find_signed z :
  i64_min <= z → ∃ type, List.find (λ type, tt_min type <=? z) signed_types = Some type ∧
    type ∈ signed_types ∧ tt_min type <= z.
Proof.
  intros Hz. destruct (List.find _ _) as [type|] eqn:Hfind.
  - exists type. apply List.find_some in Hfind as [Hin Hle]. apply list_elem_of_In in Hin.
    split_and!; [done|done|lia].
  - apply (List.find_none _ _) with (x := TagType 8 true tag_int64) in Hfind; [|by do 3 right; left].
    change (tt_min _) with i64_min in Hfind. lia.
Qed.

Lemma writes_integer ik z :
  i64_min <= z <= i64_max → writes ik (write_integer z) (encode_integer z) (-1).
Proof.
  intros Hz. unfold write_integer, encode_integer. destruct (Z.leb_spec 0 z).
  - apply writes_unsigned. unfold i64_max, u64_max in *. lia.
  - apply writes_last. unfold do_write_integer. destruct (Z.ltb_spec 0xe0 z); [lia|].
    destruct (find_signed z) as (type & Hfind & _); [lia|]. by eapply writes_first.
Qed.

Lemma writes_boolean ik b : writes ik (write_boolean b) (encode_boolean b) (-1).
Proof. apply writes_last, writes_bytes. Qed.

Lemma writes_real ik z : writes ik (write_real z) (encode_real z) (-1).
Proof. apply writes_last, writes_bytes. Qed.

Lemma writes_string ik l :
  Z.of_nat (length l) <= u32_max → writes ik (write_string l) (encode_string l) (-1).
Proof.
  intros Hl. change (-1) with (0 + (-1)). apply writes_then; [|apply writes_last, writes_bytes].
  apply (writes_header _ _ _ _ u32_max); [done|done| |lia].
  intros i Hi. apply ftag_lor; [by left|done].
Qed.

Lemma writes_binary ik l :
  Z.of_nat (length l) <= u32_max → writes ik (write_binary l) (encode_binary l) (-1).
Proof.
  intros Hl. change (-1) with (0 + (-1)). apply writes_then; [|apply writes_last, writes_bytes].
  by apply (writes_count _ _ _ u32_max).
Qed.

Lemma writes_array ik n :
  0 <= n <= u32_max →
  writes ik (start_write_array n) (encode_header ftag_array array_types n) n.
Proof.
  intros Hn. apply writes_last. apply (writes_header _ _ _ _ u32_max); [done|lia| |lia].
  intros i Hi. apply ftag_lor; [by right; left|done].
Qed.

Lemma writes_object ik n :
  0 <= n <= u32_max →
  writes ik (start_write_object n) (encode_header ftag_object object_types n) (n * 2).
Proof.
  intros Hn. apply writes_last. apply (writes_header _ _ _ _ u32_max); [done|lia| |lia].
  intros i Hi. apply ftag_lor; [by right; right; left|done].
Qed.

Lemma writes_key ik id name :
  0 <= id <= u32_max → Z.of_nat (length name) <= u32_max →
  writes ik (write_key id name) (encode_key ik id name) (-1).
Proof.
  intros Hid Hname b e He. unfold write_key; simpl. destruct ik.
  - apply writes_unsigned; [|done]. unfold u32_max, u64_max in *. lia.
  - by apply writes_string.
Qed.

(** *** Reading tokens *)

(** [m] reads the value [a] from [bytes]. *)
Definition token_reads {A} (m : reading A) (bytes : list Z) (a : A) : Prop :=
  ∀ rest t d, 1 <= t →
    m (MsgpackReader (bytes ++ rest) t d) = Ok (a, MsgpackReader rest (t - 1) d).

Lemma token_reads_tag {A} (f : Z → reading A) tag bytes a :
  raw_reads (f tag) bytes a →
  token_reads (_ ← update_tags_remaining; next ← get_tag; f next) (tag :: bytes) a.
Proof.
  intros Hf rest t d Ht. unfold mbind, reading_bind, update_tags_remaining at 1.
  cbn -[get_tag Z.eqb]. destruct (Z.eqb_spec t 0); [lia|]. by rewrite <-Hf.
Qed.

Lemma raw_reads_integer_as lo hi type z :
  type ∈ signed_types ++ unsigned_types → tt_min type <= z <= tt_max type → lo <= z <= hi →
  raw_reads (read_integer_as lo hi (tt_tag type))
    (be_split (tt_bytes type) (wrap (tt_bits type) z)) z.
Proof.
  intros Htype Hrange Hz. unfold read_integer_as.
  assert (find_type (signed_types ++ unsigned_types) (tt_tag type) = Some type ∧
    (0 < tt_bytes type)%nat) as [-> Hpos] by (elem_cases Htype; split; first [reflexivity | simpl; lia]).
  eapply raw_reads_bind_ret; [by apply raw_reads_endian|]. unfold numeric_cast.
  destruct (Z.ltb_spec z lo); [lia|]. by destruct (Z.ltb_spec hi z); [lia|].
Qed.

Lemma integer_tag type :
  type ∈ signed_types ++ unsigned_types →
  (tt_tag type <=? 0x7f) = false ∧ ftag_matches ftag_signed (tt_tag type) = false ∧
  ftag_matches ftag_unsigned (tt_tag type) = false.
Proof. intros Htype. by elem_cases Htype. Qed.

(** The form of the encoding of a number. *)
Lemma encode_unsigned_cases z :
  0 <= z <= u64_max →
  (z <= 0x7f ∧ encode_unsigned z = [z]) ∨
  (∃ type, type ∈ unsigned_types ∧ tt_min type <= z <= tt_max type ∧
     encode_unsigned z = tt_tag type :: be_split (tt_bytes type) (wrap (tt_bits type) z)).
Proof.
  intros Hz. unfold encode_unsigned. destruct (Z.leb_spec z 0x7f); [by left|right].
  destruct (find_type_max unsigned_types z u64_max) as (type & Hfind & Hin & Hmax); [done|lia|].
  exists type. unfold encode_count, encode_first. rewrite Hfind. split_and!; [done| |done|done].
  assert (tt_min type = 0) as -> by (elem_cases Hin; done). lia.
Qed.

Lemma token_reads_unsigned z : 0 <= z <= u64_max → token_reads read_unsigned (encode_unsigned z) z.
Proof.
  intros Hz. destruct (encode_unsigned_cases z Hz) as [[Hle ->]|(type & Hin & Hrange & ->)].
  - apply token_reads_tag. change (ft_max ftag_unsigned) with 0x7f.
    destruct (Z.leb_spec z 0x7f); [apply raw_reads_ret|lia].
  - apply token_reads_tag. change (ft_max ftag_unsigned) with 0x7f.
    assert (type ∈ signed_types ++ unsigned_types) as Htype by (apply elem_of_app; by right).
    destruct (integer_tag _ Htype) as [-> _]. by apply raw_reads_integer_as.
Qed.

Lemma token_reads_integer z : i64_min <= z <= i64_max → token_reads read_integer (encode_integer z) z.
Proof.
  intros Hz. unfold encode_integer. destruct (Z.leb_spec 0 z) as [Hpos|Hneg].
  - destruct (encode_unsigned_cases z) as [[Hle ->]|(type & Hin & Hrange & ->)].
    { unfold i64_max, u64_max in *; lia. }
    + apply token_reads_tag. change (ft_max ftag_unsigned) with 0x7f.
      destruct (Z.leb_spec z 0x7f); [apply raw_reads_ret|lia].
    + apply token_reads_tag. change (ft_max ftag_unsigned) with 0x7f.
      assert (type ∈ signed_types ++ unsigned_types) as Htype by (apply elem_of_app; by right).
      destruct (integer_tag _ Htype) as (-> & -> & _). by apply raw_reads_integer_as.
  - destruct (find_signed z) as (type & Hfind & Hin & Hmin); [lia|].
    unfold encode_first. rewrite Hfind.
    apply token_reads_tag. change (ft_max ftag_unsigned) with 0x7f.
    assert (type ∈ signed_types ++ unsigned_types) as Htype by (apply elem_of_app; by left).
    destruct (integer_tag _ Htype) as (-> & -> & _). apply raw_reads_integer_as; [done| |done].
    assert (0 <= tt_max type) by (elem_cases Hin; vm_compute; discriminate). lia.
Qed.

Lemma token_reads_boolean b : token_reads read_boolean (encode_boolean b) b.
Proof. apply token_reads_tag. destruct b; apply raw_reads_ret. Qed.

Lemma token_reads_real z : 0 <= z <= u64_max → token_reads read_real (encode_real z) z.
Proof.
  intros Hz. apply token_reads_tag. cbn -[le_split].
  eapply raw_reads_bind_ret; [apply raw_reads_raw; by rewrite length_le_split|].
  rewrite le_combine_split; [done|]. unfold u64_max in Hz. change (256 ^ Z.of_nat 8) with (2 ^ 64). lia.
Qed.

(** The form of the encoding of a length. *)
Lemma encode_count_form types n last :
  tt_max <$> list.last types = Some last → n <= last →
  ∃ type, type ∈ types ∧ n <= tt_max type ∧
    encode_count types n = tt_tag type :: be_split (tt_bytes type) (wrap (tt_bits type) n).
Proof.
  intros Hlast Hn. destruct (find_type_max _ _ _ Hlast Hn) as (type & Hfind & Hin & Hmax).
  exists type. unfold encode_count, encode_first. by rewrite Hfind.
Qed.

(** The types of lengths. *)
Definition length_types : list (fixed_tag * list tag_type) :=
  [(ftag_string, string_types); (ftag_array, array_types); (ftag_object, object_types)].

Lemma length_type_ok tag types type :
  (tag, types) ∈ length_types ∨ types = binary_types → type ∈ types →
  find_type types (tt_tag type) = Some type ∧ (0 < tt_bytes type)%nat ∧ tt_signed type = false ∧
  tt_max type <= u32_max ∧ tt_max <$> list.last types = Some u32_max.
Proof.
  intros Htypes Hin.
  assert (types ∈ [string_types; array_types; object_types; binary_types]) as Hall.
  { destruct Htypes as [Htypes| ->]; [|by do 3 right; left].
    unfold length_types in Htypes. rewrite !elem_of_cons, elem_of_nil in Htypes.
    destruct Htypes as [[= _ ->]|[[= _ ->]|[[= _ ->]|[]]]];
      rewrite !elem_of_cons; auto. }
  rewrite !elem_of_cons, elem_of_nil in Hall.
  split_cases Hall; unfold string_types, array_types, object_types, binary_types in Hin;
    rewrite ?elem_of_cons, ?elem_of_nil in Hin; split_cases Hin;
    repeat split; first [reflexivity | simpl; lia | vm_compute; discriminate].
Qed.

Lemma length_type_tag tag types type :
  (tag, types) ∈ length_types → type ∈ types → ftag_matches tag (tt_tag type) = false.
Proof.
  unfold length_types. rewrite !elem_of_cons, elem_of_nil. intros Htypes Hin.
  destruct Htypes as [[= -> ->]|[[= -> ->]|[[= -> ->]|[]]]];
    unfold string_types, array_types, object_types in Hin;
    rewrite ?elem_of_cons, ?elem_of_nil in Hin; split_cases Hin; reflexivity.
Qed.

Lemma encode_header_cases tag types n :
  (tag, types) ∈ length_types → 0 <= n <= u32_max →
  (n <= ft_max tag ∧ encode_header tag types n = [ft_tag tag + n]) ∨
  (∃ type, type ∈ types ∧ n < 2 ^ (8 * Z.of_nat (tt_bytes type)) ∧
     encode_header tag types n = tt_tag type :: be_split (tt_bytes type) n).
Proof.
  intros Htypes Hn. unfold encode_header. destruct (Z.leb_spec n (ft_max tag)); [by left|right].
  assert (tt_max <$> list.last types = Some u32_max) as Hlast.
  { unfold length_types in Htypes. rewrite !elem_of_cons, elem_of_nil in Htypes.
    by destruct Htypes as [[= _ ->]|[[= _ ->]|[[= _ ->]|[]]]]. }
  destruct (encode_count_form _ _ _ Hlast (proj2 Hn)) as (type & Hin & Hmax & ->).
  destruct (length_type_ok tag types type (or_introl Htypes) Hin) as (_ & _ & Hsigned & _).
  unfold tt_max, tt_bits in *. rewrite Hsigned in Hmax. exists type.
  rewrite wrap_small by lia. split_and!; [done|lia|done].
Qed.

Lemma length_type_ftag tag types : (tag, types) ∈ length_types → tag ∈ [ftag_string; ftag_array; ftag_object].
Proof.
  unfold length_types. rewrite !elem_of_cons, !elem_of_nil. naive_solver.
Qed.

Lemma raw_reads_header tag types n e :
  (tag, types) ∈ length_types → 0 <= n <= u32_max →
  raw_reads (read_count tag types e) (encode_header tag types n) n.
Proof.
  intros Htypes Hn. pose proof (length_type_ftag _ _ Htypes) as Htag.
  destruct (encode_header_cases _ _ _ Htypes Hn) as [[Hle ->]|(type & Hin & Hlt & ->)].
  - destruct (ftag_lor tag n) as (_ & Hmatch & Hextract); [done|lia|].
    by apply raw_reads_count_fixed.
  - destruct (length_type_ok tag types type (or_introl Htypes) Hin) as (Hfind & Hpos & _).
    apply raw_reads_count_sized; [by eapply length_type_tag|by rewrite Hfind|done|lia].
Qed.

Lemma raw_reads_string_raw l next bytes :
  Z.of_nat (length l) <= u32_max → encode_string l = next :: bytes →
  raw_reads (read_string_raw next) bytes l.
Proof.
  intros Hl Henc. unfold encode_string in Henc.
  destruct (encode_header_cases ftag_string string_types (Z.of_nat (length l)))
    as [[Hle Heq]|(type & Hin & Hlt & Heq)]; [by left|lia| |]; rewrite Heq in Henc;
    injection Henc as <- <-; unfold read_string_raw.
  - assert (ftag_matches ftag_string (0xa0 + Z.of_nat (length l)) = true ∧
      ftag_extract ftag_string (0xa0 + Z.of_nat (length l)) = Z.of_nat (length l)) as [-> ->]
      by (apply (ftag_lor ftag_string); [by left|simpl in *; lia]).
    by apply raw_reads_raw.
  - destruct (length_type_ok ftag_string string_types type) as (-> & Hpos & _); [left; by left|done|].
    rewrite (length_type_tag ftag_string string_types) by (done || by left).
    by apply raw_reads_sized.
Qed.

Lemma token_reads_string l :
  Z.of_nat (length l) <= u32_max → token_reads read_string (encode_string l) l.
Proof.
  intros Hl. destruct (encode_string l) as [|next bytes] eqn:Henc.
  - exfalso. unfold encode_string in Henc.
    destruct (encode_header_cases ftag_string string_types (Z.of_nat (length l)))
      as [[Hle Heq]|(type & Hin & Hlt & Heq)]; [by left|lia| |]; by rewrite Heq in Henc.
  - apply token_reads_tag. by eapply raw_reads_string_raw.
Qed.

Lemma token_reads_binary l :
  Z.of_nat (length l) <= u32_max → token_reads read_binary (encode_binary l) l.
Proof.
  intros Hl. unfold encode_binary.
  destruct (encode_count_form binary_types (Z.of_nat (length l)) u32_max) as (type & Hin & Hmax & ->);
    [done|done|].
  apply token_reads_tag. unfold read_binary_raw.
  destruct (length_type_ok ftag_string binary_types type) as (-> & Hpos & Hsigned & _); [by right|done|].
  unfold tt_max, tt_bits in *. rewrite Hsigned in Hmax. rewrite wrap_small by lia.
  apply raw_reads_sized; lia.
Qed.

Lemma token_reads_blob l n :
  Z.of_nat (length l) <= u32_max → length l = n → token_reads (read_blob n) (encode_binary l) l.
Proof.
  intros Hl <- rest t d Ht. unfold read_blob, mbind, reading_bind.
  rewrite (token_reads_binary l Hl) by done. unfold check. by rewrite Nat.eqb_refl.
Qed.

(** A key finds the first field with its id or its name. *)
Definition key_match (integer_keys : bool) (id : Z) (name : list Z) (elem : key_map) : bool :=
  if integer_keys then km_id elem =? id else bool_decide (name = km_name elem).

Lemma raw_reads_key ik map id name next bytes :
  0 <= id <= u32_max → Z.of_nat (length name) <= u32_max → encode_key ik id name = next :: bytes →
  raw_reads (key_index map next) bytes (find_index (key_match ik id name) map).
Proof.
  intros Hid Hname Henc. unfold encode_key in Henc. unfold key_match. destruct ik; unfold key_index.
  - destruct (encode_unsigned_cases id) as [[Hle Heq]|(type & Hin & Hrange & Heq)];
      [unfold u32_max, u64_max in *; lia| |]; rewrite Heq in Henc; injection Henc as <- <-.
    + assert (ftag_matches ftag_unsigned id = true) as ->.
      { assert (forallb (ftag_matches ftag_unsigned) (seqZ 0 128) = true) as Hall by done.
        rewrite forallb_forall in Hall. apply Hall. apply list_elem_of_In, elem_of_seqZ. lia. }
      apply raw_reads_bind_ret with (a := id); [apply raw_reads_ret|done].
    + assert (type ∈ signed_types ++ unsigned_types) as Htype by (apply elem_of_app; by right).
      destruct (integer_tag _ Htype) as (_ & _ & ->).
      assert (is_type unsigned_types (tt_tag type) = true) as -> by (by elem_cases Hin).
      eapply raw_reads_bind_ret; [by apply raw_reads_integer_as|done].
  - assert ((ftag_matches ftag_unsigned next || is_type unsigned_types next = false) ∧
      (ftag_matches ftag_string next || is_type string_types next = true)) as [-> ->].
    { unfold encode_string in Henc.
      destruct (encode_header_cases ftag_string string_types (Z.of_nat (length name)))
        as [[Hle Heq]|(type & Hin & Hlt & Heq)]; [by left|lia| |]; rewrite Heq in Henc;
        injection Henc as <- <-.
      - assert (forallb (λ i, negb (ftag_matches ftag_unsigned (0xa0 + i) ||
          is_type unsigned_types (0xa0 + i)) && ftag_matches ftag_string (0xa0 + i)) (seqZ 0 32) = true)
          as Hall by done.
        rewrite forallb_forall in Hall. specialize (Hall (Z.of_nat (length name))).
        rewrite <-list_elem_of_In, elem_of_seqZ in Hall. simpl in Hle, Hall.
        specialize (Hall ltac:(lia)). apply andb_true_iff in Hall as [Hneg Hpos]. simpl.
        rewrite Hpos. by apply negb_true_iff in Hneg.
      - unfold string_types in Hin. rewrite !elem_of_cons, elem_of_nil in Hin. by split_cases Hin. }
    eapply raw_reads_bind_ret; [by eapply raw_reads_string_raw|done].
Qed.
