(* ===== verification/Wire.v ===== *)
(** * Reading and writing C++ types (src/src/wire/read.h, write.h, field.h)

    The templates that read and write C++ objects as msgpack: integers with
    their width, arrays with the limits on their elements, and objects with
    required, optional and defaulted fields.  A C++ type is a [wire_type] and its
    objects are [value]s of it ([has_type]); the concrete types of the database
    and of the scanner's messages are in [Messages].  Shown are that only objects
    of the type are ever read, that the writer produces the encoding of the
    object, that reading the encoding gives the object back whatever the style of
    keys, also with unknown fields in between, and that reading always ends. *)

From S2P Require Import Prelude Msgpack.

(** ** Types and values *)

Inductive value : Set :=
  | VBool (b : bool)
  | VInteger (z : Z)
  | VReal (bits : Z)
  | VBytes (bytes : list Z)
  | VArray (elements : list value)
  | VObject (fields : list (option value)).

(** How a field is present: [field], [optional_field] of a [boost::optional], or
    an optional field that is omitted when it has its default value: an array
    (empty), [trusted_array] (empty) and [defaulted]. *)
Inductive presence : Set := Required | Optional | Defaulted (default : value).

(** [field_<T, Required, I>] *)
Record field_spec := FieldSpec { f_name : list Z; f_id : Z; f_presence : presence }.

(** [TInt] and [TUint] have a width in bytes, [TBlob] its size, [TArray] the
    [min_element_size] and [max_element_count]. *)
Inductive wire_type : Set :=
  | TBool | TReal | TString | TBinary
  | TInt (bytes : nat) | TUint (bytes : nat) | TBlob (size : nat)
  | TArray (min_size max_count : Z) (element : wire_type)
  | TObject (fields : list (field_spec * wire_type)).

Fixpoint value_eq_dec (x y : value) {struct x} : Decision (x = y).
Proof.
  refine (match x, y with
  | VBool a, VBool b => cast_if (decide (a = b))
  | VInteger a, VInteger b | VReal a, VReal b => cast_if (decide (a = b))
  | VBytes a, VBytes b => cast_if (decide (a = b))
  | VArray a, VArray b => cast_if (@list_eq_dec _ value_eq_dec a b)
  | VObject a, VObject b => cast_if (@list_eq_dec _ (@option_eq_dec _ value_eq_dec) a b)
  | _, _ => right _
  end); congruence.
Defined.
#[global] Instance value_eq_decision : EqDecision value := value_eq_dec.

(** ** Writing *)

(** [wire::available] *)
Definition available (f : field_spec) (v : option value) : bool :=
  match f_presence f, v with
  | Required, _ => true
  | Optional, v => bool_decide (is_Some v)
  | Defaulted default, Some v => negb (bool_decide (v = default))
  | Defaulted _, None => false
  end.

(** No C++ object is like this. *)
Definition no_object : writing := λ _, Err logic_error.
Definition write_nothing : writing := λ w, Ok w.

(** [wire_write::field] *)
Definition write_field (f : field_spec) (write : value → writing) (v : option value) : writing :=
  if available f v then
    write_key (f_id f) (f_name f) >> match v with Some v => write v | None => no_object end
  else write_nothing.

Definition available_count (fields : list field_spec) (values : list (option value)) : nat :=
  length (filter (λ p, available p.1 p.2 = true) (zip fields values)).

Fixpoint write_fields (fields : list (field_spec * (value → writing))) (values : list (option value)) :
    writing :=
  match fields, values with
  | [], [] => write_nothing
  | (f, write) :: fields, v :: values => write_field f write v >> write_fields fields values
  | _, _ => no_object
  end.

(** [wire_write::object] *)
Definition write_object (fields : list (field_spec * (value → writing))) (values : list (option value)) :
    writing :=
  start_write_object (Z.of_nat (available_count (fst <$> fields) values)) >>
  write_fields fields values >> end_write.

(** [wire_write::array] *)
Definition write_array (write : value → writing) (elements : list value) : writing :=
  start_write_array (Z.of_nat (length elements)) >>
  foldr (λ v k, write v >> k) write_nothing elements >> end_write.

(** [write_bytes] *)
Fixpoint write_bytes (t : wire_type) (v : value) {struct t} : writing :=
  match t, v with
  | TBool, VBool b => write_boolean b
  | TReal, VReal z => write_real z
  | TString, VBytes l => write_string l
  | TBinary, VBytes l => write_binary l
  | TInt _, VInteger z => write_integer z
  | TUint _, VInteger z => write_unsigned z
  | TBlob _, VBytes l => write_binary l
  | TArray _ _ t, VArray l => write_array (write_bytes t) l
  | TObject fields, VObject l => write_object (map (λ p, (p.1, write_bytes p.2)) fields) l
  | _, _ => no_object
  end.

(** [wire_write::to_bytes] with [msgpack_slice_writer] *)
Definition to_bytes (integer_keys : bool) (t : wire_type) (v : value) : expect (list Z) :=
  w ← write_bytes t v (new_writer integer_keys); take_msgpack w.

(** ** Reading *)

(** [integer::cast_signed] and [integer::cast_unsigned] *)
Definition cast_signed (bytes : nat) (z : Z) : reading Z :=
  let max := 2 ^ (8 * Z.of_nat bytes - 1) in
  if (z <? - max) || (max - 1 <? z) then
    throw (schema (if z <? 0 then schema_larger_integer else schema_smaller_integer))
  else mret z.

Definition cast_unsigned (bytes : nat) (z : Z) : reading Z :=
  if 2 ^ (8 * Z.of_nat bytes) - 1 <? z then throw (schema schema_smaller_integer) else mret z.

(** The loop of [array_unchecked] with [count] elements to come, [size] read and
    the number of bytes before the first.  Every reader is a delimited one to it. *)
Fixpoint array_loop (min_size max_count : Z) (read : reading value) (start_bytes : Z)
    (count : nat) (dest : list value) : reading (list value) :=
  match count with
  | O => _ ← array_end; mret dest
  | S count =>
    _ ← check (negb (max_count <=? Z.of_nat (length dest))) (schema schema_array_max_element);
    v ← read;
    let dest := dest ++ [v] in
    size ← remaining_size;
    _ ← check (negb ((start_bytes - size) / Z.of_nat (length dest) <? min_size))
          (schema schema_array_min_size);
    array_loop min_size max_count read start_bytes count dest
  end.

(** [array_unchecked] *)
Definition array_unchecked (min_size max_count : Z) (read : reading value) : reading (list value) :=
  count ← start_array min_size;
  _ ← check (negb (max_count <? count)) (schema schema_array_max_element);
  size ← remaining_size;
  _ ← check (negb (negb (min_size =? 0) && (size / min_size <? count))) (schema schema_array_min_size);
  dest ← array_loop min_size max_count read size (Z.to_nat count) [];
  _ ← decrement_depth;
  mret dest.

(** [unpack_field], within [tracker::try_read]: [dest] has what is read so far. *)
Definition try_read (read : reading value) (index : nat) (dest : list (option value)) :
    reading (list (option value)) :=
  _ ← check (bool_decide (mjoin (dest !! index) = None)) (schema schema_invalid_key);
  v ← read;
  mret (<[index := Some v]> dest).

(** The loop of [wire_read::object]: every round takes a key off [state]. *)
Fixpoint object_loop (fuel : nat) (map : list key_map) (reads : list (reading value)) (state : nat)
    (dest : list (option value)) : reading (list (option value)) :=
  match fuel with
  | O => throw out_of_fuel
  | S fuel =>
    next ← key map state;
    match next with
    | None => mret dest
    | Some (index, state) =>
      match reads !! index with
      | Some read => dest ← try_read read index dest; object_loop fuel map reads state dest
      | None => throw (schema schema_invalid_key)
      end
    end
  end.

(** [tracker::is_required] *)
Definition is_required (f : field_spec) : bool :=
  match f_presence f with Required => true | _ => false end.

(** [tracker::reset_omitted] *)
Definition reset_omitted (f : field_spec) (v : option value) : option value :=
  match v, f_presence f with
  | None, Defaulted default => Some default
  | v, _ => v
  end.

(** [tracker::set_mapping] *)
Definition set_mapping (f : field_spec) : key_map := KeyMap (f_name f) (f_id f).

(** [wire_read::object] *)
Definition read_object (fields : list (field_spec * reading value)) : reading (list (option value)) :=
  state ← start_object;
  dest ← object_loop (S (Z.to_nat state)) (map (λ p, set_mapping p.1) fields) (map snd fields)
    (Z.to_nat state) (replicate (length fields) None);
  _ ← check (forallb (λ p, negb (is_required p.1 && bool_decide (p.2 = None))) (zip (map fst fields) dest))
        (schema schema_missing_key);
  _ ← decrement_depth;
  mret (zip_with reset_omitted (map fst fields) dest).

(** [read_bytes] *)
Fixpoint read_bytes (t : wire_type) : reading value :=
  match t with
  | TBool => b ← read_boolean; mret (VBool b)
  | TReal => z ← read_real; mret (VReal z)
  | TString => l ← read_string; mret (VBytes l)
  | TBinary => l ← read_binary; mret (VBytes l)
  | TInt bytes => z ← read_integer; z ← cast_signed bytes z; mret (VInteger z)
  | TUint bytes => z ← read_unsigned; z ← cast_unsigned bytes z; mret (VInteger z)
  | TBlob size => l ← read_blob size; mret (VBytes l)
  | TArray min_size max_count t =>
    l ← array_unchecked min_size max_count (read_bytes t); mret (VArray l)
  | TObject fields => l ← read_object (map (λ p, (p.1, read_bytes p.2)) fields); mret (VObject l)
  end.

(** [wire_read::from_bytes] with [msgpack_reader]: bytes after the value are
    ignored. *)
Definition from_bytes (t : wire_type) (source : list Z) : expect value :=
  match read_bytes t (new_reader source) with
  | Ok (v, r) => match read_complete r with Ok _ => Ok v | Err e => Err e end
  | Err e => Err e
  end.

(** ** What is expected of them *)

Definition byteb (b : Z) : bool := (0 <=? b) && (b <=? 255).
Definition bytes_ok (l : list Z) : bool := forallb byteb l && (Z.of_nat (length l) <=? u32_max).

Definition field_has_type (f : field_spec) (typed : value → bool) (v : option value) : bool :=
  match v, f_presence f with
  | Some v, _ => typed v
  | None, Optional => true
  | None, _ => false
  end.

Fixpoint fields_have_types (fields : list (field_spec * (value → bool))) (values : list (option value)) :
    bool :=
  match fields, values with
  | [], [] => true
  | (f, typed) :: fields, v :: values => field_has_type f typed v && fields_have_types fields values
  | _, _ => false
  end.

Fixpoint has_type (t : wire_type) (v : value) {struct t} : bool :=
  match t, v with
  | TBool, VBool _ => true
  | TReal, VReal z => (0 <=? z) && (z <=? u64_max)
  | TString, VBytes l | TBinary, VBytes l => bytes_ok l
  | TBlob size, VBytes l => bytes_ok l && (length l =? size)%nat
  | TInt bytes, VInteger z =>
    (- 2 ^ (8 * Z.of_nat bytes - 1) <=? z) && (z <? 2 ^ (8 * Z.of_nat bytes - 1))
  | TUint bytes, VInteger z => (0 <=? z) && (z <? 2 ^ (8 * Z.of_nat bytes))
  | TArray _ max_count t, VArray l =>
    forallb (has_type t) l && (Z.of_nat (length l) <=? Z.min max_count u32_max)
  | TObject fields, VObject l => fields_have_types (map (λ p, (p.1, has_type p.2)) fields) l
  | _, _ => false
  end.

(** The reference encoding. *)
Fixpoint encode_fields (integer_keys : bool) (fields : list (field_spec * (value → list Z)))
    (values : list (option value)) : list Z :=
  match fields, values with
  | (f, encode) :: fields, v :: values =>
    match v with
    | Some v' => if available f v then encode_key integer_keys (f_id f) (f_name f) ++ encode v' else []
    | None => []
    end ++ encode_fields integer_keys fields values
  | _, _ => []
  end.

Fixpoint encode (integer_keys : bool) (t : wire_type) (v : value) {struct t} : list Z :=
  match t, v with
  | TBool, VBool b => encode_boolean b
  | TReal, VReal z => encode_real z
  | TString, VBytes l => encode_string l
  | TBinary, VBytes l | TBlob _, VBytes l => encode_binary l
  | TInt _, VInteger z => encode_integer z
  | TUint _, VInteger z => encode_unsigned z
  | TArray _ _ t, VArray l =>
    encode_header ftag_array array_types (Z.of_nat (length l)) ++ concat (map (encode integer_keys t) l)
  | TObject fields, VObject l =>
    encode_header ftag_object object_types (Z.of_nat (available_count (map fst fields) l)) ++
    encode_fields integer_keys (map (λ p, (p.1, encode integer_keys p.2)) fields) l
  | _, _ => []
  end.

(** No object of the type has a shorter encoding. *)
Definition min_length (t : wire_type) : Z :=
  match t with TReal => 9 | TBinary => 2 | TBlob size => Z.of_nat size + 2 | _ => 1 end.

(** The containers that can be nested in an object of the type. *)
Fixpoint type_depth (t : wire_type) : Z :=
  match t with
  | TArray _ _ t => 1 + type_depth t
  | TObject fields => 1 + foldr (λ p n, Z.max (type_depth p.2) n) 0 fields
  | _ => 0
  end.

Definition field_ok (f : field_spec) (typed : value → bool) : bool :=
  bytes_ok (f_name f) && (0 <=? f_id f) && (f_id f <=? u32_max) &&
  match f_presence f with Defaulted default => typed default | _ => true end.

(** A type whose sizes fit, whose keys are different and whose limits on arrays
    are met by every array. *)
Fixpoint wire_type_ok (integer_keys : bool) (t : wire_type) : bool :=
  match t with
  | TBool | TReal | TString | TBinary => true
  | TInt bytes | TUint bytes => (1 <=? Z.of_nat bytes) && (Z.of_nat bytes <=? 8)
  | TBlob size => Z.of_nat size <=? u32_max
  | TArray min_size _ t => (0 <=? min_size) && (min_size <=? min_length t) && wire_type_ok integer_keys t
  | TObject fields =>
    forallb (λ p, field_ok p.1 (has_type p.2)) fields &&
    bool_decide (NoDup (map (λ p, if integer_keys then [f_id p.1] else f_name p.1) fields)) &&
    forallb (λ p, wire_type_ok integer_keys p.2) fields &&
    (Z.of_nat (length fields) <? 100)
  end.

(** Induction on a type, with the hypothesis for every field. *)
Lemma wire_type_ind' (P : wire_type → Prop) :
  P TBool → P TReal → P TString → P TBinary → (∀ n, P (TInt n)) → (∀ n, P (TUint n)) →
  (∀ n, P (TBlob n)) → (∀ min max t, P t → P (TArray min max t)) →
  (∀ fields, Forall (λ p, P p.2) fields → P (TObject fields)) → ∀ t, P t.
Proof.
  intros H1 H2 H3 H4 H5 H6 H7 Harray Hobject. fix IH 1.
  intros [| | | |n|n|n|min max t|fields]; [exact H1|exact H2|exact H3|exact H4|apply H5|apply H6|apply H7| |].
  - apply Harray, IH.
  - apply Hobject. induction fields as [|[f t] fields IHf]; constructor; [apply IH|exact IHf].
Qed.

(** *** A logic of reading steps

    [safe m Q]: from a reader of bytes, [m] either reads some of them and returns a
    value with [Q], or throws, but not for lack of fuel. *)

Definition reader_ok (r : msgpack_reader) : Prop := Forall is_byte (remaining r).

Definition safe {A} (m : reading A) (Q : A → Prop) : Prop :=
  ∀ r, reader_ok r →
  match m r with
  | Ok (a, r') => remaining r' `suffix_of` remaining r ∧ Q a
  | Err e => e ≠ out_of_fuel
  end.

Lemma reader_ok_suffix r r' : reader_ok r → remaining r' `suffix_of` remaining r → reader_ok r'.
Proof. unfold reader_ok. intros Hr [k Hk]. rewrite Hk in Hr. by apply Forall_app in Hr as [_ Hr]. Qed.

Lemma safe_bind {A B} (m : reading A) (f : A → reading B) Q R :
  safe m Q → (∀ a, Q a → safe (f a) R) → safe (m ≫= f) R.
Proof.
  intros Hm Hf r Hr. unfold mbind, reading_bind. specialize (Hm r Hr).
  destruct (m r) as [[a r']|e]; [|done]. destruct Hm as [Hsuf HQ].
  specialize (Hf a HQ r' (reader_ok_suffix _ _ Hr Hsuf)).
  destruct (f a r') as [[b r'']|e]; [|done]. destruct Hf as [Hsuf' HR]. split; [|done].
  by trans (remaining r').
Qed.

Lemma safe_weaken {A} (m : reading A) (Q R : A → Prop) : safe m Q → (∀ a, Q a → R a) → safe m R.
Proof. intros Hm HQ r Hr. specialize (Hm r Hr). destruct (m r) as [[a r']|e]; naive_solver. Qed.

Lemma safe_ret {A} (a : A) (Q : A → Prop) : Q a → safe (mret a) Q.
Proof. intros HQ r Hr. by split. Qed.

Lemma safe_throw {A} e (Q : A → Prop) : e ≠ out_of_fuel → safe (throw e) Q.
Proof. by intros He r Hr. Qed.

Lemma safe_if {A} (c : bool) (m n : reading A) Q : safe m Q → safe n Q → safe (if c then m else n) Q.
Proof. by destruct c. Qed.

Lemma safe_check c e (Q : Prop) : e ≠ out_of_fuel → (c = true → Q) → safe (check c e) (λ _, Q).
Proof. intros He HQ r Hr. unfold check. destruct c; [|done]. split; [done|auto]. Qed.

(** The steps that only look at or change the counters. *)
Lemma safe_counters :
  safe update_tags_remaining (λ _, True) ∧ (∀ n, safe (add_tags n) (λ _, True)) ∧
  safe increment_depth (λ _, True) ∧ safe decrement_depth (λ _, True) ∧
  safe get_reader (λ _, True) ∧ safe remaining_size (λ _, True) ∧ safe read_complete (λ _, True).
Proof.
  split_and!; intros; intros r Hr;
    unfold update_tags_remaining, add_tags, increment_depth, decrement_depth, get_reader,
      remaining_size, read_complete; repeat case_match; simplify_eq/=; try done; by split.
Qed.

Lemma safe_remove_prefix n : safe (remove_prefix n) (λ _, True).
Proof.
  intros r Hr. simpl. split; [|done]. exists (take n (remaining r)). by rewrite take_drop.
Qed.

Lemma safe_peek_tag : safe peek_tag is_byte.
Proof.
  intros r Hr. unfold peek_tag. destruct (remaining r) as [|b l] eqn:E; [done|].
  split; [by rewrite E|]. unfold reader_ok in Hr. rewrite E in Hr. by inversion Hr.
Qed.

Lemma safe_read_raw n :
  0 <= n → safe (read_raw n) (λ l, Forall is_byte l ∧ Z.of_nat (length l) = n).
Proof.
  intros Hn r Hr. unfold read_raw. destruct (Z.ltb_spec (Z.of_nat (length (remaining r))) n); [done|].
  simpl. split.
  - exists (take (Z.to_nat n) (remaining r)). by rewrite take_drop.
  - split; [by apply Forall_take|]. rewrite length_take. lia.
Qed.

Lemma safe_get_tag : safe get_tag is_byte.
Proof.
  eapply safe_bind; [apply safe_peek_tag|]. intros next Hnext.
  eapply safe_bind; [apply safe_remove_prefix|]. intros _ _. by apply safe_ret.
Qed.

Lemma be_combine_range l : Forall is_byte l → 0 <= be_combine l < 2 ^ (8 * Z.of_nat (length l)).
Proof.
  intros Hl. unfold be_combine. assert (Forall is_byte (rev l)) as Hrev by by apply Forall_rev.
  rewrite <-(length_rev l). revert Hrev. generalize (rev l). clear Hl l. intros l.
  induction 1 as [|b l Hb Hl IH]; simpl le_combine; [simpl; lia|].
  change (length (b :: l)) with (S (length l)). rewrite Nat2Z.inj_succ, Z.mul_succ_r, Z.pow_add_r by lia.
  unfold is_byte in Hb. change (2 ^ 8) with 256. lia.
Qed.

Lemma sign_extend_range bits z :
  0 < bits → 0 <= z < 2 ^ bits → - 2 ^ (bits - 1) <= sign_extend bits z < 2 ^ (bits - 1).
Proof.
  intros Hbits Hz. unfold sign_extend.
  assert (2 ^ bits = 2 * 2 ^ (bits - 1)) as Hpow by (rewrite <-Z.pow_succ_r by lia; f_equal; lia).
  destruct (Z.ltb_spec z (2 ^ (bits - 1))); lia.
Qed.

(** Chains of steps: [safe_steps] goes through binds, tests and the known steps. *)
Create HintDb safe.
#[export] Hint Resolve safe_remove_prefix safe_peek_tag safe_get_tag : safe.
#[export] Hint Extern 1 (safe update_tags_remaining _) => apply safe_counters : safe.
#[export] Hint Extern 1 (safe (add_tags _) _) => apply safe_counters : safe.
#[export] Hint Extern 1 (safe increment_depth _) => apply safe_counters : safe.
#[export] Hint Extern 1 (safe decrement_depth _) => apply safe_counters : safe.
#[export] Hint Extern 1 (safe get_reader _) => apply safe_counters : safe.
#[export] Hint Extern 1 (safe remaining_size _) => apply safe_counters : safe.

Ltac safe_bind_step := eapply safe_bind; [solve [eauto with safe]|intros ? ?]; cbv beta in *.

Lemma safe_endian width signed :
  (0 < width)%nat →
  safe (read_endian width signed) (λ z, if signed : bool
    then - 2 ^ (8 * Z.of_nat width - 1) <= z < 2 ^ (8 * Z.of_nat width - 1)
    else 0 <= z < 2 ^ (8 * Z.of_nat width)).
Proof.
  intros Hw. eapply safe_bind; [apply safe_read_raw; lia|]. intros l [Hl Hlen].
  pose proof (be_combine_range l Hl) as Hrange. rewrite Hlen in Hrange.
  apply safe_ret. destruct signed; [|done]. apply sign_extend_range; [lia|done].
Qed.

Definition short_bytes (l : list Z) : Prop := bytes_ok l = true.

Lemma short_bytes_ok l n :
  Forall is_byte l → Z.of_nat (length l) = n → n <= u32_max → short_bytes l.
Proof.
  intros Hl Hlen Hn. unfold short_bytes, bytes_ok. apply andb_true_iff. split; [|lia].
  apply forallb_forall. intros b Hb. rewrite Forall_forall in Hl.
  apply list_elem_of_In, Hl in Hb. unfold is_byte, byteb in *. lia.
Qed.

Lemma safe_sized width : (0 < width <= 4)%nat → safe (read_sized width) short_bytes.
Proof.
  intros Hw. eapply safe_bind; [apply safe_endian; lia|]. simpl. intros n Hn.
  eapply safe_weaken; [apply safe_read_raw; lia|]. intros l [Hl Hlen].
  apply (short_bytes_ok l n); [done|done|].
  assert (2 ^ (8 * Z.of_nat width) <= 2 ^ 32) by (apply Z.pow_le_mono_r; lia). unfold u32_max. lia.
Qed.

Lemma find_type_cases types next type : find_type types next = Some type → type ∈ types.
Proof. intros [Hin _]%List.find_some. by apply list_elem_of_In. Qed.

Lemma safe_string_raw next : is_byte next → safe (read_string_raw next) short_bytes.
Proof.
  intros Hnext. unfold read_string_raw. destruct (ftag_matches ftag_string next) eqn:Hmatch.
  - assert (0 <= ftag_extract ftag_string next < 2 ^ 8) as Hn by (by apply wrap_range).
    eapply safe_weaken; [apply safe_read_raw; lia|]. intros l [Hl Hlen].
    eapply short_bytes_ok; [done|done|]. unfold u32_max. lia.
  - destruct (find_type string_types next) as [type|] eqn:Hfind; [|by apply safe_throw].
    apply safe_sized. apply find_type_cases in Hfind. unfold string_types in Hfind.
    rewrite !elem_of_cons, elem_of_nil in Hfind. split_cases Hfind; simpl; lia.
Qed.

Lemma safe_binary_raw next : safe (read_binary_raw next) short_bytes.
Proof.
  unfold read_binary_raw.
  destruct (find_type binary_types next) as [type|] eqn:Hfind; [|by apply safe_throw].
  apply safe_sized. apply find_type_cases in Hfind. unfold binary_types in Hfind.
  rewrite !elem_of_cons, elem_of_nil in Hfind. split_cases Hfind; simpl; lia.
Qed.

Lemma safe_integer_as lo hi next : safe (read_integer_as lo hi next) (λ z, lo <= z <= hi).
Proof.
  unfold read_integer_as.
  destruct (find_type _ next) as [type|] eqn:Hfind; [|by apply safe_throw].
  eapply safe_bind; [apply safe_endian|].
  - apply find_type_cases in Hfind. elem_cases Hfind; simpl; lia.
  - intros z _. unfold numeric_cast. destruct (Z.ltb_spec z lo); [by apply safe_throw|].
    destruct (Z.ltb_spec hi z); [by apply safe_throw|]. apply safe_ret. lia.
Qed.

Lemma safe_count tag types e :
  tag ∈ [ftag_string; ftag_array; ftag_object] → types ∈ [array_types; object_types] →
  safe (read_count tag types e) (λ n, 0 <= n <= u32_max).
Proof.
  intros Htag Htypes. safe_bind_step. destruct (ftag_matches tag a) eqn:Hmatch.
  - apply safe_ret. assert (0 <= ftag_extract tag a < 2 ^ 8) by (by apply wrap_range).
    unfold u32_max. lia.
  - destruct (find_type types a) as [type|] eqn:Hfind; [|by apply safe_throw].
    assert (0 < tt_bytes type <= 4)%nat as Hw.
    { apply find_type_cases in Hfind. rewrite !elem_of_cons, elem_of_nil in Htypes.
      split_cases Htypes; unfold array_types, object_types in Hfind;
        rewrite !elem_of_cons, elem_of_nil in Hfind; split_cases Hfind; simpl; lia. }
    eapply safe_weaken; [apply safe_endian; lia|]. simpl. intros n Hn.
    assert (2 ^ (8 * Z.of_nat (tt_bytes type)) <= 2 ^ 32) by (apply Z.pow_le_mono_r; lia).
    unfold u32_max. lia.
Qed.

Lemma safe_start_array min_size : safe (start_array min_size) (λ n, 0 <= n <= u32_max).
Proof.
  eapply safe_bind; [apply safe_count; set_solver|]. intros n Hn.
  safe_bind_step. eapply safe_bind; [by apply (safe_check _ _ True)|]. intros _ _.
  safe_bind_step. eapply safe_bind; [by apply (safe_check _ _ True)|]. intros _ _.
  repeat safe_bind_step. by apply safe_ret.
Qed.

Lemma safe_start_object : safe start_object (λ n, 0 <= n <= u32_max).
Proof.
  eapply safe_bind; [apply safe_count; set_solver|]. intros n Hn.
  eapply safe_bind; [by apply (safe_check _ _ True)|]. intros _ _. safe_bind_step.
  eapply safe_bind; [by apply (safe_check _ _ True)|]. intros _ _.
  repeat safe_bind_step. by apply safe_ret.
Qed.

Lemma safe_read_integer : safe read_integer (λ z, i64_min <= z <= i64_max).
Proof.
  do 2 safe_bind_step. apply safe_if with (c := a0 <=? _).
  - apply safe_ret. unfold is_byte, i64_min, i64_max in *. lia.
  - destruct (ftag_matches ftag_signed a0); [|apply safe_integer_as].
    apply safe_ret. pose proof (sign_extend_range 8 a0). unfold is_byte, i64_min, i64_max in *. lia.
Qed.

Lemma safe_read_unsigned : safe read_unsigned (λ z, 0 <= z <= u64_max).
Proof.
  do 2 safe_bind_step. apply safe_if; [|apply safe_integer_as].
  apply safe_ret. unfold is_byte, u64_max in *. lia.
Qed.

Lemma safe_read_boolean : safe read_boolean (λ _, True).
Proof.
  do 2 safe_bind_step. repeat apply safe_if; try by apply safe_ret. by apply safe_throw.
Qed.

Lemma widen_range z : 0 <= z < 2 ^ 32 → 0 <= widen z <= u64_max.
Proof.
  intros Hz. unfold widen.
  assert (0 <= z / 2 ^ 31 < 2) by (split; [apply Z.div_pos; lia|apply Z.div_lt_upper_bound; lia]).
  pose proof (Z.mod_pos_bound (z / 2 ^ 23) (2 ^ 8) ltac:(lia)) as He.
  pose proof (Z.mod_pos_bound z (2 ^ 23) ltac:(lia)) as Hm.
  set (s := z / 2 ^ 31) in *. set (e := (z / 2 ^ 23) mod 2 ^ 8) in *. set (m := z mod 2 ^ 23) in *.
  clearbody s e m. change (2 ^ 23) with 8388608 in *. change (2 ^ 8) with 256 in *.
  change (2 ^ 63) with 9223372036854775808. change (2 ^ 52) with 4503599627370496.
  change (2 ^ 29) with 536870912. change u64_max with 18446744073709551615.
  destruct (Z.eqb_spec e 255); [|destruct (Z.eqb_spec e 0); simpl negb; cbv iota].
  - destruct (Z.eqb_spec m 0); [lia|].
    assert (0 <= Z.lor (m * 536870912) (2 ^ 51) < 2 ^ 52) as Hlor; [|lia].
    split; [apply Z.lor_nonneg; lia|].
    destruct (Z.eq_dec (Z.lor (m * 536870912) (2 ^ 51)) 0) as [->|Hne]; [lia|].
    apply Z.log2_lt_pow2; [pose proof (proj2 (Z.lor_nonneg (m * 536870912) (2 ^ 51))); lia|].
    rewrite Z.log2_lor by lia. change (Z.log2 (2 ^ 51)) with 51.
    apply Z.max_lub_lt; [|lia]. apply Z.log2_lt_pow2; lia.
  - destruct (Z.eqb_spec m 0); [lia|].
    pose proof (Z.log2_spec m ltac:(lia)) as Hlog.
    assert (Z.log2 m < 23) by (apply Z.log2_lt_pow2; lia). pose proof (Z.log2_nonneg m).
    assert ((m - 2 ^ Z.log2 m) * 2 ^ (52 - Z.log2 m) < 2 ^ 52) as Hlt.
    { replace (2 ^ 52) with (2 ^ Z.log2 m * 2 ^ (52 - Z.log2 m))
        by (rewrite <-Z.pow_add_r by lia; f_equal; lia).
      apply Z.mul_lt_mono_pos_r; [apply Z.pow_pos_nonneg; lia|].
      rewrite Z.pow_succ_r in Hlog by lia. lia. }
    assert (0 <= (m - 2 ^ Z.log2 m) * 2 ^ (52 - Z.log2 m)).
    { apply Z.mul_nonneg_nonneg; [lia|apply Z.pow_nonneg; lia]. }
    change (2 ^ 52) with 4503599627370496 in Hlt. lia.
  - lia.
Qed.

Lemma le_combine_bits l : Forall is_byte l → 0 <= le_combine l < 2 ^ (8 * Z.of_nat (length l)).
Proof.
  intros Hl. rewrite <-(rev_involutive l). change (le_combine (rev (rev l))) with (be_combine (rev l)).
  rewrite length_rev. by apply be_combine_range, Forall_rev.
Qed.

Lemma safe_read_real : safe read_real (λ z, 0 <= z <= u64_max).
Proof.
  do 2 safe_bind_step. apply safe_if; [|apply safe_if; [|by apply safe_throw]].
  - eapply safe_bind; [by apply safe_read_raw|]. intros raw [Hraw Hlen]. apply safe_ret, widen_range.
    pose proof (le_combine_bits raw Hraw) as Hrange. by rewrite Hlen in Hrange.
  - eapply safe_bind; [by apply safe_read_raw|]. intros raw [Hraw Hlen]. apply safe_ret.
    pose proof (le_combine_bits raw Hraw) as Hrange. rewrite Hlen in Hrange. unfold u64_max.
    change (2 ^ (8 * 8)) with (2 ^ 64) in Hrange. lia.
Qed.

Lemma safe_read_string : safe read_string short_bytes.
Proof. do 2 safe_bind_step. by apply safe_string_raw. Qed.

Lemma safe_read_binary : safe read_binary short_bytes.
Proof. do 2 safe_bind_step. apply safe_binary_raw. Qed.

Lemma safe_read_blob n : safe (read_blob n) (λ l, short_bytes l ∧ length l = n).
Proof.
  eapply safe_bind; [apply safe_read_binary|]. intros l Hl.
  eapply safe_bind; [apply (safe_check _ _ (length l = n)); [done|apply Nat.eqb_eq]|].
  intros ? Hn. by apply safe_ret.
Qed.

(** *** Skipping and keys are safe *)

Lemma safe_remove_prefix_sized width extra :
  (0 < width <= 4)%nat →
  safe (_ ← remove_prefix 1; _ ← read_sized width; remove_prefix extra) (λ _, True).
Proof.
  intros Hw. safe_bind_step. eapply safe_bind; [by apply safe_sized|]. intros l _. eauto with safe.
Qed.

Lemma safe_skip_body next : is_byte next → safe (skip_body next) (λ _, True).
Proof.
  intros Hnext. unfold skip_body. cbv zeta.
  repeat lazymatch goal with
  | |- safe (if _ then _ else _) _ => apply safe_if
  | |- safe (remove_prefix _) _ => apply safe_remove_prefix
  end.
  - safe_bind_step. eapply safe_bind; [apply safe_binary_raw|]. intros ? _. by apply safe_ret.
  - apply safe_remove_prefix_sized. lia.
  - apply safe_remove_prefix_sized. lia.
  - apply safe_remove_prefix_sized. lia.
  - safe_bind_step. eapply safe_bind; [by apply safe_string_raw|]. intros ? _. by apply safe_ret.
  - eapply safe_bind; [apply safe_start_array|]. intros ? _. by apply safe_ret.
  - eapply safe_bind; [apply safe_start_object|]. intros ? _. by apply safe_ret.
  - by apply safe_ret.
Qed.

(** A round of [skip_value] removes a byte. *)
Lemma skip_step_decreases r :
  reader_ok r →
  match skip_step r with
  | Ok (_, r') =>
    remaining r' `suffix_of` remaining r ∧ (length (remaining r') < length (remaining r))%nat
  | Err e => e ≠ out_of_fuel
  end.
Proof.
  intros Hr. unfold skip_step, mbind, reading_bind, remaining_size.
  pose proof (safe_peek_tag r Hr) as Hpeek. destruct (peek_tag r) as [[next r0]|e] eqn:Htag; [|done].
  destruct Hpeek as [_ Hnext]. unfold peek_tag in Htag. destruct (remaining r) as [|b l] eqn:Er; [done|].
  injection Htag as <- <-. pose proof (safe_skip_body b Hnext r Hr) as Hbody.
  destruct (skip_body b r) as [[u r1]|e]; [|done]. destruct Hbody as [Hsuf _].
  pose proof (suffix_length _ _ Hsuf) as Hle. rewrite Er in Hsuf, Hle.
  assert (∀ c e, e ≠ out_of_fuel → match match check c e r1 with
      | Ok (_, r) => remove_prefix 1 r | Err e => Err e end with
    | Ok (_, r2) => ∀ r3, update_tags_remaining r2 = Ok (tt, r3) →
       (length (remaining r1) = length (b :: l)) →
       remaining r3 `suffix_of` b :: l ∧ (length (remaining r3) < length (b :: l))%nat
    | Err e => e ≠ out_of_fuel end) as Hremove.
  { intros c e He. unfold check. destruct c; [|done]. simpl. intros r3 Hupdate Heq.
    unfold update_tags_remaining in Hupdate. case_match; [done|]. injection Hupdate as <-. simpl.
    split; [|rewrite length_drop; simpl in Heq; lia].
    trans (remaining r1); [|done]. exists (take 1 (remaining r1)). by rewrite take_drop. }
  destruct (Z.eqb_spec (Z.of_nat (length (b :: l))) (Z.of_nat (length (remaining r1)))) as [Heq|Hne].
  - specialize (Hremove (ftag_matches ftag_unsigned b || ftag_matches ftag_signed b) (msgpack invalid) ltac:(done)).
    destruct (match check _ _ r1 with Ok _ => _ | Err e => _ end) as [[u2 r2]|e]; [|done].
    unfold update_tags_remaining in *. case_match; [done|]. apply (Hremove _ eq_refl). lia.
  - unfold mret, reading_ret, update_tags_remaining.
    destruct (tags_remaining r1 =? 0); [done|]. simpl. split; [done|].
    simpl in *. lia.
Qed.

Lemma safe_skip_loop fuel initial r :
  reader_ok r → (length (remaining r) < fuel)%nat →
  match skip_loop fuel initial r with
  | Ok (_, r') => remaining r' `suffix_of` remaining r
  | Err e => e ≠ out_of_fuel
  end.
Proof.
  revert r. induction fuel as [|fuel IH]; intros r Hr Hfuel; [lia|].
  simpl. unfold mbind, reading_bind, get_reader. pose proof (skip_step_decreases r Hr) as Hstep.
  destruct (skip_step r) as [[u r']|e]; [|done]. destruct Hstep as [Hsuf Hlt].
  destruct (initial <=? tags_remaining r'); [|done].
  specialize (IH r' (reader_ok_suffix _ _ Hr Hsuf) ltac:(lia)).
  destruct (skip_loop fuel initial r') as [[u' r'']|e]; [|done]. by trans (remaining r').
Qed.

Lemma safe_skip_value : safe skip_value (λ _, True).
Proof.
  intros r Hr. unfold skip_value, mbind, reading_bind, get_reader, check.
  destruct (negb (tags_remaining r =? u64_max)); [|done].
  pose proof (safe_skip_loop (S (length (remaining r))) (tags_remaining r) r Hr ltac:(lia)) as Hloop.
  cbv beta iota. destruct (skip_loop _ _ r) as [[u r']|e]; done.
Qed.

Lemma safe_key_index map next : is_byte next → safe (key_index map next) (λ index,
  ∀ i, index = Some i → (i < length map)%nat).
Proof.
  intros Hnext.
  assert (∀ p i, find_index p map = Some i → (i < length map)%nat) as Hfind.
  { intros p. induction map as [|elem map IH]; intros i; simpl; [done|].
    destruct (p elem); [intros [= <-]; lia|]. intros (j & Hj & ->)%fmap_Some. specialize (IH _ Hj). lia. }
  unfold key_index. apply safe_if; [|apply safe_if; [|by apply safe_throw]].
  - eapply (safe_bind _ _ (λ _, True)).
    + apply safe_if; [by apply safe_ret|]. by eapply safe_weaken; [apply safe_integer_as|].
    + intros z _. apply safe_ret. intros i. apply Hfind.
  - eapply safe_bind; [by apply safe_string_raw|]. intros l _. apply safe_ret. intros i. apply Hfind.
Qed.

Lemma safe_key map state : safe (key map state) (λ next,
  ∀ i state', next = Some (i, state') → (i < length map)%nat ∧ (state' < state)%nat).
Proof.
  induction state as [|state IH]; simpl.
  - safe_bind_step. by apply safe_ret.
  - do 2 safe_bind_step. eapply safe_bind; [by apply safe_key_index|]. intros [i|] Hi.
    + apply safe_ret. intros ? ? [= <- <-]. split; [by apply Hi|lia].
    + eapply safe_bind; [apply safe_skip_value|]. intros _ _.
      eapply safe_weaken; [apply IH|]. simpl. intros next Hnext i state' Heq.
      destruct (Hnext i state' Heq). lia.
Qed.

(** *** Reading is safe *)

Lemma safe_array_loop min_size max_count read start count dest (Q : value → Prop) :
  safe read Q → Forall Q dest →
  safe (array_loop min_size max_count read start count dest)
    (λ l, Forall Q l ∧ length l = (length dest + count)%nat).
Proof.
  intros Hread. revert dest. induction count as [|count IH]; intros dest Hdest; cbn [array_loop].
  - eapply safe_bind; [apply safe_counters|]. intros _ _. apply safe_ret. split; [done|lia].
  - eapply safe_bind; [by apply (safe_check _ _ True)|]. intros _ _.
    eapply safe_bind; [exact Hread|]. intros v Hv. safe_bind_step.
    eapply safe_bind; [by apply (safe_check _ _ True)|]. intros _ _.
    eapply safe_weaken; [apply IH, Forall_app; by split; [|constructor]|].
    intros l [Hl Hlen]. split; [done|]. rewrite Hlen, length_app. simpl. lia.
Qed.

Lemma safe_array min_size max_count read (Q : value → Prop) :
  safe read Q →
  safe (array_unchecked min_size max_count read)
    (λ l, Forall Q l ∧ Z.of_nat (length l) <= Z.min max_count u32_max).
Proof.
  intros Hread. eapply safe_bind; [apply safe_start_array|]. intros count Hcount.
  eapply safe_bind; [apply (safe_check _ _ (count <= max_count)); [done|lia]|].
  intros ? Hmax. cbv beta in *.
  safe_bind_step. eapply safe_bind; [by apply (safe_check _ _ True)|]. intros _ _.
  eapply safe_bind; [by apply (safe_array_loop _ _ _ _ _ _ Q)|]. simpl. intros l [Hl Hlen].
  safe_bind_step. apply safe_ret. split; [done|]. lia.
Qed.

(** The fields read so far. *)
Definition dest_ok (Qs : list (value → Prop)) (dest : list (option value)) : Prop :=
  Forall2 (λ (Q : value → Prop) ov, ∀ v, ov = Some v → Q v) Qs dest.

Lemma safe_object_loop fuel map reads Qs state dest :
  Forall2 safe reads Qs → length map = length reads → (state < fuel)%nat → dest_ok Qs dest →
  safe (object_loop fuel map reads state dest) (dest_ok Qs).
Proof.
  intros Hreads Hmap. revert state dest.
  induction fuel as [|fuel IH]; intros state dest Hstate Hdest; [lia|]. cbn [object_loop].
  eapply safe_bind; [apply safe_key|]. intros [[index state']|] Hnext; [|by apply safe_ret].
  destruct (Hnext _ _ eq_refl) as [Hindex Hlt].
  destruct (reads !! index) as [read|] eqn:Hread; [|by apply safe_throw].
  destruct (Forall2_lookup_l _ _ _ _ _ Hreads Hread) as (Q & HQ & Hsafe).
  eapply (safe_bind _ _ (dest_ok Qs)); [|intros dest' Hdest'; apply IH; [lia|done]].
  eapply safe_bind; [by apply (safe_check _ _ True)|]. intros _ _.
  eapply safe_bind; [exact Hsafe|]. intros v Hv. apply safe_ret. unfold dest_ok.
  rewrite <-(list_insert_id Qs index Q) by done. apply Forall2_insert; [done|]. by intros ? [= <-].
Qed.

(** Omitted fields are reset, required fields are there; for any kind of types. *)
Lemma reset_omitted_fields {T} (typed : T → value → bool) (fields : list (field_spec * T)) dest :
  Forall (λ p, ∀ v, f_presence p.1 = Defaulted v → typed p.2 v = true) fields →
  dest_ok (map (λ p v, typed p.2 v = true) fields) dest →
  forallb (λ p, negb (is_required p.1 && bool_decide (p.2 = None))) (zip (map fst fields) dest) = true →
  fields_have_types (map (λ p, (p.1, typed p.2)) fields) (zip_with reset_omitted (map fst fields) dest) = true.
Proof.
  unfold dest_ok. intros Hok. revert dest.
  induction Hok as [|[f t] fields Hdefault Hok IH]; intros dest Hdest Hrequired; simpl in *;
    inversion Hdest as [|Q ov Qs dest' Hov Hdest']; subst; [done|]; simpl in *.
  apply andb_true_iff in Hrequired as [Hreq Hrequired].
  rewrite IH by done. rewrite andb_true_r. unfold field_has_type, reset_omitted.
  destruct ov as [v|]; [by apply Hov|]. unfold is_required in Hreq.
  destruct (f_presence f); [|done|by apply Hdefault].
  by rewrite bool_decide_eq_true_2 in Hreq.
Qed.

Lemma reset_omitted_typed (fields : list (field_spec * wire_type)) dest :
  forallb (λ p, field_ok p.1 (has_type p.2)) fields = true →
  dest_ok (map (λ p v, has_type p.2 v = true) fields) dest →
  forallb (λ p, negb (is_required p.1 && bool_decide (p.2 = None))) (zip (map fst fields) dest) = true →
  fields_have_types (map (λ p, (p.1, has_type p.2)) fields) (zip_with reset_omitted (map fst fields) dest) =
    true.
Proof.
  intros Hok. apply reset_omitted_fields. apply Is_true_true_2, forallb_True in Hok.
  eapply Forall_impl; [exact Hok|]. intros p Hp%Is_true_true v Hv. unfold field_ok in Hp. rewrite Hv in Hp. by apply andb_true_iff in Hp as [_ Hp].
Qed.

Lemma safe_read_object (fields : list (field_spec * wire_type)) :
  forallb (λ p, field_ok p.1 (has_type p.2)) fields = true →
  Forall (λ p, safe (read_bytes p.2) (λ v, has_type p.2 v = true)) fields →
  safe (read_object (map (λ p, (p.1, read_bytes p.2)) fields))
    (λ l, fields_have_types (map (λ p, (p.1, has_type p.2)) fields) l = true).
Proof.
  intros Hok Hsafe. unfold read_object.
  eapply safe_bind; [apply safe_start_object|]. intros state Hstate.
  eapply (safe_bind _ _ (dest_ok (map (λ p v, has_type p.2 v = true) fields))).
  - apply safe_object_loop.
    + rewrite map_map. simpl. clear Hok. induction Hsafe; constructor; auto.
    + by rewrite !length_map.
    + lia.
    + rewrite length_map. clear. induction fields; constructor; [done|]. exact IHfields.
  - intros dest Hdest. rewrite !map_map. simpl.
    eapply safe_bind.
    { apply (safe_check _ _ _) with (2 := λ H, H). done. }
    intros ? Hrequired. safe_bind_step. apply safe_ret. by apply reset_omitted_typed.
Qed.

Lemma safe_read_bytes ik t :
  wire_type_ok ik t = true → safe (read_bytes t) (λ v, has_type t v = true).
Proof.
  induction t as [| | | |n|n|n|min max t IH|fields IH] using wire_type_ind'; intros Hok;
    cbn [read_bytes wire_type_ok] in *.
  - eapply safe_bind; [apply safe_read_boolean|]. intros b _. by apply safe_ret.
  - eapply safe_bind; [apply safe_read_real|]. intros z Hz; cbv beta in *. apply safe_ret. cbn [has_type]. lia.
  - eapply safe_bind; [apply safe_read_string|]. intros l Hl. by apply safe_ret.
  - eapply safe_bind; [apply safe_read_binary|]. intros l Hl. by apply safe_ret.
  - eapply safe_bind; [apply safe_read_integer|]. intros z Hz; cbv beta in *. unfold cast_signed. cbv zeta.
    destruct (_ || _) eqn:Hrange.
    + intros r Hr. by destruct (z <? 0).
    + apply safe_ret. cbn [has_type]. lia.
  - eapply safe_bind; [apply safe_read_unsigned|]. intros z Hz; cbv beta in *. unfold cast_unsigned.
    destruct (_ <? z) eqn:Hrange.
    + by intros r Hr.
    + apply safe_ret. cbn [has_type]. lia.
  - eapply safe_bind; [apply safe_read_blob|]. intros l [Hl Hn]. apply safe_ret. cbn [has_type].
    unfold short_bytes in Hl. rewrite Hl, Hn. apply Nat.eqb_refl.
  - apply andb_true_iff in Hok as [_ Hok].
    eapply safe_bind; [by apply safe_array, IH|]. intros l [Hl Hlen]; cbv beta in *. apply safe_ret. cbn [has_type].
    apply andb_true_iff. split; [|lia]. apply forallb_forall. rewrite Forall_forall in Hl.
    intros v Hv. by apply Hl, list_elem_of_In.
  - apply andb_true_iff in Hok as [[[Hfields _]%andb_true_iff Htypes]%andb_true_iff _].
    eapply safe_bind; [apply safe_read_object; [done|]|intros l Hl; by apply safe_ret].
    rewrite forallb_forall in Htypes. rewrite Forall_forall in IH |- *.
    intros p Hp. apply IH; [done|]. by apply Htypes, list_elem_of_In.
Qed.

(** *** The writer produces the encoding *)

Lemma writes_nothing ik : writes ik write_nothing [] 0.
Proof. intros b e He. unfold write_nothing. by rewrite app_nil_r, Z.add_0_r, wrap_small. Qed.

Lemma writes_elements ik (write : value → writing) (encode : value → list Z) l :
  Forall (λ v, writes ik (write v) (encode v) (-1)) l →
  writes ik (foldr (λ v k, write v >> k) write_nothing l) (concat (map encode l)) (- Z.of_nat (length l)).
Proof.
  induction 1 as [|v l Hv Hl IH]; simpl; [apply writes_nothing|].
  replace (- Z.of_nat (S (length l))) with (-1 + - Z.of_nat (length l)) by lia.
  by apply writes_then.
Qed.

Lemma field_name_ok f typed :
  field_ok f typed = true → 0 <= f_id f <= u32_max ∧ Z.of_nat (length (f_name f)) <= u32_max.
Proof.
  unfold field_ok, bytes_ok. intros [[[[_ Hlen]%andb_true_iff Hlo]%andb_true_iff Hhi]%andb_true_iff _]%andb_true_iff.
  lia.
Qed.

(** A field that is written has a value. *)
Lemma available_some f (typed : value → bool) v :
  field_has_type f typed v = true → available f v = true → ∃ v', v = Some v' ∧ typed v' = true.
Proof.
  unfold field_has_type, available. destruct v as [v|]; [by eauto|].
  by destruct (f_presence f).
Qed.

Lemma available_count_cons f fields v values :
  available_count (f :: fields) (v :: values) =
    ((if available f v then 1 else 0) + available_count fields values)%nat.
Proof.
  unfold available_count. simpl. rewrite filter_cons. simpl.
  by destruct (available f v).
Qed.

Lemma available_count_le fields values : (available_count fields values <= length fields)%nat.
Proof.
  unfold available_count. etrans; [apply length_filter|]. rewrite length_zip_with. lia.
Qed.

Lemma writes_fields ik (fields : list (field_spec * wire_type)) values :
  forallb (λ p, field_ok p.1 (has_type p.2)) fields = true →
  Forall (λ p, ∀ v, has_type p.2 v = true → writes ik (write_bytes p.2 v) (encode ik p.2 v) (-1)) fields →
  fields_have_types (map (λ p, (p.1, has_type p.2)) fields) values = true →
  writes ik (write_fields (map (λ p, (p.1, write_bytes p.2)) fields) values)
    (encode_fields ik (map (λ p, (p.1, encode ik p.2)) fields) values)
    (- 2 * Z.of_nat (available_count (map fst fields) values)).
Proof.
  revert values.
  induction fields as [|[f t] fields IH]; intros [|v values] Hok Hwrites Htyped; simpl in Htyped;
    try done; [apply writes_nothing|]. cbn [map forallb fst snd] in *.
  apply andb_true_iff in Hok as [Hf Hok], Htyped as [Hv Htyped].
  apply Forall_cons in Hwrites as [Ht Hwrites]. simpl in Ht.
  rewrite available_count_cons. cbn [write_fields encode_fields]. unfold write_field.
  destruct (available f v) eqn:Hav.
  - destruct (available_some _ _ _ Hv Hav) as (v' & -> & Hv').
    replace (-2 * Z.of_nat (1 + available_count (map fst fields) values))
      with ((-1 + -1) + (-2 * Z.of_nat (available_count (map fst fields) values))) by lia.
    apply field_name_ok in Hf as [Hid Hname].
    apply writes_then; [|by apply IH]. apply writes_then; [by apply writes_key|by apply Ht].
  - rewrite <-(Z.add_0_l (_ * _)).
    destruct v; (apply writes_then; [apply writes_nothing|by apply IH]).
Qed.

Lemma write_bytes_encode ik t v :
  wire_type_ok ik t = true → has_type t v = true → writes ik (write_bytes t v) (encode ik t v) (-1).
Proof.
  revert v. induction t as [| | | |n|n|n|min max t IH|fields IH] using wire_type_ind';
    intros v Hok Hv; destruct v as [b|z|z|l|l|l]; try discriminate Hv; cbn [wire_type_ok has_type write_bytes encode] in *.
  - apply writes_boolean.
  - apply writes_real.
  - apply writes_string. unfold bytes_ok in Hv. lia.
  - apply writes_binary. unfold bytes_ok in Hv. lia.
  - apply writes_integer.
    assert (2 ^ (8 * Z.of_nat n - 1) <= 2 ^ 63) by (apply Z.pow_le_mono_r; lia).
    unfold i64_min, i64_max. lia.
  - apply writes_unsigned. assert (2 ^ (8 * Z.of_nat n) <= 2 ^ 64) by (apply Z.pow_le_mono_r; lia).
    unfold u64_max. lia.
  - apply writes_binary. unfold bytes_ok in Hv. lia.
  - apply andb_true_iff in Hok as [_ Hok], Hv as [Hv Hlen].
    replace (-1) with (Z.of_nat (length l) + (- Z.of_nat (length l) + -1)) by lia.
    rewrite <-(app_nil_r (concat _)).
    apply writes_then; [apply writes_array; lia|]. apply writes_then; [|apply writes_expect].
    apply writes_elements, Forall_forall. intros v Hin. apply IH; [done|].
    rewrite forallb_forall in Hv. by apply Hv, list_elem_of_In.
  - apply andb_true_iff in Hok as [[[Hfields _]%andb_true_iff Htypes]%andb_true_iff Hlen].
    pose proof (available_count_le (map fst fields) l) as Hcount. rewrite length_map in Hcount.
    unfold write_object. rewrite map_map. simpl.
    set (n := Z.of_nat (available_count (map fst fields) l)).
    replace (-1) with (n * 2 + (- 2 * n + -1)) by lia.
    rewrite <-(app_nil_r (encode_fields _ _ _)).
    apply writes_then; [apply writes_object; unfold n, u32_max; lia|].
    apply writes_then; [|apply writes_expect]. apply writes_fields; [done| |done].
    rewrite forallb_forall in Htypes. rewrite Forall_forall in IH |- *. intros p Hp v Hpv.
    apply IH; [done| |done]. by apply Htypes, list_elem_of_In.
Qed.

Lemma to_bytes_encode ik t v :
  wire_type_ok ik t = true → has_type t v = true → to_bytes ik t v = Ok (encode ik t v).
Proof.
  intros Hok Hv. unfold to_bytes, new_writer.
  rewrite (write_bytes_encode ik t v Hok Hv [] 1) by done. done.
Qed.

(** *** Reading the encoding *)

(** [m] reads [a] from [bytes], with at most [nest] containers open at a time, and
    leaves the depth [leak] too high. *)
Definition value_reads {A} (m : reading A) (bytes : list Z) (a : A) (nest leak : Z) : Prop :=
  ∀ rest t d, 1 <= t → t + Z.of_nat (length bytes) <= u64_max → 0 <= d → d + nest < max_read_depth →
    m (MsgpackReader (bytes ++ rest) t d) = Ok (a, MsgpackReader rest (t - 1) (d + leak)).

Lemma token_value_reads {A B} (m : reading A) (f : A → reading B) bytes a b :
  token_reads m bytes a → f a = mret b → value_reads (m ≫= f) bytes b 0 0.
Proof.
  intros Hm Hf rest t d Ht _ _ _. unfold mbind, reading_bind. rewrite Hm by done. rewrite Hf.
  by rewrite Z.add_0_r.
Qed.

Lemma value_reads_map (m : reading (list value)) bytes l nest leak :
  value_reads m bytes l nest leak → value_reads (l ← m; mret (VArray l)) bytes (VArray l) nest leak.
Proof. intros Hm rest t d ????. unfold mbind, reading_bind. by rewrite Hm. Qed.

Lemma encode_key_cons ik id name :
  0 <= id <= u32_max → Z.of_nat (length name) <= u32_max →
  ∃ next bytes, encode_key ik id name = next :: bytes.
Proof.
  intros Hid Hname. unfold encode_key, encode_string. destruct ik.
  - destruct (encode_unsigned_cases id) as [[_ ->]|(type & _ & _ & ->)];
      [unfold u32_max, u64_max in *; lia|eauto|eauto].
  - destruct (encode_header_cases ftag_string string_types (Z.of_nat (length name)))
      as [[_ ->]|(type & _ & _ & ->)]; [by left|lia|simpl; eauto|simpl; eauto].
Qed.

(** [key] at a key that no field or the field [i] has. *)
Lemma key_step ik map st id name rest t d :
  0 <= id <= u32_max → Z.of_nat (length name) <= u32_max → 1 <= t →
  key map (S st) (MsgpackReader (encode_key ik id name ++ rest) t d) =
    match find_index (key_match ik id name) map with
    | Some i => Ok (Some (i, st), MsgpackReader rest (t - 1) d)
    | None => (_ ← skip_value; key map st) (MsgpackReader rest (t - 1) d)
    end.
Proof.
  intros Hid Hname Ht. destruct (encode_key_cons ik id name Hid Hname) as (next & bytes & Heq).
  pose proof (raw_reads_key ik map id name next bytes Hid Hname Heq) as Hkey.
  simpl. unfold mbind, reading_bind. unfold update_tags_remaining at 1. cbn -[Z.eqb skip_value].
  destruct (Z.eqb_spec t 0); [lia|]. rewrite Heq. change ((next :: bytes) ++ rest) with ([next] ++ (bytes ++ rest)).
  rewrite raw_reads_tag, Hkey. by destruct (find_index _ map).
Qed.

(** An entry of an object: the field with index [i], or a field it does not know. *)
Inductive entry : Set :=
  | Known (i : nat) (v : value)
  | Unknown (id : Z) (name bytes : list Z) (containers : nat).

Definition known (e : entry) : option (nat * value) :=
  match e with Known i v => Some (i, v) | Unknown _ _ _ _ => None end.

(** How many containers an entry makes the reader skip. *)
Definition entry_leak (e : entry) : nat :=
  match e with Known _ _ => 0 | Unknown _ _ _ c => c end.

Definition leak_of (es : list entry) : Z := Z.of_nat (sum_list_with entry_leak es).

Definition entry_bytes (ik : bool) (fields : list (field_spec * wire_type)) (e : entry) : list Z :=
  match e with
  | Known i v =>
    match fields !! i with
    | Some (f, t) => encode_key ik (f_id f) (f_name f) ++ encode ik t v
    | None => []
    end
  | Unknown id name bytes _ => encode_key ik id name ++ bytes
  end.

(** Entries that can be in an object of these fields. *)
Definition entry_ok (ik : bool) (fields : list (field_spec * wire_type)) (e : entry) : Prop :=
  match e with
  | Known i v => ∃ f t, fields !! i = Some (f, t) ∧ has_type t v = true
  | Unknown id name bytes c =>
    0 <= id <= u32_max ∧ Z.of_nat (length name) <= u32_max ∧ msgpack_values 1 bytes c ∧
    find_index (key_match ik id name) (map (λ p, set_mapping p.1) fields) = None
  end.

Definition set_field (dest : list (option value)) (e : nat * value) : list (option value) :=
  <[e.1 := Some e.2]> dest.

Lemma find_index_nodup {A B} (k : A → B) `{!EqDecision B} (l : list A) i a :
  NoDup (map k l) → l !! i = Some a → find_index (λ a', bool_decide (k a' = k a)) l = Some i.
Proof.
  revert i. induction l as [|a' l IH]; intros i Hnodup Hi; [done|]. simpl.
  inversion Hnodup as [|? ? Hnotin Hnodup']; subst.
  destruct i as [|i]; simpl in Hi.
  - injection Hi as ->. by rewrite bool_decide_eq_true_2.
  - rewrite bool_decide_eq_false_2; [by rewrite (IH i)|]. intros Heq. apply Hnotin. rewrite Heq.
    change (k a) with (k a). apply list_elem_of_In, in_map, list_elem_of_In.
    by apply list_elem_of_lookup_2 in Hi.
Qed.

Lemma find_index_ext {A} (p q : A → bool) l : (∀ a, p a = q a) → find_index p l = find_index q l.
Proof. intros Hpq. induction l as [|a l IH]; simpl; [done|]. by rewrite Hpq, IH. Qed.

Lemma find_index_map {A B} (g : A → B) p l : find_index p (map g l) = find_index (λ a, p (g a)) l.
Proof. induction l as [|a l IH]; simpl; [done|]. by rewrite IH. Qed.

(** The key of a field finds the field. *)
Lemma find_field (ik : bool) (fields : list (field_spec * wire_type)) i f t :
  NoDup (map (λ p : field_spec * wire_type, if ik then [f_id p.1] else f_name p.1) fields) → fields !! i = Some (f, t) →
  find_index (key_match ik (f_id f) (f_name f)) (map (λ p, set_mapping p.1) fields) = Some i.
Proof.
  intros Hnodup Hi. rewrite find_index_map.
  rewrite <-(find_index_nodup _ fields i (f, t) Hnodup Hi). apply find_index_ext.
  intros [f' t']. unfold key_match, set_mapping; simpl. destruct ik.
  - destruct (Z.eqb_spec (f_id f') (f_id f)) as [->|Hne]; [by rewrite bool_decide_eq_true_2|].
    rewrite bool_decide_eq_false_2; [done|congruence].
  - apply bool_decide_ext. naive_solver.
Qed.

(** Every encoding is as long as the reader expects of an array element. *)
Lemma encode_header_length tag types n :
  (tag, types) ∈ length_types → 0 <= n <= u32_max → (1 <= length (encode_header tag types n))%nat.
Proof.
  intros Htypes Hn. destruct (encode_header_cases tag types n Htypes Hn) as [[_ ->]|(type & _ & _ & ->)];
    simpl; lia.
Qed.

Lemma encode_binary_length l :
  Z.of_nat (length l) <= u32_max → (length l + 2 <= length (encode_binary l))%nat.
Proof.
  intros Hl. unfold encode_binary.
  destruct (encode_count_form binary_types (Z.of_nat (length l)) u32_max) as (type & Hin & _ & ->); [done|done|].
  destruct (length_type_ok ftag_string binary_types type) as (_ & Hpos & _); [by right|done|].
  rewrite length_app. simpl. rewrite length_be_split. lia.
Qed.

Lemma encode_unsigned_length z : 0 <= z <= u64_max → (1 <= length (encode_unsigned z))%nat.
Proof. intros Hz. destruct (encode_unsigned_cases z Hz) as [[_ ->]|(type & _ & _ & ->)]; simpl; lia. Qed.

Lemma encode_integer_length z : i64_min <= z <= i64_max → (1 <= length (encode_integer z))%nat.
Proof.
  intros Hz. unfold encode_integer. destruct (Z.leb_spec 0 z).
  - apply encode_unsigned_length. unfold i64_max, u64_max in *. lia.
  - destruct (find_signed z) as (type & Hfind & _); [lia|]. unfold encode_first. rewrite Hfind. simpl. lia.
Qed.

(** The integers of a type fit the tokens. *)
Lemma integer_type_range n z :
  (1 <=? Z.of_nat n) && (Z.of_nat n <=? 8) = true →
  (- 2 ^ (8 * Z.of_nat n - 1) <= z < 2 ^ (8 * Z.of_nat n - 1) → i64_min <= z <= i64_max) ∧
  (0 <= z < 2 ^ (8 * Z.of_nat n) → 0 <= z <= u64_max).
Proof.
  intros Hn.
  assert (2 ^ (8 * Z.of_nat n - 1) <= 2 ^ 63) by (apply Z.pow_le_mono_r; lia).
  assert (2 ^ (8 * Z.of_nat n) <= 2 ^ 64) by (apply Z.pow_le_mono_r; lia).
  unfold i64_min, i64_max, u64_max. lia.
Qed.

Lemma encode_length ik t v :
  wire_type_ok ik t = true → has_type t v = true → min_length t <= Z.of_nat (length (encode ik t v)).
Proof.
  destruct t as [| | | |n|n|n|min max t|fields], v as [b|z|z|l|l|l]; intros Hok Hv;
    try discriminate Hv; cbn [wire_type_ok has_type encode min_length] in *; unfold bytes_ok in Hv.
  - by destruct b.
  - unfold encode_real. cbn [length]. rewrite length_le_split. lia.
  - unfold encode_string. rewrite length_app.
    pose proof (encode_header_length ftag_string string_types (Z.of_nat (length l))) as H.
    specialize (H ltac:(by left) ltac:(lia)). lia.
  - pose proof (encode_binary_length l). lia.
  - pose proof (encode_integer_length z) as H. destruct (integer_type_range n z Hok). lia.
  - pose proof (encode_unsigned_length z) as H. destruct (integer_type_range n z Hok). lia.
  - apply andb_true_iff in Hv as [Hv Hn%Nat.eqb_eq]. pose proof (encode_binary_length l). lia.
  - rewrite length_app.
    pose proof (encode_header_length ftag_array array_types (Z.of_nat (length l))) as H.
    specialize (H ltac:(by right; left) ltac:(lia)). lia.
  - rewrite length_app. pose proof (available_count_le (map fst fields) l) as Hcount.
    rewrite length_map in Hcount.
    pose proof (encode_header_length ftag_object object_types
      (Z.of_nat (available_count (map fst fields) l))) as H.
    specialize (H ltac:(by right; right; left) ltac:(unfold u32_max; lia)). lia.
Qed.

Lemma encode_nonempty ik t v :
  wire_type_ok ik t = true → has_type t v = true → (1 <= length (encode ik t v))%nat.
Proof.
  intros Hok Hv. pose proof (encode_length ik t v Hok Hv). destruct t; simpl in *; lia.
Qed.

Section object.
Context (ik : bool) (fields : list (field_spec * wire_type)) (N : Z).
Context (Hnodup : NoDup (map (λ p : field_spec * wire_type, if ik then [f_id p.1] else f_name p.1) fields)).
Context (Hok : forallb (λ p, field_ok p.1 (has_type p.2)) fields = true).
Context (Htypes : forallb (λ p, wire_type_ok ik p.2) fields = true).
Context (Hreads : Forall (λ p, ∀ v, has_type p.2 v = true →
  value_reads (read_bytes p.2) (encode ik p.2 v) v N 0) fields).

Let keys : list key_map := map (λ p, set_mapping p.1) fields.
Let reads : list (reading value) := map (λ p, read_bytes p.2) fields.

Lemma field_lookup i f t :
  fields !! i = Some (f, t) →
  (0 <= f_id f <= u32_max ∧ Z.of_nat (length (f_name f)) <= u32_max) ∧ reads !! i = Some (read_bytes t) ∧
  (∀ v, has_type t v = true → value_reads (read_bytes t) (encode ik t v) v N 0).
Proof.
  intros Hi. assert ((f, t) ∈ fields) as Hin by (by eapply list_elem_of_lookup_2).
  rewrite forallb_forall in Hok. rewrite Forall_forall in Hreads.
  split; [|split].
  - apply field_name_ok with (typed := has_type t). specialize (Hok (f, t)).
    apply Hok. by apply list_elem_of_In.
  - unfold reads. etrans; [apply (list_lookup_fmap (λ p, read_bytes p.2) fields i)|]. by rewrite Hi.
  - by apply (Hreads (f, t)).
Qed.

Lemma entries_length es :
  Forall (entry_ok ik fields) es → (2 * length es <= length (concat (map (entry_bytes ik fields) es)))%nat.
Proof.
  induction 1 as [|e es He Hes IH]; simpl; [lia|]. rewrite length_app.
  destruct e as [i v|id name bytes c].
  - destruct He as (f & t & Hi & Hv). cbn [entry_bytes]. rewrite Hi, length_app.
    destruct (field_lookup i f t Hi) as ([Hid Hname] & _).
    destruct (encode_key_cons ik _ _ Hid Hname) as (next & bytes & ->). simpl.
    assert (wire_type_ok ik t = true) as Hty.
    { rewrite forallb_forall in Htypes. specialize (Htypes (f, t)). apply Htypes.
      apply list_elem_of_In. by eapply list_elem_of_lookup_2. }
    pose proof (encode_nonempty ik t v Hty Hv). lia.
  - destruct He as (Hid & Hname & Hvalues & _). cbn [entry_bytes]. rewrite length_app.
    destruct (encode_key_cons ik _ _ Hid Hname) as (next & bytes' & ->). simpl.
    pose proof (msgpack_values_length _ _ _ Hvalues). lia.
Qed.

Lemma try_read_ok index read dest v bytes rest t d :
  dest !! index = Some None → value_reads read bytes v N 0 →
  1 <= t → t + Z.of_nat (length bytes) <= u64_max → 0 <= d → d + N < max_read_depth →
  try_read read index dest (MsgpackReader (bytes ++ rest) t d) =
    Ok (<[index := Some v]> dest, MsgpackReader rest (t - 1) d).
Proof.
  intros Hdest Hread Ht Hlen Hd HN. unfold try_read, mbind, reading_bind, check.
  rewrite Hdest. simpl. rewrite Hread by done. by rewrite Z.add_0_r.
Qed.

Lemma object_loop_entries es fuel dest rest t d :
  Forall (entry_ok ik fields) es → NoDup (map fst (omap known es)) →
  (∀ e, e ∈ omap known es → dest !! e.1 = Some None) → (length es < fuel)%nat → 0 <= N →
  2 * Z.of_nat (length es) + 1 <= t →
  t + Z.of_nat (length (concat (map (entry_bytes ik fields) es))) <= u64_max + 2 * Z.of_nat (length es) →
  0 <= d → d + N + leak_of es < max_read_depth →
  object_loop fuel keys reads (length es) dest
      (MsgpackReader (concat (map (entry_bytes ik fields) es) ++ rest) t d) =
    Ok (foldl set_field dest (omap known es),
        MsgpackReader rest (t - 2 * Z.of_nat (length es) - 1) (d + leak_of es)).
Proof.
  intros Hes. revert fuel dest t d. unfold leak_of.
  induction Hes as [|e es He Hes IH]; intros fuel dest t d Hdistinct Hdest Hfuel HN Ht Hlen Hd Hdepth;
    (destruct fuel as [|fuel]; [simpl in Hfuel; lia|]).
  - simpl. unfold mbind, reading_bind, array_end, update_tags_remaining. cbn -[Z.eqb].
    destruct (Z.eqb_spec t 0); [simpl in Ht; lia|]. unfold mret, reading_ret. do 2 f_equal. f_equal; lia.
  - pose proof (entries_length es Hes) as Hrest.
    cbn [map concat length] in *. rewrite length_app in Hlen. rewrite <-app_assoc. destruct e as [i v|id name bytes c]; simpl in Hdepth.
    + destruct He as (f & ty & Hi & Hv). destruct (field_lookup i f ty Hi) as ([Hid Hname] & Hread & Hval).
      cbn [object_loop]. unfold mbind at 1, reading_bind at 1. unfold entry_bytes at 1.
      cbn [entry_bytes] in Hlen. rewrite Hi in Hlen |- *. rewrite length_app in Hlen.
      destruct (encode_key_cons ik _ _ Hid Hname) as (next & bytes & Hkey).
      assert (1 <= length (encode_key ik (f_id f) (f_name f)))%nat by (rewrite Hkey; simpl; lia).
      rewrite <-app_assoc, key_step by (done || lia).
      assert (find_index (key_match ik (f_id f) (f_name f)) keys = Some i) as ->
        by (by eapply find_field).
      rewrite Hread.
      change (omap known (Known i v :: es)) with ((i, v) :: omap known es) in *. cbn [map] in Hdistinct.
      apply NoDup_cons in Hdistinct as [Hnew Hdistinct].
      unfold mbind at 1, reading_bind at 1.
      rewrite (try_read_ok i _ dest v) by (auto; try lia; apply (Hdest (i, v)); by left).
      assert (∀ e, e ∈ omap known es → <[i:=Some v]> dest !! e.1 = Some None) as Hdest'.
      { intros [j w] Hin. simpl. rewrite list_lookup_insert_ne; [apply (Hdest (j, w)); by right|].
        intros ->. apply Hnew. by apply (list_elem_of_fmap_2 fst _ (j, w)). }
      rewrite (IH fuel) by (done || lia).
      simpl. do 2 f_equal. f_equal; lia.
    + destruct He as (Hid & Hname & Hvalues & Hfind). cbn [entry_bytes] in *. rewrite length_app in Hlen.
      cbn [object_loop]. unfold mbind at 1, reading_bind at 1.
      destruct (encode_key_cons ik _ _ Hid Hname) as (next & bytes' & Hkey).
      assert (1 <= length (encode_key ik id name))%nat by (rewrite Hkey; simpl; lia).
      pose proof (msgpack_values_length _ _ _ Hvalues).
      rewrite <-app_assoc, key_step by (done || lia). fold keys in Hfind. rewrite Hfind.
      unfold mbind at 1, reading_bind at 1.
      rewrite (skip_value_ok bytes c) by (done || lia).
      change (omap known (Unknown id name bytes c :: es)) with (omap known es) in *.
      specialize (IH (S fuel) dest (t - 1 - 1) (d + Z.of_nat c)). cbn [object_loop] in IH.
      unfold mbind at 1, reading_bind at 1 in IH. rewrite IH by (try done; lia).
      simpl. do 2 f_equal. f_equal; lia.
Qed.
End object.

(** The fields of an object that are written. *)
Definition is_present (specs : list field_spec) (values : list (option value)) (e : nat * value) : Prop :=
  ∃ f, specs !! e.1 = Some f ∧ values !! e.1 = Some (Some e.2) ∧ available f (Some e.2) = true.

Lemma length_set_fields dest ks : length (foldl set_field dest ks) = length dest.
Proof.
  revert dest. induction ks as [|e ks IH]; intros dest; simpl; [done|].
  rewrite IH. unfold set_field. apply length_insert.
Qed.

Lemma set_fields_notin dest ks i :
  i ∉ map fst ks → foldl set_field dest ks !! i = dest !! i.
Proof.
  revert dest. induction ks as [|[j v] ks IH]; intros dest Hi; simpl; [done|].
  cbn [map fst] in Hi. rewrite elem_of_cons in Hi. rewrite IH by naive_solver.
  unfold set_field; simpl. apply list_lookup_insert_ne. naive_solver.
Qed.

Lemma set_fields_in dest ks i v :
  NoDup (map fst ks) → (i, v) ∈ ks → (i < length dest)%nat → foldl set_field dest ks !! i = Some (Some v).
Proof.
  revert dest. induction ks as [|[j w] ks IH]; intros dest Hnodup Hin Hi; simpl; [by apply elem_of_nil in Hin|].
  cbn [map fst] in Hnodup. apply NoDup_cons in Hnodup as [Hj Hnodup].
  apply elem_of_cons in Hin as [[= -> ->]|Hin].
  - rewrite set_fields_notin by done. unfold set_field; simpl. by rewrite list_lookup_insert_eq.
  - apply IH; [done|done|]. unfold set_field. by rewrite length_insert.
Qed.

Lemma fields_typed_lookup (fields : list (field_spec * wire_type)) values :
  fields_have_types (map (λ p, (p.1, has_type p.2)) fields) values = true →
  length values = length fields ∧
  ∀ i f t ov, fields !! i = Some (f, t) → values !! i = Some ov → field_has_type f (has_type t) ov = true.
Proof.
  revert values. induction fields as [|[f t] fields IH]; intros [|ov values]; simpl; try done.
  intros [Hov Hrest]%andb_true_iff. apply IH in Hrest as [Hlen Hrest]. split; [by rewrite Hlen|].
  intros [|i]; simpl; [by intros ??? [= <- <-] [= <-]|]. apply Hrest.
Qed.

(** What was read, with the omitted fields reset, is the object. *)
Lemma set_fields_values (fields : list (field_spec * wire_type)) values ks :
  fields_have_types (map (λ p, (p.1, has_type p.2)) fields) values = true →
  NoDup (map fst ks) → (∀ e, e ∈ ks ↔ is_present (map fst fields) values e) →
  let dest := foldl set_field (replicate (length fields) None) ks in
  forallb (λ p, negb (is_required p.1 && bool_decide (p.2 = None))) (zip (map fst fields) dest) = true ∧
  zip_with reset_omitted (map fst fields) dest = values.
Proof.
  intros Htyped Hnodup Hks dest. apply fields_typed_lookup in Htyped as [Hlen Htyped].
  assert (length dest = length fields) as Hdest by (unfold dest; by rewrite length_set_fields, length_replicate).
  assert (∀ i f t ov, fields !! i = Some (f, t) → values !! i = Some ov →
    dest !! i = Some (if available f ov then ov else None)) as Hlookup.
  { intros i f t ov Hi Hov. pose proof (lookup_lt_Some _ _ _ Hi) as Hlt. specialize (Htyped _ _ _ _ Hi Hov).
    assert (map fst fields !! i = Some f) as Hspec.
    { etrans; [apply (list_lookup_fmap fst fields i)|]. by rewrite Hi. }
    destruct (available f ov) eqn:Hav.
    - destruct (available_some _ _ _ Htyped Hav) as (v & -> & _).
      apply set_fields_in; [done| |by rewrite length_replicate]. apply Hks. by exists f.
    - unfold dest. rewrite set_fields_notin; [by apply lookup_replicate_2|].
      intros ([j v] & -> & (f' & Hf' & Hv & Hav')%Hks)%(list_elem_of_fmap fst ks). simpl in *.
      simplify_eq. congruence. }
  split.
  - apply forallb_forall. intros [f ov] Hin%list_elem_of_In.
    apply list_elem_of_lookup in Hin as (i & Hi). simpl.
    apply lookup_zip_with_Some in Hi as (f' & ov' & [= <- <-] & Hf & Hov).
    pose proof Hf as Hf'. change (map fst fields) with (fst <$> fields) in Hf'.
    apply list_lookup_fmap_Some in Hf' as ([f' t] & -> & Hi). simpl in *.
    destruct (lookup_lt_is_Some_2 values i) as [w Hw];
      [rewrite Hlen; by eapply lookup_lt_Some|].
    rewrite (Hlookup _ _ _ _ Hi Hw) in Hov. injection Hov as <-. specialize (Htyped _ _ _ _ Hi Hw).
    unfold is_required, available, field_has_type in *. destruct (f_presence f'); [|done|done].
    by destruct w.
  - apply list_eq. intros i. destruct (values !! i) as [ov|] eqn:Hov.
    + destruct (lookup_lt_is_Some_2 fields i) as [[f t] Hi];
        [rewrite <-Hlen; by eapply lookup_lt_Some|].
      apply lookup_zip_with_Some. exists f, (if available f ov then ov else None).
      split; [|split; [|by eapply Hlookup]].
      * specialize (Htyped _ _ _ _ Hi Hov). unfold reset_omitted, available, field_has_type in *.
        destruct ov as [v|], (f_presence f) as [| |default]; try done.
        destruct (bool_decide (v = default)) eqn:Heq; [|done]. apply bool_decide_eq_true_1 in Heq as ->. done.
      * etrans; [apply (list_lookup_fmap fst fields i)|]. by rewrite Hi.
    + apply lookup_ge_None. rewrite length_zip_with, length_map. apply lookup_ge_None in Hov. lia.
Qed.

Lemma decrement_depth_ok rest t d :
  0 < d → decrement_depth (MsgpackReader rest t d) = Ok (tt, MsgpackReader rest t (d - 1)).
Proof. intros Hd. unfold decrement_depth; cbn -[Z.eqb]. by destruct (Z.eqb_spec d 0); [lia|]. Qed.

(** The fields of a type, each of which can be read. *)
Definition fields_ok (ik : bool) (fields : list (field_spec * wire_type)) (N : Z) : Prop :=
  wire_type_ok ik (TObject fields) = true ∧ 0 <= N ∧
  Forall (λ p, ∀ v, has_type p.2 v = true → value_reads (read_bytes p.2) (encode ik p.2 v) v N 0) fields.

Lemma read_object_entries ik fields N values es :
  fields_ok ik fields N → has_type (TObject fields) (VObject values) = true →
  Forall (entry_ok ik fields) es → NoDup (map fst (omap known es)) →
  (∀ e, e ∈ omap known es ↔ is_present (map fst fields) values e) → Z.of_nat (length es) <= u32_max →
  value_reads (read_object (map (λ p, (p.1, read_bytes p.2)) fields))
    (encode_header ftag_object object_types (Z.of_nat (length es)) ++ concat (map (entry_bytes ik fields) es))
    values (1 + N + leak_of es) (leak_of es).
Proof.
  intros (Hty & HN & Hreads) Htyped Hes Hdistinct Hknown Hlen rest t d Ht Hbytes Hd Hdepth.
  cbn [wire_type_ok has_type] in *.
  apply andb_true_iff in Hty as [[[Hfields Hnodup%bool_decide_eq_true_1]%andb_true_iff Htypes]%andb_true_iff _].
  rewrite length_app in Hbytes. assert (0 <= leak_of es) by (unfold leak_of; lia).
  pose proof (entries_length ik fields N Hfields Htypes Hreads es Hes) as Hcount.
  assert ((ftag_object, object_types) ∈ length_types) as Hobject by (by right; right; left).
  pose proof (encode_header_length ftag_object object_types (Z.of_nat (length es)) Hobject) as Hheader.
  specialize (Hheader ltac:(lia)).
  unfold read_object, mbind, reading_bind. rewrite <-app_assoc.
  assert (∀ e, raw_reads (read_count ftag_object object_types e)
    (encode_header ftag_object object_types (Z.of_nat (length es))) (Z.of_nat (length es))) as Hraw
    by (intros e; apply raw_reads_header; [done|lia]).
  rewrite (start_object_ok _ (Z.of_nat (length es))) by (done || lia).
  rewrite !map_map, length_map, Nat2Z.id. simpl fst. simpl snd.
  assert (∀ e, e ∈ omap known es → replicate (length fields) None !! e.1 = Some (@None value)) as Hfresh.
  { intros e (f & Hf & _)%Hknown. apply lookup_replicate_2. apply lookup_lt_Some in Hf.
    by rewrite length_map in Hf. }
  rewrite (object_loop_entries ik fields N Hnodup Hfields Htypes Hreads es) by (done || lia).
  destruct (set_fields_values fields values (omap known es) Htyped Hdistinct Hknown) as [Hrequired Hvalues].
  unfold check at 1. change (map (λ x : field_spec * wire_type, x.1) fields) with (map fst fields).
  rewrite Hrequired, decrement_depth_ok by lia. rewrite Hvalues. unfold mret, reading_ret.
  do 2 f_equal. f_equal; lia.
Qed.

Lemma array_loop_ok ik t min max start N vs dest rest tags d :
  wire_type_ok ik t = true →
  (∀ v, has_type t v = true → value_reads (read_bytes t) (encode ik t v) v N 0) →
  Forall (λ v, has_type t v = true) vs → 0 <= min <= min_length t →
  Z.of_nat (length dest + length vs) <= max →
  start - Z.of_nat (length (concat (map (encode ik t) vs) ++ rest)) >= min * Z.of_nat (length dest) →
  Z.of_nat (length vs) + 1 <= tags →
  tags + Z.of_nat (length (concat (map (encode ik t) vs))) < u64_max + Z.of_nat (length vs) →
  0 <= d → d + N < max_read_depth →
  array_loop min max (read_bytes t) start (length vs) dest
      (MsgpackReader (concat (map (encode ik t) vs) ++ rest) tags d) =
    Ok (dest ++ vs, MsgpackReader rest (tags - Z.of_nat (length vs) - 1) d).
Proof.
  intros Hok Hread Hvs Hmin. revert dest tags.
  induction Hvs as [|v vs Hv Hvs IH]; intros dest tags Hmax Hstart Htags Hbytes Hd HN;
    cbn [length array_loop map concat app] in *.
  - unfold mbind, reading_bind, array_end, update_tags_remaining. cbn -[Z.eqb].
    destruct (Z.eqb_spec tags 0); [lia|]. rewrite app_nil_r. unfold mret, reading_ret. do 3 f_equal. lia.
  - pose proof (encode_length ik t v Hok Hv) as Hlong. pose proof (encode_nonempty ik t v Hok Hv).
    assert (Z.of_nat (length vs) <= Z.of_nat (length (concat (map (encode ik t) vs)))) as Hcount.
    { clear -Hvs Hok. induction Hvs as [|v vs Hv Hvs IH]; simpl; [done|].
      pose proof (encode_nonempty ik t v Hok Hv). rewrite length_app. lia. }
    rewrite <-app_assoc in *. rewrite !length_app in *.
    unfold mbind, reading_bind. unfold check at 1. cbn -[Z.of_nat Z.leb Z.ltb Z.div].
    destruct (Z.leb_spec max (Z.of_nat (length dest))); [lia|]. simpl negb. cbv iota.
    rewrite Hread by (done || lia). unfold remaining_size, check at 1. cbn -[Z.of_nat Z.leb Z.ltb Z.div].
    rewrite !length_app.
    destruct (Z.ltb_spec ((start - Z.of_nat (length (concat (map (encode ik t) vs)) + length rest)) /
      Z.of_nat (length dest + length [v])) min) as [Hlt|_].
    { exfalso. apply Z.lt_nge in Hlt. apply Hlt. apply Z.div_le_lower_bound; simpl length; [lia|]. nia. }
    simpl negb. cbv iota. rewrite Z.add_0_r.
    rewrite IH; [|rewrite length_app; simpl; lia| |lia|lia|done|done].
    + rewrite <-app_assoc. simpl. do 2 f_equal. f_equal; lia.
    + rewrite !length_app. simpl length. nia.
Qed.

(** The entries the writer makes of an object, its fields from the [i]th on. *)
Fixpoint written_entries (i : nat) (specs : list field_spec) (values : list (option value)) : list (nat * value) :=
  match specs, values with
  | f :: specs, ov :: values =>
    match ov with Some v => if available f ov then [(i, v)] else [] | None => [] end ++
    written_entries (S i) specs values
  | _, _ => []
  end.

Definition known_entries (ks : list (nat * value)) : list entry := map (λ e, Known e.1 e.2) ks.

Lemma omap_known ks : omap known (known_entries ks) = ks.
Proof. induction ks as [|[i v] ks IH]; [done|]. simpl. f_equal. exact IH. Qed.

Lemma leak_of_known ks : leak_of (known_entries ks) = 0.
Proof. unfold leak_of. induction ks as [|e ks IH]; [done|]. exact IH. Qed.

Lemma written_entries_present i specs values e :
  e ∈ written_entries i specs values ↔
  (i <= e.1)%nat ∧ is_present specs values ((e.1 - i)%nat, e.2).
Proof.
  unfold is_present; simpl. revert i values.
  induction specs as [|f specs IH]; intros i [|ov values]; simpl;
    try by (rewrite elem_of_nil; split; [done|]; intros (_ & f' & ? & ? & _); rewrite ?lookup_nil in *; done).
  assert ((e.1 = i ∧ ov = Some e.2 ∧ available f ov = true) ∨ e ∈ written_entries (S i) specs values ↔
    e ∈ match ov with Some v => if available f ov then [(i, v)] else [] | None => [] end ++
      written_entries (S i) specs values) as <-.
  { rewrite elem_of_app. destruct e as [j w], ov as [v|]; simpl; [|set_solver].
    destruct (available f (Some v)) eqn:Hav; set_solver. }
  rewrite IH. destruct (decide (e.1 = i)) as [->|Hne].
  - rewrite Nat.sub_diag. simpl. split.
    + intros [(_ & -> & Hav)|[? _]]; [|lia]. eauto.
    + intros (_ & f' & [= <-] & [= ->] & Hav). by left.
  - split.
    + intros [(? & _)|(Hle & f' & Hf & Hv & Hav)]; [done|]. split; [lia|].
      replace (e.1 - i)%nat with (S (e.1 - S i)) by lia. by exists f'.
    + intros (Hle & f' & Hf & Hv & Hav). right. split; [lia|].
      replace (e.1 - i)%nat with (S (e.1 - S i)) in Hf, Hv by lia. by exists f'.
Qed.

Lemma written_entries_nodup i specs values : NoDup (map fst (written_entries i specs values)).
Proof.
  revert i values. induction specs as [|f specs IH]; intros i [|ov values]; try constructor. simpl.
  destruct ov as [v|]; [|apply IH]. destruct (available f (Some v)); [|apply IH].
  simpl. constructor; [|apply IH]. change (map fst ?l) with (fst <$> l).
  intros ([j w] & -> & [Hle _]%written_entries_present)%list_elem_of_fmap. simpl in Hle. lia.
Qed.

Lemma written_entries_length i (fields : list (field_spec * wire_type)) values :
  fields_have_types (map (λ p, (p.1, has_type p.2)) fields) values = true →
  length (written_entries i (map fst fields) values) = available_count (map fst fields) values.
Proof.
  revert i values. induction fields as [|[f t] fields IH]; intros i [|ov values]; try done.
  cbn [map fields_have_types fst snd]. intros [Hov Hvalues]%andb_true_iff.
  rewrite available_count_cons. cbn [written_entries]. rewrite length_app, (IH _ _ Hvalues).
  destruct (available f ov) eqn:Hav.
  - by destruct (available_some _ _ _ Hov Hav) as (v & -> & _).
  - by destruct ov.
Qed.

Lemma encode_fields_entries ik (pre fields : list (field_spec * wire_type)) values :
  encode_fields ik (map (λ p, (p.1, encode ik p.2)) fields) values =
    concat (map (entry_bytes ik (pre ++ fields))
      (known_entries (written_entries (length pre) (map fst fields) values))).
Proof.
  revert pre values. induction fields as [|[f t] fields IH]; intros pre [|ov values]; try done.
  cbn [map encode_fields written_entries fst snd]. unfold known_entries in *.
  rewrite map_app, map_app, concat_app. f_equal.
  - destruct ov as [v|]; [|done]. destruct (available f (Some v)); [|done].
    simpl. rewrite lookup_app_r, Nat.sub_diag by done. simpl. by rewrite app_nil_r.
  - rewrite (IH (pre ++ [(f, t)])), length_app. simpl. by rewrite Nat.add_1_r, <-app_assoc.
Qed.

Lemma written_entries_ok ik (fields : list (field_spec * wire_type)) values :
  fields_have_types (map (λ p, (p.1, has_type p.2)) fields) values = true →
  Forall (entry_ok ik fields) (known_entries (written_entries 0 (map fst fields) values)).
Proof.
  intros [_ Htyped]%fields_typed_lookup. apply Forall_forall. unfold known_entries.
  change (map ?g ?l) with (g <$> l).
  intros e ([i v] & -> & [_ (f & Hf & Hv & _)]%written_entries_present)%list_elem_of_fmap.
  cbn [fst snd] in *. rewrite Nat.sub_0_r in *. change (map fst fields) with (fst <$> fields) in Hf.
  apply list_lookup_fmap_Some in Hf as ([f' t] & -> & Hi). exists f', t. split; [done|].
  by specialize (Htyped _ _ _ _ Hi Hv).
Qed.

Lemma read_array_encode ik t min max l N :
  wire_type_ok ik t = true →
  (∀ v, has_type t v = true → value_reads (read_bytes t) (encode ik t v) v N 0) →
  Forall (λ v, has_type t v = true) l → 0 <= min <= min_length t → 0 <= N →
  Z.of_nat (length l) <= Z.min max u32_max →
  value_reads (array_unchecked min max (read_bytes t))
    (encode_header ftag_array array_types (Z.of_nat (length l)) ++ concat (map (encode ik t) l)) l (1 + N) 0.
Proof.
  intros Hok Hread Hl Hmin HN Hlen rest tags d Htags Hbytes Hd Hdepth.
  assert ((ftag_array, array_types) ∈ length_types) as Harray by (by right; left).
  pose proof (encode_header_length ftag_array array_types (Z.of_nat (length l)) Harray) as Hheader.
  specialize (Hheader ltac:(lia)). rewrite length_app in Hbytes.
  assert (min * Z.of_nat (length l) <= Z.of_nat (length (concat (map (encode ik t) l) ++ rest)) ∧
    Z.of_nat (length l) <= Z.of_nat (length (concat (map (encode ik t) l)))) as [Hsize Hcount].
  { rewrite length_app. clear -Hl Hmin Hok. induction Hl as [|v l Hv Hl IH]; simpl; [lia|].
    pose proof (encode_length ik t v Hok Hv). pose proof (encode_nonempty ik t v Hok Hv).
    rewrite length_app. nia. }
  assert (min = 0 ∨ Z.of_nat (length l) <=
    Z.of_nat (length (concat (map (encode ik t) l) ++ rest)) / min) as Hquot.
  { destruct (decide (min = 0)); [by left|right]. apply Z.div_le_lower_bound; lia. }
  assert (∀ e, raw_reads (read_count ftag_array array_types e)
    (encode_header ftag_array array_types (Z.of_nat (length l))) (Z.of_nat (length l))) as Hraw
    by (intros e; apply raw_reads_header; [done|lia]).
  unfold array_unchecked, mbind, reading_bind. rewrite <-app_assoc.
  rewrite (start_array_ok _ (Z.of_nat (length l))) by (done || lia).
  unfold check, remaining_size. destruct (Z.ltb_spec max (Z.of_nat (length l))); [lia|].
  cbn -[Z.of_nat Z.div array_loop app length]. rewrite Nat2Z.id.
  assert (negb (min =? 0) && (Z.of_nat (length (concat (map (encode ik t) l) ++ rest)) / min <?
    Z.of_nat (length l)) = false) as ->.
  { apply andb_false_iff. destruct Hquot as [-> |Hquot]; [by left|right; by apply Z.ltb_ge]. }
  cbn -[Z.of_nat Z.div array_loop app length].
  rewrite (array_loop_ok ik t min max _ N l []) by (try done; try (simpl length); lia).
  rewrite decrement_depth_ok by lia. unfold mret, reading_ret. simpl app. do 2 f_equal. f_equal; lia.
Qed.

Lemma type_depth_nonneg t : 0 <= type_depth t.
Proof.
  induction t as [| | | |n|n|n|min max t IH|fields IH] using wire_type_ind'; simpl; try lia.
  assert (0 <= foldr (λ p n, Z.max (type_depth p.2) n) 0 fields); [|lia].
  clear IH. induction fields; simpl; lia.
Qed.

Lemma fields_depth (fields : list (field_spec * wire_type)) p :
  p ∈ fields → type_depth p.2 <= foldr (λ p n, Z.max (type_depth p.2) n) 0 fields.
Proof.
  induction fields as [|q fields IH]; intros Hp; [by apply elem_of_nil in Hp|]. simpl.
  apply elem_of_cons in Hp as [->|Hp]; [lia|]. specialize (IH Hp). lia.
Qed.

Lemma value_reads_weaken {A} (m : reading A) bytes a nest nest' leak :
  value_reads m bytes a nest leak → nest <= nest' → value_reads m bytes a nest' leak.
Proof. intros Hm Hle rest t d ????. apply Hm; lia || done. Qed.

Lemma fields_ok_depth ik (fields : list (field_spec * wire_type)) :
  wire_type_ok ik (TObject fields) = true →
  Forall (λ p, ∀ v, has_type p.2 v = true →
    value_reads (read_bytes p.2) (encode ik p.2 v) v (type_depth p.2) 0) fields →
  fields_ok ik fields (foldr (λ p n, Z.max (type_depth p.2) n) 0 fields).
Proof.
  intros Hok Hreads. split; [done|]. split; [clear; induction fields; simpl; lia|].
  rewrite Forall_forall in Hreads |- *. intros p Hp v Hpv.
  eapply value_reads_weaken; [by apply Hreads|]. by apply fields_depth.
Qed.

Lemma read_object_encode ik (fields : list (field_spec * wire_type)) l :
  wire_type_ok ik (TObject fields) = true → has_type (TObject fields) (VObject l) = true →
  Forall (λ p, ∀ v, has_type p.2 v = true →
    value_reads (read_bytes p.2) (encode ik p.2 v) v (type_depth p.2) 0) fields →
  value_reads (read_object (map (λ p, (p.1, read_bytes p.2)) fields)) (encode ik (TObject fields) (VObject l))
    l (type_depth (TObject fields)) 0.
Proof.
  intros Hok Hv Hreads. pose proof Hv as Htyped. cbn [has_type] in Htyped.
  set (es := known_entries (written_entries 0 (map fst fields) l)).
  assert (length es = available_count (map fst fields) l) as Hlen.
  { unfold es, known_entries. rewrite length_map. by apply written_entries_length. }
  pose proof (available_count_le (map fst fields) l) as Hle. rewrite length_map in Hle.
  cbn [encode type_depth]. rewrite <-Hlen, (encode_fields_entries ik []). fold es. simpl app.
  pose proof (read_object_entries ik fields (foldr (λ p n, Z.max (type_depth p.2) n) 0 fields) l es) as Hread.
  unfold es in Hread at 7 8. rewrite leak_of_known, Z.add_0_r in Hread.
  apply Hread; [|done|by apply written_entries_ok| | |].
  - by apply fields_ok_depth.
  - unfold es. rewrite omap_known. apply written_entries_nodup.
  - unfold es. rewrite omap_known. intros [i v]. rewrite written_entries_present. simpl.
    rewrite Nat.sub_0_r. intuition lia.
  - cbn [wire_type_ok] in Hok. apply andb_true_iff in Hok as [_ Hfew]. unfold u32_max. lia.
Qed.

(** Objects of a type nested at most [N] deep are read from their encoding. *)
Lemma read_bytes_encode ik t v :
  wire_type_ok ik t = true → has_type t v = true →
  value_reads (read_bytes t) (encode ik t v) v (type_depth t) 0.
Proof.
  revert v. induction t as [| | | |n|n|n|min max t IH|fields IH] using wire_type_ind';
    intros v Hok Hv; destruct v as [b|z|z|l|l|l]; try discriminate Hv;
    cbn [read_bytes encode type_depth].
  - by eapply token_value_reads; [apply token_reads_boolean|].
  - eapply token_value_reads; [apply token_reads_real|done]. cbn [has_type] in Hv. lia.
  - eapply token_value_reads; [apply token_reads_string|done]. cbn [has_type] in Hv. unfold bytes_ok in Hv. lia.
  - eapply token_value_reads; [apply token_reads_binary|done]. cbn [has_type] in Hv. unfold bytes_ok in Hv. lia.
  - cbn [wire_type_ok has_type] in *. destruct (integer_type_range n z Hok) as [Hrange _].
    eapply token_value_reads; [apply token_reads_integer; lia|]. unfold cast_signed. cbv zeta.
    by destruct (_ || _) eqn:Hcast; [lia|].
  - cbn [wire_type_ok has_type] in *. destruct (integer_type_range n z Hok) as [_ Hrange].
    eapply token_value_reads; [apply token_reads_unsigned; lia|]. unfold cast_unsigned.
    by destruct (_ <? z) eqn:Hcast; [lia|].
  - cbn [has_type] in Hv. apply andb_true_iff in Hv as [Hv Hn%Nat.eqb_eq]. unfold bytes_ok in Hv.
    eapply token_value_reads; [apply token_reads_blob; [lia|done]|done].
  - apply value_reads_map. cbn [wire_type_ok has_type] in *.
    apply andb_true_iff in Hok as [Hmin Hok], Hv as [Hv Hlen].
    assert (Forall (λ v, has_type t v = true) l) as Hl.
    { rewrite forallb_forall in Hv. apply Forall_forall. intros v Hin. by apply Hv, list_elem_of_In. }
    apply read_array_encode; [done|by intros v; apply IH|done|lia|apply type_depth_nonneg|lia].
  - assert (Forall (λ p, ∀ v, has_type p.2 v = true →
      value_reads (read_bytes p.2) (encode ik p.2 v) v (type_depth p.2) 0) fields) as Hfields.
    { pose proof Hok as Htypes. cbn [wire_type_ok] in Htypes.
      apply andb_true_iff in Htypes as [[_ Htypes]%andb_true_iff _].
      rewrite forallb_forall in Htypes. rewrite Forall_forall in IH |- *. intros p Hp v Hpv.
      apply IH; [done| |done]. by apply Htypes, list_elem_of_In. }
    intros rest t d ????. unfold mbind, reading_bind.
    pose proof (read_object_encode ik fields l Hok Hv Hfields) as Hobject. by rewrite Hobject.
Qed.

Lemma read_fields_encode ik (fields : list (field_spec * wire_type)) :
  wire_type_ok ik (TObject fields) = true →
  Forall (λ p, ∀ v, has_type p.2 v = true →
    value_reads (read_bytes p.2) (encode ik p.2 v) v (type_depth p.2) 0) fields.
Proof.
  cbn [wire_type_ok]. intros [[_ Htypes]%andb_true_iff _]%andb_true_iff.
  rewrite forallb_forall in Htypes. apply Forall_forall. intros p Hp v Hpv.
  apply read_bytes_encode; [|done]. by apply Htypes, list_elem_of_In.
Qed.

Lemma from_bytes_reads t bytes v leak nest :
  value_reads (read_bytes t) bytes v nest leak → nest < max_read_depth →
  Z.of_nat (length bytes) < u64_max → from_bytes t bytes = Ok v.
Proof.
  intros Hread Hnest Hlen. unfold from_bytes, new_reader.
  specialize (Hread [] 1 0). rewrite app_nil_r in Hread. rewrite Hread by lia. done.
Qed.

Lemma from_bytes_safe ik t source :
  wire_type_ok ik t = true → Forall is_byte source →
  match from_bytes t source with Ok v => has_type t v = true | Err e => e ≠ out_of_fuel end.
Proof.
  intros Hok Hsource. pose proof (safe_read_bytes ik t Hok (new_reader source) Hsource) as Hsafe.
  unfold from_bytes. destruct (read_bytes t (new_reader source)) as [[v r]|e]; [|done].
  unfold read_complete. destruct (tags_remaining r =? 0); [|done]. by destruct Hsafe.
Qed.

(** ** Properties *)

(** Whatever bytes arrive, only objects of the C++ type come out of
    [from_bytes]: integers of its width, blobs of its size, arrays within their
    limit, and every field that is not optional. *)
Theorem from_bytes_typed ik t source v :
  wire_type_ok ik t = true → Forall is_byte source → from_bytes t source = Ok v → has_type t v = true.
Proof. intros Hok Hsource Hv. pose proof (from_bytes_safe ik t source Hok Hsource) as H. by rewrite Hv in H. Qed.

(** Reading ends on every input: [from_bytes] never runs out of the fuel its
    loops have, one round for each byte to skip and for each key to read. *)
Theorem from_bytes_terminates ik t source :
  wire_type_ok ik t = true → Forall is_byte source → from_bytes t source ≠ Err out_of_fuel.
Proof.
  intros Hok Hsource Heq. pose proof (from_bytes_safe ik t source Hok Hsource) as H. by rewrite Heq in H.
Qed.

(** The writer implements the encoding: for an object of the type it fails
    with no exception, counts every element it announced, and leaves the bytes of
    [encode]: the smallest form of each integer and length, fields in order
    without the omitted ones, keys in the style of the writer. *)
Theorem to_bytes_refines ik t v :
  wire_type_ok ik t = true → has_type t v = true → to_bytes ik t v = Ok (encode ik t v).
Proof. apply to_bytes_encode. Qed.

(** C39: what is written is read back, with either style of keys, for types with
    less than [max_read_depth] nested containers. *)
Theorem from_to_bytes ik t v :
  wire_type_ok ik t = true → has_type t v = true → type_depth t < max_read_depth →
  Z.of_nat (length (encode ik t v)) < u64_max →
  ∃ bytes, to_bytes ik t v = Ok bytes ∧ from_bytes t bytes = Ok v.
Proof.
  intros Hok Hv Hdepth Hlen. exists (encode ik t v). split; [by apply to_bytes_encode|].
  eapply from_bytes_reads; [by apply read_bytes_encode|done|done].
Qed.

(** Fields an object does not know are skipped, whatever they are and
    wherever they stand, and the order of the fields does not matter: the object
    is read as without them.  But every container skipped counts as one the reader
    is in for the rest of the object. *)
Theorem unknown_fields_skipped ik (fields : list (field_spec * wire_type)) values es :
  wire_type_ok ik (TObject fields) = true → has_type (TObject fields) (VObject values) = true →
  Forall (entry_ok ik fields) es → NoDup (map fst (omap known es)) →
  (∀ e, e ∈ omap known es ↔ is_present (map fst fields) values e) →
  let bytes := encode_header ftag_object object_types (Z.of_nat (length es)) ++
    concat (map (entry_bytes ik fields) es) in
  Z.of_nat (length bytes) < u32_max → type_depth (TObject fields) + leak_of es < max_read_depth →
  from_bytes (TObject fields) bytes = Ok (VObject values).
Proof.
  intros Hok Hv Hes Hdistinct Hknown bytes Hlen Hdepth.
  assert (fields_ok ik fields (foldr (λ p n, Z.max (type_depth p.2) n) 0 fields)) as Hfields
    by (apply fields_ok_depth; [done|by apply read_fields_encode]).
  assert (Z.of_nat (length es) <= u32_max).
  { pose proof Hfields as (_ & _ & Hreads). cbn [wire_type_ok] in Hok.
    apply andb_true_iff in Hok as [[[Hspecs _]%andb_true_iff Htypes]%andb_true_iff _].
    pose proof (entries_length ik fields _ Hspecs Htypes Hreads es Hes).
    unfold bytes in Hlen. rewrite length_app in Hlen. lia. }
  eapply from_bytes_reads; [|exact Hdepth|unfold u32_max, u64_max in *; lia].
  intros rest t d ????. cbn [read_bytes]. unfold mbind, reading_bind.
  rewrite (read_object_entries ik fields _ values es Hfields Hv Hes Hdistinct Hknown) by done. done.
Qed.

(** ** Examples *)

Definition chars (s : string) : list Z := map (λ c, Z.of_N (Ascii.N_of_ascii c)) (String.list_ascii_of_string s).

Definition example_type : wire_type :=
  TObject [(FieldSpec (chars "url") 0 Required, TString);
           (FieldSpec (chars "token") 1 (Defaulted (VBytes [])), TString);
           (FieldSpec (chars "confirmations") 2 Required, TUint 4);
           (FieldSpec (chars "ids") 3 (Defaulted (VArray [])), TArray 8 10 (TBlob 8));
           (FieldSpec (chars "delta") 4 Optional, TInt 2)].

Definition example_value : value :=
  VObject [Some (VBytes (chars "http://a")); Some (VBytes []); Some (VInteger 300);
           Some (VArray [VBytes [1; 2; 3; 4; 5; 6; 7; 8]]); Some (VInteger (-300))].

Lemma from_bytes_typed_witness :
  from_bytes example_type (encode false example_type example_value) = Ok example_value ∧
  has_type example_type example_value = true.
Proof.
  split; [vm_compute; reflexivity|].
  apply (from_bytes_typed false example_type (encode false example_type example_value));
    [vm_compute; reflexivity| |vm_compute; reflexivity].
  vm_compute. repeat constructor; discriminate.
Defined.

Lemma from_bytes_terminates_witness : from_bytes example_type [0x80; 0x7f; 0x82] ≠ Err out_of_fuel.
Proof.
  apply (from_bytes_terminates true); [vm_compute; reflexivity|]. repeat constructor; vm_compute; done.
Defined.

Lemma to_bytes_refines_witness :
  to_bytes true example_type example_value = Ok (encode true example_type example_value) ∧
  length (encode true example_type example_value) = 31%nat.
Proof.
  split; [|vm_compute; reflexivity]. apply (to_bytes_refines true example_type example_value);
    vm_compute; reflexivity.
Defined.

Lemma from_to_bytes_witness :
  ∃ bytes, to_bytes true example_type example_value = Ok bytes ∧
    from_bytes example_type bytes = Ok example_value.
Proof. apply (from_to_bytes true example_type example_value); vm_compute; reflexivity. Defined.

(** An object of a later version, its fields in another order. *)
Definition example_entries : list entry :=
  [Unknown 9 (chars "nine") [0x92; 0x90; 0x81; 0x01; 0xc0] 3; Known 2 (VInteger 300);
   Unknown 10 (chars "ten") [0xd4; 7; 8] 0; Known 0 (VBytes (chars "http://a"))].

Definition example_short : list (option value) :=
  [Some (VBytes (chars "http://a")); Some (VBytes []); Some (VInteger 300); Some (VArray []); None].

Lemma example_nested : msgpack_values 1 [0x92; 0x90; 0x81; 0x01; 0xc0] 3.
Proof.
  apply (values_container [0x92] 2 0); [by apply header_fixed|].
  apply (values_container [0x90] 0 1); [by apply header_fixed|].
  apply (values_container [0x81] 2 0); [by apply header_fixed|].
  apply (values_scalar [0x01]); [by apply scalar_fixed|].
  apply (values_scalar [0xc0]); [by apply scalar_fixed|constructor].
Qed.

Lemma unknown_fields_skipped_witness :
  from_bytes example_type (encode_header ftag_object object_types 4 ++
    concat (map (entry_bytes false (match example_type with TObject fields => fields | _ => [] end))
      example_entries)) = Ok (VObject example_short).
Proof.
  unfold example_type.
  apply (unknown_fields_skipped false _ example_short example_entries);
    [vm_compute; reflexivity|vm_compute; reflexivity| | | |vm_compute; reflexivity|vm_compute; reflexivity].
  - constructor; [|constructor; [|constructor; [|constructor; [|constructor]]]].
    + split; [vm_compute; split; discriminate|]. split; [vm_compute; discriminate|].
      split; [apply example_nested|vm_compute; reflexivity].
    + eexists _, _. split; [reflexivity|vm_compute; reflexivity].
    + split; [vm_compute; split; discriminate|]. split; [vm_compute; discriminate|].
      split; [|vm_compute; reflexivity].
      apply (values_scalar [0xd4; 7; 8]); [by apply scalar_fixed|constructor].
    + eexists _, _. split; [reflexivity|vm_compute; reflexivity].
  - vm_compute. repeat constructor; set_solver.
  - intros [i v]. change (omap known example_entries) with
      [(2%nat, VInteger 300); (0%nat, VBytes (chars "http://a"))].
    unfold is_present; simpl. rewrite !elem_of_cons, elem_of_nil. split.
    + intros [[= -> ->]|[[= -> ->]|[]]]; eexists; repeat split; vm_compute; reflexivity.
    + intros (f & Hf & Hv & Hav). do 5 (destruct i as [|i]; [simpl in *; simplify_eq; try auto; vm_compute in Hav; done|]).
      done.
Defined.

(** 99 skipped arrays are the nesting an object may have. *)
Lemma skipped_containers_add_up :
  from_bytes (TObject []) (0xde :: 0 :: 98 :: concat (replicate 98 [1; 0x90])) = Ok (VObject []) ∧
  from_bytes (TObject []) (0xde :: 0 :: 99 :: concat (replicate 99 [1; 0x90])) =
    Err (schema schema_maximum_depth).
Proof. split; vm_compute; reflexivity. Qed.
