(* ===== verification/Json.v ===== *)
(** * Reading JSON (src/src/wire/json/read.cpp, wire/read.h)

    The requests of wallets and administrators are JSON.  The reader takes one token
    after the other off a string; scalars, keys and values that are skipped are
    parsed by rapidjson, whose events a handler accepts or rejects, and hexadecimal
    strings are cut out and converted by epee.  Both libraries are parameters
    ([JsonLibrary], [JsonLaws]).  The templates of wire/read.h that read integers,
    arrays and objects are the same as for msgpack ([Wire]), but the number of
    elements of an array is not known before; a C++ type is a [json_type].

    Shown is that reading ends on every input, with an object of the type, and closes
    what it opens ([json_from_bytes_safe]), and that every JSON text of an object is
    read as that object: with white space between any tokens, fields in any order,
    unknown fields in between and optional ones left out ([json_texts_read]). *)

From S2P Require Import Prelude Wire.

(** ** Events and their handler *)

(** What rapidjson calls the handler with; a string is its bytes, and [SaxDouble]
    has the bits of a double.  [Int] and [Int64] are for negative numbers. *)
Inductive sax_event :=
  | SaxNull
  | SaxBool (b : bool)
  | SaxInt (z : Z)
  | SaxUint (z : Z)
  | SaxDouble (bits : Z)
  | SaxString (s : list Z)
  | SaxKey (s : list Z)
  | SaxStartArray | SaxEndArray | SaxStartObject | SaxEndObject.

(** The union [value]. *)
Inductive sax_value :=
  | Unset
  | UBoolean (b : bool)
  | UInteger (z : Z)
  | UUnsigned (z : Z)
  | UNumber (bits : Z)
  | UString (s : list Z).

(** What is expected; [Anything] is [schema::none]. *)
Inductive expected := Anything | Only (e : schema_error).

Record rapidjson_sax := RapidjsonSax {
  expected_ : expected;
  negative : bool;
  sax_value_ : sax_value }.

Definition new_sax (e : expected) : rapidjson_sax := RapidjsonSax e false Unset.

(** How a parse ends, unless the handler stops it. *)
Inductive parse_end :=
  | ParseDone (consumed : nat)
  | ParseError (e : json_error).

(** rapidjson: [Parse] with [kParseStopWhenDoneFlag], [SkipWhitespace] by the number
    of bytes it skips, and the double of an integer; epee: [from_hex::to_buffer] into
    a buffer of a size. *)
Class JsonLibrary := {
  parse : list Z → list sax_event * parse_end;
  skip_whitespace : list Z → nat;
  double_of : Z → Z;
  to_buffer : nat → list Z → option (list Z) }.

Section reader.
Context `{JsonLibrary}.

Definition expects (e : schema_error) (h : rapidjson_sax) : bool :=
  match expected_ h with Anything => true | Only e' => bool_decide (e' = e) end.

Definition set_value (v : sax_value) (h : rapidjson_sax) : rapidjson_sax :=
  RapidjsonSax (expected_ h) (negative h) v.

(** [Int64] and [Uint64]: the branches of their [switch]. *)
Definition set_integer (as_integer : sax_value) (z : Z) (h : rapidjson_sax) : option rapidjson_sax :=
  match expected_ h with
  | Only schema_integer => Some (set_value as_integer h)
  | Only schema_number => Some (set_value (UNumber (double_of z)) h)
  | Only _ => None
  | Anything => Some h
  end.

(** The handler: [None] when it returns false. *)
Definition handle_event (e : sax_event) (h : rapidjson_sax) : option rapidjson_sax :=
  let only (b : bool) h := if b then Some h else None in
  let nothing := match expected_ h with Anything => true | Only _ => false end in
  match e with
  | SaxNull | SaxStartArray | SaxEndArray | SaxStartObject | SaxEndObject => only nothing h
  | SaxBool b => only (expects schema_boolean h) (set_value (UBoolean b) h)
  | SaxInt z => set_integer (UInteger z) z (RapidjsonSax (expected_ h) true (sax_value_ h))
  | SaxUint z => set_integer (UUnsigned z) z h
  | SaxDouble d => only (expects schema_number h) (set_value (UNumber d) h)
  | SaxString s | SaxKey s => only (expects schema_string h) (set_value (UString s) h)
  end.

Fixpoint handle_events (es : list sax_event) (h : rapidjson_sax) : option rapidjson_sax :=
  match es with
  | [] => Some h
  | e :: es => h ← handle_event e h; handle_events es h
  end.

(** ** The reader *)

Record json_reader := JsonReader { j_remaining : list Z; j_depth : Z }.

Definition jreading (A : Type) : Type := json_reader → expect (A * json_reader).

#[export] Instance jreading_ret : MRet jreading := λ A a r, Ok (a, r).
#[export] Instance jreading_bind : MBind jreading := λ A B f m r,
  match m r with
  | Ok (a, r) => f a r
  | Err e => Err e
  end.

Definition jthrow {A} (e : error) : jreading A := λ _, Err e.
Definition jcheck (c : bool) (e : error) : jreading unit := if c then mret tt else jthrow e.
Definition jlift {A} (x : expect A) : jreading A := λ r,
  match x with Ok a => Ok (a, r) | Err e => Err e end.

Definition j_remove_prefix (n : nat) : jreading unit := λ r,
  Ok (tt, JsonReader (drop n (j_remaining r)) (j_depth r)).
Definition j_size : jreading Z := λ r, Ok (Z.of_nat (length (j_remaining r)), r).

Definition max_read_depth : Z := 100.

Definition j_increment_depth : jreading unit := λ r,
  if j_depth r + 1 =? max_read_depth then Err (schema schema_maximum_depth)
  else Ok (tt, JsonReader (j_remaining r) (j_depth r + 1)).

(** [end_array] and [end_object] *)
Definition j_decrement_depth : jreading unit := λ r,
  if j_depth r =? 0 then Err logic_error else Ok (tt, JsonReader (j_remaining r) (j_depth r - 1)).

(** The error of [throw_json_error] when the handler stopped the parse; the handler
    that expects nothing never does. *)
Definition rejected (e : expected) : error :=
  match e with Only e => schema e | Anything => undefined_behaviour end.

Definition read_next_value (h : rapidjson_sax) : jreading rapidjson_sax := λ r,
  let '(events, end_) := parse (j_remaining r) in
  match handle_events events h with
  | None => Err (rejected (expected_ h))
  | Some h =>
    match end_ with
    | ParseError e => Err (json e)
    | ParseDone consumed => Ok (h, JsonReader (drop consumed (j_remaining r)) (j_depth r))
    end
  end.

(** The next token, 0 at the end. *)
Definition get_next_token : jreading Z := λ r,
  let rest := drop (skip_whitespace (j_remaining r)) (j_remaining r) in
  Ok (hd 0 rest, JsonReader rest (j_depth r)).

(** The bytes before the first quotation mark ([memchr]) and those after it. *)
Fixpoint before_quote (l : list Z) : option (list Z * list Z) :=
  match l with
  | [] => None
  | b :: l => if b =? 34 then Some ([], l) else '(s, rest) ← before_quote l; Some (b :: s, rest)
  end.

Definition cut_string : jreading (list Z) := λ r,
  match before_quote (j_remaining r) with
  | None => Err (json miss_quotation_mark)
  | Some (s, rest) => Ok (s, JsonReader rest (j_depth r))
  end.

Definition get_next_string : jreading (list Z) :=
  next ← get_next_token;
  _ ← jcheck (next =? 34) (schema schema_string);
  _ ← j_remove_prefix 1;
  cut_string.

Definition j_skip_value : jreading unit := _ ← read_next_value (new_sax Anything); mret tt.

(** Reading a member of the union that was not written. *)
Definition unset {A} : jreading A := jthrow undefined_behaviour.

Definition j_boolean : jreading bool :=
  h ← read_next_value (new_sax (Only schema_boolean));
  match sax_value_ h with UBoolean b => mret b | _ => unset end.

Definition imax : Z := 2 ^ 63 - 1.

Definition j_integer : jreading Z :=
  h ← read_next_value (new_sax (Only schema_integer));
  match negative h, sax_value_ h with
  | true, UInteger z => mret z
  | false, UUnsigned z => _ ← jcheck (negb (imax <? z)) (schema schema_smaller_integer); mret z
  | _, _ => unset
  end.

Definition j_unsigned_integer : jreading Z :=
  h ← read_next_value (new_sax (Only schema_integer));
  match negative h, sax_value_ h with
  | false, UUnsigned z => mret z
  | true, UInteger z => _ ← jcheck (negb (z <? 0)) (schema schema_larger_integer); mret z
  | _, _ => unset
  end.

(** An integer in a string. *)
Definition safe_unsigned_integer : jreading Z :=
  next ← get_next_token;
  _ ← jcheck (next =? 34) (schema schema_string);
  _ ← j_remove_prefix 1;
  out ← j_unsigned_integer;
  next ← get_next_token;
  _ ← jcheck (next =? 34) (json miss_quotation_mark);
  _ ← j_remove_prefix 1;
  mret out.

Definition j_real : jreading Z :=
  h ← read_next_value (new_sax (Only schema_number));
  match sax_value_ h with UNumber d => mret d | _ => unset end.

Definition j_string : jreading (list Z) :=
  h ← read_next_value (new_sax (Only schema_string));
  match sax_value_ h with UString s => mret s | _ => unset end.

(** Hexadecimal bytes, of any number or for a buffer of [n]. *)
Definition j_binary : jreading (list Z) :=
  value ← get_next_string;
  match to_buffer (length value / 2) value with
  | Some out => mret out
  | None => jthrow (schema schema_binary)
  end.

Definition j_blob (n : nat) : jreading (list Z) :=
  value ← get_next_string;
  match to_buffer n value with
  | Some out => mret out
  | None => jthrow (schema schema_fixed_binary)
  end.

(** [start_array] and [start_object] return 0: the number of elements is unknown. *)
Definition j_start (opening : Z) (e : schema_error) : jreading unit :=
  next ← get_next_token;
  _ ← jcheck (next =? opening) (schema e);
  _ ← j_remove_prefix 1;
  j_increment_depth.

(** [is_array_end]; [first] tells that [count] is 0, as it is before the first
    element only. *)
Definition j_is_array_end (first : bool) : jreading bool :=
  next ← get_next_token;
  _ ← jcheck (negb (next =? 0)) (json miss_comma_or_bracket);
  if next =? 93 then _ ← j_remove_prefix 1; mret true
  else if first then mret false
  else
    _ ← jcheck (next =? 44) (json miss_comma_or_bracket);
    _ ← j_remove_prefix 1;
    mret false.

(** [process_key]: the position of the name, or [None] past the end. *)
Definition process_key (map : list (list Z)) (name : list Z) : option nat :=
  fst <$> list_find (λ n, n = name) map.

(** [key]; [first] tells that [state] is 0, and is false after a key. *)
Fixpoint j_key (fuel : nat) (map : list (list Z)) (first : bool) : jreading (option nat) :=
  match fuel with
  | O => jthrow out_of_fuel
  | S fuel =>
    next ← get_next_token;
    _ ← jcheck (negb (next =? 0)) (json miss_comma_or_curly);
    if next =? 125 then _ ← j_remove_prefix 1; mret None
    else
      _ ← (if first then mret tt
           else _ ← jcheck (next =? 44) (json miss_comma_or_curly); j_remove_prefix 1);
      h ← read_next_value (new_sax (Only schema_string));
      name ← match sax_value_ h with UString s => mret s | _ => unset end;
      next ← get_next_token;
      _ ← jcheck (next =? 58) (json miss_colon);
      _ ← j_remove_prefix 1;
      match process_key map name with
      | Some index => mret (Some index)
      | None => _ ← j_skip_value; j_key fuel map false
      end
  end.

(** ** Types *)

Definition j_cast_signed (bytes : nat) (z : Z) : jreading Z :=
  let max := 2 ^ (8 * Z.of_nat bytes - 1) in
  if (z <? - max) || (max - 1 <? z) then
    jthrow (schema (if z <? 0 then schema_larger_integer else schema_smaller_integer))
  else mret z.

Definition j_cast_unsigned (bytes : nat) (z : Z) : jreading Z :=
  if 2 ^ (8 * Z.of_nat bytes) - 1 <? z then jthrow (schema schema_smaller_integer) else mret z.

End reader.

(** The types of requests.  [JSafe] is [safe_uint64]; [JArray] has the
    [min_element_size] and [max_element_count], and [safe_uint64_array] has none;
    [JFixed] is a [std::array]; [JChecked] is a type whose [read_bytes] tests what
    was read. *)
Inductive json_type :=
  | JBool | JReal | JString | JBinary | JSafe
  | JInt (bytes : nat) | JUint (bytes : nat) | JBlob (size : nat)
  | JArray (min_size : Z) (max_count : option Z) (element : json_type)
  | JFixed (count : nat) (element : json_type)
  | JChecked (ok : value → bool) (e : schema_error) (t : json_type)
  | JObject (fields : list (field_spec * json_type)).

Section types.
Context `{JsonLibrary}.

(** The loop of [array_unchecked]: [start_bytes] remained before the first element. *)
Fixpoint j_array_loop (fuel : nat) (min_size : Z) (max_count : option Z) (read : jreading value) (start_bytes : Z)
    (dest : list value) : jreading (list value) :=
  match fuel with
  | O => jthrow out_of_fuel
  | S fuel =>
    end_ ← j_is_array_end (bool_decide (dest = []));
    if (end_ : bool) then mret dest
    else
      _ ← jcheck (match max_count with Some m => negb (m <=? Z.of_nat (length dest)) | None => true end)
        (schema schema_array_max_element);
      v ← read;
      let dest := dest ++ [v] in
      size ← j_size;
      _ ← jcheck (negb ((start_bytes - size) / Z.of_nat (length dest) <? min_size))
        (schema schema_array_min_size);
      j_array_loop fuel min_size max_count read start_bytes dest
  end.

(** [array_unchecked], and the loop of [safe_uint64_array]. *)
Definition j_array (min_size : Z) (max_count : option Z) (read : jreading value) : jreading (list value) :=
  _ ← j_start 91 schema_array;
  size ← j_size;
  dest ← j_array_loop (S (Z.to_nat size)) min_size max_count read size [];
  _ ← j_decrement_depth;
  mret dest.

(** [read_bytes] of a [std::array]. *)
Fixpoint j_fixed_loop (count : nat) (read : jreading value) (dest : list value) : jreading (list value) :=
  end_ ← j_is_array_end (bool_decide (dest = []));
  match count with
  | O => _ ← jcheck end_ (schema schema_array); mret dest
  | S count =>
    _ ← jcheck (negb end_) (schema schema_array);
    v ← read;
    j_fixed_loop count read (dest ++ [v])
  end.

Definition j_fixed (count : nat) (read : jreading value) : jreading (list value) :=
  _ ← j_start 91 schema_array;
  dest ← j_fixed_loop count read [];
  _ ← j_decrement_depth;
  mret dest.

(** [tracker::try_read] *)
Definition j_try_read (read : jreading value) (index : nat) (dest : list (option value)) :
    jreading (list (option value)) :=
  _ ← jcheck (bool_decide (mjoin (dest !! index) = None)) (schema schema_invalid_key);
  v ← read;
  mret (<[index := Some v]> dest).

(** The loop of [wire_read::object]. *)
Fixpoint j_object_loop (fuel : nat) (map : list (list Z)) (reads : list (jreading value)) (first : bool)
    (dest : list (option value)) : jreading (list (option value)) :=
  match fuel with
  | O => jthrow out_of_fuel
  | S fuel =>
    size ← j_size;
    next ← j_key (S (Z.to_nat size)) map first;
    match next with
    | None => mret dest
    | Some index =>
      match reads !! index with
      | Some read => dest ← j_try_read read index dest; j_object_loop fuel map reads false dest
      | None => jthrow (schema schema_invalid_key)
      end
    end
  end.

(** [wire_read::object] *)
Definition j_object (fields : list (field_spec * jreading value)) : jreading (list (option value)) :=
  _ ← j_start 123 schema_object;
  size ← j_size;
  dest ← j_object_loop (S (Z.to_nat size)) (map (λ p, f_name p.1) fields) (map snd fields) true
    (replicate (length fields) None);
  _ ← jcheck (forallb (λ p, negb (is_required p.1 && bool_decide (p.2 = None))) (zip (map fst fields) dest))
        (schema schema_missing_key);
  _ ← j_decrement_depth;
  mret (zip_with reset_omitted (map fst fields) dest).

(** [read_bytes] *)
Fixpoint json_read (t : json_type) : jreading value :=
  match t with
  | JBool => b ← j_boolean; mret (VBool b)
  | JReal => z ← j_real; mret (VReal z)
  | JString => l ← j_string; mret (VBytes l)
  | JBinary => l ← j_binary; mret (VBytes l)
  | JSafe => z ← safe_unsigned_integer; z ← j_cast_unsigned 8 z; mret (VInteger z)
  | JInt bytes => z ← j_integer; z ← j_cast_signed bytes z; mret (VInteger z)
  | JUint bytes => z ← j_unsigned_integer; z ← j_cast_unsigned bytes z; mret (VInteger z)
  | JBlob size => l ← j_blob size; mret (VBytes l)
  | JArray min_size max_count t => l ← j_array min_size max_count (json_read t); mret (VArray l)
  | JFixed count t => l ← j_fixed count (json_read t); mret (VArray l)
  | JChecked ok e t => v ← json_read t; _ ← jcheck (ok v) (schema e); mret v
  | JObject fields => l ← j_object (map (λ p, (p.1, json_read p.2)) fields); mret (VObject l)
  end.

(** [wire_read::from_bytes] with [json_reader]: bytes after the value are ignored. *)
Definition j_check_complete : jreading unit := λ r,
  if j_depth r =? 0 then Ok (tt, r) else Err (json unspecific_syntax).

Definition json_from_bytes {A} (read : jreading A) (source : list Z) : expect A :=
  match (a ← read; _ ← j_check_complete; mret a) (JsonReader source 0) with
  | Ok (a, _) => Ok a
  | Err e => Err e
  end.

End types.

(** The handler that expects nothing takes everything. *)
Lemma handle_anything `{JsonLibrary} es : ∀ h, expected_ h = Anything → is_Some (handle_events es h).
Proof.
  induction es as [|e es IH]; intros h Hh; [by eexists|]. cbn.
  assert (∃ h', handle_event e h = Some h' ∧ expected_ h' = Anything) as (h' & -> & Hh').
  { destruct e; unfold handle_event, set_integer, expects; cbn; rewrite Hh; eauto. }
  by apply IH.
Qed.

(** ** What the libraries promise *)

Definition is_blank (b : Z) : Prop := b = 32 ∨ b = 9 ∨ b = 10 ∨ b = 13.
Definition blank (w : list Z) : Prop := Forall is_blank w.

Definition u64_fits (z : Z) : bool := (0 <=? z) && (z <=? u64_max).

(** A scalar, in range; and what begins an array or an object. *)
Definition scalar (e : sax_event) : bool :=
  match e with
  | SaxNull | SaxBool _ => true
  | SaxInt z => (- 2 ^ 63 <=? z) && (z <=? imax)
  | SaxUint z | SaxDouble z => u64_fits z
  | SaxString s => forallb byteb s
  | _ => false
  end.

Definition opens (e : sax_event) : bool :=
  match e with SaxStartArray | SaxStartObject => true | _ => false end.

Class JsonLaws `{JsonLibrary} := {
  skip_bound l : (skip_whitespace l <= length l)%nat;
  parse_bound l es n : parse l = (es, ParseDone n) → (0 < n <= length l)%nat;
  parse_events l es n : parse l = (es, ParseDone n) →
    match es with
    | [] => False
    | [e] => scalar e = true
    | e :: _ => opens e = true
    end;
  double_fits z : u64_fits (double_of z) = true;
  to_buffer_fits n s l : to_buffer n s = Some l → length l = n ∧ forallb byteb l = true }.

(** The bytes a token can begin with. *)
Definition starts (rest : list Z) : Prop :=
  match rest with [] => True | b :: _ => ¬ is_blank b ∧ b ≠ 239 ∧ b ≠ 0 end.

(** What can follow a number, [true], [false] and [null]. *)
Definition ends (rest : list Z) : Prop :=
  match rest with [] => True | b :: _ => is_blank b ∨ b ∈ [34; 44; 58; 93; 125] end.

(** [spells es s]: [s] is the JSON text of a value that is parsed with these events,
    without white space around it. *)
Class JsonTexts `{JsonLibrary} := {
  spells : list sax_event → list Z → Prop;
  spells_starts es s : spells es s → s ≠ [] ∧ starts s ∧ hd 0 s ∉ [93; 125];
  parse_spells es s w rest : spells es s → blank w → ends rest →
    parse (w ++ s ++ rest) = (es, ParseDone (length w + length s));
  skip_blank w rest : blank w → starts rest → skip_whitespace (w ++ rest) = length w }.

(** ** Reading ends *)

(** An object of a C++ type. *)
Fixpoint has_json_type (t : json_type) (v : value) {struct t} : bool :=
  match t, v with
  | JBool, VBool _ => true
  | JReal, VReal z => u64_fits z
  | JString, VBytes l | JBinary, VBytes l => forallb byteb l
  | JSafe, VInteger z => u64_fits z
  | JInt bytes, VInteger z =>
    (- 2 ^ (8 * Z.of_nat bytes - 1) <=? z) && (z <? 2 ^ (8 * Z.of_nat bytes - 1))
  | JUint bytes, VInteger z => (0 <=? z) && (z <? 2 ^ (8 * Z.of_nat bytes))
  | JBlob size, VBytes l => forallb byteb l && (length l =? size)%nat
  | JArray _ max_count t, VArray l =>
    forallb (has_json_type t) l && match max_count with Some m => Z.of_nat (length l) <=? Z.max 0 m | None => true end
  | JFixed count t, VArray l => forallb (has_json_type t) l && (length l =? count)%nat
  | JChecked ok _ t, v => has_json_type t v && ok v
  | JObject fields, VObject l => fields_have_types (map (λ p, (p.1, has_json_type p.2)) fields) l
  | _, _ => false
  end.

(** Strings of a type are quoted by [before_quote] when hexadecimal only, and
    defaults have the type of their field. *)
Fixpoint json_type_ok (t : json_type) : bool :=
  match t with
  | JArray _ _ t | JFixed _ t | JChecked _ _ t => json_type_ok t
  | JObject fields =>
    forallb (λ p, json_type_ok p.2 &&
      match f_presence p.1 with Defaulted default => has_json_type p.2 default | _ => true end) fields
  | _ => true
  end.

Section json_type_ind.
Context (P : json_type → Prop).
Context (Hbool : P JBool) (Hreal : P JReal) (Hstring : P JString) (Hbinary : P JBinary) (Hsafe : P JSafe)
  (Hint : ∀ n, P (JInt n)) (Huint : ∀ n, P (JUint n)) (Hblob : ∀ n, P (JBlob n))
  (Harray : ∀ m k t, P t → P (JArray m k t)) (Hfixed : ∀ n t, P t → P (JFixed n t))
  (Hchecked : ∀ ok e t, P t → P (JChecked ok e t))
  (Hobject : ∀ fields, Forall (λ p, P p.2) fields → P (JObject fields)).

Fixpoint json_type_ind' (t : json_type) : P t :=
  match t with
  | JBool => Hbool | JReal => Hreal | JString => Hstring | JBinary => Hbinary | JSafe => Hsafe
  | JInt n => Hint n | JUint n => Huint n | JBlob n => Hblob n
  | JArray m k t => Harray m k t (json_type_ind' t)
  | JFixed n t => Hfixed n t (json_type_ind' t)
  | JChecked ok e t => Hchecked ok e t (json_type_ind' t)
  | JObject fields => Hobject fields
      ((fix go fields : Forall (λ p, P p.2) fields :=
        match fields with
        | [] => Forall_nil_2 _
        | p :: fields => Forall_cons_2 _ _ _ (json_type_ind' p.2) (go fields)
        end) fields)
  end.
End json_type_ind.

Section safety.
Context `{JsonLaws}.

(** An error the reader throws; the last one is a [std::logic_error], which
    [from_bytes] does not catch. *)
Definition benign (e : error) : Prop :=
  match e with schema _ | json _ | logic_error => True | _ => False end.

(** A [wire::exception], whose code [from_bytes] returns. *)
Definition caught (e : error) : Prop := match e with schema _ | json _ => True | _ => False end.

(** [m] reads at least [n] bytes, and what it gives satisfies [Q]. *)
Definition takes {A} (n : nat) (m : jreading A) (Q : A → Prop) (r : json_reader) : Prop :=
  match m r with
  | Ok (a, r') => Q a ∧ (n + length (j_remaining r') <= length (j_remaining r))%nat
  | Err e => benign e
  end.

Lemma takes_bind {A B} n n' k (m : jreading A) (f : A → jreading B) Q R r :
  takes n m Q r → (∀ a r', Q a → (n + length (j_remaining r') <= length (j_remaining r))%nat → takes n' (f a) R r') →
  (k <= n + n')%nat → takes k (m ≫= f) R r.
Proof.
  unfold takes, mbind, jreading_bind. intros Hm Hf Hk. destruct (m r) as [[a r']|]; [|done].
  destruct Hm as [Ha Hle]. specialize (Hf a r' Ha Hle). destruct (f a r') as [[b r2]|]; [|done].
  destruct Hf. split; [done|lia].
Qed.

Lemma takes_mono {A} n k (m : jreading A) (Q R : A → Prop) r :
  takes n m Q r → (∀ a, Q a → R a) → (k <= n)%nat → takes k m R r.
Proof. unfold takes. destruct (m r) as [[a r']|]; [|done]. intros [? ?] HQ Hk. split; [auto|lia]. Qed.

Lemma takes_ret {A} (a : A) (Q : A → Prop) r : Q a → takes 0 (mret a) Q r.
Proof. intros Ha. split; [done|lia]. Qed.

Lemma takes_check c e (Q : Prop) n r : benign e → (c = true → Q) → (n = 0)%nat → takes n (jcheck c e) (λ _, Q) r.
Proof. intros He Hc ->. unfold jcheck. destruct c; [split; [auto|cbn; lia]|done]. Qed.

Lemma takes_remove n r : takes 0 (j_remove_prefix n) (λ _, True) r.
Proof. split; [done|]. cbn. rewrite length_drop. lia. Qed.

Lemma takes_token r : takes 0 get_next_token (λ next, True) r.
Proof. split; [done|]. cbn. rewrite length_drop. lia. Qed.

Lemma takes_size r : takes 0 j_size (λ n, n = Z.of_nat (length (j_remaining r))) r.
Proof. split; [done|cbn; lia]. Qed.

Lemma takes_increment r : takes 0 j_increment_depth (λ _, True) r.
Proof. unfold takes, j_increment_depth. destruct (_ =? _); [done|split; [done|cbn; lia]]. Qed.

Lemma takes_decrement r : takes 0 j_decrement_depth (λ _, True) r.
Proof. unfold takes, j_decrement_depth. destruct (_ =? _); [done|split; [done|cbn; lia]]. Qed.

(** A token that is not the end is taken off. *)
Lemma takes_this_token {A} (b : Z) e (f : unit → jreading A) n Q r :
  benign e → b ≠ 0 → (∀ r', (1 + length (j_remaining r') <= length (j_remaining r))%nat → takes n (f tt) Q r') →
  takes (S n) (next ← get_next_token; _ ← jcheck (next =? b) e; _ ← j_remove_prefix 1; f tt) Q r.
Proof.
  intros He Hb Hf. unfold takes, mbind, jreading_bind, get_next_token, jcheck.
  set (rest := drop _ _).
  assert (length rest <= length (j_remaining r))%nat as Hlen by (unfold rest; rewrite length_drop; lia).
  destruct (Z.eqb_spec (hd 0 rest) b) as [Hh|]; [|done]. cbn.
  destruct rest as [|b' rest]; cbn in Hh; [congruence|]. cbn in Hlen. rewrite skipn_cons, drop_0.
  specialize (Hf (JsonReader rest (j_depth r))). unfold takes in Hf. cbn in Hf.
  destruct (f tt _) as [[a r']|]; [|apply Hf; lia]. destruct Hf; [lia|]. split; [done|lia].
Qed.

(** What a handler that expects a scalar has then. *)
Definition sax_ok (e : schema_error) (h : rapidjson_sax) : Prop :=
  match e with
  | schema_boolean => ∃ b, sax_value_ h = UBoolean b
  | schema_string => ∃ s, sax_value_ h = UString s ∧ forallb byteb s = true
  | schema_number => ∃ d, sax_value_ h = UNumber d ∧ u64_fits d = true
  | schema_integer =>
    (negative h = true ∧ ∃ z, sax_value_ h = UInteger z ∧ - 2 ^ 63 <= z <= imax) ∨
    (negative h = false ∧ ∃ z, sax_value_ h = UUnsigned z ∧ 0 <= z <= u64_max)
  | _ => True
  end.

Lemma takes_next_value e r : e ∈ [schema_boolean; schema_string; schema_number; schema_integer] →
  takes 1 (read_next_value (new_sax (Only e))) (sax_ok e) r.
Proof.
  intros He. unfold takes, read_next_value. destruct (parse (j_remaining r)) as [es end_] eqn:Hp.
  destruct (handle_events es (new_sax (Only e))) as [h|] eqn:Hh.
  2: { by split. }
  destruct end_ as [n|]; [|done]. pose proof (parse_bound _ _ _ Hp) as Hb.
  pose proof (parse_events _ _ _ Hp) as Hes. cbn. rewrite length_drop. split; [|lia].
  destruct es as [|ev es]; [done|]. destruct es as [|ev' es].
  2: { exfalso. cbn in Hh. destruct ev; try done; cbn in Hh; set_solver. }
  cbn in Hh. destruct (handle_event ev _) as [h'|] eqn:Hev; [|done]. injection Hh as ->.
  destruct ev; cbn in Hes; try done; unfold handle_event, set_integer, expects in Hev; cbn in Hev;
    repeat (apply elem_of_cons in He as [->|He]; [cbn in Hev; try done|]); try by apply elem_of_nil in He.
  all: injection Hev as <-; cbn; eauto using double_fits.
  - left. split; [done|]. eexists; split; [done|]. apply andb_prop in Hes as [?%Z.leb_le ?%Z.leb_le]. done.
  - right. split; [done|]. eexists; split; [done|]. apply andb_prop in Hes as [?%Z.leb_le ?%Z.leb_le]. done.
Qed.

Lemma takes_skip_value r : takes 1 j_skip_value (λ _, True) r.
Proof.
  unfold j_skip_value. eapply takes_bind with (n := 1%nat) (n' := 0%nat) (Q := λ _, True);
    [|intros; by apply takes_ret|lia].
  unfold takes, read_next_value. destruct (parse (j_remaining r)) as [es end_] eqn:Hp.
  destruct (handle_anything es (new_sax Anything) eq_refl) as [h ->].
  destruct end_ as [n|]; [|done]. pose proof (parse_bound _ _ _ Hp). cbn. rewrite length_drop. split; [done|lia].
Qed.

Lemma benign_schema e : benign (schema e).
Proof. done. Qed.
Lemma benign_json e : benign (json e).
Proof. done. Qed.
Hint Resolve benign_schema benign_json : core.

Lemma takes_string r : takes 1 get_next_string (λ _, True) r.
Proof.
  unfold get_next_string. apply (takes_this_token 34 _ (λ _, cut_string)); [done..|]. intros r' _.
  unfold takes, cut_string. destruct (before_quote (j_remaining r')) as [[s rest]|] eqn:Hq; [|done]. cbn. split; [done|].
  revert s rest Hq. induction (j_remaining r') as [|b l IH]; intros s rest; cbn; [done|].
  destruct (b =? 34); [intros [= <- <-]; lia|]. destruct (before_quote l) as [[s' rest']|]; cbn; [|done].
  intros [= <- <-]. specialize (IH _ _ eq_refl). lia.
Qed.

Lemma takes_union {A} e (f : rapidjson_sax → jreading A) (Q : A → Prop) r :
  e ∈ [schema_boolean; schema_string; schema_number; schema_integer] →
  (∀ h r', sax_ok e h → takes 0 (f h) Q r') → takes 1 (read_next_value (new_sax (Only e)) ≫= f) Q r.
Proof. intros He Hf. eapply (takes_bind 1 0); [by apply takes_next_value|auto|lia]. Qed.

Lemma takes_boolean r : takes 1 j_boolean (λ _, True) r.
Proof. apply takes_union; [set_solver|]. intros h r' [b ->]. by apply takes_ret. Qed.

Lemma takes_real r : takes 1 j_real (λ z, u64_fits z = true) r.
Proof. apply takes_union; [set_solver|]. intros h r' (d & -> & Hd). by apply takes_ret. Qed.

Lemma takes_string_value r : takes 1 j_string (λ l, forallb byteb l = true) r.
Proof. apply takes_union; [set_solver|]. intros h r' (l & -> & Hl). by apply takes_ret. Qed.

Lemma takes_integer r : takes 1 j_integer (λ z, - 2 ^ 63 <= z <= imax) r.
Proof.
  apply takes_union; [set_solver|]. intros h r' [(-> & z & -> & Hz)|(-> & z & -> & Hz)]; [by apply takes_ret|].
  eapply (takes_bind 0 0); [by apply takes_check with (Q := z <= imax); [auto|intros ?%negb_true_iff%Z.ltb_ge|]| |lia].
  intros ? r2 Hle _. cbn in Hle. apply takes_ret. lia.
Qed.

Lemma takes_unsigned r : takes 1 j_unsigned_integer (λ z, 0 <= z <= u64_max) r.
Proof.
  apply takes_union; [set_solver|]. intros h r' [(-> & z & -> & Hz)|(-> & z & -> & Hz)]; [|by apply takes_ret].
  eapply (takes_bind 0 0); [by apply takes_check with (Q := 0 <= z); [auto|intros ?%negb_true_iff%Z.ltb_ge|]| |lia].
  intros ? r2 Hle _. cbn in Hle. apply takes_ret. unfold imax, u64_max in *. lia.
Qed.

Lemma takes_safe r : takes 1 safe_unsigned_integer (λ z, 0 <= z <= u64_max) r.
Proof.
  unfold safe_unsigned_integer. apply (takes_this_token 34 _ (λ _, out ← j_unsigned_integer;
    next ← get_next_token; _ ← jcheck (next =? 34) (json miss_quotation_mark); _ ← j_remove_prefix 1; mret out));
    [done..|]. intros r' _.
  eapply (takes_bind 0 0); [eapply takes_mono; [apply takes_unsigned|by intros|lia]| |lia].
  intros z r2 Hz _. apply takes_mono with (n := 1%nat) (Q := λ z, 0 <= z <= u64_max); [|done|lia].
  apply (takes_this_token 34 _ (λ _, mret z)); [done..|]. intros r3 _. by apply takes_ret.
Qed.

Lemma takes_buffer n s (e : schema_error) r :
  takes 0 (match to_buffer n s with Some out => mret out | None => jthrow (schema e) end)
    (λ l, forallb byteb l = true ∧ length l = n) r.
Proof.
  destruct (to_buffer n s) as [l|] eqn:Hl; [|done]. apply to_buffer_fits in Hl as [? ?]. by apply takes_ret.
Qed.

Lemma takes_binary r : takes 1 j_binary (λ l, forallb byteb l = true) r.
Proof.
  unfold j_binary. eapply (takes_bind 1 0); [apply takes_string| |lia]. intros s r' _ _.
  eapply takes_mono; [apply takes_buffer|naive_solver|lia].
Qed.

Lemma takes_blob n r : takes 1 (j_blob n) (λ l, forallb byteb l = true ∧ length l = n) r.
Proof. unfold j_blob. eapply (takes_bind 1 0); [apply takes_string| |lia]. intros s r' _ _. apply takes_buffer. Qed.

Lemma takes_start b e r : b ≠ 0 → takes 1 (j_start b e) (λ _, True) r.
Proof.
  intros Hb. unfold j_start. apply (takes_this_token b _ (λ _, j_increment_depth)); [done..|].
  intros r' _. apply takes_increment.
Qed.

(** The end of an array and what separates its elements. *)
Lemma takes_array_end first r : takes 0 (j_is_array_end first) (λ _, True) r.
Proof.
  unfold j_is_array_end. eapply (takes_bind 0 0); [apply takes_token| |lia]. intros next r1 _ _.
  eapply (takes_bind 0 0); [by apply takes_check with (Q := True)| |lia]. intros _ r2 _ _.
  destruct (next =? 93); [|destruct first; [by apply takes_ret|]].
  - eapply (takes_bind 0 0); [apply takes_remove|intros; by apply takes_ret|lia].
  - eapply (takes_bind 0 0); [by apply takes_check with (Q := True)| |lia]. intros _ r3 _ _.
    eapply (takes_bind 0 0); [apply takes_remove|intros; by apply takes_ret|lia].
Qed.

Lemma process_key_bound map name i : process_key map name = Some i → (i < length map)%nat.
Proof.
  unfold process_key. destruct (list_find _ map) as [[j n]|] eqn:Hf; cbn; [|done]. intros [= <-].
  apply list_find_Some in Hf as [Hf _]. by apply lookup_lt_Some in Hf.
Qed.

Lemma takes_key fuel : ∀ map first r, (length (j_remaining r) < fuel)%nat →
  takes 0 (j_key fuel map first) (λ next, ∀ i, next = Some i → (i < length map)%nat) r.
Proof.
  induction fuel as [|fuel IH]; intros map first r Hf; [lia|]. cbn [j_key].
  eapply (takes_bind 0 0); [apply takes_token| |lia]. intros next r1 _ H1.
  eapply (takes_bind 0 0); [by apply takes_check with (Q := True)| |lia]. intros _ r2 _ H2.
  destruct (next =? 125).
  { eapply (takes_bind 0 0); [apply takes_remove|intros; by apply takes_ret|lia]. }
  eapply (takes_bind 0 0) with (Q := λ _, True).
  { destruct first; [by apply takes_ret|]. eapply (takes_bind 0 0); [by apply takes_check with (Q := True)| |lia].
    intros. apply takes_remove. }
  2: lia. intros _ r3 _ H3. apply takes_mono with (n := 1%nat) (Q := λ next, ∀ i, next = Some i → (i < length map)%nat); [|done|lia].
  apply (takes_bind 1 0) with (Q := sax_ok schema_string); [apply takes_next_value; set_solver| |lia].
  intros h r4 (s & -> & _) H4. eapply (takes_bind 0 0) with (Q := λ _, True); [by apply takes_ret| |lia].
  intros name r5 _ H5. eapply (takes_bind 0 0); [apply takes_token| |lia]. intros next' r6 _ H6.
  eapply (takes_bind 0 0); [by apply takes_check with (Q := True)| |lia]. intros _ r7 _ H7.
  eapply (takes_bind 0 0); [apply takes_remove| |lia]. intros _ r8 _ H8.
  destruct (process_key map name) as [i|] eqn:Hi.
  - apply takes_ret. intros j [= <-]. by eapply process_key_bound.
  - eapply (takes_bind 1 0); [apply takes_skip_value| |lia]. intros _ r9 _ H9. apply IH. lia.
Qed.

(** A reader of values of [Q] takes at least a byte. *)
Definition reads (read : jreading value) (Q : value → Prop) : Prop := ∀ r, takes 1 read Q r.

Definition within (max_count : option Z) (n : nat) : Prop :=
  match max_count with Some m => Z.of_nat n <= Z.max 0 m | None => True end.

Lemma takes_array_loop fuel : ∀ min_size max_count read Q start_bytes dest r,
  reads read Q → (length (j_remaining r) < fuel)%nat → Forall Q dest → within max_count (length dest) →
  takes 0 (j_array_loop fuel min_size max_count read start_bytes dest)
    (λ l, Forall Q l ∧ within max_count (length l)) r.
Proof.
  induction fuel as [|fuel IH]; intros min_size max_count read Q start_bytes dest r Hread Hf Hd Hw; [lia|].
  cbn [j_array_loop]. eapply (takes_bind 0 0); [apply takes_array_end| |lia]. intros end_ r1 _ H1.
  destruct end_; [by apply takes_ret|].
  apply (takes_bind 0 0) with (Q := λ _, within max_count (S (length dest)));
    [|intros ? r2 Hw2 H2|lia].
  { apply takes_check; [done| |done]. unfold within. destruct max_count as [m|]; [|done].
    intros Hm%negb_true_iff%Z.leb_gt. lia. }
  apply (takes_bind 1 0) with (Q := Q); [apply Hread|intros v r3 Hv H3|lia].
  eapply (takes_bind 0 0); [apply takes_size|intros size r4 _ H4|lia].
  eapply (takes_bind 0 0); [by apply takes_check with (Q := True)|intros _ r5 _ H5|lia].
  apply IH; [done|lia|by apply Forall_app; split; [|constructor]|]. by rewrite length_app, Nat.add_comm.
Qed.

Lemma takes_array min_size max_count read Q : reads read Q →
  ∀ r, takes 1 (j_array min_size max_count read) (λ l, Forall Q l ∧ within max_count (length l)) r.
Proof.
  intros Hread r. unfold j_array. eapply (takes_bind 1 0); [by apply takes_start|intros _ r1 _ H1|lia].
  eapply (takes_bind 0 0); [apply takes_size|intros size r2 -> H2|lia].
  eapply (takes_bind 0 0).
  - apply (takes_array_loop _ _ _ _ Q); [done|lia|by constructor|]. unfold within. cbn. destruct max_count; lia.
  - intros l r3 Hl H3. eapply (takes_bind 0 0); [apply takes_decrement|intros _ r4 _ H4|lia]. by apply takes_ret.
  - lia.
Qed.

Lemma takes_fixed count read Q : reads read Q →
  ∀ r, takes 1 (j_fixed count read) (λ l, Forall Q l ∧ length l = count) r.
Proof.
  intros Hread r. unfold j_fixed. eapply (takes_bind 1 0); [by apply takes_start|intros _ r1 _ H1|lia].
  apply (takes_bind 0 0) with (Q := λ l, Forall Q l ∧ length l = (length ([] : list value) + count)%nat);
    [|intros l r3 Hl H3|lia].
  - assert (Forall Q ([] : list value)) as Hd by constructor. revert Hd. generalize ([] : list value) at 1 3 4.
    clear H1. revert r1. induction count as [|count IH]; intros r1 dest Hd; cbn [j_fixed_loop].
    + eapply (takes_bind 0 0); [apply takes_array_end|intros end_ r2 _ H2|lia].
      eapply (takes_bind 0 0); [by apply takes_check with (Q := True)|intros _ r5 _ H5|lia].
      apply takes_ret. split; [done|lia].
    + eapply (takes_bind 0 0); [apply takes_array_end|intros end_ r2 _ H2|lia].
      eapply (takes_bind 0 0); [by apply takes_check with (Q := True)|intros _ r5 _ H5|lia].
      apply (takes_bind 1 0) with (Q := Q); [apply Hread|intros v r3 Hv H3|lia].
      eapply takes_mono; [apply IH; by apply Forall_app; split; [|constructor]| |lia].
      intros l. rewrite length_app. cbn. intros [? ?]. split; [done|lia].
  - eapply (takes_bind 0 0); [apply takes_decrement|intros _ r4 _ H4|lia]. by apply takes_ret.
Qed.

Lemma takes_object_loop fuel : ∀ map rs Qs first dest r,
  Forall2 reads rs Qs → length map = length rs → (length (j_remaining r) < fuel)%nat → dest_ok Qs dest →
  takes 0 (j_object_loop fuel map rs first dest) (dest_ok Qs) r.
Proof.
  induction fuel as [|fuel IH]; intros map rs Qs first dest r Hreads Hmap Hf Hdest; [lia|]. cbn [j_object_loop].
  eapply (takes_bind 0 0); [apply takes_size|intros size r1 -> H1|lia].
  eapply (takes_bind 0 0); [apply takes_key; lia|intros [i|] r2 Hi H2|lia]; [|by apply takes_ret].
  destruct (rs !! i) as [read|] eqn:Hread.
  2: { apply lookup_ge_None in Hread. specialize (Hi i eq_refl). lia. }
  destruct (Forall2_lookup_l _ _ _ _ _ Hreads Hread) as (Q & HQ & Hsafe).
  apply (takes_bind 1 0) with (Q := dest_ok Qs); [|intros dest' r3 Hd' H3; apply IH; auto; lia|lia].
  unfold j_try_read. eapply (takes_bind 0 1); [by apply takes_check with (Q := True)|intros _ r3 _ H3|lia].
  eapply (takes_bind 1 0); [apply Hsafe|intros v r4 Hv H4|lia]. apply takes_ret. unfold dest_ok.
  rewrite <-(list_insert_id Qs i Q) by done. apply Forall2_insert; [done|]. by intros ? [= <-].
Qed.

Lemma takes_object (fields : list (field_spec * json_type)) :
  Forall (λ p, ∀ v, f_presence p.1 = Defaulted v → has_json_type p.2 v = true) fields →
  Forall (λ p, reads (json_read p.2) (λ v, has_json_type p.2 v = true)) fields →
  ∀ r, takes 1 (j_object (map (λ p, (p.1, json_read p.2)) fields))
    (λ l, fields_have_types (map (λ p, (p.1, has_json_type p.2)) fields) l = true) r.
Proof.
  intros Hok Hreads r. unfold j_object. eapply (takes_bind 1 0); [by apply takes_start|intros _ r1 _ H1|lia].
  eapply (takes_bind 0 0); [apply takes_size|intros size r2 -> H2|lia].
  apply (takes_bind 0 0) with (Q := dest_ok (map (λ p v, has_json_type p.2 v = true) fields)).
  - apply takes_object_loop; [|by rewrite !length_map|lia|].
    + rewrite map_map. cbn. clear Hok. induction Hreads; constructor; auto.
    + rewrite length_map. clear. induction fields; constructor; [done|]. exact IHfields.
  - intros dest r3 Hdest H3. rewrite !map_map. cbn.
    eapply (takes_bind 0 0); [apply takes_check with (2 := λ H, H); done|intros ? r4 Hrequired H4|lia].
    eapply (takes_bind 0 0); [apply takes_decrement|intros _ r5 _ H5|lia]. apply takes_ret.
    by apply reset_omitted_fields.
  - lia.
Qed.

Lemma takes_value {A} (m : jreading A) (f : A → value) Q R r :
  takes 1 m Q r → (∀ a, Q a → R (f a)) → takes 1 (a ← m; mret (f a)) R r.
Proof. intros Hm Hf. eapply (takes_bind 1 0); [exact Hm|intros a r1 Ha _; apply takes_ret; auto|lia]. Qed.

Lemma forallb_typed t l : Forall (λ v, has_json_type t v = true) l → forallb (has_json_type t) l = true.
Proof. induction 1 as [|v l Hv _ IH]; cbn; [done|]. by rewrite Hv. Qed.

Lemma cast_unsigned_fits n z r : 0 <= z → takes 0 (j_cast_unsigned n z) (λ z, 0 <= z < 2 ^ (8 * Z.of_nat n)) r.
Proof. intros Hz. unfold j_cast_unsigned. destruct (Z.ltb_spec (2 ^ (8 * Z.of_nat n) - 1) z); [done|]. apply takes_ret. lia. Qed.

Lemma cast_signed_fits n z r :
  takes 0 (j_cast_signed n z) (λ z, - 2 ^ (8 * Z.of_nat n - 1) <= z < 2 ^ (8 * Z.of_nat n - 1)) r.
Proof.
  unfold j_cast_signed. destruct (Z.ltb_spec z (- 2 ^ (8 * Z.of_nat n - 1))), (Z.ltb_spec (2 ^ (8 * Z.of_nat n - 1) - 1) z);
    cbn; try done. apply takes_ret. lia.
Qed.

(** Only objects of the type are read, and the reader always ends. *)
Lemma takes_read t : json_type_ok t = true → reads (json_read t) (λ v, has_json_type t v = true).
Proof.
  induction t as [| | | | |n|n|n|min max t IH|n t IH|ok e t IH|fields IH] using json_type_ind';
    intros Hok r; cbn [json_read json_type_ok] in *.
  - by eapply takes_value; [apply takes_boolean|].
  - by eapply takes_value; [apply takes_real|].
  - by eapply takes_value; [apply takes_string_value|].
  - by eapply takes_value; [apply takes_binary|].
  - eapply (takes_bind 1 0); [apply takes_safe|intros z r1 Hz _|lia].
    eapply (takes_bind 0 0); [apply cast_unsigned_fits, (proj1 Hz)|intros z' r2 Hz' _; apply takes_ret|lia].
    destruct Hz' as [Hz1 Hz2]. change (8 * Z.of_nat 8) with 64 in Hz2. cbn. unfold u64_fits, u64_max.
    apply andb_true_intro. split; apply Z.leb_le; lia.
  - eapply (takes_bind 1 0); [apply takes_integer|intros z r1 Hz _|lia].
    eapply (takes_bind 0 0); [by apply cast_signed_fits|intros z' r2 Hz' _; apply takes_ret|lia].
    cbn beta in Hz'. apply andb_true_intro. split; [apply Z.leb_le|apply Z.ltb_lt]; lia.
  - eapply (takes_bind 1 0); [apply takes_unsigned|intros z r1 Hz _|lia].
    eapply (takes_bind 0 0); [apply cast_unsigned_fits, (proj1 Hz)|intros z' r2 Hz' _; apply takes_ret|lia].
    cbn beta in Hz'. apply andb_true_intro. split; [apply Z.leb_le|apply Z.ltb_lt]; lia.
  - eapply takes_value; [apply takes_blob|]. intros l [Hl Hn]. cbn. by rewrite Hl, Hn, Nat.eqb_refl.
  - eapply takes_value; [apply takes_array, IH, Hok|]. intros l [Hl Hw]. cbn. rewrite forallb_typed by done.
    unfold within in Hw. destruct max as [m|]; [|done]. by apply Z.leb_le.
  - eapply takes_value; [apply takes_fixed, IH, Hok|]. intros l [Hl Hn]. cbn.
    by rewrite forallb_typed, Hn, Nat.eqb_refl by done.
  - eapply (takes_bind 1 0); [by apply IH|intros v r1 Hv _|lia].
    eapply (takes_bind 0 0); [apply takes_check with (2 := λ H, H); done|intros ? r2 Hc _|lia].
    apply takes_ret. cbn. by rewrite Hv.
  - eapply takes_value; [apply takes_object|].
    + clear IH. induction fields as [|p fields IH]; [by apply Forall_nil|]. cbn in Hok.
      apply andb_prop in Hok as [[_ Hd]%andb_prop Hok]. apply Forall_cons. split; [|by apply IH].
      intros v Hv. by rewrite Hv in Hd.
    + induction IH as [|p fields Hp _ IH]; [by apply Forall_nil|]. cbn in Hok.
      apply andb_prop in Hok as [[Ht _]%andb_prop Hok]. apply Forall_cons. split; [by apply Hp|by apply IH].
    + done.
Qed.

(** *** The depth

    What [m] does at a depth of [a] or more: it is left [k] deeper, or without
    closing what is not open. *)
Definition moves {A} (a k : Z) (m : jreading A) : Prop := ∀ r, a <= j_depth r →
  match m r with
  | Ok (_, r') => j_depth r' = j_depth r + k
  | Err e => e ≠ logic_error
  end.

Abbreviation stays := (moves 0 0).

Lemma moves_bind {A B} a k k' (m : jreading A) (f : A → jreading B) :
  moves a k m → (∀ x, moves (a + k) k' (f x)) → moves a (k + k') (m ≫= f).
Proof.
  intros Hm Hf r Hr. specialize (Hm r Hr). unfold mbind, jreading_bind. destruct (m r) as [[x r']|]; [|done].
  specialize (Hf x r' ltac:(lia)). destruct (f x r') as [[y r2]|]; [lia|done].
Qed.

Lemma stays_bind {A B} (m : jreading A) (f : A → jreading B) : stays m → (∀ x, stays (f x)) → stays (m ≫= f).
Proof. apply (moves_bind 0 0 0). Qed.

Lemma moves_more {A} a b k (m : jreading A) : a <= b → moves a k m → moves b k m.
Proof. intros Hab Hm r Hr. apply Hm. lia. Qed.

Lemma stays_throw {A} e : e ≠ logic_error → stays (jthrow (A := A) e).
Proof. by intros He r _. Qed.

Lemma stays_here {A} (f : json_reader → A) (g : json_reader → list Z) : stays (λ r, Ok (f r, JsonReader (g r) (j_depth r))).
Proof. intros r _. cbn. lia. Qed.

Lemma stays_ret {A} (x : A) : stays (mret x).
Proof. intros r _. cbn. lia. Qed.

Lemma stays_check c e : e ≠ logic_error → stays (jcheck c e).
Proof. intros He. destruct c; [apply stays_ret|by apply stays_throw]. Qed.

Lemma stays_size : stays j_size.
Proof. intros r _. cbn. lia. Qed.

Lemma stays_next_value h : stays (read_next_value h).
Proof.
  intros r _. unfold read_next_value. destruct (parse _) as [es [n|e]], (handle_events es h); cbn; [lia| |done|];
    unfold rejected; by destruct (expected_ h).
Qed.

Lemma stays_cut_string : stays cut_string.
Proof. intros r _. unfold cut_string. destruct (before_quote _) as [[s rest]|]; cbn; [lia|done]. Qed.

Ltac stay := repeat first
  [ apply stays_ret | apply stays_size | apply stays_next_value | apply stays_cut_string | apply stays_here
  | apply stays_check; done | apply stays_throw; done
  | apply stays_bind; [|intros ?]
  | match goal with |- stays (match ?x with _ => _ end) => destruct x end ].

(** What is between a start and an end. *)
Lemma stays_within {A} b e (m : jreading A) : stays m → stays (_ ← j_start b e; x ← m; _ ← j_decrement_depth; mret x).
Proof.
  intros Hm. apply (moves_bind 0 1 (-1)).
  - unfold j_start. apply (moves_bind 0 0 1); [apply stays_here|intros next].
    apply (moves_bind 0 0 1); [by apply stays_check|intros _].
    apply (moves_bind 0 0 1); [apply stays_here|intros _ r _]. unfold j_increment_depth. by destruct (_ =? _).
  - intros _. apply (moves_bind 1 0 (-1)); [by apply (moves_more 0); [lia|]|intros x].
    apply (moves_bind 1 (-1) 0); [|intros _; apply stays_ret]. intros r Hr. unfold j_decrement_depth.
    destruct (Z.eqb_spec (j_depth r) 0); [lia|cbn; lia].
Qed.

Lemma stays_ext {A} (m m' : jreading A) : (∀ r, m r = m' r) → stays m → stays m'.
Proof. intros He Hm r Hr. rewrite <-He. by apply Hm. Qed.

Lemma stays_key fuel : ∀ map first, stays (j_key fuel map first).
Proof. induction fuel as [|fuel IH]; intros map first; cbn [j_key]; unfold j_skip_value, unset; stay; apply IH. Qed.

Lemma stays_array min_size max_count read : stays read → stays (j_array min_size max_count read).
Proof.
  intros Hread. unfold j_array.
  eapply (stays_ext (_ ← j_start 91 schema_array; dest ← (size ← j_size;
    j_array_loop (S (Z.to_nat size)) min_size max_count read size []); _ ← j_decrement_depth; mret dest)).
  { intros r. unfold mbind, jreading_bind. by destruct (j_start _ _ r) as [[]|]. }
  apply stays_within, stays_bind; [stay|]. intros size. generalize (S (Z.to_nat size)) ([] : list value).
  intros fuel. induction fuel as [|fuel IH]; intros dest; cbn [j_array_loop];
    unfold j_is_array_end; stay; first [exact Hread|apply IH].
Qed.

Lemma stays_fixed count read : stays read → stays (j_fixed count read).
Proof.
  intros Hread. apply stays_within. generalize ([] : list value).
  induction count as [|count IH]; intros dest; cbn [j_fixed_loop]; unfold j_is_array_end; stay;
    first [exact Hread|apply IH].
Qed.

Lemma stays_object (fields : list (field_spec * jreading value)) :
  Forall (λ p, stays p.2) fields → stays (j_object fields).
Proof.
  intros Hreads. unfold j_object.
  eapply (stays_ext (_ ← j_start 123 schema_object; l ← (size ← j_size;
    dest ← j_object_loop (S (Z.to_nat size)) (map (λ p, f_name p.1) fields) (map snd fields) true
      (replicate (length fields) None);
    _ ← jcheck (forallb (λ p, negb (is_required p.1 && bool_decide (p.2 = None))) (zip (map fst fields) dest))
      (schema schema_missing_key); mret (zip_with reset_omitted (map fst fields) dest));
    _ ← j_decrement_depth; mret l)).
  { intros r. unfold mbind, jreading_bind, mret, jreading_ret. destruct (j_start _ _ r) as [[? ?]|]; [|done].
    destruct (j_size _) as [[? ?]|]; [|done]. destruct (j_object_loop _ _ _ _ _ _) as [[? ?]|]; [|done].
    by destruct (jcheck _ _ _) as [[? ?]|]. }
  apply stays_within, stays_bind; [stay|]. intros size. apply stays_bind; [|intros; stay].
  generalize (S (Z.to_nat size)) true (replicate (length fields) (None : option value)).
  intros fuel. induction fuel as [|fuel IH]; intros first dest; cbn [j_object_loop]; [stay|].
  apply stays_bind; [stay|intros ?]. apply stays_bind; [apply stays_key|intros [i|]]; [|stay].
  destruct (map snd fields !! i) as [read|] eqn:Hi; [|stay]. apply stays_bind; [|intros; apply IH].
  unfold j_try_read. stay. rewrite list_lookup_fmap in Hi. destruct (fields !! i) as [p|] eqn:Hp; [|done].
  injection Hi as <-. by apply (Forall_lookup_1 _ _ _ _ Hreads Hp).
Qed.

(** Reading a value closes what it opened. *)
Lemma stays_read t : stays (json_read t).
Proof.
  induction t as [| | | | |n|n|n|min max t IH|n t IH|ok e t IH|fields IH] using json_type_ind'; cbn [json_read];
    unfold j_boolean, j_real, j_string, j_binary, j_blob, j_integer, safe_unsigned_integer, j_unsigned_integer,
      get_next_string, j_cast_signed, j_cast_unsigned, unset;
    try by stay.
  - apply stays_bind; [by apply stays_array|intros; stay].
  - apply stays_bind; [by apply stays_fixed|intros; stay].
  - apply stays_bind; [apply stays_object|intros; stay]. induction IH; constructor; auto.
Qed.

Lemma json_from_bytes_ends t source : json_type_ok t = true →
  match json_from_bytes (json_read t) source with
  | Ok v => has_json_type t v = true
  | Err e => caught e
  end.
Proof.
  intros Hok. unfold json_from_bytes, mbind, jreading_bind.
  pose proof (takes_read t Hok (JsonReader source 0)) as H'. unfold takes in H'.
  pose proof (stays_read t (JsonReader source 0) ltac:(cbn; lia)) as Hd.
  destruct (json_read t _) as [[v r]|e]; [|by destruct e].
  unfold j_check_complete. cbn in Hd. rewrite Hd. apply H'.
Qed.

(** C10: Whatever the text of a request is, reading it ends, with an object of the
    type or the code of one of the reader's exceptions: it never runs out of fuel,
    reads a member of the handler's union that was not written, nor throws anything
    else.  A value that was read has closed every array and object it opened: the
    reader is as deep as before, at any depth, so that the check for unclosed ones
    at the end of a request refuses nothing that was read. *)
Theorem json_from_bytes_safe t source : json_type_ok t = true →
  match json_from_bytes (json_read t) source with
  | Ok v => has_json_type t v = true
  | Err e => caught e
  end ∧
  (∀ r v r', 0 <= j_depth r → json_read t r = Ok (v, r') → j_depth r' = j_depth r) ∧
  (∀ v r, json_read t (JsonReader source 0) = Ok (v, r) → json_from_bytes (json_read t) source = Ok v).
Proof.
  intros Hok.
  assert (∀ r v r', 0 <= j_depth r → json_read t r = Ok (v, r') → j_depth r' = j_depth r) as Hclosed.
  { intros r v r' Hr Hread. pose proof (stays_read t r Hr) as Hd. rewrite Hread in Hd. lia. }
  split_and!; [by apply json_from_bytes_ends|done|]. intros v r Hread.
  unfold json_from_bytes, mbind, jreading_bind. rewrite Hread. unfold j_check_complete.
  by rewrite (Hclosed (JsonReader source 0) v r) by done.
Qed.

End safety.

(** ** Texts of objects *)

Section texts.
Context `{JsonTexts}.

(** White space, and a comma unless something is the first of its kind. *)
Definition separator (first : bool) (w w' : list Z) : list Z := if first then w' else w ++ [44] ++ w'.

(** The fields of an object: what its members [es] say, or what omitted fields are
    reset to. *)
Definition object_of (fields : list (field_spec * json_type)) (es : list (nat * value)) : list (option value) :=
  zip_with reset_omitted (map fst fields) (foldl set_field (replicate (length fields) None) es).

(** [json_text t v s]: [s] is a text of the object [v] of type [t], with any white
    space inside, members in any order, and members the type does not have. *)
Inductive json_text : json_type → value → list Z → Prop :=
  | text_bool b s : spells [SaxBool b] s → json_text JBool (VBool b) s
  | text_real d s : spells [SaxDouble d] s → json_text JReal (VReal d) s
  | text_string l s : spells [SaxString l] s → json_text JString (VBytes l) s
  | text_safe z w s w' : blank w → blank w' → spells [SaxUint z] s → u64_fits z = true →
      json_text JSafe (VInteger z) ([34] ++ w ++ s ++ w' ++ [34])
  | text_negative n z s : spells [SaxInt z] s → - 2 ^ (8 * Z.of_nat n - 1) <= z < 0 →
      json_text (JInt n) (VInteger z) s
  | text_positive n z s : spells [SaxUint z] s → 0 <= z < 2 ^ (8 * Z.of_nat n - 1) → z <= imax →
      json_text (JInt n) (VInteger z) s
  | text_unsigned n z s : spells [SaxUint z] s → 0 <= z < 2 ^ (8 * Z.of_nat n) →
      json_text (JUint n) (VInteger z) s
  | text_binary l s : 34 ∉ s → to_buffer (length s / 2) s = Some l →
      json_text JBinary (VBytes l) ([34] ++ s ++ [34])
  | text_blob n l s : 34 ∉ s → to_buffer n s = Some l → json_text (JBlob n) (VBytes l) ([34] ++ s ++ [34])
  | text_array min_size max_count t vs s :
      elements_text true min_size t vs s → match max_count with Some m => Z.of_nat (length vs) <= m | None => True end →
      json_text (JArray min_size max_count t) (VArray vs) ([91] ++ s)
  | text_fixed n t vs s : elements_text true 0 t vs s → length vs = n →
      json_text (JFixed n t) (VArray vs) ([91] ++ s)
  | text_checked ok e t v s : json_text t v s → ok v = true → json_text (JChecked ok e t) v s
  | text_object fields es s :
      members_text true fields es s → NoDup (map (λ p, f_name p.1) fields) → NoDup es.*1 →
      Forall (λ p, negb (is_required p.1 && bool_decide (p.2 = None)) = true)
        (zip (map fst fields) (foldl set_field (replicate (length fields) None) es)) →
      json_text (JObject fields) (VObject (object_of fields es)) ([123] ++ s)

(** The elements of an array up to its end, each of [min_size] bytes at least. *)
with elements_text : bool → Z → json_type → list value → list Z → Prop :=
  | elements_end first min_size t w : blank w → elements_text first min_size t [] (w ++ [93])
  | elements_next first min_size t w w' v s vs rest :
      blank w → blank w' → json_text t v s → min_size <= Z.of_nat (length s) →
      elements_text false min_size t vs rest →
      elements_text first min_size t (v :: vs) (separator first w w' ++ s ++ rest)

(** The members of an object up to its end. *)
with members_text : bool → list (field_spec * json_type) → list (nat * value) → list Z → Prop :=
  | members_end first fields w : blank w → members_text first fields [] (w ++ [125])
  | members_known first fields w w' name w1 w2 i f t v s es rest :
      blank w → blank w' → blank w1 → blank w2 → spells [SaxString (f_name f)] name →
      fields !! i = Some (f, t) → json_text t v s → members_text false fields es rest →
      members_text first fields ((i, v) :: es)
        (separator first w w' ++ name ++ w1 ++ [58] ++ w2 ++ s ++ rest)
  | members_unknown first fields w w' key name w1 w2 events s es rest :
      blank w → blank w' → blank w1 → blank w2 → spells [SaxString key] name →
      key ∉ map (λ p, f_name p.1) fields → spells events s → members_text false fields es rest →
      members_text first fields es (separator first w w' ++ name ++ w1 ++ [58] ++ w2 ++ s ++ rest).

End texts.

(** How deep arrays and objects of a type are nested. *)
Fixpoint json_depth (t : json_type) : Z :=
  match t with
  | JArray _ _ t | JFixed _ t => 1 + json_depth t
  | JChecked _ _ t => json_depth t
  | JObject fields => 1 + foldr (λ p d, Z.max (json_depth p.2) d) 0 fields
  | _ => 0
  end.

Section texts_read.
Context `{JsonTexts}.

Scheme json_text_mut := Minimality for json_text Sort Prop
  with elements_text_mut := Minimality for elements_text Sort Prop
  with members_text_mut := Minimality for members_text Sort Prop.

Lemma json_depth_nonneg t : 0 <= json_depth t.
Proof. induction t as [| | | | |n|n|n|min max t IH|n t IH|ok e t IH|fields IH] using json_type_ind'; cbn; try lia.
  assert (0 <= foldr (λ p d, Z.max (json_depth p.2) d) 0 fields); [|lia].
  induction IH; cbn; lia.
Qed.

Lemma blank_ends w rest : blank w → ends rest → ends (w ++ rest).
Proof. intros Hw Hr. destruct Hw; [done|by left]. Qed.

Lemma separator_ends w w' rest : blank w → ends (separator false w w' ++ rest).
Proof. intros Hw. unfold separator. rewrite <-!app_assoc. apply blank_ends; [done|right; set_solver]. Qed.

Lemma starts_token_in b rest : b ∈ [34; 44; 58; 91; 93; 123; 125] → starts (b :: rest).
Proof. intros Hb. unfold starts, is_blank. repeat (apply elem_of_cons in Hb as [->|Hb]; [lia|]). by apply elem_of_nil in Hb. Qed.

Lemma json_text_starts t v s : json_text t v s → s ≠ [] ∧ starts s ∧ hd 0 s ∉ [93; 125].
Proof.
  intros Ht. revert t v s Ht.
  apply (json_text_mut _ _ (λ _ _ s, s ≠ [] ∧ starts s ∧ hd 0 s ∉ [93; 125]) (λ _ _ _ _ _, True) (λ _ _ _ _, True)); try done; intros; try (by eapply spells_starts); split_and!; try done;
    first [apply starts_token_in; set_solver|cbn; set_solver].
Qed.

(** A token with white space before it. *)
Lemma token_here w b rest d : blank w → starts (b :: rest) →
  get_next_token (JsonReader (w ++ b :: rest) d) = Ok (b, JsonReader (b :: rest) d).
Proof. intros Hw Hs. unfold get_next_token. cbn [j_remaining]. by rewrite skip_blank, drop_app_length. Qed.

Lemma scalar_here e es h w s rest d : spells es s → blank w → ends rest →
  handle_events es (new_sax e) = Some h →
  read_next_value (new_sax e) (JsonReader (w ++ s ++ rest) d) = Ok (h, JsonReader rest d).
Proof.
  intros Hs Hw Hr Hh. unfold read_next_value. cbn [j_remaining]. rewrite (parse_spells es) by done. rewrite Hh.
  by rewrite <-length_app, app_assoc, drop_app_length.
Qed.

Lemma before_quote_here s rest : 34 ∉ s → before_quote (s ++ 34 :: rest) = Some (s, rest).
Proof.
  induction s as [|b s IH]; intros Hs; [done|]. apply not_elem_of_cons in Hs as [Hb Hs]. cbn.
  destruct (Z.eqb_spec b 34); [congruence|]. by rewrite IH.
Qed.

Lemma string_here w s rest d : blank w → 34 ∉ s →
  get_next_string (JsonReader (w ++ [34] ++ s ++ [34] ++ rest) d) = Ok (s, JsonReader rest d).
Proof.
  intros Hw Hs. unfold get_next_string, mbind, jreading_bind. cbn [app].
  rewrite token_here by (done || apply starts_token_in; set_solver). cbn. unfold cut_string. cbn.
  by rewrite drop_0, before_quote_here.
Qed.

Ltac j_go := repeat first [progress cbn [mbind jreading_bind mret jreading_ret jcheck jthrow j_remove_prefix
    j_remaining j_depth negb app] | progress unfold mbind, jreading_bind, mret, jreading_ret, jcheck, j_remove_prefix].

Lemma bind_ok {A B} (m : jreading A) (f : A → jreading B) r a r' : m r = Ok (a, r') → (m ≫= f) r = f a r'.
Proof. intros Hm. unfold mbind, jreading_bind. by rewrite Hm. Qed.

Lemma check_bind {A} (f : unit → jreading A) e r : (jcheck true e ≫= f) r = f tt r.
Proof. done. Qed.

Lemma size_bind {A} (f : Z → jreading A) r : (j_size ≫= f) r = f (Z.of_nat (length (j_remaining r))) r.
Proof. done. Qed.

Lemma drop_one (b : Z) l d : j_remove_prefix 1 (JsonReader (b :: l) d) = Ok (tt, JsonReader l d).
Proof. unfold j_remove_prefix. cbn. by rewrite drop_0. Qed.

(** The token [b], and what comes after it. *)
Lemma this_token_here {A} w b e (f : unit → jreading A) rest d : blank w → starts (b :: rest) →
  (next ← get_next_token; _ ← jcheck (next =? b) e; _ ← j_remove_prefix 1; f tt) (JsonReader (w ++ b :: rest) d) =
  f tt (JsonReader rest d).
Proof.
  intros Hw Hs. rewrite (bind_ok _ _ _ _ _ (token_here w b rest d Hw Hs)), Z.eqb_refl.
  rewrite check_bind. by rewrite (bind_ok _ _ _ _ _ (drop_one b rest d)).
Qed.

Lemma start_here w b e rest d : blank w → starts (b :: rest) → d + 1 < 100 →
  j_start b e (JsonReader (w ++ b :: rest) d) = Ok (tt, JsonReader rest (d + 1)).
Proof.
  intros Hw Hs Hd. unfold j_start. rewrite (this_token_here _ _ _ (λ _, j_increment_depth)) by done.
  unfold j_increment_depth, max_read_depth. cbn. destruct (Z.eqb_spec (d + 1) 100); [lia|done].
Qed.

Lemma start_array_here w rest d : blank w → d + 1 < 100 →
  j_start 91 schema_array (JsonReader (w ++ 91 :: rest) d) = Ok (tt, JsonReader rest (d + 1)).
Proof. intros Hw. apply start_here; [done|]. apply starts_token_in. set_solver. Qed.

Lemma start_object_here w rest d : blank w → d + 1 < 100 →
  j_start 123 schema_object (JsonReader (w ++ 123 :: rest) d) = Ok (tt, JsonReader rest (d + 1)).
Proof. intros Hw. apply start_here; [done|]. apply starts_token_in. set_solver. Qed.

Lemma decrement_here rest d : 0 <= d → j_decrement_depth (JsonReader rest (d + 1)) = Ok (tt, JsonReader rest d).
Proof.
  intros Hd. unfold j_decrement_depth. cbn. destruct (Z.eqb_spec (d + 1) 0); [lia|].
  by replace (d + 1 - 1) with d by lia.
Qed.

Lemma array_end_here first w rest d : blank w →
  j_is_array_end first (JsonReader (w ++ 93 :: rest) d) = Ok (true, JsonReader rest d).
Proof.
  intros Hw. unfold j_is_array_end.
  rewrite (bind_ok _ _ _ _ _ (token_here w 93 rest d Hw (starts_token_in 93 rest ltac:(set_solver)))).
  rewrite check_bind. cbn. by rewrite (bind_ok _ _ _ _ _ (drop_one 93 rest d)).
Qed.

(** What is left before an element or a key once the separator was read. *)
Definition left_blank (first : bool) (w' : list Z) : list Z := if first then [] else w'.

Lemma left_blank_blank first w' : blank w' → blank (left_blank first w').
Proof. destruct first; [intros; by constructor|done]. Qed.

Lemma array_next_here first w w' s rest d : blank w → blank w' → s ≠ [] → starts s → hd 0 s ∉ [93; 125] →
  j_is_array_end first (JsonReader (separator first w w' ++ s ++ rest) d) =
  Ok (false, JsonReader (left_blank first w' ++ s ++ rest) d).
Proof.
  intros Hw Hw' Hne Hs Hhd. destruct s as [|b s]; [done|]. cbn [hd] in Hhd. unfold j_is_array_end, separator, left_blank.
  destruct first.
  - cbn [app]. rewrite (bind_ok _ _ _ _ _ (token_here w' b (s ++ rest) d Hw' Hs)). destruct (Z.eqb_spec b 0); [by destruct Hs as (_ & _ & ?)|].
    rewrite check_bind. destruct (Z.eqb_spec b 93); [set_solver|done].
  - rewrite <-!app_assoc. cbn [app].
    rewrite (bind_ok _ _ _ _ _ (token_here w 44 _ d Hw (starts_token_in 44 _ ltac:(set_solver)))).
    unfold mbind, jreading_bind, jcheck, j_remove_prefix. cbn. by rewrite drop_0.
Qed.

Lemma key_end_here k names first w rest d : blank w →
  j_key (S k) names first (JsonReader (w ++ 125 :: rest) d) = Ok (None, JsonReader rest d).
Proof.
  intros Hw. cbn [j_key].
  rewrite (bind_ok _ _ _ _ _ (token_here w 125 rest d Hw (starts_token_in 125 rest ltac:(set_solver)))).
  rewrite check_bind. cbn. by rewrite (bind_ok _ _ _ _ _ (drop_one 125 rest d)).
Qed.

Lemma key_here k names first w w' key name w1 rest d : blank w → blank w' → blank w1 →
  spells [SaxString key] name →
  j_key (S k) names first (JsonReader (separator first w w' ++ name ++ w1 ++ 58 :: rest) d) =
  match process_key names key with
  | Some i => Ok (Some i, JsonReader rest d)
  | None => (_ ← j_skip_value; j_key k names false) (JsonReader rest d)
  end.
Proof.
  intros Hw Hw' Hw1 Hn. destruct (spells_starts _ _ Hn) as (Hne & Hs & Hhd). cbn [j_key].
  assert (starts (58 :: rest)) as H58 by (apply starts_token_in; set_solver).
  assert (∀ w', blank w' → read_next_value (new_sax (Only schema_string))
    (JsonReader (w' ++ name ++ w1 ++ 58 :: rest) d) =
    Ok (set_value (UString key) (new_sax (Only schema_string)), JsonReader (w1 ++ 58 :: rest) d)) as Hread.
  { intros w2 Hw2. eapply scalar_here; [done..| |done]. apply blank_ends; [done|right; set_solver]. }
  assert (∀ w', blank w' → (h ← read_next_value (new_sax (Only schema_string));
    name ← match sax_value_ h with UString s => mret s | _ => unset end;
    next ← get_next_token; _ ← jcheck (next =? 58) (json miss_colon); _ ← j_remove_prefix 1;
    match process_key names name with
    | Some index => mret (Some index)
    | None => _ ← j_skip_value; j_key k names false
    end) (JsonReader (w' ++ name ++ w1 ++ 58 :: rest) d) =
    match process_key names key with
    | Some i => Ok (Some i, JsonReader rest d)
    | None => (_ ← j_skip_value; j_key k names false) (JsonReader rest d)
    end) as Hrest.
  { intros w2 Hw2. rewrite (bind_ok _ _ _ _ _ (Hread w2 Hw2)). cbn [sax_value_ set_value].
    rewrite (bind_ok (mret key) _ _ key _ eq_refl).
    rewrite (this_token_here _ _ _ (λ _, match process_key names key with
      | Some index => mret (Some index) | None => _ ← j_skip_value; j_key k names false end)) by done.
    by destruct (process_key names key). }
  unfold separator. destruct first.
  - destruct name as [|b name]; [done|]. cbn [hd] in Hhd.
    rewrite (bind_ok _ _ _ _ _ (token_here w' b (name ++ w1 ++ 58 :: rest) d Hw' Hs)).
    destruct (Z.eqb_spec b 0); [by destruct Hs as (_ & _ & ?)|]. rewrite check_bind.
    destruct (Z.eqb_spec b 125); [set_solver|]. rewrite (bind_ok (mret tt) _ _ tt _ eq_refl).
    apply (Hrest []). by constructor.
  - rewrite <-!app_assoc. cbn [app].
    rewrite (bind_ok _ _ _ _ _ (token_here w 44 _ d Hw (starts_token_in 44 _ ltac:(set_solver)))).
    change (44 =? 0) with false. rewrite check_bind. change (44 =? 125) with false. cbn [negb].
    rewrite (bind_ok (_ ← jcheck (44 =? 44) (json miss_comma_or_curly); j_remove_prefix 1) _ _ tt
      (JsonReader (w' ++ name ++ w1 ++ 58 :: rest) d)); [by apply Hrest|].
    unfold mbind, jreading_bind, jcheck, j_remove_prefix. cbn. by rewrite drop_0.
Qed.

Lemma skip_here events s w rest d : spells events s → blank w → ends rest →
  j_skip_value (JsonReader (w ++ s ++ rest) d) = Ok (tt, JsonReader rest d).
Proof.
  intros Hs Hw Hr. unfold j_skip_value. destruct (handle_anything events (new_sax Anything) eq_refl) as [h Hh].
  by rewrite (bind_ok _ _ _ _ _ (scalar_here Anything events h w s rest d Hs Hw Hr Hh)).
Qed.

Lemma process_key_known (fields : list (field_spec * json_type)) i f t :
  NoDup (map (λ p, f_name p.1) fields) → fields !! i = Some (f, t) →
  process_key (map (λ p, f_name p.1) fields) (f_name f) = Some i.
Proof.
  intros Hnd Hi. unfold process_key.
  assert (map (λ p, f_name p.1) fields !! i = Some (f_name f)) as Hm by (by rewrite list_lookup_fmap, Hi).
  destruct (list_find _ _) as [[j n]|] eqn:Hf; cbn.
  - apply list_find_Some in Hf as (Hj & -> & _). f_equal. by eapply NoDup_lookup.
  - apply list_find_None in Hf. rewrite Forall_lookup in Hf. by apply (Hf i) in Hm.
Qed.

Lemma process_key_unknown names key : key ∉ names → process_key names key = None.
Proof.
  intros Hk. unfold process_key. destruct (list_find _ names) as [[j n]|] eqn:Hf; [|done].
  apply list_find_Some in Hf as (Hj & -> & _). destruct Hk. by eapply list_elem_of_lookup_2.
Qed.

(** What follows a key in the loop of an object. *)
Definition after_key (fuel : nat) (names : list (list Z)) (reads : list (jreading value)) (dest : list (option value))
    (next : option nat) : jreading (list (option value)) :=
  match next with
  | None => mret dest
  | Some index =>
    match reads !! index with
    | Some read => dest ← j_try_read read index dest; j_object_loop fuel names reads false dest
    | None => jthrow (schema schema_invalid_key)
    end
  end.

Lemma object_loop_key fuel names reads first dest r :
  j_object_loop (S fuel) names reads first dest r =
  (next ← j_key (S (length (j_remaining r))) names first; after_key fuel names reads dest next) r.
Proof.
  cbn [j_object_loop]. rewrite size_bind.
  by rewrite Nat2Z.id.
Qed.

(** What is shown of each text: it is read, with white space before it, at any depth
    that leaves room for the type. *)
Definition text_reads (t : json_type) (v : value) (s : list Z) : Prop :=
  ∀ w rest d, blank w → ends rest → 0 <= d → d + json_depth t < 100 →
  json_read t (JsonReader (w ++ s ++ rest) d) = Ok (v, JsonReader rest d).

Definition elements_read (first : bool) (min_size : Z) (t : json_type) (vs : list value) (s : list Z) : Prop :=
  ∀ rest d dest, 0 <= d → d + json_depth t < 100 → bool_decide (dest = []) = first →
  (∀ fuel max_count start, (length s < fuel)%nat →
    min_size * Z.of_nat (length dest) <= start - Z.of_nat (length (s ++ rest)) →
    match max_count with Some m => Z.of_nat (length dest + length vs) <= m | None => True end →
    j_array_loop fuel min_size max_count (json_read t) start dest (JsonReader (s ++ rest) d) =
    Ok (dest ++ vs, JsonReader rest d)) ∧
  j_fixed_loop (length vs) (json_read t) dest (JsonReader (s ++ rest) d) = Ok (dest ++ vs, JsonReader rest d).

Definition names_of (fields : list (field_spec * json_type)) : list (list Z) := map (λ p, f_name p.1) fields.

Definition members_read (first : bool) (fields : list (field_spec * json_type)) (es : list (nat * value))
    (s : list Z) : Prop :=
  ∀ rest d dest k fuel, NoDup (names_of fields) → NoDup es.*1 →
  0 <= d → Forall (λ p, d + json_depth p.2 < 100) fields →
  Forall (λ e, dest !! e.1 = Some None) es → (length s < k)%nat → (length s <= fuel)%nat →
  (next ← j_key k (names_of fields) first; after_key fuel (names_of fields) (map (λ p, json_read p.2) fields) dest next)
    (JsonReader (s ++ rest) d) = Ok (foldl set_field dest es, JsonReader rest d).

Lemma elements_ends min_size t vs s rest : elements_text false min_size t vs s → ends (s ++ rest).
Proof.
  inversion 1; subst; rewrite <-!app_assoc; [apply blank_ends; [done|right; set_solver]|by apply separator_ends].
Qed.

Lemma members_ends fields es s rest : members_text false fields es s → ends (s ++ rest).
Proof.
  inversion 1; subst; rewrite <-!app_assoc;
    [apply blank_ends; [done|right; set_solver]|by apply separator_ends..].
Qed.

Lemma ends_quote rest : ends (34 :: rest).
Proof. right. set_solver. Qed.

Lemma starts_quote rest : starts (34 :: rest).
Proof. apply starts_token_in. set_solver. Qed.

Lemma reads_safe z w1 s w2 : blank w1 → blank w2 → spells [SaxUint z] s → u64_fits z = true →
  text_reads JSafe (VInteger z) ([34] ++ w1 ++ s ++ w2 ++ [34]).
Proof.
  intros Hw1 Hw2 Hs Hz w rest d Hw Hr Hd Hdep. cbn [json_read]. rewrite <-!app_assoc. cbn [app].
  erewrite (bind_ok safe_unsigned_integer).
  2: { unfold safe_unsigned_integer.
       rewrite (this_token_here _ _ _ (λ _, out ← j_unsigned_integer; next ← get_next_token;
         _ ← jcheck (next =? 34) (json miss_quotation_mark); _ ← j_remove_prefix 1; mret out))
         by (done || apply starts_quote).
       erewrite (bind_ok j_unsigned_integer).
       2: { unfold j_unsigned_integer. erewrite bind_ok.
            2: { eapply scalar_here; [exact Hs|exact Hw1| |reflexivity]. apply blank_ends; [done|apply ends_quote]. }
            cbn. reflexivity. }
       rewrite (this_token_here _ _ _ (λ _, mret z)) by (done || apply starts_quote). reflexivity. }
  unfold j_cast_unsigned. unfold u64_fits, u64_max in Hz. apply andb_prop in Hz as [_ Hz%Z.leb_le].
  change (2 ^ (8 * Z.of_nat 8)) with (2 ^ 64). destruct (Z.ltb_spec (2 ^ 64 - 1) z); [lia|]. done.
Qed.

(** A scalar is read by the handler that expects it. *)
Lemma reads_scalar {A} e es h (f : rapidjson_sax → jreading A) s w rest d a :
  spells es s → blank w → ends rest → handle_events es (new_sax e) = Some h →
  f h (JsonReader rest d) = Ok (a, JsonReader rest d) →
  (read_next_value (new_sax e) ≫= f) (JsonReader (w ++ s ++ rest) d) = Ok (a, JsonReader rest d).
Proof. intros Hs Hw Hr Hh Hf. by rewrite (bind_ok _ _ _ _ _ (scalar_here e es h w s rest d Hs Hw Hr Hh)). Qed.

Lemma reads_int n z s :
  (spells [SaxInt z] s ∧ - 2 ^ (8 * Z.of_nat n - 1) <= z < 0) ∨
  (spells [SaxUint z] s ∧ 0 <= z < 2 ^ (8 * Z.of_nat n - 1) ∧ z <= imax) →
  text_reads (JInt n) (VInteger z) s.
Proof.
  intros Hz w rest d Hw Hr Hd Hdep. cbn [json_read].
  rewrite (bind_ok j_integer _ _ z (JsonReader rest d)).
  - assert (- 2 ^ (8 * Z.of_nat n - 1) <= z < 2 ^ (8 * Z.of_nat n - 1)) as Hb.
    { pose proof (Z.pow_nonneg 2 (8 * Z.of_nat n - 1)). lia. }
    unfold j_cast_signed. destruct (Z.ltb_spec z (- 2 ^ (8 * Z.of_nat n - 1))); [lia|].
    destruct (Z.ltb_spec (2 ^ (8 * Z.of_nat n - 1) - 1) z); [lia|]. done.
  - destruct Hz as [[Hs _]|(Hs & _ & Hm)]; (eapply reads_scalar; [exact Hs|done..|]).
    + reflexivity.
    + cbn. unfold jcheck. destruct (Z.ltb_spec imax z); [lia|]. reflexivity.
Qed.

Lemma reads_uint n z s : spells [SaxUint z] s → 0 <= z < 2 ^ (8 * Z.of_nat n) → text_reads (JUint n) (VInteger z) s.
Proof.
  intros Hs Hz w rest d Hw Hr Hd Hdep. cbn [json_read].
  rewrite (bind_ok j_unsigned_integer _ _ z (JsonReader rest d)).
  - unfold j_cast_unsigned. destruct (Z.ltb_spec (2 ^ (8 * Z.of_nat n) - 1) z); [lia|done].
  - by eapply reads_scalar; [exact Hs|done..| |].
Qed.

Lemma reads_hex {A} n l s w rest d (f : list Z → jreading A) a : 34 ∉ s → to_buffer n s = Some l → blank w →
  f s (JsonReader rest d) = Ok (a, JsonReader rest d) →
  (get_next_string ≫= f) (JsonReader (w ++ ([34] ++ s ++ [34]) ++ rest) d) = Ok (a, JsonReader rest d).
Proof.
  intros Hq Hb Hw Hf. rewrite <-!app_assoc. by rewrite (bind_ok _ _ _ _ _ (string_here w s rest d Hw Hq)).
Qed.

Lemma reads_array min_size max_count t vs s : elements_read true min_size t vs s →
  match max_count with Some m => Z.of_nat (length vs) <= m | None => True end →
  text_reads (JArray min_size max_count t) (VArray vs) ([91] ++ s).
Proof.
  intros He Hm w rest d Hw Hr Hd Hdep. cbn [json_depth] in Hdep. cbn [json_read app].
  rewrite (bind_ok (j_array _ _ _) _ _ vs (JsonReader rest d)); [done|]. unfold j_array.
  pose proof (json_depth_nonneg t). rewrite (bind_ok _ _ _ _ _ (start_array_here w (s ++ rest) d Hw ltac:(lia))).
  rewrite size_bind. cbn [j_remaining].
  destruct (He rest (d + 1) []) as [Hloop _]; [lia|lia|done|].
  rewrite (bind_ok _ _ _ _ _ (Hloop (S (Z.to_nat (Z.of_nat (length (s ++ rest))))) max_count (Z.of_nat (length (s ++ rest)))
    ltac:(rewrite length_app; lia) ltac:(cbn; lia) Hm)). cbn [app].
  by rewrite (bind_ok _ _ _ _ _ (decrement_here rest d Hd)).
Qed.

Lemma reads_fixed t vs s : elements_read true 0 t vs s → text_reads (JFixed (length vs) t) (VArray vs) ([91] ++ s).
Proof.
  intros He w rest d Hw Hr Hd Hdep. cbn [json_depth] in Hdep. cbn [json_read app].
  rewrite (bind_ok (j_fixed _ _) _ _ vs (JsonReader rest d)); [done|]. unfold j_fixed.
  pose proof (json_depth_nonneg t). rewrite (bind_ok _ _ _ _ _ (start_array_here w (s ++ rest) d Hw ltac:(lia))).
  destruct (He rest (d + 1) []) as [_ Hloop]; [lia|lia|done|].
  rewrite (bind_ok _ _ _ _ _ Hloop). cbn [app]. by rewrite (bind_ok _ _ _ _ _ (decrement_here rest d Hd)).
Qed.

Lemma read_elements_end first min_size t w : blank w → elements_read first min_size t [] (w ++ [93]).
Proof.
  intros Hw rest d dest Hd Hdep Hfirst. rewrite <-app_assoc. cbn [app]. split.
  - intros [|fuel] max_count start Hfuel _ _; [lia|]. cbn [j_array_loop]. rewrite Hfirst.
    rewrite (bind_ok _ _ _ _ _ (array_end_here first w rest d Hw)). by rewrite app_nil_r.
  - cbn [j_fixed_loop length]. rewrite Hfirst.
    rewrite (bind_ok _ _ _ _ _ (array_end_here first w rest d Hw)). by rewrite app_nil_r.
Qed.

Lemma read_elements_next first min_size t w w' v s vs rest0 : blank w → blank w' → json_text t v s →
  text_reads t v s → min_size <= Z.of_nat (length s) → elements_text false min_size t vs rest0 →
  elements_read false min_size t vs rest0 →
  elements_read first min_size t (v :: vs) (separator first w w' ++ s ++ rest0).
Proof.
  intros Hw Hw' Ht Hv Hmin Htext He rest d dest Hd Hdep Hfirst.
  destruct (json_text_starts _ _ _ Ht) as (Hne & Hs & Hhd). rewrite <-!app_assoc.
  pose proof (array_next_here first w w' s (rest0 ++ rest) d Hw Hw' Hne Hs Hhd) as Hnext.
  pose proof (Hv (left_blank first w') (rest0 ++ rest) d (left_blank_blank _ _ Hw')
    (elements_ends _ _ _ _ rest Htext) Hd Hdep) as Hread.
  destruct (He rest d (dest ++ [v]) Hd Hdep) as [Hloop Hfixed].
  { apply bool_decide_eq_false. intros [_ ?]%app_eq_nil. done. }
  assert (length s ≠ 0)%nat as Hlen by (by destruct s).
  split; [intros [|fuel] max_count start Hfuel Hmins Hmax; [lia|]; cbn [j_array_loop]|cbn [j_fixed_loop length]];
    rewrite Hfirst, (bind_ok _ _ _ _ _ Hnext).
  - rewrite !length_app in Hfuel. rewrite !length_app in Hmins.
    assert (match max_count with Some m => negb (m <=? Z.of_nat (length dest)) | None => true end = true) as ->.
    { destruct max_count as [m|]; [|done]. cbn in Hmax. apply negb_true_iff, Z.leb_gt. lia. }
    rewrite check_bind, (bind_ok _ _ _ _ _ Hread).
    rewrite size_bind. cbn [j_remaining].
    assert (min_size * Z.of_nat (length (dest ++ [v])) <= start - Z.of_nat (length (rest0 ++ rest))) as Hmin2
      by (rewrite !length_app; cbn [length]; lia).
    assert (negb ((start - Z.of_nat (length (rest0 ++ rest))) / Z.of_nat (length (dest ++ [v])) <? min_size) = true) as ->.
    { apply negb_true_iff, Z.ltb_ge, Z.div_le_lower_bound; [rewrite length_app; cbn [length]; lia|lia]. }
    rewrite check_bind, Hloop; [by rewrite <-app_assoc|lia|exact Hmin2|].
    destruct max_count as [m|]; [|done]. rewrite length_app. cbn [length] in *. lia.
  - cbn [negb]. rewrite check_bind, (bind_ok _ _ _ _ _ Hread), Hfixed. by rewrite <-app_assoc.
Qed.

Lemma read_members_end first fields w : blank w → members_read first fields [] (w ++ [125]).
Proof.
  intros Hw rest d dest [|k] fuel Hnames Hes Hd Hdep Hdest Hk Hf; [lia|]. rewrite <-app_assoc. cbn [app].
  by rewrite (bind_ok _ _ _ _ _ (key_end_here k (names_of fields) first w rest d Hw)).
Qed.

Lemma read_members_known first fields w w' name w1 w2 i f t v s es rest0 :
  blank w → blank w' → blank w1 → blank w2 → spells [SaxString (f_name f)] name →
  fields !! i = Some (f, t) → text_reads t v s → members_text false fields es rest0 →
  members_read false fields es rest0 →
  members_read first fields ((i, v) :: es) (separator first w w' ++ name ++ w1 ++ [58] ++ w2 ++ s ++ rest0).
Proof.
  intros Hw Hw' Hw1 Hw2 Hname Hi Hv Htext Hes rest d dest [|k] fuel Hnames Hnd Hd Hdep Hdest Hk Hf; [lia|].
  rewrite <-!app_assoc. cbn [app]. cbn [fmap list_fmap fst] in Hnd. apply NoDup_cons in Hnd as [Hnot Hnd].
  apply Forall_cons in Hdest as [Hdi Hdest]. cbn [fst] in Hdi, Hnot.
  rewrite (bind_ok (j_key _ _ _) _ _ (Some i) (JsonReader (w2 ++ s ++ rest0 ++ rest) d)).
  2: { rewrite (key_here _ _ _ _ _ (f_name f)) by done. unfold names_of. by rewrite (process_key_known fields i f t). }
  cbn [after_key]. rewrite list_lookup_fmap, Hi. cbn [fmap option_fmap option_map snd].
  pose proof (proj1 (Forall_lookup _ _) Hdep _ _ Hi) as Hdt. cbn [snd] in Hdt.
  pose proof (members_ends _ _ _ rest Htext) as Hends.
  rewrite (bind_ok (j_try_read _ _ _) _ _ (<[i := Some v]> dest) (JsonReader (rest0 ++ rest) d)).
  2: { unfold j_try_read. rewrite Hdi. cbn [mjoin option_join]. rewrite bool_decide_eq_true_2, check_bind by done.
       by rewrite (bind_ok _ _ _ _ _ (Hv w2 (rest0 ++ rest) d Hw2 Hends Hd Hdt)). }
  rewrite !length_app in Hf. cbn [length] in Hf. destruct fuel as [|fuel]; [lia|]. rewrite object_loop_key.
  apply Hes; try done; [|cbn [j_remaining]; rewrite length_app; lia|lia].
  rewrite Forall_forall in Hdest |- *. intros [j v'] Hin. cbn [fst]. rewrite list_lookup_insert_ne.
  - apply (Hdest _ Hin).
  - intros <-. destruct Hnot. apply list_elem_of_fmap. by exists (i, v').
Qed.

Lemma read_members_unknown first fields w w' key name w1 w2 events s es rest0 :
  blank w → blank w' → blank w1 → blank w2 → spells [SaxString key] name →
  key ∉ names_of fields → spells events s → members_text false fields es rest0 →
  members_read false fields es rest0 →
  members_read first fields es (separator first w w' ++ name ++ w1 ++ [58] ++ w2 ++ s ++ rest0).
Proof.
  intros Hw Hw' Hw1 Hw2 Hname Hkey Hs Htext Hes rest d dest [|k] fuel Hnames Hnd Hd Hdep Hdest Hk Hf; [lia|].
  rewrite <-!app_assoc. cbn [app]. rewrite !length_app in Hf, Hk. cbn [length] in Hf, Hk.
  pose proof (Hes rest d dest k fuel Hnames Hnd Hd Hdep Hdest ltac:(lia) ltac:(lia)) as Hrest. revert Hrest.
  unfold mbind, jreading_bind. rewrite (key_here _ _ _ _ _ key) by done. rewrite process_key_unknown by done.
  pose proof (members_ends _ _ _ rest Htext) as Hends.
  by rewrite (bind_ok _ _ _ _ _ (skip_here events s w2 (rest0 ++ rest) d Hs Hw2 Hends)).
Qed.

Lemma fields_room (fields : list (field_spec * json_type)) d n :
  d + (1 + foldr (λ p d, Z.max (json_depth p.2) d) 0 fields) < n → Forall (λ p, d + 1 + json_depth p.2 < n) fields.
Proof.
  induction fields as [|p fields IH]; intros H'; [by apply Forall_nil|]. cbn in H'. apply Forall_cons.
  split; [lia|]. apply IH. lia.
Qed.

Lemma reads_object fields es s :
  members_read true fields es s → NoDup (names_of fields) → NoDup es.*1 → Forall (λ e, e.1 < length fields)%nat es →
  Forall (λ p, negb (is_required p.1 && bool_decide (p.2 = None)) = true)
    (zip (map fst fields) (foldl set_field (replicate (length fields) None) es)) →
  text_reads (JObject fields) (VObject (object_of fields es)) ([123] ++ s).
Proof.
  intros Hm Hnames Hes Hbound Hreq w rest d Hw Hr Hd Hdep. cbn [json_depth] in Hdep. cbn [json_read app].
  rewrite (bind_ok (j_object _) _ _ (object_of fields es) (JsonReader rest d)); [done|]. unfold j_object.
  assert (0 <= foldr (λ p d, Z.max (json_depth p.2) d) 0 fields) by (clear; induction fields; cbn; lia).
  rewrite (bind_ok _ _ _ _ _ (start_object_here w (s ++ rest) d Hw ltac:(lia))).
  rewrite size_bind. cbn [j_remaining]. rewrite Nat2Z.id, !map_map, length_map. cbn [fst snd].
  change (map (λ p : field_spec * json_type, p.1) fields) with (map fst fields).
  assert (Forall (λ e, replicate (length fields) (None : option value) !! e.1 = Some None) es) as Hnone.
  { eapply Forall_impl; [exact Hbound|]. intros e He. by apply lookup_replicate. }
  rewrite (bind_ok (j_object_loop _ _ _ _ _) _ _
    (foldl set_field (replicate (length fields) None) es) (JsonReader rest (d + 1))).
  2: { rewrite object_loop_key. apply Hm; try done; [lia|by apply fields_room|cbn [j_remaining]..];
       rewrite length_app; lia. }
  assert (forallb (λ p, negb (is_required p.1 && bool_decide (p.2 = None)))
    (zip (map fst fields) (foldl set_field (replicate (length fields) None) es)) = true) as ->.
  { apply forallb_forall. intros p Hp%list_elem_of_In. by apply (proj1 (Forall_forall _ _) Hreq). }
  rewrite check_bind. by rewrite (bind_ok _ _ _ _ _ (decrement_here rest d Hd)).
Qed.

Lemma members_bound first fields es s : members_text first fields es s → Forall (λ e, e.1 < length fields)%nat es.
Proof.
  induction 1; [by apply Forall_nil| |done]. apply Forall_cons. split; [|done]. by eapply lookup_lt_Some.
Qed.

(** Every text of an object is read as that object. *)
Lemma json_text_reads t v s : json_text t v s → text_reads t v s.
Proof.
  revert t v s. apply (json_text_mut _ _ text_reads elements_read members_read).
  - intros b s Hs w rest d Hw Hr Hd _. cbn [json_read].
    rewrite (bind_ok j_boolean _ _ b (JsonReader rest d)); [done|by eapply reads_scalar].
  - intros z s Hs w rest d Hw Hr Hd _. cbn [json_read].
    rewrite (bind_ok j_real _ _ z (JsonReader rest d)); [done|by eapply reads_scalar].
  - intros l s Hs w rest d Hw Hr Hd _. cbn [json_read].
    rewrite (bind_ok j_string _ _ l (JsonReader rest d)); [done|by eapply reads_scalar].
  - intros z w s w' Hw Hw' Hs Hz. by apply reads_safe.
  - intros n z s Hs Hz. apply reads_int. by left.
  - intros n z s Hs Hz Hm. apply reads_int. by right.
  - intros n z s Hs Hz. by apply reads_uint.
  - intros l s Hq Hb w rest d Hw Hr Hd _. cbn [json_read].
    rewrite (bind_ok j_binary _ _ l (JsonReader rest d)); [done|]. eapply reads_hex; [done..|by rewrite Hb].
  - intros n l s Hq Hb w rest d Hw Hr Hd _. cbn [json_read].
    rewrite (bind_ok (j_blob n) _ _ l (JsonReader rest d)); [done|]. eapply reads_hex; [done..|by rewrite Hb].
  - intros min_size max_count t vs s _ He Hm. by apply reads_array.
  - intros n t vs s _ He <-. by apply reads_fixed.
  - intros ok e t v s _ Hv Hok w rest d Hw Hr Hd Hdep. cbn [json_read].
    rewrite (bind_ok _ _ _ _ _ (Hv w rest d Hw Hr Hd Hdep)). by rewrite Hok.
  - intros fields es s Htext Hm Hnames Hes Hreq. apply reads_object; try done. by eapply members_bound.
  - intros. by apply read_elements_end.
  - intros. by eapply read_elements_next.
  - intros. by apply read_members_end.
  - intros. by eapply read_members_known.
  - intros. by eapply read_members_unknown.
Qed.

(** Every JSON text of an object, with white space between any tokens, members in
    any order, members that are not known and others left out, is read as that object,
    whatever follows it. *)
Theorem json_texts_read t v w s rest :
  json_text t v s → blank w → ends rest → json_depth t < 100 →
  json_from_bytes (json_read t) (w ++ s ++ rest) = Ok v.
Proof.
  intros Ht Hw Hr Hd. unfold json_from_bytes.
  by rewrite (bind_ok _ _ _ _ _ (json_text_reads t v s Ht w rest 0 Hw Hr ltac:(lia) Hd)).
Qed.

End texts_read.

(** ** A library for the examples

    Plain strings, [true], [false] and unsigned integers, and hexadecimal bytes. *)

Definition is_blankb (b : Z) : bool := bool_decide (b ∈ [32; 9; 10; 13]).

Fixpoint blanks (l : list Z) : nat :=
  match l with
  | b :: l => if is_blankb b then S (blanks l) else O
  | [] => O
  end.

Definition is_digit (b : Z) : bool := (48 <=? b) && (b <=? 57).

Fixpoint digits (l : list Z) : list Z :=
  match l with
  | b :: l => if is_digit b then b :: digits l else []
  | [] => []
  end.

Definition number (ds : list Z) : Z := foldl (λ z d, z * 10 + (d - 48)) 0 ds.

Definition true_text : list Z := [116; 114; 117; 101].
Definition false_text : list Z := [102; 97; 108; 115; 101].

Definition example_scalar (l : list Z) : option (sax_event * nat) :=
  if decide (hd 0 l = 34) then
    '(s, _) ← before_quote (tail l);
    if forallb byteb s then Some (SaxString s, (length s + 2)%nat) else None
  else if decide (take 4 l = true_text) then Some (SaxBool true, 4%nat)
  else if decide (take 5 l = false_text) then Some (SaxBool false, 5%nat)
  else if decide (digits l = []) then None
  else if u64_fits (number (digits l)) then Some (SaxUint (number (digits l)), length (digits l)) else None.

Definition hex_digit (b : Z) : option Z :=
  if is_digit b then Some (b - 48)
  else if (97 <=? b) && (b <=? 102) then Some (b - 87)
  else None.

Fixpoint unhex (s : list Z) : option (list Z) :=
  match s with
  | [] => Some []
  | a :: b :: s => x ← hex_digit a; y ← hex_digit b; l ← unhex s; Some (16 * x + y :: l)
  | _ => None
  end.

#[export] Instance example_library : JsonLibrary := {|
  parse l :=
    let n := blanks l in
    match example_scalar (drop n l) with
    | Some (e, k) => ([e], ParseDone (n + k))
    | None => ([], ParseError unspecific_syntax)
    end;
  skip_whitespace := blanks;
  double_of _ := 0;
  to_buffer n s :=
    l ← unhex s;
    if bool_decide (length l = n) && forallb byteb l then Some l else None |}.

Lemma blanks_length l : (blanks l <= length l)%nat.
Proof. induction l as [|b l IH]; cbn; [lia|]. destruct (is_blankb b); lia. Qed.

Lemma blanks_app w rest : blank w → starts rest → blanks (w ++ rest) = length w.
Proof.
  induction 1 as [|b w Hb _ IH]; intros Hs; cbn.
  - destruct rest as [|b rest]; [done|]. cbn. unfold is_blankb. rewrite bool_decide_eq_false_2; [done|].
    destruct Hs as [Hs _]. intros Hin. apply Hs. unfold is_blank. set_solver.
  - unfold is_blankb at 1. rewrite bool_decide_eq_true_2; [by rewrite IH|].
    destruct Hb as [-> | [-> | [-> | ->]]]; set_solver.
Qed.

Lemma before_quote_length l s rest : before_quote l = Some (s, rest) → (length s < length l)%nat.
Proof.
  revert s rest. induction l as [|b l IH]; intros s rest; cbn; [done|].
  destruct (b =? 34); [intros [= <- <-]; cbn; lia|]. destruct (before_quote l) as [[s' rest']|]; cbn; [|done].
  intros [= <- <-]. specialize (IH _ _ eq_refl). cbn. lia.
Qed.

Lemma digits_length l : (length (digits l) <= length l)%nat.
Proof. induction l as [|b l IH]; cbn; [lia|]. destruct (is_digit b); cbn; lia. Qed.

Lemma example_scalar_ok l e k : example_scalar l = Some (e, k) →
  (0 < k <= length l)%nat ∧ scalar e = true ∧ starts l ∧ hd 0 l ∉ [93; 125].
Proof.
  unfold example_scalar. destruct l as [|b l]; [done|]. cbn [hd tail]. unfold starts, is_blank.
  destruct (decide (b = 34)) as [-> |]; [|destruct (decide (take 4 (b :: l) = true_text)) as [Ht|]];
    [| |destruct (decide (take 5 (b :: l) = false_text)) as [Hf|]];
    [| | |destruct (decide (digits (b :: l) = [])) as [|Hd]; [done|]].
  - destruct (before_quote l) as [[s rest]|] eqn:Hq; cbn; [|done]. destruct (forallb byteb s) eqn:Hs; [|done].
    intros [= <- <-]. apply before_quote_length in Hq. cbn. split_and!; [lia..|done|lia|done|done|set_solver].
  - intros [= <- <-]. injection Ht as -> Ht. pose proof (f_equal length Ht) as Hl. rewrite length_take in Hl.
    cbn [length] in *. split_and!; [lia..|done|lia|done|done|set_solver].
  - intros [= <- <-]. injection Hf as -> Hf. pose proof (f_equal length Hf) as Hl. rewrite length_take in Hl.
    cbn [length] in *. split_and!; [lia..|done|lia|done|done|set_solver].
  - destruct (u64_fits _) eqn:Hu; [|done]. intros [= <- <-]. pose proof (digits_length (b :: l)).
    cbn [digits] in *. destruct (is_digit b) eqn:Hb; [|done]. unfold is_digit in Hb.
    apply andb_prop in Hb as [?%Z.leb_le ?%Z.leb_le]. cbn [length] in *.
    split_and!; [lia..|exact Hu|lia|lia|lia|intros Hin; set_unfold in Hin; lia].
Qed.

#[export] Instance example_laws : JsonLaws.
Proof.
  split.
  - apply blanks_length.
  - intros l es n. cbn. destruct (example_scalar _) as [[e k]|] eqn:He; [|done]. intros [= <- <-].
    apply example_scalar_ok in He as [Hk _]. rewrite length_drop in Hk. pose proof (blanks_length l). lia.
  - intros l es n. cbn. destruct (example_scalar _) as [[e k]|] eqn:He; [|done]. intros [= <- _].
    by apply example_scalar_ok in He as (_ & ? & _).
  - done.
  - intros n s l. cbn. destruct (unhex s) as [l'|]; [|done]. cbn.
    destruct (bool_decide_reflect (length l' = n)); [|done]. cbn. destruct (forallb byteb l') eqn:Hb; [|done].
    by intros [= <-].
Qed.

#[export] Instance example_texts : JsonTexts.
Proof.
  refine {| spells es s := ∀ rest, ends rest → ∃ e, es = [e] ∧ example_scalar (s ++ rest) = Some (e, length s) |}.
  - intros es s Hs. destruct (Hs [] I) as (e & -> & He). rewrite app_nil_r in He.
    apply example_scalar_ok in He as (Hk & _ & Hst & Hhd). split_and!; [by destruct s; cbn in Hk; [lia|]|done|done].
  - intros es s w rest Hs Hw Hr. cbn. destruct (Hs rest Hr) as (e & -> & He).
    rewrite blanks_app; [|done|by apply example_scalar_ok in He as (_ & _ & ? & _)].
    by rewrite drop_app_length, He.
  - apply blanks_app.
Defined.

(** What it spells. *)
Lemma spells_string s : 34 ∉ s → forallb byteb s = true → spells [SaxString s] ([34] ++ s ++ [34]).
Proof.
  intros Hq Hs rest _. exists (SaxString s). split; [done|]. unfold example_scalar. rewrite <-!app_assoc. cbn [app hd tail].
  rewrite decide_True, before_quote_here by done. cbn. by rewrite Hs, length_app, Nat.add_1_r, Nat.add_comm.
Qed.

Lemma digits_all s rest : Forall (λ b, is_digit b = true) s → ends rest → digits (s ++ rest) = s.
Proof.
  induction 1 as [|b s Hb _ IH]; intros Hr; cbn.
  - destruct rest as [|b rest]; [done|]. cbn. destruct (is_digit b) eqn:Hb; [|done]. unfold is_digit in Hb.
    apply andb_prop in Hb as [?%Z.leb_le ?%Z.leb_le]. destruct Hr as [[? | [? | [? | ?]]] | Hr]; [lia..|].
    set_unfold in Hr. lia.
  - by rewrite Hb, IH.
Qed.

Lemma spells_number s : s ≠ [] → Forall (λ b, is_digit b = true) s → u64_fits (number s) = true →
  spells [SaxUint (number s)] s.
Proof.
  intros Hne Hs Hu rest Hr. exists (SaxUint (number s)). split; [done|]. unfold example_scalar.
  rewrite digits_all by done. destruct s as [|b s]; [done|]. cbn [hd app].
  apply Forall_cons in Hs as [Hb Hs]. pose proof Hb as Hb'. unfold is_digit in Hb'.
  apply andb_prop in Hb' as [?%Z.leb_le ?%Z.leb_le].
  destruct (decide (b = 34)); [lia|]. destruct (decide (take 4 (b :: s ++ rest) = true_text)) as [Ht|]; [injection Ht; lia|].
  destruct (decide (take 5 (b :: s ++ rest) = false_text)) as [Ht|]; [injection Ht; lia|].
  by rewrite decide_False, Hu by done.
Qed.

Definition example_json : json_type :=
  JObject [(FieldSpec (chars "n") 0 Required, JUint 4);
           (FieldSpec (chars "l") 0 (Defaulted (VArray [])), JArray 0 (Some 2) JSafe)].

(** An unknown member [x], then [l] with one element, then [n], with white space. *)
Definition example_text : list Z :=
  [123] ++ (([34] ++ chars "x" ++ [34]) ++ [] ++ [58] ++ [] ++ chars "true" ++
  (([] ++ [44] ++ [32]) ++ ([34] ++ chars "l" ++ [34]) ++ [] ++ [58] ++ [] ++ ([91] ++ ([] ++ ([34] ++ [] ++ chars "7" ++ [] ++ [34]) ++ ([] ++ [93]))) ++
  (([] ++ [44] ++ [32]) ++ ([34] ++ chars "n" ++ [34]) ++ [] ++ [58] ++ [] ++ chars "12" ++ ([32] ++ [125])))).

Lemma example_text_is : json_text example_json (VObject [Some (VInteger 12); Some (VArray [VInteger 7])]) example_text.
Proof.
  assert (∀ s : list Z, 34 ∉ s → forallb byteb s = true → spells [SaxString s] ([34] ++ s ++ [34])) as Hstr
    by apply spells_string.
  assert (blank []) as Hnil by constructor.
  assert (blank [32]) as Hsp by (constructor; [by left|done]).
  apply (text_object [(FieldSpec (chars "n") 0 Required, JUint 4);
           (FieldSpec (chars "l") 0 (Defaulted (VArray [])), JArray 0 (Some 2) JSafe)]
    [(1%nat, VArray [VInteger 7]); (0%nat, VInteger 12)]).
  - apply (members_unknown true _ [] [] (chars "x") _ [] [] [SaxBool true]); try done.
    + apply Hstr; [vm_compute; set_solver|done].
    + vm_compute. set_solver.
    + intros rest _. by exists (SaxBool true).
    + eapply (members_known false _ [] [32] _ [] [] 1 _ _ (VArray [VInteger 7])); [done..| |reflexivity| |].
      * apply Hstr; [vm_compute; set_solver|done].
      * apply text_array; [|done]. apply (elements_next true _ _ [] []); [done..| | |by apply elements_end].
        -- apply text_safe; [done..| |done]. apply (spells_number (chars "7")); [done|by repeat constructor|done].
        -- vm_compute. discriminate.
      * eapply (members_known false _ [] [32] _ [] [] 0 _ _ (VInteger 12)); [done..| |reflexivity| |by apply members_end].
        -- apply Hstr; [vm_compute; set_solver|done].
        -- apply text_unsigned; [|done]. apply (spells_number (chars "12")); [done|by repeat constructor|done].
  - vm_compute. repeat constructor; set_solver.
  - vm_compute. repeat constructor; set_solver.
  - vm_compute. repeat constructor.
Qed.

Lemma json_texts_read_witness :
  json_depth example_json < 100 ∧
  json_from_bytes (json_read example_json) ([] ++ example_text ++ []) =
    Ok (VObject [Some (VInteger 12); Some (VArray [VInteger 7])]).
Proof.
  split; [reflexivity|].
  apply (json_texts_read _ _ [] example_text []); [exact example_text_is|constructor|exact I|reflexivity].
Defined.

Lemma json_from_bytes_safe_witness :
  json_type_ok example_json = true ∧
  ∀ r v r', 0 <= j_depth r → json_read example_json r = Ok (v, r') → j_depth r' = j_depth r.
Proof.
  assert (json_type_ok example_json = true) as Hok by reflexivity. split; [exact Hok|].
  destruct (json_from_bytes_safe example_json example_text Hok) as (_ & Hclosed & _). exact Hclosed.
Defined.

(** Bytes after the first value are not looked at. *)
Lemma trailing_bytes : json_from_bytes (json_read (JUint 4)) (chars "12 and so on") = Ok (VInteger 12).
Proof. reflexivity. Qed.
