(* ===== verification/JsonWrite.v ===== *)
(** * Writing JSON (src/src/wire/json/write.cpp, wire/write.h)

    [json_writer] hands every value to the writer of rapidjson, as the events [Json]
    reads: [json_write] is the list of them for an object of a [json_type].

    Shown is that an object that was written is read back ([json_from_to_bytes]), also
    as a type whose fields may be left out or whose arrays are limited ([reads_as]),
    and that the document is complete.  Doubles are left out of that: rapidjson does
    not promise to read back what it prints. *)

From S2P Require Import Prelude Data Wire Json.

(** ** The library

    rapidjson: the text of the calls of a document, and [u64toa]; epee:
    [to_hex::string]. *)
Class JsonWriter := {
  written : list sax_event → list Z;
  u64toa : Z → list Z;
  to_hex : list Z → list Z }.

(** ** The writer (write.cpp) *)

Section writer.
Context `{JsonWriter}.

(** What the formatter was called with. *)
Definition json_writing := list sax_event.

Definition w_boolean (source : bool) : json_writing := [SaxBool source].
Definition w_integer (source : Z) : json_writing := [SaxInt source].
Definition w_unsigned_integer (source : Z) : json_writing := [SaxUint source].
Definition w_real (source : Z) : json_writing := [SaxDouble source].
Definition w_string (source : list Z) : json_writing := [SaxString source].
Definition w_binary (source : list Z) : json_writing := w_string (to_hex source).
Definition w_key (str : list Z) : json_writing := [SaxKey str].

(** [to_string] *)
Definition w_safe (source : Z) : json_writing := w_string (u64toa source).

(** [wire_write::array] *)
Definition w_array (write : value → json_writing) (l : list value) : json_writing :=
  [SaxStartArray] ++ concat (map write l) ++ [SaxEndArray].

(** [wire_write::field] *)
Definition w_field (f : field_spec) (write : value → json_writing) (v : option value) : json_writing :=
  match v with
  | Some v' => if available f v then w_key (f_name f) ++ write v' else []
  | None => []
  end.

Fixpoint w_fields (fields : list (field_spec * (value → json_writing))) (values : list (option value)) : json_writing :=
  match fields, values with
  | (f, write) :: fields, v :: values => w_field f write v ++ w_fields fields values
  | _, _ => []
  end.

(** [wire_write::object] *)
Definition w_object (fields : list (field_spec * (value → json_writing))) (values : list (option value)) : json_writing :=
  [SaxStartObject] ++ w_fields fields values ++ [SaxEndObject].

(** [write_bytes] *)
Fixpoint json_write (t : json_type) (v : value) {struct t} : json_writing :=
  match t, v with
  | JBool, VBool b => w_boolean b
  | JReal, VReal z => w_real z
  | JString, VBytes l => w_string l
  | JBinary, VBytes l | JBlob _, VBytes l => w_binary l
  | JSafe, VInteger z => w_safe z
  | JInt _, VInteger z => w_integer z
  | JUint _, VInteger z => w_unsigned_integer z
  | JArray _ _ t, VArray l | JFixed _ t, VArray l => w_array (json_write t) l
  | JChecked _ _ t, v => json_write t v
  | JObject fields, VObject l => w_object (map (λ p, (p.1, json_write p.2)) fields) l
  | _, _ => []
  end.

(** [IsComplete]: a value, and no array or object is open. *)
Fixpoint open_levels (es : json_writing) (n : nat) : option nat :=
  match es with
  | [] => Some n
  | SaxStartArray :: es | SaxStartObject :: es => open_levels es (S n)
  | SaxEndArray :: es | SaxEndObject :: es => match n with S n => open_levels es n | O => None end
  | _ :: es => open_levels es n
  end.

Definition is_complete (es : json_writing) : bool :=
  negb (bool_decide (es = [])) && bool_decide (open_levels es 0 = Some O).

(** [wire_write::to_bytes] with [json_slice_writer], which ends in [take_json]. *)
Definition json_to_bytes (t : json_type) (v : value) : expect (list Z) :=
  let es := json_write t v in
  if is_complete es then Ok (written es) else Err logic_error.

End writer.

(** ** What rapidjson writes *)

(** A call that is a value by itself. *)
Definition is_scalar (e : sax_event) : bool :=
  match e with
  | SaxNull | SaxBool _ | SaxInt _ | SaxUint _ | SaxDouble _ | SaxString _ => true
  | _ => false
  end.

(** The calls of one value. *)
Inductive one_value : list sax_event → Prop :=
  | one_scalar e : is_scalar e = true → one_value [e]
  | one_array es : Forall one_value es → one_value ([SaxStartArray] ++ concat es ++ [SaxEndArray])
  | one_object ms : Forall (λ m, one_value m.2) ms →
      one_value ([SaxStartObject] ++ concat (map (λ m, SaxKey m.1 :: m.2) ms) ++ [SaxEndObject]).

(** Induction with the values inside. *)
Section one_value_ind.
Context (P : list sax_event → Prop).
Context (Hscalar : ∀ e, is_scalar e = true → P [e])
  (Harray : ∀ es, Forall one_value es → Forall P es → P ([SaxStartArray] ++ concat es ++ [SaxEndArray]))
  (Hobject : ∀ ms, Forall (λ m, one_value m.2) ms → Forall (λ m, P m.2) ms →
    P ([SaxStartObject] ++ concat (map (λ m, SaxKey m.1 :: m.2) ms) ++ [SaxEndObject])).

Fixpoint one_value_ind' (es : list sax_event) (H : one_value es) {struct H} : P es :=
  match H with
  | one_scalar e He => Hscalar e He
  | one_array es Hes => Harray es Hes
      ((fix go es (Hes : Forall one_value es) : Forall P es :=
        match Hes with
        | List.Forall_nil _ => Forall_nil_2 _
        | List.Forall_cons _ e es He Hes => Forall_cons_2 _ _ _ (one_value_ind' e He) (go es Hes)
        end) es Hes)
  | one_object ms Hms => Hobject ms Hms
      ((fix go ms (Hms : Forall (λ m, one_value m.2) ms) : Forall (λ m, P m.2) ms :=
        match Hms with
        | List.Forall_nil _ => Forall_nil_2 _
        | List.Forall_cons _ m ms Hm Hms => Forall_cons_2 _ _ _ (one_value_ind' m.2 Hm) (go ms Hms)
        end) ms Hms)
  end.
End one_value_ind.

Fixpoint commas (first : bool) (texts : list (list Z)) : list Z :=
  match texts with
  | [] => []
  | s :: texts => (if first then s else [44] ++ s) ++ commas false texts
  end.

(** The characters of the names of fields. *)
Definition plain_char (c : Z) : bool :=
  (48 <=? c) && (c <=? 57) || (65 <=? c) && (c <=? 90) || (97 <=? c) && (c <=? 122) || (c =? 95).

(** The texts have no white space.  [writable] are the strings that are read back. *)
Class JsonWriterLaws `{JsonTexts} `{JsonWriter} := {
  writable : list Z → Prop;
  writable_plain s : forallb plain_char s = true → writable s;
  written_bool b : spells [SaxBool b] (written [SaxBool b]);
  written_uint z : 0 <= z <= u64_max → spells [SaxUint z] (written [SaxUint z]);
  written_string s : writable s → spells [SaxString s] (written [SaxString s]);
  written_digits z : 0 <= z <= u64_max →
    spells [SaxUint z] (u64toa z) ∧ written [SaxString (u64toa z)] = [34] ++ u64toa z ++ [34];
  written_hex l : forallb byteb l = true →
    written [SaxString (to_hex l)] = [34] ++ to_hex l ++ [34] ∧ 34 ∉ to_hex l ∧
    length (to_hex l) = (2 * length l)%nat ∧ to_buffer (length l) (to_hex l) = Some l;
  written_array es : Forall one_value es →
    written ([SaxStartArray] ++ concat es ++ [SaxEndArray]) = [91] ++ commas true (map written es) ++ [93];
  written_object ms : Forall (λ m, one_value m.2) ms →
    written ([SaxStartObject] ++ concat (map (λ m, SaxKey m.1 :: m.2) ms) ++ [SaxEndObject]) =
      [123] ++ commas true (map (λ m, written [SaxString m.1] ++ [58] ++ written m.2) ms) ++ [125] }.

(** ** What is read back *)

Section reads_as.
Context `{JsonWriterLaws}.

(** A field that is written may be one that is read if it is there. *)
Definition presence_fits (written_ read_ : presence) (v : option value) : Prop :=
  match written_, read_, v with
  | Required, _, Some _ => True
  | Optional, Optional, _ => True
  | Defaulted d, Defaulted d', Some _ => d = d'
  | _, _, _ => False
  end.

Fixpoint fields_read (ws : list (field_spec * json_type)) (rs : list (field_spec * (json_type → value → Prop)))
    (l : list (option value)) : Prop :=
  match ws, rs, l with
  | [], [], [] => True
  | (wf, w) :: ws, (rf, r) :: rs, v :: l =>
    f_name wf = f_name rf ∧ writable (f_name wf) ∧ presence_fits (f_presence wf) (f_presence rf) v ∧
    match v with Some v => r w v | None => True end ∧ fields_read ws rs l
  | _, _, _ => False
  end.

(** [reads_as r w v]: [v], written as the type [w], is of the type [r] that is read. *)
Fixpoint reads_as (r w : json_type) (v : value) {struct r} : Prop :=
  match r, w, v with
  | JBool, JBool, VBool _ => True
  | JString, JString, VBytes l => writable l
  | JBinary, JBinary, VBytes l => forallb byteb l = true
  | JSafe, JSafe, VInteger z => 0 <= z <= u64_max
  | JUint n, JUint _, VInteger z => 0 <= z < 2 ^ (8 * Z.of_nat n) ∧ z <= u64_max
  | JBlob n, JBlob _, VBytes l => length l = n ∧ forallb byteb l = true
  | JArray min_size max_count r, JArray _ _ w, VArray l =>
    min_size <= 1 ∧ match max_count with Some m => Z.of_nat (length l) <= m | None => True end ∧ Forall (reads_as r w) l
  | JFixed n r, JFixed _ w, VArray l => length l = n ∧ Forall (reads_as r w) l
  | JChecked ok _ r, w, v => reads_as r w v ∧ ok v = true
  | JObject rs, JObject ws, VObject l =>
    NoDup (map (λ p, f_name p.1) rs) ∧ fields_read ws (map (λ p, (p.1, reads_as p.2)) rs) l
  | _, _, _ => False
  end.

Lemma blank_none : blank [].
Proof. by apply Forall_nil. Qed.

(** *** Arrays *)

Lemma elements_written first min_size r (texts : list (value * list Z)) : min_size <= 1 →
  Forall (λ p, json_text r p.1 p.2) texts →
  elements_text first min_size r (map fst texts) (commas first (map snd texts) ++ [93]).
Proof.
  intros Hmin Hl. revert first. induction Hl as [|[v s] texts Hs _ IH]; intros first; cbn [map commas fst snd].
  { apply (elements_end first min_size r []), blank_none. }
  assert ((if first then s else [44] ++ s) ++ commas false (map snd texts) ++ [93] =
    separator first [] [] ++ s ++ commas false (map snd texts) ++ [93]) as Heq by (by destruct first).
  rewrite <-app_assoc, Heq. apply elements_next; [apply blank_none|apply blank_none|done| |apply IH].
  destruct (json_text_starts _ _ _ Hs) as [Hne _]. destruct s; [done|]. cbn. lia.
Qed.

(** *** Objects *)

(** The members that are written. *)
Fixpoint members_of (ws : list (field_spec * json_type)) (l : list (option value)) : list (list Z * json_writing) :=
  match ws, l with
  | (f, w) :: ws, v :: l =>
    match v with
    | Some v' => if available f v then [(f_name f, json_write w v')] else []
    | None => []
    end ++ members_of ws l
  | _, _ => []
  end.

Lemma w_fields_members ws l :
  w_fields (map (λ p, (p.1, json_write p.2)) ws) l = concat (map (λ m, SaxKey m.1 :: m.2) (members_of ws l)).
Proof.
  revert l. induction ws as [|[f w] ws IH]; intros [|v l]; cbn; try done. rewrite IH. destruct v as [v|]; cbn; [|done].
  by destruct (available f (Some v)).
Qed.

(** What the formatter makes of a member. *)
Definition member_text (m : list Z * json_writing) : list Z := written [SaxString m.1] ++ [58] ++ written m.2.

Lemma members_written fields ws : ∀ rs l pre first,
  fields = pre ++ rs →
  Forall (λ p, ∀ w v, reads_as p.2 w v → json_text p.2 v (written (json_write w v))) rs →
  fields_read ws (map (λ p, (p.1, reads_as p.2)) rs) l →
  members_text first fields (written_entries (length pre) (map fst ws) l)
    (commas first (map member_text (members_of ws l)) ++ [125]).
Proof.
  induction ws as [|[wf w] ws IH]; intros [|[rf r] rs] [|v l] pre first Hf Hrs Hl; cbn in Hl; try done.
  { apply (members_end first fields []), blank_none. }
  destruct Hl as (Hname & Hwritable & Hfit & Hv & Hl). apply Forall_cons in Hrs as [Hr Hrs]. cbn in Hr.
  assert (∀ first, members_text first fields (written_entries (S (length pre)) (map fst ws) l)
    (commas first (map member_text (members_of ws l)) ++ [125])) as Hrest.
  { intros first'. specialize (IH rs l (pre ++ [(rf, r)]) first'). rewrite length_app, Nat.add_1_r in IH.
    apply IH; [by rewrite Hf, <-app_assoc|done|done]. }
  cbn [written_entries members_of map fst]. destruct v as [v|]; [|apply Hrest].
  destruct (available wf (Some v)); [|apply Hrest]. cbn [map app commas].
  assert (∀ tail, ((if first then member_text (f_name wf, json_write w v) else [44] ++ member_text (f_name wf, json_write w v)) ++ tail) ++ [125] =
    separator first [] [] ++ written [SaxString (f_name wf)] ++ [] ++ [58] ++ [] ++ written (json_write w v) ++ tail ++ [125]) as Heq.
  { intros tail. unfold member_text. destruct first; cbn [separator app fst snd]; by rewrite <-?app_assoc. }
  rewrite Heq. apply (members_known first fields [] [] _ [] [] (length pre) rf r); try apply blank_none.
  - rewrite <-Hname. by apply written_string.
  - rewrite Hf. by apply list_lookup_middle.
  - by apply Hr.
  - apply Hrest.
Qed.

Lemma members_one_value ws : ∀ (rs : list (field_spec * json_type)) l,
  Forall (λ p, ∀ w v, reads_as p.2 w v → one_value (json_write w v)) rs →
  fields_read ws (map (λ p, (p.1, reads_as p.2)) rs) l → Forall (λ m, one_value m.2) (members_of ws l).
Proof.
  induction ws as [|[wf w] ws IH]; intros [|[rf r] rs] [|v l] Hrs Hl; cbn in Hl; try done.
  destruct Hl as (_ & _ & _ & Hv & Hl). apply Forall_cons in Hrs as [Hr Hrs]. cbn [members_of].
  apply Forall_app. split; [|by eapply IH]. destruct v as [v|]; [|by apply Forall_nil].
  destruct (available wf (Some v)); [|by apply Forall_nil]. apply Forall_singleton. by apply Hr.
Qed.

(** What is set, after the fields before. *)
Lemma set_written ws : ∀ (rs : list (field_spec * (json_type → value → Prop))) l pre, fields_read ws rs l →
  foldl set_field (pre ++ replicate (length rs) None) (written_entries (length pre) (map fst ws) l) =
    pre ++ zip_with (λ p v, if available p.1 v then v else None) ws l.
Proof.
  induction ws as [|[wf w] ws IH]; intros [|[rf r] rs] [|v l] pre Hl; cbn in Hl; try done.
  destruct Hl as (_ & _ & Hfit & _ & Hl). cbn [length replicate map fst zip_with written_entries].
  assert (∀ o, foldl set_field (pre ++ o :: replicate (length rs) None) (written_entries (S (length pre)) (map fst ws) l) =
    pre ++ o :: zip_with (λ p v, if available p.1 v then v else None) ws l) as Hrest.
  { intros o. rewrite (cons_middle o), app_assoc. specialize (IH rs l (pre ++ [o]) Hl).
    rewrite length_app, Nat.add_1_r in IH. by rewrite IH, <-app_assoc. }
  destruct v as [v|]; [|rewrite Hrest; by destruct (available wf None)].
  destruct (available wf (Some v)); [|apply Hrest]. cbn [app foldl]. unfold set_field at 2. cbn [fst snd].
  rewrite insert_app_r_alt, Nat.sub_diag by lia. apply Hrest.
Qed.

Lemma presence_written wf rf v : presence_fits (f_presence wf) (f_presence rf) v →
  let read := if available wf v then v else None in
  reset_omitted rf read = v ∧ negb (is_required rf && bool_decide (read = None)) = true.
Proof.
  unfold presence_fits, available, reset_omitted, is_required.
  destruct (f_presence wf) as [| |d]; destruct (f_presence rf) as [| |d']; destruct v as [v|]; try done.
  intros ->. by destruct (bool_decide_reflect (v = d')) as [->|].
Qed.

Lemma object_written ws : ∀ (rs : list (field_spec * json_type)) l,
  fields_read ws (map (λ p, (p.1, reads_as p.2)) rs) l →
  let dest := zip_with (λ p v, if available p.1 v then v else None) ws l in
  zip_with reset_omitted (map fst rs) dest = l ∧
  Forall (λ p, negb (is_required p.1 && bool_decide (p.2 = None)) = true) (zip (map fst rs) dest).
Proof.
  induction ws as [|[wf w] ws IH]; intros [|[rf r] rs] [|v l] Hl; cbn in Hl; try done.
  destruct Hl as (_ & _ & Hfit & _ & Hl). destruct (IH rs l Hl) as [Hreset Hrequired]. cbn [map fst zip_with].
  destruct (presence_written wf rf v Hfit) as [Hv Hneed]. rewrite Hv, Hreset. split; [done|by apply Forall_cons].
Qed.

(** *** Every value *)

(** The elements, with the texts they are written as. *)
Lemma values_written r w l :
  (∀ w v, reads_as r w v → one_value (json_write w v) ∧ json_text r v (written (json_write w v))) →
  Forall (reads_as r w) l →
  Forall one_value (map (json_write w) l) ∧
  ∃ texts, map fst texts = l ∧ map snd texts = map written (map (json_write w) l) ∧
    Forall (λ p, json_text r p.1 p.2) texts.
Proof.
  intros IH Hl. split; [apply Forall_map; eapply Forall_impl; [exact Hl|]; intros v Hv; by apply IH|].
  exists (map (λ v, (v, written (json_write w v))) l). rewrite !map_map. cbn. split; [apply map_id|]. split; [done|].
  apply Forall_map. eapply Forall_impl; [exact Hl|]. intros v Hv. by apply IH.
Qed.

Lemma w_object_events ws l :
  w_object (map (λ p, (p.1, json_write p.2)) ws) l =
    [SaxStartObject] ++ concat (map (λ m, SaxKey m.1 :: m.2) (members_of ws l)) ++ [SaxEndObject].
Proof. unfold w_object. by rewrite w_fields_members. Qed.

Lemma written_value r : ∀ w v, reads_as r w v →
  one_value (json_write w v) ∧ json_text r v (written (json_write w v)).
Proof.
  induction r as [| | | | |n|n|n|min max r IH|n r IH|ok e r IH|rs IH] using json_type_ind'; intros w v Hv;
    cbn [reads_as] in Hv.
  1-10,12: destruct w, v; try done; cbn [json_write].
  - split; [by apply one_scalar|]. apply text_bool, written_bool.
  - split; [by apply one_scalar|]. by apply text_string, written_string.
  - split; [by apply one_scalar|]. unfold w_binary, w_string. destruct (written_hex bytes Hv) as (-> & Hq & Hlen & Hto).
    apply text_binary; [done|]. by rewrite Hlen, Nat.mul_comm, Nat.div_mul.
  - split; [by apply one_scalar|]. unfold w_safe, w_string. destruct (written_digits z Hv) as [Hs ->].
    change ([34] ++ u64toa z ++ [34]) with ([34] ++ [] ++ u64toa z ++ [] ++ [34]).
    apply text_safe; [apply blank_none|apply blank_none|done|]. unfold u64_fits. apply andb_true_intro.
    split; apply Z.leb_le; lia.
  - split; [by apply one_scalar|]. apply text_unsigned; [apply written_uint; lia|lia].
  - split; [by apply one_scalar|]. destruct Hv as [<- Hb]. unfold w_binary, w_string.
    destruct (written_hex bytes Hb) as (-> & Hq & _ & Hto). by apply text_blob.
  - destruct Hv as (Hmin & Hmax & Hl). destruct (values_written r w elements IH Hl) as (Hone & texts & Hfst & Hsnd & Htexts).
    unfold w_array. split; [by apply one_array|]. rewrite written_array, <-Hsnd by done. apply text_array; [|done].
    rewrite <-Hfst. by apply elements_written.
  - destruct Hv as (Hn & Hl). destruct (values_written r w elements IH Hl) as (Hone & texts & Hfst & Hsnd & Htexts).
    unfold w_array. split; [by apply one_array|]. rewrite written_array, <-Hsnd by done. apply text_fixed; [|done].
    rewrite <-Hfst. by apply elements_written.
  - destruct Hv as [Hnames Hl]. rewrite w_object_events.
    assert (Forall (λ m, one_value m.2) (members_of fields fields0)) as Hone.
    { eapply members_one_value; [|exact Hl]. eapply Forall_impl; [exact IH|]. intros p Hp w v Hv. by apply Hp. }
    split; [by apply one_object|]. rewrite written_object by done.
    destruct (object_written fields rs fields0 Hl) as [Hreset Hrequired].
    pose proof (set_written fields _ fields0 [] Hl) as Hset. rewrite length_map in Hset. cbn [app length] in Hset.
    replace (VObject fields0) with (VObject (object_of rs (written_entries 0 (map fst fields) fields0)))
      by (unfold object_of; by rewrite Hset, Hreset).
    apply text_object.
    + apply (members_written rs fields rs fields0 [] true eq_refl); [|exact Hl].
      eapply Forall_impl; [exact IH|]. intros p Hp w v Hv. by apply Hp.
    + exact Hnames.
    + apply written_entries_nodup.
    + by rewrite Hset.
  - destruct Hv as [Hv Hok]. destruct (IH w v Hv) as [? ?]. split; [done|by apply text_checked].
Qed.
End reads_as.

(** *** The document *)

Lemma one_value_levels es : one_value es → ∀ rest n, open_levels (es ++ rest) n = open_levels rest n.
Proof.
  induction 1 as [e He|es _ IH|ms _ IH] using one_value_ind'; intros rest n.
  - by destruct e.
  - rewrite <-!app_assoc. cbn [app open_levels].
    assert (∀ tail, open_levels (concat es ++ tail) (S n) = open_levels tail (S n)) as ->; [|done].
    clear rest. induction IH as [|e es He _ IH']; intros tail; cbn; [done|]. by rewrite <-app_assoc, He, IH'.
  - rewrite <-!app_assoc. cbn [app open_levels].
    assert (∀ tail, open_levels (concat (map (λ m, SaxKey m.1 :: m.2) ms) ++ tail) (S n) = open_levels tail (S n)) as ->; [|done].
    clear rest. induction IH as [|m ms Hm _ IH']; intros tail; cbn; [done|]. by rewrite <-app_assoc, Hm, IH'.
Qed.

Lemma one_value_complete es : one_value es → is_complete es = true.
Proof.
  intros Hes. unfold is_complete. pose proof (one_value_levels es Hes [] 0) as Hl. rewrite app_nil_r in Hl. rewrite Hl.
  cbn. by destruct Hes.
Qed.

Section written.
Context `{JsonWriterLaws}.

Lemma json_to_bytes_text r w v : reads_as r w v →
  ∃ bytes, json_to_bytes w v = Ok bytes ∧ json_text r v bytes.
Proof.
  intros Hv. destruct (written_value r w v Hv) as [Hone Htext]. exists (written (json_write w v)).
  split; [|done]. unfold json_to_bytes. by rewrite one_value_complete.
Qed.

Lemma json_text_read r v bytes : json_text r v bytes → json_depth r < 100 →
  json_from_bytes (json_read r) bytes = Ok v.
Proof.
  intros Ht Hd. unfold json_from_bytes. pose proof (json_text_reads r v bytes Ht [] [] 0 blank_none I ltac:(lia) Hd) as Hread.
  cbn [app] in Hread. rewrite app_nil_r in Hread. by rewrite (bind_ok _ _ _ _ _ Hread).
Qed.

(** C11: An object that is written in JSON makes a complete document, and is read back
    from it as any type that fits what was written: fields that are always written
    may be optional for the reader, and its arrays limited when they are not longer. *)
Theorem json_from_to_bytes r w v : reads_as r w v → json_depth r < 100 →
  ∃ bytes, json_to_bytes w v = Ok bytes ∧ json_from_bytes (json_read r) bytes = Ok v.
Proof.
  intros Hv Hd. destruct (json_to_bytes_text r w v Hv) as (bytes & Hb & Ht). exists bytes. split; [done|].
  by apply json_text_read.
Qed.

End written.

(** ** A writer for the examples

    That of rapidjson, with its levels, for the scalars [example_library] reads. *)

Fixpoint print (fuel : nat) (z : Z) : list Z :=
  match fuel with
  | O => []
  | S fuel => (if z <? 10 then [] else print fuel (z / 10)) ++ [48 + z mod 10]
  end.

Definition hex_text (n : Z) : Z := if n <? 10 then 48 + n else 87 + n.

(** Whether a level is an array, and how many values it has; a key counts as one. *)
Definition level : Type := bool * nat.

Definition value_prefix (levels : list level) : list Z :=
  match levels with
  | (in_array, S n) :: _ => if (in_array : bool) || Nat.odd n then [44] else [58]
  | _ => []
  end.

Definition counted (levels : list level) : list level :=
  match levels with (in_array, n) :: levels => (in_array, S n) :: levels | [] => [] end.

Definition scalar_text (e : sax_event) : list Z :=
  match e with
  | SaxBool b => if b then true_text else false_text
  | SaxUint z => print 20 z
  | SaxString s | SaxKey s => [34] ++ s ++ [34]
  | _ => []
  end.

Fixpoint example_events (es : list sax_event) (levels : list level) : list Z :=
  match es with
  | [] => []
  | SaxStartArray :: es => value_prefix levels ++ [91] ++ example_events es ((true, O) :: counted levels)
  | SaxStartObject :: es => value_prefix levels ++ [123] ++ example_events es ((false, O) :: counted levels)
  | SaxEndArray :: es => [93] ++ example_events es (tail levels)
  | SaxEndObject :: es => [125] ++ example_events es (tail levels)
  | e :: es => value_prefix levels ++ scalar_text e ++ example_events es (counted levels)
  end.

#[export] Instance example_writer : JsonWriter := {|
  written es := example_events es [];
  u64toa := print 20;
  to_hex l := concat (map (λ b, [hex_text (b / 16); hex_text (b mod 16)]) l) |}.

(** A value has the same text wherever it is. *)
Definition same_text (es : list sax_event) : Prop := ∀ rest levels,
  example_events (es ++ rest) levels = value_prefix levels ++ example_events es [] ++ example_events rest (counted levels).

Lemma example_elements es : Forall same_text es → ∀ n rest (levels : list level),
  example_events (concat es ++ SaxEndArray :: rest) ((true, n) :: levels) =
    commas (n =? 0)%nat (map (λ e, example_events e []) es) ++ [93] ++ example_events rest levels.
Proof.
  induction 1 as [|e es He _ IH]; intros n rest levels; [done|]. cbn [concat map commas].
  rewrite <-app_assoc, He. cbn [counted]. rewrite IH. by destruct n; rewrite <-!app_assoc.
Qed.

Lemma before_key n levels : value_prefix ((false, (2 * n)%nat) :: levels) = if (n =? 0)%nat then [] else [44].
Proof.
  destruct n as [|n]; [done|]. replace (2 * S n)%nat with (S (S (2 * n))) by lia. cbn [value_prefix orb].
  by rewrite Nat.odd_succ, Nat.even_even.
Qed.

Lemma example_members ms : Forall (λ m, same_text m.2) ms → ∀ n rest (levels : list level),
  example_events (concat (map (λ m, SaxKey m.1 :: m.2) ms) ++ SaxEndObject :: rest) ((false, (2 * n)%nat) :: levels) =
    commas (n =? 0)%nat (map (λ m, [34] ++ m.1 ++ [34] ++ [58] ++ example_events m.2 []) ms) ++ [125] ++
    example_events rest levels.
Proof.
  induction 1 as [|[key e] ms He _ IH]; intros n rest levels; [done|]. cbn [concat map commas fst snd] in *.
  cbn [app example_events]. rewrite before_key, <-app_assoc, He. cbn [counted].
  replace (S (S (2 * n))) with (2 * S n)%nat by lia. rewrite IH. cbn [Nat.eqb value_prefix orb].
  rewrite Nat.odd_even. cbn [scalar_text]. destruct n; cbn; by rewrite <-?app_assoc.
Qed.

Lemma one_value_text es : one_value es → same_text es.
Proof.
  induction 1 as [e He|es _ IH|ms _ IH] using one_value_ind'; intros rest levels.
  - by destruct e; try done; cbn; rewrite ?app_nil_r.
  - rewrite <-!app_assoc. cbn [app example_events value_prefix]. rewrite (example_elements es IH 0).
    pose proof (example_elements es IH 0 [] []) as Hnil. cbn [app] in Hnil. cbn [counted]. rewrite Hnil. cbn [app example_events].
    by rewrite <-!app_assoc.
  - rewrite <-!app_assoc. cbn [app example_events value_prefix]. rewrite (example_members ms IH 0).
    pose proof (example_members ms IH 0 [] []) as Hnil. cbn [app] in Hnil. cbn [counted].
    change (2 * 0)%nat with O in Hnil. rewrite Hnil. cbn [app example_events]. by rewrite <-!app_assoc.
Qed.

Lemma number_app l d : number (l ++ [d]) = number l * 10 + (d - 48).
Proof. unfold number. by rewrite foldl_app. Qed.

Lemma print_ok fuel : ∀ z, 0 <= z < 10 ^ Z.of_nat (S fuel) →
  number (print (S fuel) z) = z ∧ print (S fuel) z ≠ [] ∧ Forall (λ b, is_digit b = true) (print (S fuel) z).
Proof.
  assert (∀ z, is_digit (48 + z mod 10) = true) as Hdigit.
  { intros z. unfold is_digit. pose proof (Z.mod_pos_bound z 10). apply andb_true_intro. split; apply Z.leb_le; lia. }
  induction fuel as [|fuel IH]; intros z Hz; cbn [print].
  - change (10 ^ Z.of_nat 1) with 10 in Hz. destruct (Z.ltb_spec z 10); [|lia]. cbn [app].
    split; [|split; [done|by apply Forall_singleton]]. unfold number. cbn. rewrite Z.mod_small; lia.
  - destruct (Z.ltb_spec z 10) as [Hlt|Hge].
    + cbn [app]. split; [|split; [done|by apply Forall_singleton]]. unfold number. cbn. rewrite Z.mod_small; lia.
    + assert (0 <= z / 10 < 10 ^ Z.of_nat (S fuel)) as Hd.
      { split; [apply Z.div_pos; lia|]. apply Z.div_lt_upper_bound; [lia|]. rewrite <-Z.pow_succ_r by lia.
        rewrite <-Nat2Z.inj_succ. lia. }
      destruct (IH _ Hd) as (Hn & _ & Hf). cbn [print] in *. rewrite number_app, Hn. pose proof (Z.div_mod z 10).
      split; [lia|]. split; [by intros [_ ?]%app_nil|]. apply Forall_app. split; [done|by apply Forall_singleton].
Qed.

Lemma print_u64 z : 0 <= z <= u64_max → spells [SaxUint z] (print 20 z).
Proof.
  intros Hz. assert (10 ^ Z.of_nat 20 = 100000000000000000000) as Hp by reflexivity.
  destruct (print_ok 19 z) as (Hn & Hne & Hf); [rewrite Hp; unfold u64_max in Hz; lia|].
  rewrite <-Hn at 1. apply spells_number; [done|done|]. rewrite Hn. unfold u64_fits. apply andb_true_intro.
  split; apply Z.leb_le; lia.
Qed.

Lemma hex_text_digit n : 0 <= n < 16 → hex_digit (hex_text n) = Some n ∧ hex_text n ≠ 34 ∧ byteb (hex_text n) = true.
Proof.
  intros Hn. unfold hex_text, hex_digit, is_digit, byteb.
  destruct (Z.ltb_spec n 10); repeat case_match; rewrite ?andb_true_iff, ?andb_false_iff, ?Z.leb_le, ?Z.leb_gt, ?Z.ltb_lt in *;
    split_and?; try f_equal; lia.
Qed.

Lemma hex_written l : forallb byteb l = true →
  let s := concat (map (λ b, [hex_text (b / 16); hex_text (b mod 16)]) l) in
  34 ∉ s ∧ length s = (2 * length l)%nat ∧ unhex s = Some l.
Proof.
  induction l as [|b l IH]; cbn [forallb concat map app length unhex]; [by split; [set_solver|]|].
  intros [Hb Hl]%andb_prop. destruct (IH Hl) as (Hq & Hlen & Hun). cbn in *.
  assert (0 <= b <= 255) as Hr by (unfold byteb in Hb; lia).
  destruct (hex_text_digit (b / 16)) as (H1 & Hq1 & _); [split; [apply Z.div_pos; lia|apply Z.div_lt_upper_bound; lia]|].
  destruct (hex_text_digit (b mod 16)) as (H2 & Hq2 & _); [apply Z.mod_pos_bound; lia|].
  split_and!; [set_solver|lia|]. rewrite H1, H2. cbn. rewrite Hun. cbn. do 2 f_equal.
  pose proof (Z.div_mod b 16). lia.
Qed.

Lemma hex_bytes l : forallb byteb l = true →
  forallb byteb (concat (map (λ b, [hex_text (b / 16); hex_text (b mod 16)]) l)) = true.
Proof.
  induction l as [|b l IH]; cbn; [done|]. intros [Hb Hl]%andb_prop. assert (0 <= b <= 255) as Hr by (unfold byteb in Hb; lia).
  destruct (hex_text_digit (b / 16)) as (_ & _ & ->); [split; [apply Z.div_pos; lia|apply Z.div_lt_upper_bound; lia]|].
  destruct (hex_text_digit (b mod 16)) as (_ & _ & ->); [apply Z.mod_pos_bound; lia|]. by apply IH.
Qed.

#[export] Instance example_written : JsonWriterLaws.
Proof.
  refine {| writable s := 34 ∉ s ∧ forallb byteb s = true |}; cbn.
  - intros s Hs. rewrite forallb_forall in Hs. split.
    + intros Hq%list_elem_of_In. by apply Hs in Hq.
    + apply forallb_forall. intros c Hc%Hs. unfold plain_char in Hc. unfold byteb. lia.
  - intros b rest _. exists (SaxBool b). by destruct b.
  - intros z Hz. rewrite app_nil_r. by apply print_u64.
  - intros s [Hq Hs]. rewrite app_nil_r. by apply spells_string.
  - intros z Hz. split; [by apply print_u64|]. by rewrite app_nil_r.
  - intros l Hl. destruct (hex_written l Hl) as (Hq & Hlen & Hun). split_and!; [by rewrite app_nil_r|done|by rewrite Hlen|].
    rewrite Hun. cbn. by rewrite bool_decide_eq_true_2, Hl.
  - intros es Hes. rewrite (example_elements es); [done|]. eapply Forall_impl; [exact Hes|]. apply one_value_text.
  - intros ms Hms. rewrite (example_members ms) with (n := O); [|eapply Forall_impl; [exact Hms|]; intros ?; apply one_value_text].
    cbn. do 3 f_equal. apply map_ext. intros m. by rewrite <-!app_assoc.
Defined.

(** What is written without limits is read with them. *)
Definition unlimited_json : json_type :=
  JObject [(FieldSpec (chars "n") 0 Required, JUint 8);
           (FieldSpec (chars "l") 0 (Defaulted (VArray [])), JArray 0 None JSafe)].

Definition example_object : value := VObject [Some (VInteger 12); Some (VArray [VInteger 7])].

Definition written_example : list Z :=
  [123] ++ ([34] ++ chars "n" ++ [34]) ++ [58] ++ chars "12" ++
  [44] ++ ([34] ++ chars "l" ++ [34]) ++ [58] ++ [91] ++ ([34] ++ chars "7" ++ [34]) ++ [93] ++ [125].

Lemma json_from_to_bytes_witness :
  (reads_as example_json unlimited_json example_object ∧ json_depth example_json < 100) ∧
  json_to_bytes unlimited_json example_object = Ok written_example ∧
  ∃ bytes, json_to_bytes unlimited_json example_object = Ok bytes ∧
    json_from_bytes (json_read example_json) bytes = Ok example_object.
Proof.
  assert (reads_as example_json unlimited_json example_object) as Hv.
  { cbn [reads_as example_json unlimited_json example_object map fields_read fst snd f_name f_presence presence_fits length].
    split_and!; try done; [vm_compute; repeat constructor; set_solver| | |by repeat constructor];
      by apply writable_plain. }
  split; [done|]. split; [reflexivity|]. by apply json_from_to_bytes.
Defined.
