(* ===== verification/Messages.v ===== *)
(** * The messages between scanners (src/src/rpc/scanner/commands.cpp, db/account.cpp, db/data.cpp)

    [xfo-lws-daemon] sends accounts to remote scanners, which send back the
    accounts with the outputs and spends they found.  A [codec] is the msgpack
    form of a struct: its [wire_type] (what [wire::object] lists in the map
    functions of the code) and the conversions from and to its objects.  Modelled
    are the structs in these messages, the header each message has, and the
    loop that reads messages off a socket.  Shown are that every message
    arrives as it was sent and that a stream of messages is read one by one. *)

From S2P Require Import Prelude Lmdb Data Account Msgpack.
From S2P Require Import Wire.

(** ** Codecs *)

Record codec (A : Type) := Codec {
  c_type : wire_type;
  c_to : A → value;
  c_of : value → option A;
  c_ok : A → Prop
}.
Arguments c_type {A} c.
Arguments c_to {A} c a.
Arguments c_of {A} c v.
Arguments c_ok {A} c a.

(** What a codec promises: objects have their type and are found again. *)
Class CodecLaws {A} (c : codec A) : Prop := {
  codec_typed : ∀ a, c_ok c a → has_type (c_type c) (c_to c a) = true;
  codec_of_to : ∀ a, c_ok c a → c_of c (c_to c a) = Some a
}.

Definition uint (bytes : nat) : codec Z :=
  Codec Z (TUint bytes) VInteger (λ v, match v with VInteger z => Some z | _ => None end)
    (λ z, 0 <= z < 2 ^ (8 * Z.of_nat bytes)).

(** A hash, a key or a key image; [secret_key] is one as well. *)
Definition blob32 : codec Z :=
  Codec Z (TBlob 32) (λ z, VBytes (be_split 32 z))
    (λ v, match v with VBytes l => Some (be_combine l) | _ => None end)
    (λ z, 0 <= z < 2 ^ 256).

(** A [crypto::hash] of which the code uses the bytes. *)
Definition bytes32 : codec (list Z) :=
  Codec (list Z) (TBlob 32) VBytes (λ v, match v with VBytes l => Some l | _ => None end)
    (λ l, bytes_ok l = true ∧ length l = 32%nat).

Definition binary : codec (list Z) :=
  Codec (list Z) TBinary VBytes (λ v, match v with VBytes l => Some l | _ => None end)
    (λ l, bytes_ok l = true).

Definition boolean : codec bool :=
  Codec bool TBool VBool (λ v, match v with VBool b => Some b | _ => None end) (λ _, True).

(** [std::string] *)
Definition char_list (l : list Z) : string :=
  String.string_of_list_ascii (map (λ z, Ascii.ascii_of_N (Z.to_N z)) l).
Definition str : codec string :=
  Codec string TString (λ s, VBytes (chars s)) (λ v, match v with VBytes l => Some (char_list l) | _ => None end)
    (λ s, Z.of_nat (String.length s) <= u32_max).

(** [trusted_array] of a [std::vector] *)
Definition trusted_array {A} (c : codec A) : codec (list A) :=
  Codec (list A) (TArray 0 u64_max (c_type c)) (λ l, VArray (map (c_to c) l))
    (λ v, match v with VArray l => mapM (c_of c) l | _ => None end)
    (λ l, Forall (c_ok c) l ∧ Z.of_nat (length l) <= u32_max).

(** [wire::field] and the optional fields, by name and id. *)
Definition field (id : Z) (name : string) {A} (c : codec A) : field_spec * wire_type :=
  (FieldSpec (chars name) id Required, c_type c).
Definition optional_field (id : Z) (name : string) {A} (c : codec A) : field_spec * wire_type :=
  (FieldSpec (chars name) id Optional, c_type c).
Definition defaulted (id : Z) (name : string) {A} (c : codec A) (default_ : A) : field_spec * wire_type :=
  (FieldSpec (chars name) id (Defaulted (c_to c default_)), c_type c).

(** ** The structs *)

(** [map_output_id] *)
Definition output_id_codec : codec output_id :=
  Codec output_id (TObject [field 0 "high" (uint 8); field 1 "low" (uint 8)])
    (λ x, VObject [Some (c_to (uint 8) (high x)); Some (c_to (uint 8) (low x))])
    (λ v, match v with
          | VObject [Some a; Some b] => a ← c_of (uint 8) a; b ← c_of (uint 8) b; Some (OutputId a b)
          | _ => None
          end)
    (λ x, c_ok (uint 8) (high x) ∧ c_ok (uint 8) (low x)).

(** [map_account_address] *)
Definition account_address_codec : codec account_address :=
  Codec account_address (TObject [field 0 "spend_public" blob32; field 1 "view_public" blob32])
    (λ x, VObject [Some (c_to blob32 (spend_public x)); Some (c_to blob32 (view_public x))])
    (λ v, match v with
          | VObject [Some a; Some b] => a ← c_of blob32 a; b ← c_of blob32 b; Some (AccountAddress b a)
          | _ => None
          end)
    (λ x, c_ok blob32 (spend_public x) ∧ c_ok blob32 (view_public x)).

(** [map_address_index] *)
Definition address_index_codec : codec address_index :=
  Codec address_index (TObject [field 0 "maj_i" (uint 4); field 1 "min_i" (uint 4)])
    (λ x, VObject [Some (c_to (uint 4) (maj_i x)); Some (c_to (uint 4) (min_i x))])
    (λ v, match v with
          | VObject [Some a; Some b] => a ← c_of (uint 4) a; b ← c_of (uint 4) b; Some (AddressIndex a b)
          | _ => None
          end)
    (λ x, c_ok (uint 4) (maj_i x) ∧ c_ok (uint 4) (min_i x)).

(** [map_pair] of wire/adapted/pair.h *)
Definition pair_codec {A B} (ca : codec A) (cb : codec B) : codec (A * B) :=
  Codec (A * B) (TObject [field 0 "first" ca; field 1 "second" cb])
    (λ x, VObject [Some (c_to ca x.1); Some (c_to cb x.2)])
    (λ v, match v with
          | VObject [Some a; Some b] => a ← c_of ca a; b ← c_of cb b; Some (a, b)
          | _ => None
          end)
    (λ x, c_ok ca x.1 ∧ c_ok cb x.2).

(** The object of [read_bytes] and [write_bytes] of an [output].  The fields with
    a default are always there: omitting them is part of the encoding. *)
Definition output_type : wire_type :=
  TObject [defaulted 0 "id" output_id_codec output_id_txpool;
           defaulted 1 "block" (uint 8) block_id_txpool;
           field 2 "index" (uint 4); field 3 "amount" (uint 8); field 4 "timestamp" (uint 8);
           field 5 "tx_hash" blob32; field 6 "tx_prefix_hash" blob32; field 7 "tx_public" blob32;
           optional_field 8 "rct_mask" blob32; optional_field 9 "payment_id" binary;
           field 10 "unlock_time" (uint 8); field 11 "mixin_count" (uint 4);
           field 12 "coinbase" boolean; field 13 "fee" (uint 8);
           field 14 "recipient" address_index_codec; field 15 "pub" blob32].

Definition wire_output_to (w : wire_output) : value :=
  VObject [Some (c_to output_id_codec (read_defaulted (w_id w) output_id_txpool));
           Some (c_to (uint 8) (read_defaulted (w_block w) block_id_txpool));
           Some (c_to (uint 4) (w_index w)); Some (c_to (uint 8) (w_amount w));
           Some (c_to (uint 8) (w_timestamp w)); Some (c_to blob32 (w_tx_hash w));
           Some (c_to blob32 (w_tx_prefix_hash w)); Some (c_to blob32 (w_tx_public w));
           c_to blob32 <$> w_rct_mask w; c_to binary <$> w_payment_id w;
           Some (c_to (uint 8) (w_unlock_time w)); Some (c_to (uint 4) (w_mixin_count w));
           Some (c_to boolean (w_coinbase w)); Some (c_to (uint 8) (w_fee w));
           Some (c_to address_index_codec (w_recipient w)); Some (c_to blob32 (w_pub w))].

Definition optional_of {A} (c : codec A) (v : option value) : option (option A) :=
  match v with Some v => Some <$> c_of c v | None => Some None end.

Definition wire_output_of (v : value) : option wire_output :=
  match v with
  | VObject [Some id; Some block; Some index; Some amount; Some timestamp; Some tx_hash;
             Some prefix; Some tx_public; rct; payment; Some unlock; Some mixin; Some coinbase;
             Some fee; Some recipient; Some pub] =>
    id ← c_of output_id_codec id; block ← c_of (uint 8) block; index ← c_of (uint 4) index;
    amount ← c_of (uint 8) amount; timestamp ← c_of (uint 8) timestamp; tx_hash ← c_of blob32 tx_hash;
    prefix ← c_of blob32 prefix; tx_public ← c_of blob32 tx_public; rct ← optional_of blob32 rct;
    payment ← optional_of binary payment; unlock ← c_of (uint 8) unlock; mixin ← c_of (uint 4) mixin;
    coinbase ← c_of boolean coinbase; fee ← c_of (uint 8) fee;
    recipient ← c_of address_index_codec recipient; pub ← c_of blob32 pub;
    Some (WireOutput (Some id) (Some block) index amount timestamp tx_hash prefix tx_public rct payment
            unlock mixin coinbase fee recipient pub)
  | _ => None
  end.

(** The bytes of the payment id the output does not use are zero, as in an object
    that was just constructed. *)
Definition payment_clear (o : output) : Prop :=
  o_payment_id o = payment_bytes o ++ replicate (32 - length (payment_bytes o)) 0.

Definition output_codec : codec output :=
  Codec output output_type (λ o, wire_output_to (write_output o))
    (λ v, w ← wire_output_of v; match read_output w (replicate 32 0) with Ok o => Some o | Err _ => None end)
    (λ o, output_ok o ∧ payment_clear o ∧ bytes_ok (o_payment_id o) = true ∧
      c_ok output_id_codec (sme_id (o_spend_meta o)) ∧ c_ok (uint 8) (tl_height (o_link o)) ∧
      c_ok (uint 4) (sme_index (o_spend_meta o)) ∧ c_ok (uint 8) (sme_amount (o_spend_meta o)) ∧
      c_ok (uint 8) (o_timestamp o) ∧ c_ok blob32 (tl_tx_hash (o_link o)) ∧
      c_ok blob32 (o_tx_prefix_hash o) ∧ c_ok blob32 (sme_tx_public (o_spend_meta o)) ∧
      c_ok blob32 (o_ringct_mask o) ∧ c_ok (uint 8) (o_unlock_time o) ∧
      c_ok (uint 4) (sme_mixin_count (o_spend_meta o)) ∧ c_ok (uint 8) (o_fee o) ∧
      c_ok address_index_codec (o_recipient o) ∧ c_ok blob32 (o_pub o)).

(** [map_spend] *)
Definition spend_type : wire_type :=
  TObject [field 0 "height" (uint 8); field 1 "tx_hash" blob32; field 2 "image" blob32;
           field 3 "source" output_id_codec; field 4 "timestamp" (uint 8); field 5 "unlock_time" (uint 8);
           field 6 "mixin_count" (uint 4); optional_field 7 "payment_id" bytes32;
           field 8 "sender" address_index_codec].

Definition wire_spend_to (w : wire_spend) : value :=
  VObject [Some (c_to (uint 8) (ws_height w)); Some (c_to blob32 (ws_tx_hash w));
           Some (c_to blob32 (ws_image w)); Some (c_to output_id_codec (ws_source w));
           Some (c_to (uint 8) (ws_timestamp w)); Some (c_to (uint 8) (ws_unlock_time w));
           Some (c_to (uint 4) (ws_mixin_count w)); c_to bytes32 <$> ws_payment_id w;
           Some (c_to address_index_codec (ws_sender w))].

Definition wire_spend_of (v : value) : option wire_spend :=
  match v with
  | VObject [Some height; Some tx_hash; Some image; Some source; Some timestamp; Some unlock;
             Some mixin; payment; Some sender] =>
    height ← c_of (uint 8) height; tx_hash ← c_of blob32 tx_hash; image ← c_of blob32 image;
    source ← c_of output_id_codec source; timestamp ← c_of (uint 8) timestamp;
    unlock ← c_of (uint 8) unlock; mixin ← c_of (uint 4) mixin; payment ← optional_of bytes32 payment;
    sender ← c_of address_index_codec sender;
    Some (WireSpend height tx_hash image source timestamp unlock mixin payment sender)
  | _ => None
  end.

Definition spend_codec : codec spend :=
  Codec spend spend_type (λ s, wire_spend_to (write_spend s))
    (λ v, w ← wire_spend_of v; Some (read_spend w (replicate 32 0)))
    (λ s, (s_length s = 0 ∧ s_payment_id s = replicate 32 0 ∨
           s_length s = 32 ∧ c_ok bytes32 (s_payment_id s)) ∧
      c_ok (uint 8) (tl_height (s_link s)) ∧ c_ok blob32 (tl_tx_hash (s_link s)) ∧
      c_ok blob32 (s_image s) ∧ c_ok output_id_codec (s_source s) ∧ c_ok (uint 8) (s_timestamp s) ∧
      c_ok (uint 8) (s_unlock_time s) ∧ c_ok (uint 4) (s_mixin_count s) ∧
      c_ok address_index_codec (s_sender s)).

(** [account::internal::map] *)
Definition internal_codec : codec internal :=
  Codec internal
    (TObject [field 0 "address" str; field 1 "id" (uint 4); field 2 "pubs" account_address_codec;
              field 3 "view_key" blob32])
    (λ x, VObject [Some (c_to str (in_address x)); Some (c_to (uint 4) (in_id x));
                   Some (c_to account_address_codec (in_pubs x)); Some (c_to blob32 (in_view_key x))])
    (λ v, match v with
          | VObject [Some a; Some b; Some c; Some d] =>
            a ← c_of str a; b ← c_of (uint 4) b; c ← c_of account_address_codec c; d ← c_of blob32 d;
            Some (Internal a b c d)
          | _ => None
          end)
    (λ x, c_ok str (in_address x) ∧ c_ok (uint 4) (in_id x) ∧ c_ok account_address_codec (in_pubs x) ∧
      c_ok blob32 (in_view_key x)).

Definition spendable_codec : codec (list spendable_entry) :=
  trusted_array (pair_codec output_id_codec address_index_codec).

(** [account::map] *)
Definition account_type : wire_type :=
  TObject [field 0 "immutable_" internal_codec; defaulted 1 "spendable_" spendable_codec [];
           defaulted 2 "pubs_" (trusted_array blob32) []; defaulted 3 "spends_" (trusted_array spend_codec) [];
           defaulted 4 "outputs_" (trusted_array output_codec) []; field 5 "height_" (uint 8)].

(** [account::read_bytes], which sorts both vectors. *)
Definition read_account (v : value) : option lws_account :=
  match v with
  | VObject [Some immutable; Some spendable; Some pubs; Some spends; Some outputs; Some height] =>
    immutable ← c_of internal_codec immutable; spendable ← c_of spendable_codec spendable;
    pubs ← c_of (trusted_array blob32) pubs; spends ← c_of (trusted_array spend_codec) spends;
    outputs ← c_of (trusted_array output_codec) outputs; height ← c_of (uint 8) height;
    Some (LwsAccount (Some immutable) (merge_sort (λ l r, spendable_leb l r) spendable)
            (merge_sort Z.le pubs) spends outputs height)
  | _ => None
  end.

(** [account::write_bytes].  [null_check] throws on an account that was moved
    from: it has no object. *)
Definition write_account (self : lws_account) : value :=
  match null_check self with
  | Ok immutable =>
    VObject [Some (c_to internal_codec immutable); Some (c_to spendable_codec (la_spendable self));
             Some (c_to (trusted_array blob32) (la_pubs self));
             Some (c_to (trusted_array spend_codec) (la_spends self));
             Some (c_to (trusted_array output_codec) (la_outputs self)); Some (c_to (uint 8) (la_height self))]
  | Err _ => VObject []
  end.

Definition account_codec : codec lws_account :=
  Codec lws_account account_type write_account read_account
    (λ self, (∃ immutable, la_immutable self = Some immutable ∧ c_ok internal_codec immutable) ∧
      account_sorted self ∧
      c_ok spendable_codec (la_spendable self) ∧ c_ok (trusted_array blob32) (la_pubs self) ∧
      c_ok (trusted_array spend_codec) (la_spends self) ∧
      c_ok (trusted_array output_codec) (la_outputs self) ∧ c_ok (uint 8) (la_height self)).

(** [initialize], [update_accounts], [push_accounts] and [replace_accounts] *)
Record initialize := Initialize { i_pass : string; i_threads : Z }.
Record update_accounts := UpdateAccounts { u_users : list lws_account; u_blocks : list Z }.
Record push_accounts := PushAccounts { pa_users : list lws_account }.
Record replace_accounts := ReplaceAccounts { ra_users : list lws_account }.

(** [map_initialize] *)
Definition initialize_codec : codec initialize :=
  Codec initialize (TObject [field 0 "pass" str; field 1 "threads" (uint 4)])
    (λ x, VObject [Some (c_to str (i_pass x)); Some (c_to (uint 4) (i_threads x))])
    (λ v, match v with
          | VObject [Some a; Some b] => a ← c_of str a; b ← c_of (uint 4) b; Some (Initialize a b)
          | _ => None
          end)
    (λ x, c_ok str (i_pass x) ∧ c_ok (uint 4) (i_threads x)).

(** [map_account_update] *)
Definition update_accounts_codec : codec update_accounts :=
  Codec update_accounts
    (TObject [defaulted 0 "users" (trusted_array account_codec) [];
              defaulted 1 "blocks" (trusted_array blob32) []])
    (λ x, VObject [Some (c_to (trusted_array account_codec) (u_users x));
                   Some (c_to (trusted_array blob32) (u_blocks x))])
    (λ v, match v with
          | VObject [Some a; Some b] =>
            a ← c_of (trusted_array account_codec) a; b ← c_of (trusted_array blob32) b;
            Some (UpdateAccounts a b)
          | _ => None
          end)
    (λ x, c_ok (trusted_array account_codec) (u_users x) ∧ c_ok (trusted_array blob32) (u_blocks x)).

(** [map_push_accounts] and [map_replace_accounts] *)
Definition users_codec {A} (make : list lws_account → A) (users : A → list lws_account) : codec A :=
  Codec A (TObject [defaulted 0 "users" (trusted_array account_codec) []])
    (λ x, VObject [Some (c_to (trusted_array account_codec) (users x))])
    (λ v, match v with
          | VObject [Some a] => a ← c_of (trusted_array account_codec) a; Some (make a)
          | _ => None
          end)
    (λ x, c_ok (trusted_array account_codec) (users x)).
Definition push_accounts_codec : codec push_accounts := users_codec PushAccounts pa_users.
Definition replace_accounts_codec : codec replace_accounts := users_codec ReplaceAccounts ra_users.

(** ** The header and the stream *)

Definition header_size : nat := 6.

(** [complete_command]: version, id and little endian length before the payload;
    the empty message when the length does not fit. *)
Definition complete_command (id : Z) (payload : list Z) : list Z :=
  if u32_max <? Z.of_nat (length payload) then []
  else 0 :: id :: le_split 4 (Z.of_nat (length payload)) ++ payload.

(** [write_command], up to queueing: the message with integer keys. *)
Definition write_command {A} (c : codec A) (id : Z) (data : A) : expect (list Z) :=
  payload ← to_bytes true (c_type c) (c_to c data); Ok (complete_command id payload).

(** [call<F>] up to the handler: the payload unpacked, or [None]. *)
Definition unpack_command {A} (c : codec A) (payload : list Z) : option A :=
  match from_bytes (c_type c) payload with Ok v => c_of c v | Err _ => None end.

(** [do_read_commands]: the two [async_read]s take the header and the payload
    off the received bytes.  A handler that fails, or an id without one, closes
    the connection ([None]); bytes of an unfinished message are left. *)
Fixpoint read_commands {S} (fuel : nat) (handle : Z → list Z → S → option S) (s : S) (received : list Z) :
    option S * list Z :=
  match fuel with
  | O => (Some s, received)
  | S fuel =>
    match received with
    | _version :: id :: l1 :: l2 :: l3 :: l4 :: rest =>
      let size := Z.to_nat (le_combine [l1; l2; l3; l4]) in
      if (length rest <? size)%nat then (Some s, received)
      else match handle id (take size rest) s with
           | Some s => read_commands fuel handle s (drop size rest)
           | None => (None, drop size rest)
           end
    | _ => (Some s, received)
    end
  end.

(** The queue of messages to write: [write_bufs_] and [cleanup_]. *)
Record connection := Connection { write_bufs : list (list Z); cleaned_up : bool }.

Definition max_write_buffers : nat := 100.

(** [queue_slice] *)
Definition queue_slice (msg : list Z) (c : connection) : connection :=
  let queue := match write_bufs c with [] => true | _ => false end in
  let bufs := write_bufs c ++ [msg] in
  Connection bufs (cleaned_up c || (negb queue && (max_write_buffers <=? length bufs)%nat)).

(** [write_buffers] when a write is done: the message leaves the queue. *)
Definition written (c : connection) : connection :=
  if cleaned_up c then c else Connection (tail (write_bufs c)) false.

(** ** Lemmas *)

(** Sorting a sorted vector. *)
Lemma merge_sort_sorted {A} (R : A → A → Prop) `{!∀ x y, Decision (R x y)} `{!Transitive R} `{!Total R}
    (l : list A) :
  (∀ x y, R x y → R y x → x = y) → StronglySorted R l → merge_sort R l = l.
Proof.
  intros Hantisym Hl.
  assert (AntiSymm (=) R) by exact Hantisym.
  apply (StronglySorted_unique R); [by apply StronglySorted_merge_sort|done|apply merge_sort_Permutation].
Qed.

Lemma field_typed (fields : list (field_spec * wire_type)) f t v l :
  has_type t v = true → has_type (TObject fields) (VObject l) = true →
  has_type (TObject ((f, t) :: fields)) (VObject (Some v :: l)) = true.
Proof. intros Hv Hl. cbn [has_type map fields_have_types field_has_type fst snd] in *. by rewrite Hv. Qed.

Lemma optional_field_typed {A} (c : codec A) (fields : list (field_spec * wire_type)) id name ov l :
  (∀ v, ov = Some v → has_type (c_type c) v = true) → has_type (TObject fields) (VObject l) = true →
  has_type (TObject (optional_field id name c :: fields)) (VObject (ov :: l)) = true.
Proof.
  intros Hv Hl. unfold optional_field. cbn [has_type map fields_have_types field_has_type fst snd] in *.
  rewrite Hl, andb_true_r. destruct ov as [v|]; [by apply Hv|done].
Qed.

Lemma optional_of_to {A} (c : codec A) `{!CodecLaws c} (o : option A) :
  (∀ a, o = Some a → c_ok c a) → optional_of c (c_to c <$> o) = Some o.
Proof. intros Ho. destruct o as [a|]; [|done]. simpl. by rewrite codec_of_to by auto. Qed.

Ltac object_typed :=
  repeat first [ apply field_typed; [apply codec_typed; solve [auto; tauto]|]
               | apply optional_field_typed; [intros ? ?|] ]; try reflexivity.

Ltac object_of :=
  repeat (first [rewrite codec_of_to by solve [auto; tauto]
                |rewrite optional_of_to by solve [typeclasses eauto | auto; intros; simplify_eq; auto]]; cbn [mbind option_bind]).

#[global] Instance uint_laws bytes : CodecLaws (uint bytes).
Proof. split; [|done]. intros z Hz. cbn in *. lia. Qed.

Lemma byteb_le_split n z : forallb byteb (le_split n z) = true.
Proof.
  revert z. induction n as [|n IH]; intros z; cbn [le_split forallb]; [done|].
  rewrite IH, andb_true_r. unfold byteb. pose proof (Z.mod_pos_bound z 256). lia.
Qed.

#[global] Instance blob32_laws : CodecLaws blob32.
Proof.
  split; intros z Hz; cbn -[be_split Z.pow] in *.
  - rewrite length_be_split. unfold bytes_ok. rewrite length_be_split.
    assert (forallb byteb (be_split 32 z) = true) as ->; [|done].
    unfold be_split. apply forallb_forall. intros b Hb%in_rev.
    pose proof (byteb_le_split 32 z) as H. rewrite forallb_forall in H. by apply H.
  - by rewrite be_combine_split.
Qed.

#[global] Instance bytes32_laws : CodecLaws bytes32.
Proof. split; [|done]. intros l [Hl Hn]. cbn. by rewrite Hl, Hn. Qed.

#[global] Instance binary_laws : CodecLaws binary.
Proof. by split. Qed.

#[global] Instance boolean_laws : CodecLaws boolean.
Proof. by split. Qed.

Lemma length_chars s : length (chars s) = String.length s.
Proof.
  unfold chars. rewrite length_map. induction s as [|c s IH]; [done|]. simpl. by rewrite IH.
Qed.

#[global] Instance str_laws : CodecLaws str.
Proof.
  split; intros s Hs; cbn [c_ok c_to c_of c_type str has_type] in *.
  - unfold bytes_ok. rewrite length_chars. apply andb_true_iff. split; [|lia].
    unfold chars. apply forallb_forall. intros b (c & <- & _)%in_map_iff.
    unfold byteb. pose proof (Ascii.N_ascii_bounded c). lia.
  - f_equal. unfold char_list, chars. rewrite map_map.
    rewrite (map_ext _ (λ c, c)), map_id.
    + apply String.string_of_list_ascii_of_string.
    + intros c. by rewrite N2Z.id, Ascii.ascii_N_embedding.
Qed.

#[global] Instance trusted_array_laws {A} (c : codec A) : CodecLaws c → CodecLaws (trusted_array c).
Proof.
  intros Hc. split; intros l [Hl Hlen]; cbn [c_ok c_to c_of c_type trusted_array has_type] in *.
  - rewrite length_map. apply andb_true_iff. split; [|unfold u64_max, u32_max in *; lia].
    rewrite forallb_forall. intros v (a & <- & Ha)%in_map_iff.
    rewrite Forall_forall in Hl. apply codec_typed, Hl. by apply list_elem_of_In.
  - clear Hlen. induction Hl as [|a l Ha Hl IH]; [done|]. simpl.
    rewrite codec_of_to by done. simpl. by rewrite IH.
Qed.

#[global] Instance output_id_laws : CodecLaws output_id_codec.
Proof.
  split; intros [a b] Hok; cbn [c_ok c_to c_of c_type output_id_codec high low] in *; destruct Hok.
  - unfold field. object_typed.
  - by object_of.
Qed.

#[global] Instance account_address_laws : CodecLaws account_address_codec.
Proof.
  split; intros [a b] Hok; cbn [c_ok c_to c_of c_type account_address_codec view_public spend_public] in *;
    destruct Hok.
  - unfold field. object_typed.
  - by object_of.
Qed.

#[global] Instance address_index_laws : CodecLaws address_index_codec.
Proof.
  split; intros [a b] Hok; cbn [c_ok c_to c_of c_type address_index_codec maj_i min_i] in *; destruct Hok.
  - unfold field. object_typed.
  - by object_of.
Qed.

#[global] Instance pair_laws {A B} (ca : codec A) (cb : codec B) :
  CodecLaws ca → CodecLaws cb → CodecLaws (pair_codec ca cb).
Proof.
  intros Ha Hb. split; intros [a b] Hok; cbn [c_ok c_to c_of c_type pair_codec fst snd] in *; destruct Hok.
  - unfold field. object_typed.
  - by object_of.
Qed.

(** The fields of a wire form fit their types. *)
Record wire_output_ok (w : wire_output) : Prop := {
  wok_id : c_ok output_id_codec (read_defaulted (w_id w) output_id_txpool);
  wok_block : c_ok (uint 8) (read_defaulted (w_block w) block_id_txpool);
  wok_index : c_ok (uint 4) (w_index w);
  wok_amount : c_ok (uint 8) (w_amount w);
  wok_timestamp : c_ok (uint 8) (w_timestamp w);
  wok_tx_hash : c_ok blob32 (w_tx_hash w);
  wok_prefix : c_ok blob32 (w_tx_prefix_hash w);
  wok_public : c_ok blob32 (w_tx_public w);
  wok_mask : ∀ m, w_rct_mask w = Some m → c_ok blob32 m;
  wok_payment : ∀ p, w_payment_id w = Some p → c_ok binary p;
  wok_unlock : c_ok (uint 8) (w_unlock_time w);
  wok_mixin : c_ok (uint 4) (w_mixin_count w);
  wok_coinbase : c_ok boolean (w_coinbase w);
  wok_fee : c_ok (uint 8) (w_fee w);
  wok_recipient : c_ok address_index_codec (w_recipient w);
  wok_pub : c_ok blob32 (w_pub w)
}.

Lemma optional_typed {A} (c : codec A) `{!CodecLaws c} (o : option A) v :
  (∀ a, o = Some a → c_ok c a) → c_to c <$> o = Some v → has_type (c_type c) v = true.
Proof. intros Ho (a & -> & ->)%fmap_Some. apply codec_typed. by apply Ho. Qed.

Lemma wire_output_typed w : wire_output_ok w → has_type output_type (wire_output_to w) = true.
Proof.
  intros []. unfold output_type, wire_output_to, field, defaulted. object_typed.
  - by apply (optional_typed blob32 (w_rct_mask w)).
  - by apply (optional_typed binary (w_payment_id w)).
Qed.

Lemma wire_output_of_to w :
  wire_output_ok w →
  wire_output_of (wire_output_to w) =
    Some (WireOutput (Some (read_defaulted (w_id w) output_id_txpool))
      (Some (read_defaulted (w_block w) block_id_txpool)) (w_index w) (w_amount w) (w_timestamp w)
      (w_tx_hash w) (w_tx_prefix_hash w) (w_tx_public w) (w_rct_mask w) (w_payment_id w)
      (w_unlock_time w) (w_mixin_count w) (w_coinbase w) (w_fee w) (w_recipient w) (w_pub w)).
Proof. intros []. unfold wire_output_of, wire_output_to. by object_of. Qed.

Lemma bytes_ok_take n l : bytes_ok l = true → bytes_ok (take n l) = true.
Proof.
  unfold bytes_ok. intros [Hl Hlen]%andb_true_iff. apply andb_true_iff. split.
  - apply forallb_forall. rewrite forallb_forall in Hl. intros b Hb. apply Hl.
    rewrite <-(firstn_skipn n l). apply in_or_app. by left.
  - apply Z.leb_le in Hlen. apply Z.leb_le. rewrite length_take. lia.
Qed.

Lemma write_output_ok o : c_ok output_codec o → wire_output_ok (write_output o).
Proof.
  intros (Hok & _ & Hbytes & Hrest). decompose [and] Hrest. clear Hrest.
  split; cbn [write_output w_id w_block w_index w_amount w_timestamp w_tx_hash w_tx_prefix_hash w_tx_public
    w_unlock_time w_mixin_count w_coinbase w_fee w_recipient w_pub]; rewrite ?read_write_defaulted; try done.
  - intros m Hm. unfold write_output in Hm. cbn [w_rct_mask] in Hm. case_match; [|done]. by simplify_eq.
  - intros p Hp. rewrite (write_output_payment o Hok) in Hp. case_match; [done|]. simplify_eq.
    cbn [c_ok binary]. by apply bytes_ok_take.
Qed.

Lemma read_output_defaulted w self :
  read_output (WireOutput (Some (read_defaulted (w_id w) output_id_txpool))
      (Some (read_defaulted (w_block w) block_id_txpool)) (w_index w) (w_amount w) (w_timestamp w)
      (w_tx_hash w) (w_tx_prefix_hash w) (w_tx_public w) (w_rct_mask w) (w_payment_id w)
      (w_unlock_time w) (w_mixin_count w) (w_coinbase w) (w_fee w) (w_recipient w) (w_pub w)) self =
    read_output w self.
Proof. reflexivity. Qed.

#[global] Instance output_laws : CodecLaws output_codec.
Proof.
  split; intros o Hok; pose proof (write_output_ok o Hok) as Hw.
  - by apply wire_output_typed.
  - cbn [c_of c_to output_codec]. rewrite wire_output_of_to by done. cbn [mbind option_bind].
    destruct Hok as (Hok & Hclear & _).
    rewrite read_output_defaulted, (read_write_output_ok o (replicate 32 0) Hok).
    f_equal. unfold payment_clear in Hclear.
    rewrite drop_replicate, <-Hclear. by destruct o.
Qed.

#[global] Instance spend_laws : CodecLaws spend_codec.
Proof.
  split; intros s (Hlen & Hrest); decompose [and] Hrest; clear Hrest;
    cbn [c_type c_to c_of spend_codec]; unfold spend_type, wire_spend_to, wire_spend_of, write_spend;
    cbn [ws_height ws_tx_hash ws_image ws_source ws_timestamp ws_unlock_time ws_mixin_count ws_payment_id
      ws_sender].
  - unfold field. object_typed. apply (optional_typed bytes32
      (if s_length s =? 32 then Some (s_payment_id s) else None)); [|done].
    intros l Hl. by destruct Hlen as [[Hn _]|[Hn Hpid]]; rewrite Hn in Hl; simplify_eq/=.
  - assert (∀ l, (if s_length s =? 32 then Some (s_payment_id s) else None) = Some l → c_ok bytes32 l)
      as Hpid by (intros l Hl; by destruct Hlen as [[Hn _]|[Hn Hpid]]; rewrite Hn in Hl; simplify_eq/=).
    object_of. unfold read_spend. cbn. f_equal. destruct s as [[] ? ? ? ? ? ? ? ?]; cbn in *.
    by destruct Hlen as [[-> ->]|[-> _]].
Qed.

#[global] Instance internal_laws : CodecLaws internal_codec.
Proof.
  split; intros [a b c d] Hok; cbn [c_ok c_to c_of c_type internal_codec in_address in_id in_pubs in_view_key] in *;
    decompose [and] Hok.
  - unfold field. object_typed.
  - by object_of.
Qed.

#[global] Instance account_laws : CodecLaws account_codec.
Proof.
  split; intros [imm spendable pubs spends outputs height] ((i & Heq & Hi) & Hsorted & Hrest);
    decompose [and] Hrest; clear Hrest; cbn [la_immutable la_spendable la_pubs la_spends la_outputs la_height] in *;
    subst; cbn [c_type c_to c_of account_codec];
    unfold write_account, null_check, of_option; cbn [la_immutable la_spendable la_pubs la_spends la_outputs la_height].
  - unfold account_type, field, defaulted. object_typed.
  - unfold read_account. object_of. destruct Hsorted as [Hs Hp _ _]. cbn in Hs, Hp.
    rewrite (merge_sort_sorted Z.le) by (done || lia). f_equal. f_equal.
    apply (merge_sort_sorted (λ l r : spendable_entry, spendable_leb l r)).
    + intros x y Hxy Hyx. rewrite spendable_leb_le in Hxy, Hyx. rewrite (cmp_opp spendable_cmp x y) in Hyx.
      destruct (spendable_cmp x y) eqn:E; [by apply (cmp_eq spendable_cmp) in E|done|done].
    + eapply sorted_impl; [exact Hs|]. intros x y. apply spendable_leb_le.
Qed.

#[global] Instance initialize_laws : CodecLaws initialize_codec.
Proof.
  split; intros [a b] Hok; cbn [c_ok c_to c_of c_type initialize_codec i_pass i_threads] in *; destruct Hok.
  - unfold field. object_typed.
  - by object_of.
Qed.

#[global] Instance update_accounts_laws : CodecLaws update_accounts_codec.
Proof.
  split; intros [a b] Hok; cbn [c_ok c_to c_of c_type update_accounts_codec u_users u_blocks] in *; destruct Hok.
  - unfold defaulted. object_typed.
  - by object_of.
Qed.

#[global] Instance users_laws {A} (make : list lws_account → A) users :
  (∀ x, make (users x) = x) → CodecLaws (users_codec make users).
Proof.
  intros Hmake. split; intros x Hok; cbn [c_ok c_to c_of c_type users_codec] in *.
  - unfold defaulted. object_typed.
  - object_of. by rewrite Hmake.
Qed.

#[global] Instance push_accounts_laws : CodecLaws push_accounts_codec.
Proof. apply users_laws. by intros []. Qed.

#[global] Instance replace_accounts_laws : CodecLaws replace_accounts_codec.
Proof. apply users_laws. by intros []. Qed.

(** *** Streams of messages *)

Section stream.
Context {S : Type} (handle : Z → list Z → S → option S).

(** One message off the received bytes, as [read_commands] takes it. *)
Definition next_command (received : list Z) : option (Z * list Z * list Z) :=
  match received with
  | _version :: id :: l1 :: l2 :: l3 :: l4 :: rest =>
    let size := Z.to_nat (le_combine [l1; l2; l3; l4]) in
    if (length rest <? size)%nat then None else Some (id, take size rest, drop size rest)
  | _ => None
  end.

Lemma read_commands_next fuel s received :
  read_commands (Datatypes.S fuel) handle s received =
    match next_command received with
    | None => (Some s, received)
    | Some (id, payload, rest) =>
      match handle id payload s with Some s => read_commands fuel handle s rest | None => (None, rest) end
    end.
Proof. unfold next_command. simpl. repeat (case_match; try done; simplify_eq). Qed.

Lemma next_command_shorter received id payload rest :
  next_command received = Some (id, payload, rest) → (length rest < length received)%nat.
Proof.
  unfold next_command. intros Hnext. repeat (case_match; try done). simplify_eq.
  rewrite length_drop. simpl. lia.
Qed.

Lemma next_command_app received id payload rest more :
  next_command received = Some (id, payload, rest) →
  next_command (received ++ more) = Some (id, payload, rest ++ more).
Proof.
  intros Hnext. destruct received as [|v [|i [|l1 [|l2 [|l3 [|l4 l]]]]]]; try done.
  cbn [app next_command] in *.
  destruct (Nat.ltb_spec (length l) (Z.to_nat (le_combine [l1; l2; l3; l4]))) as [|Hle]; [done|]. simplify_eq.
  rewrite length_app.
  destruct (Nat.ltb_spec (length l + length more) (Z.to_nat (le_combine [l1; l2; l3; l4]))); [lia|].
  by rewrite take_app_le, drop_app_le by done.
Qed.

(** Enough fuel is the number of bytes. *)
Lemma read_commands_fuel fuel fuel' s received :
  (length received < fuel)%nat → (length received < fuel')%nat →
  read_commands fuel handle s received = read_commands fuel' handle s received.
Proof.
  revert fuel' s received. induction fuel as [|fuel IH]; intros [|fuel'] s received Hf Hf'; try lia.
  rewrite !read_commands_next. destruct (next_command received) as [[[id payload] rest]|] eqn:Hnext; [|done].
  apply next_command_shorter in Hnext. destruct (handle id payload s); [|done]. apply IH; lia.
Qed.

(** Bytes that arrive while the loop waits: what was left and the new ones. *)
Definition receive (state : option S * list Z) (chunk : list Z) : option S * list Z :=
  let received := state.2 ++ chunk in
  match state.1 with
  | Some s => read_commands (Datatypes.S (length received)) handle s received
  | None => (None, received)
  end.

(** The handlers in order, until one fails. *)
Fixpoint handle_all (s : S) (msgs : list (Z * list Z)) : option S :=
  match msgs with
  | [] => Some s
  | (id, payload) :: msgs => s ← handle id payload s; handle_all s msgs
  end.

Lemma read_commands_split fuel s b1 b2 :
  (length (b1 ++ b2) < fuel)%nat →
  (receive (read_commands fuel handle s b1) b2).1 = (read_commands fuel handle s (b1 ++ b2)).1.
Proof.
  revert s b1. induction fuel as [|fuel IH]; intros s b1 Hfuel; [lia|].
  rewrite (read_commands_next fuel s b1). destruct (next_command b1) as [[[id payload] rest]|] eqn:Hnext.
  - pose proof (next_command_shorter _ _ _ _ Hnext). apply (next_command_app _ _ _ _ b2) in Hnext.
    rewrite read_commands_next, Hnext. destruct (handle id payload s) as [s'|]; [|done].
    apply IH. rewrite length_app in Hfuel |- *. lia.
  - unfold receive; cbn [fst snd].
    by rewrite (read_commands_fuel (Datatypes.S fuel) (Datatypes.S (length (b1 ++ b2)))) by lia.
Qed.

Lemma receive_receive state c d : (receive (receive state c) d).1 = (receive state (c ++ d)).1.
Proof.
  destruct state as [[s|] left]; [|done]. unfold receive at 2 3. cbn [fst snd]. cbv iota beta zeta.
  rewrite app_assoc, <-read_commands_split by lia.
  by rewrite (read_commands_fuel _ (Datatypes.S (length ((left ++ c) ++ d)))) by (rewrite ?length_app; lia).
Qed.

Lemma receive_chunks state c chunks :
  (foldl receive state (c :: chunks)).1 = (receive state (c ++ concat chunks)).1.
Proof.
  revert state c. induction chunks as [|c' chunks IH]; intros state c; [simpl; by rewrite app_nil_r|].
  change (foldl receive state (c :: c' :: chunks)) with (foldl receive (receive state c) (c' :: chunks)).
  rewrite IH, receive_receive. done.
Qed.

Lemma next_command_complete id payload rest :
  0 <= id < 256 → Z.of_nat (length payload) <= u32_max →
  next_command (complete_command id payload ++ rest) = Some (id, payload, rest).
Proof.
  intros Hid Hlen. unfold complete_command. destruct (Z.ltb_spec u32_max (Z.of_nat (length payload))); [lia|].
  assert (le_combine (le_split 4 (Z.of_nat (length payload))) = Z.of_nat (length payload)) as Hsize.
  { apply le_combine_split. unfold u32_max in *. change (256 ^ Z.of_nat 4) with (2 ^ 32). lia. }
  cbn [app]. rewrite <-app_assoc. revert Hsize. generalize (length_le_split 4 (Z.of_nat (length payload))).
  destruct (le_split 4 (Z.of_nat (length payload))) as [|l1 [|l2 [|l3 [|l4 [|]]]]]; try done.
  intros _ Hsize. cbn [app next_command]. rewrite Hsize, Nat2Z.id, length_app.
  destruct (Nat.ltb_spec (length payload + length rest) (length payload)); [lia|].
  by rewrite take_app_length, drop_app_length.
Qed.

(** A stream of complete messages and the start of another. *)
Lemma receive_messages s msgs rest :
  Forall (λ m, 0 <= m.1 < 256 ∧ Z.of_nat (length m.2) <= u32_max) msgs → next_command rest = None →
  (receive (Some s, []) (concat (map (λ m, complete_command m.1 m.2) msgs) ++ rest)).1 = handle_all s msgs.
Proof.
  intros Hmsgs Hrest. unfold receive. cbn [fst snd]. cbn [app].
  generalize (Nat.lt_succ_diag_r (length (concat (map (λ m, complete_command m.1 m.2) msgs) ++ rest))).
  generalize (Datatypes.S (length (concat (map (λ m, complete_command m.1 m.2) msgs) ++ rest))) as fuel.
  revert s. induction Hmsgs as [|[id payload] msgs [Hid Hlen] Hmsgs IH]; intros s fuel Hfuel;
    (destruct fuel as [|fuel]; [lia|]); rewrite read_commands_next.
  - cbn [map concat app]. by rewrite Hrest.
  - cbn [map concat fst snd]. rewrite <-app_assoc, next_command_complete by done. cbn [handle_all].
    destruct (handle id payload s) as [s'|]; [|done]. simpl. apply IH.
    cbn [map concat fst snd] in Hfuel. rewrite !length_app in *.
    assert (1 <= length (complete_command id payload))%nat; [|lia].
    cbn [snd] in Hlen. unfold complete_command.
    destruct (Z.ltb_spec u32_max (Z.of_nat (length payload))); simpl; lia.
Qed.
End stream.

(** *** Whole messages *)

Lemma unpack_write {A} (c : codec A) `{!CodecLaws c} data :
  wire_type_ok true (c_type c) = true → type_depth (c_type c) < max_read_depth → c_ok c data →
  Z.of_nat (length (encode true (c_type c) (c_to c data))) < u64_max →
  unpack_command c (encode true (c_type c) (c_to c data)) = Some data.
Proof.
  intros Hok Hdepth Hdata Hlen. unfold unpack_command.
  erewrite from_bytes_reads; [by apply codec_of_to| |exact Hdepth|done].
  apply read_bytes_encode; [done|by apply codec_typed].
Qed.

(** What a message needs to be sent: its types fit, and it is not too long. *)
Record sendable {A} (c : codec A) (data : A) : Prop := {
  send_ok : c_ok c data;
  send_length : Z.of_nat (length (encode true (c_type c) (c_to c data))) <= u32_max
}.

(** A codec of a message, with types that can be read. *)
Class Message {A} (c : codec A) : Prop := {
  message_laws :: CodecLaws c;
  message_type : wire_type_ok true (c_type c) = true;
  message_depth : type_depth (c_type c) < max_read_depth
}.

#[global] Instance initialize_message : Message initialize_codec.
Proof. split; [apply _|vm_compute; reflexivity|vm_compute; reflexivity]. Qed.
#[global] Instance update_accounts_message : Message update_accounts_codec.
Proof. split; [apply _|vm_compute; reflexivity|vm_compute; reflexivity]. Qed.
#[global] Instance push_accounts_message : Message push_accounts_codec.
Proof. split; [apply _|vm_compute; reflexivity|vm_compute; reflexivity]. Qed.
#[global] Instance replace_accounts_message : Message replace_accounts_codec.
Proof. split; [apply _|vm_compute; reflexivity|vm_compute; reflexivity]. Qed.

(** The queue stays short until the connection is cleaned up. *)
Definition connection_ok (c : connection) : Prop :=
  cleaned_up c = false → (length (write_bufs c) < max_write_buffers)%nat.

Lemma queue_slice_ok msg c : connection_ok c → connection_ok (queue_slice msg c).
Proof.
  unfold connection_ok, queue_slice. intros Hc Hclean. cbn [cleaned_up write_bufs] in *.
  apply orb_false_iff in Hclean as [Hclean Hmax]. specialize (Hc Hclean).
  destruct (write_bufs c) as [|buf bufs]; [vm_compute; lia|].
  cbn [negb andb] in Hmax. by apply Nat.leb_gt in Hmax.
Qed.

Lemma written_ok c : connection_ok c → connection_ok (written c).
Proof.
  unfold connection_ok, written. intros Hc. destruct (cleaned_up c) eqn:E; [by rewrite E|].
  cbn [cleaned_up write_bufs]. intros _. specialize (Hc eq_refl). destruct (write_bufs c); simpl in *; lia.
Qed.

(** ** Properties *)

(** A message sent to the other side of a connection arrives as it was sent,
    however the socket cuts the stream: the handlers run on exactly the messages,
    in their order, until one fails. *)
Theorem messages_arrive {S} (handle : Z → list Z → S → option S) s msgs rest chunk chunks :
  Forall (λ m, 0 <= m.1 < 256 ∧ Z.of_nat (length m.2) <= u32_max) msgs →
  next_command rest = None →
  concat (chunk :: chunks) = concat (map (λ m, complete_command m.1 m.2) msgs) ++ rest →
  (foldl (receive handle) (Some s, []) (chunk :: chunks)).1 = handle_all handle s msgs.
Proof.
  intros Hmsgs Hrest Hconcat. rewrite receive_chunks. cbn [concat] in Hconcat. rewrite Hconcat.
  by apply receive_messages.
Qed.

(** The four messages are unpacked to what was packed: [write_command] makes
    one whole message, and [call] finds in its payload the data sent, for scanned
    accounts with all their outputs and spends. *)
Theorem write_command_unpacks {A} (c : codec A) `{!Message c} id data :
  sendable c data →
  ∃ payload, write_command c id data = Ok (complete_command id payload) ∧
    Z.of_nat (length payload) <= u32_max ∧ unpack_command c payload = Some data.
Proof.
  intros [Hok Hlen]. exists (encode true (c_type c) (c_to c data)). unfold write_command.
  rewrite to_bytes_encode by first [apply message_type | by apply codec_typed]. split; [done|]. split; [done|].
  apply (unpack_write c data); [apply message_type|apply message_depth|done|unfold u32_max, u64_max in *; lia].
Qed.

(** ** Witnesses *)

(** Three messages cut in the middle of a header and of a payload. *)
Definition test_messages : list (Z * list Z) := [(1, [7; 8; 9]); (0, []); (2, [5])].

Lemma messages_arrive_witness :
  (foldl (receive (λ id payload s, if id =? 2 then None else Some (s ++ [(id, payload)]))) (Some [], [])
     [[0; 1; 3; 0]; [0; 0; 7; 8]; [9; 0; 0; 0; 0; 0; 0]; [0; 2; 1; 0; 0; 0; 5; 4; 4]]).1 = None ∧
  (foldl (receive (λ id payload s, Some (s ++ [(id, payload)]))) (Some [], [])
     [[0; 1; 3; 0]; [0; 0; 7; 8]; [9; 0; 0; 0; 0; 0; 0]; [0; 2; 1; 0; 0; 0; 5; 4; 4]]).1 = Some test_messages.
Proof.
  split; rewrite (messages_arrive _ _ test_messages [4; 4]); try reflexivity;
    repeat constructor; vm_compute; try done.
Defined.

Definition test_output_sent : output :=
  {| o_link := TransactionLink 9 7; o_spend_meta := SpendMeta (OutputId 0 3) 5 11 0 9;
     o_timestamp := 100; o_unlock_time := 0; o_tx_prefix_hash := 1; o_pub := 2; o_ringct_mask := 3;
     o_extra := 136; o_payment_id := [1; 2; 3; 4; 5; 6; 7; 8] ++ replicate 24 0; o_fee := 1;
     o_recipient := AddressIndex 0 1 |}.

Definition test_spend_sent : spend :=
  {| s_link := TransactionLink 10 8; s_image := 4; s_source := OutputId 0 3; s_timestamp := 101;
     s_unlock_time := 0; s_mixin_count := 15; s_length := 32; s_payment_id := replicate 32 1;
     s_sender := AddressIndex 0 1 |}.

Definition test_update : update_accounts :=
  UpdateAccounts
    [LwsAccount (Some (Internal "4addr" 1 (AccountAddress 5 6) 7)) [(OutputId 0 3, AddressIndex 0 1)] [2]
       [test_spend_sent] [test_output_sent] 9] [11; 12].

Lemma test_update_sendable : sendable update_accounts_codec test_update.
Proof.
  assert (c_ok output_codec test_output_sent) as Hout.
  { split; [split; vm_compute; try done; right; left|].
    split; [reflexivity|]. split; [reflexivity|]. repeat split; vm_compute; done. }
  assert (c_ok spend_codec test_spend_sent) as Hspend.
  { split; [right; split; [done|]; split; vm_compute; done|]. repeat split; vm_compute; done. }
  split; [|vm_compute; discriminate].
  split; (split; [|vm_compute; discriminate]).
  - constructor; [|constructor]. split; [eexists; split; [reflexivity|]|split].
    + repeat split; vm_compute; done.
    + split; simpl; [repeat constructor|repeat constructor| |].
      * constructor; [|constructor]. split; left.
      * apply NoDup_singleton.
    + split; [|split; [|split; [|split]]].
      * split; [|vm_compute; discriminate]. constructor; [|constructor]. repeat split; vm_compute; done.
      * split; [|vm_compute; discriminate]. constructor; [|constructor]. split; vm_compute; done.
      * split; [|vm_compute; discriminate]. by constructor; [|constructor].
      * split; [|vm_compute; discriminate]. by constructor; [|constructor].
      * split; vm_compute; done.
  - constructor; [|constructor; [|constructor]]; vm_compute; split; done.
Qed.

Lemma write_command_unpacks_witness :
  ∃ payload, write_command update_accounts_codec 1 test_update = Ok (complete_command 1 payload) ∧
    Z.of_nat (length payload) <= u32_max ∧
    unpack_command update_accounts_codec payload = Some test_update.
Proof. apply (write_command_unpacks update_accounts_codec 1 test_update test_update_sendable). Defined.
