(* ===== verification/Queue.v ===== *)
(** * The queue of a scanning thread (src/src/rpc/scanner/queue.cpp, queue.h)

    A scanning thread gets its accounts through a queue.  The server replaces all
    of them, or pushes new ones; the thread takes what there is after each batch
    of blocks, or waits when it has no account left.  [queue] is the state under
    the mutex, with one definition for each function that holds it; [taken] is
    what [scanner::loop] and [do_scan_loop] make of a status.

    Shown are that queue and thread implement an assignment: whatever the order of
    the operations, the accounts a thread has after it looked are those the server
    gave it, once each and in order ([queue_refines]).  [monitor] adds the condition
    variable: a thread that finds nothing sleeps, and only a [notify_all] that was
    left to do, or a spurious wake-up, makes it run again.  No wake-up is lost: a
    waiting thread is woken by every replacement, push and stop, however all these
    steps are scheduled ([waiting_thread_returns]). *)

From S2P Require Import Prelude Lmdb Data Account.

(** ** Data *)

Record queue := Queue {
  replace_ : option (list lws_account);
  push_ : list lws_account;
  user_count_ : Z;
  current_min_height_ : Z;
  stop_ : bool
}.

(** [queue::status] *)
Record status := Status {
  st_replace : option (list lws_account);
  st_push : list lws_account;
  st_user_count : Z
}.

(** ** Operations *)

Definition new_queue : queue := Queue None [] 0 0 false.

(** [do_get_accounts], and [get_accounts] which holds the mutex around it. *)
Definition do_get_accounts (q : queue) : status * queue :=
  (Status (replace_ q) (push_ q) (user_count_ q),
   Queue None [] (user_count_ q) (current_min_height_ q) (stop_ q)).

(** [stop] *)
Definition stop (q : queue) : queue :=
  Queue (replace_ q) (push_ q) (user_count_ q) (current_min_height_ q) true.

(** [update_min_height] *)
Definition update_min_height (height : Z) (q : queue) : queue :=
  Queue (replace_ q) (push_ q) (user_count_ q) (Z.max height (current_min_height_ q)) (stop_ q).

(** The condition [wait_for_accounts] waits for. *)
Definition wait_ready (q : queue) : bool :=
  match replace_ q, push_ q with None, [] => stop_ q | _, _ => true end.

(** What [wait_for_accounts] does when it has the mutex: it returns the accounts, or
    has to sleep on [poll_] and is here again when it wakes up ([monitor]). *)
Definition wait_for_accounts (q : queue) : option (status * queue) :=
  if wait_ready q then Some (do_get_accounts q) else None.

(** [std::min_element] by scan height, of a vector that is not empty. *)
Definition min_scan_height (first : lws_account) (users : list lws_account) : Z :=
  foldl (λ h user, if scan_height user <? h then scan_height user else h) (scan_height first) users.

(** [replace_accounts] *)
Definition replace_accounts (users : list lws_account) (q : queue) : queue :=
  Queue (Some users) [] (Z.of_nat (length users))
    (match users with [] => 0 | first :: rest => min_scan_height first rest end) (stop_ q).

(** [push_accounts]: [user_count_] is a [std::size_t]. *)
Definition push_accounts (users : list lws_account) (q : queue) : queue :=
  Queue (replace_ q) (push_ q ++ users) (wrap 64 (user_count_ q + Z.of_nat (length users)))
    (foldl (λ h user, if (h =? 0) || (scan_height user <? h) then scan_height user else h)
       (current_min_height_ q) users) (stop_ q).

(** The accounts of the thread after it looked, in [do_scan_loop] (which clears its
    own first) and before sorting in [scanner::loop]. *)
Definition taken (s : status) (users : list lws_account) : list lws_account :=
  default users (st_replace s) ++ st_push s.

(** ** A thread with its queue

    The thread is [Busy] with accounts or [Waiting] in [wait_for_accounts]; its
    steps come in any order between those of the others. *)

Inductive worker := Busy (users : list lws_account) | Waiting.

Definition worker_users (w : worker) : list lws_account :=
  match w with Busy users => users | Waiting => [] end.

Inductive action : Type :=
  | Replace (users : list lws_account)
  | Push (users : list lws_account)
  | MinHeight (height : Z)
  | Stop
  | Look.     (** the thread is scheduled *)

(** A thread with accounts is in [scanner::loop]: it looks into the queue, and
    leaves when it is told to have no account.  One without waits, and goes on
    when the queue lets it. *)
Definition look (q : queue) (w : worker) : queue * worker :=
  match w with
  | Busy [] => (q, Waiting)
  | Busy users =>
    let '(s, q) := do_get_accounts q in
    match taken s users with [] => (q, Waiting) | users => (q, Busy users) end
  | Waiting =>
    match wait_for_accounts q with
    | Some (s, q) => (q, Busy (taken s []))
    | None => (q, Waiting)
    end
  end.

Definition step (a : action) (qw : queue * worker) : queue * worker :=
  let '(q, w) := qw in
  match a with
  | Replace users => (replace_accounts users q, w)
  | Push users => (push_accounts users q, w)
  | MinHeight height => (update_min_height height q, w)
  | Stop => (stop q, w)
  | Look => look q w
  end.

(** ** The condition variable

    [poll_] stands between the operations and the thread.  The functions that have
    something for the thread release the mutex and then call [notify_all], so other
    steps can come between the two; the thread checks its condition and falls asleep
    in one step, since [wait] releases the mutex only then. *)

(** The operations that end with [poll_.notify_all]. *)
Definition notifies (a : action) : bool :=
  match a with Replace _ | Push _ | Stop => true | MinHeight _ | Look => false end.

Inductive thread := Awake (w : worker) | Asleep.

Definition thread_worker (t : thread) : worker :=
  match t with Awake w => w | Asleep => Waiting end.

Record monitor := Monitor {
  m_queue : queue;
  m_thread : thread;
  notifying : nat     (** calls of [notify_all] still to come *)
}.

Inductive event : Type :=
  | Act (a : action)    (** an operation up to the end of its lock, or the thread *)
  | NotifyAll
  | Spurious.           (** [wait] may wake up by itself *)

(** The thread is scheduled: it does not run while asleep; one that waits has the
    mutex and returns, or falls asleep. *)
Definition thread_runs (q : queue) (t : thread) : queue * thread :=
  match t with
  | Asleep => (q, Asleep)
  | Awake Waiting =>
    match wait_for_accounts q with
    | Some (s, q) => (q, Awake (Busy (taken s [])))
    | None => (q, Asleep)
    end
  | Awake (Busy users) => let '(q, w) := look q (Busy users) in (q, Awake w)
  end.

Definition wake (t : thread) : thread := match t with Asleep => Awake Waiting | _ => t end.

Definition monitor_step (e : event) (m : monitor) : monitor :=
  let '(Monitor q t n) := m in
  match e with
  | Act Look => let '(q, t) := thread_runs q t in Monitor q t n
  | Act a => Monitor (step a (q, thread_worker t)).1 t (if notifies a then S n else n)
  | NotifyAll => match n with O => m | S n => Monitor q (wake t) n end
  | Spurious => Monitor q (wake t) n
  end.

(** ** The assignment the queue implements

    The specification has no queue: what the server replaces or pushes is given to
    the thread at once. *)
Definition spec_step (a : action) (assigned : list lws_account) : list lws_account :=
  match a with
  | Replace users => users
  | Push users => assigned ++ users
  | _ => assigned
  end.

(** What the thread will have when it looks. *)
Definition view (qw : queue * worker) : list lws_account :=
  default (worker_users qw.2) (replace_ qw.1) ++ push_ qw.1.

(** ** Lemmas *)

Lemma look_view q w : view (look q w) = view (q, w).
Proof.
  unfold look, view. destruct w as [[|user users]|]; [done| |].
  - unfold taken; simpl. destruct (default (user :: users) (replace_ q) ++ push_ q); simpl;
      by rewrite ?app_nil_r.
  - unfold wait_for_accounts, wait_ready, taken. cbn [fst snd worker_users].
    destruct (replace_ q) as [r|] eqn:Er, (push_ q) as [|u us] eqn:Ep; cbn; rewrite ?Er, ?Ep, ?app_nil_r;
      try done.
    destruct (stop_ q); cbn; by rewrite ?Er, ?Ep.
Qed.

Lemma step_view a qw : view (step a qw) = spec_step a (view qw).
Proof.
  destruct qw as [q w], a as [users|users|height| |]; simpl step; try done.
  - unfold view; simpl. by rewrite app_nil_r.
  - unfold view; simpl. by rewrite app_assoc.
  - apply look_view.
Qed.

(** A thread that looked and is busy has everything, one that waits nothing. *)
Lemma look_busy q w users : (look q w).2 = Busy users → users = view (q, w).
Proof.
  unfold look, view. destruct w as [[|user rest]|]; [done| |].
  - unfold taken; simpl. destruct (default (user :: rest) (replace_ q) ++ push_ q); [done|]. by intros [= <-].
  - unfold wait_for_accounts. destruct (wait_ready q); [|done]. unfold taken; simpl. by intros [= <-].
Qed.

Lemma waiting_view q : wait_ready q = false → view (q, Waiting) = [].
Proof.
  unfold wait_ready, view. simpl. destruct (replace_ q); [done|]. by destruct (push_ q).
Qed.

(** A pending replacement, push or stop stays until the thread looks. *)
Lemma ready_stable a q w :
  a ≠ Look → wait_ready q = true → wait_ready (step a (q, w)).1 = true.
Proof.
  intros Ha Hready. destruct a as [users|users|height| |]; try done; simpl.
  - unfold wait_ready in *. simpl. destruct (replace_ q); [done|].
    destruct (push_ q); simpl; [|done]. by destruct users.
  - unfold wait_ready in *. simpl. destruct (replace_ q); [done|]. by destruct (push_ q).
Qed.

Lemma worker_stable a q w : a ≠ Look → (step a (q, w)).2 = w.
Proof. by intros Ha; destruct a. Qed.

#[local] Instance look_dec a : Decision (a = Look).
Proof. destruct a; first [by left | by right]. Defined.

(** What makes a waiting thread return. *)
Definition wakes (a : action) : Prop :=
  match a with Replace _ | Stop => True | Push users => users ≠ [] | _ => False end.

Lemma wakes_ready a q w : wakes a → wait_ready (step a (q, w)).1 = true.
Proof.
  destruct a as [users|users|height| |]; simpl; try done.
  - intros Husers. unfold wait_ready. simpl. destruct (replace_ q); [done|].
    destruct (push_ q), users; simpl; try done.
  - intros _. unfold wait_ready. simpl. destruct (replace_ q); [done|]. by destruct (push_ q).
Qed.

(** *** The condition variable *)

Definition forget (m : monitor) : queue * worker := (m_queue m, thread_worker (m_thread m)).

(** Without the condition variable, a step of the monitor is one of the queue and
    its thread, or nothing when the thread sleeps. *)
Lemma monitor_runs m :
  forget (monitor_step (Act Look) m) = look (m_queue m) (thread_worker (m_thread m)) ∨
  m_thread m = Asleep ∧ monitor_step (Act Look) m = m.
Proof.
  destruct m as [q [[users|]|] n]; cbn [monitor_step thread_runs]; [left|left|by right].
  - cbn [m_queue m_thread thread_worker]. by destruct (look q (Busy users)).
  - unfold forget, look. cbn. by destruct (wait_for_accounts q) as [[s q']|].
Qed.

Lemma monitor_acts a m : a ≠ Look → forget (monitor_step (Act a) m) = step a (forget m).
Proof. intros Ha. destruct m as [q t n]. by destruct a. Qed.

Lemma monitor_wakes e m : (∀ a, e ≠ Act a) → forget (monitor_step e m) = forget m.
Proof. intros He. destruct m as [q t [|n]], e as [a| |]; try (by destruct (He a)); by destruct t. Qed.

Definition spec_event (e : event) (assigned : list lws_account) : list lws_account :=
  match e with Act a => spec_step a assigned | _ => assigned end.

Lemma monitor_view e m : view (forget (monitor_step e m)) = spec_event e (view (forget m)).
Proof.
  destruct e as [a| |]; [|by rewrite monitor_wakes..]. destruct (decide (a = Look)) as [->|Ha].
  - destruct (monitor_runs m) as [->|[_ ->]]; [apply look_view|done].
  - rewrite monitor_acts by done. apply step_view.
Qed.

(** A thread sleeps while there is something for it only if it is about to be
    notified. *)
Definition no_lost_wakeup (m : monitor) : Prop :=
  m_thread m = Asleep → wait_ready (m_queue m) = true → (0 < notifying m)%nat.

Lemma step_ready a q w :
  a ≠ Look → wait_ready q = false → wait_ready (step a (q, w)).1 = true → notifies a = true.
Proof. intros Ha Hq Hready. destruct a; try done. change (wait_ready q = true) in Hready. congruence. Qed.

Lemma no_lost_wakeup_step e m : no_lost_wakeup m → no_lost_wakeup (monitor_step e m).
Proof.
  intros Hinv. destruct m as [q t n], e as [a| |]; cbn.
  - destruct (decide (a = Look)) as [->|Ha].
    + destruct t as [[users|]|]; [| |exact Hinv]; unfold thread_runs, wait_for_accounts.
      * by destruct (look q (Busy users)) as [q' w].
      * destruct (wait_ready q) eqn:Hq; [done|]. intros _ Hready. cbn in Hready. congruence.
    + enough (no_lost_wakeup (Monitor (step a (q, thread_worker t)).1 t (if notifies a then S n else n)))
        by (by destruct a). intros Ht Hready. cbn in *.
      destruct (wait_ready q) eqn:Hq; [|rewrite (step_ready a q _ Ha Hq Hready); lia].
      specialize (Hinv Ht Hq). cbn in Hinv. destruct (notifies a); lia.
  - destruct n as [|n]; [exact Hinv|]. by destruct t.
  - by destruct t.
Qed.

(** The state after the first [n] events of a schedule. *)
Fixpoint run (schedule : nat → event) (m : monitor) (n : nat) : monitor :=
  match n with O => m | S n => monitor_step (schedule n) (run schedule m n) end.

(** What the server has given the thread by then. *)
Fixpoint given (schedule : nat → event) (users : list lws_account) (n : nat) : list lws_account :=
  match n with O => users | S n => spec_event (schedule n) (given schedule users n) end.

Lemma run_view schedule m n : view (forget (run schedule m n)) = given schedule (view (forget m)) n.
Proof. induction n as [|n IH]; [done|]. simpl. by rewrite monitor_view, IH. Qed.

Lemma run_no_lost_wakeup schedule m n : no_lost_wakeup m → no_lost_wakeup (run schedule m n).
Proof. intros Hm. induction n as [|n IH]; [done|]. by apply no_lost_wakeup_step. Qed.

(** A thread in [wait_for_accounts] with something to take. *)
Definition called (m : monitor) : Prop :=
  thread_worker (m_thread m) = Waiting ∧ wait_ready (m_queue m) = true.

(** Only by being scheduled does it stop waiting, and then it has returned. *)
Lemma called_step e m :
  called m → (m_thread m = Awake Waiting ∧ e = Act Look) ∨
    called (monitor_step e m) ∧ (m_thread m = Awake Waiting → m_thread (monitor_step e m) = Awake Waiting).
Proof.
  intros [Hw Hr]. destruct m as [q t n], e as [a| |]; cbn in Hw, Hr.
  - destruct (decide (a = Look)) as [->|Ha].
    + destruct t as [w|]; cbn in Hw; [subst; by left|]. by right.
    + right. pose proof (ready_stable a q (thread_worker t) Ha Hr) as Hready.
      unfold called. by destruct a.
  - right. destruct n, t; try done; cbn in Hw; by subst.
  - right. destruct t; try done; cbn in Hw; by subst.
Qed.

Lemma called_returns schedule m0 m :
  called (run schedule m0 m) → m_thread (run schedule m0 m) = Awake Waiting → schedule m = Act Look →
  m_thread (run schedule m0 (S m)) = Awake (Busy (view (forget (run schedule m0 m)))).
Proof.
  intros [_ Hr] Ht Hs. cbn [run]. rewrite Hs. destruct (run schedule m0 m) as [q t n]. cbn in Hr, Ht. subst.
  unfold monitor_step, thread_runs, wait_for_accounts. by rewrite Hr.
Qed.

(** From a time when the thread is called on, it still is, or has returned. *)
Lemma called_until schedule m0 n j :
  (n <= j)%nat → called (run schedule m0 n) →
  (∃ m, (n <= m < j)%nat ∧ (∀ i, (n <= i <= m)%nat → called (run schedule m0 i)) ∧
     m_thread (run schedule m0 m) = Awake Waiting ∧ schedule m = Act Look) ∨
  (∀ i, (n <= i <= j)%nat → called (run schedule m0 i)) ∧
  (m_thread (run schedule m0 n) = Awake Waiting → m_thread (run schedule m0 j) = Awake Waiting).
Proof.
  intros Hle Hn. induction Hle as [|j Hle IH].
  { right. split; [intros i Hi; by replace i with n by lia|done]. }
  destruct IH as [(m & Hm & Hret)|[Hall Hawake]]; [left; exists m; split; [lia|done]|].
  destruct (called_step (schedule j) (run schedule m0 j)) as [[Ht Hs]|[Hnext Hkeep]]; [apply Hall; lia| |].
  - left. exists j. split; [lia|]. split; [intros i Hi; apply Hall; lia|done].
  - right. split; [|intros Ht; apply Hkeep, Hawake, Ht]. intros i Hi.
    destruct (decide (i = S j)) as [->|]; [done|apply Hall; lia].
Qed.

(** A thread that is called returns, if it is scheduled again and again and every
    pending [notify_all] happens. *)
Lemma called_thread_returns schedule m0 n :
  no_lost_wakeup m0 → (∀ i, ∃ j, (i <= j)%nat ∧ schedule j = Act Look) →
  (∀ i, (0 < notifying (run schedule m0 i))%nat → ∃ j, (i <= j)%nat ∧ schedule j = NotifyAll) →
  called (run schedule m0 n) →
  ∃ m, (n <= m)%nat ∧ (∀ i, (n <= i <= m)%nat → called (run schedule m0 i)) ∧
    m_thread (run schedule m0 m) = Awake Waiting ∧ schedule m = Act Look.
Proof.
  intros Hm0 Hruns Hnotified Hn.
  assert (∀ k, (n <= k)%nat → (∀ i, (n <= i <= k)%nat → called (run schedule m0 i)) →
    m_thread (run schedule m0 k) = Awake Waiting → ∃ m, (n <= m)%nat ∧
      (∀ i, (n <= i <= m)%nat → called (run schedule m0 i)) ∧
      m_thread (run schedule m0 m) = Awake Waiting ∧ schedule m = Act Look) as Hawake.
  { intros k Hk Hall Ht. destruct (Hruns k) as (j & Hj & Hs).
    destruct (called_until schedule m0 k j Hj) as [(m & Hm & Hcalled & Hret)|[Hcalled Hkeep]]; [apply Hall; lia| |].
    - exists m. split; [lia|]. split; [|done]. intros i Hi.
      destruct (decide (i <= k)%nat); [apply Hall|apply Hcalled]; lia.
    - exists j. split; [lia|]. split; [|by split; [apply Hkeep|]]. intros i Hi.
      destruct (decide (i <= k)%nat); [apply Hall|apply Hcalled]; lia. }
  destruct (m_thread (run schedule m0 n)) as [w|] eqn:Ht.
  { apply (Hawake n); [lia|intros i Hi; by replace i with n by lia|]. rewrite Ht.
    destruct Hn as [Hw _]. rewrite Ht in Hw. by simpl in Hw; subst. }
  destruct (Hnotified n) as (j & Hj & Hs).
  { destruct Hn as [_ Hr]. by apply (run_no_lost_wakeup schedule m0 n Hm0). }
  destruct (called_until schedule m0 n j Hj Hn) as [(m & Hm & Hret)|[Hcalled _]]; [exists m; split; [lia|done]|].
  assert (called (run schedule m0 j)) as Hcj by (apply Hcalled; lia).
  assert (m_thread (run schedule m0 (S j)) = Awake Waiting) as Htj.
  { cbn [run]. rewrite Hs. pose proof (run_no_lost_wakeup schedule m0 j Hm0) as Hinv.
    destruct (run schedule m0 j) as [q t p], Hcj as [Hw Hr]. cbn in Hw, Hr.
    destruct t as [w|]; cbn in Hw; [subst; by destruct p|]. specialize (Hinv eq_refl Hr). cbn in Hinv.
    destruct p; [lia|done]. }
  apply (Hawake (S j)); [lia| |done]. intros i Hi. destruct (decide (i = S j)) as [->|]; [|apply Hcalled; lia].
  destruct (called_step (schedule j) (run schedule m0 j) Hcj) as [[_ Hl]|[Hnext _]]; [congruence|done].
Qed.

(** [user_count_] counts the accounts given through the queue: those the thread
    started with are missing until they are replaced. *)
Definition missing (a : action) (n : Z) : Z := match a with Replace _ => 0 | _ => n end.

Lemma step_user_count a qw n :
  (∀ users, a = Replace users → Z.of_nat (length users) < 2 ^ 64) →
  user_count_ qw.1 = wrap 64 (Z.of_nat (length (view qw)) - n) →
  user_count_ (step a qw).1 = wrap 64 (Z.of_nat (length (view (step a qw))) - missing a n).
Proof.
  intros Hlen Hcount. rewrite step_view. destruct qw as [q w], a as [users|users|height| |]; simpl in *;
    try done.
  - rewrite Z.sub_0_r, wrap_small; [done|]. specialize (Hlen users eq_refl). lia.
  - rewrite Hcount, length_app, Nat2Z.inj_add. unfold wrap. rewrite Zplus_mod_idemp_l. f_equal. lia.
  - rewrite <-Hcount. unfold look. destruct w as [[|]|]; simpl; [done| |].
    + by destruct (taken _ _).
    + unfold wait_for_accounts. by destruct (wait_ready q).
Qed.

(** ** Properties *)

(** C37: a queue and its thread implement the assignment of the server.  Whatever
    operations run in whatever order, the accounts the thread has or will have are
    those the last replacement and the pushes since gave it, once each and in
    order; a busy thread that just looked has exactly these, and one that has to
    wait has been given none. *)
Theorem queue_refines users actions :
  let '(q, w) := foldl (λ qw a, step a qw) (new_queue, Busy users) actions in
  let assigned := foldl (λ l a, spec_step a l) users actions in
  view (q, w) = assigned ∧
  (∀ l, (look q w).2 = Busy l → l = assigned) ∧
  (w = Waiting → wait_ready q = false → assigned = []) ∧
  ((∀ l, Replace l ∈ actions → Z.of_nat (length l) < 2 ^ 64) →
   user_count_ q = wrap 64 (Z.of_nat (length assigned) -
     foldl (λ n a, missing a n) (Z.of_nat (length users)) actions)).
Proof.
  assert (∀ qw, let qw' := foldl (λ qw a, step a qw) qw actions in
    view qw' = foldl (λ l a, spec_step a l) (view qw) actions ∧
    (∀ n, (∀ l, Replace l ∈ actions → Z.of_nat (length l) < 2 ^ 64) →
      user_count_ qw.1 = wrap 64 (Z.of_nat (length (view qw)) - n) →
      user_count_ qw'.1 = wrap 64 (Z.of_nat (length (view qw')) - foldl (λ n a, missing a n) n actions)))
    as Hrun.
  { induction actions as [|a actions IH]; intros qw; [by split; [|intros]|]. cbn [foldl].
    rewrite <-step_view. destruct (IH (step a qw)) as [Hview Hcount]. split; [done|].
    intros n Hlen Hn. apply Hcount; [intros l Hl; apply Hlen; by right|].
    apply step_user_count; [|done]. intros l ->. apply Hlen. by left. }
  destruct (Hrun (new_queue, Busy users)) as [Hview Hcount].
  destruct (foldl _ (new_queue, Busy users) actions) as [q w].
  assert (view (new_queue, Busy users) = users) as Hinit by (unfold view; simpl; apply app_nil_r).
  rewrite Hinit in Hview. split; [done|]. split; [|split].
  - intros l Hl. rewrite <-Hview. by apply look_busy.
  - intros -> Hready. by rewrite <-Hview, waiting_view.
  - intros Hlen. rewrite <-Hview. apply Hcount; [done|]. rewrite Hinit. simpl. by rewrite Z.sub_diag.
Qed.

(** C38: a thread that waits is not forgotten.  The thread sleeps on the condition
    variable until a [notify_all], which the operations call after they released
    the mutex, or a spurious wake-up; these, further operations and the turns of the
    thread come in any order.  If the thread gets its turn again and again, and a
    [notify_all] that is still to come does come, then after every replacement,
    push of accounts and stop a waiting or sleeping thread returns from
    [wait_for_accounts], with all the accounts the server has given it by then. *)
Theorem waiting_thread_returns schedule users n a :
  (∀ i, ∃ j, (i <= j)%nat ∧ schedule j = Act Look) →
  (∀ i, (0 < notifying (run schedule (Monitor new_queue (Awake (Busy users)) 0) i))%nat →
    ∃ j, (i <= j)%nat ∧ schedule j = NotifyAll) →
  thread_worker (m_thread (run schedule (Monitor new_queue (Awake (Busy users)) 0) n)) = Waiting →
  schedule n = Act a → wakes a →
  ∃ m, (n < m)%nat ∧
    (∀ i, (n <= i <= m)%nat →
      thread_worker (m_thread (run schedule (Monitor new_queue (Awake (Busy users)) 0) i)) = Waiting) ∧
    m_thread (run schedule (Monitor new_queue (Awake (Busy users)) 0) (S m)) =
      Awake (Busy (given schedule users m)).
Proof.
  set (m0 := Monitor new_queue (Awake (Busy users)) 0). intros Hruns Hnotified Hwait Hn Hwakes.
  assert (a ≠ Look) as Ha by (by intros ->).
  destruct (called_thread_returns schedule m0 (S n)) as (m & Hm & Hcalled & Ht & Hs); [done|done|done| |].
  { pose proof (monitor_acts a (run schedule m0 n) Ha) as Hact. unfold forget in Hact. rewrite Hwait in Hact.
    split; cbn [run]; rewrite Hn.
    - rewrite <-(worker_stable a (m_queue (run schedule m0 n)) Waiting Ha). by rewrite <-Hact.
    - rewrite <-(wakes_ready a (m_queue (run schedule m0 n)) Waiting Hwakes). by rewrite <-Hact. }
  exists m. split; [lia|]. split.
  - intros i Hi. destruct (decide (i = n)) as [->|]; [done|]. apply Hcalled. lia.
  - rewrite (called_returns schedule m0 m) by (try done; apply Hcalled; lia). rewrite run_view. unfold view; simpl.
    by rewrite app_nil_r.
Qed.

(** ** Witnesses *)

Definition queue_test_account (id height : Z) : lws_account :=
  LwsAccount (Some (Internal "" id (AccountAddress 0 0) 0)) [] [] [] [] height.

(** The thread runs at every third turn; an account is pushed while it sleeps, and
    the notification comes two turns later. *)
Definition test_schedule (n : nat) : event :=
  if (n mod 3 =? 2)%nat then Act Look
  else if (n =? 7)%nat then Act (Push [queue_test_account 1 5])
  else if (n mod 3 =? 0)%nat then NotifyAll else Act (MinHeight 4).

Lemma waiting_thread_returns_witness :
  ∃ m, (7 < m)%nat ∧
    (∀ i, (7 <= i <= m)%nat →
      thread_worker (m_thread (run test_schedule (Monitor new_queue (Awake (Busy [])) 0) i)) = Waiting) ∧
    m_thread (run test_schedule (Monitor new_queue (Awake (Busy [])) 0) (S m)) =
      Awake (Busy (given test_schedule [] m)).
Proof.
  assert (∀ i, ((3 * i + 2) mod 3 = 2)%nat ∧ ((3 * i) mod 3 = 0)%nat) as Hmod.
  { intros i. rewrite Nat.add_comm, Nat.mul_comm, Nat.Div0.mod_add, Nat.Div0.mod_mul. done. }
  apply (waiting_thread_returns test_schedule [] 7 (Push [queue_test_account 1 5])).
  - intros i. exists (3 * i + 2)%nat. split; [lia|]. unfold test_schedule. by rewrite (proj1 (Hmod i)).
  - intros i _. exists (3 * i)%nat. split; [lia|]. unfold test_schedule. rewrite (proj2 (Hmod i)). cbn [Nat.eqb].
    destruct (Nat.eqb_spec (3 * i) 7); [lia|done].
  - reflexivity.
  - reflexivity.
  - discriminate.
Defined.

(** A replacement drops what was pushed before it, not what is pushed after; the
    accounts a thread starts with are not counted. *)
Lemma queue_example :
  let actions := [Push [queue_test_account 2 7]; Replace [queue_test_account 3 9];
    Push [queue_test_account 4 8]; Look] in
  (foldl (λ qw a, step a qw) (new_queue, Busy [queue_test_account 1 5]) actions).2 =
    Busy [queue_test_account 3 9; queue_test_account 4 8] ∧
  user_count_ (foldl (λ qw a, step a qw) (new_queue, Busy [queue_test_account 1 5]) (take 1 actions)).1 = 1.
Proof. split; vm_compute; reflexivity. Qed.
