(* ===== verification/Workload.v ===== *)
(** * Dividing the accounts among threads (src/src/scanner.cpp, rpc/scanner/client.cpp)

    [check_loop] divides the active accounts among the local scanning threads: by
    number, or with [block_depth_threading] by the blocks they are behind, in
    which case [split_sync_threads] keeps some threads for accounts that are
    nearly synced.  A remote scanner divides what the server sends it the same
    way among its queues.

    Shown is who gets what: every account is on exactly one thread, but for the
    accounts behind when the share of the synced ones takes all threads, which
    no thread gets ([assign_by_depth_exact]). *)

From S2P Require Import Prelude Lmdb Data Account Queue.

(** ** By number *)

(** [count] accounts off the end of the vector. *)
Definition split_back {A} (count : nat) (users : list A) : list A * list A :=
  (drop (length users - count) users, take (length users - count) users).

(** The loop over the queues: [users.size() / (queues.size() - i)] for each. *)
Fixpoint divide {A} (threads : nat) (users : list A) : list (list A) :=
  match threads with
  | O => []
  | S rest =>
    let '(thread_users, users) := split_back (length users `div` threads) users in
    thread_users :: divide rest users
  end.

(** [by_height], as [std::sort] uses it. *)
Definition height_leb (l r : lws_account) : bool := scan_height l <=? scan_height r.

(** The [else] branch of [check_loop]. *)
Definition assign_by_count (thread_count : nat) (users : list lws_account) : list (list lws_account) :=
  divide thread_count (merge_sort height_leb users).

(** ** By block depth *)

Record scanner_options := ScannerOptions {
  split_sync_threads : option (nat → nat);
  split_sync_depth : Z;
  min_block_depth : Z;
  max_subaddresses : Z;
  untrusted_daemon : bool;
  regtest : bool
}.

(** [account_depth], with the account [users[index]] for the index. *)
Record account_depth := AccountDepth { ad_user : lws_account; ad_blockdepth : Z; ad_raw_blockdepth : Z }.

Definition make_depth (current_height min_depth : Z) (user : lws_account) : account_depth :=
  let raw := wrap 64 (current_height - scan_height user) in
  AccountDepth user (Z.max raw min_depth) raw.

Definition depth_leb (l r : account_depth) : bool := ad_raw_blockdepth l <=? ad_raw_blockdepth r.

Definition account_depths (current_height min_depth : Z) (users : list lws_account) : list account_depth :=
  merge_sort depth_leb (map (make_depth current_height min_depth) users).

(** [thread_assignments[thread].push_back(...)] *)
Definition assign_to (thread : nat) (ad : account_depth) (assignments : list (list lws_account)) :
    list (list lws_account) :=
  alter (λ l, l ++ [ad_user ad]) thread assignments.

(** The synced accounts, round robin over [threads]. *)
Fixpoint assign_synced (threads i : nat) (ads : list account_depth) (assignments : list (list lws_account)) :
    list (list lws_account) :=
  match ads with
  | [] => assignments
  | ad :: ads => assign_synced threads (S i) ads (assign_to (i `mod` threads) ad assignments)
  end.

Record filling := Filling {
  f_assignments : list (list lws_account);
  f_current_thread : nat;
  f_current_depth : Z
}.

(** [should_move_to_next_thread] *)
Definition should_move (start last : nat) (per_thread : Z) (ad : account_depth) (f : filling) : bool :=
  if (f_current_thread f <? last)%nat then
    if ((f_current_thread f - start) `mod` 2 =? 0)%nat then per_thread <=? f_current_depth f
    else per_thread <? wrap 64 (f_current_depth f + ad_blockdepth ad)
  else false.

Definition fill (start last : nat) (per_thread : Z) (f : filling) (ad : account_depth) : filling :=
  let move := should_move start last per_thread ad f in
  let thread := if move then S (f_current_thread f) else f_current_thread f in
  let depth := if move then 0 else f_current_depth f in
  Filling (assign_to thread ad (f_assignments f)) thread (wrap 64 (depth + ad_blockdepth ad)).

(** The accounts filled into [threads] threads from [start] on. *)
Definition assign_depths (start threads : nat) (ads : list account_depth)
    (assignments : list (list lws_account)) : list (list lws_account) :=
  if match ads with [] => true | _ => false end || (threads =? 0)%nat then assignments
  else
    let total := foldl (λ t ad, wrap 64 (t + ad_blockdepth ad)) 0 ads in
    let per_thread := total / Z.of_nat threads in
    f_assignments (foldl (fill start (start + threads - 1) per_thread) (Filling assignments start 0) ads).

(** [ad.raw_blockdepth <= opts.split_sync_depth] *)
Definition is_synced (opts : scanner_options) (ad : account_depth) : bool :=
  ad_raw_blockdepth ad <=? split_sync_depth opts.

(** [num_synced_threads]; [std::ceil(split_sync_threads * thread_count)], of
    doubles, is the number the option gives.  The option is at most 1.0, so that
    this is at most [thread_count]. *)
Definition num_synced_threads (share : nat → nat) (thread_count : nat) : nat :=
  Nat.max 1 (share thread_count).

(** The [block_depth_threading] branch of [check_loop]. *)
Definition assign_by_depth (opts : scanner_options) (current_height : Z) (thread_count : nat)
    (users : list lws_account) : list (list lws_account) :=
  let ads := account_depths current_height (min_block_depth opts) users in
  let assignments := replicate thread_count [] in
  match split_sync_threads opts with
  | None => assign_depths 0 thread_count ads assignments
  | Some share =>
    let synced := List.filter (is_synced opts) ads in
    let unsynced := List.filter (λ ad, negb (is_synced opts ad)) ads in
    match synced with
    | [] => assign_depths 0 thread_count unsynced assignments
    | _ =>
      let num := num_synced_threads share thread_count in
      let actual := Nat.min num (length synced) in
      assign_depths num (thread_count - num) unsynced (assign_synced actual 0 synced assignments)
    end
  end.

(** ** A remote scanner *)

(** [client]: its queues and the next to get a new account. *)
Record client := Client { c_local : list queue; c_next_push : nat }.

(** [client::replace_accounts] *)
Definition client_replace (users : list lws_account) (c : client) : client :=
  Client (zip_with replace_accounts (divide (length (c_local c)) users) (c_local c)) 0.

(** [client::push_accounts], one account at a time. *)
Definition client_push (users : list lws_account) (c : client) : client :=
  foldl (λ c user,
    Client (alter (push_accounts [user]) (c_next_push c) (c_local c))
      (S (c_next_push c) `mod` length (c_local c))) c users.

(** ** Lemmas *)

Lemma split_back_app {A} n (users : list A) :
  (split_back n users).2 ++ (split_back n users).1 = users.
Proof. unfold split_back; simpl. apply take_drop. Qed.

Lemma divide_length {A} threads (users : list A) : length (divide threads users) = threads.
Proof. revert users. induction threads as [|n IH]; intros users; [done|]. cbn [divide]. simpl. by rewrite IH. Qed.

(** Every element is in one part. *)
Lemma divide_concat {A} threads (users : list A) :
  (0 < threads)%nat → concat (divide threads users) ≡ₚ users.
Proof.
  revert users. induction threads as [|n IH]; intros users Hn; [lia|]. cbn [divide].
  destruct (split_back _ users) as [back front] eqn:Hsplit.
  pose proof (split_back_app (length users `div` S n) users) as Happ. rewrite Hsplit in Happ. simpl in Happ.
  cbn [concat]. destruct n as [|n].
  - cbn [divide concat]. rewrite app_nil_r. unfold split_back in Hsplit. injection Hsplit as <- <-.
    change (Nat.divmod (length users) 0 0 0).1 with (length users `div` 1)%nat.
    by rewrite Nat.div_1_r, Nat.sub_diag.
  - rewrite IH by lia. rewrite <-Happ. apply Permutation_app_comm.
Qed.

(** The parts differ by at most one. *)
Lemma divide_balanced {A} threads (users : list A) :
  Forall (λ part, (length users / threads <= length part <= (length users + (threads - 1)) / threads)%nat)
    (divide threads users).
Proof.
  revert users. induction threads as [|n IH]; intros users; [constructor|]. cbn [divide].
  unfold split_back. cbv beta iota zeta. set (u := length users). set (q := (u / S n)%nat).
  pose proof (Nat.div_mod_eq u (S n)) as Hdiv. fold q in Hdiv.
  pose proof (Nat.mod_upper_bound u (S n) ltac:(lia)) as Hmod. set (r := (u mod S n)%nat) in *.
  assert ((u + (S n - 1)) / S n = q + (r + n) / S n)%nat as ->.
  { replace (u + (S n - 1))%nat with (r + n + q * S n)%nat by lia. rewrite Nat.div_add by lia. lia. }
  assert (q <= u)%nat by nia.
  constructor; [rewrite length_drop; fold u; lia|]. destruct n as [|n]; [constructor|].
  eapply Forall_impl; [apply IH|]. intros part. cbv beta. rewrite length_take. fold u.
  replace (Nat.min (u - q) u) with (r + q * S n)%nat by lia.
  replace (r + q * S n + (S n - 1))%nat with (r + n + q * S n)%nat by lia.
  rewrite !Nat.div_add by lia.
  assert ((r + n) / S n <= (r + S n) / S (S n))%nat; [|lia].
  destruct (decide (r = 0))%nat as [->|].
  - rewrite !Nat.div_small by lia. lia.
  - transitivity 1%nat; [|apply Nat.div_le_lower_bound; lia].
    apply Nat.lt_succ_r, Nat.Div0.div_lt_upper_bound. lia.
Qed.

Lemma alter_concat {A} (x : A) i (ls : list (list A)) :
  (i < length ls)%nat → concat (alter (λ l, l ++ [x]) i ls) ≡ₚ x :: concat ls.
Proof.
  revert i. induction ls as [|l ls IH]; intros [|i] Hi; simpl in *; try lia.
  - rewrite <-app_assoc. simpl. symmetry. apply Permutation_middle.
  - change (l ++ concat (alter (λ l, l ++ [x]) i ls) ≡ₚ x :: l ++ concat ls).
    rewrite IH by lia. symmetry. apply Permutation_middle.
Qed.

Lemma assign_synced_concat threads i ads assignments :
  (0 < threads <= length assignments)%nat →
  length (assign_synced threads i ads assignments) = length assignments ∧
  concat (assign_synced threads i ads assignments) ≡ₚ map ad_user ads ++ concat assignments.
Proof.
  revert i assignments. induction ads as [|ad ads IH]; intros i assignments Hthreads; [done|]. simpl.
  assert (i mod threads < threads)%nat by (apply Nat.mod_upper_bound; lia).
  destruct (IH (S i) (assign_to (i mod threads) ad assignments)) as [Hlen Hconcat];
    [unfold assign_to; by rewrite length_alter|].
  split; [rewrite Hlen; apply length_alter|]. rewrite Hconcat. unfold assign_to.
  rewrite alter_concat by lia. symmetry. apply Permutation_middle.
Qed.

Lemma next_thread_le start last per_thread ad f :
  (f_current_thread f <= last)%nat →
  ((if should_move start last per_thread ad f then S (f_current_thread f) else f_current_thread f) <= last)%nat.
Proof.
  intros Hle. unfold should_move. destruct (Nat.ltb_spec (f_current_thread f) last); [|done].
  by case_match; [lia|].
Qed.

Lemma fill_concat start last per_thread ads f :
  (f_current_thread f <= last < length (f_assignments f))%nat →
  let f' := foldl (fill start last per_thread) f ads in
  length (f_assignments f') = length (f_assignments f) ∧
  concat (f_assignments f') ≡ₚ map ad_user ads ++ concat (f_assignments f).
Proof.
  revert f. induction ads as [|ad ads IH]; intros f Hthread; [done|]. cbn [foldl map].
  assert (f_current_thread (fill start last per_thread f ad) <= last)%nat.
  { cbn [fill f_current_thread]. pose proof (next_thread_le start last per_thread ad f). lia. }
  assert (length (f_assignments (fill start last per_thread f ad)) = length (f_assignments f)) as Hlen
    by (unfold fill, assign_to; cbn [f_assignments]; apply length_alter).
  destruct (IH (fill start last per_thread f ad)) as [Hl Hconcat]; [lia|].
  split; [by rewrite Hl|]. rewrite Hconcat. unfold fill at 1. cbn [f_assignments]. unfold assign_to.
  rewrite alter_concat.
  - symmetry. apply Permutation_middle.
  - pose proof (next_thread_le start last per_thread ad f). lia.
Qed.

Lemma assign_depths_concat start threads ads assignments :
  (start + threads <= length assignments)%nat →
  length (assign_depths start threads ads assignments) = length assignments ∧
  concat (assign_depths start threads ads assignments) ≡ₚ
    (if (threads =? 0)%nat then [] else map ad_user ads) ++ concat assignments.
Proof.
  intros Hlen. unfold assign_depths. destruct (Nat.eqb_spec threads 0) as [->|Hne].
  { by rewrite orb_true_r. }
  destruct ads as [|ad ads]; [done|]. cbn [orb].
  destruct (fill_concat start (start + threads - 1)
    (foldl (λ t ad, wrap 64 (t + ad_blockdepth ad)) 0 (ad :: ads) / Z.of_nat threads) (ad :: ads)
    (Filling assignments start 0)) as [Hl Hconcat]; [simpl; lia|]. done.
Qed.

Lemma concat_replicate_nil {A} n : concat (replicate n (@nil A)) = [].
Proof. by induction n. Qed.

Lemma account_depths_users current_height min_depth users :
  map ad_user (account_depths current_height min_depth users) ≡ₚ users.
Proof.
  unfold account_depths. rewrite merge_sort_Permutation, map_map. by rewrite map_id.
Qed.

Lemma filter_partition {A} (p : A → bool) l :
  List.filter p l ++ List.filter (λ x, negb (p x)) l ≡ₚ l.
Proof.
  induction l as [|x l IH]; [done|]. simpl. destruct (p x); simpl; [by rewrite IH|].
  rewrite <-Permutation_middle. by rewrite IH.
Qed.

(** The accounts no thread gets. *)
Definition dropped (opts : scanner_options) (current_height : Z) (thread_count : nat)
    (users : list lws_account) : list lws_account :=
  let ads := account_depths current_height (min_block_depth opts) users in
  match split_sync_threads opts with
  | Some share =>
    if existsb (is_synced opts) ads && (thread_count <=? num_synced_threads share thread_count)%nat
    then map ad_user (List.filter (λ ad, negb (is_synced opts ad)) ads) else []
  | None => []
  end.

Lemma existsb_filter {A} (p : A → bool) l : existsb p l = match List.filter p l with [] => false | _ => true end.
Proof. induction l as [|x l IH]; [done|]. simpl. by destruct (p x). Qed.

(** ** By number: who gets what *)

Lemma height_leb_total l r : height_leb l r ∨ height_leb r l.
Proof. unfold height_leb. rewrite !Is_true_true, !Z.leb_le. lia. Qed.

#[export] Instance height_leb_trans : Transitive (λ l r, Is_true (height_leb l r)).
Proof. intros x y z. unfold height_leb. rewrite !Is_true_true, !Z.leb_le. lia. Qed.

#[export] Instance height_leb_Total : Total (λ l r, Is_true (height_leb l r)).
Proof. exact height_leb_total. Qed.

Lemma divide_in {A} threads (users : list A) part x :
  part ∈ divide threads users → x ∈ part → x ∈ users.
Proof.
  revert users. induction threads as [|n IH]; intros users; [by intros ?%elem_of_nil|].
  cbn [divide]. unfold split_back. cbv beta iota zeta. intros Hpart Hx.
  rewrite <-(take_drop (length users - length users `div` S n) users). apply elem_of_app.
  apply elem_of_cons in Hpart as [->|Hpart]; [by right|left; by eapply IH].
Qed.

(** Of an ordered vector, the parts are ordered from the end. *)
Lemma divide_ordered {A} (R : A → A → Prop) threads (users : list A) i j pi pj x y :
  StronglySorted R users → (i < j)%nat → divide threads users !! i = Some pi →
  divide threads users !! j = Some pj → x ∈ pi → y ∈ pj → R y x.
Proof.
  revert users i j. induction threads as [|n IH]; intros users i j Hsorted Hij; [done|].
  cbn [divide]. unfold split_back. cbv beta iota zeta. set (k := (length users - length users `div` S n)%nat).
  rewrite <-(take_drop k users) in Hsorted. destruct j as [|j]; [lia|].
  apply StronglySorted_app in Hsorted as (Hcross & Hfront & _).
  destruct i as [|i]; cbn [lookup list_lookup].
  - intros [= <-] Hj Hx Hy. apply Hcross; [|done].
    apply (divide_in n _ pj); [|done]. by apply list_elem_of_lookup_2 in Hj.
  - intros Hi Hj. apply (IH (take k users) i j); [done|lia|exact Hi|exact Hj].
Qed.

Lemma assign_by_count_sorted users : StronglySorted (λ l r, Is_true (height_leb l r)) (merge_sort height_leb users).
Proof. apply StronglySorted_merge_sort; apply _. Qed.

(** ** By depth *)

(** All threads by depth. *)
Lemma assign_all_threads thread_count ads :
  (0 < thread_count)%nat →
  let assignments := assign_depths 0 thread_count ads (replicate thread_count []) in
  length assignments = thread_count ∧ concat assignments ≡ₚ map ad_user ads.
Proof.
  intros Hcount. destruct (assign_depths_concat 0 thread_count ads (replicate thread_count [])) as [Hl Hc];
    rewrite length_replicate in *; [lia|]. split; [done|]. rewrite Hc, concat_replicate_nil, app_nil_r.
  destruct (Nat.eqb_spec thread_count 0); [lia|done].
Qed.

(** The synced ones on [num] threads, the others on the rest. *)
Lemma assign_split_threads thread_count num synced unsynced :
  (0 < num <= thread_count)%nat → synced ≠ [] →
  let assignments := assign_depths num (thread_count - num) unsynced
    (assign_synced (Nat.min num (length synced)) 0 synced (replicate thread_count [])) in
  length assignments = thread_count ∧
  concat assignments ++ (if (thread_count <=? num)%nat then map ad_user unsynced else []) ≡ₚ
    map ad_user synced ++ map ad_user unsynced.
Proof.
  intros Hnum Hsynced. assert (0 < length synced)%nat by (destruct synced; [done|simpl; lia]).
  destruct (assign_synced_concat (Nat.min num (length synced)) 0 synced (replicate thread_count []))
    as [Hl1 Hc1]; [rewrite length_replicate; lia|]. rewrite length_replicate in Hl1.
  destruct (assign_depths_concat num (thread_count - num) unsynced
    (assign_synced (Nat.min num (length synced)) 0 synced (replicate thread_count []))) as [Hl2 Hc2]; [lia|].
  split; [by rewrite Hl2|]. rewrite Hc2, Hc1, concat_replicate_nil, app_nil_r.
  destruct (Nat.leb_spec thread_count num), (Nat.eqb_spec (thread_count - num) 0); try lia; [done|].
  rewrite app_nil_r. apply Permutation_app_comm.
Qed.

Lemma assign_by_depth_ok opts current_height thread_count users :
  (0 < thread_count)%nat →
  (∀ share, split_sync_threads opts = Some share → (share thread_count <= thread_count)%nat) →
  let assignments := assign_by_depth opts current_height thread_count users in
  length assignments = thread_count ∧
  concat assignments ++ dropped opts current_height thread_count users ≡ₚ users.
Proof.
  intros Hcount Hshare. unfold assign_by_depth, dropped.
  pose proof (account_depths_users current_height (min_block_depth opts) users) as Hads.
  destruct (split_sync_threads opts) as [share|] eqn:Esplit; cbv beta iota zeta.
  2: { destruct (assign_all_threads thread_count (account_depths current_height (min_block_depth opts) users))
         as [Hl Hc]; [done|]. split; [done|]. by rewrite app_nil_r, Hc. }
  specialize (Hshare share eq_refl). rewrite existsb_filter.
  pose proof (filter_partition (is_synced opts) (account_depths current_height (min_block_depth opts) users))
    as Hpart. apply (Permutation_map ad_user) in Hpart. rewrite map_app, Hads in Hpart.
  destruct (List.filter (is_synced opts) _) as [|ad synced].
  { edestruct assign_all_threads as [Hl Hc]; [exact Hcount|]. split; [exact Hl|].
    cbn [andb]. rewrite app_nil_r, Hc. exact Hpart. }
  cbn [andb].
  destruct (assign_split_threads thread_count (num_synced_threads share thread_count) (ad :: synced)
    (List.filter (λ ad, negb (is_synced opts ad)) (account_depths current_height (min_block_depth opts) users)))
    as [Hl Hc]; [unfold num_synced_threads; lia|done|].
  split; [exact Hl|]. etrans; [exact Hc|exact Hpart].
Qed.

(** ** The queues of a remote scanner *)

(** What each thread has or will have. *)
Definition views (queues : list queue) (workers : list worker) : list (list lws_account) :=
  zip_with (λ q w, view (q, w)) queues workers.

Lemma replace_view users q w : view (replace_accounts users q, w) = users.
Proof. exact (step_view (Replace users) (q, w)). Qed.

Lemma push_view users q w : view (push_accounts users q, w) = view (q, w) ++ users.
Proof. exact (step_view (Push users) (q, w)). Qed.

Lemma views_replace parts queues workers :
  length parts = length queues → length queues = length workers →
  views (zip_with replace_accounts parts queues) workers = parts.
Proof.
  revert queues workers. induction parts as [|part parts IH]; intros [|q queues] [|w workers]; try done.
  intros [= Hp] [= Hq]. cbn [views zip_with]. unfold views in IH. cbn [zip_with].
  by rewrite replace_view, IH.
Qed.

Lemma views_push i users queues workers :
  (i < length queues)%nat → length queues = length workers →
  concat (views (alter (push_accounts users) i queues) workers) ≡ₚ users ++ concat (views queues workers).
Proof.
  revert i workers. induction queues as [|q queues IH]; intros [|i] [|w workers] Hi; simpl in Hi; try lia; try done.
  - intros _. change (view (push_accounts users q, w) ++ concat (views queues workers) ≡ₚ
      users ++ view (q, w) ++ concat (views queues workers)).
    rewrite push_view, <-app_assoc. apply Permutation_app_swap_app.
  - intros [= Hlen]. change (view (q, w) ++ concat (views (alter (push_accounts users) i queues) workers) ≡ₚ
      users ++ view (q, w) ++ concat (views queues workers)).
    rewrite IH by (done || lia). apply Permutation_app_swap_app.
Qed.

Lemma client_push_ok users c workers :
  (c_next_push c < length (c_local c))%nat → length (c_local c) = length workers →
  let c' := client_push users c in
  (c_next_push c' < length (c_local c'))%nat ∧ length (c_local c') = length workers ∧
  concat (views (c_local c') workers) ≡ₚ users ++ concat (views (c_local c) workers).
Proof.
  unfold client_push. revert c. induction users as [|user users IH]; intros c Hnext Hlen; [done|].
  cbn [foldl]. destruct (IH (Client (alter (push_accounts [user]) (c_next_push c) (c_local c))
    (S (c_next_push c) `mod` length (c_local c)))) as (Hn & Hl & Hv); cbn [c_local c_next_push].
  - rewrite length_alter. apply Nat.mod_upper_bound. lia.
  - by rewrite length_alter.
  - split; [exact Hn|]. split; [exact Hl|]. rewrite Hv. cbn [c_local].
    rewrite views_push by done. simpl. symmetry. apply Permutation_middle.
Qed.

Lemma client_replace_ok users c workers :
  (0 < length (c_local c))%nat → length (c_local c) = length workers →
  let c' := client_replace users c in
  c_next_push c' = 0%nat ∧ length (c_local c') = length workers ∧
  concat (views (c_local c') workers) ≡ₚ users.
Proof.
  intros Hpos Hlen. unfold client_replace; cbn [c_local c_next_push]. split; [done|]. split.
  - rewrite length_zip_with, divide_length. lia.
  - rewrite views_replace by (rewrite ?divide_length; done). by apply divide_concat.
Qed.

(** The queues are no more or less when accounts are pushed. *)
Lemma client_pushes_ok batches c workers :
  (c_next_push c < length (c_local c))%nat → length (c_local c) = length workers →
  let c' := foldl (λ c users, client_push users c) c batches in
  length (c_local c') = length workers ∧
  concat (views (c_local c') workers) ≡ₚ concat batches ++ concat (views (c_local c) workers).
Proof.
  revert c. induction batches as [|users batches IH]; intros c Hnext Hlen; [done|]. cbn [foldl].
  destruct (client_push_ok users c workers Hnext Hlen) as (Hn & Hl & Hv).
  destruct (IH (client_push users c) Hn Hl) as [Hl' Hv']. split; [exact Hl'|].
  rewrite Hv', Hv. cbn [concat]. rewrite <-app_assoc. apply Permutation_app_swap_app.
Qed.

(** ** Properties *)

(** Dividing by number gives every account to exactly one thread, the numbers
    of two threads differ by at most one, and the accounts of a thread are no
    higher than those of the threads before it. *)
Theorem assign_by_count_exact thread_count users :
  (0 < thread_count)%nat →
  let assignments := assign_by_count thread_count users in
  length assignments = thread_count ∧
  concat assignments ≡ₚ users ∧
  Forall (λ part, (length users / thread_count <= length part <=
    (length users + (thread_count - 1)) / thread_count)%nat) assignments ∧
  ∀ i j part_i part_j, (i < j)%nat → assignments !! i = Some part_i → assignments !! j = Some part_j →
    ∀ x y, x ∈ part_i → y ∈ part_j → scan_height y <= scan_height x.
Proof.
  intros Hcount. unfold assign_by_count. split_and!.
  - apply divide_length.
  - rewrite divide_concat by done. apply merge_sort_Permutation.
  - rewrite <-(Permutation_length (merge_sort_Permutation height_leb users)). apply divide_balanced.
  - intros i j pi pj Hij Hi Hj x y Hx Hy.
    pose proof (divide_ordered _ thread_count _ i j pi pj x y (assign_by_count_sorted users) Hij Hi Hj Hx Hy)
      as Hle. unfold height_leb in Hle. by apply Is_true_true, Z.leb_le in Hle.
Qed.

(** Dividing by block depth loses no account but in one case, and gives each to
    one thread.  The case: some accounts are synced, and their share is all of
    the threads; then no thread gets the others. *)
Theorem assign_by_depth_exact opts current_height thread_count users :
  (0 < thread_count)%nat →
  (∀ share, split_sync_threads opts = Some share → (share thread_count <= thread_count)%nat) →
  let assignments := assign_by_depth opts current_height thread_count users in
  length assignments = thread_count ∧
  concat assignments ++ dropped opts current_height thread_count users ≡ₚ users ∧
  (∀ user, user ∈ dropped opts current_height thread_count users →
     split_sync_depth opts < wrap 64 (current_height - scan_height user) ∧
     ∃ share, split_sync_threads opts = Some share ∧ num_synced_threads share thread_count = thread_count).
Proof.
  intros Hcount Hshare assignments.
  destruct (assign_by_depth_ok opts current_height thread_count users Hcount Hshare) as [Hlen Hall].
  split; [exact Hlen|]. split; [exact Hall|]. intros user Huser. unfold dropped in Huser.
  destruct (split_sync_threads opts) as [share|] eqn:Esplit; [|by apply elem_of_nil in Huser].
  destruct (existsb _ _ && _) eqn:E; [|by apply elem_of_nil in Huser].
  apply andb_true_iff in E as [_ Hnum%Nat.leb_le]. specialize (Hshare share eq_refl). split.
  - apply list_elem_of_In, in_map_iff in Huser as (ad & <- & (Hin & Hsync)%filter_In).
    apply list_elem_of_In in Hin. unfold account_depths in Hin.
    rewrite merge_sort_Permutation in Hin. apply list_elem_of_In, in_map_iff in Hin as (u & <- & _).
    unfold is_synced in Hsync. cbn [make_depth ad_raw_blockdepth ad_user] in *.
    apply negb_true_iff, Z.leb_gt in Hsync. exact Hsync.
  - exists share. split; [done|]. unfold num_synced_threads in *. lia.
Qed.

(** The threads of a remote scanner have, all together, what the server sent:
    the accounts of the last replacement and of the pushes since, each on one
    thread, whether the threads have looked or not. *)
Theorem client_workload users batches c workers :
  (0 < length (c_local c))%nat → length (c_local c) = length workers →
  let c' := foldl (λ c users, client_push users c) (client_replace users c) batches in
  length (c_local c') = length workers ∧
  concat (views (c_local c') workers) ≡ₚ users ++ concat batches.
Proof.
  intros Hpos Hlen. destruct (client_replace_ok users c workers Hpos Hlen) as (Hn & Hl & Hv).
  destruct (client_pushes_ok batches (client_replace users c) workers) as [Hl' Hv']; [lia|done|].
  split; [exact Hl'|]. rewrite Hv', Hv. apply Permutation_app_comm.
Qed.

(** ** Witnesses *)

Definition work_user (id height : Z) : lws_account :=
  LwsAccount (Some (Internal "" id (AccountAddress 0 0) 0)) [] [] [] [] height.

Definition work_users : list lws_account := map (λ i, work_user i (10 * i)) [3; 1; 5; 2; 4].

Lemma assign_by_count_exact_witness :
  map (map account_id) (assign_by_count 2 work_users) = [[4; 5]; [1; 2; 3]] ∧
  concat (assign_by_count 2 work_users) ≡ₚ work_users.
Proof.
  split; [vm_compute; reflexivity|]. apply (assign_by_count_exact 2 work_users). lia.
Defined.

(** A sixth of the threads, rounded up, for accounts at most 10 blocks behind. *)
Definition work_options : scanner_options := ScannerOptions (Some (λ n, ((n + 5) / 6)%nat)) 10 16 0 false false.

Lemma assign_by_depth_exact_witness :
  map (map account_id) (assign_by_depth work_options 51 3 work_users) = [[5]; [4; 3; 2]; [1]] ∧
  concat (assign_by_depth work_options 51 3 work_users) ++ dropped work_options 51 3 work_users ≡ₚ work_users.
Proof.
  split; [vm_compute; reflexivity|]. apply (assign_by_depth_exact work_options 51 3 work_users).
  - lia.
  - intros share [= <-]. vm_compute. lia.
Defined.

(** With one thread, the share of the synced accounts is that thread: the accounts
    behind are not scanned at all. *)
Lemma one_thread_drops_unsynced :
  map (map account_id) (assign_by_depth work_options 51 1 work_users) = [[5]] ∧
  map account_id (dropped work_options 51 1 work_users) = [4; 3; 2; 1].
Proof. split; vm_compute; reflexivity. Qed.

Lemma client_workload_witness :
  let c := Client [new_queue; new_queue] 0 in
  let c' := foldl (λ c users, client_push users c) (client_replace work_users c) [[work_user 6 3; work_user 7 3]] in
  map (map account_id) (views (c_local c') [Waiting; Waiting]) = [[2; 4; 6]; [3; 1; 5; 7]] ∧
  concat (views (c_local c') [Waiting; Waiting]) ≡ₚ work_users ++ concat [[work_user 6 3; work_user 7 3]].
Proof.
  intros c c'. split; [vm_compute; reflexivity|].
  apply (client_workload work_users [[work_user 6 3; work_user 7 3]] c [Waiting; Waiting]); [simpl; lia|done].
Defined.
