(* ===== verification/Server.v ===== *)
(** * The scanner server (src/src/rpc/scanner/server.cpp)

    The server keeps the scanning threads supplied: it gives the active accounts
    of the database to the queues of the local threads and to the remote scanners
    that connected with the password, all of them anew in [do_replace_users], and
    in [check_users], every ten seconds, those that are new.

    [server] is its state, [remote] that of a connection, with the commands it was
    sent.  Shown are that local threads, without remote scanners, have exactly the active
    accounts, whatever happens between checks ([server_tracks_active]); what a replacement does with
    remote scanners, which lose some ([replace_users_exact]); and that no account
    is sent to a connection that did not give the password
    ([accounts_need_password]).  The last lemmas are about what does go wrong. *)

From S2P Require Import Prelude Lmdb Data Compare Tables Account Readers Messages Queue Workload.

(** ** Data *)

Inductive server_command : Type :=
  | Push_accounts (users : list lws_account)
  | Replace_accounts (users : list lws_account).

Definition command_users (c : server_command) : list lws_account :=
  match c with Push_accounts users | Replace_accounts users => users end.

(** [server_connection], as [remote_] has it: [locks] is false when the connection
    is gone, so that [lock()] fails; [conn_id] is the identity of the object. *)
Record remote := Remote { conn_id : nat; locks : bool; threads_ : nat; sent : list server_command }.

Record server := Server {
  remote_ : list remote;
  local_ : list queue;
  active_ : list Z;
  next_thread_ : nat;
  pass_hashed_ : Z;
  server_stop_ : bool;
  balance_new_addresses_ : bool
}.

Definition set_remote (r : list remote) (s : server) : server :=
  Server r (local_ s) (active_ s) (next_thread_ s) (pass_hashed_ s) (server_stop_ s) (balance_new_addresses_ s).
Definition set_local (l : list queue) (s : server) : server :=
  Server (remote_ s) l (active_ s) (next_thread_ s) (pass_hashed_ s) (server_stop_ s) (balance_new_addresses_ s).
Definition set_active (a : list Z) (s : server) : server :=
  Server (remote_ s) (local_ s) a (next_thread_ s) (pass_hashed_ s) (server_stop_ s) (balance_new_addresses_ s).
Definition set_next_thread (n : nat) (s : server) : server :=
  Server (remote_ s) (local_ s) (active_ s) n (pass_hashed_ s) (server_stop_ s) (balance_new_addresses_ s).

Definition remote_threshold : nat := 100.
Definition replace_threshold : nat := 10000.

(** [write_command]: [wire::msgpack] throws for an account that was moved from. *)
Definition write_command (c : server_command) (r : remote) : expect remote :=
  if existsb (λ user, bool_decide (la_immutable user = None)) (command_users c) then Err invalid_argument
  else Ok (Remote (conn_id r) (locks r) (threads_ r) (sent r ++ [c])).

(** A moved-from account: the pointer is null and the vectors are empty. *)
Definition moved_from (user : lws_account) : lws_account :=
  LwsAccount None [] [] [] [] (la_height user).

(** ** The password *)

Section password.
(** [crypto_pwhash] with the salt of the server; [None] where it fails. *)
Context (crypto_pwhash : string → option Z).

(** [compute_hash]; it is [noexcept], so that an error ends the process. *)
Definition compute_hash (pass : string) : expect Z := of_option crypto_failure (crypto_pwhash pass).

Definition check_pass (pass : string) (s : server) : expect bool :=
  out ← compute_hash pass; Ok (out =? pass_hashed_ s).

(** [initialize_handler::handle]: the verdict, and the connection. *)
Definition initialize_handler (s : server) (r : remote) (msg : Messages.initialize) : expect (bool * remote) :=
  if negb (threads_ r =? 0)%nat then Ok (false, r)
  else if i_threads msg =? 0 then Ok (false, r)
  else
    valid ← check_pass (i_pass msg) s;
    if negb valid then Ok (false, r)
    else Ok (true, Remote (conn_id r) (locks r) (Z.to_nat (i_threads msg)) (sent r)).

(** [update_accounts_handler::handle]: the verdict, and what is passed to
    [server::store], which sorts the accounts first. *)
Definition update_accounts_handler (r : remote) (msg : Messages.update_accounts) :
    bool * option (list lws_account * list Z) :=
  match u_users msg with
  | [] => (true, None)
  | users => (true, Some (merge_sort height_leb users, u_blocks msg))
  end.
End password.

(** ** [do_replace_users] *)

(** The connections that are left, with the threads of all. *)
Fixpoint lock_remotes (total : nat) (remotes : list remote) : expect (nat * list remote) :=
  match remotes with
  | [] => Ok (total, [])
  | r :: remotes =>
    if locks r then
      if u64_max - Z.of_nat total <? Z.of_nat (threads_ r) then Err configuration
      else '(all, rest) ← lock_remotes (total + threads_ r) remotes; Ok (all, r :: rest)
    else lock_remotes total remotes
  end.

Definition insert_id (active : list Z) (id : Z) : list Z :=
  insert_at (lower_bound (λ i, i <? id) active) id active.

Definition insert_height (users : list account) (user : account) : list account :=
  insert_at (lower_bound (λ u, acc_scan_height u <? acc_scan_height user) users) user users.

(** [count] accounts off the end, in the order they are taken. *)
Definition take_back {A} (count : nat) (users : list A) : list A * list A :=
  let '(back, front) := split_back count users in (rev back, front).

Fixpoint replace_local (load : account → lws_account) (local : list queue) (remaining : nat)
    (users : list account) : list queue * nat * list account :=
  match local with
  | [] => ([], remaining, users)
  | q :: local =>
    let '(next, users) := take_back (length users `div` remaining) users in
    let '(local, remaining, users) := replace_local load local (remaining - 1) users in
    (replace_accounts (map load next) q :: local, remaining, users)
  end.

Fixpoint replace_remote (load : account → lws_account) (remotes : list remote) (remaining : nat)
    (users : list account) : expect (list remote * list account) :=
  match remotes with
  | [] => Ok ([], users)
  | r :: remotes =>
    let users_per_thread := (length users `div` Nat.max 1 remaining)%nat in
    let user_count := wrap 64 (Z.of_nat (Nat.max 1 users_per_thread) * Z.of_nat (threads_ r)) in
    let '(next, users) := take_back (Z.to_nat user_count) users in
    r ← write_command (Replace_accounts (map load next)) r;
    '(rest, users) ← replace_remote load remotes (remaining - Nat.min remaining (threads_ r)) users;
    Ok (r :: rest, users)
  end.

Section server.
Context `{L : Lmdb} (address_string : account_address → string).
Implicit Types d : db L.

Definition load d (user : account) : lws_account := get_full_account address_string user d.

(** [do_replace_users]; the reader is [None] when there is none to be had. *)
Definition do_replace_users (reader : option (db L)) (s : server) : expect server :=
  '(remaining_threads, remotes) ← lock_remotes (length (local_ s)) (remote_ s);
  if (remaining_threads =? 0)%nat then Ok (set_remote remotes s)
  else
    d ← of_option no_lock_available reader;
    let rows := get_accounts_of active d in
    let active := foldl insert_id [] (map acc_id rows) in
    let users := foldl insert_height [] rows in
    let remaining_threads :=
      if negb (length (local_ s) =? 0)%nat && (length users `div` length (local_ s) <? remote_threshold)%nat
      then length (local_ s) else remaining_threads in
    let '(local, remaining_threads, users) := replace_local (load d) (local_ s) remaining_threads users in
    '(remotes, _) ← replace_remote (load d) remotes remaining_threads users;
    Ok (set_active active (set_next_thread 0 (set_local local (set_remote remotes s)))).

(** ** [check_users] *)

(** The threads of all connections, or [None] when one is gone. *)
Fixpoint count_threads (total : nat) (remotes : list remote) : expect (option nat) :=
  match remotes with
  | [] => Ok (Some total)
  | r :: remotes =>
    if negb (locks r) then Ok None
    else if u64_max - Z.of_nat total <? Z.of_nat (threads_ r) then Err configuration
    else count_threads (total + threads_ r) remotes
  end.

Record finding_new := FindingNew {
  active_copy : list Z;
  new_accounts : list lws_account;
  new_active : list Z
}.

(** The accounts of the database that are not known, [None] when there are more
    than [replace_threshold]. *)
Fixpoint find_new d (rows : list account) (f : finding_new) : option finding_new :=
  match rows with
  | [] => Some f
  | user :: rows =>
    let loc := lower_bound (λ i, i <? acc_id user) (active_copy f) in
    if match active_copy f !! loc with Some id => negb (id =? acc_id user) | None => true end then
      let new := new_accounts f ++ [load d user] in
      if (replace_threshold <? length new)%nat then None
      else find_new d rows (FindingNew (active_copy f) new (insert_id (new_active f) (acc_id user)))
    else find_new d rows (FindingNew (delete loc (active_copy f)) (new_accounts f) (new_active f))
  end.
End server.

(** The search for the thread of a new account. *)
Record best := Best {
  best_thread : nat;
  best_height : Z;
  best_count : Z;
  found_below_or_equal : bool
}.

Definition better (account_height : Z) (b : best) (i : nat) (q : queue) : best :=
  let height := current_min_height_ q in
  let count := user_count_ q in
  if height <=? account_height then
    if negb (found_below_or_equal b) || (best_height b <? height) ||
       ((height =? best_height b) && (count <? best_count b))
    then Best i height count true else b
  else if negb (found_below_or_equal b) then
    if (best_height b =? 0) || (height <? best_height b) ||
       ((height =? best_height b) && (count <? best_count b))
    then Best i height count false else b
  else b.

Definition choose_thread (account_height : Z) (local : list queue) : nat :=
  best_thread (foldl (λ b iq, better account_height b iq.1 iq.2) (Best 0 0 u64_max false)
    (imap (λ i q, (i, q)) local)).

(** The loop of the balanced assignment, from the last account to the first. *)
Definition push_balanced (users : list lws_account) (local : list queue) : list queue :=
  foldl (λ local user, alter (Queue.push_accounts [user]) (choose_thread (scan_height user) local) local)
    local (rev users).

(** The connection that has the next thread: the loop over [offset]. *)
Fixpoint find_remote (next_thread offset j : nat) (remotes : list remote) : nat :=
  match remotes with
  | [] => j
  | r :: remotes =>
    if (next_thread <=? offset)%nat then j else find_remote next_thread (offset + threads_ r) (S j) remotes
  end.

(** The round robin; each turn takes one element off [new_accounts], so that their
    number is enough fuel.  The vector has what [erase] of one iterator leaves. *)
Fixpoint push_round_robin (fuel total_threads : nat) (users : list lws_account) (s : server) : expect server :=
  match users with
  | [] => Ok s
  | _ =>
    match fuel with
    | O => Err out_of_fuel
    | S fuel =>
      if (next_thread_ s <? length (local_ s))%nat then
        let '(back, front) := split_back 1 users in
        push_round_robin fuel total_threads front
          (set_next_thread (S (next_thread_ s) `mod` total_threads)
             (set_local (alter (Queue.push_accounts back) (next_thread_ s) (local_ s)) s))
      else
        let j := find_remote (next_thread_ s) (length (local_ s)) 0 (remote_ s) in
        r ← of_option undefined_behaviour (remote_ s !! j);
        let user_count := Nat.min (length users) (threads_ r) in
        if (user_count =? 0)%nat then Err undefined_behaviour
        else
          let '(next, front) := split_back user_count users in
          r ← write_command (Push_accounts next) r;
          push_round_robin fuel total_threads (front ++ map moved_from (drop 1 next))
            (set_next_thread ((next_thread_ s + threads_ r) `mod` total_threads)
               (set_remote (<[j := r]> (remote_ s)) s))
    end
  end.

Section check_users.
Context `{L : Lmdb} (address_string : account_address → string).
Implicit Types d : db L.

(** [check_users] *)
Definition check_users (reader : option (db L)) (s : server) : expect server :=
  if server_stop_ s then Ok s
  else
    total ← count_threads (length (local_ s)) (remote_ s);
    match total with
    | None => do_replace_users address_string reader s
    | Some total_threads =>
      if (total_threads =? 0)%nat then Ok s
      else
        match reader with
        | None => Ok s
        | Some d =>
          let rows := get_accounts_of active d in
          if (length rows <? length (active_ s))%nat then do_replace_users address_string reader s
          else
            match find_new address_string d rows (FindingNew (active_ s) [] (active_ s)) with
            | None => do_replace_users address_string reader s
            | Some f =>
              let s := set_active (new_active f) s in
              if negb (length (active_copy f) =? 0)%nat then do_replace_users address_string reader s
              else if balance_new_addresses_ s && negb (length (local_ s) =? 0)%nat then
                Ok (set_local (push_balanced (new_accounts f) (local_ s)) s)
              else
                push_round_robin (length (new_accounts f)) total_threads (new_accounts f)
                  (set_next_thread (next_thread_ s `mod` total_threads) s)
            end
        end
    end.
End check_users.

(** ** The server among its connections *)

(** [server::acceptor]: a connection is added to the set, ordered by its identity. *)
Definition accept (id : nat) (s : server) : server :=
  set_remote (insert_at (lower_bound (λ r, (conn_id r <? id)%nat) (remote_ s)) (Remote id true 0 []) (remote_ s)) s.

(** The last reference to a connection is dropped. *)
Definition close (id : nat) (s : server) : server :=
  set_remote (map (λ r, if (conn_id r =? id)%nat then Remote id false (threads_ r) (sent r) else r) (remote_ s)) s.

(** [do_stop] *)
Definition do_stop (s : server) : server :=
  Server (remote_ s) (local_ s) (active_ s) (next_thread_ s) (pass_hashed_ s) true (balance_new_addresses_ s).

(** The constructor of [server]. *)
Definition new_server (local : list queue) (active : list Z) (balance : bool) : server :=
  Server [] local (merge_sort Z.le active) 0 0 false balance.

(** What [start_acceptor] changes: the hash of the password. *)
Definition start_acceptor (crypto_pwhash : string → option Z) (address pass : string) (s : server) : expect server :=
  if String.eqb address "" then Ok s else
  out ← compute_hash crypto_pwhash pass;
  Ok (Server (remote_ s) (local_ s) (active_ s) (next_thread_ s) out (server_stop_ s) (balance_new_addresses_ s)).

Section steps.
Context `{L : Lmdb} (address_string : account_address → string) (crypto_pwhash : string → option Z).

(** What happens on the strand, with the database it is by then: [Some] when it is a
    connection that asked to be initialised, with the password it gave. *)
Inductive server_step : server → option (nat * string) → server → Prop :=
  | step_close id s : server_step s None (close id s)
  | step_initialize j r msg result r' s :
      remote_ s !! j = Some r → locks r = true →
      initialize_handler crypto_pwhash s r msg = Ok (result, r') →
      server_step s (Some (conn_id r, i_pass msg)) (set_remote (<[j := r']> (remote_ s)) s)
  | step_replace (reader : option (db L)) s s' :
      do_replace_users address_string reader s = Ok s' → server_step s None s'
  | step_check (reader : option (db L)) s s' :
      check_users address_string reader s = Ok s' → server_step s None s'
  | step_stop s : server_step s None (do_stop s).

(** The states after [s0], with the passwords given up to then.  A new connection
    is another object than all before it. *)
Inductive server_reachable (s0 : server) : list (nat * string) → server → Prop :=
  | reachable_start : server_reachable s0 [] s0
  | reachable_accept given id s :
      server_reachable s0 given s → server_stop_ s = false → id ∉ map conn_id (remote_ s) → id ∉ map fst given →
      server_reachable s0 given (accept id s)
  | reachable_step given s label s' :
      server_reachable s0 given s → server_step s label s' →
      server_reachable s0 (option_list label ++ given) s'.
End steps.

(** ** Lemmas: taking accounts off the end *)

Lemma take_back_spec {A} count (users next rest : list A) :
  take_back count users = (next, rest) →
  next ++ rest ≡ₚ users ∧ length rest = (length users - count)%nat.
Proof.
  unfold take_back, split_back. intros [= <- <-]. split.
  - rewrite <-Permutation_rev, Permutation_app_comm. by rewrite take_drop.
  - rewrite length_take. lia.
Qed.

(** ** Lemmas: the sorted vectors *)

Lemma sorted_insert_id active id : StronglySorted Z.le active → StronglySorted Z.le (insert_id active id).
Proof.
  intros Hsorted. apply sorted_insert_lower_bound; [| |apply _|done]; intros y Hy; to_prop; lia.
Qed.

Lemma insert_at_permutation {A} i (x : A) l : insert_at i x l ≡ₚ x :: l.
Proof. unfold insert_at. rewrite <-Permutation_middle. by rewrite take_drop. Qed.

Lemma foldl_insert_id ids active :
  StronglySorted Z.le active →
  StronglySorted Z.le (foldl insert_id active ids) ∧ foldl insert_id active ids ≡ₚ active ++ ids.
Proof.
  revert active. induction ids as [|id ids IH]; intros active Hsorted; [by rewrite app_nil_r|]. simpl.
  destruct (IH (insert_id active id)) as [Hs Hp]; [by apply sorted_insert_id|]. split; [done|].
  rewrite Hp. unfold insert_id. rewrite insert_at_permutation. simpl. apply Permutation_middle.
Qed.

Lemma foldl_insert_height rows users : foldl insert_height users rows ≡ₚ users ++ rows.
Proof.
  revert users. induction rows as [|row rows IH]; intros users; [by rewrite app_nil_r|]. simpl.
  rewrite IH. unfold insert_height. rewrite insert_at_permutation. simpl. apply Permutation_middle.
Qed.

(** Searching a sorted vector finds what is in it. *)
Lemma search_sorted active id :
  StronglySorted Z.le active →
  let loc := lower_bound (λ i, i <? id) active in
  match active !! loc with
  | Some found => if found =? id then active ≡ₚ id :: delete loc active else id ∉ active
  | None => id ∉ active
  end.
Proof.
  intros Hsorted. induction Hsorted as [|x active Hsorted IH Hx]; simpl; [apply not_elem_of_nil|].
  destruct (Z.ltb_spec x id); simpl.
  - cbv zeta in IH. destruct (active !! _) as [found|] eqn:E.
    + destruct (found =? id) eqn:Ef.
      * change (x :: active ≡ₚ id :: x :: delete (lower_bound (λ i, i <? id) active) active).
        rewrite IH at 1. apply perm_swap.
      * rewrite elem_of_cons. intros [->|?]; [lia|done].
    + rewrite elem_of_cons. intros [->|?]; [lia|done].
  - destruct (Z.eqb_spec x id) as [->|]; [done|]. rewrite elem_of_cons. rewrite Forall_forall in Hx.
    intros [->|Hin]; [lia|]. specialize (Hx id Hin). lia.
Qed.

Lemma sorted_delete {A} (R : A → A → Prop) i l : StronglySorted R l → StronglySorted R (delete i l).
Proof.
  rewrite delete_take_drop. rewrite <-(take_drop i l) at 1. intros (Hcross & Hfront & Hback)%StronglySorted_app.
  destruct (drop i l) as [|x rest] eqn:E.
  - replace (drop (S i) l) with (@nil A); [by rewrite app_nil_r|].
    by rewrite <-Nat.add_1_r, <-drop_drop, E.
  - replace (drop (S i) l) with rest by (by rewrite <-Nat.add_1_r, <-drop_drop, E).
    apply StronglySorted_inv in Hback as [Hrest _]. apply StronglySorted_app. split_and!; [|done|done].
    intros y z Hy Hz. apply Hcross; [done|by right].
Qed.

(** ** Lemmas: replacing *)

Lemma replace_local_spec load local remaining users workers :
  (length local <= remaining)%nat → length local = length workers →
  let '(local', remaining', users') := replace_local load local remaining users in
  length local' = length local ∧ remaining' = (remaining - length local)%nat ∧
  concat (views local' workers) ++ map load users' ≡ₚ map load users ∧
  (length local = remaining → (0 < remaining)%nat → users' = []) ∧
  (users = [] → users' = []).
Proof.
  revert remaining users workers. induction local as [|q local IH]; intros remaining users [|w workers] Hle Hlen;
    try done.
  { simpl. split_and!; [done|lia|done|lia|done]. }
  simpl in Hle, Hlen. cbn [replace_local].
  destruct (take_back _ users) as [next rest] eqn:Etake. apply take_back_spec in Etake as [Hperm Hrest].
  specialize (IH (remaining - 1)%nat rest workers ltac:(lia) ltac:(lia)).
  destruct (replace_local load local (remaining - 1) rest) as [[local' remaining'] users'].
  destruct IH as (Hl & Hr & Hviews & Hall & Hnil). split_and!.
  - simpl. by rewrite Hl.
  - simpl. lia.
  - cbn [views zip_with concat]. rewrite replace_view. change (zip_with _ local' workers) with (views local' workers).
    rewrite <-app_assoc, Hviews, <-map_app. by rewrite Hperm.
  - intros Heq Hpos. destruct local as [|q' local].
    + apply Hnil. simpl in Heq. subst remaining. apply length_zero_iff_nil. rewrite Hrest.
      change (S 0) with 1%nat. rewrite Nat.div_1_r. lia.
    + apply Hall; simpl in *; lia.
  - intros ->. apply Hnil. apply length_zero_iff_nil. rewrite Hrest. done.
Qed.

(** The accounts loaded from the database can be sent. *)
Lemma write_command_loaded c r :
  Forall (λ user, la_immutable user ≠ None) (command_users c) →
  write_command c r = Ok (Remote (conn_id r) (locks r) (threads_ r) (sent r ++ [c])).
Proof.
  intros Hall. unfold write_command. destruct (existsb _ _) eqn:E; [|done].
  apply existsb_exists in E as (user & Hin & Hnone%bool_decide_eq_true).
  rewrite Forall_forall in Hall. by destruct (Hall user (proj2 (list_elem_of_In _ _) Hin)).
Qed.

Definition max_threads (remotes : list remote) : nat := foldr (λ r m, Nat.max (threads_ r) m) 0%nat remotes.
Definition sum_threads (remotes : list remote) : nat := foldr (λ r m, threads_ r + m)%nat 0%nat remotes.

(** [replace_accounts] sent to a connection. *)
Definition told (r : remote) (users : list lws_account) : remote :=
  Remote (conn_id r) (locks r) (threads_ r) (sent r ++ [Replace_accounts users]).

(** A turn of the loop over the connections takes all of [users] if these are the
    last threads, but for less than their number. *)
Lemma last_turn users threads remaining :
  (0 < threads <= remaining)%nat → Z.of_nat remaining <= u64_max → Z.of_nat users <= u64_max →
  let count := Z.to_nat (wrap 64 (Z.of_nat (Nat.max 1 (users `div` Nat.max 1 remaining)) * Z.of_nat threads)) in
  count = (Nat.max 1 (users `div` remaining) * threads)%nat ∧
  (remaining = threads → (users - count < threads)%nat).
Proof.
  intros Hthreads Hmax Husers. replace (Nat.max 1 remaining) with remaining by lia. intros count.
  pose proof (Nat.div_mod_eq users remaining) as Hdiv.
  pose proof (Nat.mod_upper_bound users remaining ltac:(lia)) as Hmod.
  set (q := (users / remaining)%nat) in *.
  assert (q * threads <= users)%nat by nia.
  assert (count = Nat.max 1 q * threads)%nat as ->.
  { subst count. rewrite wrap_small; [|unfold u64_max in *]; [|split; [lia|]];
      rewrite <-Nat2Z.inj_mul; [by rewrite Nat2Z.id|].
    destruct (Nat.max_spec 1 q) as [[_ ->]|[_ ->]]; lia. }
  split; [done|]. intros ->. destruct q as [|q']; [lia|]. rewrite Nat.max_r by lia. nia.
Qed.

Lemma sum_threads_zero remotes : sum_threads remotes = 0%nat → Forall (λ r, threads_ r = 0%nat) remotes.
Proof. induction remotes as [|r remotes IH]; simpl; [done|]. intros. constructor; [lia|]. apply IH. lia. Qed.

(** What each connection is told, and the accounts that are left over. *)
Lemma replace_remote_spec load remotes remaining users :
  (∀ user, la_immutable (load user) ≠ None) →
  Z.of_nat (sum_threads remotes) <= u64_max → Z.of_nat (length users) <= u64_max →
  remaining = sum_threads remotes ∨ users = [] →
  ∃ parts lost,
    replace_remote load remotes remaining users = Ok (zip_with told remotes (map (map load) parts), lost) ∧
    length parts = length remotes ∧ concat parts ++ lost ≡ₚ users ∧
    Forall2 (λ r part, threads_ r = 0%nat → part = []) remotes parts ∧
    (sum_threads remotes ≠ 0%nat → (length lost < Nat.max 1 (max_threads remotes))%nat) ∧
    (users = [] → lost = []).
Proof.
  intros Hload. revert remaining users. induction remotes as [|r remotes IH];
    intros remaining users Hsum Husers Hremaining.
  { exists [], users. by split_and!. }
  cbn [replace_remote]. cbn [sum_threads foldr] in *. fold (sum_threads remotes) in *.
  set (count := Z.to_nat _). destruct (take_back count users) as [next rest] eqn:Etake.
  apply take_back_spec in Etake as [Hperm Hrest].
  rewrite write_command_loaded by (apply Forall_map, Forall_true; intros; apply Hload).
  change (Remote _ _ _ _) with (told r (map load next)).
  destruct (IH (remaining - Nat.min remaining (threads_ r))%nat rest) as
    (parts & lost & Hrun & Hlen & Hparts & Hnone & Hlost & Hnil); [lia|lia| |].
  { destruct Hremaining as [->| ->]; [left; lia|right]. by apply length_zero_iff_nil. }
  exists (next :: parts), lost. cbn [mbind expect_bind told threads_]. rewrite Hrun. split_and!.
  - done.
  - simpl. by rewrite Hlen.
  - cbn [concat]. by rewrite <-app_assoc, Hparts.
  - constructor; [|done]. intros Hzero. apply length_zero_iff_nil.
    assert (count = 0)%nat by (subst count; rewrite Hzero, Z.mul_0_r; done).
    apply Permutation_length in Hperm. rewrite length_app in Hperm. lia.
  - intros Hne. cbn [max_threads foldr]. fold (max_threads remotes).
    destruct (decide (sum_threads remotes = 0%nat)) as [Hz|Hnz]; [|specialize (Hlost Hnz); lia].
    destruct Hremaining as [Hr| ->]; [|rewrite Hnil; [simpl; lia|by apply length_zero_iff_nil]].
    assert (0 < threads_ r)%nat as Hpos by lia.
    destruct (last_turn (length users) (threads_ r) remaining) as [_ Hlast]; [lia|lia|done|].
    fold count in Hlast. specialize (Hlast ltac:(lia)).
    apply sum_threads_zero in Hz. pose proof (Permutation_length Hparts) as Hl. rewrite length_app in Hl. lia.
  - intros ->. apply Hnil. by apply length_zero_iff_nil.
Qed.

Lemma lock_remotes_spec total remotes :
  let left := List.filter locks remotes in
  Z.of_nat (total + sum_threads left) <= u64_max →
  lock_remotes total remotes = Ok ((total + sum_threads left)%nat, left).
Proof.
  cbv zeta. revert total. induction remotes as [|r remotes IH]; intros total; [by rewrite Nat.add_0_r|].
  cbn [lock_remotes List.filter]. destruct (locks r); [|apply IH].
  cbn [sum_threads foldr]. fold (sum_threads (List.filter locks remotes)). intros Hmax.
  destruct (Z.ltb_spec (u64_max - Z.of_nat total) (Z.of_nat (threads_ r))); [lia|].
  rewrite IH by lia. cbn [mbind expect_bind]. by rewrite Nat.add_assoc.
Qed.

Section replace_proofs.
Context `{LL : LmdbLaws} (address_string : account_address → string).
Implicit Types d : db L.

Lemma load_immutable d user : la_immutable (load address_string d user) ≠ None.
Proof. done. Qed.

Lemma load_id d user : account_id (load address_string d user) = acc_id user.
Proof. done. Qed.

Lemma accounts_sorted d : StronglySorted Z.lt (map acc_id (get_accounts_of active d)).
Proof.
  unfold get_accounts_of. pose proof (dups_sorted accounts active d) as Hs.
  induction Hs as [|x l Hl IH Hx]; simpl; constructor; [done|].
  apply Forall_map. eapply Forall_impl; [exact Hx|]. intros y. unfold dup_lt. simpl. apply Z.compare_lt_iff.
Qed.

(** [active_] is the sorted vector of the ids. *)
Lemma active_ids d : foldl insert_id [] (map acc_id (get_accounts_of active d)) = map acc_id (get_accounts_of active d).
Proof.
  destruct (foldl_insert_id (map acc_id (get_accounts_of active d)) []) as [Hs Hp]; [constructor|].
  apply (StronglySorted_unique Z.le); [done| |done].
  apply (sorted_impl Z.lt); [apply accounts_sorted|]. intros x y. lia.
Qed.

(** [do_replace_users]: what everyone gets. *)
Lemma do_replace_users_ok d s workers :
  let left := List.filter locks (remote_ s) in
  let total := (length (local_ s) + sum_threads left)%nat in
  let rows := get_accounts_of active d in
  (0 < total)%nat → Z.of_nat total <= u64_max → Z.of_nat (length rows) <= u64_max →
  length (local_ s) = length workers →
  ∃ s' parts lost,
    do_replace_users address_string (Some d) s = Ok s' ∧
    active_ s' = map acc_id rows ∧ next_thread_ s' = 0%nat ∧ server_stop_ s' = server_stop_ s ∧
    length (local_ s') = length workers ∧
    remote_ s' = zip_with told left (map (map (load address_string d)) parts) ∧ length parts = length left ∧
    Forall2 (λ r part, threads_ r = 0%nat → part = []) left parts ∧
    concat (views (local_ s') workers) ++ map (load address_string d) (concat parts ++ lost) ≡ₚ
      map (load address_string d) rows ∧
    (length lost < Nat.max 1 (max_threads left))%nat.
Proof.
  intros left total rows Htotal Hmax Hrows Hlen. unfold do_replace_users.
  rewrite lock_remotes_spec by done. cbn [mbind expect_bind]. fold left total.
  destruct (Nat.eqb_spec total 0); [lia|]. cbn [of_option mbind expect_bind].
  rewrite active_ids. fold rows. set (users := foldl insert_height [] rows).
  assert (users ≡ₚ rows) as Husers by (unfold users; by rewrite foldl_insert_height).
  set (local_only := negb (length (local_ s) =? 0)%nat && _).
  set (remaining := if local_only then length (local_ s) else total).
  assert (length (local_ s) <= remaining <= total)%nat as Hrem by (unfold remaining; destruct local_only; lia).
  pose proof (replace_local_spec (load address_string d) (local_ s) remaining users workers ltac:(lia) Hlen) as Hlocal.
  destruct (replace_local _ _ _ _) as [[local' remaining'] users'].
  destruct Hlocal as (Hl & Hr & Hviews & Hall & Hnil).
  pose proof (Permutation_length Hviews) as Hvl. rewrite length_app, !length_map in Hvl.
  assert (length users' <= length rows)%nat by (rewrite <-(Permutation_length Husers); lia).
  destruct (replace_remote_spec (load address_string d) left remaining' users') as
    (parts & lost & Hrun & Hplen & Hparts & Hnone & Hlost & Hlnil); [apply load_immutable|lia|lia| |].
  { unfold remaining in Hr, Hall. destruct local_only eqn:E.
    - right. apply Hall; [done|]. apply andb_true_iff in E as [E _].
      destruct (length (local_ s)); [done|lia].
    - left. unfold total in Hr. lia. }
  rewrite Hrun. cbn [mbind expect_bind]. eexists _, parts, lost. split; [reflexivity|].
  cbn [active_ next_thread_ local_ remote_ server_stop_ set_active set_next_thread set_local set_remote].
  split_and!; try done; [by rewrite Hl|by rewrite Hparts, Hviews, Husers|].
  destruct (decide (sum_threads left = 0%nat)) as [Hz|Hnz]; [|by apply Hlost].
  rewrite Hlnil; [simpl; lia|]. apply Hall; [|lia]. lia.
Qed.

(** ** Lemmas: checking *)

Definition ids (users : list lws_account) : list Z := map account_id users.

(** The rows are the accounts found and the new ones. *)
Lemma find_new_spec d rows f f' :
  StronglySorted Z.le (active_copy f) → StronglySorted Z.le (new_active f) →
  find_new address_string d rows f = Some f' →
  ∃ found new,
    map acc_id rows ≡ₚ found ++ map acc_id new ∧ active_copy f ≡ₚ found ++ active_copy f' ∧
    new_accounts f' = new_accounts f ++ map (load address_string d) new ∧
    new_active f' ≡ₚ new_active f ++ map acc_id new ∧ StronglySorted Z.le (new_active f').
Proof.
  revert f. induction rows as [|row rows IH]; intros f Hcopy Hactive; cbn [find_new].
  { intros [= <-]. exists [], []. by rewrite !app_nil_r. }
  pose proof (search_sorted (active_copy f) (acc_id row) Hcopy) as Hsearch. cbv zeta in Hsearch.
  set (loc := lower_bound _ _) in *.
  destruct (match active_copy f !! loc with Some id => negb (id =? acc_id row) | None => true end) eqn:E.
  - destruct (replace_threshold <? _)%nat; [done|]. intros Hrun.
    destruct (IH (FindingNew (active_copy f) (new_accounts f ++ [load address_string d row])
      (insert_id (new_active f) (acc_id row)))) as (found & new & Hrows & Hfound & Hnew & Hids & Hs);
      [exact Hcopy|by apply sorted_insert_id|exact Hrun|].
    cbn [active_copy new_accounts new_active] in *. exists found, (row :: new). split_and!; [|done| | |done].
    + simpl. rewrite Hrows. by rewrite <-Permutation_middle.
    + rewrite Hnew, <-app_assoc. done.
    + rewrite Hids. unfold insert_id. rewrite insert_at_permutation. simpl. apply Permutation_middle.
  - intros Hrun. destruct (IH (FindingNew (delete loc (active_copy f)) (new_accounts f) (new_active f)))
      as (found & new & Hrows & Hfound & Hnew & Hids & Hs); [by apply sorted_delete|done|exact Hrun|].
    cbn [active_copy new_accounts new_active] in *.
    destruct (active_copy f !! loc) as [id|]; [|done]. apply negb_false_iff in E. rewrite E in Hsearch.
    exists (acc_id row :: found), new. split_and!; [| |done|done|done].
    + simpl. by rewrite Hrows.
    + rewrite Hsearch, Hfound. done.
Qed.
End replace_proofs.

(** The thread chosen is one of the threads. *)
Lemma choose_thread_lt height local : (0 < length local)%nat → (choose_thread height local < length local)%nat.
Proof.
  intros Hpos. unfold choose_thread.
  assert (Forall (λ iq : nat * queue, (iq.1 < length local)%nat) (imap (λ i q, (i, q)) local)) as Hall.
  { apply Forall_lookup. intros i [j q]. rewrite list_lookup_imap.
    destruct (local !! i) eqn:E; [|done]. intros [= <- _]. by eapply lookup_lt_Some. }
  assert (best_thread (Best 0 0 u64_max false) < length local)%nat as Hb by done.
  revert Hb. generalize (Best 0 0 u64_max false). induction Hall as [|[i q] l Hi Hl IH]; intros b Hb; [done|].
  cbn [foldl]. apply IH. unfold better. cbn [fst snd] in *. repeat case_match; done.
Qed.

Lemma push_balanced_spec users local workers :
  (0 < length local)%nat → length local = length workers →
  length (push_balanced users local) = length workers ∧
  concat (views (push_balanced users local) workers) ≡ₚ users ++ concat (views local workers).
Proof.
  intros Hpos Hlen. unfold push_balanced. rewrite (Permutation_rev users) at 3.
  revert local Hpos Hlen. generalize (rev users). intros l.
  induction l as [|user l IH]; intros local Hpos Hlen; [done|]. cbn [foldl].
  destruct (IH (alter (Queue.push_accounts [user]) (choose_thread (scan_height user) local) local)) as [Hl Hv];
    rewrite ?length_alter; try done.
  split; [done|]. rewrite Hv, views_push by (done || by apply choose_thread_lt).
  symmetry. apply Permutation_middle.
Qed.

(** Without connections the round robin gives each account to a local thread. *)
Lemma round_robin_local fuel total users s workers :
  remote_ s = [] → total = length (local_ s) → (next_thread_ s < total)%nat → (length users <= fuel)%nat →
  length (local_ s) = length workers →
  ∃ s', push_round_robin fuel total users s = Ok s' ∧
    remote_ s' = [] ∧ active_ s' = active_ s ∧ server_stop_ s' = server_stop_ s ∧
    length (local_ s') = length workers ∧
    concat (views (local_ s') workers) ≡ₚ users ++ concat (views (local_ s) workers).
Proof.
  revert users s. induction fuel as [|fuel IH]; intros users s Hremote Htotal Hnext Hfuel Hlen.
  { destruct users; [|simpl in Hfuel; lia]. by exists s. }
  destruct users as [|user users]; [by exists s|]. cbn [push_round_robin].
  destruct (Nat.ltb_spec (next_thread_ s) (length (local_ s))); [|lia].
  destruct (split_back 1 (user :: users)) as [back front] eqn:Eback.
  pose proof (split_back_app 1 (user :: users)) as Happ. rewrite Eback in Happ. cbn [fst snd] in Happ.
  assert (length front <= fuel)%nat as Hfront.
  { unfold split_back in Eback. injection Eback as <- <-. rewrite length_take. simpl in Hfuel |- *. lia. }
  edestruct (IH front (set_next_thread (S (next_thread_ s) `mod` total)
    (set_local (alter (Queue.push_accounts back) (next_thread_ s) (local_ s)) s)))
    as (s' & Hrun & Hr & Ha & Hs & Hl & Hv); cbn [local_ remote_ next_thread_ set_next_thread set_local];
    rewrite ?length_alter; try done.
  { apply Nat.mod_upper_bound. lia. }
  exists s'. split_and!; try done. rewrite Hv. cbn [local_ set_next_thread set_local].
  rewrite views_push by done. rewrite app_assoc, Happ. done.
Qed.

(** ** The server and its local threads *)

Section local.
Context `{L : Lmdb} (address_string : account_address → string).

(** A check with the database at the time, a thread that looks into its queue, and
    one that stored what it scanned and goes on from [height]. *)
Inductive local_event : Type :=
  | Check_users (reader : option (db L))
  | Thread_looks (i : nat)
  | Thread_scanned (i : nat) (height : Z).

Definition scanned (height : Z) (w : worker) : worker :=
  match w with Busy users => Busy (map (updated height) users) | Waiting => Waiting end.

Definition with_thread (i : nat) (f : queue * worker → queue * worker) (sw : server * list worker) :
    server * list worker :=
  match local_ sw.1 !! i, sw.2 !! i with
  | Some q, Some w =>
    let '(q, w) := f (q, w) in (set_local (<[i := q]> (local_ sw.1)) sw.1, <[i := w]> sw.2)
  | _, _ => sw
  end.

Definition local_step (sw : server * list worker) (e : local_event) : expect (server * list worker) :=
  match e with
  | Check_users reader => s ← check_users address_string reader sw.1; Ok (s, sw.2)
  | Thread_looks i => Ok (with_thread i (λ qw, look qw.1 qw.2) sw)
  | Thread_scanned i height => Ok (with_thread i (λ qw, (update_min_height height qw.1, scanned height qw.2)) sw)
  end.
End local.
Arguments local_event : clear implicits.

(** Only local threads, [active_] in order, and its accounts are those of the threads. *)
Record local_ok (sw : server * list worker) : Prop := {
  lo_remote : remote_ sw.1 = [];
  lo_running : server_stop_ sw.1 = false;
  lo_threads : (0 < length (local_ sw.1))%nat ∧ length (local_ sw.1) = length sw.2 ∧
    Z.of_nat (length (local_ sw.1)) <= u64_max;
  lo_sorted : StronglySorted Z.le (active_ sw.1);
  lo_assigned : ids (concat (views (local_ sw.1) sw.2)) ≡ₚ active_ sw.1
}.

Lemma ids_concat_views_insert i queues workers q w q' w' :
  queues !! i = Some q → workers !! i = Some w → ids (view (q', w')) = ids (view (q, w)) →
  ids (concat (views (<[i := q']> queues) (<[i := w']> workers))) = ids (concat (views queues workers)).
Proof.
  intros Hq Hw Hids. unfold ids, views. rewrite !concat_map, <-insert_zip_with. f_equal.
  change (map (map account_id)) with (fmap (M := list) (map account_id)). rewrite list_fmap_insert.
  rewrite list_insert_id; [done|]. rewrite list_lookup_fmap, lookup_zip_with, Hq, Hw. simpl. by f_equal.
Qed.

Lemma with_thread_ok i f sw :
  (∀ qw, ids (view (f qw)) = ids (view qw)) → local_ok sw → local_ok (with_thread i f sw).
Proof.
  intros Hf Hok. destruct sw as [s ws]. unfold with_thread. cbn [fst snd].
  destruct (local_ s !! i) as [q|] eqn:Hq; [|done]. destruct (ws !! i) as [w|] eqn:Hw; [|done].
  specialize (Hf (q, w)). destruct (f (q, w)) as [q' w']. destruct Hok as [Hr Hs (Ht & Hl & Hm) Hsorted Hids].
  cbn [fst snd] in *. split; cbn [fst snd set_local remote_ server_stop_ local_ active_];
    rewrite ?length_insert; try done.
  by erewrite ids_concat_views_insert.
Qed.

Lemma look_ids qw : ids (view (look qw.1 qw.2)) = ids (view qw).
Proof. destruct qw as [q w]. by rewrite look_view. Qed.

Lemma scanned_ids height qw :
  ids (view (update_min_height height qw.1, scanned height qw.2)) = ids (view qw).
Proof.
  destruct qw as [q w]. unfold view, ids. cbn [fst snd replace_ push_ update_min_height].
  rewrite !map_app. f_equal. destruct (replace_ q); [done|]. destruct w; [|done]. simpl. by rewrite map_map.
Qed.

Section local_proofs.
Context `{LL : LmdbLaws} (address_string : account_address → string).
Implicit Types d : db L.

Lemma replace_local_ok d s ws :
  remote_ s = [] → server_stop_ s = false →
  (0 < length (local_ s))%nat ∧ length (local_ s) = length ws ∧ Z.of_nat (length (local_ s)) <= u64_max →
  Z.of_nat (length (get_accounts_of active d)) <= u64_max →
  ∃ s', do_replace_users address_string (Some d) s = Ok s' ∧ local_ok (s', ws) ∧
    active_ s' = map acc_id (get_accounts_of active d).
Proof.
  intros Hr Hs (Ht & Hl & Hm) Hrows.
  pose proof (do_replace_users_ok address_string d s ws) as Hok. rewrite Hr in Hok. simpl in Hok.
  rewrite Nat.add_0_r in Hok. destruct Hok as
    (s' & parts & lost & Hrun & Hactive & _ & Hstop & Hlocal & Hremote & Hlen & _ & Hviews & Hlost); try done.
  exists s'. split; [done|]. split; [|done].
  destruct lost; [|simpl in Hlost; lia]. destruct parts; [|done]. simpl in Hviews.
  split; cbn [fst snd]; [done|by rewrite Hstop|rewrite Hlocal, <-Hl; by split_and!| |].
  - rewrite Hactive. apply (sorted_impl Z.lt); [apply accounts_sorted|]. intros; lia.
  - rewrite Hactive. rewrite app_nil_r in Hviews. unfold ids.
    rewrite (Permutation_map account_id Hviews). rewrite map_map. done.
Qed.

Lemma check_local_ok d s ws :
  local_ok (s, ws) → Z.of_nat (length (get_accounts_of active d)) <= u64_max →
  ∃ s', check_users address_string (Some d) s = Ok s' ∧ local_ok (s', ws) ∧
    active_ s' = map acc_id (get_accounts_of active d).
Proof.
  intros [Hr Hs Hthreads Hsorted Hids] Hrows. cbn [fst snd] in *.
  pose proof (λ s', replace_local_ok d s' ws) as Hreplace.
  unfold check_users. rewrite Hs, Hr. cbn [count_threads mbind expect_bind].
  destruct (Nat.eqb_spec (length (local_ s)) 0) as [|Hne]; [lia|].
  destruct (_ <? length (active_ s))%nat; [by apply Hreplace|].
  destruct (find_new _ _ _ _) as [f|] eqn:Hfind; [|by apply Hreplace].
  destruct (find_new_spec address_string d _ (FindingNew (active_ s) [] (active_ s)) f Hsorted Hsorted Hfind)
    as (found & new & Hrowids & Hcopy & Hnew & Hnewids & Hsorted'). cbn [active_copy new_accounts new_active] in *.
  destruct (active_copy f) as [|id copy]; cbn [length Nat.eqb negb]; [|by apply Hreplace].
  rewrite app_nil_r in Hcopy.
  assert (new_active f = map acc_id (get_accounts_of active d)) as Hactive.
  { apply (StronglySorted_unique Z.le); [done| |].
    - apply (sorted_impl Z.lt); [apply accounts_sorted|]. intros; lia.
    - by rewrite Hnewids, Hcopy, Hrowids. }
  assert (∀ local, concat (views local ws) ≡ₚ new_accounts f ++ concat (views (local_ s) ws) →
    ids (concat (views local ws)) ≡ₚ new_active f) as Hassigned.
  { intros local Hviews. unfold ids. rewrite (Permutation_map account_id Hviews), map_app, Hnewids, Hnew.
    cbn [app]. rewrite map_map, Permutation_app_comm. apply Permutation_app; [exact Hids|done]. }
  destruct Hthreads as (Ht & Hl & Hm). cbn [balance_new_addresses_ local_ set_active].
  replace (negb (length (local_ s) =? 0)%nat) with true by (by destruct (local_ s)).
  destruct (balance_new_addresses_ s); cbn [andb].
  - destruct (push_balanced_spec (new_accounts f) (local_ s) ws Ht Hl) as [Hl' Hviews].
    eexists. split; [reflexivity|]. split; [|done]. split; try done; [|by apply Hassigned].
    cbn [fst snd local_ set_local set_active]. rewrite Hl', <-Hl. by split_and!.
  - edestruct (round_robin_local (length (new_accounts f)) (length (local_ s)) (new_accounts f)
      (set_next_thread (next_thread_ (set_active (new_active f) s) `mod` length (local_ s)) (set_active (new_active f) s)) ws)
      as (s' & Hrun & Hremote & Ha & Hstop & Hl' & Hviews); try done.
    { apply Nat.mod_upper_bound. lia. }
    exists s'. split; [exact Hrun|]. cbn [active_ set_next_thread set_active] in Ha. rewrite Ha. split; [|done].
    split; cbn [fst snd]; [done|by rewrite Hstop|rewrite Hl', <-Hl; by split_and!|by rewrite Ha|].
    rewrite Ha. by apply Hassigned.
Qed.
End local_proofs.

(** ** Who is sent accounts *)

(** The connection [r] later: it may have been sent commands, with accounts only if
    it has threads. *)
Definition serves (r r' : remote) : Prop :=
  conn_id r' = conn_id r ∧ threads_ r' = threads_ r ∧
  ∃ commands, sent r' = sent r ++ commands ∧
    (threads_ r = 0%nat → Forall (λ c, command_users c = []) commands).

#[export] Instance serves_preorder : PreOrder serves.
Proof.
  split.
  - intros r. split_and!; try done. exists []. by rewrite app_nil_r.
  - intros r1 r2 r3 (Hi & Ht & c & Hs & Hc) (Hi' & Ht' & c' & Hs' & Hc').
    split_and!; [congruence|congruence|]. exists (c ++ c'). rewrite Hs', Hs, app_assoc. split; [done|].
    intros Hz. apply Forall_app. rewrite Ht in Hc'. by auto.
Qed.

Lemma write_command_serves c r r' :
  write_command c r = Ok r' → (threads_ r = 0%nat → command_users c = []) → serves r r'.
Proof.
  unfold write_command. destruct (existsb _ _); [done|]. intros [= <-] Hc. split_and!; try done.
  exists [c]. split; [done|]. intros Hz. constructor; [by apply Hc|done].
Qed.

Lemma replace_remote_serves load remotes remaining users remotes' users' :
  replace_remote load remotes remaining users = Ok (remotes', users') → Forall2 serves remotes remotes'.
Proof.
  revert remaining users remotes'. induction remotes as [|r remotes IH]; intros remaining users remotes';
    cbn [replace_remote]; [intros [= <- _]; constructor|].
  set (count := Z.to_nat _). destruct (take_back count users) as [next rest] eqn:Etake.
  intros (r' & Hwrite & Hrun)%expect_bind_ok. apply expect_bind_ok in Hrun as ([rs us] & Hrun & [= <- <-]).
  constructor; [|exact (IH _ _ _ Hrun)]. eapply write_command_serves; [exact Hwrite|]. intros Hz.
  assert (count = 0)%nat as Hcount by (subst count; rewrite Hz, Z.mul_0_r; done). rewrite Hcount in Etake.
  unfold take_back, split_back in Etake. injection Etake as <- _. rewrite Nat.sub_0_r, drop_all. done.
Qed.

Lemma lock_remotes_left total remotes all left :
  lock_remotes total remotes = Ok (all, left) → left = List.filter locks remotes.
Proof.
  revert total all left. induction remotes as [|r remotes IH]; intros total all rest; cbn [lock_remotes List.filter].
  { by intros [= _ <-]. }
  destruct (locks r); [|apply IH]. destruct (_ <? _); [done|].
  intros ([all' rest'] & Hrun & [= _ <-])%expect_bind_ok. by rewrite (IH _ _ _ Hrun).
Qed.

(** Everything a connection has was there before, or it was served. *)
Definition all_serve (s s' : server) : Prop :=
  pass_hashed_ s' = pass_hashed_ s ∧ ∀ r', r' ∈ remote_ s' → ∃ r, r ∈ remote_ s ∧ serves r r'.

#[export] Instance all_serve_preorder : PreOrder all_serve.
Proof.
  split.
  - intros s. split; [done|]. intros r Hr. by exists r.
  - intros s1 s2 s3 [Hp H12] [Hp' H23]. split; [congruence|]. intros r3 Hr3.
    destruct (H23 r3 Hr3) as (r2 & Hr2 & Hs). destruct (H12 r2 Hr2) as (r1 & Hr1 & Hs').
    exists r1. split; [done|]. by etrans.
Qed.

Lemma do_replace_users_serves `{L : Lmdb} address_string (reader : option (db L)) s s' :
  do_replace_users address_string reader s = Ok s' → all_serve s s'.
Proof.
  intros ([all left] & Hlock & Hrun)%expect_bind_ok. apply lock_remotes_left in Hlock as ->.
  assert (∀ r, r ∈ List.filter locks (remote_ s) → r ∈ remote_ s) as Hleft.
  { intros r. rewrite !list_elem_of_In, filter_In. by intros []. }
  destruct (all =? 0)%nat.
  { injection Hrun as <-. split; [done|]. intros r Hr. exists r. split; [by apply Hleft|done]. }
  apply expect_bind_ok in Hrun as (d & _ & Hrun). cbv zeta in Hrun.
  destruct (replace_local _ _ _ _) as [[local rem] users].
  apply expect_bind_ok in Hrun as ([rs us] & Hserve & [= <-]).
  apply replace_remote_serves in Hserve. split; [done|]. intros r' Hr'. cbn in Hr'.
  apply list_elem_of_lookup in Hr' as [i Hi]. destruct (Forall2_lookup_r _ _ _ _ _ Hserve Hi) as (r & Hr & Hs).
  exists r. split; [|done]. apply Hleft. by eapply list_elem_of_lookup_2.
Qed.

Lemma push_round_robin_serves fuel total users s s' :
  push_round_robin fuel total users s = Ok s' → all_serve s s'.
Proof.
  revert users s. induction fuel as [|fuel IH]; intros [|user users] s; cbn [push_round_robin];
    try (by intros [= <-]).
  destruct (_ <? _)%nat.
  { destruct (split_back 1 (user :: users)) as [back front]. intros Hrun%IH. exact Hrun. }
  intros (r & Hr & Hrun)%expect_bind_ok. apply of_option_ok in Hr.
  destruct (Nat.eqb_spec (Nat.min (length (user :: users)) (threads_ r)) 0) as [|Hne]; [done|].
  destruct (split_back _ (user :: users)) as [next front].
  apply expect_bind_ok in Hrun as (r' & Hwrite & Hrun). apply IH in Hrun. etrans; [|exact Hrun].
  split; [done|]. intros r'' Hr''. cbn [remote_ set_next_thread set_remote] in Hr''.
  apply list_elem_of_lookup in Hr'' as [i Hi]. apply list_lookup_insert_Some in Hi as [(_ & <- & _)|[_ Hi]].
  - exists r. split; [by eapply list_elem_of_lookup_2|]. eapply write_command_serves; [exact Hwrite|].
    intros Hz. rewrite Hz in Hne. lia.
  - exists r''. split; [by eapply list_elem_of_lookup_2|done].
Qed.

Lemma check_users_serves `{L : Lmdb} address_string (reader : option (db L)) s s' :
  check_users address_string reader s = Ok s' → all_serve s s'.
Proof.
  unfold check_users. destruct (server_stop_ s); [by intros [= <-]|].
  intros ([total|] & _ & Hrun)%expect_bind_ok; [|by eapply do_replace_users_serves].
  destruct (total =? 0)%nat; [by injection Hrun as <-|]. destruct reader as [d|]; [|by injection Hrun as <-].
  destruct (_ <? _)%nat; [by eapply do_replace_users_serves|].
  destruct (find_new _ _ _ _) as [f|]; [|by eapply do_replace_users_serves].
  destruct (negb (length (active_copy f) =? 0)%nat).
  { apply do_replace_users_serves in Hrun. exact Hrun. }
  destruct (_ && _); [|by apply push_round_robin_serves in Hrun].
  injection Hrun as <-. split; [done|]. intros r Hr. by exists r.
Qed.

(** Either nothing is sent with accounts, or the password was given. *)
Definition cleared (crypto_pwhash : string → option Z) (s0 : server) (given : list (nat * string)) (r : remote) : Prop :=
  (threads_ r = 0%nat → Forall (λ c, command_users c = []) (sent r)) ∧
  (threads_ r ≠ 0%nat → ∃ pass, (conn_id r, pass) ∈ given ∧ crypto_pwhash pass = Some (pass_hashed_ s0)).

Lemma serves_cleared crypto_pwhash s0 given r r' :
  serves r r' → cleared crypto_pwhash s0 given r → cleared crypto_pwhash s0 given r'.
Proof.
  intros (Hi & Ht & c & Hs & Hc) [Hzero Hpass]. unfold cleared. rewrite Hi, Ht, Hs. split; [|done].
  intros Hz. apply Forall_app. by auto.
Qed.

Lemma cleared_mono crypto_pwhash s0 given more r :
  cleared crypto_pwhash s0 given r → cleared crypto_pwhash s0 (more ++ given) r.
Proof.
  intros [Hzero Hpass]. split; [done|]. intros Hne. destruct (Hpass Hne) as (pass & Hin & Hhash).
  exists pass. split; [|done]. apply elem_of_app. by right.
Qed.

Lemma initialize_cleared crypto_pwhash s0 s given r r' msg result :
  pass_hashed_ s = pass_hashed_ s0 → cleared crypto_pwhash s0 given r →
  initialize_handler crypto_pwhash s r msg = Ok (result, r') →
  cleared crypto_pwhash s0 ((conn_id r, i_pass msg) :: given) r'.
Proof.
  intros Hhash Hr. pose proof (cleared_mono crypto_pwhash s0 given [(conn_id r, i_pass msg)] r Hr) as Hmono.
  unfold initialize_handler. destruct (Nat.eqb_spec (threads_ r) 0) as [Hz|]; cbn [negb]; [|by intros [= _ <-]].
  destruct (i_threads msg =? 0); [by intros [= _ <-]|].
  intros (valid & Hvalid & Hrun)%expect_bind_ok. destruct valid; cbn [negb] in Hrun; [|by injection Hrun as _ <-].
  injection Hrun as _ <-. unfold check_pass, compute_hash in Hvalid.
  apply expect_bind_ok in Hvalid as (out & Hout%of_option_ok & [= Heq%Z.eqb_eq]).
  split; cbn [threads_ sent conn_id].
  - intros _. by apply Hr.
  - intros _. exists (i_pass msg). split; [by left|]. by rewrite Hout, Heq, Hhash.
Qed.

Lemma server_step_cleared `{L : Lmdb} address_string crypto_pwhash s0 given s label s' :
  pass_hashed_ s = pass_hashed_ s0 → (∀ r, r ∈ remote_ s → cleared crypto_pwhash s0 given r) →
  server_step (L := L) address_string crypto_pwhash s label s' →
  pass_hashed_ s' = pass_hashed_ s ∧
  ∀ r, r ∈ remote_ s' → cleared crypto_pwhash s0 (option_list label ++ given) r.
Proof.
  intros Hhash Hall Hstep.
  assert (∀ s', all_serve s s' → pass_hashed_ s' = pass_hashed_ s ∧ ∀ r, r ∈ remote_ s' → cleared crypto_pwhash s0 given r)
    as Hserve.
  { intros s2 [Hp Hs]. split; [done|]. intros r' Hr'. destruct (Hs r' Hr') as (r & Hr & Hrr).
    eapply serves_cleared; [done|by apply Hall]. }
  destruct Hstep as [id s|j r msg result r' s Hj Hlocks Hinit|reader s s' Hrun|reader s s' Hrun|s].
  - split; [done|]. intros r Hr. apply list_elem_of_fmap in Hr as (r0 & -> & Hr0). specialize (Hall r0 Hr0).
    destruct (Nat.eqb_spec (conn_id r0) id) as [<-|]; [|done]. exact Hall.
  - split; [done|]. intros r1 Hr1. cbn [set_remote remote_] in Hr1.
    apply list_elem_of_lookup in Hr1 as [i Hi]. apply list_lookup_insert_Some in Hi as [(_ & <- & _)|[_ Hi]].
    + eapply initialize_cleared; [exact Hhash| |exact Hinit]. apply Hall. by eapply list_elem_of_lookup_2.
    + apply (cleared_mono _ _ _ [_]), Hall. by eapply list_elem_of_lookup_2.
  - apply Hserve. by eapply do_replace_users_serves.
  - apply Hserve. by eapply check_users_serves.
  - done.
Qed.

Section server_theorems.
Context `{LL : LmdbLaws} (address_string : account_address → string).
Implicit Types d : db L.

(** No more active accounts than a [std::size_t] counts. *)
Definition countable_accounts d : Prop := Z.of_nat (length (get_accounts_of active d)) <= u64_max.

Lemma local_step_ok sw e :
  local_ok sw → (∀ d, e = Check_users (Some d) → countable_accounts d) →
  ∃ sw', local_step address_string sw e = Ok sw' ∧ local_ok sw'.
Proof.
  intros Hok Hcount. destruct sw as [s ws], e as [[d|]|i|i height]; cbn [local_step fst snd].
  - destruct (check_local_ok address_string d s ws Hok (Hcount d eq_refl)) as (s' & -> & Hok' & _). by exists (s', ws).
  - exists (s, ws). split; [|done]. destruct Hok as [Hr Hs _ _ _]. cbn [fst snd] in *. unfold check_users.
    rewrite Hs, Hr. cbn [count_threads mbind expect_bind]. by destruct (length (local_ s) =? 0)%nat.
  - eexists. split; [reflexivity|]. apply with_thread_ok; [|done]. apply look_ids.
  - eexists. split; [reflexivity|]. apply with_thread_ok; [|done]. apply scanned_ids.
Qed.

Lemma local_steps_ok events sw :
  local_ok sw → (∀ d, Check_users (Some d) ∈ events → countable_accounts d) →
  ∃ sw', fold_err (local_step address_string) sw events = Ok sw' ∧ local_ok sw'.
Proof.
  revert sw. induction events as [|e events IH]; intros sw Hok Hcount; [by exists sw|]. cbn [fold_err].
  destruct (local_step_ok sw e Hok) as (sw' & -> & Hok'); [intros d ->; apply Hcount; by left|].
  cbn [mbind expect_bind]. apply IH; [done|]. intros d Hd. apply Hcount. by right.
Qed.

Lemma new_server_ok assignments active0 balance :
  (0 < length assignments)%nat → Z.of_nat (length assignments) <= u64_max →
  ids (concat assignments) ≡ₚ active0 →
  local_ok (new_server (replicate (length assignments) new_queue) active0 balance, map Busy assignments).
Proof.
  intros Hpos Hmax Hids. split; cbn [fst snd new_server remote_ local_ active_ server_stop_]; try done.
  - rewrite length_replicate, length_map. by split_and!.
  - apply StronglySorted_merge_sort; apply _.
  - rewrite merge_sort_Permutation, <-Hids. unfold ids, views. clear. 
    replace (zip_with _ _ _) with assignments; [done|]. induction assignments as [|users l IH]; [done|].
    simpl. f_equal; [|exact IH]. unfold view. simpl. by rewrite app_nil_r.
Qed.

(** C35: local threads scan the active accounts.  As long as there is no remote
    connection, and from a division of the accounts among the threads that leaves
    none out, whatever checks, looks into queues and scanning happen in whatever
    order, with whatever database at each check, the server does not fail; and
    right after a check the threads together have or will have each active account
    of the database once, and no others.  Neither condition can be dropped:
    with connections accounts are left over ([left_over_account_is_lost]), and the
    division the program starts with can leave accounts out
    ([Workload.one_thread_drops_unsynced]). *)
Theorem server_tracks_active assignments active0 balance events d :
  (0 < length assignments)%nat → Z.of_nat (length assignments) <= u64_max →
  ids (concat assignments) ≡ₚ active0 →
  (∀ d', Check_users (Some d') ∈ events → countable_accounts d') → countable_accounts d →
  let start := (new_server (replicate (length assignments) new_queue) active0 balance, map Busy assignments) in
  ∃ s workers,
    fold_err (local_step address_string) start (events ++ [Check_users (Some d)]) = Ok (s, workers) ∧
    length (local_ s) = length workers ∧
    active_ s = map acc_id (get_accounts_of active d) ∧
    ids (concat (views (local_ s) workers)) ≡ₚ map acc_id (get_accounts_of active d).
Proof.
  intros Hpos Hmax Hids Hevents Hd start.
  destruct (local_steps_ok events start) as ([s ws] & Hrun & Hok); [by apply new_server_ok|done|].
  destruct (check_local_ok address_string d s ws Hok Hd) as (s' & Hcheck & Hok' & Hactive).
  exists s', ws. rewrite fold_err_app, Hrun. cbn [mbind expect_bind fold_err local_step fst snd].
  rewrite Hcheck. split; [done|]. destruct Hok' as [_ _ (_ & Hl & _) _ Hassigned]. cbn [fst snd] in *.
  split; [done|]. split; [done|]. by rewrite Hassigned, Hactive.
Qed.

(** What a replacement does when there are threads.  It succeeds; connections
    that are gone are forgotten and every other is sent one command; local
    queues, commands and what is lost make up the active accounts.  Fewer
    accounts are lost than the greatest number of threads of a connection: none
    if all have one.  A connection without threads is sent no account. *)
Theorem replace_users_exact d s workers :
  let left := List.filter locks (remote_ s) in
  let total := (length (local_ s) + sum_threads left)%nat in
  (0 < total)%nat → Z.of_nat total <= u64_max → countable_accounts d → length (local_ s) = length workers →
  ∃ s' parts lost,
    do_replace_users address_string (Some d) s = Ok s' ∧
    active_ s' = map acc_id (get_accounts_of active d) ∧ next_thread_ s' = 0%nat ∧
    remote_ s' = zip_with told left parts ∧ length parts = length left ∧
    Forall2 (λ r part, threads_ r = 0%nat → part = []) left parts ∧
    concat (views (local_ s') workers) ++ concat parts ++ lost ≡ₚ
      map (load address_string d) (get_accounts_of active d) ∧
    (length lost < Nat.max 1 (max_threads left))%nat.
Proof.
  intros left total Hpos Hmax Hd Hlen.
  destruct (do_replace_users_ok address_string d s workers Hpos Hmax Hd Hlen) as
    (s' & parts & lost & Hrun & Hactive & Hnext & _ & _ & Hremote & Hplen & Hnone & Hall & Hlost).
  exists s', (map (map (load address_string d)) parts), (map (load address_string d) lost).
  split_and!; try done; rewrite ?length_map; try done.
  - clear -Hnone. induction Hnone as [|r part rs ps Hr Hnone IH]; simpl; constructor; [|done].
    intros Hz. by rewrite (Hr Hz).
  - by rewrite <-concat_map, <-map_app.
Qed.
End server_theorems.

(** C36: accounts are sent only to those who know the password.  In every state the
    server reaches, a connection that was sent an account gave, itself, a password
    whose hash is that of the server. *)
Theorem accounts_need_password `{L : Lmdb} address_string crypto_pwhash s0 given s r c :
  remote_ s0 = [] → server_reachable (L := L) address_string crypto_pwhash s0 given s →
  r ∈ remote_ s → c ∈ sent r → command_users c ≠ [] →
  ∃ pass, (conn_id r, pass) ∈ given ∧ crypto_pwhash pass = Some (pass_hashed_ s0).
Proof.
  intros Hstart Hreach. cut (pass_hashed_ s = pass_hashed_ s0 ∧ ∀ r, r ∈ remote_ s → cleared crypto_pwhash s0 given r).
  { intros [_ Hall] Hr Hc Husers. destruct (Hall r Hr) as [Hzero Hpass]. apply Hpass. intros Hz.
    specialize (Hzero Hz). rewrite Forall_forall in Hzero. by apply Husers, Hzero. }
  clear r c. induction Hreach as [|given id s Hreach [Hhash IH] _ Hid _|given s label s' Hreach [Hhash IH] Hstep].
  - split; [done|]. rewrite Hstart. by intros r ?%elem_of_nil.
  - split; [done|]. intros r Hr. cbn in Hr. apply elem_of_insert_at in Hr as [->|Hr]; [|by apply IH].
    split; [by constructor|done].
  - destruct (server_step_cleared address_string crypto_pwhash s0 given s label s' Hhash IH Hstep) as [Hhash' Hall].
    split; [by rewrite Hhash'|done].
Qed.

(** ** Witnesses *)

Definition server_account (id height : Z) : account :=
  {| acc_id := id; acc_access := 0; acc_address := AccountAddress id id; acc_key := id;
     acc_scan_height := height; acc_start_height := 0; acc_creation := 0; acc_flags := 0;
     acc_lookahead := AddressIndex 0 0; acc_lookahead_fail := 0 |}.

(** A database with the active accounts [ids]. *)
Definition server_db (ids : list Z) : db ListDb.lmdb :=
  foldl (λ d id, put accounts active (server_account id (10 * id)) d) empty_db ids.

Definition no_address (_ : account_address) : string := "".

(** Two threads have accounts 1 to 3; then 2 goes and 4 comes, while threads look and scan. *)
Lemma server_tracks_active_witness :
  let events := [Thread_looks 0; Thread_scanned 1 35; Check_users (Some (server_db [1; 3])); Thread_looks 1] in
  let assignments := assign_by_count 2 (map (load no_address (server_db [1; 2; 3])) (get_accounts_of active (server_db [1; 2; 3]))) in
  ∃ s workers,
    fold_err (local_step no_address)
      (new_server (replicate (length assignments) new_queue) [3; 1; 2] true, map Busy assignments)
      (events ++ [Check_users (Some (server_db [1; 3; 4]))]) = Ok (s, workers) ∧
    length (local_ s) = length workers ∧ active_ s = [1; 3; 4] ∧
    ids (concat (views (local_ s) workers)) ≡ₚ [1; 3; 4].
Proof.
  intros events assignments.
  apply (server_tracks_active no_address assignments [3; 1; 2] true events (server_db [1; 3; 4])).
  - vm_compute. lia.
  - vm_compute. discriminate.
  - assert (ids (concat assignments) = [3; 1; 2]) as -> by (vm_compute; reflexivity). done.
  - intros d' Hd. unfold events in Hd. rewrite !elem_of_cons in Hd.
    destruct Hd as [Hd|[Hd|[Hd|[Hd|Hd]]]]; try discriminate Hd; [|by apply elem_of_nil in Hd].
    injection Hd as ->. vm_compute. discriminate.
  - vm_compute. discriminate.
Defined.

Definition server_remote (id threads : nat) : remote := Remote id true threads [].

(** Of five accounts, a connection with two threads gets four. *)
Lemma replace_users_exact_witness :
  let s := Server [server_remote 1 2; Remote 2 false 3 []; server_remote 3 0] [] [] 1 0 false false in
  ∃ s' parts lost,
    do_replace_users no_address (Some (server_db [1; 2; 3; 4; 5])) s = Ok s' ∧
    active_ s' = [1; 2; 3; 4; 5] ∧ next_thread_ s' = 0%nat ∧
    remote_ s' = zip_with told [server_remote 1 2; server_remote 3 0] parts ∧ length parts = 2%nat ∧
    concat (views (local_ s') []) ++ concat parts ++ lost ≡ₚ
      map (load no_address (server_db [1; 2; 3; 4; 5])) (get_accounts_of active (server_db [1; 2; 3; 4; 5])) ∧
    (length lost < 2)%nat.
Proof.
  intros s. destruct (replace_users_exact no_address (server_db [1; 2; 3; 4; 5]) s []) as
    (s' & parts & lost & Hrun & Hactive & Hnext & Hremote & Hlen & _ & Hall & Hlost).
  - vm_compute. lia.
  - vm_compute. discriminate.
  - vm_compute. discriminate.
  - reflexivity.
  - exists s', parts, lost. split; [exact Hrun|]. split; [exact Hactive|]. split; [exact Hnext|].
    split; [exact Hremote|]. split; [exact Hlen|]. split; [exact Hall|exact Hlost].
Defined.

Definition test_pwhash (pass : string) : option Z := Some (Z.of_nat (String.length pass)).

(** A connection is accepted, gives the password and is sent the accounts. *)
Lemma accounts_need_password_witness :
  let s0 := Server [] [] [] 0 6 false false in
  ∃ s r c, r ∈ remote_ s ∧ c ∈ sent r ∧ command_users c ≠ [] ∧
    ∃ pass, (conn_id r, pass) ∈ [(7%nat, "secret"%string)] ∧ test_pwhash pass = Some 6.
Proof.
  intros s0. pose (s1 := accept 7 s0).
  pose (s2 := set_remote [Remote 7 true 1 []] s1).
  pose (c := Replace_accounts [load no_address (server_db [1]) (server_account 1 10)]).
  pose (s3 := Server [Remote 7 true 1 [c]] [] [1] 0 6 false false).
  assert (do_replace_users no_address (Some (server_db [1])) s2 = Ok s3) as E by (vm_compute; reflexivity).
  assert (server_reachable (L := ListDb.lmdb) no_address test_pwhash s0 [(7%nat, "secret"%string)] s3) as Hreach.
  { apply (reachable_step _ _ s0 [(7%nat, "secret"%string)] s2 None).
    - apply (reachable_step _ _ s0 [] s1 (Some (7%nat, "secret"%string))).
      + apply reachable_accept; [constructor|reflexivity|apply not_elem_of_nil|apply not_elem_of_nil].
      + apply (step_initialize _ _ 0 (Remote 7 true 0 []) (Messages.Initialize "secret" 1) true (Remote 7 true 1 []));
          reflexivity.
    - by apply (step_replace _ _ (Some (server_db [1]))). }
  exists s3, (Remote 7 true 1 [c]), c. split; [left|]. split; [left|]. split; [discriminate|].
  apply (accounts_need_password (L := ListDb.lmdb) no_address test_pwhash s0 [(7%nat, "secret"%string)] s3
    (Remote 7 true 1 [c]) c eq_refl Hreach); [left|left|discriminate].
Defined.

(** ** What goes wrong *)

(** The accounts left over are listed as active all the same, so that the checks
    that follow do not find them: the third account is on no thread. *)
Lemma left_over_account_is_lost :
  let s := Server [server_remote 1 2] [] [] 0 0 false false in
  let d := server_db [1; 2; 3] in
  (s ← do_replace_users no_address (Some d) s; s ← check_users no_address (Some d) s;
   Ok (active_ s, map (map (map account_id ∘ command_users) ∘ sent) (remote_ s))) =
  Ok ([1; 2; 3], [[[3; 2]]]).
Proof. vm_compute. reflexivity. Qed.

(** Two new accounts for a connection with two threads: [erase] of one iterator
    leaves an account that was moved from, which cannot be sent. *)
Lemma erase_leaves_moved_account :
  check_users no_address (Some (server_db [1; 2])) (Server [server_remote 1 2] [] [] 0 0 false false) =
  Err invalid_argument.
Proof. vm_compute. reflexivity. Qed.

(** With a local thread after it, that account is pushed to the queue of the thread. *)
Lemma moved_account_reaches_queue :
  (s ← check_users no_address (Some (server_db [1; 2])) (Server [server_remote 1 2] [new_queue] [] 1 0 false false);
   Ok (map (map account_id ∘ push_) (local_ s))) = Ok [[account_id_invalid]].
Proof. vm_compute. reflexivity. Qed.

(** A connection that did not initialise can be the next in turn: no account is
    erased then, but the end of the vector. *)
Lemma uninitialised_remote_is_chosen :
  check_users no_address (Some (server_db [1])) (Server [server_remote 1 0; server_remote 2 1] [] [] 0 0 false false) =
  Err undefined_behaviour.
Proof. vm_compute. reflexivity. Qed.

(** Results are taken from a connection that never gave the password. *)
Lemma update_needs_no_password user :
  update_accounts_handler (server_remote 1 0) (Messages.UpdateAccounts [user] []) = (true, Some ([user], [])).
Proof. reflexivity. Qed.
