(* ===== verification/Scan.v ===== *)
(** * Matching transactions with accounts (src/src/scanner.cpp, util/transactions.cpp)

    [scan_transaction_base] looks through a transaction for every account of a
    thread: its inputs for rings with an output the account has, its outputs for
    keys derived from the view key of the account.  What is found goes to the
    account ([scan_transaction]), or for the pool of transactions to webhooks
    ([scan_pool_transaction]).

    The cryptography of Monero and its parser of the extra field are the
    parameters [ScanCrypto].  Reading from the database is a snapshot, taken again
    after the lookahead of a matched subaddress has added some; starting a read
    transaction is assumed to succeed.

    Shown is that, without subaddresses and without an encrypted payment id, scanning
    a transaction is a map over the accounts, each result given by a comprehension over inputs and outputs
    ([scan_transaction_spec]); that with them an account gets only what derives
    to it ([scan_transaction_owned]); and what is wrong with payment ids. *)

From S2P Require Import Prelude Lmdb Data Compare Tables Chain Subaddress Accounts Account Webhooks.

(** ** Transactions, as cryptonote has them *)

Inductive tx_input : Type :=
  | Txin_gen
  | Txin_to_key (amount : Z) (key_offsets : list Z) (k_image : Z)
  | Txin_other.

(** [out_target] is what [get_output_public_key] and [get_output_view_tag] find. *)
Record tx_output := TxOutput { out_amount : Z; out_target : option Z; out_view_tag : option Z }.

Record transaction := Transaction {
  tx_version : Z;
  tx_unlock_time : Z;
  tx_vin : list tx_input;
  tx_vout : list tx_output;
  tx_extra : list Z;
  tx_rct_type : Z;
  tx_out_pk : list Z;
  tx_ecdh_info : list (Z * Z)
}.

(** Monero's functions; numbers stand for keys, scalars and derivations. *)
Class ScanCrypto : Type := {
  find_extra_pub_key : list Z → option Z;
  find_extra_nonce : list Z → option (list Z);
  find_extra_additional : list Z → list Z;
  get_payment_id_from_tx_extra_nonce : list Z → option (list Z);
  get_encrypted_payment_id_from_tx_extra_nonce : list Z → option (list Z);
  generate_key_derivation : Z → Z → option Z;
  derive_subaddress_public_key : Z → Z → nat → option Z;
  out_can_be_to_acc : option Z → Z → nat → bool;
  derivation_to_scalar : Z → nat → Z;
  ecdhDecode : Z * Z → Z → bool → Z * Z;
  addKeys2 : Z → Z → Z;
  h2d : Z → Z;
  rct_identity : Z;
  RCTTypeBulletproof2 : Z;
  cn_fast_hash : list Z → list Z;
  HASH_KEY_ENCRYPTED_PAYMENT_ID : Z;
  get_transaction_prefix_hash : transaction → Z;
  get_tx_fee : transaction → Z
}.

Section transactions.
Context `{K : ScanCrypto}.

(** [lws::decrypt_payment_id] *)
Definition decrypt_payment_id (out : list Z) (key : Z) : list Z :=
  zip_with Z.lxor out (cn_fast_hash (key_bytes key ++ [HASH_KEY_ENCRYPTED_PAYMENT_ID])).

(** [lws::decode_amount]: [copy] is the mask and the amount. *)
Definition decode_amount (commitment : Z) (info : Z * Z) (sk : Z) (index : nat) (bulletproof2 : bool) :
    option (Z * Z) :=
  let scalar := derivation_to_scalar sk index in
  let copy := ecdhDecode info scalar bulletproof2 in
  if commitment =? addKeys2 copy.1 copy.2 then Some (h2d copy.2, copy.1) else None.
End transactions.

(** ** [scan_transaction_base] *)

Section scan.
Context `{L : Lmdb} `{CC : Crypto} `{K : ScanCrypto}.
Implicit Types d : db L.

(** [subaddress_reader]; [rd_disk] says whether there is a database. *)
Record subaddress_reader := SubaddressReader {
  rd_reader : option (db L);
  rd_disk : bool;
  rd_max_subaddresses : Z
}.

Definition update_reader d (r : subaddress_reader) : subaddress_reader :=
  SubaddressReader (if rd_disk r then Some d else rd_reader r) (rd_disk r) (rd_max_subaddresses r).

Definition new_subaddress_reader d (disk : bool) (max_subaddresses : Z) : subaddress_reader :=
  let r := SubaddressReader None disk max_subaddresses in
  if max_subaddresses =? 0 then r else update_reader d r.

(** [update_lookahead] of the scanner: a failed update is only logged. *)
Definition update_lookahead (user : lws_account) (r : subaddress_reader) (matched : address_index)
    (height : Z) d : expect (subaddress_reader * db L) :=
  if is_zero matched then Ok (r, d)
  else if negb (rd_disk r) then Err runtime_error
  else
    address ← db_address user;
    match Accounts.update_lookahead address height matched (rd_max_subaddresses r) d with
    | Ok (upserted, d) => Ok (if 0 <? upserted then update_reader d r else r, d)
    | Err _ => Ok (r, d)
    end.

(** What is done with a spend and an output that was found; [W] is what the
    actions change besides the account. *)
Record actions (W : Type) := Actions {
  spend_action : lws_account → spend → W → lws_account * W;
  output_action : option (db L) → lws_account → output → W → expect (bool * lws_account * W)
}.
Arguments spend_action {W} _.
Arguments output_action {W} _.

(** What is known of the transaction before the accounts are looked at. *)
Record tx_context := TxContext {
  cx_height : Z;
  cx_timestamp : Z;
  cx_tx_hash : Z;
  cx_tx : transaction;
  cx_out_ids : list Z;
  cx_pub_key : Z;
  cx_nonce : option (list Z);
  cx_additional : list Z
}.

(** [payment_id]: the length, and the 32 bytes of the union. *)
Definition payment_id : Type := Z * list Z.

(** The variables of the function that outlive the loop over the accounts. *)
Record scan_state (W : Type) := ScanState {
  sc_payment_id : payment_id;
  sc_derivations : list Z;
  sc_reader : subaddress_reader;
  sc_disk : db L;
  sc_world : W
}.
Arguments ScanState {W} _ _ _ _ _.
Arguments sc_payment_id {W} _.
Arguments sc_derivations {W} _.
Arguments sc_reader {W} _.
Arguments sc_disk {W} _.
Arguments sc_world {W} _.

Section base.
Context {W : Type} (act : actions W) (cx : tx_context).
Implicit Types st : scan_state W.

Definition with_payment_id (p : payment_id) st : scan_state W :=
  ScanState p (sc_derivations st) (sc_reader st) (sc_disk st) (sc_world st).
Definition with_derivations (l : list Z) st : scan_state W :=
  ScanState (sc_payment_id st) l (sc_reader st) (sc_disk st) (sc_world st).
Definition with_reader (r : subaddress_reader) d st : scan_state W :=
  ScanState (sc_payment_id st) (sc_derivations st) r d (sc_world st).
Definition with_world (w : W) st : scan_state W :=
  ScanState (sc_payment_id st) (sc_derivations st) (sc_reader st) (sc_disk st) w.

(** The derivations of the additional keys, or none when one of them fails. *)
Definition additional_derivations (view_key : Z) : list Z :=
  default [] (mapM (λ key, generate_key_derivation key view_key) (cx_additional cx)).

Definition ring_spend (payment : payment_id) (amount goffset image mixin : Z) (subaccount : address_index) : spend :=
  {| s_link := TransactionLink (cx_height cx) (cx_tx_hash cx); s_image := image;
     s_source := OutputId amount goffset; s_timestamp := cx_timestamp cx;
     s_unlock_time := tx_unlock_time (cx_tx cx); s_mixin_count := mixin; s_length := payment.1;
     s_payment_id := payment.2; s_sender := subaccount |}.

(** The loop over the offsets of a ring. *)
Fixpoint scan_ring (payment : payment_id) (amount image mixin goffset : Z) (offsets : list Z)
    (uw : lws_account * W) : lws_account * W :=
  match offsets with
  | [] => uw
  | offset :: offsets =>
    let goffset := wrap 64 (goffset + offset) in
    let uw :=
      match get_spendable (OutputId amount goffset) uw.1 with
      | None => uw
      | Some subaccount => spend_action act uw.1 (ring_spend payment amount goffset image mixin subaccount) uw.2
      end in
    scan_ring payment amount image mixin goffset offsets uw
  end.

Definition ring_mixin (offsets : list Z) : Z := Z.max 1 (Z.of_nat (length offsets)) - 1.

(** The loop over the inputs: also the last mixin, and the flag of a coinbase.  The
    cast of the mixin to 32 bits throws. *)
Fixpoint scan_inputs (payment : payment_id) (vin : list tx_input) (mixin ext : Z) (uw : lws_account * W) :
    expect (Z * Z * (lws_account * W)) :=
  match vin with
  | [] => Ok (mixin, ext, uw)
  | Txin_to_key amount offsets image :: vin =>
    let mixin := ring_mixin offsets in
    _ ← guard_err (mixin <=? u32_max) runtime_error;
    scan_inputs payment vin mixin ext (scan_ring payment amount image mixin 0 offsets uw)
  | Txin_gen :: vin => scan_inputs payment vin mixin (Z.lor ext coinbase_output) uw
  | Txin_other :: vin => scan_inputs payment vin mixin ext uw
  end.

(** The derivations to try, with the keys they are of. *)
Definition attempts (derived : Z) (derivations : list Z) (index : nat) : expect (list (Z * Z)) :=
  match derivations with
  | [] => Ok [(derived, cx_pub_key cx)]
  | _ =>
    more ← of_option logic_error (derivations !! index);
    key ← of_option logic_error (cx_additional cx !! index);
    Ok [(derived, cx_pub_key cx); (more, key)]
  end.

(** The inspection loop: the derivation and the key that match, and the address. *)
Fixpoint find_owner (user : lws_account) (out_pub : Z) (index : nat) (tries : list (Z * Z)) st :
    expect (option (Z * Z * address_index) * scan_state W) :=
  match tries with
  | [] => Ok (None, st)
  | (derived, pub) :: tries =>
    match derive_subaddress_public_key out_pub derived index with
    | None => find_owner user out_pub index tries st
    | Some derived_pub =>
      keys ← db_address user;
      if spend_public keys =? derived_pub then Ok (Some (derived, pub, AddressIndex 0 0), st)
      else
        match rd_reader (sc_reader st) with
        | None => find_owner user out_pub index tries st
        | Some snapshot =>
          match find_subaddress (account_id user) derived_pub snapshot with
          | Err _ => find_owner user out_pub index tries st
          | Ok matched =>
            '(r, d) ← update_lookahead user (sc_reader st) matched (cx_height cx) (sc_disk st);
            Ok (Some (derived, pub, matched), with_reader r d st)
          end
        end
    end
  end.

(** Amount, mask and flags of an output; [None] when it cannot be decrypted. *)
Definition output_amount (out : tx_output) (index : nat) (derived ext : Z) : expect (option (Z * Z * Z)) :=
  let tx := cx_tx cx in
  if (out_amount out =? 0) && (Z.land ext coinbase_output =? 0) && (1 <? tx_version tx) then
    commitment ← of_option logic_error (tx_out_pk tx !! index);
    info ← of_option logic_error (tx_ecdh_info tx !! index);
    Ok (match decode_amount commitment info derived index (RCTTypeBulletproof2 <=? tx_rct_type tx) with
        | None => None
        | Some (amount, mask) => Some (amount, mask, Z.lor ext ringct_output)
        end)
  else Ok (Some (out_amount out, rct_identity, if 1 <? tx_version tx then Z.lor ext ringct_output else ext)).

(** The short payment id is taken from the nonce, and decrypted, once. *)
Definition short_payment (derived : Z) (payment : payment_id) : payment_id :=
  match cx_nonce cx with
  | None => payment
  | Some nonce =>
    if payment.1 =? 0 then
      match get_encrypted_payment_id_from_tx_extra_nonce nonce with
      | None => payment
      | Some short => (8, decrypt_payment_id short derived ++ drop 8 payment.2)
      end
    else payment
  end.

Definition found_output (payment : payment_id) (out : tx_output) (out_pub id : Z) (index : nat) (pub amount mask mixin ext : Z)
    (recipient : address_index) : output :=
  let tx := cx_tx cx in
  {| o_link := TransactionLink (cx_height cx) (cx_tx_hash cx);
     o_spend_meta :=
       {| sme_id := OutputId (if tx_version tx <? 2 then out_amount out else 0) id; sme_amount := amount;
          sme_mixin_count := mixin; sme_index := Z.of_nat index; sme_tx_public := pub |};
     o_timestamp := cx_timestamp cx; o_unlock_time := tx_unlock_time tx;
     o_tx_prefix_hash := get_transaction_prefix_hash tx; o_pub := out_pub; o_ringct_mask := mask;
     o_extra := pack ext payment.1; o_payment_id := payment.2; o_fee := get_tx_fee tx; o_recipient := recipient |}.

(** One output: the flags go on to the next. *)
Definition scan_output (derived mixin : Z) (out : tx_output) (index : nat) (ext : Z) (user : lws_account) st :
    expect (Z * lws_account * scan_state W) :=
  match out_target out with
  | None => Ok (ext, user, st)
  | Some out_pub =>
    additional ← match sc_derivations st with
      | [] => Ok false
      | _ => more ← of_option logic_error (sc_derivations st !! index);
             Ok (out_can_be_to_acc (out_view_tag out) more index)
      end;
    if negb (additional || out_can_be_to_acc (out_view_tag out) derived index) then Ok (ext, user, st)
    else
      tries ← attempts derived (sc_derivations st) index;
      '(owner, st) ← find_owner user out_pub index tries st;
      match owner with
      | None => Ok (ext, user, st)
      | Some (active_derived, active_pub, recipient) =>
        decoded ← output_amount out index active_derived ext;
        match decoded with
        | None => Ok (ext, user, st)
        | Some (amount, mask, ext) =>
          let payment := short_payment active_derived (sc_payment_id st) in
          id ← of_option logic_error (cx_out_ids cx !! index);
          '(_, user, w) ← output_action act (rd_reader (sc_reader st)) user
            (found_output payment out out_pub id index active_pub amount mask mixin ext recipient) (sc_world st);
          Ok (ext, user, with_world w (with_payment_id payment st))
        end
      end
  end.

Fixpoint scan_outputs (derived mixin : Z) (vout : list tx_output) (index : nat) (ext : Z) (user : lws_account) st :
    expect (lws_account * scan_state W) :=
  match vout with
  | [] => Ok (user, st)
  | out :: vout =>
    '(ext, user, st) ← scan_output derived mixin out index ext user st;
    scan_outputs derived mixin vout (S index) ext user st
  end.

(** One account. *)
Definition scan_user (user : lws_account) st : expect (lws_account * scan_state W) :=
  if cx_height cx <=? scan_height user then Ok (user, st)
  else
    keys ← null_check user;
    match generate_key_derivation (cx_pub_key cx) (in_view_key keys) with
    | None => Ok (user, st)
    | Some derived =>
      let st :=
        match rd_reader (sc_reader st) with
        | Some _ =>
          if bool_decide (length (cx_additional cx) = length (tx_vout (cx_tx cx)))
          then with_derivations (additional_derivations (in_view_key keys)) st else st
        | None => st
        end in
      '(mixin, ext, (user, w)) ← scan_inputs (sc_payment_id st) (tx_vin (cx_tx cx)) 0 0 (user, sc_world st);
      scan_outputs derived mixin (tx_vout (cx_tx cx)) 0 ext user (with_world w st)
    end.

Fixpoint scan_users (users : list lws_account) st : expect (list lws_account * scan_state W) :=
  match users with
  | [] => Ok ([], st)
  | user :: users =>
    '(user, st) ← scan_user user st;
    '(users, st) ← scan_users users st;
    Ok (user :: users, st)
  end.
End base.

(** The payment id before the accounts are looked at. *)
Definition initial_payment_id (nonce : option (list Z)) : payment_id :=
  match nonce with
  | Some nonce => match get_payment_id_from_tx_extra_nonce nonce with
                  | Some long => (32, long) | None => (0, replicate 32 0) end
  | None => (0, replicate 32 0)
  end.

(** What the function finds before it looks at the accounts. *)
Definition transaction_context (height timestamp tx_hash : Z) (tx : transaction) (out_ids : list Z) (pub_key : Z)
    (reader : subaddress_reader) : tx_context :=
  TxContext height timestamp tx_hash tx out_ids pub_key (find_extra_nonce (tx_extra tx))
    (match rd_reader reader with Some _ => find_extra_additional (tx_extra tx) | None => [] end).

(** [scan_transaction_base] *)
Definition scan_transaction_base {W} (act : actions W) (users : list lws_account)
    (height timestamp tx_hash : Z) (tx : transaction) (out_ids : list Z) (reader : subaddress_reader) d (w : W) :
    expect (list lws_account * subaddress_reader * db L * W) :=
  _ ← guard_err (tx_version tx <=? 2) runtime_error;
  match find_extra_pub_key (tx_extra tx) with
  | None => Ok (users, reader, d, w)
  | Some pub_key =>
    let cx := transaction_context height timestamp tx_hash tx out_ids pub_key reader in
    '(users, st) ← scan_users act cx users (ScanState (initial_payment_id (cx_nonce cx)) [] reader d w);
    Ok (users, sc_reader st, sc_disk st, sc_world st)
  end.

(** [add_spend] and [add_output] *)
Definition store_actions : actions unit :=
  Actions unit (λ user s w, (add_spend s user, w))
    (λ _ user out w, let '(added, user) := add_out out user in Ok (added, user, w)).

(** [scan_transaction] *)
Definition scan_transaction (users : list lws_account) (height timestamp tx_hash : Z) (tx : transaction)
    (out_ids : list Z) (reader : subaddress_reader) d : expect (list lws_account * subaddress_reader * db L) :=
  '(users, reader, d, _) ← scan_transaction_base store_actions users height timestamp tx_hash tx out_ids reader d tt;
  Ok (users, reader, d).
End scan.
Arguments subaddress_reader : clear implicits.
Arguments subaddress_reader {L}.
Arguments Actions {L W} _ _.
Arguments spend_action {L W} _.
Arguments output_action {L W} _.
Arguments ScanState {L W} _ _ _ _ _.
Arguments sc_payment_id {L W} _.
Arguments sc_derivations {L W} _.
Arguments sc_reader {L W} _.
Arguments sc_disk {L W} _.
Arguments sc_world {L W} _.

(** ** The pool of transactions *)

Section pool.
Context `{L : Lmdb} `{CC : Crypto} `{K : ScanCrypto}.
Implicit Types d : db L.

(** [send_webhook]: the hashes of the pool by their prefix hashes, once fetched,
    and the events that were sent. *)
Record send_webhook := SendWebhook { sw_txpool : list (Z * Z); sw_sent : list webhook_tx_confirmation }.

(** [GetTransactionPool]: what the daemon answers; [Err] when the answer cannot be
    parsed, [Ok None] when there is none. *)
Context (get_transaction_pool : expect (option (list (Z * Z)))).

(** [txpool_.find], of the first entry with the prefix hash. *)
Definition find_pool_hash (prefix : Z) (pool : list (Z * Z)) : option Z :=
  snd <$> List.find (λ p, p.1 =? prefix) pool.

Definition with_tx_hash (hash : Z) (o : output) : output :=
  {| o_link := TransactionLink (tl_height (o_link o)) hash; o_spend_meta := o_spend_meta o;
     o_timestamp := o_timestamp o; o_unlock_time := o_unlock_time o; o_tx_prefix_hash := o_tx_prefix_hash o;
     o_pub := o_pub o; o_ringct_mask := o_ringct_mask o; o_extra := o_extra o; o_payment_id := o_payment_id o;
     o_fee := o_fee o; o_recipient := o_recipient o |}.

Definition webhook_bytes (o : output) : Z := le_combine (take 8 (o_payment_id o)).

(** [send_webhook::operator()]: [d] is the database without a reader. *)
Definition pool_output d (reader : option (db L)) (user : lws_account) (out : output) (sw : send_webhook) :
    expect (bool * lws_account * send_webhook) :=
  let key := WebhookKey (account_id user) tx_confirmation in
  let hooks := find_webhook key (webhook_bytes out) (default d reader) in
  let send sw :=
    let events := omap (λ hook : webhook_value,
      (λ hash, WebhookTxConfirmation key (hook.1, WebhookData (wd_url hook.2) (wd_token hook.2) 0) (with_tx_hash hash out)) <$>
        find_pool_hash (o_tx_prefix_hash out) (sw_txpool sw)) hooks in
    Ok (true, user, SendWebhook (sw_txpool sw) (sw_sent sw ++ events)) in
  match hooks, sw_txpool sw with
  | _ :: _, [] =>
    pool ← get_transaction_pool;
    match pool with
    | None => Ok (false, user, sw)
    | Some pool => send (SendWebhook pool (sw_sent sw))
    end
  | _, _ => send sw
  end.

Definition pool_actions d : actions send_webhook := Actions (λ user _ sw, (user, sw)) (pool_output d).

(** The loop of [scan_transactions]; [block_id::txpool] is above all heights. *)
Fixpoint scan_pool (users : list lws_account) (time : Z) (txes : list transaction) (reader : subaddress_reader) d
    (sw : send_webhook) : expect (list lws_account * subaddress_reader * db L * send_webhook) :=
  match txes with
  | [] => Ok (users, reader, d, sw)
  | tx :: txes =>
    '(users, reader, d, sw) ← scan_transaction_base (pool_actions d) users block_id_txpool time 0 tx
      (replicate 256 u64_max) reader d sw;
    scan_pool users time txes reader d sw
  end.

(** [scan_transactions], of a message that was parsed. *)
Definition scan_transactions (users : list lws_account) (time : Z) (txes : list transaction) (max_subaddresses : Z) d :
    expect (list lws_account * subaddress_reader * db L * send_webhook) :=
  scan_pool users time txes (new_subaddress_reader d true max_subaddresses) d (SendWebhook [] []).
End pool.

(** ** What is expected without subaddresses *)

Section spec.
Context `{L : Lmdb} `{CC : Crypto} `{K : ScanCrypto}.
Context (cx : tx_context) (payment : payment_id).
Local Notation tx := (cx_tx cx).

(** The global indexes of a ring: sums of its offsets. *)
Definition global_offsets (offsets : list Z) : list Z :=
  imap (λ i _, wrap 64 (foldr Z.add 0 (take (S i) offsets))) offsets.

(** Every member of a ring that the account has is a spend. *)
Definition input_spends (user : lws_account) (vin : tx_input) : list spend :=
  match vin with
  | Txin_to_key amount offsets image =>
    omap (λ g, ring_spend cx payment amount g image (ring_mixin offsets) <$>
      get_spendable (OutputId amount g) user) (global_offsets offsets)
  | _ => []
  end.

Definition last_mixin (vin : list tx_input) (mixin : Z) : Z :=
  foldl (λ m i, match i with Txin_to_key _ offsets _ => ring_mixin offsets | _ => m end) mixin vin.

Definition coinbase_flag (vin : list tx_input) : Z :=
  if existsb (λ i, match i with Txin_gen => true | _ => false end) vin then coinbase_output else 0.

Definition output_flags : Z :=
  if 1 <? tx_version tx then Z.lor (coinbase_flag (tx_vin tx)) ringct_output else coinbase_flag (tx_vin tx).

(** The amount of an output is hidden in version 2, unless it is mined. *)
Definition plain_amount (out : tx_output) : bool :=
  negb ((out_amount out =? 0) && (coinbase_flag (tx_vin tx) =? 0) && (1 <? tx_version tx)).

Definition expected_amount (derived : Z) (index : nat) (out : tx_output) : option (Z * Z) :=
  if plain_amount out then Some (out_amount out, rct_identity)
  else decode_amount (tx_out_pk tx !!! index) (tx_ecdh_info tx !!! index) derived index
         (RCTTypeBulletproof2 <=? tx_rct_type tx).

(** An output that derives to the spend key of the account, and can be decoded. *)
Definition expected_output (derived spend_key : Z) (index : nat) (out : tx_output) : option output :=
  match out_target out with
  | None => None
  | Some target =>
    if negb (out_can_be_to_acc (out_view_tag out) derived index) then None
    else
      match derive_subaddress_public_key target derived index, expected_amount derived index out with
      | Some derived_pub, Some (amount, mask) =>
        if spend_key =? derived_pub then
          Some (found_output cx payment out target (cx_out_ids cx !!! index) index (cx_pub_key cx) amount mask
            (last_mixin (tx_vin tx) 0) output_flags (AddressIndex 0 0))
        else None
      | _, _ => None
      end
  end.

Definition expected_outputs (derived spend_key : Z) : list output :=
  omap (λ p, expected_output derived spend_key p.1 p.2) (imap (λ i o, (i, o)) (tx_vout tx)).

(** An account after the transaction. *)
Definition scanned_user (user : lws_account) : lws_account :=
  if cx_height cx <=? scan_height user then user
  else
    match la_immutable user with
    | None => user
    | Some keys =>
      match generate_key_derivation (cx_pub_key cx) (in_view_key keys) with
      | None => user
      | Some derived =>
        foldl (λ u o, (add_out o u).2)
          (foldl (λ u s, add_spend s u) user (tx_vin tx ≫= input_spends user))
          (expected_outputs derived (spend_public (in_pubs keys)))
      end
    end.

(** What a valid transaction and the daemon's answer to it have. *)
Record well_formed : Prop := {
  wf_version : tx_version tx <= 2;
  wf_out_ids : (length (tx_vout tx) <= length (cx_out_ids cx))%nat;
  wf_rct : 1 < tx_version tx →
    (length (tx_vout tx) <= length (tx_out_pk tx))%nat ∧ (length (tx_vout tx) <= length (tx_ecdh_info tx))%nat;
  wf_rings : ∀ amount offsets image, Txin_to_key amount offsets image ∈ tx_vin tx →
    Z.of_nat (length offsets) <= u32_max
}.

(** No payment id has to be decrypted. *)
Definition no_encrypted_payment_id : Prop :=
  match cx_nonce cx with
  | None => True
  | Some nonce => payment.1 ≠ 0 ∨ get_encrypted_payment_id_from_tx_extra_nonce nonce = None
  end.
End spec.

(** ** Lemmas *)

Definition add_spends_to (user : lws_account) (l : list spend) : lws_account := foldl (λ u s, add_spend s u) user l.
Definition add_outs_to (user : lws_account) (l : list output) : lws_account := foldl (λ u o, (add_out o u).2) user l.

Section spec_lemmas.
Context `{L : Lmdb} `{CC : Crypto} `{K : ScanCrypto}.
Context (cx : tx_context) (payment : payment_id).
Implicit Types d : db L.
Local Notation tx := (cx_tx cx).

Definition offsets_from (g : Z) (offsets : list Z) : list Z :=
  imap (λ i _, wrap 64 (g + foldr Z.add 0 (take (S i) offsets))) offsets.

Lemma offsets_from_cons g offset offsets :
  offsets_from g (offset :: offsets) = wrap 64 (g + offset) :: offsets_from (wrap 64 (g + offset)) offsets.
Proof.
  unfold offsets_from. cbn [imap]. f_equal; [simpl; f_equal; lia|]. apply imap_ext. intros i x _. cbn [take foldr compose].
  unfold wrap. rewrite Zplus_mod_idemp_l. f_equal. lia.
Qed.

Lemma global_offsets_from offsets : global_offsets offsets = offsets_from 0 offsets.
Proof. reflexivity. Qed.

Lemma get_spendable_same id u u' : la_spendable u' = la_spendable u → get_spendable id u' = get_spendable id u.
Proof. unfold get_spendable. by intros ->. Qed.

Lemma add_spends_spendable l u : la_spendable (add_spends_to u l) = la_spendable u.
Proof. revert u. induction l as [|s l IH]; intros u; [done|]. simpl. by rewrite IH. Qed.

Lemma add_spends_app u l1 l2 : add_spends_to u (l1 ++ l2) = add_spends_to (add_spends_to u l1) l2.
Proof. apply foldl_app. Qed.

Lemma scan_ring_spec amount image mixin g offsets u u' w :
  la_spendable u' = la_spendable u →
  scan_ring store_actions cx payment amount image mixin g offsets (u', w) =
    (add_spends_to u' (omap (λ g, ring_spend cx payment amount g image mixin <$> get_spendable (OutputId amount g) u)
       (offsets_from g offsets)), w).
Proof.
  revert g u'. induction offsets as [|offset offsets IH]; intros g u' Hu; [done|].
  cbn [scan_ring fst snd]. rewrite offsets_from_cons. cbn [omap list_omap].
  rewrite (get_spendable_same _ u u' Hu).
  destruct (get_spendable (OutputId amount (wrap 64 (g + offset))) u) as [sub|]; cbn [fmap option_fmap option_map].
  - cbn [store_actions spend_action]. rewrite IH by done. done.
  - by rewrite IH.
Qed.

Lemma coinbase_flag_cases vin : coinbase_flag vin = 0 ∨ coinbase_flag vin = coinbase_output.
Proof. unfold coinbase_flag. case_match; auto. Qed.

Lemma ring_mixin_le offsets : Z.of_nat (length offsets) <= u32_max → ring_mixin offsets <= u32_max.
Proof. unfold ring_mixin, u32_max. lia. Qed.

Lemma scan_inputs_spec vin mixin ext u u' w :
  (∀ amount offsets image, Txin_to_key amount offsets image ∈ vin → Z.of_nat (length offsets) <= u32_max) →
  la_spendable u' = la_spendable u →
  scan_inputs store_actions cx payment vin mixin ext (u', w) =
    Ok (last_mixin vin mixin, Z.lor ext (coinbase_flag vin),
        (add_spends_to u' (vin ≫= input_spends cx payment u), w)).
Proof.
  revert mixin ext u'. induction vin as [|i vin IH]; intros mixin ext u' Hrings Hu.
  { simpl. unfold coinbase_flag. simpl. by rewrite Z.lor_0_r. }
  assert (∀ a o m, Txin_to_key a o m ∈ vin → Z.of_nat (length o) <= u32_max) as Hrings'
    by (intros a o m Hin; eapply Hrings; by right).
  destruct i as [|amount offsets image|]; cbn [scan_inputs].
  - rewrite IH by done. change (coinbase_flag (Txin_gen :: vin)) with coinbase_output. do 2 f_equal. f_equal.
    destruct (coinbase_flag_cases vin) as [-> | ->]; [by rewrite Z.lor_0_r|by rewrite <-Z.lor_assoc, Z.lor_diag].
  - assert (ring_mixin offsets <= u32_max) as Hmixin by (apply ring_mixin_le; eapply Hrings; by left).
    apply Z.leb_le in Hmixin. rewrite bind_cons, add_spends_app, Hmixin.
    etrans; [|apply (IH (ring_mixin offsets)); [done|by rewrite add_spends_spendable]].
    cbn [guard_err]. rewrite (scan_ring_spec _ _ _ _ _ u) by done. reflexivity.
  - by rewrite IH.
Qed.

(** The flags up to an output. *)
Definition flags_before (ext : Z) : Prop :=
  ext = coinbase_flag (tx_vin tx) ∨ ext = output_flags cx.

Lemma flags_coinbase ext :
  flags_before ext → (Z.land ext coinbase_output =? 0) = (coinbase_flag (tx_vin tx) =? 0).
Proof.
  unfold flags_before, output_flags. destruct (coinbase_flag_cases (tx_vin tx)) as [-> | ->];
    destruct (1 <? tx_version tx); intros [->| ->]; reflexivity.
Qed.

Lemma flags_after ext :
  flags_before ext → (if 1 <? tx_version tx then Z.lor ext ringct_output else ext) = output_flags cx.
Proof.
  unfold flags_before, output_flags. destruct (1 <? tx_version tx); intros [->| ->]; try done.
  by rewrite <-Z.lor_assoc, Z.lor_diag.
Qed.

Lemma output_amount_spec out index derived ext :
  well_formed cx → (index < length (tx_vout tx))%nat → flags_before ext →
  output_amount cx out index derived ext =
    Ok ((λ am : Z * Z, (am, output_flags cx)) <$> expected_amount cx derived index out).
Proof.
  intros [_ _ Hrct _] Hindex Hext. unfold output_amount, expected_amount, plain_amount. 
  rewrite (flags_coinbase ext Hext), <-(flags_after ext Hext).
  destruct (out_amount out =? 0), (coinbase_flag (tx_vin tx) =? 0); cbn [andb negb]; try done.
  destruct (Z.ltb_spec 1 (tx_version tx)) as [Hv|]; cbn [negb]; [|done].
  destruct (Hrct Hv) as [Hpk Hecdh].
  destruct (lookup_lt_is_Some_2 (tx_out_pk tx) index) as [commitment Hc]; [lia|].
  destruct (lookup_lt_is_Some_2 (tx_ecdh_info tx) index) as [info Hi]; [lia|].
  rewrite (list_lookup_total_correct _ _ _ Hc), (list_lookup_total_correct _ _ _ Hi), Hc, Hi.
  cbn [of_option mbind expect_bind]. by destruct (decode_amount _ _ _ _ _) as [[amount mask]|].
Qed.

Lemma short_payment_plain derived : no_encrypted_payment_id cx payment → short_payment cx derived payment = payment.
Proof.
  unfold no_encrypted_payment_id, short_payment.
  destruct (cx_nonce cx); [|done]. intros [Hne|Hno].
  - by destruct (Z.eqb_spec payment.1 0).
  - destruct (payment.1 =? 0); [|done]. by rewrite Hno.
Qed.

Lemma scan_output_spec derived keys out index ext user (r : subaddress_reader) d w :
  well_formed cx → no_encrypted_payment_id cx payment → (index < length (tx_vout tx))%nat →
  rd_reader r = None → la_immutable user = Some keys → flags_before ext →
  let expected := expected_output cx payment derived
    (spend_public (in_pubs keys)) index out in
  ∃ ext', flags_before ext' ∧
    scan_output store_actions cx derived (last_mixin (tx_vin tx) 0) out index ext user (ScanState payment [] r d w) =
      Ok (ext', match expected with Some o => (add_out o user).2 | None => user end, ScanState payment [] r d w).
Proof.
  intros Hwf Hplain Hindex Hr Hkeys Hext expected. unfold expected, expected_output, scan_output.
  destruct (out_target out) as [target|]; [|by exists ext].
  cbn [sc_derivations mbind expect_bind orb].
  destruct (out_can_be_to_acc (out_view_tag out) derived index); cbn [negb]; [|by exists ext].
  cbn [attempts find_owner mbind expect_bind sc_reader].
  destruct (derive_subaddress_public_key target derived index) as [derived_pub|]; [|by exists ext].
  unfold db_address, null_check. rewrite Hkeys. cbn [of_option fmap expect_fmap mbind expect_bind].
  destruct (Z.eqb_spec (spend_public (in_pubs keys)) derived_pub).
  2: { rewrite Hr. exists ext. split; [done|]. by destruct (expected_amount _ _ _ _) as [[amount mask]|]. }
  cbn [mbind expect_bind]. rewrite (output_amount_spec _ _ _ _ Hwf Hindex Hext). cbn [mbind expect_bind].
  destruct (expected_amount cx derived index out) as [[amount mask]|]; cbn [fmap option_fmap option_map];
    [|by exists ext].
  exists (output_flags cx). split; [by right|]. cbn [sc_payment_id]. rewrite short_payment_plain by done.
  destruct (lookup_lt_is_Some_2 (cx_out_ids cx) index) as [id Hid]; [destruct Hwf; lia|].
  rewrite Hid, (list_lookup_total_correct _ _ _ Hid). cbn [of_option mbind expect_bind].
  cbn [store_actions output_action sc_world]. set (o := found_output _ _ _ _ _ _ _ _ _ _ _ _).
  by destruct (add_out o user) as [added user'].
Qed.

Lemma add_out_immutable o u : la_immutable (add_out o u).2 = la_immutable u.
Proof. unfold add_out. by destruct (match _ with Some _ => _ | None => _ end). Qed.

Lemma scan_outputs_spec derived keys vout index ext user (r : subaddress_reader) d w :
  well_formed cx → no_encrypted_payment_id cx payment → vout = drop index (tx_vout tx) →
  rd_reader r = None → la_immutable user = Some keys → flags_before ext →
  scan_outputs store_actions cx derived (last_mixin (tx_vin tx) 0) vout index ext user (ScanState payment [] r d w) =
    Ok (add_outs_to user (omap (λ p, expected_output cx payment derived
          (spend_public (in_pubs keys)) p.1 p.2) (imap (λ i o, ((index + i)%nat, o)) vout)), ScanState payment [] r d w).
Proof.
  intros Hwf Hplain. revert index ext user. induction vout as [|out vout IH]; intros index ext user Hvout Hr Hkeys Hext; [done|].
  assert (index < length (tx_vout tx))%nat as Hindex.
  { apply (f_equal length) in Hvout. rewrite length_drop in Hvout. simpl in Hvout. lia. }
  assert (vout = drop (S index) (tx_vout tx)) as Hvout' by (by rewrite <-Nat.add_1_r, <-drop_drop, <-Hvout).
  destruct (scan_output_spec derived keys out index ext user r d w Hwf Hplain Hindex Hr Hkeys Hext) as (ext' & Hext' & Hrun).
  cbn [scan_outputs]. rewrite Hrun. cbn [mbind expect_bind]. rewrite IH; [|done|done| |done].
  - cbn [imap omap list_omap fst snd]. rewrite Nat.add_0_r.
    rewrite (imap_ext ((λ i o, ((index + i)%nat, o)) ∘ S) (λ i o, ((S index + i)%nat, o))).
    + by destruct (expected_output _ _ _ _ _ _).
    + intros i o _. unfold compose. f_equal. lia.
  - destruct (expected_output _ _ _ _ _ _); [|done]. by rewrite add_out_immutable.
Qed.

Lemma add_spends_immutable l u : la_immutable (add_spends_to u l) = la_immutable u.
Proof. revert u. induction l as [|s l IH]; intros u; [done|]. simpl. by rewrite IH. Qed.

Lemma scan_user_spec user (r : subaddress_reader) d :
  well_formed cx → no_encrypted_payment_id cx payment → rd_reader r = None →
  (scan_height user < cx_height cx → la_immutable user ≠ None) →
  scan_user store_actions cx user (ScanState payment [] r d tt) =
    Ok (scanned_user cx payment user, ScanState payment [] r d tt).
Proof.
  intros Hwf Hplain Hr Hkeys. unfold scan_user, scanned_user. 
  destruct (Z.leb_spec (cx_height cx) (scan_height user)) as [|Hlt]; [done|]. specialize (Hkeys Hlt).
  unfold null_check. destruct (la_immutable user) as [keys|] eqn:Ekeys; [|done].
  cbn [of_option mbind expect_bind].
  destruct (generate_key_derivation (cx_pub_key cx) (in_view_key keys)) as [derived|]; [|done].
  cbn [sc_reader]. rewrite Hr. cbn [sc_payment_id sc_world].
  rewrite (scan_inputs_spec _ _ _ user user); [|by destruct Hwf|done].
  cbn [mbind expect_bind with_world sc_payment_id sc_derivations sc_reader sc_disk].
  apply (scan_outputs_spec derived keys (tx_vout tx) 0); [done|done|by rewrite drop_0|done| |].
  - by rewrite add_spends_immutable.
  - left. apply Z.lor_0_l.
Qed.

Lemma scan_users_spec users (r : subaddress_reader) d :
  well_formed cx → no_encrypted_payment_id cx payment → rd_reader r = None →
  Forall (λ user, scan_height user < cx_height cx → la_immutable user ≠ None) users →
  scan_users store_actions cx users (ScanState payment [] r d tt) =
    Ok (map (scanned_user cx payment) users, ScanState payment [] r d tt).
Proof.
  intros Hwf Hplain Hr Hkeys. induction Hkeys as [|user users Huser Husers IH]; [done|].
  cbn [scan_users]. rewrite scan_user_spec by done. cbn [mbind expect_bind]. by rewrite IH.
Qed.
End spec_lemmas.

(** *** Subaddresses are only added *)

Section subaddresses_kept.
Context `{LL : LmdbLaws} `{CC : Crypto} `{K : ScanCrypto}.
Implicit Types d : db L.

Definition keeps_subaddresses d d' : Prop :=
  ∀ id e, e ∈ dups subaddress_indexes id d → e ∈ dups subaddress_indexes id d'.

#[export] Instance keeps_subaddresses_preorder : PreOrder keeps_subaddresses.
Proof. split; [by intros d id e|]. intros d1 d2 d3 H1 H2 id e He. by apply H2, H1. Qed.

Lemma touches_keeps T d d' : subaddress_indexes ∉ T → touches T d d' → keeps_subaddresses d d'.
Proof. intros HT Ht id e. by rewrite (Ht subaddress_indexes id HT). Qed.

Lemma put_indexes_keeps_all id address key major dict d :
  keeps_subaddresses d (put_indexes id address key major dict d).
Proof.
  intros id' e. unfold put_indexes. revert d. induction dict as [|r dict IH]; intros d He; [done|]. cbn [foldl].
  apply IH. clear IH. revert d He. induction (minors r) as [|m ms IH]; intros d He; cbn [foldl]; [done|].
  apply IH, (elem_of_put_skip subaddress_indexes). by left.
Qed.

Lemma write_major_keeps id address key major dict d d' :
  write_major id address key major dict d = Ok d' → keeps_subaddresses d d'.
Proof.
  unfold write_major. intros [-> _]%put_nodup_Ok. etrans; [apply (put_indexes_keeps_all id address key major dict)|].
  apply (touches_keeps [subaddress_ranges]); [set_solver|]. apply touches_put. set_solver.
Qed.

Lemma upsert_major_keeps id address key max entry count out d r d' :
  upsert_major id address key max entry count out d = (r, d') → keeps_subaddresses d d'.
Proof.
  unfold upsert_major. destruct (negb _); [by intros [= _ <-]|].
  assert (∀ v, keeps_subaddresses d (del subaddress_ranges id v d)) as Hdel.
  { intros v. apply (touches_keeps [subaddress_ranges]); [set_solver|]. apply touches_del. set_solver. }
  destruct (get_both _ _ _ _) as [old|].
  - destruct (merge_ranges _ _ _ _ _); [|intros [= _ <-]; apply Hdel].
    destruct (write_major _ _ _ _ _ _) eqn:E; intros [= _ <-]; [|apply Hdel].
    etrans; [apply (Hdel entry.1)|by eapply write_major_keeps].
  - destruct (check_max_ranges _ _ _); [|by intros [= _ <-]].
    destruct (write_major _ _ _ _ _ _) eqn:E; intros [= _ <-]; [|done]. by eapply write_major_keeps.
Qed.

Lemma do_upsert_keeps id address key max subaddrs d r d' :
  do_upsert id address key max subaddrs d = (r, d') → keeps_subaddresses d d'.
Proof.
  unfold do_upsert. destruct (max <? _); [by intros [= _ <-]|].
  generalize (Z.of_nat (length (dups subaddress_indexes id d))), (@nil subaddress_dict).
  revert d. induction subaddrs as [|entry subaddrs IH]; intros d count out; simpl; [by intros [= _ <-]|].
  destruct (upsert_major _ _ _ _ _ _ _ _) as [[[c o]|e] d1] eqn:E; apply upsert_major_keeps in E.
  - intros Hr%IH. by trans d1.
  - by intros [= _ <-].
Qed.

Lemma storage_lookahead_keeps address height matched max d r d' :
  Accounts.update_lookahead address height matched max d = Ok (r, d') → keeps_subaddresses d d'.
Proof.
  unfold Accounts.update_lookahead. intros (v & _ & (user & _ & Hrun)%expect_bind_ok)%expect_bind_ok.
  destruct (_ || _); [by injection Hrun as <- <-|].
  match type of Hrun with (let '(_, _) := ?x in _) = _ => destruct x as [upserted d1] eqn:E end.
  assert (keeps_subaddresses d d1) as Hd1.
  { destruct (_ && _); [by eapply do_upsert_keeps|by injection E as <- <-]. }
  destruct upserted as [out|e]; [by injection Hrun as <- <-|].
  apply expect_bind_ok in Hrun as (_ & _ & [= <- <-]). etrans; [exact Hd1|].
  unfold put_account. apply (touches_keeps [accounts]); [set_solver|]. apply touches_put. set_solver.
Qed.

Lemma find_subaddress_kept id pub index d d' :
  keeps_subaddresses d d' → find_subaddress id pub d = Ok index → find_subaddress id pub d' = Ok index.
Proof.
  intros Hk. unfold find_subaddress.
  destruct (get_both subaddress_indexes id pub d) as [e|] eqn:E; [|done]. intros [= <-].
  apply (get_both_Some subaddress_indexes) in E as [He Hpub].
  by rewrite (proj2 (get_both_Some subaddress_indexes id pub d' e) (conj (Hk id e He) Hpub)).
Qed.

(** The snapshot of a reader is no newer than the database. *)
Definition reader_behind (r : subaddress_reader) d : Prop :=
  match rd_reader r with None => True | Some snapshot => keeps_subaddresses snapshot d end.

Lemma scanner_lookahead_ok user (r r' : subaddress_reader) matched height d d' :
  update_lookahead user r matched height d = Ok (r', d') → reader_behind r d → is_Some (rd_reader r) →
  keeps_subaddresses d d' ∧ reader_behind r' d' ∧ is_Some (rd_reader r').
Proof.
  unfold update_lookahead. intros Hrun Hb Hr. destruct (is_zero matched); [by injection Hrun as <- <-|].
  destruct (negb (rd_disk r)); [done|]. apply expect_bind_ok in Hrun as (address & _ & Hrun).
  destruct (Accounts.update_lookahead _ _ _ _ _) as [[n d1]|e] eqn:E; [|by injection Hrun as <- <-].
  injection Hrun as <- <-. apply storage_lookahead_keeps in E as Hk. split; [exact Hk|].
  assert (reader_behind r d1) as Hb1.
  { revert Hb. unfold reader_behind. destruct (rd_reader r); [|done]. intros. by trans d. }
  destruct (0 <? n); [|done]. unfold reader_behind, update_reader. cbn [rd_reader].
  by destruct (rd_disk r).
Qed.
End subaddresses_kept.

(** *** What is found derives to the account *)

Section owned.
Context `{LL : LmdbLaws} `{CC : Crypto} `{K : ScanCrypto} (cx : tx_context).
Implicit Types d : db L.
Local Notation tx := (cx_tx cx).

(** The derived key is the spend key of the account, or of a subaddress it has. *)
Definition key_of (user : lws_account) (keys : internal) (pub : Z) (index : address_index) d : Prop :=
  (pub = spend_public (in_pubs keys) ∧ index = AddressIndex 0 0) ∨
  find_subaddress (account_id user) pub d = Ok index.

(** The derivations of the view key of the account, of the key of the transaction
    and of the additional ones. *)
Definition derivation_of (view_key : Z) (index : nat) (derived pub : Z) : Prop :=
  (pub = cx_pub_key cx ∨ cx_additional cx !! index = Some pub) ∧ generate_key_derivation pub view_key = Some derived.

(** The amount is not hidden, or it opens the commitment of the output. *)
Definition amount_of (out : tx_output) (index : nat) (amount mask : Z) : Prop :=
  amount = out_amount out ∨
  ∃ hidden commitment, tx_out_pk tx !! index = Some commitment ∧ commitment = addKeys2 mask hidden ∧ amount = h2d hidden.

Definition owned_output (user : lws_account) d (o : output) : Prop :=
  ∃ keys out index derived pub,
    la_immutable user = Some keys ∧ tx_vout tx !! index = Some out ∧ out_target out = Some (o_pub o) ∧
    sme_index (o_spend_meta o) = Z.of_nat index ∧ derivation_of (in_view_key keys) index derived (sme_tx_public (o_spend_meta o)) ∧
    derive_subaddress_public_key (o_pub o) derived index = Some pub ∧ key_of user keys pub (o_recipient o) d ∧
    amount_of out index (sme_amount (o_spend_meta o)) (o_ringct_mask o) ∧
    o_link o = TransactionLink (cx_height cx) (cx_tx_hash cx).

Definition owned_spend (user : lws_account) (s : spend) : Prop :=
  ∃ amount offsets, Txin_to_key amount offsets (s_image s) ∈ tx_vin tx ∧
    (∃ g, g ∈ global_offsets offsets ∧ s_source s = OutputId amount g) ∧
    get_spendable (s_source s) user = Some (s_sender s).

(** From [user] to [user'] only what the account owns was added. *)
Record only_owned d (user user' : lws_account) : Prop := {
  oo_keys : la_immutable user' = la_immutable user;
  oo_outputs : ∃ found, la_outputs user' = la_outputs user ++ found ∧ Forall (owned_output user d) found;
  oo_spends : ∃ spent, la_spends user' = la_spends user ++ spent ∧ Forall (owned_spend user) spent
}.

Lemma key_of_kept user keys pub index d d' :
  keeps_subaddresses d d' → key_of user keys pub index d → key_of user keys pub index d'.
Proof. intros Hk [?|Hf]; [by left|right]. by eapply find_subaddress_kept. Qed.

Lemma owned_output_kept user d d' o :
  keeps_subaddresses d d' → owned_output user d o → owned_output user d' o.
Proof.
  intros Hk (keys & out & index & derived & pub & ? & ? & ? & ? & ? & ? & Hkey & ? & ?).
  exists keys, out, index, derived, pub. split_and!; try done. by eapply key_of_kept.
Qed.

Lemma only_owned_kept d d' user user' :
  keeps_subaddresses d d' → only_owned d user user' → only_owned d' user user'.
Proof.
  intros Hk [H1 (found & H2 & Hf) H3]. split; [done| |done]. exists found. split; [done|].
  eapply Forall_impl; [exact Hf|]. intros o. by apply owned_output_kept.
Qed.

(** What scanning an output may change besides the account. *)
Record scan_step {W} (st st' : scan_state W) : Prop := {
  ss_snapshot : is_Some (rd_reader (sc_reader st)) ↔ is_Some (rd_reader (sc_reader st'));
  ss_kept : keeps_subaddresses (sc_disk st) (sc_disk st');
  ss_behind : reader_behind (sc_reader st) (sc_disk st) → reader_behind (sc_reader st') (sc_disk st');
  ss_derivations : sc_derivations st' = sc_derivations st
}.

#[export] Instance scan_step_preorder {W} : PreOrder (@scan_step W).
Proof.
  split; [by split|]. intros st1 st2 st3 [H1 H2 H3 H4] [H1' H2' H3' H4'].
  split; [by rewrite H1|by etrans|auto|by rewrite H4'].
Qed.

Lemma find_owner_ok {W} user out_pub index tries (st st' : scan_state W) owner :
  find_owner cx user out_pub index tries st = Ok (owner, st') → reader_behind (sc_reader st) (sc_disk st) →
  scan_step st st' ∧
  ∀ derived pub recipient, owner = Some (derived, pub, recipient) →
    (derived, pub) ∈ tries ∧
    ∃ keys derived_pub, la_immutable user = Some keys ∧
      derive_subaddress_public_key out_pub derived index = Some derived_pub ∧
      key_of user keys derived_pub recipient (sc_disk st').
Proof.
  intros Hrun Hb. induction tries as [|[derived pub] tries IH]; cbn [find_owner] in Hrun; [by simplify_eq|].
  assert (find_owner cx user out_pub index tries st = Ok (owner, st') → scan_step st st' ∧
    ∀ derived' pub' recipient, owner = Some (derived', pub', recipient) →
      (derived', pub') ∈ (derived, pub) :: tries ∧
      ∃ keys derived_pub, la_immutable user = Some keys ∧
        derive_subaddress_public_key out_pub derived' index = Some derived_pub ∧
        key_of user keys derived_pub recipient (sc_disk st')) as Hnext.
  { intros Hnext. destruct (IH Hnext) as [Hs Ho]. split; [done|]. intros a b c Hq.
    destruct (Ho a b c Hq) as [Hin Hex]. split; [by right|done]. }
  clear IH. destruct (derive_subaddress_public_key out_pub derived index) as [derived_pub|] eqn:Ed; [|by apply Hnext].
  apply expect_bind_ok in Hrun as (address & Ha & Hrun).
  unfold db_address, null_check in Ha. destruct (la_immutable user) as [keys|] eqn:Ekeys; [|done].
  injection Ha as <-. destruct (Z.eqb_spec (spend_public (in_pubs keys)) derived_pub) as [<-|].
  { injection Hrun as <- <-. split; [done|]. intros a b c [= <- <- <-]. split; [by left|].
    exists keys, (spend_public (in_pubs keys)). split_and!; [done|done|by left]. }
  destruct (rd_reader (sc_reader st)) as [snapshot|] eqn:Er; [|by apply Hnext].
  destruct (find_subaddress (account_id user) derived_pub snapshot) as [matched|] eqn:Ef; [|by apply Hnext].
  apply expect_bind_ok in Hrun as ([r d] & Hl & Hrun). injection Hrun as <- <-.
  destruct (scanner_lookahead_ok _ _ _ _ _ _ _ Hl Hb) as (Hk & Hb' & Hr'); [by rewrite Er|].
  split; [split; cbn [with_reader sc_reader sc_disk sc_derivations]; try done; by rewrite Er|].
  intros a b c [= <- <- <-]. split; [by left|]. exists keys, derived_pub. split_and!; [done|done|].
  right. cbn [with_reader sc_disk]. eapply find_subaddress_kept; [exact Hk|].
  unfold reader_behind in Hb. rewrite Er in Hb. by eapply find_subaddress_kept.
Qed.

Lemma output_amount_ok out index derived ext amount mask ext' :
  output_amount cx out index derived ext = Ok (Some (amount, mask, ext')) → amount_of out index amount mask.
Proof.
  unfold output_amount. destruct (_ && _); [|intros [= <- _ _]; by left].
  intros (commitment & Hc%of_option_ok & (info & _ & Hd)%expect_bind_ok)%expect_bind_ok.
  unfold decode_amount in Hd. destruct (Z.eqb_spec commitment (addKeys2 (ecdhDecode info (derivation_to_scalar derived index)
    (RCTTypeBulletproof2 <=? tx_rct_type tx)).1 (ecdhDecode info (derivation_to_scalar derived index)
    (RCTTypeBulletproof2 <=? tx_rct_type tx)).2)) as [Heq|]; [|done].
  injection Hd as <- <- _. right. eauto.
Qed.

(** The derivations kept are of the account. *)
Definition derivations_of {W} (keys : internal) (st : scan_state W) : Prop :=
  ∀ i derived, sc_derivations st !! i = Some derived →
    ∃ pub, cx_additional cx !! i = Some pub ∧ generate_key_derivation pub (in_view_key keys) = Some derived.

Lemma attempts_ok {W} keys derived index tries (st : scan_state W) :
  attempts cx derived (sc_derivations st) index = Ok tries → derivations_of keys st →
  generate_key_derivation (cx_pub_key cx) (in_view_key keys) = Some derived →
  ∀ derived' pub, (derived', pub) ∈ tries → derivation_of (in_view_key keys) index derived' pub.
Proof.
  unfold attempts. intros Hrun Hst Hder. destruct (sc_derivations st) as [|x l] eqn:E.
  { injection Hrun as <-. intros ? ? [= -> ->]%list_elem_of_singleton. split; [by left|done]. }
  apply expect_bind_ok in Hrun as (more & Hmore%of_option_ok & Hrun).
  apply expect_bind_ok in Hrun as (key & Hkey%of_option_ok & [= <-]).
  intros d' p [[= -> ->]|[= -> ->]%list_elem_of_singleton]%elem_of_cons; [split; [by left|done]|].
  rewrite <-E in Hmore. destruct (Hst _ _ Hmore) as (pub & Hpub & Hgen).
  assert (pub = key) as -> by congruence. split; [by right|done].
Qed.

Lemma owned_output_same user user' d o :
  la_immutable user = la_immutable user' → owned_output user d o → owned_output user' d o.
Proof.
  intros Hu (keys & out & index & derived & pub & Hk & ? & ? & ? & ? & ? & Hkey & ? & ?).
  exists keys, out, index, derived, pub. rewrite <-Hu. split_and!; try done.
  revert Hkey. unfold key_of, account_id. by rewrite Hu.
Qed.

(** From [user] to [user'] only outputs were added, which [user] owns. *)
Record more_outputs d (user user' : lws_account) : Prop := {
  mo_keys : la_immutable user' = la_immutable user;
  mo_spends : la_spends user' = la_spends user;
  mo_outputs : ∃ found, la_outputs user' = la_outputs user ++ found ∧ Forall (owned_output user d) found
}.

Lemma more_outputs_refl d user : more_outputs d user user.
Proof. split; [done|done|]. exists []. by rewrite app_nil_r. Qed.

Lemma more_outputs_trans d d' user user1 user2 :
  keeps_subaddresses d d' → more_outputs d user user1 → more_outputs d' user1 user2 → more_outputs d' user user2.
Proof.
  intros Hk [K1 S1 (f1 & O1 & F1)] [K2 S2 (f2 & O2 & F2)]. split; [congruence|congruence|].
  exists (f1 ++ f2). split; [by rewrite O2, O1, app_assoc|]. apply Forall_app. split.
  - eapply Forall_impl; [exact F1|]. intros o. by apply owned_output_kept.
  - eapply Forall_impl; [exact F2|]. intros o. by apply owned_output_same.
Qed.

Lemma add_out_more d user out :
  owned_output user d out → more_outputs d user (add_out out user).2.
Proof.
  intros Ho. unfold add_out. destruct (match _ with Some _ => _ | None => _ end); [apply more_outputs_refl|].
  split; [done|done|]. exists [out]. split; [done|]. by constructor.
Qed.

Lemma scan_output_ok keys derived mixin out index ext user (st : scan_state unit) ext' user' st' :
  scan_output store_actions cx derived mixin out index ext user st = Ok (ext', user', st') →
  tx_vout tx !! index = Some out → la_immutable user = Some keys →
  generate_key_derivation (cx_pub_key cx) (in_view_key keys) = Some derived →
  derivations_of keys st → reader_behind (sc_reader st) (sc_disk st) →
  scan_step st st' ∧ more_outputs (sc_disk st') user user'.
Proof.
  intros Hrun Hout Hkeys Hder Hst Hb. pose proof (more_outputs_refl (sc_disk st) user) as Hsame. unfold scan_output in Hrun.
  destruct (out_target out) as [target|] eqn:Et; [|by injection Hrun as <- <- <-].
  apply expect_bind_ok in Hrun as (additional & _ & Hrun).
  destruct (negb _); [by injection Hrun as <- <- <-|].
  apply expect_bind_ok in Hrun as (tries & Htries & Hrun). pose proof (attempts_ok _ _ _ _ _ Htries Hst Hder) as Htry.
  apply expect_bind_ok in Hrun as ([owner st1] & Howner & Hrun).
  destruct (find_owner_ok _ _ _ _ _ _ _ Howner Hb) as [Hstep Hfound].
  pose proof (more_outputs_refl (sc_disk st1) user) as Hsame1.
  destruct owner as [[[active pub] recipient]|]; [|by injection Hrun as <- <- <-].
  destruct (Hfound _ _ _ eq_refl) as (Hin & keys' & derived_pub & Hk' & Hpub & Hkey).
  assert (keys' = keys) as -> by congruence.
  apply expect_bind_ok in Hrun as (decoded & Hdecoded & Hrun).
  destruct decoded as [[[amount mask] ext1]|]; [|by injection Hrun as <- <- <-].
  apply expect_bind_ok in Hrun as (id & _ & Hrun). cbn [store_actions output_action] in Hrun.
  apply expect_bind_ok in Hrun as ([[added user1] w] & Hadd & Hrun).
  destruct (add_out _ user) as [added' user2] eqn:Eadd in Hadd. injection Hadd as <- <- <-. injection Hrun as <- <- <-.
  split; [by destruct Hstep|]. cbn [with_world with_payment_id sc_disk].
  replace user2 with (added', user2).2 by done. rewrite <-Eadd. apply add_out_more.
  exists keys, out, index, active, derived_pub. cbn [found_output o_pub o_spend_meta sme_index sme_tx_public o_recipient sme_amount o_ringct_mask o_link].
  split_and!; try done; [by apply Htry|by eapply output_amount_ok].
Qed.

Lemma derivations_kept {W} keys (st st' : scan_state W) : scan_step st st' → derivations_of keys st → derivations_of keys st'.
Proof. intros [_ _ _ Hd]. unfold derivations_of. by rewrite Hd. Qed.

Lemma scan_outputs_ok keys derived mixin vout index ext user (st : scan_state unit) user' st' :
  scan_outputs store_actions cx derived mixin vout index ext user st = Ok (user', st') →
  vout = drop index (tx_vout tx) → la_immutable user = Some keys →
  generate_key_derivation (cx_pub_key cx) (in_view_key keys) = Some derived →
  derivations_of keys st → reader_behind (sc_reader st) (sc_disk st) →
  scan_step st st' ∧ more_outputs (sc_disk st') user user'.
Proof.
  revert index ext user st. induction vout as [|out vout IH]; intros index ext user st Hrun Hvout Hkeys Hder Hst Hb;
    cbn [scan_outputs] in Hrun.
  { injection Hrun as <- <-. split; [done|apply more_outputs_refl]. }
  apply expect_bind_ok in Hrun as ([[ext1 user1] st1] & Hout & Hrun).
  apply scan_output_ok with (keys := keys) in Hout as [Hstep Hmore]; try done.
  2: { rewrite <-(Nat.add_0_r index), <-lookup_drop, <-Hvout. done. }
  destruct (IH (S index) ext1 user1 st1 Hrun) as [Hstep' Hmore'].
  - by rewrite <-Nat.add_1_r, <-drop_drop, <-Hvout.
  - by rewrite (mo_keys _ _ _ Hmore).
  - done.
  - by eapply derivations_kept.
  - by apply (ss_behind _ _ Hstep).
  - split; [by trans st1|]. eapply more_outputs_trans; [apply (ss_kept _ _ Hstep')|done|done].
Qed.

Lemma add_spends_fields l u :
  la_outputs (add_spends_to u l) = la_outputs u ∧ la_spends (add_spends_to u l) = la_spends u ++ l.
Proof.
  revert u. induction l as [|s l IH]; intros u; [by rewrite app_nil_r|].
  change (add_spends_to u (s :: l)) with (add_spends_to (add_spend s u) l).
  destruct (IH (add_spend s u)) as [-> ->]. cbn [add_spend la_spends la_outputs]. by rewrite <-app_assoc.
Qed.

Lemma ring_spends_owned user payment amount offsets image :
  Txin_to_key amount offsets image ∈ tx_vin tx →
  Forall (owned_spend user) (omap (λ g, ring_spend cx payment amount g image (ring_mixin offsets) <$>
    get_spendable (OutputId amount g) user) (global_offsets offsets)).
Proof.
  intros Hin. apply Forall_forall. intros s (g & Hg & Hs)%list_elem_of_omap.
  destruct (get_spendable _ _) as [index|] eqn:E; [|done]. injection Hs as <-. exists amount, offsets.
  cbn [ring_spend s_image s_source s_sender]. eauto.
Qed.

Lemma scan_inputs_ok payment vin mixin ext user u w mixin' ext' u' w' :
  scan_inputs store_actions cx payment vin mixin ext (u, w) = Ok (mixin', ext', (u', w')) →
  la_spendable u = la_spendable user → (∀ i, i ∈ vin → i ∈ tx_vin tx) →
  ∃ spent, u' = add_spends_to u spent ∧ Forall (owned_spend user) spent.
Proof.
  revert mixin ext u. induction vin as [|i vin IH]; intros mixin ext u Hrun Hu Hin.
  { injection Hrun as <- <- <- <-. by exists []. }
  assert (∀ j, j ∈ vin → j ∈ tx_vin tx) as Hin' by (intros j Hj; apply Hin; by right).
  destruct i as [|amount offsets image|]; cbn [scan_inputs] in Hrun; [by eapply IH| |by eapply IH].
  apply expect_bind_ok in Hrun as (_ & _ & Hrun). rewrite (scan_ring_spec _ _ _ _ _ _ _ user) in Hrun by done.
  rewrite <-global_offsets_from in Hrun. apply IH in Hrun as (spent & -> & Hspent); [| |done].
  - eexists. rewrite <-add_spends_app. split; [done|]. apply Forall_app. split; [|done].
    apply ring_spends_owned, Hin. by left.
  - by rewrite add_spends_spendable.
Qed.

Lemma additional_derivations_ok view_key i derived :
  additional_derivations cx view_key !! i = Some derived →
  ∃ pub, cx_additional cx !! i = Some pub ∧ generate_key_derivation pub view_key = Some derived.
Proof.
  unfold additional_derivations. destruct (mapM _ _) as [l|] eqn:E; [|done]. cbn [default]. intros Hl.
  apply mapM_Some in E. by destruct (Forall2_lookup_r _ _ _ _ _ E Hl) as (pub & Hp & Hg); eauto.
Qed.

(** Derivations are kept from one account to the next only to be replaced. *)
Definition derivations_fresh {W} (st : scan_state W) : Prop :=
  sc_derivations st ≠ [] →
  is_Some (rd_reader (sc_reader st)) ∧ length (cx_additional cx) = length (tx_vout tx).

Lemma scan_user_ok user (st : scan_state unit) user' st' :
  scan_user store_actions cx user st = Ok (user', st') →
  reader_behind (sc_reader st) (sc_disk st) → derivations_fresh st →
  keeps_subaddresses (sc_disk st) (sc_disk st') ∧ reader_behind (sc_reader st') (sc_disk st') ∧
  derivations_fresh st' ∧ only_owned (sc_disk st') user user'.
Proof.
  unfold scan_user. intros Hrun Hb Hfresh.
  assert (∀ d, only_owned d user user) as Hsame by (intros d; split; [done|exists []|exists []]; by rewrite app_nil_r).
  destruct (_ <=? _); [by injection Hrun as <- <-|].
  apply expect_bind_ok in Hrun as (keys & Hkeys%of_option_ok & Hrun).
  destruct (generate_key_derivation _ _) as [derived|] eqn:Ed; [|by injection Hrun as <- <-].
  set (st1 := match rd_reader (sc_reader st) with Some _ => _ | None => st end) in Hrun.
  assert (sc_reader st1 = sc_reader st ∧ sc_disk st1 = sc_disk st ∧ derivations_of keys st1 ∧ derivations_fresh st1)
    as (Hr1 & Hd1 & Hof & Hfresh1).
  { assert (sc_derivations st = [] → derivations_of keys st) as Hnil by (by intros Hn i derived'; rewrite Hn).
    assert (¬ (is_Some (rd_reader (sc_reader st)) ∧ length (cx_additional cx) = length (tx_vout tx)) →
      sc_derivations st = []) as Hnone.
    { intros Hno. destruct (decide (sc_derivations st = [])) as [|Hne]; [done|]. by destruct Hno, Hfresh. }
    subst st1. destruct (rd_reader (sc_reader st)) as [snapshot|] eqn:Er; [|split_and!; try done; apply Hnil, Hnone; by intros [[] _]].
    case_bool_decide as Hlen; [|split_and!; try done; apply Hnil, Hnone; by intros [_ ?]].
    split_and!; [done|done| |].
    - intros i derived' Hi. by apply additional_derivations_ok.
    - intros _. cbn [with_derivations sc_reader]. by rewrite Er. }
  apply expect_bind_ok in Hrun as ([[mixin ext] [u w]] & Hin & Hrun).
  destruct (scan_inputs_ok _ _ _ _ user _ _ _ _ _ _ Hin) as (spent & -> & Hspent); [done|done|].
  assert (la_immutable (add_spends_to user spent) = Some keys) as Hkeys' by (by rewrite add_spends_immutable).
  destruct (scan_outputs_ok _ _ _ _ _ _ _ _ _ _ Hrun eq_refl Hkeys' Ed) as [[Hs1 Hs2 Hs3 Hs4] [Hm1 Hm2 (found & Hm3 & Hf)]].
  { done. }
  { cbn [with_world sc_reader sc_disk]. by rewrite Hr1, Hd1. }
  cbn [with_world sc_reader sc_disk sc_derivations] in *. rewrite Hr1, Hd1 in *.
  destruct (add_spends_fields spent user) as [Hout Hsp].
  split_and!; [done|by apply Hs3| |].
  - intros Hne. rewrite Hs4 in Hne. rewrite <-Hs1, <-Hr1. by apply Hfresh1.
  - split; [by rewrite Hm1, add_spends_immutable|exists found|exists spent].
    + rewrite Hm3, Hout. split; [done|]. eapply Forall_impl; [exact Hf|]. intros o. apply owned_output_same, add_spends_immutable.
    + by rewrite Hm2, Hsp.
Qed.

Lemma scan_users_ok users (st : scan_state unit) users' st' :
  scan_users store_actions cx users st = Ok (users', st') →
  reader_behind (sc_reader st) (sc_disk st) → derivations_fresh st →
  keeps_subaddresses (sc_disk st) (sc_disk st') ∧ Forall2 (only_owned (sc_disk st')) users users'.
Proof.
  revert st users'. induction users as [|user users IH]; intros st users' Hrun Hb Hfresh; cbn [scan_users] in Hrun.
  { by injection Hrun as <- <-. }
  apply expect_bind_ok in Hrun as ([user1 st1] & Huser & Hrun).
  apply expect_bind_ok in Hrun as ([users1 st2] & Husers & Hrun). injection Hrun as <- <-.
  destruct (scan_user_ok _ _ _ _ Huser Hb Hfresh) as (Hk1 & Hb1 & Hf1 & Ho1).
  destruct (IH _ _ Husers Hb1 Hf1) as [Hk2 Ho2]. split; [by etrans|]. constructor; [|done].
  by eapply only_owned_kept.
Qed.
End owned.

(** ** Theorems *)

Section theorems.
Context `{LL : LmdbLaws} `{CC : Crypto} `{K : ScanCrypto}.
Implicit Types d : db L.

(** C34: without subaddresses, scanning a well-formed transaction (of version 2 at
    most, with an id and, in version 2, a commitment and an amount for each output)
    whose extra field has a public key and no encrypted payment id maps every
    account to itself with the expected spends (the members of rings the account
    has) and outputs (those that derive to its spend key and whose amount opens).
    With an encrypted payment id the accounts are not independent:
    [payment_id_of_first_account]. *)
Theorem scan_transaction_spec users height timestamp tx_hash tx out_ids pub_key (reader : subaddress_reader) d :
  let cx := transaction_context height timestamp tx_hash tx out_ids pub_key reader in
  let payment := initial_payment_id (cx_nonce cx) in
  find_extra_pub_key (tx_extra tx) = Some pub_key → rd_reader reader = None →
  well_formed cx → no_encrypted_payment_id cx payment →
  Forall (λ user, scan_height user < height → la_immutable user ≠ None) users →
  scan_transaction users height timestamp tx_hash tx out_ids reader d =
    Ok (map (scanned_user cx payment) users, reader, d).
Proof.
  intros cx payment Hkey Hr Hwf Hplain Husers. unfold scan_transaction, scan_transaction_base. rewrite Hkey.
  pose proof (wf_version _ Hwf) as Hv. apply Z.leb_le in Hv. unfold cx in Hv. cbn [cx_tx transaction_context] in Hv. rewrite Hv.
  cbn [guard_err mbind expect_bind]. fold cx. fold payment. by rewrite scan_users_spec.
Qed.

(** C33: whatever scanning a transaction adds to an account it owns: an output
    derives, with the key of the transaction or the additional key of its index, to
    the spend key or to a subaddress the database has, and its amount opens the
    commitment; a spend is of an output the account had. *)
Theorem scan_transaction_owned users height timestamp tx_hash tx out_ids pub_key (reader reader' : subaddress_reader) d users' d' :
  scan_transaction users height timestamp tx_hash tx out_ids reader d = Ok (users', reader', d') →
  find_extra_pub_key (tx_extra tx) = Some pub_key → reader_behind reader d →
  keeps_subaddresses d d' ∧
  Forall2 (only_owned (transaction_context height timestamp tx_hash tx out_ids pub_key reader) d') users users'.
Proof.
  unfold scan_transaction, scan_transaction_base. intros Hrun Hkey Hb.
  apply expect_bind_ok in Hrun as ([[[users1 reader1] d1] w] & Hbase & Hrun). injection Hrun as <- <- <-.
  apply expect_bind_ok in Hbase as (_ & _ & Hbase). rewrite Hkey in Hbase.
  apply expect_bind_ok in Hbase as ([users2 st] & Husers & Hbase). injection Hbase as <- <- <- _.
  by apply (scan_users_ok _ _ _ _ _ Husers).
Qed.
End theorems.

(** ** Witnesses *)

Fixpoint span_not (mark : Z) (l : list Z) : list Z * list Z :=
  match l with
  | [] => ([], [])
  | x :: l => if x =? mark then ([], l) else let '(a, b) := span_not mark l in (x :: a, b)
  end.

(** A stand-in for Monero's functions: points are sums, the extra field is the key,
    the nonce, a mark and the additional keys. *)
Definition toy_scan : ScanCrypto := {|
  find_extra_pub_key l := head l;
  find_extra_nonce l := match fst (span_not 999 (tail l)) with [] => None | n => Some n end;
  find_extra_additional l := snd (span_not 999 (tail l));
  get_payment_id_from_tx_extra_nonce l := match l with 0 :: id => Some id | _ => None end;
  get_encrypted_payment_id_from_tx_extra_nonce l := match l with 1 :: id => Some id | _ => None end;
  generate_key_derivation pub view := Some (pub + view);
  derive_subaddress_public_key out derived index := Some (out - derived - Z.of_nat index);
  out_can_be_to_acc tag derived index := match tag with Some t => t =? derived mod 256 | None => true end;
  derivation_to_scalar derived index := derived + Z.of_nat index;
  ecdhDecode info scalar short := (info.1 - scalar, info.2 - scalar);
  addKeys2 mask amount := mask + 1000 * amount;
  h2d := id;
  rct_identity := 1;
  RCTTypeBulletproof2 := 4;
  cn_fast_hash l := rev l;
  HASH_KEY_ENCRYPTED_PAYMENT_ID := 0x8d;
  get_transaction_prefix_hash tx := tx_unlock_time tx;
  get_tx_fee _ := 3
|}.
#[local] Existing Instance toy_scan.
#[local] Existing Instance test_crypto.

(** Two accounts with view keys 6 and 8; the first has the output 50. *)
Definition scanned_one : lws_account :=
  make_account (λ _, EmptyString) (test_account 1 6 4) [(OutputId 0 50, AddressIndex 0 0)] [].
Definition scanned_two : lws_account := make_account (λ _, EmptyString) (test_account 2 8 4) [] [].

(** A transaction with key 40, a ring with the output 50 and an output to each. *)
Definition scanned_tx (nonce : list Z) : transaction :=
  Transaction 2 77 [Txin_to_key 0 [20; 30; 5] 900] [TxOutput 0 (Some 62) (Some 46); TxOutput 0 (Some 67) None]
    (40 :: nonce) 5 [7005; 9005] [(51, 53); (54, 58)].

Definition no_reader : subaddress_reader (L := ListDb.lmdb) := SubaddressReader None true 0.

Lemma scan_transaction_spec_witness :
  (λ r, map (λ u, (o_spend_meta <$> la_outputs u, s_source <$> la_spends u)) r.1.1) <$>
    scan_transaction [scanned_one; scanned_two] 5 9 8 (scanned_tx []) [70; 71] no_reader account_db =
  Ok [([SpendMeta (OutputId 0 70) 7 2 0 40], [OutputId 0 50]); ([SpendMeta (OutputId 0 71) 9 2 1 40], [])].
Proof.
  rewrite (scan_transaction_spec [scanned_one; scanned_two] 5 9 8 (scanned_tx []) [70; 71] 40 no_reader account_db).
  - vm_compute. reflexivity.
  - reflexivity.
  - reflexivity.
  - split; cbn; [lia|lia|lia|]. intros amount offsets image [= -> -> ->]%list_elem_of_singleton. by vm_compute.
  - done.
  - by repeat constructor.
Defined.

(** The database with subaddresses of the first account, and an output to one. *)
Definition subaddress_db : db ListDb.lmdb := (do_upsert 1 (test_address 6) 6 100 [(0, [(0, 3)])] account_db).2.
Definition subaddress_tx : transaction :=
  Transaction 2 77 [] [TxOutput 0 (Some (get_spend_public (AddressIndex 0 2) (test_address 6) 6 + 46)) (Some 46)]
    [40] 5 [7005] [(51, 53)].
Definition subaddress_scan : expect (list lws_account * subaddress_reader * db ListDb.lmdb) :=
  scan_transaction [scanned_one] 5 9 8 subaddress_tx [70] (new_subaddress_reader subaddress_db true 100) subaddress_db.

Lemma scan_transaction_owned_witness :
  match subaddress_scan with
  | Ok ([user], _, d) =>
    o_recipient <$> la_outputs user = [AddressIndex 0 2] ∧
    only_owned (transaction_context 5 9 8 subaddress_tx [70] 40 (new_subaddress_reader subaddress_db true 100)) d
      scanned_one user
  | _ => False
  end.
Proof.
  destruct subaddress_scan as [[[users r] d]|e] eqn:E; [|vm_compute in E; discriminate E].
  destruct (scan_transaction_owned _ _ _ _ _ _ 40 _ _ _ _ _ E) as [_ Hown].
  - reflexivity.
  - by intros id e.
  - destruct users as [|user [|? ?]]; [by apply Forall2_length in Hown| |by apply Forall2_length in Hown].
    split; [|by inversion Hown]. revert E. vm_compute. by intros [= <- _ _].
Defined.

(** ** The payment id is decrypted once

    An encrypted payment id is decrypted with the derivation of the first account
    an output matches, and what comes out is recorded for the outputs of all the
    accounts that follow: a recipient whose payment comes from an account of the
    same thread, which finds its change first, gets a payment id that is garbled. *)
Definition encrypted_nonce : list Z := 1 :: decrypt_payment_id [1; 2; 3; 4; 5; 6; 7; 8] 48.

Definition payment_id_found (users : list lws_account) : expect (list (list (list Z))) :=
  (λ r, map (λ u, (λ o, take 8 (o_payment_id o)) <$> la_outputs u) r.1.1) <$>
    scan_transaction users 5 9 8 (scanned_tx encrypted_nonce) [70; 71] no_reader account_db.

Lemma payment_id_of_first_account :
  payment_id_found [scanned_two] = Ok [[[1; 2; 3; 4; 5; 6; 7; 8]]] ∧
  (∃ garbled, payment_id_found [scanned_one; scanned_two] = Ok [[garbled]; [garbled]] ∧
     garbled ≠ [1; 2; 3; 4; 5; 6; 7; 8]).
Proof.
  split; [vm_compute; reflexivity|]. eexists. split; [vm_compute; reflexivity|discriminate].
Qed.
