(* ===== verification/Decoys.v ===== *)
(** * Selecting decoys (src/src/util/gamma_picker.cpp, src/src/util/random_outputs.cpp)

    For a transaction to be signed the server offers outputs of others, whose keys
    it fetches from the daemon.  [gamma_picker] chooses among the outputs of RingCT
    by age, [triangular_pick] among those of an amount, and [pick_random_outputs]
    fills rings of distinct unlocked outputs, in at most 64 requests.

    A [double] is a [spec_float] of the Standard Library with 53 bits, so that the
    conversions, roots and products are those of IEEE 754.  The random source of
    Monero, and [std::exp] of the gamma distribution drawn from it, is the
    parameter [Random]; the daemon's answer is an argument.

    Shown is that what is picked is in range ([gamma_picker_range]), that rings are
    as documented ([pick_random_outputs_rings]), and two defects. *)

From Stdlib Require Import SpecFloat.
From S2P Require Import Prelude.

(** ** [double] *)

Definition double_of_Z (z : Z) : spec_float := binary_normalize 53 1024 z 0 false.
Definition double_mul : spec_float → spec_float → spec_float := SFmul 53 1024.
Definition double_div : spec_float → spec_float → spec_float := SFdiv 53 1024.
Definition double_sub : spec_float → spec_float → spec_float := SFsub 53 1024.
Definition double_sqrt : spec_float → spec_float := SFsqrt 53 1024.

(** The conversion to [std::uint64_t] truncates; outside of its range it is
    undefined. *)
Definition u64_of_double (x : spec_float) : expect Z :=
  match x with
  | S754_zero _ => Ok 0
  | S754_finite s m e =>
    let z := Z.shiftl (Zpos m) e in
    if z =? 0 then Ok 0 else if s || (u64_max <? z) then Err undefined_behaviour else Ok z
  | _ => Err undefined_behaviour
  end.

(** ** The random source *)

Class Random : Type := {
  rng : Type;
  gamma_exp : rng → spec_float * rng;
  rand_idx : Z → rng → Z * rng;
  rand : rng → Z * rng
}.

Class RandomLaws (R : Random) : Prop := {
  rand_idx_range n s : 0 < n → 0 <= (rand_idx n s).1 < n;
  rand_range s : 0 <= (rand s).1 <= u64_max
}.

(** ** [gamma_picker] *)

Definition spendable_age : nat := 10.
Definition blocks_in_a_year : nat := Z.to_nat (86400 * 365 / DIFFICULTY_TARGET_V2).
Definition default_unlock_time : Z := Z.of_nat spendable_age * DIFFICULTY_TARGET_V2.
Definition recent_spend_window : Z := 15 * DIFFICULTY_TARGET_V2.

Record gamma_picker := GammaPicker { rct_offsets : list Z; outputs_per_second : spec_float }.

Definition make_gamma_picker (offsets_in : list Z) : gamma_picker :=
  match last offsets_in with
  | None => GammaPicker offsets_in (S754_zero false)
  | Some back =>
    let blocks_to_consider := (length offsets_in `min` blocks_in_a_year)%nat in
    let initial :=
      if (blocks_to_consider <? length offsets_in)%nat
      then nth (length offsets_in - blocks_to_consider - 1) offsets_in 0 else 0 in
    let outputs_to_consider := wrap 64 (back - initial) in
    GammaPicker offsets_in
      (double_div (double_of_Z outputs_to_consider)
         (double_of_Z (DIFFICULTY_TARGET_V2 * Z.of_nat blocks_to_consider)))
  end.

Definition is_valid (g : gamma_picker) : bool := (spendable_age - 1 <? length (rct_offsets g))%nat.

Definition spendable_upper_bound (g : gamma_picker) : Z :=
  if is_valid g then nth (length (rct_offsets g) - spendable_age) (rct_offsets g) 0 else 0.

Section picking.
Context `{R : Random}.
Implicit Types s : rng.

(** The age of the output, in seconds. *)
Definition output_age s : spec_float * rng :=
  let '(age, s) := gamma_exp s in
  if SFltb (double_of_Z default_unlock_time) age
  then (double_sub age (double_of_Z default_unlock_time), s)
  else let '(age, s) := rand_idx recent_spend_window s in (double_of_Z age, s).

(** One round of [operator()]; [None] when another is needed. *)
Definition gamma_try (g : gamma_picker) s : expect (option Z * rng) :=
  let offsets := take (length (rct_offsets g) - spendable_age + 1) (rct_offsets g) in
  let num_rct_outputs := spendable_upper_bound g in
  let '(age, s) := output_age s in
  output_index ← u64_of_double (double_mul age (outputs_per_second g));
  if num_rct_outputs <=? output_index then Ok (None, s)
  else
    let output_index := num_rct_outputs - 1 - output_index in
    let selection := lower_bound (λ o, o <? output_index) offsets in
    match offsets !! selection with
    | None => Err logic_error
    | Some offset =>
      let first_rct := match selection with O => 0 | S before => nth before offsets 0 end in
      let n_rct := wrap 64 (offset - first_rct) in
      if n_rct =? 0 then Ok (None, s)
      else let '(i, s) := rand_idx n_rct s in Ok (Some (wrap 64 (first_rct + i)), s)
    end.

Fixpoint gamma_tries (tries : nat) (g : gamma_picker) s : expect (Z * rng) :=
  match tries with
  | O => Err runtime_error
  | S tries =>
    '(picked, s) ← gamma_try g s;
    match picked with Some i => Ok (i, s) | None => gamma_tries tries g s end
  end.

(** [gamma_picker::operator()] *)
Definition gamma_pick_one (g : gamma_picker) s : expect (Z * rng) :=
  if negb (is_valid g) then Err logic_error else gamma_tries 100 g s.

(** ** Picking for a ring *)

Record output_ref := OutputRef { or_amount : Z; or_index : Z }.
Record histogram := Histogram { h_amount : Z; h_total_count : Z; h_unlocked_count : Z }.

Definition pick_all (count : nat) (amount : Z) : list output_ref :=
  map (λ i, OutputRef amount (Z.of_nat i)) (seq 0 count).

(** [std::uint64_t(frac * double(hist.total_count))] of a draw *)
Definition triangular_index (r total_count : Z) : expect Z :=
  let max := Z.shiftl 1 53 in
  let frac := double_sqrt (double_div (double_of_Z (r mod max)) (double_of_Z max)) in
  u64_of_double (double_mul frac (double_of_Z total_count)).

(** The loop that draws until an output is unlocked: [fuel] bounds the draws. *)
Fixpoint triangular_draw (fuel : nat) (hist : histogram) s : expect (Z * rng) :=
  match fuel with
  | O => Err out_of_fuel
  | S fuel =>
    let '(r, s) := rand s in
    index ← triangular_index r (h_total_count hist);
    if h_unlocked_count hist <? index then triangular_draw fuel hist s else Ok (index, s)
  end.

(** A loop over the entries of a span. *)
Fixpoint draw_refs (draw : rng → expect (Z * rng)) (count : nat) (amount : Z) s : expect (list output_ref * rng) :=
  match count with
  | O => Ok ([], s)
  | S count =>
    '(index, s) ← draw s;
    '(out, s) ← draw_refs draw count amount s;
    Ok (OutputRef amount index :: out, s)
  end.

Definition triangular_pick (fuel count : nat) (hist : histogram) s : expect (list output_ref * rng) :=
  _ ← guard_err (h_unlocked_count hist <=? h_total_count hist) invalid_argument;
  if h_unlocked_count hist <? Z.of_nat count then Err not_enough_mixin
  else if h_unlocked_count hist =? Z.of_nat count then Ok (pick_all count (h_amount hist), s)
  else draw_refs (triangular_draw fuel hist) count (h_amount hist) s.

Definition gamma_pick (count : nat) (pick_rct : gamma_picker) s : expect (list output_ref * rng) :=
  if negb (is_valid pick_rct) then Err not_enough_mixin
  else
    let spendable := spendable_upper_bound pick_rct in
    if spendable <? Z.of_nat count then Err not_enough_mixin
    else if spendable =? Z.of_nat count then Ok (pick_all count 0, s)
    else draw_refs (gamma_pick_one pick_rct) count 0 s.
End picking.

(** ** [pick_random_outputs] *)

(** [key] and [mask] stand for the two keys of the answer. *)
Record output_keys := OutputKeys { ok_key : Z; ok_mask : Z; ok_unlocked : bool }.
Record random_output := RandomOutput { ro_keys : output_keys; ro_index : Z }.
Record random_ring := RandomRing { rr_ring : list random_output; rr_amount : Z }.

Definition or_leb (l r : output_ref) : Prop := or_index l <= or_index r.
Definition ro_leb (l r : random_output) : Prop := ro_index l <= ro_index r.
Definition h_leb (l r : histogram) : Prop := h_amount l <= h_amount r.
#[export] Instance or_leb_dec : RelDecision or_leb := λ l r, Z_le_dec (or_index l) (or_index r).
#[export] Instance ro_leb_dec : RelDecision ro_leb := λ l r, Z_le_dec (ro_index l) (ro_index r).
#[export] Instance h_leb_dec : RelDecision h_leb := λ l r, Z_le_dec (h_amount l) (h_amount r).

(** [std::unique]: the first of every run. *)
Fixpoint unique (l : list output_ref) : list output_ref :=
  match l with
  | [] => []
  | x :: l =>
    match unique l with
    | [] => [x]
    | y :: l' => if or_index x =? or_index y then x :: l' else x :: y :: l'
    end
  end.

(** A proposal the ring has is dropped, another is added, locked as yet. *)
Definition is_new (current : list random_output) (ref : output_ref) : bool :=
  match current !! lower_bound (λ o, ro_index o <? or_index ref) current with
  | Some o => negb (ro_index o =? or_index ref)
  | None => true
  end.

Definition proposed_output (ref : output_ref) : random_output :=
  RandomOutput (OutputKeys 0 0 false) (or_index ref).

Section rings.
Context `{R : Random} (fuel : nat) (mixin : nat) (pick_rct : gamma_picker).

Definition pick_for (amount : Z) (count : nat) (histograms : list histogram) (s : rng) :
    expect (list output_ref * rng) :=
  if amount =? 0 then gamma_pick count pick_rct s
  else
    match histograms !! lower_bound (λ h, h_amount h <? amount) histograms with
    | Some hist =>
      _ ← guard_err (h_amount hist =? amount) invalid_argument;
      triangular_pick fuel count hist s
    | None => Err invalid_argument
    end.

(** The body of the loop over rings: the ring, or [None] when it is erased, and
    what is proposed for it. *)
Definition propose (histograms : list histogram) (ring : random_ring) (s : rng) :
    expect (option random_ring * list output_ref * rng) :=
  if (length (rr_ring ring) <? mixin)%nat then
    match pick_for (rr_amount ring) (mixin - length (rr_ring ring)) histograms s with
    | Ok (latest, s) =>
      let latest := unique (merge_sort or_leb latest) in
      let current := merge_sort ro_leb (rr_ring ring) in
      let fresh := List.filter (is_new current) latest in
      Ok (Some (RandomRing (current ++ map proposed_output fresh) (rr_amount ring)), fresh, s)
    | Err e => if decide (e = not_enough_mixin) then Ok (None, [], s) else Err e
    end
  else Ok (Some ring, [], s).

Fixpoint propose_all (histograms : list histogram) (rings : list random_ring) (s : rng) :
    expect (list random_ring * list output_ref * rng) :=
  match rings with
  | [] => Ok ([], [], s)
  | ring :: rings =>
    '(ring, proposed, s) ← propose histograms ring s;
    '(rings, others, s) ← propose_all histograms rings s;
    Ok (match ring with Some ring => ring :: rings | None => rings end, proposed ++ others, s)
  end.

(** The keys of new entries are taken in order, and locked ones are erased. *)
Fixpoint take_keys (ring : list random_output) (result : list output_keys) :
    expect (list random_output * list output_keys) :=
  match ring with
  | [] => Ok ([], result)
  | entry :: ring =>
    if ok_unlocked (ro_keys entry) then
      '(ring, result) ← take_keys ring result;
      Ok (entry :: ring, result)
    else
      match result with
      | [] => Err bad_daemon_response
      | keys :: result =>
        '(ring, result) ← take_keys ring result;
        Ok (if ok_unlocked keys then RandomOutput keys (ro_index entry) :: ring else ring, result)
      end
  end.

(** The loop over the rings; [done] when each is full and none was locked. *)
Fixpoint fill_rings (rings : list random_ring) (result : list output_keys) :
    expect (list random_ring * bool) :=
  match rings with
  | [] => Ok ([], true)
  | ring :: rings =>
    '(filled, result) ← take_keys (rr_ring ring) result;
    '(rings, done) ← fill_rings rings result;
    Ok (RandomRing filled (rr_amount ring) :: rings,
        (mixin <=? length (rr_ring ring))%nat && (length (rr_ring ring) =? length filled)%nat && done)
  end.

(** [fetch] is what the daemon answers to the request of every round. *)
Fixpoint pick_rounds (tries : nat) (histograms : list histogram) (fetch : nat → list output_ref → expect (list output_keys))
    (rings : list random_ring) (s : rng) : expect (list random_ring * rng) :=
  match tries with
  | O => Err not_enough_mixin
  | S tries =>
    '(rings, proposed, s) ← propose_all histograms rings s;
    match rings with
    | [] => Ok ([], s)
    | _ =>
      result ← fetch tries proposed;
      _ ← guard_err (length proposed =? length result)%nat bad_daemon_response;
      '(rings, done) ← fill_rings rings result;
      if (done : bool) then Ok (rings, s) else pick_rounds tries histograms fetch rings s
    end
  end.

Definition pick_random_outputs (amounts : list Z) (histograms : list histogram)
    (fetch : nat → list output_ref → expect (list output_keys)) (s : rng) : expect (list random_ring * rng) :=
  if bool_decide (mixin = 0%nat ∨ amounts = []) then Ok (replicate (length amounts) (RandomRing [] 0), s)
  else
    _ ← guard_err (Z.of_nat mixin <=? u64_max / Z.of_nat (length amounts)) invalid_argument;
    pick_rounds 64 (merge_sort h_leb histograms) fetch (map (RandomRing []) amounts) s.
End rings.

(** ** Lemmas *)

Lemma nth_last_take {A} (l : list A) n a : (n < length l)%nat → last (take (S n) l) = Some (nth n l a).
Proof.
  revert n. induction l as [|x l IH]; intros n Hn; simpl in Hn; [lia|]. destruct n as [|n]; [done|].
  cbn [take nth]. rewrite last_cons. by rewrite IH by lia.
Qed.

Lemma lower_bound_lt {A} (below : A → bool) l x : x ∈ l → below x = false → (lower_bound below l < length l)%nat.
Proof.
  induction l as [|y l IH]; intros Hin Hx; [by apply elem_of_nil in Hin|]. simpl.
  destruct (below y) eqn:E; [|lia]. apply elem_of_cons in Hin as [->|Hin]; [congruence|]. specialize (IH Hin Hx). lia.
Qed.

Lemma sorted_lookup_le l i j x y :
  StronglySorted Z.le l → l !! i = Some x → l !! j = Some y → (i <= j)%nat → x <= y.
Proof.
  intros Hs. revert i j. induction Hs as [|z l Hl IH Hz]; intros i j Hi Hj Hle; [done|].
  destruct j as [|j]; [assert (i = 0%nat) as -> by lia; simpl in *; by simplify_eq|].
  destruct i as [|i]; simpl in *; [simplify_eq|eapply IH; [done|done|lia]].
  rewrite Forall_forall in Hz. by eapply Hz, list_elem_of_lookup_2.
Qed.

Section gamma_lemmas.
Context `{R : Random} `{!RandomLaws R} (g : gamma_picker).

(** The cumulative counts of the outputs. *)
Definition offsets_ok : Prop :=
  StronglySorted Z.le (rct_offsets g) ∧ Forall (λ o, 0 <= o <= u64_max) (rct_offsets g).

Lemma upper_bound_last :
  is_valid g = true →
  let offsets := take (length (rct_offsets g) - spendable_age + 1) (rct_offsets g) in
  offsets !! (length (rct_offsets g) - spendable_age)%nat = Some (spendable_upper_bound g).
Proof.
  unfold is_valid, spendable_upper_bound. intros Hv. fold (is_valid g). rewrite (Hv : is_valid g = true).
  apply Nat.ltb_lt in Hv. unfold spendable_age in *. cbn zeta.
  rewrite lookup_take_lt by lia. destruct (lookup_lt_is_Some_2 (rct_offsets g) (length (rct_offsets g) - 10)) as [x Hx]; [lia|].
  rewrite Hx. f_equal. symmetry. by apply nth_lookup_Some.
Qed.

Lemma gamma_try_range s :
  offsets_ok → is_valid g = true →
  match gamma_try g s with
  | Ok (Some i, _) => 0 <= i < spendable_upper_bound g
  | Ok (None, _) => True
  | Err e => e = undefined_behaviour
  end.
Proof.
  intros [Hs Hr] Hv. unfold gamma_try. destruct (output_age s) as [age s1].
  destruct (u64_of_double _) as [k|e] eqn:Ek; cbn [mbind expect_bind].
  2: { unfold u64_of_double in Ek. by repeat case_match; simplify_eq. }
  assert (0 <= k) as Hk.
  { unfold u64_of_double in Ek. repeat case_match; simplify_eq; try lia. apply Z.shiftl_nonneg. lia. }
  destruct (Z.leb_spec (spendable_upper_bound g) k) as [|Eub]; [done|]. cbv zeta.
  set (offsets := take _ _). set (target := spendable_upper_bound g - 1 - k).
  pose proof (upper_bound_last Hv) as Hlast. cbn zeta in Hlast. fold offsets in Hlast.
  assert (StronglySorted Z.le offsets) as Hso.
  { unfold offsets. eapply StronglySorted_app_1_l. by rewrite take_drop. }
  destruct (offsets !! lower_bound _ offsets) as [offset|] eqn:Eo; cycle 1.
  { apply lookup_ge_None in Eo. assert (spendable_upper_bound g ∈ offsets) as Hin by (by eapply list_elem_of_lookup_2).
    apply (lower_bound_lt (λ o, o <? target)) in Hin; [lia|]. apply Z.ltb_ge. unfold target. lia. }
  assert (∀ i o, offsets !! i = Some o → 0 <= o <= u64_max) as Hrange.
  { intros i o [Ho _]%lookup_take_Some. rewrite Forall_forall in Hr. by eapply Hr, list_elem_of_lookup_2. }
  set (first_rct := match lower_bound _ offsets with O => 0 | S before => _ end).
  assert (0 <= first_rct <= offset) as Hfirst.
  { unfold first_rct. destruct (lower_bound _ offsets) as [|before]; [apply Hrange in Eo; lia|].
    destruct (lookup_lt_is_Some_2 offsets before) as [b Hb]; [apply lookup_lt_Some in Eo; lia|].
    rewrite (nth_lookup_Some _ _ _ _ Hb). split; [apply Hrange in Hb; lia|]. eapply sorted_lookup_le; [exact Hso|exact Hb|exact Eo|lia]. }
  assert (offset <= spendable_upper_bound g) as Hle.
  { eapply sorted_lookup_le; [exact Hso|exact Eo|exact Hlast|]. apply lookup_lt_Some in Eo.
    unfold offsets in Eo |- *. rewrite length_take in Eo. lia. }
  pose proof (Hrange _ _ Eo) as Ho. rewrite wrap_small by (unfold u64_max in Ho; lia).
  destruct (Z.eqb_spec (offset - first_rct) 0) as [|En]; [done|].
  pose proof (rand_idx_range (offset - first_rct) s1 ltac:(lia)) as Hi.
  destruct (rand_idx _ s1) as [i s2]. cbn [fst] in Hi. rewrite wrap_small by (unfold u64_max in Ho; lia). lia.
Qed.

Lemma gamma_tries_range tries s :
  offsets_ok → is_valid g = true →
  match gamma_tries tries g s with
  | Ok (i, _) => 0 <= i < spendable_upper_bound g
  | Err e => e = runtime_error ∨ e = undefined_behaviour
  end.
Proof.
  intros Hok Hv. revert s. induction tries as [|tries IH]; intros s; cbn [gamma_tries]; [by left|].
  pose proof (gamma_try_range s Hok Hv) as Htry.
  destruct (gamma_try g s) as [[[i|] s1]|e]; cbn [mbind expect_bind]; [done|apply IH|by right].
Qed.

Lemma gamma_pick_one_range s :
  offsets_ok → is_valid g = true →
  match gamma_pick_one g s with
  | Ok (i, _) => 0 <= i < spendable_upper_bound g
  | Err e => e = runtime_error ∨ e = undefined_behaviour
  end.
Proof. intros Hok Hv. unfold gamma_pick_one. rewrite Hv. by apply gamma_tries_range. Qed.
End gamma_lemmas.

(** *** Lists of proposals *)

Lemma unique_elem x l : x ∈ unique l → x ∈ l.
Proof.
  revert x. induction l as [|y l IH]; intros x; [done|]. cbn [unique].
  destruct (unique l) as [|z l'] eqn:E; [intros ->%list_elem_of_singleton; by left|].
  destruct (or_index y =? or_index z).
  - intros [->|Hx]%elem_of_cons; [by left|right]. apply IH. by right.
  - intros [->|Hx]%elem_of_cons; [by left|right]. by apply IH.
Qed.

Lemma unique_length l : (length (unique l) <= length l)%nat.
Proof.
  induction l as [|y l IH]; [done|]. cbn [unique]. destruct (unique l) as [|z l']; [simpl; lia|].
  destruct (_ =? _); simpl in *; lia.
Qed.

(** The runs of a sorted list are the equal elements. *)
Lemma unique_NoDup l : StronglySorted or_leb l → NoDup (or_index <$> unique l).
Proof.
  intros Hs. cut (StronglySorted Z.lt (or_index <$> unique l)).
  { generalize (or_index <$> unique l). induction 1 as [|x k Hk IH Hx]; constructor; [|done].
    intros Hin. rewrite Forall_forall in Hx. specialize (Hx _ Hin). lia. }
  induction Hs as [|y l Hl IH Hy]; [constructor|]. cbn [unique].
  assert (∀ z, z ∈ unique l → or_index y <= or_index z) as Hle.
  { intros z Hz%unique_elem. rewrite Forall_forall in Hy. by apply Hy. }
  destruct (unique l) as [|z l'] eqn:E; [repeat constructor|].
  pose proof (Hle z ltac:(left)) as Hyz. destruct (Z.eqb_spec (or_index y) (or_index z)) as [Heq|Hne].
  - cbn [fmap list_fmap] in *. by rewrite Heq.
  - rewrite fmap_cons. constructor; [done|]. inversion IH as [|? ? Hz Hlt]; subst. constructor; [lia|].
    eapply Forall_impl; [exact Hlt|]. intros i Hi. cbn in Hi. lia.
Qed.

Lemma is_new_spec current ref :
  StronglySorted ro_leb current → is_new current ref = true → or_index ref ∉ ro_index <$> current.
Proof.
  intros Hs. unfold is_new. intros Hnew Hin.
  assert (lower_bound (λ o, ro_index o <? or_index ref) current = lower_bound (λ p, p <? or_index ref) (ro_index <$> current)) as Hlb.
  { clear. induction current as [|o l IH]; [done|]. simpl. by rewrite IH. }
  assert (StronglySorted Z.le (ro_index <$> current)) as Hsorted.
  { clear Hnew Hin Hlb. induction Hs as [|o l Hl IH Ho]; [constructor|]. constructor; [done|]. by apply Forall_fmap. }
  apply (lower_bound_lookup (or_index ref) (ro_index <$> current) Hsorted) in Hin. rewrite Hlb in Hnew.
  rewrite list_lookup_fmap in Hin. destruct (current !! _) as [o|]; [|done]. cbn in Hin. by rewrite Hin in Hnew.
Qed.

#[export] Instance or_leb_trans : Transitive or_leb.
Proof. unfold or_leb. intros x y z. lia. Qed.
#[export] Instance or_leb_total : Total or_leb.
Proof. unfold or_leb. intros x y. lia. Qed.
#[export] Instance ro_leb_trans : Transitive ro_leb.
Proof. unfold ro_leb. intros x y z. lia. Qed.
#[export] Instance ro_leb_total : Total ro_leb.
Proof. unfold ro_leb. intros x y. lia. Qed.

(** *** Rounds *)

Section ring_lemmas.
Context `{R : Random} `{!RandomLaws R} (fuel mixin : nat) (pick_rct : gamma_picker) (histograms : list histogram).
Context (fetch : nat → list output_ref → expect (list output_keys)).
Context (Hmixin : (0 < mixin)%nat) (Hoffsets : offsets_ok pick_rct).

(** How many unlocked outputs there are of an amount. *)
Definition available (amount : Z) : Z :=
  if amount =? 0 then spendable_upper_bound pick_rct
  else match histograms !! lower_bound (λ h, h_amount h <? amount) histograms with
       | Some hist => h_unlocked_count hist
       | None => 0
       end.

(** A triangular pick can be one past them. *)
Definition in_range (amount index : Z) : Prop :=
  0 <= index /\ (if amount =? 0 then index < available amount else index <= available amount).

(** The daemon gave the keys for that output. *)
Definition answered (amount index : Z) (keys : output_keys) : Prop :=
  ∃ t refs result, fetch t refs = Ok result ∧ (OutputRef amount index, keys) ∈ zip refs result.

Definition good_output (amount : Z) (o : random_output) : Prop :=
  ok_unlocked (ro_keys o) = true ∧ in_range amount (ro_index o) ∧ answered amount (ro_index o) (ro_keys o).

Record ring_ok (ring : random_ring) : Prop := {
  rok_distinct : NoDup (ro_index <$> rr_ring ring);
  rok_length : (length (rr_ring ring) <= mixin)%nat;
  rok_good : Forall (good_output (rr_amount ring)) (rr_ring ring);
  rok_available : rr_ring ring = [] ∨ Z.of_nat mixin <= available (rr_amount ring)
}.

(** A ring with what is proposed for it. *)
Record proposed_ring (ring : random_ring) (refs : list output_ref) : Prop := {
  pr_distinct : NoDup (ro_index <$> rr_ring ring);
  pr_length : (length (rr_ring ring) <= mixin)%nat;
  pr_refs : ∃ old, rr_ring ring = old ++ map proposed_output refs ∧ Forall (good_output (rr_amount ring)) old;
  pr_range : Forall (λ r, or_amount r = rr_amount ring ∧ in_range (or_amount r) (or_index r)) refs;
  pr_available : Z.of_nat mixin <= available (rr_amount ring)
}.

Lemma draw_refs_ok (P : Z → Prop) draw count amount (s s' : rng) refs :
  (∀ s i s', draw s = Ok (i, s') → P i) → draw_refs draw count amount s = Ok (refs, s') →
  length refs = count ∧ Forall (λ r, or_amount r = amount ∧ P (or_index r)) refs.
Proof.
  intros Hdraw. revert s refs. induction count as [|count IH]; intros s refs Hrun; cbn [draw_refs] in Hrun.
  { by injection Hrun as <- <-. }
  apply expect_bind_ok in Hrun as ([i s1] & Hi & Hrun). apply expect_bind_ok in Hrun as ([out s2] & Hout & Hrun).
  injection Hrun as <- <-. destruct (IH _ _ Hout) as [Hlen Hall]. split; [simpl; by f_equal|].
  constructor; [split; [done|by eapply Hdraw]|done].
Qed.

Lemma pick_all_ok count amount :
  length (pick_all count amount) = count ∧
  Forall (λ r, or_amount r = amount ∧ 0 <= or_index r < Z.of_nat count) (pick_all count amount).
Proof.
  unfold pick_all. rewrite length_map, length_seq. split; [done|]. apply Forall_forall.
  intros r (i & -> & Hi%elem_of_seq)%list_elem_of_fmap. cbn. lia.
Qed.

Lemma triangular_draw_ok f hist (s s' : rng) i : triangular_draw f hist s = Ok (i, s') → 0 <= i <= h_unlocked_count hist.
Proof.
  revert s. induction f as [|f IH]; intros s; cbn [triangular_draw]; [done|].
  destruct (rand s) as [r s1]. intros (index & Hindex & Hrun)%expect_bind_ok.
  case_match eqn:E; [by eapply IH|]. injection Hrun as <- <-. apply Z.ltb_ge in E. split; [|done].
  unfold triangular_index, u64_of_double in Hindex. repeat case_match; simplify_eq; try lia. apply Z.shiftl_nonneg. lia.
Qed.

Lemma draw_refs_err draw count amount (s : rng) e :
  (∀ s, draw s ≠ Err e) → draw_refs draw count amount s ≠ Err e.
Proof.
  intros Hdraw. revert s. induction count as [|count IH]; intros s; cbn [draw_refs]; [done|].
  specialize (Hdraw s). destruct (draw s) as [[i s1]|e']; cbn [mbind expect_bind]; [|congruence].
  specialize (IH s1). destruct (draw_refs draw count amount s1) as [[out s2]|]; simpl; congruence.
Qed.

Lemma triangular_draw_err f hist (s : rng) : triangular_draw f hist s ≠ Err not_enough_mixin.
Proof.
  revert s. induction f as [|f IH]; intros s; cbn [triangular_draw]; [done|]. destruct (rand s) as [r s1].
  destruct (triangular_index r (h_total_count hist)) as [i|e] eqn:E; cbn [mbind expect_bind].
  - destruct (_ <? _); [apply IH|done].
  - intros [= ->]. unfold triangular_index, u64_of_double in E. by repeat case_match.
Qed.

(** What is picked for an amount is in range, and nothing is when it lacks outputs. *)
Lemma pick_for_ok amount count (s : rng) :
  (0 < count <= mixin)%nat →
  match pick_for fuel pick_rct amount count histograms s with
  | Ok (refs, _) => length refs = count ∧ Z.of_nat count <= available amount ∧
      Forall (λ r, or_amount r = amount ∧ in_range (or_amount r) (or_index r)) refs
  | Err e => e = not_enough_mixin → available amount < Z.of_nat count
  end.
Proof.
  intros Hcount. unfold pick_for. destruct (Z.eqb_spec amount 0) as [->|Hamount].
  - change (available 0) with (spendable_upper_bound pick_rct). unfold gamma_pick. destruct (is_valid pick_rct) eqn:Hv; cbn [negb].
    2: { intros _. unfold spendable_upper_bound. rewrite Hv. lia. }
    destruct (Z.ltb_spec (spendable_upper_bound pick_rct) (Z.of_nat count)); [done|].
    destruct (Z.eqb_spec (spendable_upper_bound pick_rct) (Z.of_nat count)).
    + destruct (pick_all_ok count 0) as [Hlen Hall]. split_and!; [done|lia|]. eapply Forall_impl; [exact Hall|].
      intros r [-> Hr]. split; [done|]. unfold in_range. change (available 0) with (spendable_upper_bound pick_rct). cbn. lia.
    + destruct (draw_refs _ _ _ _) as [[refs s1]|e] eqn:E.
      * apply (draw_refs_ok (λ i, 0 <= i < spendable_upper_bound pick_rct)) in E as [Hlen Hall].
        -- split_and!; [done|lia|]. eapply Forall_impl; [exact Hall|]. intros r [-> Hr]. split; [done|]. unfold in_range. change (available 0) with (spendable_upper_bound pick_rct). cbn. lia.
        -- intros s2 i s3 Hi. pose proof (gamma_pick_one_range pick_rct s2 Hoffsets Hv) as Hrange. by rewrite Hi in Hrange.
      * intros ->. exfalso. revert E. apply draw_refs_err. intros s2 Hi.
        pose proof (gamma_pick_one_range pick_rct s2 Hoffsets Hv) as Hrange. rewrite Hi in Hrange. by destruct Hrange.
  - destruct (histograms !! _) as [hist|] eqn:Eh; [|done].
    destruct (Z.eqb_spec (h_amount hist) amount) as [Ha|]; cbn [guard_err mbind expect_bind]; [|done].
    assert (available amount = h_unlocked_count hist) as Hav.
    { unfold available. by rewrite (proj2 (Z.eqb_neq amount 0) Hamount), Eh. }
    rewrite Hav. unfold triangular_pick. destruct (h_unlocked_count hist <=? h_total_count hist); cbn [guard_err mbind expect_bind]; [|done].
    destruct (Z.ltb_spec (h_unlocked_count hist) (Z.of_nat count)); [done|].
    assert (∀ r, or_amount r = h_amount hist ∧ 0 <= or_index r <= h_unlocked_count hist →
      or_amount r = amount ∧ in_range (or_amount r) (or_index r)) as Hin.
    { intros r [-> Hr]. rewrite Ha. split; [done|]. unfold in_range. rewrite Hav, (proj2 (Z.eqb_neq amount 0) Hamount). lia. }
    destruct (Z.eqb_spec (h_unlocked_count hist) (Z.of_nat count)).
    + destruct (pick_all_ok count (h_amount hist)) as [Hlen Hall]. split_and!; [done|lia|]. eapply Forall_impl; [exact Hall|].
      intros r [Hra Hr]. apply Hin. split; [done|lia].
    + destruct (draw_refs _ _ _ _) as [[refs s1]|e] eqn:E.
      * apply (draw_refs_ok (λ i, 0 <= i <= h_unlocked_count hist)) in E as [Hlen Hall].
        -- split_and!; [done|lia|]. eapply Forall_impl; [exact Hall|]. exact Hin.
        -- intros s2 i s3 Hi. by eapply triangular_draw_ok.
      * intros ->. exfalso. revert E. apply draw_refs_err. intros s2. apply triangular_draw_err.
Qed.

Lemma propose_ok ring (s s' : rng) proposed refs :
  propose fuel mixin pick_rct histograms ring s = Ok (proposed, refs, s') → ring_ok ring →
  match proposed with
  | Some ring' => rr_amount ring' = rr_amount ring ∧ proposed_ring ring' refs
  | None => refs = [] ∧ available (rr_amount ring) < Z.of_nat mixin
  end.
Proof.
  unfold propose. intros Hrun [Hd Hl Hg Ha]. destruct (Nat.ltb_spec (length (rr_ring ring)) mixin) as [Hlt|Hge].
  2: { injection Hrun as <- <- <-. split; [done|]. split; [done|done| |constructor|].
    - exists (rr_ring ring). by rewrite app_nil_r.
    - destruct Ha as [Hnil|]; [|done]. rewrite Hnil in Hge. simpl in Hge. lia. }
  pose proof (pick_for_ok (rr_amount ring) (mixin - length (rr_ring ring)) s ltac:(lia)) as Hpick.
  destruct (pick_for _ _ _ _ _ _) as [[latest s1]|e].
  2: { destruct (decide (e = not_enough_mixin)) as [->|]; [|done]. injection Hrun as <- <- <-. split; [done|].
    specialize (Hpick eq_refl). lia. }
  injection Hrun as <- <- <-. destruct Hpick as (Hlen & Hav & Hrange). split; [done|].
  set (current := merge_sort ro_leb (rr_ring ring)). set (picked := unique (merge_sort or_leb latest)).
  assert (current ≡ₚ rr_ring ring) as Hperm by apply merge_sort_Permutation.
  assert (merge_sort or_leb latest ≡ₚ latest) as Hlatest by apply merge_sort_Permutation.
  assert (∀ r, r ∈ List.filter (is_new current) picked → r ∈ picked ∧ is_new current r = true) as Hin.
  { intros r Hr. apply list_elem_of_In, filter_In in Hr as [Hr ?]. by apply list_elem_of_In in Hr. }
  split; cbn [rr_ring rr_amount].
  - rewrite fmap_app, map_map. apply NoDup_app. split_and!.
    + by rewrite Hperm.
    + intros i Hi (r & -> & Hr)%list_elem_of_fmap. apply Hin in Hr as [_ Hnew]. revert Hi.
      apply (is_new_spec current r); [apply StronglySorted_merge_sort; apply _|done].
    + assert (NoDup (or_index <$> picked)) as Hnd by (apply unique_NoDup, StronglySorted_merge_sort; apply _).
      clear -Hnd. induction picked as [|r l IH]; [constructor|]. rewrite fmap_cons in Hnd. apply NoDup_cons in Hnd as [Hnot Hnd].
      cbn [List.filter]. destruct (is_new current r); [|by apply IH]. cbn [map]. constructor; [|by apply IH].
      intros (r' & Heq & Hr')%list_elem_of_fmap. apply list_elem_of_In, filter_In in Hr' as [Hr' _]. apply Hnot.
      apply list_elem_of_In in Hr'. assert (or_index r = or_index r') as -> by exact Heq. by apply list_elem_of_fmap_2.
  - rewrite length_app, length_map, (Permutation_length Hperm).
    pose proof (filter_length_le (is_new current) picked). pose proof (unique_length (merge_sort or_leb latest)) as Hu.
    fold picked in Hu. rewrite (Permutation_length Hlatest) in Hu. lia.
  - exists current. split; [done|]. by rewrite Hperm.
  - apply Forall_forall. intros r [Hr _]%Hin. rewrite Forall_forall in Hrange. apply Hrange.
    rewrite <-Hlatest. by apply unique_elem.
  - destruct Ha as [Hnil|]; [|done]. rewrite Hnil in Hav. simpl in Hav. lia.
Qed.

Definition enough (amount : Z) : bool := Z.of_nat mixin <=? available amount.

Lemma propose_all_ok rings (s s' : rng) rings' proposed :
  propose_all fuel mixin pick_rct histograms rings s = Ok (rings', proposed, s') → Forall ring_ok rings →
  map rr_amount rings' = List.filter enough (map rr_amount rings) ∧
  ∃ parts, proposed = concat parts ∧ Forall2 proposed_ring rings' parts.
Proof.
  intros Hrun Hok. revert s rings' proposed Hrun. induction Hok as [|ring rings Hring Hrings IH];
    intros s rings' proposed Hrun; cbn [propose_all] in Hrun.
  { injection Hrun as <- <- <-. split; [done|]. by exists []. }
  apply expect_bind_ok in Hrun as ([[o refs] s1] & Hone & Hrun).
  apply expect_bind_ok in Hrun as ([[rings1 others] s2] & Hall & Hrun). injection Hrun as <- <- <-.
  destruct (IH _ _ _ Hall) as (Hamounts & parts & -> & Hparts). apply propose_ok in Hone; [|done].
  cbn [map List.filter]. destruct o as [ring'|].
  - destruct Hone as [Ha Hp]. pose proof (pr_available _ _ Hp) as Hav. rewrite Ha in Hav.
    unfold enough at 1. rewrite (proj2 (Z.leb_le _ _) Hav). cbn [map]. rewrite Ha, Hamounts. split; [done|].
    exists (refs :: parts). split; [done|by constructor].
  - destruct Hone as [-> Hav]. unfold enough at 1. rewrite (proj2 (Z.leb_gt _ _) Hav). split; [done|]. by exists parts.
Qed.

(** The new entries of a ring that are unlocked. *)
Definition unlocked_entries (refs : list output_ref) (keys : list output_keys) : list random_output :=
  omap (λ p : output_ref * output_keys, if ok_unlocked p.2 then Some (RandomOutput p.2 (or_index p.1)) else None) (zip refs keys).

Lemma take_keys_ok old refs keys rest :
  Forall (λ o, ok_unlocked (ro_keys o) = true) old → length keys = length refs →
  take_keys (old ++ map proposed_output refs) (keys ++ rest) = Ok (old ++ unlocked_entries refs keys, rest).
Proof.
  induction 1 as [|o old Ho Hold IH]; intros Hlen; cbn [app].
  - revert keys Hlen. induction refs as [|r refs IH]; intros [|k keys] Hlen; try done. cbn [map take_keys proposed_output ro_keys ok_unlocked].
    cbn [app]. rewrite IH by (by injection Hlen). cbn [mbind expect_bind ro_index unlocked_entries zip zip_with omap list_omap fst snd].
    by destruct (ok_unlocked k).
  - cbn [take_keys]. rewrite Ho, IH by done. done.
Qed.

Lemma unlocked_entries_good amount refs keys :
  (∀ r k, (r, k) ∈ zip refs keys → answered (or_amount r) (or_index r) k) →
  Forall (λ r, or_amount r = amount ∧ in_range (or_amount r) (or_index r)) refs →
  Forall (good_output amount) (unlocked_entries refs keys).
Proof.
  intros Hans Hrange. apply Forall_forall. intros o ([r k] & Hp & Ho)%list_elem_of_omap. cbn in Ho.
  destruct (ok_unlocked k) eqn:Ek; [|done]. injection Ho as <-. rewrite Forall_forall in Hrange.
  destruct (Hrange r) as [Ha Hr]; [by apply elem_of_zip_l in Hp|]. specialize (Hans r k Hp). rewrite Ha in Hans, Hr.
  by split_and!.
Qed.

Lemma unlocked_entries_sublist refs keys :
  (ro_index <$> unlocked_entries refs keys) `sublist_of` (or_index <$> refs).
Proof.
  revert keys. induction refs as [|r refs IH]; intros [|k keys]; [done|done|apply sublist_nil_l|].
  unfold unlocked_entries. cbn [zip zip_with omap list_omap fst snd]. fold (unlocked_entries refs keys).
  destruct (ok_unlocked k); cbn [fmap list_fmap ro_index]; [by apply sublist_skip|by apply sublist_cons].
Qed.

Lemma filled_ring_ok ring refs keys :
  proposed_ring ring refs → length keys = length refs →
  (∀ r k, (r, k) ∈ zip refs keys → answered (or_amount r) (or_index r) k) →
  ∃ filled, (∀ rest, take_keys (rr_ring ring) (keys ++ rest) = Ok (filled, rest)) ∧
    ring_ok (RandomRing filled (rr_amount ring)).
Proof.
  intros [Hd Hl (old & Hold & Hgood) Hrange Hav] Hlen Hans. exists (old ++ unlocked_entries refs keys). split.
  { intros rest. rewrite Hold. apply take_keys_ok; [|done]. eapply Forall_impl; [exact Hgood|]. by intros o [? _]. }
  rewrite Hold in Hd, Hl. pose proof (unlocked_entries_sublist refs keys) as Hsub.
  assert (ro_index <$> map proposed_output refs = or_index <$> refs) as Hidx by (by rewrite map_map).
  split; cbn [rr_ring rr_amount].
  - rewrite fmap_app. eapply sublist_NoDup; [exact Hd|]. rewrite fmap_app, Hidx. by apply sublist_app.
  - apply sublist_length in Hsub. rewrite !length_fmap in Hsub. rewrite length_app, length_map in Hl. rewrite length_app. lia.
  - apply Forall_app. split; [done|]. by apply unlocked_entries_good.
  - by right.
Qed.

Lemma fill_rings_ok rings parts result :
  Forall2 proposed_ring rings parts → length result = length (concat parts) →
  (∀ r k, (r, k) ∈ zip (concat parts) result → answered (or_amount r) (or_index r) k) →
  ∃ rings' done, fill_rings mixin rings result = Ok (rings', done) ∧ Forall ring_ok rings' ∧
    map rr_amount rings' = map rr_amount rings ∧
    (done = true → Forall (λ r, length (rr_ring r) = mixin) rings').
Proof.
  intros Hparts. revert result. induction Hparts as [|ring refs rings parts Hring Hrings IH]; intros result Hlen Hans.
  { exists [], true. split_and!; [reflexivity|constructor|reflexivity|constructor]. }
  cbn [concat] in Hlen, Hans. rewrite length_app in Hlen.
  rewrite <-(take_drop (length refs) result) in Hans.
  assert (length (take (length refs) result) = length refs) as Htake by (rewrite length_take; lia).
  rewrite zip_with_app in Hans by done.
  destruct (filled_ring_ok ring refs (take (length refs) result) Hring Htake) as (filled & Hfill & Hok).
  { intros r k Hin. apply Hans, elem_of_app. by left. }
  destruct (IH (drop (length refs) result)) as (rings' & full & Hrest & Hoks & Hamounts & Hdone).
  { rewrite length_drop. lia. }
  { intros r k Hin. apply Hans, elem_of_app. by right. }
  specialize (Hfill (drop (length refs) result)). rewrite take_drop in Hfill.
  eexists _, _. cbn [fill_rings]. rewrite Hfill. cbn [mbind expect_bind]. rewrite Hrest. cbn [mbind expect_bind].
  split_and!; [reflexivity|by constructor|cbn [map rr_amount]; by rewrite Hamounts|].
  intros [[Hm%Nat.leb_le Heq%Nat.eqb_eq]%andb_true_iff Hd]%andb_true_iff. constructor; [|by apply Hdone].
  cbn [rr_ring]. pose proof (pr_length _ _ Hring). lia.
Qed.

Lemma pick_rounds_ok tries rings (s s' : rng) rings' :
  pick_rounds fuel mixin pick_rct tries histograms fetch rings s = Ok (rings', s') → Forall ring_ok rings →
  map rr_amount rings' = List.filter enough (map rr_amount rings) ∧
  Forall (λ r, ring_ok r ∧ length (rr_ring r) = mixin) rings'.
Proof.
  revert rings s. induction tries as [|tries IH]; intros rings s Hrun Hok; [done|]. cbn [pick_rounds] in Hrun.
  apply expect_bind_ok in Hrun as ([[rings1 proposed] s1] & Hpropose & Hrun).
  apply propose_all_ok in Hpropose as (Hamounts & parts & -> & Hparts); [|done].
  destruct rings1 as [|ring1 rings1]; [by injection Hrun as <- <-|].
  apply expect_bind_ok in Hrun as (result & Hfetch & Hrun). apply expect_bind_ok in Hrun as (u & Hlen%guard_err_ok & Hrun).
  apply Nat.eqb_eq in Hlen. destruct (fill_rings_ok _ _ result Hparts) as (rings2 & full & Hfill & Hoks & Hsame & Hdone); [done| |].
  { intros r k Hin. exists tries, (concat parts), result. by destruct r. }
  rewrite Hfill in Hrun. cbn [mbind expect_bind] in Hrun. rewrite <-Hamounts, <-Hsame. destruct full.
  - injection Hrun as <- <-. split; [done|]. specialize (Hdone eq_refl). rewrite Forall_forall in Hoks, Hdone |- *.
    intros r Hr. split; [by apply Hoks|by apply Hdone].
  - destruct (IH _ _ Hrun Hoks) as [Ham Hall]. split; [|done]. rewrite Ham, Hsame, Hamounts.
    clear. induction (map rr_amount rings) as [|a l IHl]; [done|]. cbn [List.filter].
    destruct (enough a) eqn:E; [|done]. cbn [List.filter]. by rewrite E, IHl.
Qed.
End ring_lemmas.

(** ** Theorems *)

Section decoy_theorems.
Context `{R : Random} `{!RandomLaws R}.

(** A picked output of RingCT is one of the unlocked ones, and the search of
    the block never fails. *)
Theorem gamma_picker_range g (s : rng) :
  offsets_ok g → is_valid g = true →
  match gamma_pick_one g s with
  | Ok (i, _) => 0 <= i < spendable_upper_bound g
  | Err e => e = runtime_error ∨ e = undefined_behaviour
  end.
Proof. apply gamma_pick_one_range. Qed.

(** C40: the rings returned are those of the amounts with enough unlocked outputs,
    in order, each with [mixin] distinct outputs of its amount in range, all
    unlocked, with the keys the daemon gave for them. *)
Theorem pick_random_outputs_rings fuel mixin pick_rct amounts histograms fetch (s s' : rng) rings :
  pick_random_outputs fuel mixin pick_rct amounts histograms fetch s = Ok (rings, s') →
  (0 < mixin)%nat → offsets_ok pick_rct →
  let hist := merge_sort h_leb histograms in
  map rr_amount rings = List.filter (enough mixin pick_rct hist) amounts ∧
  Forall (λ ring, length (rr_ring ring) = mixin ∧ NoDup (ro_index <$> rr_ring ring) ∧
    Forall (good_output pick_rct hist fetch (rr_amount ring)) (rr_ring ring)) rings.
Proof.
  intros Hrun Hmixin Hoffsets hist. unfold pick_random_outputs in Hrun. case_bool_decide as Hempty.
  { destruct Hempty as [->| ->]; [lia|]. by injection Hrun as <- <-. }
  apply expect_bind_ok in Hrun as (u & _ & Hrun). fold hist in Hrun.
  apply pick_rounds_ok in Hrun as [Hamounts Hall]; [|done|done|].
  - rewrite map_map, map_id in Hamounts. split; [done|]. eapply Forall_impl; [exact Hall|].
    by intros ring [[Hd _ Hg _] Hl].
  - apply Forall_forall. intros ring (a & -> & _)%list_elem_of_fmap. split; cbn; [constructor|lia|constructor|by left].
Qed.
End decoy_theorems.

(** The draws that are thrown away. *)
Fixpoint draws (n : nat) `{R : Random} (s : rng) : list Z * rng :=
  match n with
  | O => ([], s)
  | S n => let '(r, s) := rand s in let '(l, s) := draws n s in (r :: l, s)
  end.

(** The loop of a triangular pick ends at the first draw that is in range, with any
    fuel above the number of draws before it. *)
Lemma triangular_draw_ends `{R : Random} n fuel hist (s : rng) index :
  (n < fuel)%nat →
  Forall (λ r, ∃ i, triangular_index r (h_total_count hist) = Ok i ∧ h_unlocked_count hist < i) (draws n s).1 →
  triangular_index (rand (draws n s).2).1 (h_total_count hist) = Ok index → index <= h_unlocked_count hist →
  triangular_draw fuel hist s = Ok (index, (rand (draws n s).2).2).
Proof.
  revert fuel s. induction n as [|n IH]; intros [|fuel] s Hfuel Hbefore Hlast Hle; try lia; cbn [triangular_draw draws] in *.
  - cbn [snd] in *. destruct (rand s) as [r s1]. cbn [fst snd] in *. rewrite Hlast. cbn [mbind expect_bind].
    destruct (Z.ltb_spec (h_unlocked_count hist) index); [lia|done].
  - destruct (rand s) as [r s1]. specialize (IH fuel s1). destruct (draws n s1) as [l s2]. cbn [fst snd] in *.
    apply Forall_cons in Hbefore as [(i & Hi & Hlt) Hbefore]. rewrite Hi. cbn [mbind expect_bind].
    rewrite (proj2 (Z.ltb_lt _ _) Hlt). apply IH; [lia|done|done|done].
Qed.

(** ** Witnesses *)

(** A source that counts, in steps. *)
Definition counting (step : Z) : Random := {|
  rng := nat;
  gamma_exp n := (double_of_Z (1200 + 100 * (Z.of_nat n mod 10)), S n);
  rand_idx k n := (Z.of_nat n mod k, S n);
  rand n := ((Z.of_nat n * step) mod 2 ^ 64, S n)
|}.

Lemma counting_laws step : RandomLaws (counting step).
Proof.
  split; intros; cbn [rand_idx rand counting fst].
  - by apply Z.mod_pos_bound.
  - unfold u64_max. pose proof (Z.mod_pos_bound (Z.of_nat s * step) (2 ^ 64) ltac:(lia)). lia.
Qed.
#[local] Existing Instance counting_laws.
#[local] Instance example_random : Random := counting 0x9E3779B97F4A7C15.

Definition seed (n : nat) : rng (Random := example_random) := n.

(** Twenty blocks of five outputs, of which eleven are old enough. *)
Definition example_offsets : list Z := map (λ i, 5 * Z.of_nat i) (seq 1 20).
Definition example_picker : gamma_picker := make_gamma_picker example_offsets.

Lemma example_offsets_ok : offsets_ok example_picker.
Proof.
  split.
  - apply (bool_decide_unpack _). by vm_compute.
  - apply (bool_decide_unpack _). by vm_compute.
Qed.

Lemma gamma_picker_range_witness :
  match gamma_pick_one example_picker (seed 3) with Ok (i, _) => 0 <= i < 55 | Err _ => False end.
Proof.
  pose proof (gamma_picker_range example_picker (seed 3) example_offsets_ok eq_refl) as H.
  destruct (gamma_pick_one example_picker (seed 3)) as [[i s]|e] eqn:E; [exact H|vm_compute in E; discriminate E].
Defined.

Definition example_histograms : list histogram := [Histogram 9 10 2; Histogram 7 10 6].
Definition example_fetch (t : nat) (refs : list output_ref) : expect (list output_keys) :=
  Ok (map (λ r, OutputKeys (1000 + or_index r) 1 (negb (or_index r =? 5))) refs).

Lemma pick_random_outputs_rings_witness :
  match pick_random_outputs 20 3 example_picker [0; 7; 9] example_histograms example_fetch (seed 0) with
  | Ok (rings, _) => map rr_amount rings = [0; 7] ∧ Forall (λ ring, length (rr_ring ring) = 3%nat) rings
  | Err _ => False
  end.
Proof.
  destruct (pick_random_outputs 20 3 example_picker [0; 7; 9] example_histograms example_fetch (seed 0))
    as [[rings s]|e] eqn:E; [|vm_compute in E; discriminate E].
  destruct (pick_random_outputs_rings _ _ _ _ _ _ _ _ _ E) as [Ha Hr]; [lia|exact example_offsets_ok|].
  split; [rewrite Ha; vm_compute; reflexivity|]. eapply Forall_impl; [exact Hr|]. by intros ring [? _].
Defined.

(** ** Two defects

    With five outputs unlocked of ten, 0 to 4, the output 5 is accepted. *)
Lemma triangular_pick_past_unlocked :
  triangular_index (2 ^ 51) 10 = Ok 5 ∧
  triangular_draw (R := counting (2 ^ 51)) 1 (Histogram 7 10 5) 1%nat = Ok (5, 2%nat) ∧
  pick_all 5 7 = map (OutputRef 7) [0; 1; 2; 3; 4].
Proof. vm_compute. repeat split. Qed.

(** When no decoys are asked for, the rings lose their amounts. *)
Lemma no_mixin_no_amounts :
  pick_random_outputs 10 0 example_picker [7] example_histograms example_fetch (seed 0) = Ok ([RandomRing [] 0], seed 0).
Proof. reflexivity. Qed.
