(* ===== verification/Sync.v ===== *)
(** * Verifying and synchronising the chain (src/src/scanner.cpp, src/src/util/blocks.cpp)

    [sync_quick] takes the hashes of the daemon as they are; [sync_full] takes
    blocks, checks that they are linked and, past the last checkpoint, that each
    has the work its difficulty asks for.  Both store what they get with the
    transactions of [Chain], until the daemon has no more or an error ends them; what was
    stored before it stays.

    Monero's functions on blocks are the parameters [BlockCrypto]; what the daemon
    answers to each request is an argument, and a bound on the number of requests
    is the fuel.

    Shown is that every chain [sync_full] stores is linked and worked for
    ([sync_full_verified]), also when it fails later. *)

From S2P Require Import Prelude Lmdb Data Compare Tables Chain Scan.

(** ** Blocks *)

Record block := Block {
  b_prev_id : Z;
  b_timestamp : Z;
  b_major_version : Z;
  b_miner_tx : transaction;
  b_tx_hashes : list Z
}.

(** Monero's functions; [hard_forks] are the heights of the forks of the network,
    [None] when it has no table. *)
Class BlockCrypto : Type := {
  get_block_hash : block → option Z;
  get_transaction_hash : transaction → option Z;
  get_block_hashing_blob : block → list Z;
  rx_seedheight : Z → Z;
  rx_slow_hash : Z → list Z → Z;
  cn_slow_hash : list Z → Z → Z → Z;
  check_hash : Z → Z → bool;
  next_difficulty : list Z → list Z → Z → Z;
  median : list Z → Z;
  RX_BLOCK_VERSION : Z;
  hard_forks : option (list Z)
}.

Section blocks.
Context `{L : Lmdb} `{C : ChainConfig} `{B : BlockCrypto}.
Implicit Types d : db L.

Definition longhash_202612 : Z := 0x84f64766475d51837ac9efbef1926486e58563c95a19fef4aec3254f03000000.

(** The hash RandomX is seeded with: from the blocks at hand, from [cached_start]
    on, or from the database. *)
Definition seed_hash (height : Z) d (cached_start : Z) (cached : list Z) : expect Z :=
  if height =? 0 then Ok 0
  else
    let seed_height := rx_seedheight height in
    if cached_start <=? seed_height then of_option bad_blockchain (cached !! Z.to_nat (seed_height - cached_start))
    else Chain.get_block_hash d seed_height.

Definition get_block_longhash (bd : list Z) (height major_version : Z) d (cached_start : Z) (cached : list Z) : expect Z :=
  if height =? 202612 then Ok longhash_202612
  else if RX_BLOCK_VERSION <=? major_version then
    hash ← seed_hash height d cached_start cached;
    Ok (rx_slow_hash hash bd)
  else Ok (cn_slow_hash bd (if 7 <=? major_version then major_version - 6 else 0) height).

Definition verify_timestamp (check : Z) (timestamps : list Z) : bool :=
  match timestamps with [] => true | _ => median timestamps <=? check end.

(** [update_window], and the same loop for the timestamps of the median. *)
Definition update_window (count : Z) (vec : list Z) : list Z := drop (length vec - Z.to_nat count) vec.

Definition get_target_time (height : Z) : expect Z :=
  forks ← of_option bad_blockchain hard_forks;
  fork ← of_option bad_blockchain (forks !! 1%nat);
  Ok (if height <? fork then DIFFICULTY_TARGET_V1 else DIFFICULTY_TARGET_V2).

(** ** What both loops do with a block in untrusted mode *)

Definition trim_window (w : pow_window) : pow_window :=
  PowWindow (update_window DIFFICULTY_BLOCKS_COUNT (pow_timestamps w))
    (update_window DIFFICULTY_BLOCKS_COUNT (cumulative_diffs w))
    (update_window BLOCKCHAIN_TIMESTAMP_CHECK_WINDOW (median_timestamps w)).

Definition block_diff (w : pow_window) (height : Z) : expect Z :=
  target ← get_target_time height;
  Ok (next_difficulty (pow_timestamps w) (cumulative_diffs w) target).

(** The timestamp and the work of a block. *)
Definition verify_work (b : block) (height : Z) (w : pow_window) (diff : Z) d (cached_start : Z) (cached : list Z) : expect unit :=
  _ ← guard_err (verify_timestamp (b_timestamp b) (median_timestamps w)) bad_blockchain;
  pow ← get_block_longhash (get_block_hashing_blob b) height (b_major_version b) d cached_start cached;
  guard_err (check_hash pow diff) bad_blockchain.

Definition push_window (w : pow_window) (timestamp diff : Z) : pow_window :=
  PowWindow (pow_timestamps w ++ [timestamp])
    (cumulative_diffs w ++ [wrap 128 (diff + default 0 (last (cumulative_diffs w)))])
    (median_timestamps w ++ [timestamp]).

Definition pushed_pow (w : pow_window) (timestamp : Z) : pow_sync :=
  PowSync timestamp (set_difficulty (default 0 (last (cumulative_diffs w)))).

(** ** [sync_quick] *)

Record hashes_response := HashesResponse { hr_hashes : list Z; hr_start_height : Z }.

(** The next request: the last of the hashes, ten times, and the genesis block. *)
Definition next_known_hashes (known hashes : list Z) : list Z :=
  let genesis := drop (length known - 1) known in
  match last hashes with
  | None => genesis
  | Some back => replicate 10 back ++ genesis
  end.

(** A round; the errors of [daemon], which answers to [known_hashes], are those of
    [fetch_chain].  There is no next request when the daemon has no more. *)
Definition quick_round (daemon : list Z → expect hashes_response) (regtest : bool) (known : list Z) d :
    expect (option (list Z) * db L) :=
  match known with
  | [] => Err bad_blockchain
  | front :: _ =>
    resp ← daemon known;
    if bool_decide (length (hr_hashes resp) <= 1)%nat || bool_decide (last (hr_hashes resp) = Some front) then Ok (None, d)
    else
      d ← sync_chain (hr_start_height resp) (hr_hashes resp) regtest d;
      Ok (Some (next_known_hashes known (hr_hashes resp)), d)
  end.

(** What was stored in the rounds before an error stays; the daemon may answer each
    time something else, and is asked with the number of rounds left. *)
Fixpoint sync_quick_loop (fuel : nat) (daemon : nat → list Z → expect hashes_response) (regtest : bool) (known : list Z) d :
    expect unit * db L :=
  match fuel with
  | O => (Err out_of_fuel, d)
  | S fuel =>
    match quick_round (daemon fuel) regtest known d with
    | Err e => (Err e, d)
    | Ok (None, d) => (Ok tt, d)
    | Ok (Some known, d) => sync_quick_loop fuel daemon regtest known d
    end
  end.

Definition sync_quick (fuel : nat) (daemon : nat → list Z → expect hashes_response) (regtest : bool) d : expect unit * db L :=
  match get_chain_sync d with
  | Err e => (Err e, d)
  | Ok known => sync_quick_loop fuel daemon regtest known d
  end.

(** ** [sync_full] *)

Record blocks_response := BlocksResponse { br_blocks : list block; br_start_height : Z }.

(** The loop over the blocks after the first. *)
Record full_progress := FullProgress {
  fp_hash : Z;
  fp_block_ids : list Z;
  fp_window : pow_window;
  fp_hashes : list Z;
  fp_pow : list pow_sync
}.

Definition full_block (start_height last_checkpoint : Z) d (p : full_progress) (ib : nat * block) : expect full_progress :=
  let '(i, b) := ib in
  let height := wrap 64 (start_height + Z.of_nat i) in
  _ ← guard_err (b_prev_id b =? fp_hash p) bad_blockchain;
  hash ← of_option bad_blockchain (get_block_hash b);
  let w := trim_window (fp_window p) in
  diff ← block_diff w height;
  _ ← (if last_checkpoint <? height then verify_work b height w diff d start_height (fp_hashes p) else Ok tt);
  let w := push_window w (b_timestamp b) diff in
  Ok (FullProgress hash (hash :: fp_block_ids p) w (fp_hashes p ++ [hash]) (fp_pow p ++ [pushed_pow w (b_timestamp b)])).

(** The blocks of a response, after the first, with their positions. *)
Definition full_blocks (resp : blocks_response) (front : block) (hash : Z) (block_ids : list Z) d : expect full_progress :=
  checkpoint ← get_last_checkpoint;
  w ← get_pow_window d (br_start_height resp);
  fold_err (full_block (br_start_height resp) (bi_id checkpoint) d)
    (FullProgress hash (drop (length block_ids - 1) block_ids) w [hash]
       [PowSync (b_timestamp front) (BlockDifficulty 0 0)])
    (imap (λ i b, (S i, b)) (tail (br_blocks resp))).

(** A round, as in [sync_quick]. *)
Definition full_round (daemon : list Z → expect blocks_response) (block_ids : list Z) d :
    expect (option (list Z) * db L) :=
  match block_ids with
  | [] => Err bad_blockchain
  | _ =>
    resp ← daemon block_ids;
    match br_blocks resp with
    | [] => Err bad_daemon_response
    | front :: rest =>
      hash ← of_option bad_blockchain (get_block_hash front);
      checkpoint ← get_last_checkpoint;
      match rest with
      | [] =>
        let expected := match Chain.get_block_hash d (br_start_height resp) with Ok h => h =? hash | Err _ => false end in
        _ ← guard_err (expected && (bi_id checkpoint <=? br_start_height resp)) bad_daemon_response;
        Ok (None, d)
      | _ =>
        p ← full_blocks resp front hash block_ids d;
        d ← sync_pow (br_start_height resp) (fp_hashes p) (fp_pow p) d;
        Ok (Some (fp_block_ids p), d)
      end
    end
  end.

Fixpoint sync_full_loop (fuel : nat) (daemon : nat → list Z → expect blocks_response) (block_ids : list Z) d :
    expect unit * db L :=
  match fuel with
  | O => (Err out_of_fuel, d)
  | S fuel =>
    match full_round (daemon fuel) block_ids d with
    | Err e => (Err e, d)
    | Ok (None, d) => (Ok tt, d)
    | Ok (Some block_ids, d) => sync_full_loop fuel daemon block_ids d
    end
  end.

Definition sync_full (fuel : nat) (daemon : nat → list Z → expect blocks_response) d : expect unit * db L :=
  match get_pow_sync d with
  | Err e => (Err e, d)
  | Ok ids => sync_full_loop fuel daemon ids d
  end.
End blocks.

(** ** What a verified chain is *)

Section verified.
Context `{L : Lmdb} `{C : ChainConfig} `{B : BlockCrypto}.
Implicit Types d : db L.
Context (d : db L) (start last_checkpoint : Z) (w0 : pow_window) (front : block).

Definition stamps_of (done : list block) : list Z := map b_timestamp done.
Definition diffs_of (pow : list pow_sync) : list Z := map (λ q, get_difficulty (ps_cumulative_diff q)) pow.

(** The windows for the block after [done]: the last entries of what is stored and
    what was verified. *)
Definition window_after (done : list block) (pow : list pow_sync) : pow_window :=
  PowWindow (update_window DIFFICULTY_BLOCKS_COUNT (pow_timestamps w0 ++ stamps_of done))
    (update_window DIFFICULTY_BLOCKS_COUNT (cumulative_diffs w0 ++ diffs_of pow))
    (update_window BLOCKCHAIN_TIMESTAMP_CHECK_WINDOW (median_timestamps w0 ++ stamps_of done)).

(** A chain after the block [front]: every block follows the one before it, its
    difficulty is that of the windows, it is added to the sum, and past the last
    checkpoint the block has the work and a timestamp that is not too old. *)
Inductive worked : list block → list Z → list pow_sync → Prop :=
  | worked_nil hash : get_block_hash front = Some hash → worked [] [hash] []
  | worked_snoc done hashes pow b hash diff :
      worked done hashes pow →
      let height := wrap 64 (start + Z.of_nat (S (length done))) in
      let w := window_after done pow in
      last hashes = Some (b_prev_id b) →
      get_block_hash b = Some hash →
      block_diff w height = Ok diff →
      (last_checkpoint < height → verify_work b height w diff d start hashes = Ok tt) →
      worked (done ++ [b]) (hashes ++ [hash])
        (pow ++ [PowSync (b_timestamp b) (set_difficulty (wrap 128 (diff + default 0 (last (cumulative_diffs w)))))]).
End verified.

(** ** Lemmas *)

Lemma update_window_snoc n l x : update_window n (update_window n l ++ [x]) = update_window n (l ++ [x]).
Proof.
  unfold update_window. rewrite !length_app, length_drop. cbn [length].
  rewrite <-(drop_app_le l [x] (length l - Z.to_nat n)) by lia. rewrite drop_drop. f_equal. lia.
Qed.

Section sync_lemmas.
Context `{L : Lmdb} `{C : ChainConfig} `{B : BlockCrypto}.
Implicit Types d : db L.

(** The loop after the blocks [done]. *)
Record full_ok d (start last_checkpoint : Z) (w0 : pow_window) (front : block) (done : list block) (p : full_progress) : Prop := {
  fo_worked : worked d start last_checkpoint w0 front done (fp_hashes p) (tail (fp_pow p));
  fo_hash : last (fp_hashes p) = Some (fp_hash p);
  fo_window : trim_window (fp_window p) = window_after w0 done (tail (fp_pow p));
  fo_pow : fp_pow p ≠ []
}.

Lemma full_block_ok d start ckpt w0 front done b p p' :
  full_ok d start ckpt w0 front done p → full_block start ckpt d p (S (length done), b) = Ok p' →
  full_ok d start ckpt w0 front (done ++ [b]) p'.
Proof.
  intros [Hworked Hhash Hwindow Hpow] Hrun. unfold full_block in Hrun. rewrite Hwindow in Hrun.
  apply expect_bind_ok in Hrun as (u1 & Hprev%guard_err_ok & Hrun). apply Z.eqb_eq in Hprev.
  apply expect_bind_ok in Hrun as (hash & Hb%of_option_ok & Hrun).
  apply expect_bind_ok in Hrun as (diff & Hdiff & Hrun).
  apply expect_bind_ok in Hrun as (u2 & Hwork & Hrun). injection Hrun as <-.
  destruct (fp_pow p) as [|first pow] eqn:Epow; [done|]. cbn [tail] in *.
  split; cbn [fp_hashes fp_hash fp_pow fp_window]; rewrite ?Epow; cbn [app tail].
  - unfold pushed_pow, push_window. cbn [cumulative_diffs]. rewrite last_snoc. cbn [default].
    apply worked_snoc; [done|by rewrite Hhash, Hprev|done|done|].
    intros Hlt. apply Z.ltb_lt in Hlt. rewrite Hlt in Hwork. by destruct u2.
  - by rewrite last_snoc.
  - unfold trim_window, push_window, window_after, stamps_of, diffs_of. cbn [pow_timestamps cumulative_diffs median_timestamps].
    rewrite !map_app, !update_window_snoc, <-!app_assoc. cbn [map pushed_pow cumulative_diffs ps_cumulative_diff].
    rewrite last_snoc. cbn [default]. rewrite get_set_difficulty by (apply wrap_range; lia). done.
  - done.
Qed.

Lemma full_fold_ok d start ckpt w0 front done p0 p :
  full_ok d start ckpt w0 front [] p0 →
  fold_err (full_block start ckpt d) p0 (imap (λ i b, (S i, b)) done) = Ok p → full_ok d start ckpt w0 front done p.
Proof.
  intros H0. revert p. induction done as [|b done IH] using rev_ind; intros p Hrun; [by injection Hrun as <-|].
  rewrite imap_app, fold_err_app in Hrun. apply expect_bind_ok in Hrun as (p1 & H1 & Hrun). cbn [imap compose fold_err] in Hrun.
  apply expect_bind_ok in Hrun as (p2 & H2 & [= <-]). rewrite Nat.add_0_r in H2. eapply full_block_ok; [|exact H2]. by apply IH.
Qed.

Lemma full_blocks_ok resp front rest hash ids d p :
  br_blocks resp = front :: rest → get_block_hash front = Some hash → full_blocks resp front hash ids d = Ok p →
  ∃ checkpoint w0, get_last_checkpoint = Ok checkpoint ∧ get_pow_window d (br_start_height resp) = Ok w0 ∧
    worked d (br_start_height resp) (bi_id checkpoint) w0 front rest (fp_hashes p) (tail (fp_pow p)).
Proof.
  intros Hblocks Hhash. unfold full_blocks. rewrite Hblocks. cbn [tail].
  intros (checkpoint & Hc & (w0 & Hw & Hrun)%expect_bind_ok)%expect_bind_ok. exists checkpoint, w0. split_and!; [done|done|].
  eapply fo_worked, full_fold_ok; [|exact Hrun]. split; cbn [fp_hashes fp_hash fp_pow fp_window tail]; [by constructor|done| |done].
  unfold trim_window, window_after, stamps_of, diffs_of. cbn [map]. by rewrite !app_nil_r.
Qed.

(** In a chain that was verified every block follows the one before. *)
Lemma worked_linked d start ckpt w0 front done hashes pow :
  worked d start ckpt w0 front done hashes pow →
  length hashes = S (length done) ∧
  ∀ i b, done !! i = Some b → hashes !! i = Some (b_prev_id b) ∧ hashes !! S i = get_block_hash b.
Proof.
  induction 1 as [hash Hh|done hashes pow b hash diff Hw [Hlen Hlinked] height w Hprev Hb Hdiff Hwork]; [by split|].
  split; [rewrite !length_app; simpl; lia|]. intros i b' Hi.
  apply lookup_app_Some in Hi as [Hi|[Hge Hi]].
  - destruct (Hlinked i b' Hi) as [H1 H2]. apply lookup_lt_Some in Hi. rewrite !lookup_app_l by lia. done.
  - destruct (i - length done)%nat eqn:E; [|done]. cbn in Hi. injection Hi as <-.
    assert (i = length done) as -> by lia. rewrite lookup_app_l by lia. rewrite lookup_app_r by lia.
    rewrite Hlen, Nat.sub_diag. split; [|by rewrite Hb]. rewrite last_lookup, Hlen in Hprev. done.
Qed.

(** One chain that [sync_full] stores. *)
Definition verified_step d d' : Prop :=
  ∃ start checkpoint w0 front rest hashes pow first,
    get_last_checkpoint = Ok checkpoint ∧ get_pow_window d start = Ok w0 ∧
    worked d start (bi_id checkpoint) w0 front rest hashes pow ∧
    (∀ i b, rest !! i = Some b → hashes !! i = Some (b_prev_id b) ∧ hashes !! S i = get_block_hash b) ∧
    sync_pow start hashes (first :: pow) d = Ok d'.

(** The daemon had no more: its last block is stored, past the last checkpoint. *)
Definition reached_top d : Prop :=
  ∃ checkpoint height hash, get_last_checkpoint = Ok checkpoint ∧ bi_id checkpoint <= height ∧
    Chain.get_block_hash d height = Ok hash.

(** A round changes the database by one verified chain, or ends at the top. *)
Lemma full_round_ok daemon ids d next d' : full_round daemon ids d = Ok (next, d') →
  match next with Some _ => verified_step d d' | None => d' = d ∧ reached_top d end.
Proof.
  unfold full_round. destruct ids as [|id ids]; [done|].
  intros (resp & _ & Hrun)%expect_bind_ok. destruct (br_blocks resp) as [|front rest] eqn:Eblocks; [done|].
  apply expect_bind_ok in Hrun as (hash & Hhash%of_option_ok & Hrun).
  apply expect_bind_ok in Hrun as (checkpoint & Hc & Hrun). destruct rest as [|second rest].
  - apply expect_bind_ok in Hrun as (u & Hg%guard_err_ok & [= <- <-]). split; [done|].
    apply andb_true_iff in Hg as [Hexp Hle%Z.leb_le]. destruct (Chain.get_block_hash d (br_start_height resp)) as [h|] eqn:E; [|done].
    exists checkpoint, (br_start_height resp), h. done.
  - apply expect_bind_ok in Hrun as (p & Hp & (d1 & Hd & [= <- <-])%expect_bind_ok).
    destruct (full_blocks_ok _ _ _ _ _ _ _ Eblocks Hhash Hp) as (ck & w0 & Hck & Hw0 & Hworked).
    destruct (fp_pow p) as [|first pow] eqn:Epow.
    { exfalso. unfold full_blocks in Hp. rewrite Eblocks in Hp. inv_expect.
      match goal with H : fold_err _ _ _ = Ok p |- _ => eapply (full_fold_ok d _ _ w0 front) in H; [by destruct H|] end.
      split; cbn; [by constructor|done| |done]. unfold trim_window, window_after, stamps_of, diffs_of. cbn. by rewrite !app_nil_r; congruence. }
    exists (br_start_height resp), ck, w0, front, (second :: rest), (fp_hashes p), pow, first.
    split_and!; [done|done|done| |done]. by eapply worked_linked.
Qed.

Lemma sync_full_loop_ok fuel daemon ids d :
  let '(result, d') := sync_full_loop fuel daemon ids d in
  rtc verified_step d d' ∧ (result = Ok tt → reached_top d').
Proof.
  revert ids d. induction fuel as [|fuel IH]; intros ids d; cbn [sync_full_loop]; [done|].
  destruct (full_round (daemon fuel) ids d) as [[next d1]|e] eqn:Hround; [|done]. apply full_round_ok in Hround.
  destruct next as [ids'|]; [|by destruct Hround as [-> ?]]. specialize (IH ids' d1).
  destruct (sync_full_loop fuel daemon ids' d1) as [result d']. destruct IH as [Hsteps Htop].
  split; [|done]. by eapply rtc_l.
Qed.
End sync_lemmas.

(** [sync_quick] stores by [sync_chain] alone, and whatever the daemon answers it is
    asked with the genesis block at the end. *)
Section quick_lemmas.
Context `{L : Lmdb} `{C : ChainConfig}.
Implicit Types d : db L.

Lemma next_known_hashes_last known hashes genesis :
  last known = Some genesis → last (next_known_hashes known hashes) = Some genesis.
Proof.
  intros [init ->]%last_Some. unfold next_known_hashes. rewrite length_app. cbn [length].
  rewrite Nat.add_sub, drop_app_length. destruct (last hashes); [by rewrite last_snoc|done].
Qed.

Definition quick_step (regtest : bool) d d' : Prop := ∃ height hashes, sync_chain height hashes regtest d = Ok d'.

Lemma sync_quick_loop_ok fuel daemon regtest known d :
  rtc (quick_step regtest) d (sync_quick_loop fuel daemon regtest known d).2.
Proof.
  revert known d. induction fuel as [|fuel IH]; intros known d; cbn [sync_quick_loop]; [done|].
  unfold quick_round. destruct known as [|front rest] eqn:Eknown; [done|]. rewrite <-Eknown.
  destruct (daemon fuel known) as [resp|e]; cbn; [|done]. destruct (_ || _); [done|].
  destruct (sync_chain _ _ _ d) as [d1|e] eqn:Hsync; cbn; [|done]. eapply rtc_l; [|apply IH].
  by exists (hr_start_height resp), (hr_hashes resp).
Qed.
End quick_lemmas.

(** ** Theorems *)

Section sync_theorems.
Context `{L : Lmdb} `{C : ChainConfig} `{B : BlockCrypto}.
Implicit Types d : db L.

(** C32: whatever the daemon answers to each request, and however [sync_full] ends, it
    has changed the database only by chains that were verified: every block follows the
    one before it, and past the last checkpoint has the work for the difficulty of the
    windows before it and a timestamp that is not too old.  When it ends without an
    error the last block of the daemon is one the database has, at the last checkpoint
    or past it. *)
Theorem sync_full_verified fuel daemon d :
  let '(result, d') := sync_full fuel daemon d in
  rtc verified_step d d' ∧ (result = Ok tt → reached_top d').
Proof. unfold sync_full. destruct (get_pow_sync d) as [ids|e]; [apply sync_full_loop_ok|done]. Qed.
End sync_theorems.

(** ** Witnesses *)

(** A stand-in in which a block is known by its timestamp, and work is constant. *)
Definition toy_blocks : BlockCrypto := {|
  get_block_hash b := Some (b_timestamp b);
  get_transaction_hash tx := Some (tx_unlock_time tx);
  get_block_hashing_blob b := [b_timestamp b];
  rx_seedheight h := h - h mod 2048;
  rx_slow_hash seed blob := 50;
  cn_slow_hash blob variant height := 50;
  check_hash pow diff := diff <=? pow;
  next_difficulty stamps diffs target := Z.of_nat (length stamps) + target / 60;
  median stamps := hd 0 stamps;
  RX_BLOCK_VERSION := 12;
  hard_forks := Some [0; 1000]
|}.
#[local] Existing Instance toy_blocks.
#[local] Existing Instance test_config.

Definition no_tx : transaction := Transaction 2 0 [] [] [] 0 [] [].
Definition toy_block (prev hash : Z) : block := Block prev hash 1 no_tx [].

(** The chain of [Chain.chain_db] with its work. *)
Definition worked_db : db ListDb.lmdb :=
  append_pow 0 (map (λ t, PowSync t (BlockDifficulty 0 (t - 99))) [100; 101; 102; 103; 104]) chain_db.

(** The daemon has one more block, and then sends one that does not follow. *)
Definition toy_daemon (left : nat) (request : list Z) : expect blocks_response :=
  match request with
  | 104 :: _ => Ok (BlocksResponse [toy_block 103 104; toy_block 104 105] 4)
  | _ => Ok (BlocksResponse [toy_block 104 105; toy_block 33 106] 5)
  end.

Lemma sync_full_verified_witness :
  let '(result, d) := sync_full 3 toy_daemon worked_db in
  result = Err bad_blockchain ∧ Chain.get_block_hash d 5 = Ok 105 ∧ rtc verified_step worked_db d.
Proof.
  pose proof (sync_full_verified 3 toy_daemon worked_db) as Hrun.
  destruct (sync_full 3 toy_daemon worked_db) as [result d] eqn:E. destruct Hrun as [Hsteps _].
  split; [revert E; vm_compute; by intros [= <- _]|]. split; [|exact Hsteps].
  revert E. vm_compute. by intros [= _ <-].
Defined.
