(* ===== verification/Loop.v ===== *)
(** * The loop of a scanning thread (src/src/scanner.cpp)

    A thread fetches blocks from the height of its oldest account on, gives every
    transaction to its accounts ([Scan]), stores what it found ([Update]) and goes
    on with the next blocks.  In every round it looks into its queue ([Queue]); at
    the top of the chain it waits for publications of the daemon.

    [loop_round] is one round of [scanner::loop] on explicit states; what the
    daemon, the queue and the other threads do meanwhile are inputs.  Modelled with
    it are [user_data::store] and [is_new_block].

    Shown is that no request is above the heights of the accounts of the thread
    ([loop_requests_cover]), that what is given to
    the accounts are the blocks from the height asked for, linked when the daemon is
    not trusted ([scan_chunk_blocks]), and that an account that is stored is moved to
    the last of them ([store_moves_all]); and three defects in what happens after
    accounts were replaced. *)

From S2P Require Import Prelude Lmdb Data Compare Tables Chain Subaddress Accounts Account Webhooks Update Queue Workload Scan Sync.

(** ** The blocks of a response *)

Record fetched_block := FetchedBlock { fb_block : block; fb_transactions : list transaction }.

Record get_blocks_response := GetBlocksResponse {
  gb_blocks : list fetched_block;
  gb_output_indices : list (list (list Z));
  gb_start_height : Z
}.

Section loop.
Context `{L : Lmdb} `{C : ChainConfig} `{CC : Crypto} `{K : ScanCrypto} `{B : BlockCrypto}.
Implicit Types d : db L.

(** ** [user_data::store] *)

(** [std::is_sorted(users, by_height)] *)
Fixpoint is_sorted_by_height (users : list lws_account) : bool :=
  match users with
  | a :: (b :: _) as rest => negb (by_height b a) && is_sorted_by_height rest
  | _ => true
  end.

(** The events are sent, which is left out. *)
Definition store (chain : list Z) (users : list lws_account) (pow : list pow_sync) d : expect (bool * db L) :=
  match users with
  | [] => Ok (true, d)
  | first :: _ =>
    _ ← guard_err (is_sorted_by_height users) logic_error;
    match update (scan_height first) chain users pow d with
    | Err e => if decide (e = blockchain_reorg) then Ok (false, d) else Err e
    | Ok (updated, d) => Ok (accounts_updated updated =? Z.of_nat (length users), d)
    end
  end.

(** ** A chunk of blocks *)

(** The variables of the loop over the blocks. *)
Record chunk := Chunk {
  ck_users : list lws_account;
  ck_reader : subaddress_reader (L := L);
  ck_disk : db L;
  ck_height : Z;
  ck_chain : list Z;
  ck_pow : list pow_sync;
  ck_window : pow_window
}.

(** The loop over the transactions of a block. *)
Fixpoint scan_txes (untrusted : bool) (height timestamp : Z) (hashes : list Z) (txes : list transaction) (indices : list (list Z))
    (users : list lws_account) (reader : subaddress_reader (L := L)) d : expect (list lws_account * subaddress_reader (L := L) * db L) :=
  match hashes, txes, indices with
  | hash :: hashes, tx :: txes, out_ids :: indices =>
    _ ← guard_err (negb untrusted || bool_decide (default 0 (get_transaction_hash tx) = hash)) bad_blockchain;
    '(users, reader, d) ← scan_transaction users height timestamp hash tx out_ids reader d;
    scan_txes untrusted height timestamp hashes txes indices users reader d
  | _, _, _ => Ok (users, reader, d)
  end.

Section chunks.
Context (opts : scanner_options) (disk : bool) (last_pow initial_height : Z) (stopped : Z → bool).

(** The checks of a block in untrusted mode; [None] when the thread is stopped. *)
Definition check_block (b : block) (height : Z) d (chain : list Z) (w : pow_window) : expect (option (pow_window * Z)) :=
  if untrusted_daemon opts then
    _ ← guard_err (bool_decide (last chain = Some (b_prev_id b))) bad_blockchain;
    let w := trim_window w in
    if stopped height then Ok None
    else
      diff ← block_diff w height;
      _ ← (if disk && (last_pow <? height) then verify_work b height w diff d initial_height chain else Ok tt);
      Ok (Some (w, diff))
  else Ok (Some (w, 0)).

(** The body of the loop over the blocks. *)
Definition scan_block (fi : fetched_block * list (list Z)) (ck : chunk) : expect (option chunk) :=
  let '(FetchedBlock b txes, indices) := fi in
  let untrusted := untrusted_daemon opts in
  let height := wrap 64 (ck_height ck + 1) in
  _ ← guard_err (bool_decide (length (b_tx_hashes b) = length txes)) runtime_error;
  match indices with
  | [] => Err runtime_error
  | miner_ids :: indices =>
    miner_hash ← of_option runtime_error (get_transaction_hash (b_miner_tx b));
    '(users, reader, d) ← scan_transaction (ck_users ck) height (b_timestamp b) miner_hash (b_miner_tx b) miner_ids
                            (ck_reader ck) (ck_disk ck);
    checked ← check_block b height d (ck_chain ck) (ck_window ck);
    match checked with
    | None => Ok None
    | Some (w, diff) =>
      _ ← guard_err (bool_decide (length txes = length indices)) runtime_error;
      '(users, reader, d) ← scan_txes untrusted height (b_timestamp b) (b_tx_hashes b) txes indices users reader d;
      let chain := ck_chain ck ++ [default 0 (get_block_hash b)] in
      if untrusted then
        let w := push_window w (b_timestamp b) diff in
        Ok (Some (Chunk users reader d height chain (ck_pow ck ++ [pushed_pow w (b_timestamp b)]) w))
      else Ok (Some (Chunk users reader d height chain (ck_pow ck) w))
    end
  end.

(** [boost::combine] of the blocks and their indices. *)
Fixpoint scan_blocks (data : list (fetched_block * list (list Z))) (ck : chunk) : expect (option chunk) :=
  match data with
  | [] => Ok (Some ck)
  | fi :: data =>
    next ← scan_block fi ck;
    match next with None => Ok None | Some ck => scan_blocks data ck end
  end.
End chunks.

(** From the hash of the first block on to the call of [store]. *)
Definition scan_chunk (opts : scanner_options) (disk : bool) (last_pow : Z) (stopped : Z → bool)
    (fetched : get_blocks_response) (users : list lws_account) d : expect (option chunk) :=
  let untrusted := untrusted_daemon opts in
  _ ← guard_err (bool_decide (length (gb_blocks fetched) = length (gb_output_indices fetched))) runtime_error;
  front ← of_option undefined_behaviour (head (gb_blocks fetched));
  let chain := [default 0 (get_block_hash (fb_block front))] in
  let pow := if untrusted then [PowSync (b_timestamp (fb_block front)) (BlockDifficulty 0 0)] else [] in
  let data := zip (gb_blocks fetched) (gb_output_indices fetched) in
  let '(data, start_height) := if gb_start_height fetched =? 1 then (data, 0) else (tail data, gb_start_height fetched) in
  w ← (if disk && untrusted then get_pow_window d start_height else Ok (PowWindow [] [] []));
  let reader := new_subaddress_reader d disk (max_subaddresses opts) in
  scan_blocks opts disk last_pow start_height stopped data (Chunk users reader d start_height chain pow w).

(** ** Waiting for a block *)

(** What is published: transactions of the pool, or the top of a chain, with its
    height and hash; [None] is a message that cannot be parsed. *)
Inductive publication :=
  | Txpool (txes : option (list transaction))
  | Top_block (top : option (Z * Z)).

Inductive wait_result :=
  | Wait_interrupted
  | Wait_failed
  | Wait_pubs (pubs : list publication).

(** [is_new_block], of a user; the reader can be had. *)
Definition is_new_block (top : option (Z * Z)) (disk : bool) (user : lws_account) d : bool :=
  match top with
  | None => false
  | Some (height, hash) =>
    if scan_height user <? height then true
    else if negb disk then true
    else
      match Chain.get_block_hash d height with
      | Err _ => true
      | Ok id =>
        if negb (id =? hash) then true
        else
          match get_account_by_id active (account_id user) d with
          | Err _ => true
          | Ok user_db => negb (acc_scan_height user_db =? scan_height user)
          end
      end
  end.

Definition pool_transactions (pubs : list publication) : list (list transaction) :=
  omap (λ p, match p with Txpool txes => txes | _ => None end) pubs.

Definition is_new (disk : bool) (user : lws_account) d (p : publication) : bool :=
  match p with Top_block top => is_new_block top disk user d | _ => false end.

(** The transactions of the pool come first; [get_pool] and the time are those of
    [scan_transactions]. *)
Fixpoint scan_pubs (opts : scanner_options) (get_pool : expect (option (list (Z * Z)))) (time : Z) (txes : list (list transaction))
    (users : list lws_account) d : expect (list lws_account * db L) :=
  match txes with
  | [] => Ok (users, d)
  | some :: txes =>
    '(users, _, d, _) ← scan_transactions get_pool users time some (max_subaddresses opts) d;
    scan_pubs opts get_pool time txes users d
  end.

(** The loop that waits: whether it was interrupted.  After the last of [waits] the
    thread still waits. *)
Fixpoint wait_for_block (opts : scanner_options) (get_pool : expect (option (list (Z * Z)))) (time : Z) (disk : bool)
    (waits : list wait_result) (users : list lws_account) d : expect (bool * list lws_account * db L) :=
  match waits with
  | [] => Err out_of_fuel
  | Wait_interrupted :: _ => Ok (true, users, d)
  | Wait_failed :: _ => Ok (false, users, d)
  | Wait_pubs pubs :: waits =>
    '(users, d) ← (if disk then scan_pubs opts get_pool time (pool_transactions pubs) users d else Ok (users, d));
    front ← of_option undefined_behaviour (head users);
    if existsb (is_new disk front d) pubs then Ok (false, users, d)
    else wait_for_block opts get_pool time disk waits users d
  end.

(** ** [scanner::loop] *)

(** The state between two rounds: the height of the last request, which the daemon
    is about to answer. *)
Record loop_state := LoopState {
  ls_users : list lws_account;
  ls_request : Z;
  ls_queue : queue;
  ls_disk : db L
}.

Inductive loop_result :=
  | Running (st : loop_state)
  | Returned (more : bool) (st : loop_state).

(** What the daemon answers, or why nothing comes. *)
Inductive daemon_reply :=
  | No_reply                  (** a timeout, an interrupt, or no JSON of blocks *)
  | Failed_reply (e : error)
  | Blocks_reply (fetched : get_blocks_response).

(** The inputs of a round; [ri_sent] is what the one request of the round gives:
    [Ok false] when it is interrupted. *)
Record round_input := RoundInput {
  ri_reply : daemon_reply;
  ri_sent : expect bool;
  ri_waits : list wait_result;
  ri_pool : expect (option (list (Z * Z)));
  ri_time : Z;
  ri_stopped : Z → bool
}.

Definition sort_users (users : list lws_account) : list lws_account := merge_sort height_leb users.

(** The state at the first round, when the first request could be sent. *)
Definition loop_start (users : list lws_account) (q : queue) d : option loop_state :=
  match sort_users users with
  | [] => None
  | (first :: _) as users => Some (LoopState users (Z.max 1 (scan_height first)) q d)
  end.

(** A request, and then [go] when it could be sent. *)
Definition send_then (sent : expect bool) (st : loop_state) (go : expect loop_result) : expect loop_result :=
  ok ← sent; if (ok : bool) then go else Ok (Returned false st).

(** [req.start_height] after this response *)
Definition next_request (fetched : get_blocks_response) : Z :=
  wrap 64 (gb_start_height fetched + Z.of_nat (length (gb_blocks fetched)) - 1).

(** Once the queue was looked into: waiting at the top, or scanning and storing. *)
Definition with_blocks (opts : scanner_options) (disk : bool) (last_pow : Z)
    (store : list Z → list lws_account → list pow_sync → db L → expect (bool * db L))
    (i : round_input) (fetched : get_blocks_response) (users : list lws_account) (q : queue) d : expect loop_result :=
  let request := next_request fetched in
  let st := LoopState users request q d in
  if bool_decide (length (gb_blocks fetched) <= 1)%nat then
    '(interrupted, users, d) ← wait_for_block opts (ri_pool i) (ri_time i) disk (ri_waits i) users d;
    let st := LoopState users request q d in
    if (interrupted : bool) then Ok (Returned false st) else send_then (ri_sent i) st (Ok (Running st))
  else
    send_then (ri_sent i) st
      (scanned ← scan_chunk opts disk last_pow (ri_stopped i) fetched users d;
       match scanned with
       | None => Ok (Returned false st)
       | Some ck =>
         '(stored, d) ← store (ck_chain ck) (ck_users ck) (ck_pow ck) (ck_disk ck);
         if (stored : bool) then
           let users := map (updated (ck_height ck)) (ck_users ck) in
           first ← of_option undefined_behaviour (head users);
           Ok (Running (LoopState users request (update_min_height (scan_height first) q) d))
         else Ok (Returned false (LoopState (ck_users ck) request q d))
       end).

Definition loop_round (opts : scanner_options) (disk : bool) (last_pow : Z)
    (store : list Z → list lws_account → list pow_sync → db L → expect (bool * db L))
    (i : round_input) (st : loop_state) : expect loop_result :=
  match ri_reply i with
  | No_reply => Ok (Returned false st)
  | Failed_reply e => Err e
  | Blocks_reply fetched =>
    _ ← guard_err (negb (bool_decide (gb_blocks fetched = []))) runtime_error;
    if negb (gb_start_height fetched =? ls_request st) then Ok (Returned false st)
    else
      let '(status, q) := do_get_accounts (ls_queue st) in
      let st := LoopState (ls_users st) (ls_request st) q (ls_disk st) in
      match st_replace status, st_push status with
      | Some [], [] => Ok (Returned true st)
      | None, [] => with_blocks opts disk last_pow store i fetched (ls_users st) q (ls_disk st)
      | _, _ =>
        let users := sort_users (taken status (ls_users st)) in
        oldest ← of_option undefined_behaviour (scan_height <$> head users);
        if oldest <? gb_start_height fetched then
          let st := LoopState users oldest q (ls_disk st) in
          send_then (ri_sent i) st (Ok (Running st))
        else with_blocks opts disk last_pow store i fetched users q (ls_disk st)
      end
  end.
End loop.
Arguments chunk {L}.
Arguments loop_state {L}.
Arguments loop_result {L}.

(** ** Lemmas *)

(** *** Scanning keeps heights *)

Definition same_heights (users users' : list lws_account) : Prop := Forall2 (λ u u', la_height u' = la_height u) users users'.

#[export] Instance same_heights_preorder : PreOrder same_heights.
Proof.
  split; [intros l; by apply Forall_Forall2_diag, Forall_true|].
  intros l1 l2 l3 H1. revert l3. induction H1 as [|u1 u2 l1 l2 E1 H1 IH]; intros l3 H2; inversion H2; subst; constructor; [congruence|by apply IH].
Qed.

Section heights.
Context `{L : Lmdb} `{CC : Crypto} `{K : ScanCrypto} {W : Type} (act : actions W) (cx : tx_context).
Context (Hspend : ∀ u s w, la_height (spend_action act u s w).1 = la_height u).
Context (Houtput : ∀ r u o w b u' w', output_action act r u o w = Ok (b, u', w') → la_height u' = la_height u).

Lemma scan_ring_height payment amount image mixin goffset offsets uw :
  la_height (scan_ring act cx payment amount image mixin goffset offsets uw).1 = la_height uw.1.
Proof.
  revert goffset uw. induction offsets as [|o offsets IH]; intros goffset uw; [done|]. cbn [scan_ring]. rewrite IH.
  destruct (get_spendable _ _); [apply Hspend|done].
Qed.

Lemma scan_inputs_height payment vin mixin ext uw m e uw' :
  scan_inputs act cx payment vin mixin ext uw = Ok (m, e, uw') → la_height uw'.1 = la_height uw.1.
Proof.
  revert mixin ext uw. induction vin as [|i vin IH]; intros mixin ext uw; cbn [scan_inputs]; [by intros [= _ _ <-]|].
  destruct i as [|amount offsets image|]; [apply IH| |apply IH].
  intros (u & _ & Hrun)%expect_bind_ok. apply IH in Hrun. rewrite Hrun. apply scan_ring_height.
Qed.

Lemma scan_output_height derived mixin out index ext user (st : scan_state W) ext' user' st' :
  scan_output act cx derived mixin out index ext user st = Ok (ext', user', st') → la_height user' = la_height user.
Proof.
  unfold scan_output. destruct (out_target out); [|by intros [= _ <- _]].
  intros (additional & _ & Hrun)%expect_bind_ok. destruct (negb _); [by injection Hrun as _ <- _|].
  apply expect_bind_ok in Hrun as (tries & _ & Hrun). apply expect_bind_ok in Hrun as ([owner st1] & _ & Hrun).
  destruct owner as [[[active pub] recipient]|]; [|by injection Hrun as _ <- _].
  apply expect_bind_ok in Hrun as (decoded & _ & Hrun). destruct decoded as [[[amount mask] ext1]|]; [|by injection Hrun as _ <- _].
  apply expect_bind_ok in Hrun as (id & _ & Hrun). apply expect_bind_ok in Hrun as ([[b u] w] & Hact & Hrun).
  injection Hrun as _ <- _. by eapply Houtput.
Qed.

Lemma scan_outputs_height derived mixin vout index ext user (st : scan_state W) user' st' :
  scan_outputs act cx derived mixin vout index ext user st = Ok (user', st') → la_height user' = la_height user.
Proof.
  revert index ext user st. induction vout as [|out vout IH]; intros index ext user st; cbn [scan_outputs]; [by intros [= <- _]|].
  intros ([[ext1 user1] st1] & Hout & Hrun)%expect_bind_ok. apply IH in Hrun. rewrite Hrun. by eapply scan_output_height.
Qed.

Lemma scan_user_height user (st : scan_state W) user' st' :
  scan_user act cx user st = Ok (user', st') → la_height user' = la_height user.
Proof.
  unfold scan_user. destruct (_ <=? _); [by intros [= <- _]|]. intros (keys & _ & Hrun)%expect_bind_ok.
  destruct (generate_key_derivation _ _); [|by injection Hrun as <- _].
  apply expect_bind_ok in Hrun as ([[mixin ext] [u w]] & Hin & Hrun).
  apply scan_inputs_height in Hin. apply scan_outputs_height in Hrun. by rewrite Hrun.
Qed.

Lemma scan_users_height users (st : scan_state W) users' st' :
  scan_users act cx users st = Ok (users', st') → same_heights users users'.
Proof.
  revert st users' st'. induction users as [|user users IH]; intros st users' st''; cbn [scan_users]; [by intros [= <- _]|].
  intros ([u1 st1] & Hu & Hrun)%expect_bind_ok. apply expect_bind_ok in Hrun as ([us st2] & Hus & Hrun).
  injection Hrun as <- _. constructor; [by eapply scan_user_height|]. by eapply IH.
Qed.
End heights.

Section loop_lemmas.
Context `{LL : LmdbLaws} `{C : ChainConfig} `{CC : Crypto} `{K : ScanCrypto} `{B : BlockCrypto}.
Implicit Types d : db L.

Lemma scan_base_heights {W} (act : actions W) users height timestamp tx_hash tx out_ids (reader reader' : subaddress_reader (L := L))
    d d' (w w' : W) users' :
  (∀ u s w, la_height (spend_action act u s w).1 = la_height u) →
  (∀ r u o w b u' w', output_action act r u o w = Ok (b, u', w') → la_height u' = la_height u) →
  scan_transaction_base act users height timestamp tx_hash tx out_ids reader d w = Ok (users', reader', d', w') →
  same_heights users users'.
Proof.
  intros Hs Ho. unfold scan_transaction_base. intros (u & _ & Hrun)%expect_bind_ok.
  destruct (find_extra_pub_key _); [|by injection Hrun as <- _ _ _].
  apply expect_bind_ok in Hrun as ([us st] & Hus & Hrun). injection Hrun as <- _ _ _. by eapply scan_users_height.
Qed.

Lemma scan_transaction_heights users height timestamp tx_hash tx out_ids (reader reader' : subaddress_reader (L := L)) d d' users' :
  scan_transaction users height timestamp tx_hash tx out_ids reader d = Ok (users', reader', d') → same_heights users users'.
Proof.
  unfold scan_transaction. intros ([[[us r] d1] w] & Hrun & Heq)%expect_bind_ok. injection Heq as <- _ _.
  eapply scan_base_heights; [| |exact Hrun]; [done|]. intros r1 u o w1 b u' w' Ho. cbn in Ho.
  unfold add_out in Ho. destruct (match _ with Some _ => _ | None => _ end); by injection Ho as _ <- _.
Qed.

Lemma scan_pool_heights get_pool time txes users (reader reader' : subaddress_reader (L := L)) d d0 d' sw sw' users' :
  scan_pool get_pool users time txes reader d sw = Ok (users', reader', d', sw') → same_heights users users'.
Proof.
  revert users reader d sw. induction txes as [|tx txes IH]; intros users reader d1 sw; cbn [scan_pool]; [by intros [= <- _ _ _]|].
  intros ([[[us r] d2] sw1] & Hbase & Hrun)%expect_bind_ok. apply IH in Hrun. etrans; [|exact Hrun].
  eapply scan_base_heights; [| |exact Hbase]; [done|]. intros r1 u o w b u' w'. cbn. unfold pool_output.
  destruct (find_webhook _ _ _) as [|hook hooks]; destruct (sw_txpool w); try (by intros [= _ <- _]).
  intros (pool & _ & Hp)%expect_bind_ok. destruct pool; by injection Hp as _ <- _.
Qed.

Lemma scan_pubs_heights opts get_pool time txes users d users' d' :
  scan_pubs opts get_pool time txes users d = Ok (users', d') → same_heights users users'.
Proof.
  revert users d. induction txes as [|some txes IH]; intros users d; cbn [scan_pubs]; [by intros [= <- _]|].
  intros ([[[us r] d1] sw] & Hpool & Hrun)%expect_bind_ok. apply IH in Hrun. etrans; [|exact Hrun].
  by eapply (scan_pool_heights get_pool time some users _ r d d d1 _ sw).
Qed.

Lemma wait_heights opts get_pool time disk waits users d stop users' d' :
  wait_for_block opts get_pool time disk waits users d = Ok (stop, users', d') → same_heights users users'.
Proof.
  revert users d. induction waits as [|w waits IH]; intros users d; [done|]. destruct w as [| |pubs]; cbn [wait_for_block];
    [by intros [= _ <- _]|by intros [= _ <- _]|].
  intros ([us d1] & Hscan & Hrun)%expect_bind_ok.
  assert (same_heights users us) as Hus by (destruct disk; [by eapply scan_pubs_heights|by injection Hscan as <- _]).
  apply expect_bind_ok in Hrun as (front & _ & Hrun). etrans; [exact Hus|].
  destruct (existsb _ _); [by injection Hrun as _ <- _|by eapply IH].
Qed.

(** *** What a chunk scans *)

Lemma scan_txes_ok untrusted height timestamp hashes txes indices users (reader reader' : subaddress_reader (L := L)) d users' d' :
  scan_txes untrusted height timestamp hashes txes indices users reader d = Ok (users', reader', d') →
  length hashes = length txes → length txes = length indices →
  same_heights users users' ∧
  (untrusted = true → Forall2 (λ hash tx, default 0 (get_transaction_hash tx) = hash) hashes txes).
Proof.
  revert txes indices users reader d. induction hashes as [|hash hashes IH]; intros [|tx txes] [|ids indices] users reader d;
    cbn [scan_txes length]; try done; [by intros [= <- _ _]|].
  intros (u & Hg%guard_err_ok & Hrun)%expect_bind_ok Hl1 Hl2. apply expect_bind_ok in Hrun as ([[us r] d1] & Htx & Hrun).
  apply scan_transaction_heights in Htx. apply IH in Hrun as [Hus Hall]; [|lia|lia]. split; [by etrans|].
  intros ->. constructor; [|by apply Hall]. by apply bool_decide_eq_true in Hg.
Qed.

(** A block that was scanned: it has as many transactions as hashes, and when the
    daemon is not trusted it follows the block before and its hashes are right. *)
Definition scanned_block (opts : scanner_options) (prev : Z) (fb : fetched_block) : Prop :=
  length (b_tx_hashes (fb_block fb)) = length (fb_transactions fb) ∧
  (untrusted_daemon opts = true → b_prev_id (fb_block fb) = prev ∧
    Forall2 (λ hash tx, default 0 (get_transaction_hash tx) = hash) (b_tx_hashes (fb_block fb)) (fb_transactions fb)).

Definition hash_of (fb : fetched_block) : Z := default 0 (get_block_hash (fb_block fb)).

Lemma check_block_prev opts disk last_pow initial stopped b height d chain w r :
  check_block opts disk last_pow initial stopped b height d chain w = Ok r → untrusted_daemon opts = true →
  last chain = Some (b_prev_id b).
Proof.
  unfold check_block. intros Hrun Hu. rewrite Hu in Hrun. by apply expect_bind_ok in Hrun as (u & Hg%guard_err_ok%bool_decide_eq_true & _).
Qed.

Lemma scan_block_ok opts disk last_pow initial stopped fb indices (ck ck' : chunk) :
  scan_block opts disk last_pow initial stopped (fb, indices) ck = Ok (Some ck') →
  same_heights (ck_users ck) (ck_users ck') ∧ ck_height ck' = wrap 64 (ck_height ck + 1) ∧
  ck_chain ck' = ck_chain ck ++ [hash_of fb] ∧
  ∀ prev, last (ck_chain ck) = Some prev → scanned_block opts prev fb.
Proof.
  destruct fb as [b txes]. unfold scan_block. intros (u & Hlen%guard_err_ok%bool_decide_eq_true & Hrun)%expect_bind_ok.
  destruct indices as [|miner_ids indices]; [done|].
  apply expect_bind_ok in Hrun as (miner_hash & _ & Hrun). apply expect_bind_ok in Hrun as ([[us r] d1] & Hminer & Hrun).
  apply expect_bind_ok in Hrun as (checked & Hcheck & Hrun). destruct checked as [[w diff]|]; [|done].
  apply expect_bind_ok in Hrun as (u2 & Hlen2%guard_err_ok%bool_decide_eq_true & Hrun).
  apply expect_bind_ok in Hrun as ([[us2 r2] d2] & Htxes & Hrun).
  apply scan_transaction_heights in Hminer. apply scan_txes_ok in Htxes as [Hus Hhashes]; [|done|done].
  assert (same_heights (ck_users ck) us2) as Hheights by (by etrans).
  assert (∀ prev, last (ck_chain ck) = Some prev → scanned_block opts prev (FetchedBlock b txes)) as Hblock.
  { intros prev Hprev. split; [done|]. intros Hu. split; [|by apply Hhashes]. cbn [fb_block].
    apply check_block_prev in Hcheck; [|done]. congruence. }
  destruct (untrusted_daemon opts); injection Hrun as <-; done.
Qed.

(** Every block after the one before. *)
Fixpoint scanned_after (opts : scanner_options) (prev : Z) (data : list fetched_block) : Prop :=
  match data with
  | [] => True
  | fb :: data => scanned_block opts prev fb ∧ scanned_after opts (hash_of fb) data
  end.

Lemma scan_blocks_ok opts disk last_pow initial stopped data (ck ck' : chunk) prev :
  scan_blocks opts disk last_pow initial stopped data ck = Ok (Some ck') → last (ck_chain ck) = Some prev →
  same_heights (ck_users ck) (ck_users ck') ∧
  ck_height ck' = (match data with [] => ck_height ck | _ => wrap 64 (ck_height ck + Z.of_nat (length data)) end) ∧
  ck_chain ck' = ck_chain ck ++ map hash_of (map fst data) ∧ scanned_after opts prev (map fst data).
Proof.
  revert ck prev. induction data as [|[fb indices] data IH]; intros ck prev Hrun Hprev; cbn [scan_blocks] in Hrun.
  { injection Hrun as <-. split_and!; [done|done|by rewrite app_nil_r|done]. }
  apply expect_bind_ok in Hrun as (next & Hone & Hrun). destruct next as [ck1|]; [|done].
  apply scan_block_ok in Hone as (Hus & Hh & Hchain & Hblock).
  apply IH with (prev := hash_of fb) in Hrun as (Hus2 & Hh2 & Hchain2 & Hafter); [|by rewrite Hchain, last_snoc].
  split_and!.
  - by etrans.
  - rewrite Hh2, Hh. destruct data; [done|]. unfold wrap. rewrite Zplus_mod_idemp_l. f_equal. cbn [length]. lia.
  - rewrite Hchain2, Hchain, <-app_assoc. done.
  - split; [by apply Hblock|done].
Qed.

(** The blocks a chunk gives to the accounts: all of them when the first is block 1,
    else those after the first. *)
Definition scanned_part (fetched : get_blocks_response) : list fetched_block :=
  if gb_start_height fetched =? 1 then gb_blocks fetched else tail (gb_blocks fetched).

Lemma fst_zip_eq {A X} (l : list A) (k : list X) : length l = length k → map fst (zip l k) = l.
Proof. intros Hlen. apply fst_zip. lia. Qed.

Lemma scan_chunk_ok opts disk last_pow stopped fetched users d (ck : chunk) :
  scan_chunk opts disk last_pow stopped fetched users d = Ok (Some ck) →
  ∃ front, head (gb_blocks fetched) = Some front ∧
    same_heights users (ck_users ck) ∧
    ck_chain ck = hash_of front :: map hash_of (scanned_part fetched) ∧
    scanned_after opts (hash_of front) (scanned_part fetched) ∧
    ((2 <= length (gb_blocks fetched))%nat → ck_height ck = next_request fetched).
Proof.
  unfold scan_chunk. intros (u & Hlen%guard_err_ok%bool_decide_eq_true & Hrun)%expect_bind_ok.
  apply expect_bind_ok in Hrun as (front & Hfront%of_option_ok & Hrun). exists front. split; [done|].
  unfold scanned_part, next_request. destruct (Z.eqb_spec (gb_start_height fetched) 1) as [H1|Hne];
    apply expect_bind_ok in Hrun as (w & _ & Hrun);
    apply scan_blocks_ok with (prev := hash_of front) in Hrun as (Hus & Hh & Hchain & Hafter); try done;
    cbn [ck_users ck_height ck_chain app] in *.
  - rewrite fst_zip_eq in Hchain, Hafter by done. split_and!; [done|done|done|]. intros Htwo. rewrite Hh.
    destruct (zip _ _) as [|p data] eqn:E; [apply (f_equal length) in E; rewrite length_zip in E; simpl in E; lia|].
    rewrite <-E, length_zip, Hlen, Nat.min_id, H1. f_equal. lia.
  - assert (map fst (tail (zip (gb_blocks fetched) (gb_output_indices fetched))) = tail (gb_blocks fetched)) as Htail.
    { destruct (gb_blocks fetched), (gb_output_indices fetched); try done. cbn. apply fst_zip_eq. by injection Hlen. }
    rewrite Htail in Hchain, Hafter. split_and!; [done|done|done|]. intros Htwo. rewrite Hh.
    apply (f_equal length) in Htail. rewrite length_map in Htail.
    destruct (tail (zip _ _)) as [|p data] eqn:E; [destruct (gb_blocks fetched) as [|? [|? ?]]; simpl in *; lia|].
    rewrite Htail. f_equal. destruct (gb_blocks fetched); simpl in *; lia.
Qed.

(** *** Nothing is skipped *)

(** The next request is at the scan height of every account, or below, but for the
    genesis block. *)
Record covers (st : loop_state) : Prop := {
  cov_request : Forall (λ u, ls_request st <= Z.max 1 (scan_height u)) (ls_users st);
  cov_sorted : StronglySorted (λ l r, scan_height l <= scan_height r) (ls_users st)
}.

Lemma sort_users_sorted users : StronglySorted (λ l r, scan_height l <= scan_height r) (sort_users users).
Proof.
  eapply sorted_impl; [apply (StronglySorted_merge_sort (λ l r : lws_account, height_leb l r))|].
  intros x y Hxy. by apply Z.leb_le, Is_true_true_1.
Qed.

Lemma sorted_head_least users first :
  StronglySorted (λ l r, scan_height l <= scan_height r) users → head users = Some first →
  Forall (λ u, scan_height first <= scan_height u) users.
Proof. intros Hs Hh. destruct Hs as [|x l Hl Hx]; [done|]. injection Hh as <-. by constructor. Qed.

Lemma loop_start_covers users q d st : loop_start users q d = Some st → covers st.
Proof.
  unfold loop_start. pose proof (sort_users_sorted users) as Hs. destruct (sort_users users) as [|first rest] eqn:E; [done|].
  intros [= <-]. split; cbn [ls_users ls_request]; [|done].
  eapply Forall_impl; [by apply (sorted_head_least _ first)|]. cbn. intros u Hu. lia.
Qed.

Lemma same_heights_sorted users users' :
  same_heights users users' → StronglySorted (λ l r, scan_height l <= scan_height r) users →
  StronglySorted (λ l r, scan_height l <= scan_height r) users'.
Proof.
  induction 1 as [|u u' l l' Hu Hl IH]; intros Hs; [constructor|]. inversion Hs as [|? ? Hs' Hall]; subst.
  constructor; [by apply IH|]. clear IH Hs Hs'. unfold scan_height in *. rewrite Hu.
  induction Hl as [|v v' l l' Hv Hl IH]; [constructor|]. inversion Hall; subst. constructor; [by rewrite Hv|by apply IH].
Qed.

Lemma same_heights_request request users users' :
  same_heights users users' → Forall (λ u, request <= Z.max 1 (scan_height u)) users →
  Forall (λ u, request <= Z.max 1 (scan_height u)) users'.
Proof.
  induction 1 as [|u u' l l' Hu Hl IH]; [done|]. intros [? ?]%Forall_cons. constructor; [|by apply IH].
  unfold scan_height in *. by rewrite Hu.
Qed.

Lemma updated_sorted_heights height users :
  StronglySorted (λ l r, scan_height l <= scan_height r) users →
  StronglySorted (λ l r, scan_height l <= scan_height r) (map (updated height) users).
Proof.
  induction 1 as [|u l Hl IH Hu]; [constructor|]. constructor; [done|]. apply Forall_map.
  eapply Forall_impl; [exact Hu|]. intros v Hv. unfold compose, scan_height, updated in *. cbn [la_height]. lia.
Qed.

Section rounds.
Context (opts : scanner_options) (disk : bool) (last_pow : Z).
Context (store : list Z → list lws_account → list pow_sync → db L → expect (bool * db L)).

Lemma with_blocks_covers i fetched users q d st' :
  with_blocks opts disk last_pow store i fetched users q d = Ok (Running st') → gb_blocks fetched ≠ [] →
  0 <= gb_start_height fetched →
  Forall (λ u, gb_start_height fetched <= Z.max 1 (scan_height u)) users →
  StronglySorted (λ l r, scan_height l <= scan_height r) users → covers st'.
Proof.
  unfold with_blocks, send_then. intros Hrun Hne Hstart Hreq Hsorted. case_bool_decide as Hone.
  - apply expect_bind_ok in Hrun as ([[interrupted us] d1] & Hwait%wait_heights & Hrun).
    destruct interrupted; [done|]. apply expect_bind_ok in Hrun as ([|] & _ & Hrun); [|done]. injection Hrun as <-.
    split; cbn [ls_users ls_request]; [|by eapply same_heights_sorted].
    eapply same_heights_request; [exact Hwait|]. eapply Forall_impl; [exact Hreq|]. intros u Hu.
    assert (next_request fetched <= gb_start_height fetched); [|cbn in *; lia]. unfold next_request.
    destruct (gb_blocks fetched) as [|b [|b2 l]]; [done| |simpl in Hone; lia]. cbn [length].
    replace (gb_start_height fetched + Z.of_nat 1 - 1) with (gb_start_height fetched) by lia.
    unfold wrap. apply Z.mod_le; lia.
  - apply expect_bind_ok in Hrun as ([|] & _ & Hrun); [|done]. apply expect_bind_ok in Hrun as (scanned & Hscan & Hrun).
    destruct scanned as [ck|]; [|done]. apply scan_chunk_ok in Hscan as (front & _ & Hus & _ & _ & Hh).
    apply expect_bind_ok in Hrun as ([stored d1] & _ & Hrun). destruct stored; [|done].
    apply expect_bind_ok in Hrun as (first & _ & Hrun). injection Hrun as <-.
    split; cbn [ls_users ls_request]; [|by eapply updated_sorted_heights, same_heights_sorted].
    rewrite <-Hh by lia. apply Forall_map, Forall_true. intros u. unfold compose, scan_height, updated. cbn [la_height]. lia.
Qed.

Lemma loop_round_covers i st st' :
  loop_round opts disk last_pow store i st = Ok (Running st') → covers st →
  (∀ fetched, ri_reply i = Blocks_reply fetched → 0 <= gb_start_height fetched) → covers st'.
Proof.
  unfold loop_round. intros Hrun [Hreq Hsorted] Hpos. destruct (ri_reply i) as [|e|fetched]; [done|done|].
  specialize (Hpos fetched eq_refl). apply expect_bind_ok in Hrun as (u & Hne%guard_err_ok%negb_true_iff%bool_decide_eq_false & Hrun).
  destruct (Z.eqb_spec (gb_start_height fetched) (ls_request st)) as [Hstart|]; [|done]. cbn [negb] in Hrun.
  destruct (do_get_accounts (ls_queue st)) as [status q]. cbv zeta in Hrun. cbn [ls_users ls_request ls_disk] in Hrun.
  assert (∀ users : list lws_account,
    (oldest ← of_option undefined_behaviour (scan_height <$> head (sort_users users));
     if oldest <? gb_start_height fetched then
       send_then (ri_sent i) (LoopState (sort_users users) oldest q (ls_disk st))
         (Ok (Running (LoopState (sort_users users) oldest q (ls_disk st))))
     else with_blocks opts disk last_pow store i fetched (sort_users users) q (ls_disk st)) = Ok (Running st') → covers st') as Hresort.
  { intros users (oldest & Ho%of_option_ok & Hgo)%expect_bind_ok. pose proof (sort_users_sorted users) as Hs.
    destruct (head (sort_users users)) as [first|] eqn:Eh; [|done]. injection Ho as <-.
    pose proof (sorted_head_least _ _ Hs Eh) as Hleast. destruct (Z.ltb_spec (scan_height first) (gb_start_height fetched)) as [|Hge].
    - unfold send_then in Hgo. apply expect_bind_ok in Hgo as ([|] & _ & Hgo); [|done]. injection Hgo as <-.
      split; cbn [ls_users ls_request]; [|done]. eapply Forall_impl; [exact Hleast|]. cbn. lia.
    - eapply with_blocks_covers; [exact Hgo|done|done| |done]. eapply Forall_impl; [exact Hleast|]. cbn. lia. }
  destruct (st_replace status) as [[|u0 us]|]; destruct (st_push status) as [|p0 ps]; try done; try (by apply Hresort in Hrun).
  eapply with_blocks_covers; [exact Hrun|done|done| |done]. by rewrite Hstart.
Qed.

(** *** Where the blocks are

    The first account, where the chain that is stored is taken to begin, is at the
    height of the request; an account that starts at the genesis block is asked for
    from block 1 (or from 0, [pushed_at_zero_asks_for_zero]). *)
Definition aligned (request : Z) (users : list lws_account) : Prop :=
  ∃ first, head users = Some first ∧ (request = scan_height first ∨ request = 1 ∧ scan_height first = 0).

Lemma same_heights_aligned request users users' : same_heights users users' → aligned request users → aligned request users'.
Proof.
  intros Hs (first & Hf & Hr). destruct Hs as [|u u' l l' Hu _]; [done|]. injection Hf as ->. exists u'. split; [done|].
  unfold scan_height in *. by rewrite Hu.
Qed.

(** A response of a height that fits 64 bits. *)
Definition fits (fetched : get_blocks_response) : Prop :=
  0 <= gb_start_height fetched ∧ gb_start_height fetched + Z.of_nat (length (gb_blocks fetched)) <= 2 ^ 64.

Lemma with_blocks_aligned i fetched users q d st' :
  with_blocks opts disk last_pow store i fetched users q d = Ok (Running st') → gb_blocks fetched ≠ [] → fits fetched →
  aligned (gb_start_height fetched) users → aligned (ls_request st') (ls_users st').
Proof.
  unfold with_blocks, send_then, fits. intros Hrun Hne [Hstart Hfits] Hal.
  assert (next_request fetched = gb_start_height fetched + Z.of_nat (length (gb_blocks fetched)) - 1) as Hnext.
  { apply wrap_small. destruct (gb_blocks fetched); [done|]. simpl in *. lia. }
  case_bool_decide as Hone.
  - apply expect_bind_ok in Hrun as ([[interrupted us] d1] & Hwait%wait_heights & Hrun).
    destruct interrupted; [done|]. apply expect_bind_ok in Hrun as ([|] & _ & Hrun); [|done]. injection Hrun as <-.
    cbn [ls_users ls_request]. eapply same_heights_aligned; [exact Hwait|]. rewrite Hnext.
    destruct (gb_blocks fetched) as [|b [|b2 l]]; [done| |simpl in Hone; lia]. cbn [length].
    by replace (gb_start_height fetched + Z.of_nat 1 - 1) with (gb_start_height fetched) by lia.
  - apply expect_bind_ok in Hrun as ([|] & _ & Hrun); [|done]. apply expect_bind_ok in Hrun as (scanned & Hscan & Hrun).
    destruct scanned as [ck|]; [|done]. apply scan_chunk_ok in Hscan as (front & _ & Hus & _ & _ & Hh).
    apply expect_bind_ok in Hrun as ([stored d1] & _ & Hrun). destruct stored; [|done].
    apply expect_bind_ok in Hrun as (first & _ & Hrun). injection Hrun as <-. cbn [ls_users ls_request].
    apply (same_heights_aligned _ _ _ Hus) in Hal as (u & Hu & Hr). destruct (ck_users ck) as [|u' l]; [done|]. injection Hu as ->.
    exists (updated (ck_height ck) u). split; [done|]. left. rewrite Hh, Hnext by lia.
    unfold scan_height, updated in *. cbn [la_height]. lia.
Qed.

Lemma loop_round_aligned i st st' :
  loop_round opts disk last_pow store i st = Ok (Running st') → replace_ (ls_queue st) = None →
  (∀ fetched, ri_reply i = Blocks_reply fetched → fits fetched) →
  aligned (ls_request st) (ls_users st) → aligned (ls_request st') (ls_users st').
Proof.
  unfold loop_round. intros Hrun Hreplace Hfits Hal. destruct (ri_reply i) as [|e|fetched]; [done|done|].
  specialize (Hfits fetched eq_refl). apply expect_bind_ok in Hrun as (u & Hne%guard_err_ok%negb_true_iff%bool_decide_eq_false & Hrun).
  destruct (Z.eqb_spec (gb_start_height fetched) (ls_request st)) as [Hstart|]; [|done]. cbn [negb] in Hrun.
  unfold do_get_accounts in Hrun. cbv zeta in Hrun. rewrite Hreplace in Hrun. cbn [st_replace st_push] in Hrun.
  destruct (push_ (ls_queue st)) as [|p ps] eqn:Ep; [eapply with_blocks_aligned; [exact Hrun|done|done|]; by rewrite Hstart|].
  apply expect_bind_ok in Hrun as (oldest & Ho%of_option_ok & Hrun). unfold taken in *. cbn [st_replace st_push default ls_users ls_disk] in *.
  set (users := sort_users (ls_users st ++ p :: ps)) in *. destruct (head users) as [first|] eqn:Eh; [|done]. injection Ho as <-.
  destruct (Z.ltb_spec (scan_height first) (gb_start_height fetched)) as [|Hge].
  - unfold send_then in Hrun. apply expect_bind_ok in Hrun as ([|] & _ & Hrun); [|done]. injection Hrun as <-.
    exists first. split; [done|by left].
  - eapply with_blocks_aligned; [exact Hrun|done|done|]. exists first. split; [done|]. left.
    destruct Hal as (old & Hold & Hr).
    assert (scan_height first <= scan_height old) as Hle; [|lia].
    pose proof (sorted_head_least _ _ (sort_users_sorted _) Eh) as Hleast. rewrite Forall_forall in Hleast. apply Hleast.
    unfold users, sort_users. rewrite merge_sort_Permutation. apply elem_of_app. left.
    destruct (ls_users st); [done|]. injection Hold as ->. by left.
Qed.

(** A round, or something others do to the queue and the database; [P] is what is
    known of the responses of the daemon. *)
Inductive loop_step (P : loop_state → get_blocks_response → Prop) : loop_state → loop_state → Prop :=
  | step_round i st st' :
      (∀ fetched, ri_reply i = Blocks_reply fetched → P st fetched) →
      loop_round opts disk last_pow store i st = Ok (Running st') → loop_step P st st'
  | step_others users request q d q' d' :
      loop_step P (LoopState users request q d) (LoopState users request q' d').
End rounds.
End loop_lemmas.

(** *** What is stored *)

Section store_lemmas.
Context `{LL : LmdbLaws} `{C : ChainConfig}.
Implicit Types d : db L.

(** The account of a thread is in the database, scanned to [height] or further. *)
Definition stored_to (height : Z) d (user : lws_account) : Prop :=
  ∃ s a, a ∈ dups accounts s d ∧ acc_id a = account_id user ∧ height <= acc_scan_height a.

Lemma stored_to_advanced height d d' user : advanced height d d' → stored_to height d user → stored_to height d' user.
Proof.
  intros [Hkept _] (s & a & Ha & Hid & Hh). destruct (Hkept s a Ha) as (a' & Ha' & [->|[Hlt _]]); [|lia].
  by exists s, a.
Qed.

(** The count is one for each account that is found, and not behind; then each was
    stored. *)
Lemma update_users_count lu first_new users : ∀ heights out d out' d',
  rolling lu heights d → update_users lu first_new users heights out d = Ok (out', d') →
  accounts_updated out' <= accounts_updated out + Z.of_nat (length users) ∧
  (accounts_updated out' = accounts_updated out + Z.of_nat (length users) → Forall (stored_to lu d') users).
Proof.
  induction users as [|user users IH]; intros heights out d out' d' Hr Hrun; cbn [update_users] in Hrun; cbv zeta in Hrun.
  { injection Hrun as <- <-. simpl. split; [lia|done]. }
  set (full := bool_decide (length heights = 127%nat)) in *.
  set (d1 := if full then bulk_insert accounts_by_height lu heights d else d) in *.
  set (h1 := if full then [] else heights) in *.
  assert (rolling lu h1 d1) as Hr1 by (unfold h1, d1; destruct full; [by apply rolling_flush|done]).
  apply expect_bind_ok in Hrun as (found & Hf & Hrun). cbn [length].
  destruct found as [[s a]|]; [|destruct (IH _ _ _ _ _ Hr1 Hrun) as [Hle Heq]; split; [lia|intros; lia]].
  destruct (_ <? scan_height user); [destruct (IH _ _ _ _ _ Hr1 Hrun) as [Hle Heq]; split; [lia|intros; lia]|].
  apply existing_account_ok in Hf as [Hin Hid]. destruct (Z.leb_spec lu (acc_scan_height a)) as [Hle|Hlt].
  - pose proof (update_users_ok _ _ _ _ _ _ _ _ Hr1 Hrun) as [_ Hadv].
    destruct (IH _ _ _ _ _ Hr1 Hrun) as [Hcount Hall]. cbn [accounts_updated] in *. split; [lia|]. intros Heq.
    constructor; [|apply Hall; lia]. eapply stored_to_advanced; [exact Hadv|]. by exists s, a.
  - apply expect_bind_ok in Hrun as ([out1 d2] & Hs & Hrun).
    assert (accounts_updated out1 = accounts_updated out + 1) as Hout.
    { revert Hs. unfold store_scan. intros Hs. inv_expect. match goal with x : list webhook_tx_confirmation * db L |- _ => destruct x end. inv_expect. by simplify_eq/=. }
    destruct (store_scan_ok _ _ _ _ _ _ _ _ _ _ Hr1 Hin Hid Hlt Hs) as (Hr2 & _ & _ & Hel).
    pose proof (update_users_ok _ _ _ _ _ _ _ _ Hr2 Hrun) as [_ Hadv].
    destruct (IH _ _ _ _ _ Hr2 Hrun) as [Hcount Hall]. split; [lia|]. intros Heq.
    constructor; [|apply Hall; lia]. eapply stored_to_advanced; [exact Hadv|].
    exists s, (with_scan_height lu a). split_and!; [apply Hel; by left|done|simpl; lia].
Qed.

Lemma store_ok chain first users pow d d' :
  store chain (first :: users) pow d = Ok (true, d') → accounts_ok d →
  Forall (stored_to (wrap 64 (scan_height first + Z.of_nat (length chain) - 1)) d') (first :: users).
Proof.
  unfold store. intros (u & _ & Hrun)%expect_bind_ok Hok.
  destruct (update _ _ _ _ _) as [[out d1]|e] eqn:E; [|by destruct (decide _)]. injection Hrun as Hcount <-.
  apply Z.eqb_eq in Hcount. unfold update in E. rewrite bool_decide_false in E by done. cbn [andb] in E.
  apply expect_bind_ok in E as (u1 & _ & E). apply expect_bind_ok in E as (u2 & _ & E). cbv zeta in E.
  apply expect_bind_ok in E as (d2 & H2%touches_update_chain & E). eapply update_users_count in E as [_ Hall]; [by apply Hall|].
  assert (accounts_ok d2) as [Ha Hh Hu] by (eapply accounts_ok_touches; [exact H2|set_solver..|done]).
  split; [done| |by intros ? ?%elem_of_nil|done].
  intros h lk. rewrite Hh. split; [intros; split; [done|apply not_elem_of_nil]|by intros []].
Qed.
End store_lemmas.

(** ** Theorems *)

Section loop_theorems.
Context `{LL : LmdbLaws} `{C : ChainConfig} `{CC : Crypto} `{K : ScanCrypto} `{B : BlockCrypto}.
Implicit Types d : db L.

(** C31: whatever a thread is answered and given, in every state it reaches its next
    request is not above the scan height that the thread has for any of its
    accounts, but for those at height 0, for which it asks from block 1; and the
    accounts are in order of height.  As long as accounts are only pushed and not
    replaced, the request is at the height of the first account, so that the
    blocks that come are stored where they belong; after a replacement they
    need not be ([replaced_ahead_is_misplaced]): then the heights recorded in the
    database can be above what was fetched. *)
Theorem loop_requests_cover opts disk last_pow store users q d st st' :
  loop_start users q d = Some st →
  (rtc (loop_step opts disk last_pow store (λ _ fetched, 0 <= gb_start_height fetched)) st st' →
   Forall (λ u, ls_request st' <= Z.max 1 (scan_height u)) (ls_users st') ∧
   StronglySorted (λ l r, scan_height l <= scan_height r) (ls_users st')) ∧
  (rtc (loop_step opts disk last_pow store (λ st fetched, replace_ (ls_queue st) = None ∧ fits fetched)) st st' →
   Forall (λ u, 0 <= scan_height u) users →
   ∃ first, head (ls_users st') = Some first ∧
     (ls_request st' = scan_height first ∨ ls_request st' = 1 ∧ scan_height first = 0)).
Proof.
  intros Hstart. split; intros Hsteps.
  - apply loop_start_covers in Hstart. cut (covers st'); [by intros []|].
    induction Hsteps as [st|st1 st2 st3 Hstep _ IH]; [done|]. apply IH. destruct Hstep as [i st1 st2 Hpos Hrun|].
    + eapply loop_round_covers; [exact Hrun|done|]. intros fetched Hf. by apply Hpos.
    + by destruct Hstart.
  - intros Hpos. assert (aligned (ls_request st) (ls_users st)) as Hal.
    { unfold loop_start in Hstart. destruct (sort_users users) as [|first rest] eqn:E; [done|]. injection Hstart as <-.
      exists first. split; [done|]. cbn [ls_request].
      assert (0 <= scan_height first); [|destruct (decide (scan_height first = 0)); [right|left]; lia].
      rewrite Forall_forall in Hpos. apply Hpos. rewrite <-(merge_sort_Permutation height_leb users).
      fold (sort_users users). rewrite E. by left. }
    clear Hstart. change (aligned (ls_request st') (ls_users st')).
    induction Hsteps as [st|st1 st2 st3 Hstep _ IH]; [done|]. apply IH. destruct Hstep as [i st1 st2 Hp Hrun|]; [|done].
    destruct (ri_reply i) as [|e|fetched] eqn:Er; [by unfold loop_round in Hrun; rewrite Er in Hrun..|].
    eapply loop_round_aligned; [exact Hrun|by eapply Hp| |done]. intros f Hf. rewrite Er in Hf. injection Hf as <-. by eapply Hp.
Qed.

(** A response that is scanned gives the accounts its blocks in order, all of
    them when the first is block 1 and else those after the first; what is handed on
    to be stored are their hashes after that of the first.  When the daemon is not
    trusted each block follows the one before, and the transactions are those it
    names. *)
Theorem scan_chunk_blocks opts disk last_pow stopped fetched users d (ck : chunk) :
  scan_chunk opts disk last_pow stopped fetched users d = Ok (Some ck) →
  ∃ front, head (gb_blocks fetched) = Some front ∧ same_heights users (ck_users ck) ∧
    ck_chain ck = hash_of front :: map hash_of (scanned_part fetched) ∧
    scanned_after opts (hash_of front) (scanned_part fetched) ∧
    ((2 <= length (gb_blocks fetched))%nat → ck_height ck = next_request fetched).
Proof. apply scan_chunk_ok. Qed.

(** When a thread goes on after storing, each of its accounts is in the database
    with a scan height not below that of the last block stored. *)
Theorem store_moves_all chain first users pow d d' :
  store chain (first :: users) pow d = Ok (true, d') → accounts_ok d →
  Forall (stored_to (wrap 64 (scan_height first + Z.of_nat (length chain) - 1)) d') (first :: users).
Proof. apply store_ok. Qed.
(** With a daemon that is not trusted block 1 would have to follow itself, so that no
    account can be scanned from the beginning. *)
Lemma untrusted_from_the_beginning opts disk last_pow stopped fetched users (d : db L) (ck : chunk) :
  untrusted_daemon opts = true → gb_start_height fetched = 1 →
  scan_chunk opts disk last_pow stopped fetched users d = Ok (Some ck) →
  ∃ front, head (gb_blocks fetched) = Some front ∧ b_prev_id (fb_block front) = hash_of front.
Proof.
  intros Hu Hone (front & Hfront & _ & _ & Hafter & _)%scan_chunk_ok. exists front. split; [done|].
  unfold scanned_part in Hafter. rewrite Hone in Hafter. cbn in Hafter.
  destruct (gb_blocks fetched) as [|b l]; [done|]. injection Hfront as ->. destruct Hafter as [[_ Hb] _]. by apply Hb.
Qed.
End loop_theorems.

(** ** Witnesses *)

#[local] Existing Instance toy_blocks.
#[local] Existing Instance toy_scan.
#[local] Existing Instance test_crypto.

Definition plain_options : scanner_options := ScannerOptions None 10 16 0 false false.

(** Blocks [first + 1] to [first + n], known by 100 and their height. *)
Definition toy_fetched (first : Z) (n : nat) : get_blocks_response :=
  GetBlocksResponse (map (λ i, FetchedBlock (toy_block (99 + first + Z.of_nat i) (100 + first + Z.of_nat i)) []) (seq 0 n))
    (replicate n [[]]) first.

Definition toy_round (fetched : get_blocks_response) : round_input :=
  RoundInput (Blocks_reply fetched) (Ok true) [] (Ok None) 0 (λ _, false).

Definition thread_user (id n height : Z) : lws_account := make_account (λ _, EmptyString) (test_account id n height) [] [].

Section examples.
#[local] Existing Instance test_config.

(** The account of [Accounts.account_db] is at the top of its chain, and there is
    one more block. *)
Definition started : loop_state := LoopState [thread_user 1 6 4] 4 new_queue account_db.
Definition looped : loop_state :=
  match loop_round plain_options true 0 store (toy_round (toy_fetched 4 2)) started with
  | Ok (Running st) => st
  | _ => started
  end.

Lemma loop_requests_cover_witness :
  ls_request looped = 5 ∧ Forall (λ u, 5 <= Z.max 1 (scan_height u)) (ls_users looped) ∧
  ∃ first, head (ls_users looped) = Some first ∧
    (ls_request looped = scan_height first ∨ ls_request looped = 1 ∧ scan_height first = 0).
Proof.
  assert (loop_round plain_options true 0 store (toy_round (toy_fetched 4 2)) started = Ok (Running looped)) as Hround
    by (vm_compute; reflexivity).
  destruct (loop_requests_cover plain_options true 0 store [thread_user 1 6 4] new_queue account_db started looped eq_refl)
    as [Hcover Haligned].
  assert (ls_request looped = 5) as E by (vm_compute; reflexivity). split; [exact E|]. split.
  - rewrite <-E. apply Hcover, rtc_once, (step_round _ _ _ _ _ (toy_round (toy_fetched 4 2))); [|exact Hround].
    intros fetched [= <-]. vm_compute. discriminate.
  - apply Haligned; [|by repeat constructor].
    apply rtc_once, (step_round _ _ _ _ _ (toy_round (toy_fetched 4 2))); [|exact Hround].
    intros fetched [= <-]. split; [reflexivity|]. vm_compute. split; discriminate.
Defined.

Lemma scan_chunk_blocks_witness :
  match scan_chunk plain_options true 0 (λ _, false) (toy_fetched 4 3) [thread_user 1 6 4] account_db with
  | Ok (Some ck) => ck_chain ck = [104; 105; 106] ∧ ck_height ck = 6
  | _ => False
  end.
Proof.
  destruct (scan_chunk plain_options true 0 (λ _, false) (toy_fetched 4 3) [thread_user 1 6 4] account_db) as [[ck|]|e] eqn:E;
    [|vm_compute in E; discriminate E|vm_compute in E; discriminate E].
  destruct (scan_chunk_blocks _ _ _ _ _ _ _ _ E) as (front & Hf & _ & -> & _ & Hh).
  injection Hf as <-. split; [reflexivity|]. rewrite Hh; [reflexivity|simpl; lia].
Defined.

Lemma store_moves_all_witness :
  match store [104; 105] [thread_user 1 6 4] [] account_db with
  | Ok (true, d) => stored_to 5 d (thread_user 1 6 4)
  | _ => False
  end.
Proof.
  destruct (store [104; 105] [thread_user 1 6 4] [] account_db) as [[[|] d]|e] eqn:E;
    [|vm_compute in E; discriminate E|vm_compute in E; discriminate E].
  pose proof (store_moves_all _ _ _ _ _ _ E account_db_ok) as H. by apply Forall_cons in H as [H _].
Defined.

(** ** Defects

    An account that is pushed to a running thread and has to be scanned from the
    beginning makes it ask for height 0, which [loop_start] avoids: the daemon takes
    that as no height. *)
Lemma pushed_at_zero_asks_for_zero :
  match loop_round plain_options true 0 store (toy_round (toy_fetched 4 2))
          (LoopState [thread_user 1 6 4] 4 (push_accounts [thread_user 2 8 0] new_queue) account_db) with
  | Ok (Running st) => ls_request st = 0
  | _ => False
  end.
Proof. vm_compute. reflexivity. Qed.

(** In a chain that starts at block 1 the hash of that block is twice.  For an account
    at height 1 exactly the chain is then one longer than what was scanned: past the
    last checkpoint it does not agree with the stored one, which is taken for a
    reorganisation, and the thread starts again, without end. *)
Definition height_one_db : db ListDb.lmdb :=
  put accounts_by_height 1 (AccountLookup 1 active) (put accounts active (test_account 1 6 1) chain_db).

Lemma height_one_never_stored :
  match loop_round plain_options true 0 store (toy_round (toy_fetched 1 4)) (LoopState [thread_user 1 6 1] 1 new_queue height_one_db) with
  | Ok (Returned false st) => acc_scan_height <$> dups accounts active (ls_disk st) = [1]
  | _ => False
  end.
Proof. vm_compute. reflexivity. Qed.
End examples.

(** When the accounts of a thread are replaced by ones that are ahead of what it
    fetched, the chain is stored as if it started at the height of the first of them:
    below the last checkpoint, where no block is compared, the account is recorded as
    scanned to a height of which no block was fetched. *)
Definition far_config : ChainConfig :=
  {| get_points := [(0, 100); (100, 200)]; get_max_height := 100;
     DIFFICULTY_BLOCKS_COUNT := 735; BLOCKCHAIN_TIMESTAMP_CHECK_WINDOW := 60 |}.

Definition replaced_db : db ListDb.lmdb :=
  put accounts_by_height 5 (AccountLookup 1 active)
    (put accounts active (test_account 1 6 5) (bulk_put blocks blocks_version [BlockInfo 0 100; BlockInfo 100 200] empty_db)).

Lemma replaced_ahead_is_misplaced :
  match loop_round (C := far_config) plain_options true 0 (store (C := far_config)) (toy_round (toy_fetched 2 3))
          (LoopState [thread_user 2 8 2] 2 (replace_accounts [thread_user 1 6 5] new_queue) replaced_db) with
  | Ok (Running st) => ls_request st = 4 ∧ acc_scan_height <$> dups accounts active (ls_disk st) = [7]
  | _ => False
  end.
Proof. vm_compute. by split. Qed.
