(* ===== verification/Requests.v ===== *)
(** * What a wallet asks of its account (src/src/rest_server.cpp)

    The handlers of the REST server that open an account or change what the
    database knows of it: [login], [import_request], [request_rescan],
    [import_key_images] with the rescan that may follow, and the subaddress
    requests.  A handler runs in [handler], a state and error monad over the
    database and the connection: what was committed before an error stays.

    Shown is that no request makes the account tables inconsistent as long as ids
    are left and an import that is accepted at once does not ask for a height above
    the account's own ([requests_keep_consistent]), that accounts are only opened with their view
    key ([opened_with_key]), and that a wallet whose login was accepted can open
    its account ([login_opens]). *)

From S2P Require Import Prelude Lmdb Data Compare Tables Chain Subaddress Accounts Readers KeyImages Storage Account Webhooks.

(** ** Requests and responses (src/src/rpc/light_wallet.h) *)

Record runtime_options := RuntimeOptions {
  max_subaddresses : Z;
  disable_admin_auth : bool;
  auto_accept_creation : bool;
  auto_accept_import : bool;
  debug : bool;
  auto_rescan_after_key_images : bool;
  auto_rescan_depth : Z;
  auto_rescan_min_confirmed_spends : Z
}.

Record account_credentials := AccountCredentials { cr_address : account_address; cr_key : Z }.

Record login_request := LoginRequest {
  lr_creds : account_credentials;
  lr_lookahead : address_index;
  lr_create_account : bool;
  lr_generated_locally : bool
}.

Record login_response := LoginResponse {
  new_address : bool;
  generated_locally : bool;
  login_lookahead : address_index
}.

Record import_wallet_request := ImportWalletRequest {
  iw_creds : account_credentials;
  iw_from_height : Z;
  iw_lookahead : address_index
}.

Record import_response := ImportResponse {
  import_fee : Z;
  import_status : string;
  import_lookahead : address_index;
  import_new_request : bool;
  request_fulfilled : bool
}.

Record request_rescan_response := RequestRescanResponse {
  rescan_status : string;
  previous_scan_height : Z;
  target_height : Z;
  rescan_fulfilled : bool
}.

Record import_key_image := ImportKeyImage {
  ik_key_image : Z;
  ik_output_index : option Z;
  ik_amount : option Z;
  ik_global_index : option Z;
  ik_tx_hash : option Z;
  ik_public_key : option Z
}.

Record import_key_images_response := ImportKeyImagesResponse {
  ir_imported : Z;
  ir_confirmed_spends : Z;
  ir_unconfirmed : Z
}.

Record provision_subaddrs_request := ProvisionSubaddrsRequest {
  ps_creds : account_credentials;
  ps_maj_i : option Z;
  ps_min_i : option Z;
  ps_n_maj : option Z;
  ps_n_min : option Z;
  ps_get_all : option bool
}.

Record upsert_subaddrs_request := UpsertSubaddrsRequest {
  us_creds : account_credentials;
  us_subaddrs : list subaddress_dict;
  us_get_all : option bool
}.

Record new_subaddrs_response := NewSubaddrsResponse {
  new_subaddrs : list subaddress_dict;
  all_subaddrs : list subaddress_dict
}.

(** ** Handlers *)

Section handlers.
Context `{L : Lmdb}.

(** What a request changes: the database and whether the connection logged in. *)
Record world := World { w_disk : db L; w_passed_login : bool }.

Definition handler (A : Type) : Type := world → expect A * world.

#[export] Instance handler_ret : MRet handler := λ A a w, (Ok a, w).
#[export] Instance handler_bind : MBind handler := λ A B f m w,
  match m w with (Ok a, w) => f a w | (Err e, w) => (Err e, w) end.

Definition fail {A} (e : error) : handler A := λ w, (Err e, w).

(** [if (!c) return {e};] *)
Definition require (c : bool) (e : error) : handler unit := if c then mret tt else fail e.

(** A read transaction. *)
Definition reading {A} (f : db L → expect A) : handler A := λ w, (f (w_disk w), w).

(** A write transaction, which an error aborts. *)
Definition writing {A} (f : db L → expect (A * db L)) : handler A := λ w,
  match f (w_disk w) with
  | Ok (a, d) => (Ok a, World d (w_passed_login w))
  | Err e => (Err e, w)
  end.

(** A write transaction that returns the database also when it fails. *)
Definition updating {A} (f : db L → expect A * db L) : handler A := λ w,
  let '(r, d) := f (w_disk w) in (r, World d (w_passed_login w)).

(** The [expect] of a call, for the handlers that look at its error. *)
Definition attempt {A} (m : handler A) : handler (expect A) := λ w, let '(r, w) := m w in (Ok r, w).

(** [data.passed_login = true] *)
Definition passed_login : handler unit := λ w, (Ok tt, World (w_disk w) true).
End handlers.

#[global] Arguments handler {L} A.

(** ** Credentials *)

Section requests.
Context `{L : Lmdb} `{Crypto}.
Context (options : runtime_options) (create_queue_max : Z) (fuel : nat).
Implicit Types (d : db L) (w : world).

Definition is_hidden (status : account_status) : bool :=
  match status with active | inactive => false | hidden => true end.

Definition key_check (creds : account_credentials) : bool :=
  match secret_key_to_public_key (cr_key creds) with
  | None => false
  | Some verify => verify =? view_public (cr_address creds)
  end.

Definition open_account (creds : account_credentials) d : expect account :=
  _ ← guard_err (key_check creds) bad_view_key;
  '(status, user) ← get_account (cr_address creds) d;
  _ ← guard_err (negb (is_hidden status)) account_not_found;
  Ok user.

(** The products are of 32 bits. *)
Definition check_lookahead (lookahead : address_index) : bool :=
  let minor := to_uint (min_i lookahead) in
  if negb (minor =? 0) then
    let major := to_uint (maj_i lookahead) in
    if u32_max <? major / minor then false
    else wrap 32 (major * minor) <=? max_subaddresses options
  else true.

(** ** [login]; [now] and [later] are the readings of the clock of its two writes *)

Definition login_handle (now later : Z) (req : login_request) : handler (login_response * list webhook_new_account) :=
  let address := cr_address (lr_creds req) in
  _ ← require (key_check (lr_creds req)) bad_view_key;
  account ← attempt (reading (get_account address));
  match account with
  | Ok (status, user) =>
      _ ← require (negb (is_hidden status)) account_not_found;
      _ ← passed_login;
      mret (LoginResponse false (negb (Z.land (acc_flags user) account_generated_locally =? 0)) (acc_lookahead user), [])
  | Err e =>
      _ ← require (negb (negb (lr_create_account req) || negb (bool_decide (e = account_not_found)))) e;
      _ ← require (check_lookahead (lr_lookahead req)) max_subaddresses_;
      let flags := if lr_generated_locally req then account_generated_locally else default_account in
      hooks ← writing (creation_request create_queue_max now address (cr_key (lr_creds req)) flags (lr_lookahead req));
      lookahead ←
        (if auto_accept_creation options then
           accepted ← attempt (writing (accept_requests fuel later create [address] (max_subaddresses options)));
           match accepted with
           | Err _ => mret (AddressIndex 0 0)
           | Ok _ => _ ← passed_login; mret (lr_lookahead req)
           end
         else mret (AddressIndex 0 0));
      mret (LoginResponse true (lr_generated_locally req) lookahead, hooks)
  end.

(** ** [import_request] *)

(** The conditions that decide whether there is something to do. *)
Definition expanded_depth (req : import_wallet_request) (record : account) : bool :=
  iw_from_height req <? acc_start_height record.

Definition change_lookahead (req : import_wallet_request) (record : account) : bool :=
  negb (maj_i (acc_lookahead record) =? maj_i (iw_lookahead req)) ||
  negb (min_i (acc_lookahead record) =? min_i (iw_lookahead req)).

(** Neither half of the lookahead grows. *)
Definition shrinks (req : import_wallet_request) (record : account) : bool :=
  (maj_i (iw_lookahead req) <=? maj_i (acc_lookahead record)) &&
  (min_i (iw_lookahead req) <=? min_i (acc_lookahead record)).

(** Both halves of the lookahead differ. *)
Definition both_differ (req : import_wallet_request) (record : account) : bool :=
  negb (maj_i (acc_lookahead record) =? maj_i (iw_lookahead req)) &&
  negb (min_i (acc_lookahead record) =? min_i (iw_lookahead req)).

(** The part with the reader: [new_request], [fulfilled] and [lookahead]. *)
Definition check_import (req : import_wallet_request) : handler (bool * bool * address_index) :=
  let address := cr_address (iw_creds req) in
  user ← reading (open_account (iw_creds req));
  _ ← passed_login;
  _ ← require (check_lookahead (iw_lookahead req)) max_subaddresses_;
  let lookahead_fail := negb (acc_lookahead_fail user =? 0) in
  if negb (expanded_depth req user) && negb (change_lookahead req user) && negb lookahead_fail
  then mret (false, true, acc_lookahead user)
  else
    info ← attempt (reading (get_request import_scan address));
    match info with
    | Ok _ => mret (false, false, acc_lookahead user)
    | Err e =>
        _ ← require (bool_decide (e = mdb_notfound)) e;
        if negb lookahead_fail && shrinks req user then
          let fulfilled := negb (expanded_depth req user) in
          lookahead ←
            (if both_differ req user then
               _ ← writing (λ d, pair tt <$> shrink_lookahead address (iw_lookahead req) d);
               mret (iw_lookahead req)
             else mret (acc_lookahead user));
          mret (negb fulfilled, fulfilled, lookahead)
        else mret (true, false, acc_lookahead user)
    end.

Definition import_request_handle (now later : Z) (req : import_wallet_request) : handler import_response :=
  let address := cr_address (iw_creds req) in
  '(new_request, fulfilled, lookahead) ← check_import req;
  '(fulfilled, lookahead) ←
    (if new_request then
       _ ← writing (λ d, pair tt <$> Accounts.import_request now address (iw_from_height req) (iw_lookahead req) d);
       if auto_accept_import options then
         accepted ← attempt (writing (accept_requests fuel later import_scan [address] (max_subaddresses options)));
         match accepted with
         | Err _ => mret (fulfilled, AddressIndex 0 0)
         | Ok _ => mret (true, iw_lookahead req)
         end
       else mret (fulfilled, lookahead)
     else mret (fulfilled, lookahead));
  let status := (if (new_request : bool) then "Accepted, waiting for approval"
                 else if (fulfilled : bool) then "Approved" else "Waiting for Approval")%string in
  mret (ImportResponse 0 status lookahead new_request fulfilled).

(** ** Rescanning *)

Definition request_rescan_handle (req : account_credentials) : handler request_rescan_response :=
  account ← reading (open_account req);
  _ ← passed_login;
  let target := acc_start_height account in
  if acc_scan_height account <=? target
  then mret (RequestRescanResponse "Already queued" (acc_scan_height account) target true)
  else
    rescanned ← writing (rescan target [acc_address account]);
    mret (RequestRescanResponse "Queued" (acc_scan_height account) target
            (negb (bool_decide (rescanned = [])))).

Definition select_auto_rescan_height (account : account) (depth : Z) : Z :=
  if depth =? 0 then acc_start_height account
  else
    let scan_height := acc_scan_height account in
    let target := if scan_height <=? depth then 0 else scan_height - depth in
    Z.max target (acc_start_height account).

(** A rescan that fails is only logged. *)
Definition maybe_auto_rescan_after_key_images (account : account) (result : import_key_images_result) : handler unit :=
  if negb (auto_rescan_after_key_images options) then mret tt
  else if result imported <? auto_rescan_min_confirmed_spends options then mret tt
  else
    let target := select_auto_rescan_height account (auto_rescan_depth options) in
    if acc_scan_height account <=? target then mret tt
    else _ ← attempt (writing (rescan target [acc_address account])); mret tt.

(** ** [import_key_images] *)

(** The source of an image that comes with all its fields. *)
Definition exact_source (image : import_key_image) : option key_image_source :=
  amount ← ik_amount image;
  global_index ← ik_global_index image;
  tx_hash ← ik_tx_hash image;
  public_key ← ik_public_key image;
  output_index ← ik_output_index image;
  Some (KeyImageSource (ik_key_image image) (OutputId amount global_index) tx_hash public_key
          (wrap 32 output_index)).

(** With [debug] the account is opened again for the log. *)
Definition import_key_images_handle (creds : account_credentials) (key_images : list import_key_image) :
    handler import_key_images_response :=
  account ← reading (open_account creds);
  _ ← passed_login;
  result ← updating (λ d,
    let '(result, d) :=
      KeyImages.import_key_images (acc_id account) (ik_key_image <$> key_images) (omap exact_source key_images) d in
    (Ok result, d));
  _ ← maybe_auto_rescan_after_key_images account result;
  _ ← (if debug options then _ ← reading (open_account creds); mret tt else mret tt);
  mret (ImportKeyImagesResponse (result imported) (result confirmed) (result unconfirmed)).

(** ** Subaddresses *)

Definition get_subaddrs_handle (req : account_credentials) : handler (list subaddress_dict) :=
  user ← reading (open_account req);
  _ ← passed_login;
  reading (λ d, Ok (get_subaddresses (acc_id user) d)).

(** The ranges [provision_subaddrs] asks for; major and minor indexes are of 32 bits. *)
Definition provision_ranges (major_i minor_i n_major n_minor : Z) : list subaddress_dict :=
  (λ elem, (wrap 32 elem, [(minor_i, wrap 32 (minor_i + n_minor - 1))])) <$> seqZ major_i n_major.

Definition provision_subaddrs_handle (req : provision_subaddrs_request) : handler new_subaddrs_response :=
  _ ← require (negb (bool_decide (ps_maj_i req = None ∧ ps_min_i req = None ∧ ps_n_min req = None ∧ ps_n_maj req = None)))
        invalid_range;
  user ← reading (open_account (ps_creds req));
  _ ← passed_login;
  let major_i := default 0 (ps_maj_i req) in
  let minor_i := default 0 (ps_min_i req) in
  let n_major := default 50 (ps_n_maj req) in
  let n_minor := default 500 (ps_n_min req) in
  new_ranges ←
    (if negb (n_major =? 0) && negb (n_minor =? 0) then
       _ ← require (negb (u32_max / n_major <? n_minor)) max_subaddresses_;
       _ ← require (negb (max_subaddresses options <? wrap 32 (n_major * n_minor))) max_subaddresses_;
       updating (upsert_subaddresses (acc_id user) (cr_address (ps_creds req)) (cr_key (ps_creds req))
                   (provision_ranges major_i minor_i n_major n_minor) (max_subaddresses options))
     else mret []);
  all_ranges ←
    (if default true (ps_get_all req) then reading (λ d, Ok (get_subaddresses (acc_id user) d)) else mret []);
  mret (NewSubaddrsResponse new_ranges all_ranges).

Definition upsert_subaddrs_handle (req : upsert_subaddrs_request) : handler new_subaddrs_response :=
  _ ← require (negb (max_subaddresses options =? 0)) max_subaddresses_;
  user ← reading (open_account (us_creds req));
  _ ← passed_login;
  new_ranges ← updating (upsert_subaddresses (acc_id user) (cr_address (us_creds req)) (cr_key (us_creds req))
                           (us_subaddrs req) (max_subaddresses options));
  all_ranges ←
    (if default true (us_get_all req) then reading (λ d, Ok (get_subaddresses (acc_id user) d)) else mret []);
  mret (NewSubaddrsResponse new_ranges all_ranges).
End requests.

(** ** The requests of a wallet *)

Inductive client_request :=
  | req_login (now later : Z) (req : login_request)
  | req_import (now later : Z) (req : import_wallet_request)
  | req_rescan (creds : account_credentials)
  | req_key_images (creds : account_credentials) (images : list import_key_image)
  | req_get_subaddrs (creds : account_credentials)
  | req_provision (req : provision_subaddrs_request)
  | req_upsert (req : upsert_subaddrs_request).

Section serving.
Context `{L : Lmdb} `{Crypto}.
Context (options : runtime_options) (create_queue_max : Z) (fuel : nat).

Definition ignore {A} (m : handler A) : handler unit := _ ← m; mret tt.

Definition handle (r : client_request) : handler unit :=
  match r with
  | req_login now later req => ignore (login_handle options create_queue_max fuel now later req)
  | req_import now later req => ignore (import_request_handle options fuel now later req)
  | req_rescan creds => ignore (request_rescan_handle creds)
  | req_key_images creds l => ignore (import_key_images_handle options creds l)
  | req_get_subaddrs creds => ignore (get_subaddrs_handle creds)
  | req_provision req => ignore (provision_subaddrs_handle options req)
  | req_upsert req => ignore (upsert_subaddrs_handle options req)
  end.

(** What the requests must be like for the careful transactions of [Storage]: ids
    do not run out, and an import that is accepted at once starts at a height the
    account has scanned.  Nothing in the code sees to it. *)
Definition safe_request (r : client_request) (d : db L) : Prop :=
  match r with
  | req_login _ _ _ => ids_left d
  | req_import _ _ req =>
      scanned_to (iw_from_height req) (cr_address (iw_creds req)) d ∨ auto_accept_import options = false
  | _ => True
  end.

(** A request on a connection, logged in or not: any, or when [careful] a safe
    one. *)
Inductive served (careful : bool) : db L → db L → Prop :=
  | serve r logged_in d :
      (careful = true → safe_request r d) → served careful d (w_disk (handle r (World d logged_in)).2).
End serving.

(** ** Requests as transactions *)

(** What a handler does to the database, as a relation that every commit of it
    satisfies: one rule for each primitive, followed by what it is bound to. *)
Section keeps.
Context `{L : Lmdb} (R : db L → db L → Prop) `{!PreOrder R}.
Implicit Types (d : db L) (w : world).

Definition keeps {A} (m : handler A) w : Prop := R (w_disk w) (w_disk (m w).2).

Lemma keeps_bind {A B} (m : handler A) (f : A → handler B) w :
  keeps m w → (∀ a, (m w).1 = Ok a → keeps (f a) (m w).2) → keeps (m ≫= f) w.
Proof.
  unfold keeps. intros Hm Hf. unfold mbind, handler_bind. destruct (m w) as [[a|e] w'] eqn:E; simpl in *; [|done].
  etrans; [exact Hm|by apply Hf].
Qed.

Lemma keeps_ret {A} (a : A) w : keeps (mret a) w.
Proof. unfold keeps. reflexivity. Qed.

Lemma keeps_require {B} c e (k : unit → handler B) w :
  (c = true → keeps (k tt) w) → keeps (require c e ≫= k) w.
Proof. destruct c; intros Hk; [by apply keeps_bind; [|intros [] _]; [unfold keeps; reflexivity|apply Hk]|unfold keeps; reflexivity]. Qed.

Lemma keeps_reading {A B} (f : db L → expect A) (k : A → handler B) w :
  (∀ a, f (w_disk w) = Ok a → keeps (k a) w) → keeps (reading f ≫= k) w.
Proof. intros Hk. apply keeps_bind; [unfold keeps; reflexivity|exact Hk]. Qed.

Lemma keeps_attempt_reading {A B} (f : db L → expect A) (k : expect A → handler B) w :
  keeps (k (f (w_disk w))) w → keeps (attempt (reading f) ≫= k) w.
Proof. intros Hk. apply keeps_bind; [unfold keeps; reflexivity|]. by intros a [= <-]. Qed.

Lemma keeps_passed_login {B} (k : unit → handler B) w :
  keeps (k tt) (World (w_disk w) true) → keeps (passed_login ≫= k) w.
Proof. intros Hk. apply keeps_bind; [unfold keeps; reflexivity|]. by intros [] _. Qed.

Lemma keeps_writing {A B} (f : db L → expect (A * db L)) (k : A → handler B) w :
  (∀ a d, f (w_disk w) = Ok (a, d) →
     R (w_disk w) d ∧ keeps (k a) (World d (w_passed_login w))) →
  keeps (writing f ≫= k) w.
Proof.
  intros Hk. unfold keeps, mbind, handler_bind, writing.
  destruct (f (w_disk w)) as [[a d]|e] eqn:E; [|unfold keeps; reflexivity].
  destruct (Hk a d eq_refl) as [Ht Hs]. etrans; [exact Ht|exact Hs].
Qed.

Lemma keeps_attempt_writing {A B} (f : db L → expect (A * db L)) (k : expect A → handler B) w :
  (∀ a d, f (w_disk w) = Ok (a, d) →
     R (w_disk w) d ∧ keeps (k (Ok a)) (World d (w_passed_login w))) →
  (∀ e, f (w_disk w) = Err e → keeps (k (Err e)) w) →
  keeps (attempt (writing f) ≫= k) w.
Proof.
  intros Hk He. unfold keeps, mbind, handler_bind, attempt, writing.
  destruct (f (w_disk w)) as [[a d]|e] eqn:E; [|by apply He].
  destruct (Hk a d eq_refl) as [Ht Hs]. etrans; [exact Ht|exact Hs].
Qed.

Lemma keeps_updating {A B} (f : db L → expect A * db L) (k : A → handler B) w :
  R (w_disk w) (f (w_disk w)).2 →
  (∀ a, (f (w_disk w)).1 = Ok a → keeps (k a) (World (f (w_disk w)).2 (w_passed_login w))) →
  keeps (updating f ≫= k) w.
Proof.
  intros Ht Hk. unfold keeps, mbind, handler_bind, updating.
  destruct (f (w_disk w)) as [[a|e] d] eqn:E; simpl in *; (etrans; [exact Ht|]); [by apply Hk|reflexivity].
Qed.
End keeps.

(** The laws of a preorder are found by search. *)
Ltac keep rule := apply rule; [exact _|..].

Section request_theorems.
Context `{LL : LmdbLaws} `{C : ChainConfig} `{Crypto} `{UrlParser}.
Context (options : runtime_options) (create_queue_max : Z) (fuel : nat).
Implicit Types (d : db L) (w : world).

(** *** Opening an account *)

Lemma key_check_iff creds :
  key_check creds = true ↔ secret_key_to_public_key (cr_key creds) = Some (view_public (cr_address creds)).
Proof.
  unfold key_check. destruct (secret_key_to_public_key _) as [v|]; [|done]. rewrite Z.eqb_eq. naive_solver.
Qed.

Lemma open_account_iff d creds user :
  accounts_ok d →
  open_account creds d = Ok user ↔
    secret_key_to_public_key (cr_key creds) = Some (view_public (cr_address creds)) ∧
    acc_address user = cr_address creds ∧ ∃ s, s ≠ hidden ∧ user ∈ dups accounts s d.
Proof.
  intros Hok. rewrite <-key_check_iff. unfold open_account. split.
  - intros Hrun. apply expect_bind_ok in Hrun as ([] & Hkey%guard_err_ok & Hrun).
    apply expect_bind_ok in Hrun as ([s a] & Hget & Hrun).
    apply expect_bind_ok in Hrun as ([] & Hhid%guard_err_ok%negb_true_iff & [= ->]).
    apply (get_account_iff _ _ _ _ Hok) in Hget as [Hin Had]. split_and!; [done..|].
    exists s. split; [|done]. by intros ->.
  - intros (-> & Had & s & Hs & Hin). simpl.
    assert (get_account (cr_address creds) d = Ok (s, user)) as -> by by apply get_account_iff.
    simpl. by destruct s.
Qed.

Lemma scanned_to_account d s a height :
  accounts_ok d → a ∈ dups accounts s d → height <= acc_scan_height a →
  scanned_to height (acc_address a) d.
Proof. intros Hok Ha Hh s' a' Ha' Hv. by destruct (view_public_unique d s' s a' a) as [-> ->]. Qed.

Lemma opened_scanned_to d creds user height :
  accounts_ok d → open_account creds d = Ok user → height <= acc_scan_height user →
  scanned_to height (acc_address user) d.
Proof. intros Hok (_ & _ & s & _ & Hin)%open_account_iff Hh; [by eapply scanned_to_account|done]. Qed.

(** The next id depends on the accounts only. *)
Lemma find_last_id_put n k v d : n ≠ accounts → find_last_id (put n k v d) = find_last_id d.
Proof.
  intros Hn. unfold find_last_id. unfold put at 2. rewrite set_tbl_ne by done.
  generalize (mdb_keys (d accounts)), 0. intros l. induction l as [|s l IH]; intros b; simpl; [done|].
  rewrite IH. unfold best_id. by rewrite dups_put_other.
Qed.

Lemma creation_request_ids_left now address key flags lookahead d hooks d' :
  creation_request create_queue_max now address key flags lookahead d = Ok (hooks, d') →
  ids_left d → ids_left d'.
Proof.
  unfold creation_request. intros Hrun Hids.
  apply expect_bind_ok in Hrun as ([] & _ & Hrun). apply expect_bind_ok in Hrun as (t & _ & Hrun).
  destruct (find_by_address _ _); [done|]. apply expect_bind_ok in Hrun as ([] & _ & Hrun).
  apply expect_bind_ok in Hrun as (h & _ & Hrun). apply expect_bind_ok in Hrun as (d1 & Hd1 & [= _ <-]).
  destruct (put_nodup _ _ _ _) eqn:E; [|done]. injection Hd1 as <-.
  apply put_nodup_Ok in E as [-> _]. unfold ids_left. by rewrite find_last_id_put.
Qed.

End request_theorems.

(** *** The sequences of transactions the handlers are *)

Section request_steps.
Context `{LL : LmdbLaws} `{C : ChainConfig} `{Crypto} `{UrlParser}.
Context (options : runtime_options) (create_queue_max : Z) (fuel : nat).
Implicit Types (d : db L) (w : world).

(** The flags wallets can ask for. *)
Context {F : Z → Prop} (wallet_flags : F default_account ∧ F account_generated_locally).

(** Whether the conditions of the transactions are kept. *)
Context (careful : bool).

(** What [m] commits is a sequence of the transactions of [Storage]. *)
Abbreviation steps := (keeps (rtc (transaction careful F))).

#[global] Instance transactions_preorder : PreOrder (rtc (transaction careful F)).
Proof. split; [intros d; apply rtc_refl|intros d1 d2 d3 H12 H23; by etrans]. Qed.


Lemma login_steps now later req w :
  (careful = true → ids_left (w_disk w)) → steps (login_handle options create_queue_max fuel now later req) w.
Proof.
  intros Hids. unfold login_handle. keep keeps_require. intros _. keep keeps_attempt_reading.
  destruct (get_account _ _) as [[s user]|e].
  { keep keeps_require. intros _. keep keeps_passed_login; keep keeps_ret. }
  keep keeps_require. intros _. keep keeps_require. intros _. keep keeps_writing. intros hooks d Hd.
  split; [eapply rtc_once, tx_creation_request; [exact Hd|by destruct (lr_generated_locally req), wallet_flags]|].
  pose proof (λ Hc, creation_request_ids_left _ _ _ _ _ _ _ _ _ Hd (Hids Hc)) as Hids'.
  keep keeps_bind; [|intros lookahead _; keep keeps_ret].
  destruct (auto_accept_creation options); [|keep keeps_ret].
  keep keeps_attempt_writing; [|intros e' _; keep keeps_ret]. intros stored d' Hd'.
  split; [by eapply rtc_once, tx_create_accounts|]. keep keeps_passed_login; keep keeps_ret.
Qed.

(** Shrinking the lookahead keeps the heights. *)
Lemma shrink_lookahead_scanned address lookahead d d' a h :
  accounts_ok d → shrink_lookahead address lookahead d = Ok d' → scanned_to h a d → scanned_to h a d'.
Proof.
  intros Hok Hrun Hs. unfold shrink_lookahead in Hrun.
  apply expect_bind_ok in Hrun as (v & Hv%of_option_ok & Hrun).
  apply expect_bind_ok in Hrun as (user & Hl & Hrun).
  apply expect_bind_ok in Hrun as (_ & _ & [= <-]).
  destruct (find_by_address_ok _ _ _ Hok Hv) as (b & Hb & _ & _ & Hl'). rewrite Hl in Hl'. injection Hl' as ->.
  unfold put_account. intros s x Hx Hv'. apply (elem_of_dups_put accounts) in Hx as [[_ ->]|[Hx _]].
  - by apply (Hs _ b Hb).
  - by apply (Hs s x Hx).
Qed.

(** What an import request leaves for the acceptance. *)
Lemma import_request_stored now address height lookahead d d' :
  Accounts.import_request now address height lookahead d = Ok d' →
  get_both requests import_scan (spend_public address) d' = Some (RequestInfo address 0 height 0 0 lookahead) ∧
  touches [requests] d d'.
Proof.
  unfold Accounts.import_request. intros Hrun. apply expect_bind_ok in Hrun as (t & _ & Hrun).
  destruct (find_by_address _ _); [|done].
  destruct (put_nodup _ _ _ _) eqn:E; [|done]. injection Hrun as <-. apply put_nodup_Ok in E as [-> _].
  split; [by apply (get_both_put_same requests)|]. apply touches_put. set_solver.
Qed.

Lemma scanned_to_touches T h a d d' : touches T d d' → accounts ∉ T → scanned_to h a d → scanned_to h a d'.
Proof. intros Ht HT Hs s x. rewrite (Ht accounts) by done. apply Hs. Qed.

(** The checks of an import may shrink the lookahead; the heights stay. *)
Definition heights_kept d d' : Prop :=
  rtc (transaction careful F) d d' ∧
  (accounts_ok d → accounts_ok d' ∧ ∀ h a, scanned_to h a d → scanned_to h a d').

#[local] Instance heights_kept_preorder : PreOrder heights_kept.
Proof.
  split; [by intros d; split; [apply rtc_refl|]|]. intros d1 d2 d3 [Hs2 H12] [Hs3 H23]. split; [by etrans|].
  intros (Hok2 & Hh2)%H12. destruct (H23 Hok2) as (Hok3 & Hh3). split; auto.
Qed.

Lemma check_import_keeps req w : keeps heights_kept (check_import options req) w.
Proof.
  unfold check_import. keep keeps_reading. intros user _. keep keeps_passed_login.
  keep keeps_require. intros _.
  destruct (_ && negb _); [keep keeps_ret|]. keep keeps_attempt_reading.
  destruct (get_request _ _ _) as [info|e]; [keep keeps_ret|].
  keep keeps_require. intros _. destruct (_ && shrinks req user); [|keep keeps_ret].
  keep keeps_bind; [|intros la _; keep keeps_ret].
  destruct (both_differ req user); [|keep keeps_ret]. keep keeps_writing.
  cbn [w_disk]. intros [] d Hd. split; [|keep keeps_ret].
  destruct (shrink_lookahead _ _ _) as [d1|] eqn:E; [|done]. injection Hd as <-.
  split; [by eapply rtc_once, tx_shrink_lookahead|]. intros Hok. split; [by eapply shrink_lookahead_ok|].
  intros h a. by eapply shrink_lookahead_scanned.
Qed.

Lemma import_steps now later req w :
  (careful = true → accounts_ok (w_disk w) ∧
     (scanned_to (iw_from_height req) (cr_address (iw_creds req)) (w_disk w) ∨ auto_accept_import options = false)) →
  steps (import_request_handle options fuel now later req) w.
Proof.
  intros Hsafe. unfold import_request_handle. destruct (check_import_keeps req w) as (Hsteps & Hkeep).
  keep keeps_bind; [exact Hsteps|]. revert Hkeep.
  destruct (check_import options req w) as [res w']. cbn [fst snd]. intros Hkeep [[new_request fulfilled] la] _.
  keep keeps_bind; [|intros [f l] _; keep keeps_ret].
  destruct new_request; [|keep keeps_ret]. keep keeps_writing. intros [] d Hd.
  destruct (Accounts.import_request _ _ _ _ _) as [d1|] eqn:E; [|done]. injection Hd as ->.
  split; [by eapply rtc_once, tx_import_request|]. destruct (auto_accept_import options) eqn:Ha; [|keep keeps_ret].
  keep keeps_attempt_writing; [|intros e _; keep keeps_ret]. intros stored d' Hd'.
  split; [|keep keeps_ret]. eapply rtc_once, tx_import_accounts; [| |exact Hd'].
  - intros _. apply NoDup_singleton.
  - intros Hc. destruct (Hsafe Hc) as [Hok [Hsc|]]; [|congruence]. destruct (Hkeep Hok) as [_ Hheights]. intros a info [->|[]%elem_of_nil]%elem_of_cons Hinfo.
    apply import_request_stored in E as [E Ht]. cbn [w_disk] in *. rewrite E in Hinfo. injection Hinfo as <-.
    eapply scanned_to_touches; [exact Ht|set_solver|]. by apply Hheights.
Qed.

Lemma rescan_steps creds w :
  (careful = true → accounts_ok (w_disk w)) → steps (request_rescan_handle creds) w.
Proof.
  intros Hok. unfold request_rescan_handle. keep keeps_reading. intros user Hopen. keep keeps_passed_login.
  destruct (Z.leb_spec (acc_scan_height user) (acc_start_height user)); [keep keeps_ret|].
  keep keeps_writing. intros changed d Hd. split; [|keep keeps_ret].
  eapply rtc_once, tx_rescan; [|exact Hd]. intros Hc a [->|[]%elem_of_nil]%elem_of_cons.
  eapply opened_scanned_to; [by apply Hok|exact Hopen|lia].
Qed.

(** The automatic rescan goes back from the height the account had. *)
Lemma auto_rescan_steps user result w :
  (careful = true → scanned_to (acc_scan_height user) (acc_address user) (w_disk w)) →
  steps (maybe_auto_rescan_after_key_images options user result) w.
Proof.
  intros Hs. unfold maybe_auto_rescan_after_key_images.
  destruct (negb _); [keep keeps_ret|]. destruct (result imported <? _); [keep keeps_ret|].
  destruct (Z.leb_spec (acc_scan_height user) (select_auto_rescan_height user (auto_rescan_depth options)));
    [keep keeps_ret|].
  keep keeps_attempt_writing; [|intros e _; keep keeps_ret]. intros changed d Hd. split; [|keep keeps_ret].
  eapply rtc_once, tx_rescan; [|exact Hd]. intros Hc a [->|[]%elem_of_nil]%elem_of_cons s x Hx Hv.
  specialize (Hs Hc s x Hx Hv). lia.
Qed.

Lemma key_images_steps creds images w :
  (careful = true → accounts_ok (w_disk w)) → steps (import_key_images_handle options creds images) w.
Proof.
  intros Hok. unfold import_key_images_handle. keep keeps_reading. intros user Hopen. keep keeps_passed_login.
  keep keeps_updating; cbn [w_disk].
  { apply rtc_once. pose proof (tx_import_key_images (careful := careful) (F := F) (acc_id user) (ik_key_image <$> images)
      (omap exact_source images) (w_disk w)) as Ht. by destruct (import_key_images _ _ _ _). }
  pose proof (touches_import_key_images (acc_id user) (ik_key_image <$> images)
    (omap exact_source images) (w_disk w)) as Ht.
  destruct (import_key_images _ _ _ _) as [result d]. cbn [fst snd] in *. intros a [= <-].
  keep keeps_bind.
  - apply auto_rescan_steps. intros Hc. cbn [w_disk]. eapply scanned_to_touches; [exact Ht|set_solver|].
    eapply opened_scanned_to; [by apply Hok|exact Hopen|done].
  - intros [] _. destruct (debug options); [|keep keeps_bind; [keep keeps_ret|intros; keep keeps_ret]].
    keep keeps_bind; [|intros; keep keeps_ret]. keep keeps_reading. intros u _. keep keeps_ret.
Qed.

Lemma get_subaddrs_steps creds w : steps (get_subaddrs_handle creds) w.
Proof.
  unfold get_subaddrs_handle. keep keeps_reading. intros user _. keep keeps_passed_login. apply rtc_refl.
Qed.

Lemma all_ranges_steps {B} (all : bool) id (k : list subaddress_dict → handler B) w :
  (∀ l, steps (k l) w) →
  steps ((if all then reading (λ d, Ok (get_subaddresses id d)) else mret []) ≫= k) w.
Proof. intros Hk. destruct all; [by keep keeps_reading|by keep keeps_bind; [keep keeps_ret|intros l [= <-]]]. Qed.

Lemma provision_steps req w : steps (provision_subaddrs_handle options req) w.
Proof.
  unfold provision_subaddrs_handle. keep keeps_require. intros _. keep keeps_reading. intros user _.
  keep keeps_passed_login. keep keeps_bind; [|intros l _; apply all_ranges_steps; intros; keep keeps_ret].
  destruct (_ && _); [|keep keeps_ret]. keep keeps_require. intros _. keep keeps_require. intros _.
  unfold keeps, updating. pose proof (tx_upsert_subaddresses (careful := careful) (F := F) (acc_id user) (cr_address (ps_creds req))
    (cr_key (ps_creds req)) (provision_ranges (default 0 (ps_maj_i req)) (default 0 (ps_min_i req))
      (default 50 (ps_n_maj req)) (default 500 (ps_n_min req))) (max_subaddresses options) (w_disk w)) as Ht.
  cbn [w_disk] in *. destruct (upsert_subaddresses _ _ _ _ _ _). by apply rtc_once.
Qed.

Lemma upsert_steps req w : steps (upsert_subaddrs_handle options req) w.
Proof.
  unfold upsert_subaddrs_handle. keep keeps_require. intros _. keep keeps_reading. intros user _.
  keep keeps_passed_login. keep keeps_updating; cbn [w_disk]; [apply rtc_once, tx_upsert_subaddresses|].
  intros l _. apply all_ranges_steps. intros. keep keeps_ret.
Qed.

(** *** Whatever is asked *)

Lemma handle_steps r w :
  (careful = true → accounts_ok (w_disk w) ∧ safe_request options r (w_disk w)) →
  steps (handle options create_queue_max fuel r) w.
Proof.
  intros Hs. assert (∀ A (m : handler A), steps m w → steps (ignore m) w) as Hi.
  { intros A m Hm. unfold ignore. keep keeps_bind; [exact Hm|intros a _; keep keeps_ret]. }
  destruct r; apply Hi; simpl in Hs.
  - apply login_steps. intros Hc. by apply Hs.
  - by apply import_steps.
  - apply rescan_steps. intros Hc. by apply Hs.
  - apply key_images_steps. intros Hc. by apply Hs.
  - apply get_subaddrs_steps.
  - apply provision_steps.
  - apply upsert_steps.
Qed.
End request_steps.

(** *** What is kept *)

Section requests_kept.
Context `{LL : LmdbLaws} `{C : ChainConfig} `{Crypto} `{UrlParser}.
Context (options : runtime_options) (create_queue_max : Z) (fuel : nat).
Implicit Types (d : db L).
Context {F : Z → Prop} (wallet_flags : F default_account ∧ F account_generated_locally).

Lemma steps_consistent d d' : rtc (transaction true F) d d' → consistent d → consistent d'.
Proof. induction 1 as [|d1 d2 d3 H1 _ IH]; [done|]. intros Hd. by eapply IH, transaction_consistent. Qed.

(** What wallets ask for, in whatever order and with whatever outcome, commits
    transactions of the storage only, and every webhook event keeps its webhook;
    if all of it is safe, the account tables stay consistent too: a rescan never
    starts above the height of its account. *)
Theorem requests_keep_consistent d d' :
  (rtc (served options create_queue_max fuel false) d d' →
   rtc (transaction false F) d d' ∧ (events_have_hooks d → events_have_hooks d')) ∧
  (rtc (served options create_queue_max fuel true) d d' → consistent d →
   rtc (transaction true F) d d' ∧ consistent d').
Proof.
  split; intros Hr.
  - assert (rtc (transaction false F) d d') as Ht; [|by split; [|apply (transactions_hooks _ _ _ _ Ht)]].
    induction Hr as [d|d1 d2 d3 [r l d _] _ IH]; [apply rtc_refl|]. etrans; [|exact IH].
    by apply (handle_steps options create_queue_max fuel wallet_flags false r (World d l)).
  - intros Hd. induction Hr as [d|d1 d2 d3 [r l d Hs] _ IH]; [by split; [apply rtc_refl|]|].
    assert (rtc (transaction true F) d (w_disk (handle options create_queue_max fuel r (World d l)).2)) as Ht.
    { apply (handle_steps options create_queue_max fuel wallet_flags true r (World d l)). intros _.
      by split; [apply Hd|apply Hs]. }
    destruct (IH (steps_consistent _ _ Ht Hd)) as [Ht3 Hd3]. split; [by etrans|done].
Qed.

End requests_kept.

(** *** Logging in *)

Section login_theorems.
Context `{LL : LmdbLaws} `{C : ChainConfig} `{Crypto} `{UrlParser}.
Context (options : runtime_options) (create_queue_max : Z) (fuel : nat).
Implicit Types (d : db L) (w : world).

Lemma put_nodup_Err n k v d e :
  put_nodup n k v d = Err e → e = mdb_keyexist ∧ get_both n k (ts_dup_of _ v) d ≠ None.
Proof.
  unfold put_nodup, mdb_put_nodup, get_both. by destruct (mdb_get_both _ _ _); [intros [= <-]|].
Qed.

(** With the right key and an address that is not known only an index that is
    there already can be in the way. *)
Lemma do_add_account_new user d :
  secret_key_to_public_key (acc_key user) = Some (view_public (acc_address user)) →
  find_by_address (acc_address user) d = None →
  match do_add_account user d with
  | Ok d' => user ∈ dups accounts (if acc_flags user =? admin_account then hidden else active) d'
  | Err e => e = mdb_keyexist
  end.
Proof.
  intros Hkey Hnew. unfold do_add_account. rewrite Hkey. simpl. rewrite Z.eqb_refl. simpl.
  set (status := if acc_flags user =? admin_account then hidden else active).
  destruct (put_nodup accounts_by_address _ _ _) as [d1|e] eqn:E1; simpl.
  - destruct (put_nodup accounts_by_height _ _ _) as [d2|e] eqn:E2; simpl; [|by apply put_nodup_Err in E2 as [-> _]].
    destruct (put_nodup accounts _ _ _) as [d3|e] eqn:E3; [|by apply put_nodup_Err in E3 as [-> _]].
    apply put_nodup_Ok in E3 as [-> _]. apply (elem_of_dups_put accounts). by left.
  - by apply put_nodup_Err in E1 as [_ []].
Qed.

(** Accepting the only request of a new account stores it. *)
Lemma create_accounts_new now address key height time flags lookahead max d stored d' :
  secret_key_to_public_key key = Some (view_public address) → flags ≠ admin_account →
  find_by_address address d = None →
  get_both requests create (spend_public address) d = Some (RequestInfo address key height time flags lookahead) →
  create_accounts fuel now [address] max d = Ok (stored, d') →
  ∃ user, user ∈ dups accounts active d' ∧ acc_address user = address ∧
    acc_lookahead user = lookahead ∧ acc_start_height user = height.
Proof.
  intros Hkey Hflags Hnew Hreq Hrun. unfold create_accounts in Hrun.
  apply expect_bind_ok in Hrun as (t & _ & Hrun).
  apply expect_bind_ok in Hrun as ([[stored1 last1] d1] & H1 & [= <- <-]).
  cbn [fold_err] in H1. apply expect_bind_ok in H1 as (st & H1 & [= ->]).
  unfold create_account in H1. rewrite Hreq in H1. cbn [ri_key ri_start_height ri_creation ri_creation_flags ri_lookahead] in H1.
  apply expect_bind_ok in H1 as ([] & _ & H1). apply expect_bind_ok in H1 as ([user d2] & H2 & H1).
  assert (touches [requests; subaddress_ranges; subaddress_indexes] d d2 ∧ acc_address user = address ∧
    acc_lookahead user = lookahead ∧ acc_start_height user = height ∧ acc_key user = key ∧ acc_flags user = flags)
    as (Ht & Ha & Hl & Hs & Hk & Hf).
  { destruct (negb (is_zero lookahead)) eqn:Hz.
    - apply do_lookahead_user_ok in H2 as [Ht [fail' ->]]. split_and!; try done.
      etrans; [apply (touches_del _ requests)|eapply touches_weaken, Ht]; set_solver.
    - injection H2 as <- <-. split_and!; try done; [apply touches_del; set_solver|]. simpl.
      unfold is_zero in Hz. apply negb_false_iff, andb_true_iff in Hz as [Hz1%Z.eqb_eq Hz2%Z.eqb_eq].
      destruct lookahead; simpl in *. congruence. }
  pose proof (do_add_account_new user d2) as Hadd. rewrite Hk, Ha, Hf in Hadd.
  rewrite (proj2 (Z.eqb_neq _ _) Hflags) in Hadd.
  assert (find_by_address address d2 = None) as Hnew2.
  { unfold find_by_address in *. rewrite (get_both_touches _ _ _ _ _ _ Ht); [done|set_solver]. }
  specialize (Hadd Hkey Hnew2). destruct (do_add_account user d2) as [d3|e].
  - injection H1 as _ _ <-. by exists user.
  - rewrite Hadd in H1. by rewrite decide_False in H1 by naive_solver.
Qed.

(** The request [creation_request] stores. *)
Lemma creation_request_stored now address key flags lookahead d hooks d' :
  creation_request create_queue_max now address key flags lookahead d = Ok (hooks, d') →
  find_by_address address d' = None ∧ ∃ height,
    bi_id <$> get_last_block d = Ok height ∧
    get_both requests create (spend_public address) d' =
      Some (RequestInfo address key height now flags lookahead).
Proof.
  unfold creation_request. intros Hrun.
  apply expect_bind_ok in Hrun as ([] & _ & Hrun). apply expect_bind_ok in Hrun as (t & Ht & Hrun).
  assert (t = now) as ->. { unfold get_account_time in Ht. by destruct (_ || _); [|injection Ht]. }
  destruct (find_by_address address d) eqn:Hnew; [done|]. apply expect_bind_ok in Hrun as ([] & _ & Hrun).
  apply expect_bind_ok in Hrun as (h & Hh & Hrun). apply expect_bind_ok in Hrun as (d1 & Hd1 & [= _ <-]).
  destruct (put_nodup _ _ _ _) eqn:E; [|done]. injection Hd1 as <-. apply put_nodup_Ok in E as [-> _].
  split; [|exists h; split; [done|by apply (get_both_put_same requests)]].
  unfold find_by_address. rewrite (get_both_touches [requests] accounts_by_address _ _ d); [done| |set_solver].
  apply touches_put. set_solver.
Qed.

(** What a handler that returns a result has gone through. *)
Lemma handler_bind_ok {A B} (m : handler A) (f : A → handler B) b w w' :
  (m ≫= f) w = (Ok b, w') ↔ ∃ a w1, m w = (Ok a, w1) ∧ f a w1 = (Ok b, w').
Proof. unfold mbind, handler_bind. destruct (m w) as [[a|e] w1]; naive_solver. Qed.

Lemma require_ok c e u w w' : require c e w = (Ok u, w') ↔ c = true ∧ w' = w.
Proof. destruct c, u; unfold require, mret, handler_ret, fail; naive_solver. Qed.

Lemma writing_ok {A} (f : db L → expect (A * db L)) a w w' :
  writing f w = (Ok a, w') ↔ ∃ d, f (w_disk w) = Ok (a, d) ∧ w' = World d (w_passed_login w).
Proof. unfold writing. destruct (f (w_disk w)) as [[a' d]|e]; naive_solver. Qed.

(** The part of [login] that creates the account. *)
Lemma login_creates now later req w resp hooks w' :
  accounts_ok (w_disk w) → ids_left (w_disk w) → key_check (lr_creds req) = true →
  (hooks ← writing (creation_request create_queue_max now (cr_address (lr_creds req)) (cr_key (lr_creds req))
       (if lr_generated_locally req then account_generated_locally else default_account) (lr_lookahead req));
   lookahead ←
     (if auto_accept_creation options then
        accepted ← attempt (writing (accept_requests fuel later create [cr_address (lr_creds req)]
          (max_subaddresses options)));
        match accepted with
        | Err _ => mret (AddressIndex 0 0)
        | Ok _ => _ ← passed_login; mret (lr_lookahead req)
        end
      else mret (AddressIndex 0 0));
   mret (LoginResponse true (lr_generated_locally req) lookahead, hooks)) w = (Ok (resp, hooks), w') →
  w_passed_login w = false → w_passed_login w' = true →
  ∃ user, open_account (lr_creds req) (w_disk w') = Ok user ∧
    acc_lookahead user = login_lookahead resp ∧
    bi_id <$> get_last_block (w_disk w) = Ok (acc_start_height user).
Proof.
  intros Hok Hids Hkey%key_check_iff Hrun Hout Hin.
  apply handler_bind_ok in Hrun as (hooks1 & w1 & Hw & Hrun).
  apply writing_ok in Hw as (d1 & Hd1 & ->). cbn [w_passed_login] in Hrun.
  apply handler_bind_ok in Hrun as (la & w2 & Hla & [= <- _ <-]).
  pose proof (creation_request_stored _ _ _ _ _ _ _ _ Hd1) as (Hnew & height & Hh & Hreq).
  pose proof (creation_request_ids_left _ _ _ _ _ _ _ _ _ Hd1 Hids) as [Hids1 Hids2].
  apply touches_creation_request in Hd1.
  destruct (auto_accept_creation options); [|by injection Hla as _ <-; rewrite Hout in Hin].
  unfold mbind, handler_bind, attempt, writing in Hla. cbn [w_disk w_passed_login] in Hla.
  destruct (accept_requests _ _ _ _ _ _) as [[stored d2]|e] eqn:E.
  2:{ injection Hla as _ <-. by rewrite Hout in Hin. }
  injection Hla as <- <-. cbn [w_disk login_lookahead].
  assert (accounts_ok d1) as Hok1.
  { eapply touches_accounts_ok; [exact Hd1|unfold free_tables; set_solver|done]. }
  pose proof (create_accounts_ok _ _ _ _ _ _ _ Hok1 Hids2 Hids1 E) as Hok2.
  assert ((if lr_generated_locally req then account_generated_locally else default_account) ≠ admin_account) as Hflags
    by by destruct (lr_generated_locally req).
  destruct (create_accounts_new _ _ _ _ _ _ _ _ _ _ _ Hkey Hflags Hnew Hreq E) as (user & Hu & Ha & Hl & Hs).
  exists user. split_and!; [|done|by rewrite Hs]. apply open_account_iff; [done|]. split_and!; [done..|].
  by exists active.
Qed.

Lemma login_opens_account now later req w resp hooks w' :
  accounts_ok (w_disk w) → ids_left (w_disk w) →
  login_handle options create_queue_max fuel now later req w = (Ok (resp, hooks), w') →
  w_passed_login w = false → w_passed_login w' = true →
  ∃ user, open_account (lr_creds req) (w_disk w') = Ok user ∧
    acc_lookahead user = login_lookahead resp ∧
    (new_address resp = true → bi_id <$> get_last_block (w_disk w) = Ok (acc_start_height user)).
Proof.
  intros Hok Hids Hrun Hout Hin. unfold login_handle in Hrun.
  apply handler_bind_ok in Hrun as ([] & w1 & [Hkey ->]%require_ok & Hrun).
  apply handler_bind_ok in Hrun as (account & w1 & [= <- <-] & Hrun).
  destruct (get_account _ _) as [[s user]|e] eqn:Hget.
  - apply handler_bind_ok in Hrun as ([] & w1 & [Hhid ->]%require_ok & [= <- <- <-]).
    exists user. split_and!; [|done|done]. unfold open_account. simpl. rewrite Hkey. simpl. rewrite Hget. simpl. by rewrite Hhid.
  - apply handler_bind_ok in Hrun as ([] & w1 & [_ ->]%require_ok & Hrun).
    apply handler_bind_ok in Hrun as ([] & w1 & [_ ->]%require_ok & Hrun).
    destruct (login_creates _ _ _ _ _ _ _ Hok Hids Hkey Hrun Hout Hin) as (user & Ho & Hl & Hs).
    by exists user.
Qed.

(** C15: in a consistent database credentials open an account exactly when the
    view key is the secret key of the address, and the account has this address
    and is active or inactive. *)
Theorem opened_with_key d creds user :
  accounts_ok d →
  open_account creds d = Ok user ↔
    secret_key_to_public_key (cr_key creds) = Some (view_public (cr_address creds)) ∧
    acc_address user = cr_address creds ∧ ∃ s, s ≠ hidden ∧ user ∈ dups accounts s d.
Proof. apply open_account_iff. Qed.

(** A connection that a login marks as logged in can open the account of its
    credentials from then on.  The account has the lookahead of the response,
    and one that was created starts at the last block. *)
Theorem login_opens now later req w resp hooks w' :
  accounts_ok (w_disk w) → ids_left (w_disk w) →
  login_handle options create_queue_max fuel now later req w = (Ok (resp, hooks), w') →
  w_passed_login w = false → w_passed_login w' = true →
  ∃ user, open_account (lr_creds req) (w_disk w') = Ok user ∧
    acc_lookahead user = login_lookahead resp ∧
    (new_address resp = true → bi_id <$> get_last_block (w_disk w) = Ok (acc_start_height user)).
Proof. apply login_opens_account. Qed.

(** *** Bounds of the lookahead *)

Lemma check_lookahead_exact lookahead :
  0 <= maj_i lookahead <= u32_max → 0 <= min_i lookahead → maj_i lookahead * min_i lookahead < 2 ^ 32 →
  0 <= max_subaddresses options →
  check_lookahead options lookahead = true ↔ maj_i lookahead * min_i lookahead <= max_subaddresses options.
Proof.
  intros [Hmaj Hm] Hmin Hlt Hmax. unfold check_lookahead, to_uint.
  destruct (Z.eqb_spec (min_i lookahead) 0) as [->|Hne]; simpl; [lia|].
  assert (maj_i lookahead / min_i lookahead <= u32_max) as Hdiv.
  { apply Z.div_le_upper_bound; [lia|]. nia. }
  destruct (Z.ltb_spec u32_max (maj_i lookahead / min_i lookahead)); [lia|].
  rewrite wrap_small by nia. apply Z.leb_le.
Qed.

(** The quotient never exceeds 32 bits and the product wraps: 2^16 times 2^16
    subaddresses pass any limit. *)
Lemma check_lookahead_wraps :
  0 <= max_subaddresses options → check_lookahead options (AddressIndex (2 ^ 16) (2 ^ 16)) = true.
Proof. intros Hmax. unfold check_lookahead. simpl. by apply Z.leb_le. Qed.

(** *** Shrinking one half of a lookahead *)

(** An import that only makes one half of the lookahead smaller is approved, and
    changes nothing: the lookahead is stored when both halves differ. *)
Lemma import_shrink_ignored now later req d logged_in user :
  open_account (iw_creds req) d = Ok user → acc_lookahead_fail user = 0 →
  check_lookahead options (iw_lookahead req) = true →
  get_request import_scan (cr_address (iw_creds req)) d = Err mdb_notfound →
  acc_start_height user <= iw_from_height req → shrinks req user = true →
  change_lookahead req user = true → both_differ req user = false →
  import_request_handle options fuel now later req (World d logged_in) =
    (Ok (ImportResponse 0 "Approved" (acc_lookahead user) false true), World d true).
Proof.
  intros Ho Hf Hc Hr Hh Hs Hch Hb. unfold import_request_handle, check_import.
  unfold mbind, handler_bind, reading. cbn [w_disk]. rewrite Ho, Hf. unfold passed_login, require. rewrite Hc.
  cbn [w_disk mret handler_ret]. rewrite Hch, Hs, Hb. cbn [negb andb]. rewrite andb_false_r. cbn [andb].
  unfold attempt, reading. cbn [w_disk]. rewrite Hr. cbn.
  unfold expanded_depth. destruct (Z.ltb_spec (iw_from_height req) (acc_start_height user)); [lia|]. done.
Qed.
End login_theorems.

(** ** Examples *)

#[local] Existing Instance test_crypto.
#[local] Existing Instance test_config.
#[local] Instance no_urls : UrlParser := {| parse_url _ := None |}.

Definition test_options : runtime_options := RuntimeOptions 1000 false true true false false 0 0.

Definition creds (n : Z) : account_credentials := AccountCredentials (test_address n) n.

Definition ahead_request : import_wallet_request := ImportWalletRequest (creds 6) 6 (AddressIndex 1 1).

(** An import with a larger lookahead is accepted whatever height it asks
    for: from a height above that of the account it leaves the account indexed
    under a height it does not have, and its status cannot be changed any more.
    The response to an accepted import says that it waits for approval. *)
Theorem import_above_scan_height :
  match import_request_handle test_options 10 1000 1000 ahead_request (World chain_and_account_db false) with
  | (Ok resp, w) =>
      resp = ImportResponse 0 "Accepted, waiting for approval" (AddressIndex 1 1) true true ∧
      AccountLookup 1 active ∈ dups accounts_by_height 6 (w_disk w) ∧
      (∃ user, open_account (creds 6) (w_disk w) = Ok user ∧ acc_scan_height user = 4) ∧
      change_status inactive [test_address 6] (w_disk w) = Err mdb_notfound
  | _ => False
  end.
Proof.
  vm_compute. split; [reflexivity|]. split; [left|]. split; [|reflexivity].
  eexists. split; reflexivity.
Qed.

Definition first_login : login_request := LoginRequest (creds 7) (AddressIndex 1 2) true false.

Lemma login_opens_witness :
  match login_handle test_options 10 10 1000 1001 first_login (World account_db false) with
  | (Ok (resp, _), w) =>
      ∃ user, open_account (creds 7) (w_disk w) = Ok user ∧ acc_lookahead user = AddressIndex 1 2 ∧
        acc_start_height user = 4
  | _ => False
  end.
Proof.
  destruct (login_handle test_options 10 10 1000 1001 first_login (World account_db false))
    as [[[resp hooks]|e] w] eqn:E; [|discriminate].
  destruct (login_opens test_options 10 10 1000 1001 first_login (World account_db false) resp hooks w
    account_db_ok ltac:(vm_compute; split; [discriminate|reflexivity]) E eq_refl) as (user & Ho & Hl & Hs).
  { revert E. vm_compute. by intros [= _ _ <-]. }
  exists user. assert (login_lookahead resp = AddressIndex 1 2 ∧ new_address resp = true) as [Hr Hn].
  { revert E. vm_compute. by intros [= <- _ _]. }
  split; [done|]. split; [by rewrite Hl|]. specialize (Hs Hn). vm_compute in Hs. by injection Hs.
Defined.

Lemma opened_with_key_witness : open_account (creds 6) account_db = Ok (test_account 1 6 4).
Proof.
  apply (opened_with_key account_db (creds 6)); [apply account_db_ok|].
  split; [reflexivity|]. split; [reflexivity|]. exists active. split; [discriminate|vm_compute; left].
Defined.

Lemma requests_keep_consistent_witness :
  let d := w_disk (handle test_options 10 10 (req_login 1000 1001 first_login) (World account_db false)).2 in
  let d' := w_disk (handle test_options 10 10 (req_rescan (creds 7)) (World d true)).2 in
  rtc (transaction true (λ flags, flags ≠ admin_account)) account_db d' ∧ consistent d'.
Proof.
  intros d d'. apply (requests_keep_consistent test_options 10 10).
  - split; discriminate.
  - eapply rtc_l; [apply (serve _ _ _ true (req_login 1000 1001 first_login) false); intros _; vm_compute; split; [discriminate|reflexivity]|].
    eapply rtc_l; [apply (serve _ _ _ true (req_rescan (creds 7)) true); intros _; exact I|apply rtc_refl].
  - split; [apply account_db_ok|]. intros u e He. vm_compute in He. by apply elem_of_nil in He.
Defined.
