(* ===== verification/Overlay.v ===== *)
(** * Incoming transactions of the pool (src/src/rest_server.cpp)

    The scanner only stores what is in a block.  [/get_address_info] and
    [/get_address_txs] also show what the pool of the daemon has for the account:
    [fetch_txpool_incoming_overlay] looks through it with the view key, for the
    main address only.

    Monero's functions are the parameters [ScanCrypto]; the pool is an argument.
    Shown is what a match is, and that every output of the pool that derives to
    the main address, with the key of its transaction or the additional key of its
    index, gives one ([overlay_exact]). *)

From S2P Require Import Prelude Data Scan.

Record tx_in_pool := TxInPool { pool_tx : transaction; pool_hash : Z; pool_receive_time : Z }.

Record txpool_overlay_match := OverlayMatch {
  om_output : output;
  om_tx_hash : Z;
  om_daemon_receive_time : Z
}.

Section overlay.
Context `{K : ScanCrypto}.
Context (account : account) (now : Z).

(** The mixin of the last ring and the flag of a coinbase. *)
Fixpoint overlay_inputs (vin : list tx_input) (mixin ext : Z) : expect (Z * Z) :=
  match vin with
  | [] => Ok (mixin, ext)
  | Txin_to_key _ offsets _ :: vin =>
    _ ← guard_err (ring_mixin offsets <=? u32_max) runtime_error;
    overlay_inputs vin (ring_mixin offsets) ext
  | Txin_gen :: vin => overlay_inputs vin mixin (Z.lor ext coinbase_output)
  | Txin_other :: vin => overlay_inputs vin mixin ext
  end.

(** What is known of a transaction before its outputs are looked at. *)
Record overlay_context := OverlayContext {
  ov_entry : tx_in_pool;
  ov_pub_key : Z;
  ov_nonce : list Z;
  ov_additional : list Z;
  ov_derived : Z;
  ov_derivations : list Z;
  ov_mixin : Z;
  ov_ext : Z
}.

(** The two attempts: the derivation and the key it is of. *)
Definition overlay_attempts (cx : overlay_context) (index : nat) : list (Z * Z) :=
  (ov_derived cx, ov_pub_key cx) ::
  match ov_derivations cx !! index, ov_additional cx !! index with
  | Some derived, Some pub => [(derived, pub)]
  | _, _ => []
  end.

(** The first attempt that gives the spend key of the account. *)
Definition overlay_owner (cx : overlay_context) (out_pub : Z) (index : nat) : option (Z * Z) :=
  List.find (λ t, bool_decide (derive_subaddress_public_key out_pub t.1 index = Some (spend_public (acc_address account))))
    (overlay_attempts cx index).

Definition overlay_tag (cx : overlay_context) (out : tx_output) (index : nat) : bool :=
  match ov_derivations cx !! index with
  | Some derived => out_can_be_to_acc (out_view_tag out) derived index
  | None => false
  end || out_can_be_to_acc (out_view_tag out) (ov_derived cx) index.

(** Amount, mask and flags; the flags of one output do not go on to the next. *)
Definition overlay_amount (cx : overlay_context) (out : tx_output) (index : nat) (derived : Z) : option (Z * Z * Z) :=
  let tx := pool_tx (ov_entry cx) in
  let ext := ov_ext cx in
  if (out_amount out =? 0) && (Z.land ext coinbase_output =? 0) && (1 <? tx_version tx) then
    commitment ← tx_out_pk tx !! index;
    info ← tx_ecdh_info tx !! index;
    '(amount, mask) ← decode_amount commitment info derived index (RCTTypeBulletproof2 <=? tx_rct_type tx);
    Some (amount, mask, Z.lor ext ringct_output)
  else Some (out_amount out, rct_identity, if 1 <? tx_version tx then Z.lor ext ringct_output else ext).

(** Only an encrypted payment id is looked for. *)
Definition overlay_payment (cx : overlay_context) (derived : Z) : Z * list Z :=
  match ov_nonce cx with
  | [] => (0, replicate 32 0)
  | nonce =>
    match get_encrypted_payment_id_from_tx_extra_nonce nonce with
    | None => (0, replicate 32 0)
    | Some short => (8, decrypt_payment_id short derived ++ replicate 24 0)
    end
  end.

Definition overlay_output (cx : overlay_context) (index : nat) (out : tx_output) : option txpool_overlay_match :=
  let tx := pool_tx (ov_entry cx) in
  let hash := pool_hash (ov_entry cx) in
  let receive_time := pool_receive_time (ov_entry cx) in
  out_pub ← out_target out;
  if negb (overlay_tag cx out index) then None
  else
    '(derived, pub) ← overlay_owner cx out_pub index;
    '(amount, mask, ext) ← overlay_amount cx out index derived;
    let payment := overlay_payment cx derived in
    Some (OverlayMatch
      {| o_link := TransactionLink block_id_txpool hash;
         o_spend_meta := SpendMeta output_id_txpool amount (ov_mixin cx) (Z.of_nat index) pub;
         o_timestamp := if receive_time =? 0 then now else receive_time;
         o_unlock_time := tx_unlock_time tx; o_tx_prefix_hash := get_transaction_prefix_hash tx;
         o_pub := out_pub; o_ringct_mask := mask; o_extra := pack ext payment.1;
         o_payment_id := payment.2; o_fee := get_tx_fee tx; o_recipient := AddressIndex 0 0 |}
      hash receive_time).

(** The derivations of the additional keys: one for each output, or none. *)
Definition overlay_derivations (additional : list Z) (tx : transaction) : list Z :=
  if bool_decide (length additional = length (tx_vout tx))
  then default [] (mapM (λ key, generate_key_derivation key (acc_key account)) additional)
  else [].

(** One transaction of the pool. *)
Definition overlay_transaction (entry : tx_in_pool) : expect (list txpool_overlay_match) :=
  let tx := pool_tx entry in
  if 2 <? tx_version tx then Ok []
  else
    match find_extra_pub_key (tx_extra tx) with
    | None => Ok []
    | Some pub_key =>
      match generate_key_derivation pub_key (acc_key account) with
      | None => Ok []
      | Some derived =>
        '(mixin, ext) ← overlay_inputs (tx_vin tx) 0 0;
        let additional := find_extra_additional (tx_extra tx) in
        let cx := OverlayContext entry pub_key (default [] (find_extra_nonce (tx_extra tx))) additional
                    derived (overlay_derivations additional tx) mixin ext in
        Ok (omap id (imap (overlay_output cx) (tx_vout tx)))
      end
    end.

Fixpoint overlay_transactions (txpool : list tx_in_pool) : expect (list txpool_overlay_match) :=
  match txpool with
  | [] => Ok []
  | entry :: txpool =>
    matches ← overlay_transaction entry;
    more ← overlay_transactions txpool;
    Ok (matches ++ more)
  end.

(** The pool comes from the daemon. *)
Definition fetch_txpool_incoming_overlay (txpool_transactions : expect (list tx_in_pool)) :
    expect (list txpool_overlay_match) :=
  txpool_transactions ≫= overlay_transactions.
End overlay.

(** ** What the overlay is *)

Section overlay_theorems.
Context `{K : ScanCrypto}.
Context (account : account) (now : Z).

(** The amount of an output: plain, or the one its commitment opens to. *)
Definition overlay_opens (entry : tx_in_pool) (derived : Z) (index : nat) (out : tx_output) (amount : Z) : Prop :=
  (out_amount out = amount) ∨
  ∃ commitment info mask, tx_out_pk (pool_tx entry) !! index = Some commitment ∧
    tx_ecdh_info (pool_tx entry) !! index = Some info ∧
    decode_amount commitment info derived index (RCTTypeBulletproof2 <=? tx_rct_type (pool_tx entry)) =
      Some (amount, mask).

(** The output [index] with the key [out_pub] derives to the main address: with the
    key of the transaction, or else with the additional key of its index, which
    counts when there is one for each output and all of them are points. *)
Inductive overlay_route (entry : tx_in_pool) (index : nat) (out_pub : Z) : Z → Z → Prop :=
  | route_main key derived :
      find_extra_pub_key (tx_extra (pool_tx entry)) = Some key →
      generate_key_derivation key (acc_key account) = Some derived →
      derive_subaddress_public_key out_pub derived index = Some (spend_public (acc_address account)) →
      overlay_route entry index out_pub derived key
  | route_additional key main pub derived :
      find_extra_pub_key (tx_extra (pool_tx entry)) = Some key →
      generate_key_derivation key (acc_key account) = Some main →
      derive_subaddress_public_key out_pub main index ≠ Some (spend_public (acc_address account)) →
      length (find_extra_additional (tx_extra (pool_tx entry))) = length (tx_vout (pool_tx entry)) →
      Forall (λ k, is_Some (generate_key_derivation k (acc_key account))) (find_extra_additional (tx_extra (pool_tx entry))) →
      find_extra_additional (tx_extra (pool_tx entry)) !! index = Some pub →
      generate_key_derivation pub (acc_key account) = Some derived →
      derive_subaddress_public_key out_pub derived index = Some (spend_public (acc_address account)) →
      overlay_route entry index out_pub derived pub.

(** What the match of the output [index] of [entry] says. *)
Record overlay_match (entry : tx_in_pool) (index : nat) (m : txpool_overlay_match) : Prop := {
  om_version : tx_version (pool_tx entry) <= 2;
  om_link : o_link (om_output m) = TransactionLink block_id_txpool (pool_hash entry);
  om_index : sme_index (o_spend_meta (om_output m)) = Z.of_nat index;
  om_id : sme_id (o_spend_meta (om_output m)) = output_id_txpool;
  om_recipient : o_recipient (om_output m) = AddressIndex 0 0;
  om_owned : ∃ out derived, tx_vout (pool_tx entry) !! index = Some out ∧
    out_target out = Some (o_pub (om_output m)) ∧
    overlay_route entry index (o_pub (om_output m)) derived (sme_tx_public (o_spend_meta (om_output m))) ∧
    overlay_opens entry derived index out (sme_amount (o_spend_meta (om_output m)))
}.

Lemma overlay_amount_opens cx out index derived amount mask ext :
  overlay_amount cx out index derived = Some (amount, mask, ext) →
  overlay_opens (ov_entry cx) derived index out amount.
Proof.
  unfold overlay_amount. destruct (_ && _); [|intros [= <- _ _]; by left].
  intros (commitment & Hc & Hrun)%bind_Some. apply bind_Some in Hrun as (info & Hi & Hrun).
  apply bind_Some in Hrun as ([a k] & Hd & [= -> -> _]). right. by exists commitment, info, mask.
Qed.

(** What [overlay_transaction] knows when it looks at the outputs of [entry]. *)
Definition context_of (entry : tx_in_pool) (cx : overlay_context) : Prop :=
  ov_entry cx = entry ∧
  find_extra_pub_key (tx_extra (pool_tx entry)) = Some (ov_pub_key cx) ∧
  generate_key_derivation (ov_pub_key cx) (acc_key account) = Some (ov_derived cx) ∧
  ov_additional cx = find_extra_additional (tx_extra (pool_tx entry)) ∧
  ov_derivations cx = overlay_derivations account (ov_additional cx) (pool_tx entry).

Lemma overlay_derivations_lookup additional tx index derived :
  overlay_derivations account additional tx !! index = Some derived ↔
  length additional = length (tx_vout tx) ∧
  Forall (λ k, is_Some (generate_key_derivation k (acc_key account))) additional ∧
  ∃ pub, additional !! index = Some pub ∧ generate_key_derivation pub (acc_key account) = Some derived.
Proof.
  unfold overlay_derivations. case_bool_decide as Hlen; [|by split; [|intros [? _]]].
  destruct (mapM _ additional) as [l|] eqn:E; simpl.
  - pose proof (proj1 (mapM_Some _ _ _) E) as Hall. split.
    + intros Hl. split; [done|]. split; [apply mapM_is_Some; by eexists|].
      destruct (Forall2_lookup_r _ _ _ _ _ Hall Hl) as (pub & ? & ?). by exists pub.
    + intros (_ & _ & pub & Hp & Hd). destruct (Forall2_lookup_l _ _ _ _ _ Hall Hp) as (d & ? & ?). congruence.
  - split; [done|]. intros (_ & Hall & _). apply mapM_is_Some in Hall as [l Hl]. congruence.
Qed.

(** The owner is found by going through the routes. *)
Lemma overlay_owner_route entry cx out_pub index derived pub :
  context_of entry cx →
  overlay_owner account cx out_pub index = Some (derived, pub) ↔ overlay_route entry index out_pub derived pub.
Proof.
  intros (Hentry & Hkey & Hd & Hadd & Hders). unfold overlay_owner, overlay_attempts. simpl.
  rewrite Hders. rewrite Hadd in *. split.
  - case_bool_decide as Hmain; [intros [= <- <-]; by eapply route_main|].
    destruct (overlay_derivations _ _ _ !! index) as [d|] eqn:Ei; [|done].
    apply overlay_derivations_lookup in Ei as (Hlen & Hall & p & Hp & Hpd). rewrite Hp. simpl.
    case_bool_decide as Hown; [|done]. intros [= <- <-]. by eapply route_additional.
  - intros Hroute. destruct Hroute as [key d Hk Hkd Hown|key main p d Hk Hkd Hno Hlen Hall Hp Hpd Hown].
    + rewrite Hkey in Hk. injection Hk as <-. rewrite Hd in Hkd. injection Hkd as <-. by rewrite bool_decide_eq_true_2.
    + rewrite Hkey in Hk. injection Hk as <-. rewrite Hd in Hkd. injection Hkd as <-. rewrite bool_decide_eq_false_2 by done.
      rewrite (proj2 (overlay_derivations_lookup _ (pool_tx entry) index d)) by eauto. rewrite Hp. simpl.
      by rewrite bool_decide_eq_true_2.
Qed.

Lemma overlay_output_match entry cx index out m :
  context_of entry cx → tx_version (pool_tx entry) <= 2 → tx_vout (pool_tx entry) !! index = Some out →
  overlay_output account now cx index out = Some m → overlay_match entry index m.
Proof.
  intros Hcx Hv Hout (out_pub & Ht & Hrun)%bind_Some. destruct (negb _); [done|].
  apply bind_Some in Hrun as ([derived pub] & Ho & Hrun).
  apply bind_Some in Hrun as ([[amount mask] ext] & Ha & [= <-]).
  apply (overlay_owner_route entry) in Ho; [|done]. pose proof Hcx as (<- & _).
  split; [done..|]. exists out, derived. split_and!; [done..|]. by eapply overlay_amount_opens.
Qed.

(** What is known of a transaction the overlay does not pass over. *)
Lemma overlay_transaction_ok entry matches :
  overlay_transaction account now entry = Ok matches →
  matches = [] ∨ ∃ cx, context_of entry cx ∧ tx_version (pool_tx entry) <= 2 ∧
    matches = omap id (imap (overlay_output account now cx) (tx_vout (pool_tx entry))).
Proof.
  unfold overlay_transaction. destruct (Z.ltb_spec 2 (tx_version (pool_tx entry))); [intros [= <-]; by left|].
  destruct (find_extra_pub_key _) as [pub_key|] eqn:Ek; [|intros [= <-]; by left].
  destruct (generate_key_derivation _ _) as [derived|] eqn:Ed; [|intros [= <-]; by left].
  intros ([mixin ext] & _ & [= <-])%expect_bind_ok. right. eexists. split; [|split; [lia|reflexivity]].
  by repeat split.
Qed.

Lemma elem_of_overlay_transactions txpool : ∀ matches m,
  overlay_transactions account now txpool = Ok matches → m ∈ matches ↔
    ∃ entry l, entry ∈ txpool ∧ overlay_transaction account now entry = Ok l ∧ m ∈ l.
Proof.
  induction txpool as [|entry txpool IH]; simpl; intros matches m.
  - intros [= <-]. split; [by intros ?%elem_of_nil|]. by intros (e & l & ?%elem_of_nil & _).
  - intros (l1 & H1 & Hrun)%expect_bind_ok. apply expect_bind_ok in Hrun as (l2 & H2 & [= <-]).
    rewrite elem_of_app, (IH _ _ H2). setoid_rewrite elem_of_cons. split.
    + intros [Hm|(e & l & ? & ? & ?)]; [exists entry, l1|exists e, l]; auto.
    + intros (e & l & [->|?] & Hl & Hm); [left|right; by exists e, l]. rewrite H1 in Hl. by injection Hl as ->.
Qed.

Lemma overlay_transactions_each txpool : ∀ matches entry,
  overlay_transactions account now txpool = Ok matches → entry ∈ txpool →
  ∃ l, overlay_transaction account now entry = Ok l.
Proof.
  induction txpool as [|e txpool IH]; intros matches entry; [by intros _ ?%elem_of_nil|].
  intros (l1 & H1 & Hrun)%expect_bind_ok. apply expect_bind_ok in Hrun as (l2 & H2 & _).
  intros [->|Hin]%elem_of_cons; [by exists l1|by eapply IH].
Qed.

Lemma elem_of_omap_imap {A B} (f : nat → A → option B) (l : list A) b :
  b ∈ omap id (imap f l) ↔ ∃ i a, l !! i = Some a ∧ f i a = Some b.
Proof.
  rewrite list_elem_of_omap. split.
  - intros (o & Ho & Heq). unfold id in Heq. subst o. apply list_elem_of_lookup in Ho as [i Hi]. rewrite list_lookup_imap in Hi.
    destruct (l !! i) as [a|] eqn:E; [|done]. injection Hi as Hi. by exists i, a.
  - intros (i & a & Hl & Hf). exists (Some b). split; [|done].
    apply list_elem_of_lookup. exists i. by rewrite list_lookup_imap, Hl; simpl; rewrite Hf.
Qed.

(** An output with a route, a tag that fits and an amount that is known is found. *)
Lemma overlay_output_found entry cx index out out_pub derived pub :
  context_of entry cx → overlay_route entry index out_pub derived pub →
  out_target out = Some out_pub → out_can_be_to_acc (out_view_tag out) derived index = true →
  is_Some (overlay_amount cx out index derived) →
  ∃ m, overlay_output account now cx index out = Some m ∧ sme_tx_public (o_spend_meta (om_output m)) = pub.
Proof.
  intros Hcx Hroute Ht Htag [[[amount mask] ext] Ha]. unfold overlay_output. rewrite Ht. simpl.
  assert (overlay_tag cx out index = true) as ->.
  { destruct Hcx as (_ & Hkey & Hd & Hadd & Hders). unfold overlay_tag. apply orb_true_iff. rewrite Hders, Hadd.
    destruct Hroute as [key d Hk Hkd Hown|key main p d Hk Hkd Hno Hlen Hall Hp Hpd Hown].
    - right. rewrite Hkey in Hk. injection Hk as <-. rewrite Hd in Hkd. by injection Hkd as <-.
    - left. by rewrite (proj2 (overlay_derivations_lookup _ (pool_tx entry) index d)) by eauto. }
  apply (overlay_owner_route entry cx) in Hroute as ->; [|done]. simpl. rewrite Ha. simpl. by eexists.
Qed.

Lemma overlay_amount_known cx out index derived :
  out_amount out ≠ 0 ∨
  (∃ commitment info, tx_out_pk (pool_tx (ov_entry cx)) !! index = Some commitment ∧
     tx_ecdh_info (pool_tx (ov_entry cx)) !! index = Some info ∧
     is_Some (decode_amount commitment info derived index (RCTTypeBulletproof2 <=? tx_rct_type (pool_tx (ov_entry cx))))) →
  is_Some (overlay_amount cx out index derived).
Proof.
  unfold overlay_amount. intros [Hne|(c & i & -> & -> & [[a k] Hd])].
  - rewrite (proj2 (Z.eqb_neq _ _) Hne). by eexists.
  - destruct (_ && _); [|by eexists]. simpl. rewrite Hd. by eexists.
Qed.

(** C19: what the overlay shows of the pool are outputs that derive to the main
    address, with the key of their transaction or else with the additional key of
    their index, and it names that key; the amount is plain or opens the commitment.
    Every output that derives to the main address in one of these ways, whose view
    tag fits that derivation and whose amount is so known, is shown. *)
Theorem overlay_exact txpool matches :
  fetch_txpool_incoming_overlay account now (Ok txpool) = Ok matches →
  (∀ m, m ∈ matches → ∃ entry index, entry ∈ txpool ∧ overlay_match entry index m) ∧
  ∀ entry index out out_pub derived pub,
    entry ∈ txpool → tx_version (pool_tx entry) <= 2 →
    tx_vout (pool_tx entry) !! index = Some out → out_target out = Some out_pub →
    overlay_route entry index out_pub derived pub →
    out_can_be_to_acc (out_view_tag out) derived index = true →
    (out_amount out ≠ 0 ∨
     ∃ commitment info, tx_out_pk (pool_tx entry) !! index = Some commitment ∧
       tx_ecdh_info (pool_tx entry) !! index = Some info ∧
       is_Some (decode_amount commitment info derived index (RCTTypeBulletproof2 <=? tx_rct_type (pool_tx entry)))) →
    ∃ m, m ∈ matches ∧ overlay_match entry index m ∧ sme_tx_public (o_spend_meta (om_output m)) = pub.
Proof.
  intros Hrun. split.
  - intros m (entry & l & Hin & Hl & Hm)%(elem_of_overlay_transactions _ _ _ Hrun).
    destruct (overlay_transaction_ok _ _ Hl) as [->|(cx & Hcx & Hv & ->)]; [by apply elem_of_nil in Hm|].
    apply elem_of_omap_imap in Hm as (index & out & Hout & Hm). exists entry, index.
    split; [done|]. by eapply overlay_output_match.
  - intros entry index out out_pub derived pub Hin Hv Hout Ht Hroute Htag Hamount.
    destruct (overlay_transactions_each _ _ entry Hrun Hin) as [l Hl].
    assert (∃ key main, find_extra_pub_key (tx_extra (pool_tx entry)) = Some key ∧
      generate_key_derivation key (acc_key account) = Some main) as (key & main & Hkey & Hd) by (destruct Hroute; eauto).
    pose proof Hl as Hl'. unfold overlay_transaction in Hl'. destruct (Z.ltb_spec 2 (tx_version (pool_tx entry))); [lia|].
    rewrite Hkey, Hd in Hl'. apply expect_bind_ok in Hl' as ([mixin ext] & _ & [= Heq]).
    revert Heq. set (cx := OverlayContext _ _ _ _ _ _ _ _). intros Heq.
    assert (context_of entry cx) as Hcx by done.
    destruct (overlay_output_found entry cx index out out_pub derived pub) as (m & Hm & Hpub); [done..| |].
    { apply overlay_amount_known. by destruct Hcx as (-> & _). }
    exists m. split_and!; [|by eapply overlay_output_match|done].
    apply (elem_of_overlay_transactions _ _ _ Hrun). exists entry, l. split_and!; [done..|].
    rewrite <-Heq. apply elem_of_omap_imap. by exists index, out.
Qed.
End overlay_theorems.

(** ** Witness *)

#[local] Existing Instance toy_scan.

Definition pooled_account : account :=
  {| acc_id := 1; acc_access := 0; acc_address := AccountAddress 6 16; acc_key := 6; acc_scan_height := 4;
     acc_start_height := 4; acc_creation := 0; acc_flags := 0; acc_lookahead := AddressIndex 0 0;
     acc_lookahead_fail := 0 |}.

Definition pooled_tx : tx_in_pool := TxInPool (scanned_tx []) 8 0.

Lemma overlay_exact_witness :
  match fetch_txpool_incoming_overlay pooled_account 99 (Ok [pooled_tx]) with
  | Ok [m] =>
    (∃ entry index, entry ∈ [pooled_tx] ∧ overlay_match pooled_account entry index m) ∧
    sme_amount (o_spend_meta (om_output m)) = 7 ∧ o_timestamp (om_output m) = 99
  | _ => False
  end.
Proof.
  destruct (fetch_txpool_incoming_overlay pooled_account 99 (Ok [pooled_tx])) as [l|e] eqn:E; [|discriminate E].
  destruct (overlay_exact pooled_account 99 [pooled_tx] l E) as [Hs _].
  destruct l as [|m [|]]; [discriminate E| |discriminate E]. split; [apply Hs; left|].
  vm_compute in E. injection E as <-. split; reflexivity.
Defined.
