(* ===== verification/Balance.v ===== *)
(** * Balance and unspent outputs of an account (src/src/rest_server.cpp)

    A view-only server sees the rings an output is in but not which output of a
    ring is spent.  What counts as spent are the key images the client has
    imported together with the output they belong to.  Three requests combine the
    stored outputs, spends, confirmed images, imported sources and pending spends:
    [get_address_info] (the balance), [get_address_txs] (the history) and
    [get_unspent_outs] (what a transaction can be built from).

    What the handlers only log is left out, and so are the exchange rates.  The
    outputs of the pool come from [Overlay]; where the daemon gives none the code
    goes on without.  The [std::set]s and [std::map]s are finite sets and maps of
    stdpp, and lists where the code needs membership only.

    Shown is what the totals are ([address_info_sent]), which outputs are offered
    ([unspent_outs_spec]), and that no output is both counted as sent and offered,
    so that what is offered and what is sent together do not exceed what was
    received ([balance_covers]). *)

From S2P Require Import Prelude Lmdb Data Compare Tables Chain Accounts Account Readers Scan Requests Overlay.

(** ** Locked outputs *)

(** Constants of Monero's consensus the code uses. *)
Class LockRules : Type := {
  MAX_BLOCK_NUMBER : Z;
  LOCKED_TX_ALLOWED_DELTA_SECONDS_V2 : Z;
  LOCKED_TX_ALLOWED_DELTA_BLOCKS : Z;
  DEFAULT_TX_SPENDABLE_AGE : Z
}.

(** [std::chrono::seconds] of an unsigned 64-bit number: 64 bits, signed. *)
Definition to_seconds (x : Z) : Z := if x <? 2 ^ 63 then x else x - 2 ^ 64.

(** [now] is the clock in seconds. *)
Definition blocks_until_unlocked `{LockRules} (now unlock_time last tx_height : Z) : Z :=
  if MAX_BLOCK_NUMBER <? unlock_time then
    let allowed := now + LOCKED_TX_ALLOWED_DELTA_SECONDS_V2 in
    let unlock_seconds := to_seconds unlock_time in
    if unlock_seconds <=? allowed then 0
    else
      let delta := unlock_seconds - allowed in
      Z.max 1 (Z.quot (delta + DIFFICULTY_TARGET_V2 - 1) DIFFICULTY_TARGET_V2)
  else
    let last_height := to_uint last in
    let allowed_height := if last_height =? 0 then 0 else wrap 64 (last_height - 1 + LOCKED_TX_ALLOWED_DELTA_BLOCKS) in
    if allowed_height <? unlock_time then unlock_time - allowed_height
    else
      let spendable_height := wrap 64 (to_uint tx_height + DEFAULT_TX_SPENDABLE_AGE) in
      if spendable_height <=? last_height then 0 else spendable_height - last_height.

Definition is_locked `{LockRules} (now unlock_time last tx_height : Z) : bool :=
  negb (blocks_until_unlocked now unlock_time last tx_height =? 0).

(** ** Matching images, sources and outputs *)

Definition pending_spend_ttl_seconds : Z := 24 * 60 * 60.

Definition pending_spend_matches_output (pending : pending_spend) (o : output) : bool :=
  output_id_eqb (pend_source pending) (sme_id (o_spend_meta o)) &&
  (pend_out_index pending =? sme_index (o_spend_meta o)) &&
  (pend_tx_hash pending =? tl_tx_hash (o_link o)) && (pend_pub pending =? o_pub o).

Record confirmed_spend_choice := ConfirmedSpendChoice {
  ch_spend : spend;
  ch_meta : spend_meta;
  ch_source : output_id;
  ch_imported_source : bool
}.

Definition should_replace_confirmed_spend_choice (current candidate : confirmed_spend_choice) : bool :=
  if negb (Bool.eqb (ch_imported_source current) (ch_imported_source candidate)) then ch_imported_source candidate
  else if negb (sme_amount (ch_meta current) =? sme_amount (ch_meta candidate))
  then sme_amount (ch_meta current) <? sme_amount (ch_meta candidate)
  else output_id_ltb (ch_source candidate) (ch_source current).

(** The [std::map] of the imported sources: the first of an image stays. *)
Definition emplace_source (m : gmap Z key_image_source) (source : key_image_source) : gmap Z key_image_source :=
  match m !! kis_image source with Some _ => m | None => <[kis_image source := source]> m end.

Definition imported_source_map (l : list key_image_source) : gmap Z key_image_source :=
  foldl emplace_source ∅ l.

Definition source_of_output (source : key_image_source) (o : output) : bool :=
  output_id_eqb (sme_id (o_spend_meta o)) (kis_source source) &&
  (sme_index (o_spend_meta o) =? kis_out_index source) &&
  (o_pub o =? kis_pub source) && (tl_tx_hash (o_link o) =? kis_tx_hash source).

Definition find_output_by_imported_source (outputs : list output) (imported_sources : gmap Z key_image_source)
    (image : Z) : option output :=
  source ← imported_sources !! image;
  List.find (source_of_output source) outputs.

Definition has_confirmed_spend_image_without_imported_source (images : list Z) (confirmed_images : gset Z)
    (imported_sources : gmap Z key_image_source) : bool :=
  existsb (λ image, bool_decide (image ∈ confirmed_images) && bool_decide (imported_sources !! image = None)) images.

Definition output_exists_in_rows (rows : list output) (m : txpool_overlay_match) : bool :=
  existsb (λ o, (tl_tx_hash (o_link o) =? tl_tx_hash (o_link (om_output m))) &&
                (sme_index (o_spend_meta o) =? sme_index (o_spend_meta (om_output m)))) rows.

(** The check before the 64-bit totals that must not wrap. *)
Definition add_checked (total amount : Z) : expect Z :=
  if u64_max - total <? amount then Err bad_daemon_response else Ok (total + amount).

(** A map in the order of its keys. *)
Definition key_leb {A} (x y : Z * A) : bool := x.1 <=? y.1.
Definition in_order {A} (m : gmap Z A) : list (Z * A) := merge_sort key_leb (map_to_list m).

(** ** [get_address_info] *)

Record transaction_spend := TransactionSpend { ts_meta : spend_meta; ts_possible_spend : spend }.

Record get_address_info_response := AddressInfo {
  ai_locked_funds : Z;
  ai_total_received : Z;
  ai_total_sent : Z;
  spent_state_incomplete : bool;
  spent_state_confirmed_images : Z;
  spent_state_selected_spends : Z;
  spent_state_unconfirmed_spends : Z;
  spent_state_unconfirmed_sources : Z;
  spent_state_unconfirmed_source_amount : Z;
  spent_state_missing_sources : Z;
  ai_scanned_height : Z;
  ai_start_height : Z;
  ai_blockchain_height : Z;
  ai_lookahead_fail : Z;
  ai_spent_outputs : list transaction_spend;
  ai_lookahead : address_index
}.

(** What the rows of the account and of the pool add up to. *)
Record received_rows := ReceivedRows { rr_rows : list output; rr_received : Z; rr_locked : Z; rr_overlay : Z }.

(** The spends, sorted out. *)
Record sorted_spends := SortedSpends {
  so_choices : gmap Z confirmed_spend_choice;
  so_unconfirmed : Z;
  so_unconfirmed_sources : list output_id;
  so_unconfirmed_amount : Z;
  so_missing : Z
}.

(** What was sent, source by source. *)
Record sent_sources := SentSources { ss_sources : list output_id; ss_total : Z; ss_outputs : list transaction_spend }.

Section address_info.
Context `{R : LockRules} (now last : Z).

(** The loop over the stored outputs. *)
Definition receive_output (st : received_rows) (out : output) : received_rows :=
  let amount := sme_amount (o_spend_meta out) in
  ReceivedRows (rr_rows st ++ [out]) (wrap 64 (rr_received st + amount))
    (if is_locked now (o_unlock_time out) last (tl_height (o_link out))
     then wrap 64 (rr_locked st + amount) else rr_locked st)
    (rr_overlay st).

(** The loop over the overlay: what is stored by now is passed over, the rest is locked. *)
Definition receive_overlay (st : received_rows) (m : txpool_overlay_match) : expect received_rows :=
  if output_exists_in_rows (rr_rows st) m then Ok st
  else
    let amount := sme_amount (o_spend_meta (om_output m)) in
    overlay ← add_checked (rr_overlay st) amount;
    Ok (ReceivedRows (rr_rows st ++ [om_output m]) (wrap 64 (rr_received st + amount))
          (wrap 64 (rr_locked st + amount)) overlay).

Definition receive_all (outputs : list output) (overlay : list txpool_overlay_match) : expect received_rows :=
  fold_err receive_overlay (foldl receive_output (ReceivedRows [] 0 0 0) outputs) overlay.
End address_info.

Section spends.
Context (output_rows : list output) (confirmed_images : gset Z) (sources : gmap Z key_image_source).

(** [output_meta_by_id]: the first row with an id stays. *)
Definition output_meta_by_id (id : output_id) : option spend_meta :=
  o_spend_meta <$> List.find (λ o, output_id_eqb (sme_id (o_spend_meta o)) id) output_rows.

(** The output of a confirmed spend takes its place among the choices. *)
Definition choose (s : spend) (choices : gmap Z confirmed_spend_choice) (out : output) :
    gmap Z confirmed_spend_choice :=
  let choice := ConfirmedSpendChoice s (o_spend_meta out) (sme_id (o_spend_meta out)) true in
  match choices !! s_image s with
  | None => <[s_image s := choice]> choices
  | Some existing =>
    if should_replace_confirmed_spend_choice existing choice then <[s_image s := choice]> choices else choices
  end.

(** The body of the loop over the spends. *)
Definition sort_spend (st : sorted_spends) (s : spend) : expect sorted_spends :=
  if bool_decide (s_image s ∈ confirmed_images) then
    match find_output_by_imported_source output_rows sources (s_image s) with
    | None =>
      Ok (SortedSpends (so_choices st) (so_unconfirmed st) (so_unconfirmed_sources st) (so_unconfirmed_amount st)
            (so_missing st + 1))
    | Some out =>
      Ok (SortedSpends (choose s (so_choices st) out) (so_unconfirmed st) (so_unconfirmed_sources st)
            (so_unconfirmed_amount st) (so_missing st))
    end
  else
    '(unconfirmed_sources, amount) ←
      match output_meta_by_id (s_source s) with
      | Some meta =>
        if bool_decide (s_source s ∈ so_unconfirmed_sources st)
        then Ok (so_unconfirmed_sources st, so_unconfirmed_amount st)
        else
          amount ← add_checked (so_unconfirmed_amount st) (sme_amount meta);
          Ok (so_unconfirmed_sources st ++ [s_source s], amount)
      | None => Ok (so_unconfirmed_sources st, so_unconfirmed_amount st)
      end;
    Ok (SortedSpends (so_choices st) (so_unconfirmed st + 1) unconfirmed_sources amount (so_missing st)).

Definition sort_spends (spends : list spend) : expect sorted_spends :=
  fold_err sort_spend (SortedSpends ∅ 0 [] 0 0) spends.

(** Imported sources without a spend are only added up, which can fail. *)
Definition check_without_spend (spends : list spend) : expect Z :=
  fold_err (λ amount (entry : Z * key_image_source),
    if bool_decide (entry.1 ∈ s_image <$> spends) then Ok amount
    else
      match find_output_by_imported_source output_rows sources entry.1 with
      | Some out => add_checked amount (sme_amount (o_spend_meta out))
      | None => Ok amount
      end) 0 (in_order sources).
End spends.

(** The loop over the choices: every source counts once. *)
Definition send_choice (st : sent_sources) (entry : Z * confirmed_spend_choice) : expect sent_sources :=
  let choice := entry.2 in
  if bool_decide (ch_source choice ∈ ss_sources st) then Ok st
  else
    total ← add_checked (ss_total st) (sme_amount (ch_meta choice));
    Ok (SentSources (ss_sources st ++ [ch_source choice]) total
          (ss_outputs st ++ [TransactionSpend (ch_meta choice) (ch_spend choice)])).

Definition send_choices (choices : gmap Z confirmed_spend_choice) : expect sent_sources :=
  fold_err send_choice (SentSources [] 0 []) (in_order choices).

Section handlers.
Context `{L : Lmdb} `{Crypto} `{R : LockRules}.
Implicit Types d : db L.

Definition confirmed_image_set (id : Z) d : gset Z := list_to_set (get_confirmed_spend_images id d).

(** [handle] once the account is open; an overlay that cannot be had is empty. *)
Definition address_info (now : Z) (overlay : expect (list txpool_overlay_match)) (user : account) d :
    expect get_address_info_response :=
  let id := acc_id user in
  let confirmed := confirmed_image_set id d in
  let sources := imported_source_map (get_imported_spend_sources id d) in
  last ← bi_id <$> get_last_block d;
  received ← receive_all now last (get_outputs id d) (match overlay with Ok l => l | Err _ => [] end);
  sorted ← sort_spends (rr_rows received) confirmed sources (get_spends id d);
  _ ← check_without_spend (rr_rows received) sources (get_spends id d);
  sent ← send_choices (so_choices sorted);
  Ok {| ai_locked_funds := rr_locked received; ai_total_received := rr_received received;
        ai_total_sent := ss_total sent;
        spent_state_incomplete := (0 <? so_unconfirmed sorted) || (0 <? so_missing sorted);
        spent_state_confirmed_images := Z.of_nat (size confirmed);
        spent_state_selected_spends := Z.of_nat (length (ss_sources sent));
        spent_state_unconfirmed_spends := so_unconfirmed sorted;
        spent_state_unconfirmed_sources := Z.of_nat (length (so_unconfirmed_sources sorted));
        spent_state_unconfirmed_source_amount := so_unconfirmed_amount sorted;
        spent_state_missing_sources := so_missing sorted;
        ai_scanned_height := acc_scan_height user; ai_start_height := acc_start_height user;
        ai_blockchain_height := last; ai_lookahead_fail := acc_lookahead_fail user;
        ai_spent_outputs := ss_outputs sent; ai_lookahead := acc_lookahead user |}.

Definition get_address_info_handle (now : Z) (overlay : account → expect (list txpool_overlay_match))
    (req : account_credentials) : handler get_address_info_response :=
  user ← reading (open_account req);
  _ ← passed_login;
  reading (address_info now (overlay user) user).
End handlers.

(** ** [get_address_txs] *)

Record tx_row := TxRow { tr_info : output; tr_spends : list transaction_spend; tr_spent : Z }.

Record get_address_txs_response := AddressTxs {
  at_total_received : Z;
  at_scanned_height : Z;
  at_start_height : Z;
  at_blockchain_height : Z;
  at_lookahead_fail : Z;
  at_transactions : list tx_row;
  at_lookahead : address_index
}.

Definition with_amount (amount : Z) (o : output) : output :=
  {| o_link := o_link o;
     o_spend_meta := SpendMeta (sme_id (o_spend_meta o)) amount (sme_mixin_count (o_spend_meta o))
       (sme_index (o_spend_meta o)) (sme_tx_public (o_spend_meta o));
     o_timestamp := o_timestamp o; o_unlock_time := o_unlock_time o; o_tx_prefix_hash := o_tx_prefix_hash o;
     o_pub := o_pub o; o_ringct_mask := o_ringct_mask o; o_extra := o_extra o; o_payment_id := o_payment_id o;
     o_fee := o_fee o; o_recipient := o_recipient o |}.

Definition row_amount (row : tx_row) : Z := sme_amount (o_spend_meta (tr_info row)).
Definition row_hash (row : tx_row) : Z := tl_tx_hash (o_link (tr_info row)).

(** The output joins the transaction of the row; the amount is of 64 bits. *)
Definition add_to_row (out : output) (row : tx_row) : tx_row :=
  TxRow (with_amount (wrap 64 (row_amount row + sme_amount (o_spend_meta out))) (tr_info row)) (tr_spends row) (tr_spent row).

(** The loop over the stored outputs: those of one transaction follow each other. *)
Definition group_output (st : list tx_row * Z) (out : output) : expect (list tx_row * Z) :=
  let '(transactions, total) := st in
  let amount := sme_amount (o_spend_meta out) in
  match list.last transactions with
  | None => Ok ([TxRow out [] 0], wrap 64 (total + amount))
  | Some row =>
    if transaction_link_ltb (o_link out) (o_link (tr_info row)) then Err logic_error
    else
      let transactions :=
        if row_hash row =? tl_tx_hash (o_link out) then removelast transactions ++ [add_to_row out row]
        else transactions ++ [TxRow out [] 0] in
      Ok (transactions, wrap 64 (total + amount))
  end.

Record history := History { hi_rows : list output; hi_transactions : list tx_row; hi_received : Z; hi_overlay : Z }.

Definition history_overlay (st : history) (m : txpool_overlay_match) : expect history :=
  if output_exists_in_rows (hi_rows st) m then Ok st
  else
    let amount := sme_amount (o_spend_meta (om_output m)) in
    overlay ← add_checked (hi_overlay st) amount;
    Ok (History (hi_rows st ++ [om_output m]) (hi_transactions st ++ [TxRow (om_output m) [] 0])
          (wrap 64 (hi_received st + amount)) overlay).

Definition received_history (outputs : list output) (overlay : list txpool_overlay_match) : expect history :=
  '(transactions, total) ← fold_err group_output ([], 0) outputs;
  fold_err history_overlay (History outputs transactions total 0) overlay.

(** The choices, without the totals of [get_address_info]. *)
Definition choose_spend (output_rows : list output) (confirmed_images : gset Z) (sources : gmap Z key_image_source)
    (choices : gmap Z confirmed_spend_choice) (s : spend) : gmap Z confirmed_spend_choice :=
  if bool_decide (s_image s ∈ confirmed_images) then
    match find_output_by_imported_source output_rows sources (s_image s) with
    | None => choices
    | Some out => choose s choices out
    end
  else choices.

(** A spend whose transaction the account received nothing from. *)
Definition outgoing_row (choice : confirmed_spend_choice) : tx_row :=
  let s := ch_spend choice in
  let meta := ch_meta choice in
  TxRow
    {| o_link := s_link s;
       o_spend_meta := SpendMeta (sme_id meta) 0 (s_mixin_count s) (sme_index meta) (sme_tx_public meta);
       o_timestamp := s_timestamp s; o_unlock_time := s_unlock_time s; o_tx_prefix_hash := 0; o_pub := 0;
       o_ringct_mask := 0; o_extra := pack 0 (s_length s); o_payment_id := s_payment_id s; o_fee := 0;
       o_recipient := s_sender s |} [] 0.

Definition find_tx_index (tx_hash : Z) (transactions : list tx_row) : option nat :=
  fst <$> list_find (λ row, row_hash row = tx_hash) transactions.

Record sent_history := SentHistory { sh_sources : list output_id; sh_total : Z; sh_transactions : list tx_row }.

Definition spend_in_row (choice : confirmed_spend_choice) (row : tx_row) : expect tx_row :=
  spent ← add_checked (tr_spent row) (sme_amount (ch_meta choice));
  Ok (TxRow (tr_info row) (tr_spends row ++ [TransactionSpend (ch_meta choice) (ch_spend choice)]) spent).

(** The loop over the choices. *)
Definition history_choice (st : sent_history) (entry : Z * confirmed_spend_choice) : expect sent_history :=
  let choice := entry.2 in
  if bool_decide (ch_source choice ∈ sh_sources st) then Ok st
  else
    let hash := tl_tx_hash (s_link (ch_spend choice)) in
    let '(index, transactions) :=
      match find_tx_index hash (sh_transactions st) with
      | Some index => (index, sh_transactions st)
      | None => (length (sh_transactions st), sh_transactions st ++ [outgoing_row choice])
      end in
    row ← of_option logic_error (transactions !! index);
    row ← spend_in_row choice row;
    total ← add_checked (sh_total st) (sme_amount (ch_meta choice));
    Ok (SentHistory (sh_sources st ++ [ch_source choice]) total (<[index := row]> transactions)).

Definition row_leb (l r : tx_row) : bool := transaction_link_leb (o_link (tr_info l)) (o_link (tr_info r)).

Section txs_handler.
Context `{L : Lmdb} `{Crypto}.
Implicit Types d : db L.

Definition address_txs (overlay : expect (list txpool_overlay_match)) (user : account) d :
    expect get_address_txs_response :=
  let id := acc_id user in
  let confirmed := confirmed_image_set id d in
  let sources := imported_source_map (get_imported_spend_sources id d) in
  last ← bi_id <$> get_last_block d;
  received ← received_history (get_outputs id d) (match overlay with Ok l => l | Err _ => [] end);
  let choices := foldl (choose_spend (hi_rows received) confirmed sources) ∅ (get_spends id d) in
  sent ← fold_err history_choice (SentHistory [] 0 (hi_transactions received)) (in_order choices);
  Ok {| at_total_received := hi_received received; at_scanned_height := acc_scan_height user;
        at_start_height := acc_start_height user; at_blockchain_height := last;
        at_lookahead_fail := acc_lookahead_fail user;
        at_transactions := merge_sort row_leb (sh_transactions sent); at_lookahead := acc_lookahead user |}.

Definition get_address_txs_handle (overlay : account → expect (list txpool_overlay_match))
    (req : account_credentials) : handler get_address_txs_response :=
  user ← reading (open_account req);
  _ ← passed_login;
  reading (address_txs (overlay user) user).
End txs_handler.

(** ** [get_unspent_outs] *)

Record get_unspent_outs_request := UnspentRequest {
  uo_creds : account_credentials;
  uo_amount : Z;
  uo_mixin : option Z;
  uo_use_dust : option bool;
  uo_dust_threshold : option Z
}.

(** What the daemon estimates. *)
Record fee_estimate := FeeEstimate { estimated_base_fee : Z; fee_mask : Z; size_scale : Z }.

Record unspent_output := UnspentOutput {
  uo_meta : output;
  uo_spend_key_images : list Z;
  uo_additional_tx_pub_keys : list Z
}.

Record get_unspent_outs_response := UnspentResponse {
  ur_per_byte_fee : Z;
  ur_fee_mask : Z;
  ur_amount : Z;
  ur_lookahead_fail : Z;
  ur_outputs : list unspent_output;
  ur_fees : list Z;
  ur_user_key : Z
}.

(** The amounts of the outputs passed over, by reason, and of those returned. *)
Record unspent_state := UnspentState {
  un_dust : Z;
  un_possible : Z;
  un_image : Z;
  un_source : Z;
  un_pending : Z;
  un_returned : Z;
  un_unspent : list output
}.

Section unspent.
Context (dust_threshold mixin : Z) (output_images : output_id → list Z).
Context (confirmed_images : gset Z) (sources : gmap Z key_image_source).
Context (confirmed_sources : list output_id) (pending_active : list pending_spend).

Definition is_dust (out : output) : bool :=
  (sme_amount (o_spend_meta out) <? dust_threshold) || (sme_mixin_count (o_spend_meta out) <? mixin).

Definition locally_pending (out : output) : bool :=
  existsb (λ pending, pending_spend_matches_output pending out) pending_active.

(** The body of the loop over the outputs. *)
Definition select_output (st : unspent_state) (out : output) : expect unspent_state :=
  let amount := sme_amount (o_spend_meta out) in
  let id := sme_id (o_spend_meta out) in
  let '(UnspentState dust possible image source pending returned unspent) := st in
  if is_dust out then
    dust ← add_checked dust amount;
    Ok (UnspentState dust possible image source pending returned unspent)
  else
    let spend_images := output_images id in
    possible ← (if bool_decide (spend_images = []) then Ok possible else add_checked possible amount);
    if has_confirmed_spend_image_without_imported_source spend_images confirmed_images sources then
      image ← add_checked image amount;
      Ok (UnspentState dust possible image source pending returned unspent)
    else if bool_decide (id ∈ confirmed_sources) then
      source ← add_checked source amount;
      Ok (UnspentState dust possible image source pending returned unspent)
    else if locally_pending out then
      pending ← add_checked pending amount;
      Ok (UnspentState dust possible image source pending returned unspent)
    else
      returned ← add_checked returned amount;
      Ok (UnspentState dust possible image source pending returned (unspent ++ [out])).

Definition select_outputs (outputs : list output) : expect unspent_state :=
  fold_err select_output (UnspentState 0 0 0 0 0 0 []) outputs.
End unspent.

(** The sources of the confirmed spends: the imported one, or else that of the ring. *)
Definition confirmed_source_ids (confirmed_images : gset Z) (sources : gmap Z key_image_source) (spends : list spend) :
    list output_id :=
  omap (λ s,
    if bool_decide (s_image s ∈ confirmed_images) then
      Some (match sources !! s_image s with Some imported => kis_source imported | None => s_source s end)
    else None) spends.

Definition pending_is_active (now : Z) (pending : pending_spend) : bool :=
  (pend_recorded pending <=? now) && (now - pend_recorded pending <=? pending_spend_ttl_seconds).

Section unspent_handler.
Context `{L : Lmdb} `{Crypto} `{K : ScanCrypto}.
(** The daemon: the hashes it missed and the transactions by their hash. *)
Context (get_transactions : list Z → expect (list Z * gmap Z transaction)).
Implicit Types d : db L.

Definition fetch_additional_tx_pub_keys (unspent : list output) : expect (gmap Z (list Z)) :=
  let tx_hashes := merge_sort Z.le (remove_dups ((λ o, tl_tx_hash (o_link o)) <$> unspent)) in
  if bool_decide (tx_hashes = []) then Ok ∅
  else
    '(missed_hashes, txs) ← get_transactions tx_hashes;
    _ ← guard_err (bool_decide (missed_hashes = [])) bad_daemon_response;
    fold_err (λ out tx_hash,
      tx ← of_option bad_daemon_response (txs !! tx_hash);
      Ok (<[tx_hash := find_extra_additional (tx_extra tx)]> out)) ∅ tx_hashes.

(** One output of the response: the keys of its transaction are moved out of the map. *)
Definition response_output (st : gmap Z (list Z) * list unspent_output) (out : output) :
    expect (gmap Z (list Z) * list unspent_output) :=
  let '(additional, outs) := st in
  let tx_hash := tl_tx_hash (o_link out) in
  keys ← of_option bad_daemon_response (additional !! tx_hash);
  Ok (<[tx_hash := []]> additional, outs ++ [UnspentOutput out [] keys]).

(** [generate_response] with the estimate of the daemon. *)
Definition generate_response (now : Z) (req : get_unspent_outs_request) (rpc : expect fee_estimate) d :
    expect get_unspent_outs_response :=
  rpc ← rpc;
  user ← open_account (uo_creds req) d;
  let dust_threshold :=
    if bool_decide (uo_use_dust req = Some true) || bool_decide (uo_dust_threshold req = None) then 0
    else default 0 (uo_dust_threshold req) in
  let mixin := default 0 (uo_mixin req) in
  let id := acc_id user in
  let confirmed := confirmed_image_set id d in
  let sources := imported_source_map (get_imported_spend_sources id d) in
  let confirmed_sources := confirmed_source_ids confirmed sources (get_spends id d) in
  let pending_active := filter (λ pending, pending_is_active now pending = true) (get_pending_spends id d) in
  selected ← select_outputs dust_threshold mixin (λ id, ki_value <$> get_images id d) confirmed sources
               confirmed_sources pending_active (get_outputs id d);
  let unspent := un_unspent selected in
  additional ← fetch_additional_tx_pub_keys unspent;
  '(_, response_outputs) ← fold_err response_output (additional, []) unspent;
  _ ← guard_err (negb (un_returned selected <? uo_amount req)) not_enough_amount;
  _ ← guard_err (negb ((size_scale rpc =? 0) || (1024 <? size_scale rpc) || (fee_mask rpc =? 0))) bad_daemon_response;
  Ok (UnspentResponse (estimated_base_fee rpc / size_scale rpc) (fee_mask rpc) (un_returned selected)
        (acc_lookahead_fail user) response_outputs [estimated_base_fee rpc] (cr_key (uo_creds req))).
End unspent_handler.

(** ** Sums *)

Definition output_amount (o : output) : Z := sme_amount (o_spend_meta o).
Definition output_key (o : output) : output_id := sme_id (o_spend_meta o).
Definition total_amount (l : list output) : Z := foldr (λ o n, output_amount o + n) 0 l.
Definition total_sent_amount (l : list transaction_spend) : Z := foldr (λ t n, sme_amount (ts_meta t) + n) 0 l.

Lemma total_amount_app l1 l2 : total_amount (l1 ++ l2) = total_amount l1 + total_amount l2.
Proof. induction l1 as [|o l1 IH]; simpl; [done|]. rewrite IH. lia. Qed.

Lemma total_amount_nonneg l : (∀ o, o ∈ l → 0 <= output_amount o) → 0 <= total_amount l.
Proof.
  induction l as [|o l IH]; intros Hl; simpl; [done|].
  pose proof (Hl o ltac:(by left)). assert (0 <= total_amount l) by (apply IH; intros x Hx; apply Hl; by right). lia.
Qed.

#[export] Instance total_amount_perm : Proper ((≡ₚ) ==> (=)) total_amount.
Proof. induction 1; simpl; lia. Qed.

(** Outputs among [rows], each once, add up to no more than the rows. *)
Lemma total_amount_among l rows :
  (∀ o, o ∈ rows → 0 <= output_amount o) → NoDup l → (∀ o, o ∈ l → o ∈ rows) → total_amount l <= total_amount rows.
Proof.
  intros Hpos Hnd Hin. apply NoDup_submseteq in Hin; [|done].
  apply submseteq_Permutation in Hin as [k Hk].
  rewrite Hk, total_amount_app. assert (0 <= total_amount k); [|lia].
  apply total_amount_nonneg. intros o Ho. apply Hpos. rewrite Hk. apply elem_of_app. by right.
Qed.

Lemma total_sent_app l1 l2 : total_sent_amount (l1 ++ l2) = total_sent_amount l1 + total_sent_amount l2.
Proof. induction l1 as [|t l1 IH]; simpl; [done|]. rewrite IH. lia. Qed.

Lemma add_checked_ok total amount total' :
  add_checked total amount = Ok total' ↔ total' = total + amount ∧ total + amount <= u64_max.
Proof. unfold add_checked. destruct (Z.ltb_spec (u64_max - total) amount); naive_solver lia. Qed.

(** ** The outputs that are offered *)

Section unspent_theorems.
Context (dust_threshold mixin : Z) (output_images : output_id → list Z).
Context (confirmed_images : gset Z) (sources : gmap Z key_image_source).
Context (confirmed_sources : list output_id) (pending_active : list pending_spend).

(** Neither dust nor in a ring of a confirmed image of unknown source, nor a
    confirmed source, nor pending. *)
Definition offered (out : output) : bool :=
  negb (is_dust dust_threshold mixin out) &&
  negb (has_confirmed_spend_image_without_imported_source (output_images (output_key out)) confirmed_images sources) &&
  negb (bool_decide (output_key out ∈ confirmed_sources)) &&
  negb (locally_pending pending_active out).

Definition select := select_output dust_threshold mixin output_images confirmed_images sources confirmed_sources pending_active.

(** One output: it is returned when it is offered. *)
Lemma select_unspent st out st' :
  select st out = Ok st' →
  un_unspent st' = un_unspent st ++ (if offered out then [out] else []) ∧
  (un_returned st = total_amount (un_unspent st) → un_returned st' = total_amount (un_unspent st')).
Proof.
  unfold select, select_output, offered. destruct st as [du po im so pe re un]. unfold output_key.
  destruct (is_dust dust_threshold mixin out); simpl.
  { intros (n & _ & [= <-])%expect_bind_ok. simpl. by rewrite app_nil_r. }
  intros (po' & _ & Hrun)%expect_bind_ok. revert Hrun.
  destruct (has_confirmed_spend_image_without_imported_source _ _ _); simpl.
  { intros (n & _ & [= <-])%expect_bind_ok. simpl. by rewrite app_nil_r. }
  destruct (bool_decide (_ ∈ confirmed_sources)); simpl.
  { intros (n & _ & [= <-])%expect_bind_ok. simpl. by rewrite app_nil_r. }
  destruct (locally_pending pending_active out); simpl.
  { intros (n & _ & [= <-])%expect_bind_ok. simpl. by rewrite app_nil_r. }
  intros (n & [-> _]%add_checked_ok & [= <-])%expect_bind_ok. simpl. split; [done|].
  intros ->. rewrite total_amount_app. simpl. unfold output_amount. lia.
Qed.

Lemma select_spec outputs : ∀ st st',
  fold_err select st outputs = Ok st' →
  un_unspent st' = un_unspent st ++ filter (λ o, offered o = true) outputs ∧
  (un_returned st = total_amount (un_unspent st) → un_returned st' = total_amount (un_unspent st')).
Proof.
  induction outputs as [|out outputs IH]; intros st st'; cbn [fold_err].
  - intros [= <-]. by rewrite app_nil_r.
  - intros (st1 & [H1 H1']%select_unspent & [H2 H2']%IH)%expect_bind_ok. split; [|by auto].
    rewrite H2, H1, filter_cons, <-app_assoc. f_equal.
    by destruct (offered out); [rewrite decide_True|rewrite decide_False].
Qed.

(** The totals of what was passed over and of what is returned. *)
Definition totals (st : unspent_state) : list Z :=
  [un_dust st; un_possible st; un_image st; un_source st; un_pending st; un_returned st].

Lemma add_checked_below total amount seen :
  0 <= total <= seen → 0 <= amount → seen + amount <= u64_max →
  add_checked total amount = Ok (total + amount) ∧ 0 <= total + amount <= seen + amount.
Proof. intros Ht Ha Hs. split; [apply add_checked_ok|]; lia. Qed.

Lemma select_step st out seen :
  Forall (λ n, 0 <= n <= seen) (totals st) → 0 <= output_amount out → seen + output_amount out <= u64_max →
  ∃ st', select st out = Ok st' ∧ Forall (λ n, 0 <= n <= seen + output_amount out) (totals st').
Proof.
  destruct st as [du po im so pe re un]. unfold totals. rewrite !Forall_cons. cbn.
  intros (Hdu & Hpo & Him & Hso & Hpe & Hre & _) Ha Hs.
  assert (∀ n, 0 <= n <= seen → add_checked n (output_amount out) = Ok (n + output_amount out)) as Hadd.
  { intros n Hn. by apply (add_checked_below n _ seen). }
  unfold select, select_output. fold (output_amount out).
  destruct (is_dust dust_threshold mixin out).
  { rewrite Hadd by done. eexists. split; [done|]. unfold totals. rewrite !Forall_cons, Forall_nil. cbn. lia. }
  assert (∃ po', (if bool_decide (output_images (sme_id (o_spend_meta out)) = []) then Ok po
    else add_checked po (output_amount out)) = Ok po' ∧ 0 <= po' <= seen + output_amount out) as (po' & -> & Hpo').
  { case_bool_decide; [exists po|exists (po + output_amount out); rewrite Hadd by done]; split; auto with lia. }
  cbn [mbind expect_bind].
  destruct (has_confirmed_spend_image_without_imported_source _ _ _);
    [|destruct (bool_decide _); [|destruct (locally_pending _ _)]];
    rewrite Hadd by done; (eexists; split; [done|]); unfold totals; rewrite !Forall_cons, Forall_nil; cbn; lia.
Qed.

(** Outputs that add up to 64 bits never make the selection fail. *)
Lemma select_never_fails outputs : ∀ st seen,
  Forall (λ n, 0 <= n <= seen) (totals st) → (∀ o, o ∈ outputs → 0 <= output_amount o) →
  seen + total_amount outputs <= u64_max → ∃ st', fold_err select st outputs = Ok st'.
Proof.
  induction outputs as [|out outputs IH]; intros st seen Hst Hpos Hsum; cbn [fold_err]; [by exists st|].
  assert (0 <= output_amount out) as Ha by (apply Hpos; by left).
  assert (∀ o, o ∈ outputs → 0 <= output_amount o) as Hpos' by (intros o Ho; apply Hpos; by right).
  pose proof (total_amount_nonneg _ Hpos') as Hnn. simpl in Hsum. fold (total_amount outputs) in Hsum.
  destruct (select_step st out seen Hst Ha) as (st1 & -> & Hst1); [lia|].
  cbn [mbind expect_bind]. apply (IH st1 (seen + output_amount out)); [done|done|lia].
Qed.
End unspent_theorems.

(** ** What counts as sent *)

Section sent_theorems.
Context (rows : list output) (confirmed_images : gset Z) (sources : gmap Z key_image_source).

(** The spend [s] is confirmed, and [out] is the output its image was imported for. *)
Definition confirmed_output (s : spend) (out : output) : Prop :=
  s_image s ∈ confirmed_images ∧ find_output_by_imported_source rows sources (s_image s) = Some out.

(** The choices after the spends [seen]. *)
Record choices_ok (seen : list spend) (choices : gmap Z confirmed_spend_choice) : Prop := {
  co_sound image c : choices !! image = Some c →
    ∃ s out, s ∈ seen ∧ s_image s = image ∧ confirmed_output s out ∧
      c = ConfirmedSpendChoice s (o_spend_meta out) (output_key out) true;
  co_complete s out : s ∈ seen → confirmed_output s out → is_Some (choices !! s_image s)
}.

Lemma choose_spend_ok seen choices s :
  choices_ok seen choices → choices_ok (seen ++ [s]) (choose_spend rows confirmed_images sources choices s).
Proof.
  intros [Hsound Hcomplete].
  assert (∀ c' : gmap Z confirmed_spend_choice,
    (c' = choices ∨ ∃ out, confirmed_output s out ∧
       c' = <[s_image s := ConfirmedSpendChoice s (o_spend_meta out) (output_key out) true]> choices) →
    (∀ out, confirmed_output s out → is_Some (c' !! s_image s)) → choices_ok (seen ++ [s]) c') as Hok.
  { intros c' Hc' Hs. split.
    - intros image c Hc. setoid_rewrite elem_of_app. setoid_rewrite list_elem_of_singleton.
      destruct Hc' as [->|(out & Hout & ->)].
      + destruct (Hsound _ _ Hc) as (s' & out & ? & ?). exists s', out. tauto.
      + apply lookup_insert_Some in Hc as [[<- <-]|[_ Hc]]; [by exists s, out; auto|].
        destruct (Hsound _ _ Hc) as (s' & out' & ? & ?). exists s', out'. tauto.
    - intros s' out [Hin| ->%list_elem_of_singleton]%elem_of_app Hout; [|by eapply Hs].
      destruct Hc' as [->|(o & _ & ->)]; [by eapply Hcomplete|].
      apply lookup_insert_is_Some'. right. by eapply Hcomplete. }
  unfold choose_spend, confirmed_output in *. case_bool_decide as Himg; [|apply Hok; [by left|by intros out []]].
  destruct (find_output_by_imported_source rows sources (s_image s)) as [out|] eqn:E; [|apply Hok; [by left|by intros out []]].
  unfold choose. fold (output_key out).
  assert (choices_ok (seen ++ [s]) (<[s_image s := ConfirmedSpendChoice s (o_spend_meta out) (output_key out) true]> choices)).
  { apply Hok; [right; by exists out|]. intros o _. by rewrite lookup_insert_eq. }
  destruct (choices !! s_image s) eqn:El; [|done]. destruct (should_replace_confirmed_spend_choice _ _); [done|].
  apply Hok; [by left|]. intros o _. by rewrite El.
Qed.

Lemma choose_spends_ok l : ∀ seen choices,
  choices_ok seen choices → choices_ok (seen ++ l) (foldl (choose_spend rows confirmed_images sources) choices l).
Proof.
  induction l as [|s l IH]; intros seen choices Hc; simpl; [by rewrite app_nil_r|].
  rewrite (cons_middle s seen l), app_assoc. by apply IH, choose_spend_ok.
Qed.

(** The other totals of [get_address_info] do not change the choices. *)
Lemma sort_spends_choices l : ∀ st st',
  fold_err (sort_spend rows confirmed_images sources) st l = Ok st' →
  so_choices st' = foldl (choose_spend rows confirmed_images sources) (so_choices st) l.
Proof.
  induction l as [|s l IH]; intros st st'; cbn [fold_err foldl]; [by intros [= <-]|].
  intros (st1 & H1 & H2%IH)%expect_bind_ok. rewrite H2. f_equal. revert H1. unfold sort_spend, choose_spend.
  case_bool_decide.
  - destruct (find_output_by_imported_source _ _ _); by intros [= <-].
  - by intros ([u a] & _ & [= <-])%expect_bind_ok.
Qed.

Lemma elem_of_in_order {A} (m : gmap Z A) e : e ∈ in_order m ↔ m !! e.1 = Some e.2.
Proof. unfold in_order. rewrite merge_sort_Permutation. destruct e. apply elem_of_map_to_list. Qed.

(** What is sent after the choices [seen]. *)
Record sent_ok (seen : list (Z * confirmed_spend_choice)) (st : sent_sources) : Prop := {
  sn_total : ss_total st = total_sent_amount (ss_outputs st);
  sn_ids : ss_sources st = (λ t, sme_id (ts_meta t)) <$> ss_outputs st;
  sn_nodup : NoDup (ss_sources st);
  sn_from t : t ∈ ss_outputs st → ∃ e, e ∈ seen ∧ t = TransactionSpend (ch_meta e.2) (ch_spend e.2);
  sn_all e : e ∈ seen → ch_source e.2 ∈ ss_sources st
}.

Lemma send_choice_ok seen st e st' :
  ch_source e.2 = sme_id (ch_meta e.2) → sent_ok seen st → send_choice st e = Ok st' → sent_ok (seen ++ [e]) st'.
Proof.
  intros Hid [Ht Hi Hn Hf Ha]. unfold send_choice.
  case_bool_decide as Hin.
  - intros [= <-]. split; [done..| |].
    + intros t (e' & ? & ?)%Hf. exists e'. rewrite elem_of_app. auto.
    + intros e' [He'|He'%list_elem_of_singleton]%elem_of_app; [by apply Ha|by subst].
  - intros (n & [-> _]%add_checked_ok & [= <-])%expect_bind_ok. split; cbn.
    + rewrite total_sent_app, Ht. simpl. lia.
    + rewrite fmap_app, Hi, Hid. done.
    + apply NoDup_app. split_and!; [done| |apply NoDup_singleton].
      by intros x Hx ->%list_elem_of_singleton.
    + intros t [(e' & ? & ?)%Hf| ->%list_elem_of_singleton]%elem_of_app; [exists e'|exists e];
        rewrite elem_of_app, list_elem_of_singleton; auto.
    + intros e' [He'|He'%list_elem_of_singleton]%elem_of_app; apply elem_of_app; [left; by apply Ha|right].
      subst. by apply list_elem_of_singleton.
Qed.

Lemma send_choices_ok l : ∀ seen st st',
  (∀ e, e ∈ l → ch_source e.2 = sme_id (ch_meta e.2)) → sent_ok seen st →
  fold_err send_choice st l = Ok st' → sent_ok (seen ++ l) st'.
Proof.
  induction l as [|e l IH]; intros seen st st' Hl Hst; cbn [fold_err]; [intros [= <-]; by rewrite app_nil_r|].
  intros (st1 & H1 & H2)%expect_bind_ok. rewrite (cons_middle e seen l), app_assoc.
  eapply IH; [intros x Hx; apply Hl; by right| |exact H2].
  eapply send_choice_ok; [apply Hl; by left|exact Hst|exact H1].
Qed.

(** The spends of the account, gone through and sent. *)
Lemma sent_spec spends sorted sent :
  sort_spends rows confirmed_images sources spends = Ok sorted → send_choices (so_choices sorted) = Ok sent →
  ss_total sent = total_sent_amount (ss_outputs sent) ∧
  ss_sources sent = (λ t, sme_id (ts_meta t)) <$> ss_outputs sent ∧ NoDup (ss_sources sent) ∧
  (∀ t, t ∈ ss_outputs sent → ∃ out, ts_possible_spend t ∈ spends ∧
     confirmed_output (ts_possible_spend t) out ∧ ts_meta t = o_spend_meta out) ∧
  (∀ s out, s ∈ spends → confirmed_output s out → output_key out ∈ ss_sources sent).
Proof.
  intros Hsort%sort_spends_choices Hsend. cbn [so_choices] in Hsort.
  assert (choices_ok spends (so_choices sorted)) as [Hsound Hcomplete].
  { rewrite Hsort. apply (choose_spends_ok spends []). split; [by intros ? ?|by intros ? ? ?%elem_of_nil]. }
  apply (send_choices_ok _ []) in Hsend as [Ht Hi Hn Hf Ha].
  - split_and!; [done..| |].
    + intros t (e & He%elem_of_in_order & ->)%Hf. destruct (Hsound _ _ He) as (s & out & Hs & _ & Hc & ->).
      exists out. by split_and!.
    + intros s out Hs Hc. destruct (Hcomplete s out Hs Hc) as [c Hl].
      destruct (Hsound _ _ Hl) as (s' & out' & _ & Himg & [_ Hc'] & ->).
      destruct Hc as [_ Hc]. rewrite Himg, Hc in Hc'. injection Hc' as ->.
      apply (Ha (s_image s, ConfirmedSpendChoice s' (o_spend_meta out') (output_key out') true)).
      by apply elem_of_in_order.
  - intros e He%elem_of_in_order. by destruct (Hsound _ _ He) as (s & out & _ & _ & _ & ->).
  - split; [done|done|constructor| |]; [by intros t ?%elem_of_nil|by intros e ?%elem_of_nil].
Qed.

(** An output of a source is one of the rows, and has the id of the source. *)
Lemma confirmed_output_row s out :
  confirmed_output s out →
  out ∈ rows ∧ ∃ source, sources !! s_image s = Some source ∧ output_key out = kis_source source.
Proof.
  intros [_ (source & Hs & [Hin Hm]%find_some)%bind_Some]. split; [by apply list_elem_of_In|].
  exists source. split; [done|]. unfold source_of_output in Hm.
  apply andb_true_iff in Hm as [Hm _]. apply andb_true_iff in Hm as [Hm _].
  apply andb_true_iff in Hm as [Hm _]. by apply output_id_eqb_eq.
Qed.
End sent_theorems.

(** ** What was received *)

Lemma wrap_add_l a b : wrap 64 (wrap 64 a + b) = wrap 64 (a + b).
Proof. unfold wrap. apply Zplus_mod_idemp_l. Qed.

Section received_theorems.
Context `{R : LockRules} (now last : Z).

Lemma receive_outputs_spec outputs : ∀ st,
  rr_rows (foldl (receive_output now last) st outputs) = rr_rows st ++ outputs ∧
  rr_overlay (foldl (receive_output now last) st outputs) = rr_overlay st ∧
  ∀ x, rr_received st = wrap 64 x →
    rr_received (foldl (receive_output now last) st outputs) = wrap 64 (x + total_amount outputs).
Proof.
  induction outputs as [|out outputs IH]; intros st; simpl; [rewrite app_nil_r; split_and!; [done..|]|].
  - intros x ->. f_equal. unfold total_amount. simpl. lia.
  - destruct (IH (receive_output now last st out)) as (-> & -> & Hr). cbn. rewrite <-app_assoc. split_and!; [done..|].
    intros x Hx. fold (output_amount out). rewrite (Hr (x + output_amount out)); [f_equal; lia|].
    cbn. fold (output_amount out). by rewrite Hx, wrap_add_l.
Qed.

Lemma receive_overlay_spec overlay : ∀ st st' x,
  fold_err receive_overlay st overlay = Ok st' → rr_received st = wrap 64 (x + total_amount (rr_rows st)) →
  rr_received st' = wrap 64 (x + total_amount (rr_rows st')) ∧
  ∃ added, rr_rows st' = rr_rows st ++ added ∧ added `sublist_of` (om_output <$> overlay).
Proof.
  induction overlay as [|m overlay IH]; intros st st' x; cbn [fold_err].
  - intros [= <-] Hx. split; [done|]. exists []. by rewrite app_nil_r.
  - intros (st1 & H1 & H2)%expect_bind_ok Hx. unfold receive_overlay in H1.
    destruct (output_exists_in_rows _ _).
    + injection H1 as <-. destruct (IH _ _ _ H2 Hx) as (Hr & added & Ha & Hs). split; [done|].
      exists added. split; [done|]. cbn. by apply sublist_cons.
    + apply expect_bind_ok in H1 as (n & _ & [= <-]). destruct (IH _ _ x H2) as (Hr & added & Ha & Hs).
      { cbn. rewrite Hx, wrap_add_l, total_amount_app. f_equal. simpl. unfold output_amount. lia. }
      split; [done|]. exists (om_output m :: added). cbn in Ha. rewrite Ha, <-app_assoc. split; [done|].
      cbn. by apply sublist_skip.
Qed.

Lemma receive_all_spec outputs overlay r :
  receive_all now last outputs overlay = Ok r →
  rr_received r = wrap 64 (total_amount (rr_rows r)) ∧
  ∃ added, rr_rows r = outputs ++ added ∧ added `sublist_of` (om_output <$> overlay).
Proof.
  unfold receive_all. destruct (receive_outputs_spec outputs (ReceivedRows [] 0 0 0)) as (Hr & _ & Hx).
  intros Hrun. specialize (Hx 0 eq_refl). cbn in Hr.
  destruct (receive_overlay_spec _ _ _ 0 Hrun) as (Hrec & added & Ha & Hs); [by rewrite Hx, Hr|].
  split; [done|]. exists added. by rewrite Ha, Hr.
Qed.
End received_theorems.

Lemma total_amount_sublist l k :
  (∀ o, o ∈ k → 0 <= output_amount o) → l `sublist_of` k → total_amount l <= total_amount k.
Proof.
  intros Hk Hs. induction Hs as [|o l k Hs IH|o l k Hs IH]; [done| |].
  - assert (total_amount l <= total_amount k) by (apply IH; intros x Hx; apply Hk; by right). simpl. lia.
  - assert (total_amount l <= total_amount k) by (apply IH; intros x Hx; apply Hk; by right).
    pose proof (Hk o ltac:(by left)). simpl. lia.
Qed.

(** ** The three requests together *)

Section balance.
Context `{LL : LmdbLaws} `{Crypto} `{K : ScanCrypto} `{R : LockRules}.
Context (get_transactions : list Z → expect (list Z * gmap Z transaction)).
Implicit Types d : db L.

(** What the requests go by: the rows with those of the pool, and the images and
    sources of the account. *)
Definition confirmed_of (id : Z) d : list output → spend → output → Prop := λ rows,
  confirmed_output rows (confirmed_image_set id d) (imported_source_map (get_imported_spend_sources id d)).

Lemma address_info_ok now overlay user d info :
  address_info now (Ok overlay) user d = Ok info →
  ∃ rows added, rows = get_outputs (acc_id user) d ++ added ∧ added `sublist_of` (om_output <$> overlay) ∧
    ai_total_received info = wrap 64 (total_amount rows) ∧
    ai_total_sent info = total_sent_amount (ai_spent_outputs info) ∧
    NoDup ((λ t, sme_id (ts_meta t)) <$> ai_spent_outputs info) ∧
    (∀ t, t ∈ ai_spent_outputs info → ∃ out, ts_possible_spend t ∈ get_spends (acc_id user) d ∧
       confirmed_of (acc_id user) d rows (ts_possible_spend t) out ∧ ts_meta t = o_spend_meta out) ∧
    ∀ s out, s ∈ get_spends (acc_id user) d → confirmed_of (acc_id user) d rows s out →
      output_key out ∈ (λ t, sme_id (ts_meta t)) <$> ai_spent_outputs info.
Proof.
  unfold address_info. intros (last & _ & Hrun)%expect_bind_ok.
  apply expect_bind_ok in Hrun as (received & Hr & Hrun). apply expect_bind_ok in Hrun as (sorted & Hs & Hrun).
  apply expect_bind_ok in Hrun as (n & _ & Hrun). apply expect_bind_ok in Hrun as (sent & Hse & [= <-]). cbn.
  destruct (receive_all_spec _ _ _ _ _ Hr) as (Hrec & added & Hrows & Hsub).
  destruct (sent_spec _ _ _ _ _ _ Hs Hse) as (Ht & Hids & Hnd & Hf & Ha).
  exists (rr_rows received), added. rewrite <-Hids. by split_and!.
Qed.

Lemma fold_response_outputs unspent : ∀ st st',
  fold_err response_output st unspent = Ok st' → uo_meta <$> st'.2 = (uo_meta <$> st.2) ++ unspent.
Proof.
  induction unspent as [|out unspent IH]; intros [m outs] st'; cbn [fold_err]; [intros [= <-]; by rewrite app_nil_r|].
  intros (o1 & (keys & _ & [= <-])%expect_bind_ok & H2%IH)%expect_bind_ok.
  rewrite H2. cbn [snd]. by rewrite fmap_app, <-app_assoc.
Qed.

(** The keys that come with an output: none when one before it is of the same transaction. *)
Definition uo_tx_hash (u : unspent_output) : Z := tl_tx_hash (o_link (uo_meta u)).

Definition left_keys (additional : gmap Z (list Z)) (before : list unspent_output) (hash : Z) : option (list Z) :=
  if existsb (λ u, uo_tx_hash u =? hash) before then Some [] else additional !! hash.

Definition keys_taken (additional : gmap Z (list Z)) (outs : list unspent_output) : Prop :=
  ∀ j u, outs !! j = Some u → left_keys additional (take j outs) (uo_tx_hash u) = Some (uo_additional_tx_pub_keys u).

Lemma response_outputs_keys additional unspent st :
  fold_err response_output (additional, []) unspent = Ok st → keys_taken additional st.2.
Proof.
  intros Hrun. apply (fold_err_invariant (λ st, (∀ h, st.1 !! h = left_keys additional st.2 h) ∧ keys_taken additional st.2))
    in Hrun; [by destruct Hrun|by split; [|intros j u]|].
  intros [m outs] out st' _ [Hm Hk] (keys & Hkeys%of_option_ok & [= <-])%expect_bind_ok. cbn [fst snd] in *. split.
  - intros h. rewrite lookup_insert, Hm. unfold left_keys. rewrite existsb_app. cbn [existsb].
    change (uo_tx_hash (UnspentOutput out [] keys)) with (tl_tx_hash (o_link out)). rewrite orb_false_r. case_decide as Hd.
    + subst h. by rewrite Z.eqb_refl, orb_true_r.
    + by rewrite (proj2 (Z.eqb_neq _ _) Hd), orb_false_r.
  - intros j u [Hj|[Hj Hu]]%lookup_app_Some.
    + rewrite take_app_le by (apply lookup_lt_Some in Hj; lia). by apply Hk.
    + destruct (j - length outs)%nat eqn:E; [|done]. injection Hu as <-.
      assert (j = length outs) as -> by lia. rewrite take_app_length.
      change (uo_tx_hash (UnspentOutput out [] keys)) with (tl_tx_hash (o_link out)). by rewrite <-Hm.
Qed.

(** The thresholds a request stands for. *)
Definition dust_of (req : get_unspent_outs_request) : Z :=
  if bool_decide (uo_use_dust req = Some true) || bool_decide (uo_dust_threshold req = None) then 0
  else default 0 (uo_dust_threshold req).

Definition offered_to (now : Z) (req : get_unspent_outs_request) (id : Z) d : output → bool :=
  offered (dust_of req) (default 0 (uo_mixin req)) (λ id, ki_value <$> get_images id d) (confirmed_image_set id d)
    (imported_source_map (get_imported_spend_sources id d))
    (confirmed_source_ids (confirmed_image_set id d) (imported_source_map (get_imported_spend_sources id d)) (get_spends id d))
    (filter (λ pending, pending_is_active now pending = true) (get_pending_spends id d)).

Lemma generate_response_ok now req rpc d resp :
  generate_response get_transactions now req rpc d = Ok resp →
  ∃ user, open_account (uo_creds req) d = Ok user ∧
    uo_meta <$> ur_outputs resp = filter (λ o, offered_to now req (acc_id user) d o = true) (get_outputs (acc_id user) d) ∧
    ur_amount resp = total_amount (uo_meta <$> ur_outputs resp) ∧ uo_amount req <= ur_amount resp ∧
    ∃ additional, fetch_additional_tx_pub_keys get_transactions (uo_meta <$> ur_outputs resp) = Ok additional ∧
      keys_taken additional (ur_outputs resp).
Proof.
  unfold generate_response. intros (fees & _ & Hrun)%expect_bind_ok.
  apply expect_bind_ok in Hrun as (user & Ho & Hrun). apply expect_bind_ok in Hrun as (st & Hst & Hrun).
  apply expect_bind_ok in Hrun as (additional & Hadd & Hrun). apply expect_bind_ok in Hrun as ([m outs] & Houts & Hrun).
  apply expect_bind_ok in Hrun as ([] & Henough%guard_err_ok & Hrun).
  apply expect_bind_ok in Hrun as ([] & _ & [= <-]). cbn. exists user.
  pose proof (response_outputs_keys _ _ _ Houts) as Hkeys.
  apply fold_response_outputs in Houts. cbn in Houts. rewrite Houts.
  apply select_spec in Hst as [Hun Hret]. cbn in Hun, Hret. specialize (Hret eq_refl).
  apply negb_true_iff, Z.ltb_ge in Henough. split_and!; [done..|]. by exists additional.
Qed.

(** No output counts as sent and is offered. *)
Lemma sent_not_offered now req d user rows s out o :
  s ∈ get_spends (acc_id user) d → confirmed_of (acc_id user) d rows s out →
  offered_to now req (acc_id user) d o = true → output_key o ≠ output_key out.
Proof.
  intros Hs Hc Hoff Heq. destruct Hc as [Himg Hfind].
  destruct (confirmed_output_row rows (confirmed_image_set (acc_id user) d)
    (imported_source_map (get_imported_spend_sources (acc_id user) d)) s out) as (_ & src & Hsrc & Hid); [by split|].
  unfold offered_to, offered in Hoff.
  apply andb_true_iff in Hoff as [Hoff _]. apply andb_true_iff in Hoff as [_ Hoff].
  apply negb_true_iff, bool_decide_eq_false in Hoff. apply Hoff. rewrite Heq, Hid.
  apply list_elem_of_omap. exists s. split; [done|]. by rewrite bool_decide_eq_true_2, Hsrc by done.
Qed.
End balance.

(** ** The history against the balance *)

Definition total_of (f : tx_row → Z) (l : list tx_row) : Z := foldr (λ row n, f row + n) 0 l.

#[export] Instance total_of_perm f : Proper ((≡ₚ) ==> (=)) (total_of f).
Proof. induction 1; simpl; lia. Qed.

Lemma total_of_app f l1 l2 : total_of f (l1 ++ l2) = total_of f l1 + total_of f l2.
Proof. induction l1 as [|r l1 IH]; simpl; [done|]. rewrite IH. lia. Qed.

Lemma total_of_insert f l i row row' :
  l !! i = Some row → total_of f (<[i := row']> l) = total_of f l - f row + f row'.
Proof.
  intros Hi. rewrite insert_take_drop by by eapply lookup_lt_Some.
  rewrite <-(take_drop_middle l i row Hi) at 3. rewrite !total_of_app. simpl. lia.
Qed.

(** The rows of the history while nothing was sent. *)
Record rows_ok (rows : list tx_row) (received : Z) : Prop := {
  ro_unsent row : row ∈ rows → tr_spends row = [] ∧ tr_spent row = 0;
  ro_received : wrap 64 (total_of row_amount rows) = wrap 64 received
}.

Lemma rows_ok_snoc rows received o :
  rows_ok rows received → rows_ok (rows ++ [TxRow o [] 0]) (received + output_amount o).
Proof.
  intros [Hu Hr]. split.
  - intros row [Hrow| ->%list_elem_of_singleton]%elem_of_app; [by apply Hu|done].
  - rewrite total_of_app. simpl. change (row_amount (TxRow o [] 0)) with (output_amount o).
    rewrite <-wrap_add_l, Hr, wrap_add_l. f_equal. lia.
Qed.

Lemma group_output_ok st out st' received :
  rows_ok st.1 received → st.2 = wrap 64 received → group_output st out = Ok st' →
  rows_ok st'.1 (received + output_amount out) ∧ st'.2 = wrap 64 (received + output_amount out).
Proof.
  destruct st as [rows total]. cbn. intros Hok ->. unfold group_output. fold (output_amount out).
  destruct (last rows) as [row|] eqn:El.
  - destruct (transaction_link_ltb _ _); [done|]. intros [= <-]. cbn. rewrite wrap_add_l. split; [|done].
    destruct (row_hash row =? _); [|by apply rows_ok_snoc].
    apply last_Some in El as [rows' ->]. rewrite removelast_last. destruct Hok as [Hu Hr].
    assert (tr_spends row = [] ∧ tr_spent row = 0) as Hrow by (apply Hu, elem_of_app; right; by left). split.
    + intros r [Hin| ->%list_elem_of_singleton]%elem_of_app; [|done]. apply Hu, elem_of_app. by left.
    + rewrite total_of_app in *. simpl in *. unfold row_amount at 2. cbn. fold (output_amount out).
      rewrite Z.add_0_r in *. unfold wrap in *. rewrite Zplus_mod_idemp_r, Z.add_assoc.
      by rewrite <-Zplus_mod_idemp_l, Hr, Zplus_mod_idemp_l.
  - intros [= <-]. cbn. rewrite wrap_add_l. split; [|done]. apply last_None in El as ->.
    by apply (rows_ok_snoc []).
Qed.

Lemma group_outputs_ok outputs : ∀ st st' received,
  rows_ok st.1 received → st.2 = wrap 64 received → fold_err group_output st outputs = Ok st' →
  rows_ok st'.1 (received + total_amount outputs) ∧ st'.2 = wrap 64 (received + total_amount outputs).
Proof.
  induction outputs as [|out outputs IH]; intros st st' received Hok Ht; cbn [fold_err].
  - intros [= <-]. simpl. by rewrite Z.add_0_r.
  - intros (st1 & H1 & H2)%expect_bind_ok. destruct (group_output_ok _ _ _ _ Hok Ht H1) as [Hok1 Ht1].
    simpl. rewrite Z.add_assoc. by apply (IH st1).
Qed.

(** The pool is added to the history as it is to the balance. *)
Definition same_received (h : history) (r : received_rows) : Prop :=
  hi_rows h = rr_rows r ∧ hi_received h = rr_received r ∧ hi_overlay h = rr_overlay r ∧
  rows_ok (hi_transactions h) (hi_received h).

Lemma overlay_same overlay : ∀ h h' r r',
  same_received h r → fold_err history_overlay h overlay = Ok h' → fold_err receive_overlay r overlay = Ok r' →
  same_received h' r'.
Proof.
  induction overlay as [|m overlay IH]; intros h h' r r' Hs; cbn [fold_err]; [by intros [= <-] [= <-]|].
  intros (h1 & H1 & Hh)%expect_bind_ok (r1 & H2 & Hr)%expect_bind_ok.
  refine (IH h1 h' r1 r' _ Hh Hr). destruct Hs as (Hrows & Hrec & Hov & Hok).
  unfold history_overlay in H1. unfold receive_overlay in H2. rewrite Hrows in H1.
  destruct (output_exists_in_rows _ _); [injection H1 as <-; by injection H2 as <-|].
  apply expect_bind_ok in H1 as (n & Hn & [= <-]). apply expect_bind_ok in H2 as (n' & Hn' & [= <-]).
  rewrite Hov, Hn' in Hn. injection Hn as <-. unfold same_received. cbn. rewrite Hrec. split_and!; [done..|].
  apply (rows_ok_snoc _ _ (om_output m)) in Hok. rewrite Hrec in Hok. destruct Hok as [Hu Hr']. split; [done|].
  rewrite Hr'. unfold wrap. by rewrite Zmod_mod.
Qed.

Lemma received_same `{LockRules} now last outputs overlay h r :
  received_history outputs overlay = Ok h → receive_all now last outputs overlay = Ok r → same_received h r.
Proof.
  unfold received_history, receive_all. intros ([txs total] & Hg & Hh)%expect_bind_ok Hr.
  refine (overlay_same overlay _ _ _ _ _ Hh Hr).
  destruct (receive_outputs_spec now last outputs (ReceivedRows [] 0 0 0)) as (Hrows & Hov & Hrec).
  specialize (Hrec 0 eq_refl). apply (group_outputs_ok outputs _ _ 0) in Hg as [Hok Ht].
  - unfold same_received. cbn in *. rewrite Hrows, Hov, Hrec, Ht. split_and!; [done..|].
    destruct Hok as [Hu Hw]. split; [done|]. rewrite Hw. unfold wrap. by rewrite Zmod_mod.
  - split; [by intros row ?%elem_of_nil|done].
  - done.
Qed.

(** The same sources are sent, each in a row of its transaction. *)
Record same_sent (received : Z) (h : sent_history) (s : sent_sources) : Prop := {
  sm_sources : sh_sources h = ss_sources s;
  sm_total : sh_total h = ss_total s;
  sm_spent : total_of tr_spent (sh_transactions h) = ss_total s;
  sm_spends : concat (tr_spends <$> sh_transactions h) ≡ₚ ss_outputs s;
  sm_hash row t : row ∈ sh_transactions h → t ∈ tr_spends row →
    tl_tx_hash (s_link (ts_possible_spend t)) = row_hash row;
  sm_received : wrap 64 (total_of row_amount (sh_transactions h)) = wrap 64 received
}.

Lemma elem_of_insert_inv {A} (l : list A) i x y : y ∈ <[i := x]> l → y = x ∨ y ∈ l.
Proof.
  intros [j Hj]%list_elem_of_lookup. apply list_lookup_insert_Some in Hj as [(_ & <- & _)|[_ Hj]]; [by left|right].
  by eapply list_elem_of_lookup_2.
Qed.

Lemma concat_fmap_insert {A B} (f : A → list B) l i x y b :
  l !! i = Some x → f y = f x ++ [b] → concat (f <$> <[i := y]> l) ≡ₚ concat (f <$> l) ++ [b].
Proof.
  intros Hi Hf. rewrite insert_take_drop by by eapply lookup_lt_Some.
  rewrite <-(take_drop_middle l i x Hi) at 3. rewrite !fmap_app, !concat_app. simpl. rewrite Hf.
  solve_Permutation.
Qed.

(** The row of a spend: one with its transaction, or a new one without amount. *)
Lemma find_row_ok choice transactions index transactions' :
  match find_tx_index (tl_tx_hash (s_link (ch_spend choice))) transactions with
  | Some index => (index, transactions)
  | None => (length transactions, transactions ++ [outgoing_row choice])
  end = (index, transactions') →
  (∃ row, transactions' !! index = Some row ∧ row_hash row = tl_tx_hash (s_link (ch_spend choice))) ∧
  (transactions' = transactions ∨ transactions' = transactions ++ [outgoing_row choice]).
Proof.
  unfold find_tx_index. destruct (list_find _ transactions) as [[i row]|] eqn:E; cbn; intros [= <- <-].
  - apply list_find_Some in E as (Hi & Hh & _). split; [by exists row|by left].
  - split; [|by right]. exists (outgoing_row choice). split; [|done].
    by rewrite lookup_app_r, Nat.sub_diag by done.
Qed.

Lemma history_choice_same received h s e h' s' :
  same_sent received h s → history_choice h e = Ok h' → send_choice s e = Ok s' → same_sent received h' s'.
Proof.
  intros [Hsrc Htot Hspent Hsp Hhash Hrec]. unfold history_choice, send_choice. rewrite Hsrc.
  case_bool_decide; [by intros [= <-] [= <-]|].
  destruct (match find_tx_index _ _ with Some _ => _ | None => _ end) as [index txs] eqn:Efind.
  apply find_row_ok in Efind as [(row & Hrow & Hrh) Htxs].
  rewrite Hrow. cbn [of_option mbind expect_bind].
  intros (row' & Hrow' & Hrun)%expect_bind_ok (total & [-> _]%add_checked_ok & [= <-])%expect_bind_ok.
  apply expect_bind_ok in Hrun as (total' & [-> _]%add_checked_ok & [= <-]).
  apply expect_bind_ok in Hrow' as (spent & [-> _]%add_checked_ok & [= <-]).
  set (row' := TxRow _ _ _).
  assert (total_of tr_spent txs = ss_total s ∧ concat (tr_spends <$> txs) ≡ₚ ss_outputs s ∧
    (∀ row t, row ∈ txs → t ∈ tr_spends row → tl_tx_hash (s_link (ts_possible_spend t)) = row_hash row) ∧
    wrap 64 (total_of row_amount txs) = wrap 64 received) as (Hspent' & Hsp' & Hhash' & Hrec').
  { destruct Htxs as [->| ->]; [done|]. rewrite !total_of_app, fmap_app, concat_app. cbn.
    rewrite app_nil_r, !Z.add_0_r. split_and!; [done|done| |done].
    intros r t [Hr| ->%list_elem_of_singleton]%elem_of_app; [by apply Hhash|by intros ?%elem_of_nil]. }
  split; cbn [sh_sources sh_total sh_transactions ss_sources ss_total ss_outputs].
  - done.
  - by rewrite Htot.
  - rewrite (total_of_insert _ _ _ _ _ Hrow), Hspent'. cbn. lia.
  - rewrite (concat_fmap_insert tr_spends txs index row row'
      (TransactionSpend (ch_meta e.2) (ch_spend e.2)) Hrow eq_refl). by rewrite Hsp'.
  - intros r t Hr Ht. apply elem_of_insert_inv in Hr as [->|Hr]; [|by apply Hhash'].
    apply elem_of_app in Ht as [Ht| ->%list_elem_of_singleton]; [|done].
    apply (Hhash' row t); [by eapply list_elem_of_lookup_2|done].
  - rewrite (total_of_insert _ _ _ _ _ Hrow). subst row'. unfold row_amount at 2 3. cbn [tr_info].
    by rewrite Z.sub_add.
Qed.

Lemma history_choices_same received l : ∀ h s h' s',
  same_sent received h s → fold_err history_choice h l = Ok h' → fold_err send_choice s l = Ok s' →
  same_sent received h' s'.
Proof.
  induction l as [|e l IH]; intros h s h' s' Hs; cbn [fold_err]; [by intros [= <-] [= <-]|].
  intros (h1 & H1 & Hh)%expect_bind_ok (s1 & H2 & Hss)%expect_bind_ok.
  eapply IH; [|exact Hh|exact Hss]. by eapply history_choice_same.
Qed.

#[export] Instance row_leb_total : Total (λ l r, Is_true (row_leb l r)).
Proof.
  intros l r. unfold row_leb, transaction_link_leb. rewrite !Is_true_true.
  rewrite (Z.eqb_sym (tl_height (o_link (tr_info r)))). destruct (Z.eqb_spec (tl_height (o_link (tr_info l))) (tl_height (o_link (tr_info r)))); lia.
Qed.

(** ** Theorems *)

Section balance_theorems.
Context `{LL : LmdbLaws} `{Crypto} `{K : ScanCrypto} `{R : LockRules}.
Context (get_transactions : list Z → expect (list Z * gmap Z transaction)).
Implicit Types d : db L.

(** The duplicates of a key differ. *)
Lemma dups_nodup n k d : NoDup (dups n k d).
Proof.
  induction (dups_sorted n k d) as [|v l _ IH Hv]; [constructor|]. constructor; [|done].
  intros Hin. rewrite Forall_forall in Hv. apply Hv in Hin. by apply (dup_lt_neq _ v v).
Qed.

(** The rows of what was sent. *)
Lemma sent_rows (rows : list output) sent :
  (∀ t, t ∈ sent → ∃ o, o ∈ rows ∧ o_spend_meta o = ts_meta t) →
  ∃ outs, (∀ o, o ∈ outs → o ∈ rows) ∧ o_spend_meta <$> outs = ts_meta <$> sent ∧
    total_amount outs = total_sent_amount sent.
Proof.
  induction sent as [|t sent IH]; intros Hrow; [by exists []; split_and!; [intros o ?%elem_of_nil|..]|].
  destruct IH as (outs & Hin & Hmeta & Ht); [intros t' Ht'; apply Hrow; by right|].
  destruct (Hrow t) as (o & Ho & Hm); [by left|]. exists (o :: outs). split_and!.
  - by intros x [->|Hx]%elem_of_cons; [|apply Hin].
  - cbn. congruence.
  - simpl. unfold output_amount at 1. rewrite Hm, Ht. done.
Qed.

(** The balance.  What was received is the sum of the stored outputs and of
    those of the pool that are not stored yet, in 64 bits.  What was sent is the
    sum of the spent outputs listed: each once, each the output a confirmed key
    image of a spend of the account was imported for, and none missing. *)
Theorem address_info_sent now overlay user d info :
  address_info now (Ok overlay) user d = Ok info →
  ∃ rows added, rows = get_outputs (acc_id user) d ++ added ∧ added `sublist_of` (om_output <$> overlay) ∧
    ai_total_received info = wrap 64 (total_amount rows) ∧
    ai_total_sent info = total_sent_amount (ai_spent_outputs info) ∧
    NoDup ((λ t, sme_id (ts_meta t)) <$> ai_spent_outputs info) ∧
    (∀ t, t ∈ ai_spent_outputs info → ∃ out, ts_possible_spend t ∈ get_spends (acc_id user) d ∧
       confirmed_of (acc_id user) d rows (ts_possible_spend t) out ∧ ts_meta t = o_spend_meta out) ∧
    ∀ s out, s ∈ get_spends (acc_id user) d → confirmed_of (acc_id user) d rows s out →
      output_key out ∈ (λ t, sme_id (ts_meta t)) <$> ai_spent_outputs info.
Proof. apply address_info_ok. Qed.

(** C17: the outputs offered to a wallet are those of its account that are neither
    dust, nor in the ring of a confirmed image of unknown source, nor a confirmed
    source, nor pending; they add up to the amount of the response, which is no
    less than asked for.  An output comes with the additional keys of its
    transaction only when no output before it is of that transaction.  Outputs
    that fit into 64 bits never fail the selection. *)
Theorem unspent_outs_spec now req rpc d user :
  open_account (uo_creds req) d = Ok user →
  (∀ resp, generate_response get_transactions now req rpc d = Ok resp →
     uo_meta <$> ur_outputs resp = filter (λ o, offered_to now req (acc_id user) d o = true) (get_outputs (acc_id user) d) ∧
     ur_amount resp = total_amount (uo_meta <$> ur_outputs resp) ∧ uo_amount req <= ur_amount resp ∧
     ∃ additional, fetch_additional_tx_pub_keys get_transactions (uo_meta <$> ur_outputs resp) = Ok additional ∧
       keys_taken additional (ur_outputs resp)) ∧
  ((∀ o, o ∈ get_outputs (acc_id user) d → 0 <= output_amount o) →
   total_amount (get_outputs (acc_id user) d) <= u64_max →
   ∃ st, select_outputs (dust_of req) (default 0 (uo_mixin req)) (λ id, ki_value <$> get_images id d)
     (confirmed_image_set (acc_id user) d) (imported_source_map (get_imported_spend_sources (acc_id user) d))
     (confirmed_source_ids (confirmed_image_set (acc_id user) d)
        (imported_source_map (get_imported_spend_sources (acc_id user) d)) (get_spends (acc_id user) d))
     (filter (λ pending, pending_is_active now pending = true) (get_pending_spends (acc_id user) d))
     (get_outputs (acc_id user) d) = Ok st).
Proof.
  intros Ho. split.
  - intros resp (user' & Ho' & Hresp)%generate_response_ok. rewrite Ho in Ho'. by injection Ho' as <-.
  - intros Hpos Hsum. apply (select_never_fails _ _ _ _ _ _ _ _ _ 0); [|done|lia].
    unfold totals. rewrite !Forall_cons, Forall_nil. cbn. lia.
Qed.

(** C16: with one database the balance covers what is offered: no offered output
    is among the spent ones, and when the outputs of the account and of the pool
    fit into 64 bits, what is offered and what was sent add up to no more than
    what was received. *)
Theorem balance_covers now now' req rpc d user overlay info resp :
  open_account (uo_creds req) d = Ok user →
  address_info now (Ok overlay) user d = Ok info → generate_response get_transactions now' req rpc d = Ok resp →
  (∀ o, o ∈ get_outputs (acc_id user) d ++ (om_output <$> overlay) → 0 <= output_amount o) →
  total_amount (get_outputs (acc_id user) d ++ (om_output <$> overlay)) <= u64_max →
  (∀ o t, o ∈ uo_meta <$> ur_outputs resp → t ∈ ai_spent_outputs info → output_key o ≠ sme_id (ts_meta t)) ∧
  ur_amount resp + ai_total_sent info <= ai_total_received info.
Proof.
  intros Ho Hinfo (user' & Ho' & Houts & Hamount & _)%generate_response_ok Hpos Hsum.
  rewrite Ho in Ho'. injection Ho' as <-.
  apply address_info_ok in Hinfo as (rows & added & Hrows & Hsub & Hrec & Hsent & Hnd & Hfrom & _).
  assert (∀ o t, o ∈ uo_meta <$> ur_outputs resp → t ∈ ai_spent_outputs info → output_key o ≠ sme_id (ts_meta t)) as Hdisj.
  { intros o t. rewrite Houts. intros [Hoff _]%list_elem_of_filter (out & Hs & Hc & ->)%Hfrom.
    by eapply sent_not_offered. }
  split; [done|].
  assert (∀ t, t ∈ ai_spent_outputs info → ∃ o, o ∈ rows ∧ o_spend_meta o = ts_meta t) as Hrow.
  { intros t (out & _ & [Hrow _]%confirmed_output_row & Hm)%Hfrom. by exists out. }
  destruct (sent_rows rows _ Hrow) as (outs & Hin & Hmeta & Htotal).
  assert (NoDup (output_key <$> outs)) as Hkeys.
  { assert (output_key <$> outs = (λ t, sme_id (ts_meta t)) <$> ai_spent_outputs info) as ->; [|done].
    transitivity (sme_id <$> (o_spend_meta <$> outs)); [by rewrite <-list_fmap_compose|].
    by rewrite Hmeta, <-list_fmap_compose. }
  rewrite Hrec, Hamount, Hsent, <-Htotal.
  assert (0 <= total_amount rows <= u64_max) as Hbound.
  { rewrite total_amount_app in Hsum. rewrite Hrows.
    assert (total_amount added <= total_amount (om_output <$> overlay)).
    { apply total_amount_sublist; [|done]. intros o Hov. apply Hpos, elem_of_app. by right. }
    split; [|rewrite total_amount_app; lia].
    apply total_amount_nonneg. intros o [Hg|Ha]%elem_of_app; apply Hpos, elem_of_app; [by left|right].
    by eapply elem_of_sublist. }
  rewrite wrap_small by (unfold u64_max in *; lia). rewrite <-total_amount_app.
  apply total_amount_among.
  - rewrite Hrows. intros o [Hg|Ha]%elem_of_app; apply Hpos, elem_of_app; [by left|right]. by eapply elem_of_sublist.
  - apply NoDup_app. split_and!.
    + rewrite Houts. apply NoDup_filter. apply (dups_nodup outputs).
    + intros o Hoff Hout. assert (output_key o ∈ (λ t, sme_id (ts_meta t)) <$> ai_spent_outputs info) as Hk.
      { assert (o_spend_meta o ∈ ts_meta <$> ai_spent_outputs info) as (t & Hm & Ht)%list_elem_of_fmap.
        { rewrite <-Hmeta. by apply list_elem_of_fmap_2. }
        apply list_elem_of_fmap. exists t. split; [|done]. unfold output_key. by rewrite Hm. }
      apply list_elem_of_fmap in Hk as (t & Hk & Ht). by apply (Hdisj o t).
    + by eapply NoDup_fmap_1.
  - rewrite Houts. intros o [[_ Ho']%list_elem_of_filter|Ho']%elem_of_app; [|by apply Hin].
    rewrite Hrows. apply elem_of_app. by left.
Qed.

(** C18: the history agrees with the balance: it has the same sums received and
    sent, its spends are the spent outputs, each in a row of the transaction that
    spends it, and the amounts of the rows are what was received, in 64 bits. *)
Theorem history_matches_balance now overlay user d info txs :
  address_info now (Ok overlay) user d = Ok info → address_txs (Ok overlay) user d = Ok txs →
  at_total_received txs = ai_total_received info ∧
  wrap 64 (total_of row_amount (at_transactions txs)) = ai_total_received info ∧
  total_of tr_spent (at_transactions txs) = ai_total_sent info ∧
  concat (tr_spends <$> at_transactions txs) ≡ₚ ai_spent_outputs info ∧
  (∀ row t, row ∈ at_transactions txs → t ∈ tr_spends row →
     tl_tx_hash (s_link (ts_possible_spend t)) = row_hash row) ∧
  Sorted (λ l r, Is_true (row_leb l r)) (at_transactions txs).
Proof.
  unfold address_info, address_txs. intros (last & Hlast & Hinfo)%expect_bind_ok (last' & Hlast' & Htxs)%expect_bind_ok.
  rewrite Hlast in Hlast'. injection Hlast' as <-.
  apply expect_bind_ok in Hinfo as (received & Hr & Hinfo). apply expect_bind_ok in Hinfo as (sorted & Hs & Hinfo).
  apply expect_bind_ok in Hinfo as (n & _ & Hinfo). apply expect_bind_ok in Hinfo as (sent & Hse & [= <-]). cbn [ai_total_received ai_total_sent ai_spent_outputs at_total_received at_transactions].
  apply expect_bind_ok in Htxs as (h & Hh & Htxs). apply expect_bind_ok in Htxs as (hs & Hhs & [= <-]).
  cbn [ai_total_received ai_total_sent ai_spent_outputs at_total_received at_transactions].
  destruct (received_same _ _ _ _ _ _ Hh Hr) as (Hrows & Hrec & _ & Hok).
  apply sort_spends_choices in Hs. cbn in Hs. rewrite Hrows, <-Hs in Hhs.
  assert (same_sent (hi_received h) (SentHistory [] 0 (hi_transactions h)) (SentSources [] 0 [])) as Hinit.
  { destruct Hok as [Hu Hw]. split; cbn; [done|done| | |by intros row t Hrow; rewrite (proj1 (Hu _ Hrow)); intros ?%elem_of_nil|done].
    - clear -Hu. induction (hi_transactions h) as [|row l IH]; [done|]. cbn.
      rewrite (proj2 (Hu row ltac:(by left))), IH; [done|]. intros r Hin. apply Hu. by right.
    - clear -Hu. induction (hi_transactions h) as [|row l IH]; [done|]. cbn.
      rewrite (proj1 (Hu row ltac:(by left))), IH; [done|]. intros r Hin. apply Hu. by right. }
  destruct (history_choices_same _ _ _ _ _ _ Hinit Hhs Hse) as [_ _ Hspent Hspends Hhash Hw].
  destruct (receive_all_spec _ _ _ _ _ Hr) as [Hrr _].
  assert (wrap 64 (rr_received received) = rr_received received) as Hww by (rewrite Hrr; unfold wrap; by rewrite Zmod_mod).
  pose proof (merge_sort_Permutation (λ l r, Is_true (row_leb l r)) (sh_transactions hs)) as Hp.
  split_and!; [done|by rewrite Hp, Hw, Hrec|by rewrite Hp|by rewrite Hp| |].
  - intros row t. rewrite Hp. apply Hhash.
  - apply Sorted_merge_sort, _.
Qed.

(** An output is unlocked when its unlock time has come and it is ten blocks
    deep, in the terms of the network: while the heights stay clear of the ends of
    their 64 bits. *)
Theorem is_locked_by_height now unlock_time last tx_height :
  unlock_time <= MAX_BLOCK_NUMBER → 0 < last <= MAX_BLOCK_NUMBER → 0 <= tx_height <= MAX_BLOCK_NUMBER →
  0 <= LOCKED_TX_ALLOWED_DELTA_BLOCKS → 0 <= DEFAULT_TX_SPENDABLE_AGE →
  MAX_BLOCK_NUMBER + LOCKED_TX_ALLOWED_DELTA_BLOCKS + DEFAULT_TX_SPENDABLE_AGE < 2 ^ 64 →
  is_locked now unlock_time last tx_height = false ↔
    unlock_time <= last - 1 + LOCKED_TX_ALLOWED_DELTA_BLOCKS ∧ tx_height + DEFAULT_TX_SPENDABLE_AGE <= last.
Proof.
  intros Hu Hl Ht Hb Ha Hm. unfold is_locked, blocks_until_unlocked, to_uint.
  destruct (Z.ltb_spec MAX_BLOCK_NUMBER unlock_time); [lia|]. destruct (Z.eqb_spec last 0); [lia|].
  rewrite !wrap_small by lia. rewrite negb_false_iff, Z.eqb_eq.
  destruct (Z.ltb_spec (last - 1 + LOCKED_TX_ALLOWED_DELTA_BLOCKS) unlock_time); [lia|].
  destruct (Z.leb_spec (tx_height + DEFAULT_TX_SPENDABLE_AGE) last); lia.
Qed.

(** An unlock time of 2^63 and more is a negative number of seconds: the output
    counts as unlocked at once. *)
Lemma is_locked_far_future now unlock_time last tx_height :
  0 <= now + LOCKED_TX_ALLOWED_DELTA_SECONDS_V2 → MAX_BLOCK_NUMBER < unlock_time → 2 ^ 63 <= unlock_time < 2 ^ 64 →
  is_locked now unlock_time last tx_height = false.
Proof.
  intros Hnow Hm Hu. unfold is_locked, blocks_until_unlocked, to_seconds.
  destruct (Z.ltb_spec MAX_BLOCK_NUMBER unlock_time); [|lia].
  destruct (Z.ltb_spec unlock_time (2 ^ 63)); [lia|].
  by destruct (Z.leb_spec (unlock_time - 2 ^ 64) (now + LOCKED_TX_ALLOWED_DELTA_SECONDS_V2)); [|lia].
Qed.
End balance_theorems.

(** ** Witnesses *)

#[local] Existing Instance toy_scan.
#[local] Existing Instance test_crypto.

Definition test_rules : LockRules :=
  {| MAX_BLOCK_NUMBER := 500000000; LOCKED_TX_ALLOWED_DELTA_SECONDS_V2 := 120;
     LOCKED_TX_ALLOWED_DELTA_BLOCKS := 1; DEFAULT_TX_SPENDABLE_AGE := 10 |}.
#[local] Existing Instance test_rules.

(** Account 1 has two outputs of one transaction; its image 900 is confirmed and
    was imported for the first. *)
Definition test_spend : spend :=
  {| s_link := TransactionLink 6 9; s_image := 900; s_source := OutputId 0 8; s_timestamp := 30; s_unlock_time := 0;
     s_mixin_count := 10; s_length := 0; s_payment_id := replicate 32 0; s_sender := AddressIndex 0 0 |}.

Definition balance_db : db ListDb.lmdb :=
  put imported_spend_sources 1 (KeyImageSource 900 (OutputId 0 2) 7 3 0)
    (put confirmed_spends 1 900
      (put spends 1 test_spend
        (put outputs 1 (test_found 4 8) (put outputs 1 (test_found 3 2) account_db)))).

Lemma balance_open : open_account (creds 6) balance_db = Ok (test_account 1 6 4).
Proof. vm_compute. reflexivity. Qed.

Definition pool_matches : list txpool_overlay_match :=
  match fetch_txpool_incoming_overlay (test_account 1 6 4) 99 (Ok [pooled_tx]) with Ok l => l | Err _ => [] end.

Definition test_daemon (hashes : list Z) : expect (list Z * gmap Z transaction) :=
  Ok ([], list_to_map ((λ hash, (hash, scanned_tx [])) <$> hashes)).

Definition test_info : expect get_address_info_response :=
  address_info 1000 (Ok pool_matches) (test_account 1 6 4) balance_db.

Definition test_unspent_request : get_unspent_outs_request := UnspentRequest (creds 6) 5 None None None.

Definition test_unspent : expect get_unspent_outs_response :=
  generate_response test_daemon 1000 test_unspent_request (Ok (FeeEstimate 20000 10000 4)) balance_db.

(** The image was seen in a ring with the other output, which stays unspent. *)
Example test_balance :
  match test_info, test_unspent with
  | Ok info, Ok resp =>
    (ai_total_received info, ai_total_sent info, ai_locked_funds info) = (17, 5, 17) ∧
    (output_key <$> (uo_meta <$> ur_outputs resp), ur_amount resp, ur_per_byte_fee resp) = ([OutputId 0 8], 5, 5000)
  | _, _ => False
  end.
Proof. vm_compute. by split. Qed.

Lemma address_info_sent_witness :
  match test_info with
  | Ok info => ai_total_sent info = total_sent_amount (ai_spent_outputs info) ∧ length (ai_spent_outputs info) = 1%nat
  | Err _ => False
  end.
Proof.
  destruct test_info as [info|e] eqn:E; [|discriminate E].
  destruct (address_info_sent 1000 pool_matches (test_account 1 6 4) balance_db info E)
    as (rows & added & _ & _ & _ & Hsent & _).
  split; [exact Hsent|]. vm_compute in E. by injection E as <-.
Defined.

Lemma unspent_outs_spec_witness :
  match test_unspent with
  | Ok resp => ur_amount resp = total_amount (uo_meta <$> ur_outputs resp)
  | Err _ => False
  end.
Proof.
  destruct test_unspent as [resp|e] eqn:E; [|discriminate E].
  destruct (unspent_outs_spec test_daemon 1000 test_unspent_request (Ok (FeeEstimate 20000 10000 4)) balance_db
    (test_account 1 6 4) balance_open) as [Hresp _].
  by destruct (Hresp resp E) as (_ & Hsum & _).
Defined.

Lemma balance_covers_witness :
  match test_info, test_unspent with
  | Ok info, Ok resp => ur_amount resp + ai_total_sent info <= ai_total_received info
  | _, _ => False
  end.
Proof.
  destruct test_info as [info|e] eqn:E1; [|discriminate E1].
  destruct test_unspent as [resp|e] eqn:E2; [|discriminate E2].
  refine (proj2 (balance_covers test_daemon 1000 1000 test_unspent_request (Ok (FeeEstimate 20000 10000 4))
    balance_db (test_account 1 6 4) pool_matches info resp balance_open E1 E2 _ _)).
  - apply Forall_forall. vm_compute. repeat constructor; discriminate.
  - vm_compute. discriminate.
Defined.

Lemma history_matches_balance_witness :
  match address_txs (Ok pool_matches) (test_account 1 6 4) balance_db, test_info with
  | Ok txs, Ok info =>
    total_of tr_spent (at_transactions txs) = ai_total_sent info ∧
    (λ row, (row_hash row, row_amount row, tr_spent row)) <$> at_transactions txs = [(7, 10, 0); (9, 0, 5); (8, 7, 0)]
  | _, _ => False
  end.
Proof.
  destruct (address_txs (Ok pool_matches) (test_account 1 6 4) balance_db) as [txs|e] eqn:E1; [|discriminate E1].
  destruct test_info as [info|e] eqn:E2; [|discriminate E2].
  destruct (history_matches_balance 1000 pool_matches (test_account 1 6 4) balance_db info txs E2 E1)
    as (_ & _ & Hspent & _).
  split; [exact Hspent|]. vm_compute in E1. by injection E1 as <-.
Defined.

Lemma is_locked_by_height_witness : is_locked 1000 0 15 5 = false ∧ is_locked 1000 0 14 5 = true.
Proof.
  split; [|reflexivity].
  apply is_locked_by_height; [discriminate|split; [reflexivity|discriminate]|split; discriminate|discriminate..|reflexivity|].
  split; discriminate.
Defined.
