(* ===== verification/Async.v ===== *)
(** * Waiting for the daemon (src/src/rest_server.cpp)

    Four endpoints ask the daemon over a connection of ZeroMQ, which takes one
    request at a time, and answer later.  Two shapes of sharing that connection
    are used, each with a frame that exists while someone waits:

    - [submit_raw_tx] and [get_random_outs] serve the waiting requests one after
      the other ([serial]);
    - [daemon_status] and [get_unspent_outs] ask the daemon once for all that wait
      and keep the answer for five seconds ([batch]).

    A suspended coroutine is the state between two calls of [operator()]; what
    the network does in between, its time limits included, is an argument.  A
    frame is reached under the mutex of its cache, so that every step is atomic.

    Shown is that every request that was accepted is answered once and in order,
    but for those an exception in the coroutine loses ([serial_answers],
    [batch_answers]), that what is kept is never older than five seconds
    ([batch_fresh]), which transactions are remembered as pending
    ([submit_records_relayed]) and what rings are made of ([random_outs_asks]). *)

From S2P Require Import Prelude Lmdb Data Compare Tables Accounts Readers KeyImages Scan Requests Overlay Balance Decoys.

(** [steady_clock] counts nanoseconds. *)
Definition daemon_cache_timeout : Z := 5 * 10 ^ 9.

(** Writing a request and reading its answer: an error of the socket or a time
    limit, or what the answer is parsed to. *)
Inductive exchange (T : Type) :=
  | IoFailed
  | Parsed (r : expect T).
Arguments IoFailed {T}.
Arguments Parsed {T} _.

(** ** One request after the other *)

Section serial.
Context {Q A C W I : Type}.

(** How a request ends: it is answered and the coroutine goes on; all that wait
    get the answer and the coroutine ends; an exception ends the coroutine, its
    frame and the thread that runs it, and nobody that waits gets an answer; or it
    has not ended. *)
Inductive outcome :=
  | Answered (a : A) (c : C)
  | Broken (a : A)
  | Thrown
  | Unfinished.

(** What became of a request that waits no longer: its response was sent, or it
    was dropped with the frame. *)
Inductive ending := Sent (a : A) | Lost.

(** What is done for a request with the variables of the coroutine, and what the
    variables start as. *)
Context (serve : I → Q → C → W → outcome * W) (start : C).

Record frame := Frame { f_resumers : list (nat * Q); f_next : option Q; f_local : C }.

(** The frame of the cache, if there is one; what the handler writes to; the
    requests that no longer wait, in order. *)
Record serial := Serial { s_active : option frame; s_world : W; s_ended : list (nat * ending) }.

(** [handle]: to the end of the queue, or with a new connection. *)
Definition enqueue (client : expect unit) (id : nat) (req : Q) (s : serial) : expect unit * serial :=
  match s_active s with
  | Some f =>
    (Ok tt, Serial (Some (Frame (f_resumers f ++ [(id, req)]) (f_next f) (f_local f))) (s_world s) (s_ended s))
  | None =>
    match client with
    | Err e => (Err e, s)
    | Ok _ => (Ok tt, Serial (Some (Frame [(id, req)] None start)) (s_world s) (s_ended s))
    end
  end.

(** [send_response], and what an exception does in its place. *)
Definition send_response (out : outcome) (f : frame) (w : W) (ended : list (nat * ending)) : serial :=
  match out with
  | Answered a c =>
    match f_resumers f with
    | [] => Serial None w ended
    | (id, _) :: rest => Serial (Some (Frame rest None c)) w (ended ++ [(id, Sent a)])
    end
  | Broken a => Serial None w (ended ++ ((λ r, (r.1, Sent a)) <$> f_resumers f))
  | Thrown => Serial None w (ended ++ ((λ r, (r.1, Lost)) <$> f_resumers f))
  | Unfinished => Serial (Some f) w ended
  end.

(** [operator()]: the top of the loop takes the request of the first that waits,
    or ends; then the request is served. *)
Definition resume (io : I) (s : serial) : serial :=
  match s_active s with
  | None => s
  | Some f =>
    match f_next f, f_resumers f with
    | None, [] => Serial None (s_world s) (s_ended s)
    | None, (_, req) :: _ => Serial (Some (Frame (f_resumers f) (Some req) (f_local f))) (s_world s) (s_ended s)
    | Some req, _ => let '(out, w) := serve io req (f_local f) (s_world s) in send_response out f w (s_ended s)
    end
  end.

(** The states, with the requests that were accepted. *)
Inductive reached (w0 : W) : list (nat * Q) → serial → Prop :=
  | reached_start : reached w0 [] (Serial None w0 [])
  | reached_enqueue l s client id req s' :
      reached w0 l s → enqueue client id req s = (Ok tt, s') → reached w0 (l ++ [(id, req)]) s'
  | reached_resume l s io : reached w0 l s → reached w0 l (resume io s).

(** The responses that were sent. *)
Definition responses (s : serial) : list (nat * A) :=
  omap (λ r, match r.2 with Sent a => Some (r.1, a) | Lost => None end) (s_ended s).

Definition waiting (s : serial) : list (nat * Q) :=
  match s_active s with Some f => f_resumers f | None => [] end.

(** How long the coroutine needs to end when no request comes. *)
Definition rounds (s : serial) : nat :=
  match s_active s with
  | None => 0
  | Some f => 2 * length (f_resumers f) + match f_next f with Some _ => 0 | None => 1 end
  end.
End serial.
Arguments outcome : clear implicits.
Arguments ending : clear implicits.
Arguments frame : clear implicits.
Arguments serial : clear implicits.

(** ** One answer for all *)

Section batch.
Context {Q A R W : Type}.
(** The response, from what the daemon answered; what stands for the answer of a
    daemon that failed; what an empty cache counts as. *)
Context (answer : W → Q → expect R → A) (on_failure : expect R) (blank : option R).

Record batch := Batch {
  b_result : option R;
  b_last : Z;
  b_active : option (list (nat * Q));
  b_done : list (nat * A)
}.

(** The cache of the code, zero-initialised. *)
Definition new_batch : batch := Batch None 0 None [].

Definition cached (now : Z) (s : batch) : option R :=
  if now - b_last s <? daemon_cache_timeout then
    match b_result s with Some r => Some r | None => blank end
  else None.

(** [handle]: a response at once, or none yet. *)
Definition batch_handle (now : Z) (client : expect unit) (w : W) (id : nat) (req : Q) (s : batch) :
    expect (option A) * batch :=
  match cached now s with
  | Some r => (Ok (Some (answer w req (Ok r))), s)
  | None =>
    match b_active s with
    | Some l => (Ok None, Batch (b_result s) (b_last s) (Some (l ++ [(id, req)])) (b_done s))
    | None =>
      match client with
      | Err e => (Err e, s)
      | Ok _ => (Ok None, Batch None (b_last s) (Some [(id, req)]) (b_done s))
      end
    end
  end.

(** What is kept and answered with: an error of the socket counts as [on_failure],
    whatever the daemon may have said. *)
Definition result_of (x : exchange R) : expect R :=
  match x with IoFailed => on_failure | Parsed r => r end.

(** [send_response] *)
Definition complete (now : Z) (w : W) (x : exchange R) (s : batch) : batch :=
  match b_active s with
  | None => s
  | Some l =>
    let value := result_of x in
    let answered := b_done s ++ ((λ r, (r.1, answer w r.2 value)) <$> l) in
    match value with
    | Ok r => Batch (Some r) now None answered
    | Err _ => Batch None (b_last s) None answered
    end
  end.

(** The states at a time, with the requests that were left waiting and what came of
    asking the daemon, and when. *)
Inductive shared : Z → list (nat * Q) → list (Z * exchange R) → batch → Prop :=
  | shared_start : shared 0 [] [] new_batch
  | shared_request t now l v s client w id req s' :
      shared t l v s → t <= now → batch_handle now client w id req s = (Ok None, s') →
      shared now (l ++ [(id, req)]) v s'
  | shared_complete t now l v s w x :
      shared t l v s → t <= now → is_Some (b_active s) →
      shared now l (v ++ [(now, x)]) (complete now w x s).
End batch.
Arguments batch : clear implicits.

(** ** [submit_raw_tx] *)

Record pending_spent_output := PendingSpentOutput {
  po_amount : Z;
  po_global_index : Z;
  po_out_index : Z;
  po_tx_hash : Z;
  po_public_key : Z
}.

Record submit_raw_tx_request := SubmitRequest {
  sr_tx : string;
  sr_creds : option account_credentials;
  sr_pending_spent_outputs : list pending_spent_output
}.

Record submit_context := SubmitContext {
  sc_message : string;
  sc_pending_account : Z;
  sc_pending_spends : list pending_spend
}.

Inductive submit_response :=
  | StatusOk
  | RawJson (source : string).

(** [std::string::find] *)
Fixpoint contains (needle text : string) : bool :=
  String.prefix needle text || match text with EmptyString => false | String _ text => contains needle text end.

Definition should_passthrough_submit_raw_tx_error (daemon_raw_response : string) (debug : bool) : bool :=
  if negb debug then false
  else
    existsb (λ needle, contains needle daemon_raw_response)
      ["double spend"; "double_spend"; "Double spend"; "DOUBLE_SPEND";
       "invalid input"; "invalid_input"; "Invalid input"; "INVALID_INPUT"]%string.

Section submit.
Context `{L : Lmdb} `{Crypto}.
Context (debug : bool).
Implicit Types d : db L.

(** The part of [handle] before the queue; [now] is the clock in seconds. *)
Definition submit_prepare (now : Z) (req : submit_raw_tx_request) d : expect submit_context :=
  if bool_decide (sr_pending_spent_outputs req = []) then Ok (SubmitContext (sr_tx req) 0 [])
  else
    creds ← of_option bad_client_tx (sr_creds req);
    user ← open_account creds d;
    let recorded := Z.min now u32_max in
    Ok (SubmitContext (sr_tx req) (acc_id user)
      ((λ pending, PendingSpend (OutputId (po_amount pending) (po_global_index pending)) (po_tx_hash pending)
                     (po_public_key pending) (po_out_index pending) recorded) <$> sr_pending_spent_outputs req)).

(** What the daemon makes of the transaction: whether it relayed it, and the text
    of its answer. *)
Definition submit_serve (io : exchange bool * string) (req : submit_context) (c : unit) d :
    outcome (expect submit_response) unit * db L :=
  let raw := io.2 in
  match io.1 with
  | IoFailed => (Broken (Err daemon_timeout), d)
  | Parsed (Err e) =>
    if should_passthrough_submit_raw_tx_error raw debug then (Answered (Ok (RawJson raw)) c, d) else (Answered (Err e) c, d)
  | Parsed (Ok false) =>
    if should_passthrough_submit_raw_tx_error raw debug then (Answered (Ok (RawJson raw)) c, d)
    else (Answered (Err tx_relay_failed) c, d)
  | Parsed (Ok true) =>
    (Answered (Ok StatusOk) c,
     if bool_decide (sc_pending_spends req = []) then d
     else record_pending_spends (sc_pending_account req) (sc_pending_spends req) d)
  end.
End submit.

(** ** [get_random_outs] *)

Definition max_ring_size : Z := 20.
Definition max_rings : nat := 150.

Record get_random_outs_request := RandomRequest { rq_count : Z; rq_amounts : list Z }.

(** What a request meets: the clock before and after the distribution is fetched,
    what the daemon answers to each question, and the random source. *)
Record daemon_io `{R : Random} := DaemonIo {
  di_now : Z;
  di_later : Z;
  di_histogram : list Z → exchange (list histogram);
  di_distribution : list Z → exchange (list (Z * list Z));
  di_keys : nat → list output_ref → expect (list output_keys);
  di_rng : rng
}.

Definition exchange_result {T} (x : exchange T) : expect T :=
  match x with IoFailed => Err daemon_timeout | Parsed r => r end.

Section random_outs.
Context `{R : Random} (fuel : nat).

(** The part of [handle] before the queue: amounts in falling order. *)
Definition random_prepare (req : get_random_outs_request) : expect get_random_outs_request :=
  _ ← guard_err (negb ((max_ring_size <? rq_count req) || (max_rings <? length (rq_amounts req))%nat))
        exceeded_rest_request_limit;
  Ok (RandomRequest (rq_count req) (merge_sort Z.ge (rq_amounts req))).

(** The zeros at the end stand for outputs of RingCT. *)
Definition ringct_count (amounts : list Z) : nat := length amounts - lower_bound (λ a, 0 <? a) amounts.

Definition fetch_histograms (io : daemon_io) (amounts : list Z) : expect (list histogram * list Z) :=
  let ringct := ringct_count amounts in
  if (ringct <? length amounts)%nat then
    let asked := take (length amounts - ringct) amounts in
    histograms ← exchange_result (di_histogram io asked);
    _ ← guard_err (length histograms =? length asked)%nat bad_daemon_response;
    Ok (histograms, asked ++ replicate ringct 0)
  else Ok ([], amounts).

(** The distribution and when it was fetched stay for the next request; the
    vector of amounts is used for the question when it holds zeros only. *)
Definition fetch_distribution (io : daemon_io) (ringct : nat) (amounts : list Z) (c : list Z * Z) :
    expect ((list Z * Z) * list Z) :=
  let '(distributions, last) := c in
  if (0 <? ringct)%nat && (bool_decide (distributions = []) || (daemon_cache_timeout <? di_now io - last)) then
    let all := (ringct =? length amounts)%nat in
    let asked := resize 1 0 (if all then amounts else []) in
    let amounts := if all then [] else amounts in
    resp ← exchange_result (di_distribution io asked);
    match resp with
    | [(amount, distribution)] =>
      _ ← guard_err (amount =? 0) bad_daemon_response;
      Ok ((distribution, di_later io),
          if bool_decide (amounts = []) then asked ++ replicate (ringct - 1) 0 else amounts)
    | _ => Err bad_daemon_response
    end
  else Ok (c, amounts).

(** Errors that are exceptions; undefined behaviour counts as one. *)
Definition is_exception (e : error) : bool :=
  bool_decide (e = logic_error) || bool_decide (e = runtime_error) || bool_decide (e = undefined_behaviour).

Definition random_serve (io : daemon_io) (req : get_random_outs_request) (c : list Z * Z) (w : unit) :
    outcome (expect (list random_ring)) (list Z * Z) * unit :=
  let fetched :=
    '(histograms, amounts) ← fetch_histograms io (rq_amounts req);
    '(c, amounts) ← fetch_distribution io (ringct_count (rq_amounts req)) amounts c;
    Ok (histograms, amounts, c) in
  match fetched with
  | Err e => (Broken (Err e), w)
  | Ok (histograms, amounts, c) =>
    match pick_random_outputs fuel (Z.to_nat (rq_count req)) (make_gamma_picker c.1) amounts histograms (di_keys io) (di_rng io) with
    | Ok (rings, _) => (Answered (Ok rings) c, w)
    | Err e =>
      if bool_decide (e = out_of_fuel) then (Unfinished, w)
      else if is_exception e then (Thrown, w) else (Broken (Err e), w)
    end
  end.
End random_outs.

(** ** [daemon_status] *)

Inductive daemon_state := state_ok | no_connections | synchronizing | unavailable.

Record daemon_status_response := DaemonStatus {
  ds_outgoing_connections_count : Z;
  ds_incoming_connections_count : Z;
  ds_height : Z;
  ds_target_height : Z;
  ds_state : daemon_state
}.

(** The default has no value for [target_height]: what is in memory is sent. *)
Definition default_status (memory : Z) : daemon_status_response := DaemonStatus 0 0 0 memory unavailable.

Record daemon_info := DaemonInfo { outgoing : Z; incoming : Z; info_height : Z; info_target_height : Z }.

Definition status_of (info : daemon_info) : daemon_status_response :=
  DaemonStatus (outgoing info) (incoming info) (info_height info) (info_target_height info)
    (if (outgoing info =? 0) && (incoming info =? 0) then no_connections
     else if negb (info_target_height info =? 0) && (5 <=? wrap 64 (info_target_height info - info_height info))
     then synchronizing
     else state_ok).

(** Every request gets the status. *)
Definition status_answer (_ : unit) (_ : unit) (status : expect daemon_status_response) : expect daemon_status_response :=
  status.

Definition status_request := batch_handle status_answer None.
Definition status_complete (memory : Z) := complete status_answer (Ok (default_status memory)).

(** ** [get_unspent_outs] *)

Section unspent.
Context `{L : Lmdb} `{Crypto} `{K : ScanCrypto}.
Context (get_transactions : list Z → expect (list Z * gmap Z transaction)).

(** [w] is the clock in seconds and the database. *)
Definition unspent_answer (w : Z * db L) (req : get_unspent_outs_request) (fees : expect fee_estimate) :
    expect get_unspent_outs_response :=
  generate_response get_transactions w.1 req fees w.2.

Definition unspent_request := batch_handle unspent_answer (Some (FeeEstimate 0 0 0)).
Definition unspent_complete := complete unspent_answer (Err daemon_timeout).
End unspent.

(** ** Theorems *)

Section serial_theorems.
Context {Q A C W I : Type} (serve : I → Q → C → W → outcome A C * W) (start : C) (w0 : W).
Abbreviation state := (serial Q A C W).
Abbreviation serial_reached := (reached (I:=I) serve start w0).

(** The first that waits is the one whose request was taken. *)
Definition taken_first (s : state) : Prop :=
  ∀ f q, s_active s = Some f → f_next f = Some q → ∃ id rest, f_resumers f = (id, q) :: rest.

Lemma resume_taken_first io s : taken_first s → taken_first (resume serve io s).
Proof.
  intros Hs f q Hf Hq. unfold resume in Hf. destruct (s_active s) as [g|] eqn:Eg; [|congruence].
  destruct (f_next g) as [q'|] eqn:En.
  - destruct (serve io q' (f_local g) (s_world s)) as [[a c|a| |] w]; cbn in Hf; [|done|done|].
    2:{ injection Hf as <-. by apply (Hs g q Eg). }
    destruct (f_resumers g) as [|[id q2] rest]; [done|]. injection Hf as <-. done.
  - destruct (f_resumers g) as [|[id q2] rest] eqn:Er; [done|]. injection Hf as <-. injection Hq as ->.
    exists id, rest. done.
Qed.

Lemma enqueue_taken_first client id req (s s' : state) :
  enqueue start client id req s = (Ok tt, s') → taken_first s → taken_first s'.
Proof.
  unfold enqueue. intros Hrun Hs f q Hf Hq. destruct (s_active s) as [g|] eqn:Eg.
  - injection Hrun as <-. cbn in Hf. injection Hf as <-. cbn in *.
    destruct (Hs g q Eg Hq) as (i & rest & ->). by exists i, (rest ++ [(id, req)]).
  - destruct client; [|done]. injection Hrun as <-. cbn in Hf. by injection Hf as <-.
Qed.

Lemma reached_taken_first l s : serial_reached l s → taken_first s.
Proof.
  induction 1 as [|l s client id req s' _ IH Hrun|l s io _ IH].
  - by intros f q.
  - by eapply enqueue_taken_first.
  - by apply resume_taken_first.
Qed.

(** Why a request ended the way it did: it was served, or an earlier one broke the
    connection for all, or serving it or an earlier one threw. *)
Definition explained (requests : list (nat * Q)) (i : nat) (a : ending A) : Prop :=
  ∃ j id req io c w, (j <= i)%nat ∧ requests !! j = Some (id, req) ∧
    match (serve io req c w).1, a with
    | Answered b _, Sent a => a = b ∧ i = j
    | Broken b, Sent a => a = b
    | Thrown, Lost => True
    | _, _ => False
    end.

Record fifo (l : list (nat * Q)) (s : state) : Prop := {
  fifo_order : l.*1 = (s_ended s).*1 ++ (waiting s).*1;
  fifo_waiting : drop (length (s_ended s)) l = waiting s;
  fifo_explained i id a : s_ended s !! i = Some (id, a) → explained l i a
}.

Lemma explained_app l1 l2 i a : explained l1 i a → explained (l1 ++ l2) i a.
Proof.
  intros (j & id & req & io & c & w & Hj & Hl & Hs). exists j, id, req, io, c, w. split_and!; [done| |done].
  by apply lookup_app_l_Some.
Qed.

Lemma fifo_length l s : fifo l s → length l = (length (s_ended s) + length (waiting s))%nat.
Proof. intros [Ho _ _]. apply (f_equal length) in Ho. by rewrite length_app, !length_fmap in Ho. Qed.

Lemma enqueue_fifo client id req l (s s' : state) :
  enqueue start client id req s = (Ok tt, s') → fifo l s → fifo (l ++ [(id, req)]) s'.
Proof.
  intros Hrun Hf. pose proof (fifo_length _ _ Hf) as Hlen. destruct Hf as [Ho Hw He].
  assert (s_ended s' = s_ended s ∧ waiting s' = waiting s ++ [(id, req)]) as [Hd Hq].
  { unfold enqueue in Hrun. unfold waiting. destruct (s_active s) as [g|] eqn:Eg; [by injection Hrun as <-|].
    destruct client; [|done]. by injection Hrun as <-. }
  split.
  - by rewrite Hd, Hq, !fmap_app, Ho, app_assoc.
  - rewrite Hd, Hq, <-Hw. by rewrite drop_app_le by lia.
  - rewrite Hd. intros i id' a Hi. by eapply explained_app, He.
Qed.

(** Answering the first [n] that wait. *)
Lemma fifo_answer l s s' n (b : nat → ending A) :
  fifo l s → s_ended s' = s_ended s ++ imap (λ i r, (r.1, b i)) (take n (waiting s)) →
  waiting s' = drop n (waiting s) →
  (∀ i, (i < n)%nat → (i < length (waiting s))%nat → explained l (length (s_ended s) + i) (b i)) → fifo l s'.
Proof.
  intros [Ho Hw He] Hd Hq Hb. split.
  - rewrite Hd, Hq, fmap_app, fmap_imap, Ho, <-app_assoc. f_equal.
    assert (imap (λ _ r, r.1) (take n (waiting s)) = (take n (waiting s)).*1) as Himap by apply imap_const.
    etrans; [|apply f_equal2; [symmetry; exact Himap|done]]. by rewrite <-fmap_app, take_drop.
  - rewrite Hd, Hq, length_app, length_imap, <-Hw, length_take, drop_drop, length_drop.
    destruct (decide (n <= length l - length (s_ended s))%nat); [by f_equal; lia|].
    rewrite !drop_ge by lia. done.
  - rewrite Hd. intros i id a [Hi|[Hge Hi]]%lookup_app_Some; [by eapply He|].
    apply list_lookup_imap_Some in Hi as ([id' q] & Hi & [= -> ->]).
    apply lookup_take_Some in Hi as [Hi Hn]. apply lookup_lt_Some in Hi.
    replace i with (length (s_ended s) + (i - length (s_ended s)))%nat at 1 by lia. by apply Hb.
Qed.

Lemma resume_fifo io l s : taken_first s → fifo l s → fifo l (resume serve io s).
Proof.
  intros Ht Hf. unfold resume. destruct (s_active s) as [g|] eqn:Eg; [|done].
  assert (waiting s = f_resumers g) as Hwait by (unfold waiting; by rewrite Eg).
  destruct (f_next g) as [q|] eqn:En.
  2:{ destruct Hf as [Ho Hw He]. rewrite Hwait in Ho, Hw.
      destruct (f_resumers g) as [|[id q] rest] eqn:Er; by split. }
  destruct (Ht g q Eg En) as (id & rest & Er).
  assert (l !! length (s_ended s) = Some (id, q)) as Hl.
  { pose proof (fifo_waiting _ _ Hf) as Hw. rewrite Hwait, Er in Hw.
    rewrite <-(Nat.add_0_r (length (s_ended s))), <-lookup_drop. by rewrite Hw. }
  destruct (serve io q (f_local g) (s_world s)) as [out w] eqn:Es.
  assert (∀ i a, match out, a with Answered b _, Sent a => a = b ∧ i = 0%nat | Broken b, Sent a => a = b
      | Thrown, Lost => True | _, _ => False end → explained l (length (s_ended s) + i) a) as Hex.
  { intros i a Hm. exists (length (s_ended s)), id, q, io, (f_local g), (s_world s). split_and!; [lia|done|].
    rewrite Es. cbn [fst]. destruct out, a; try done. destruct Hm as [-> ->]. split; [done|lia]. }
  destruct out as [a c|a| |]; cbn [send_response].
  - rewrite Er. apply (fifo_answer _ s _ 1 (λ _, Sent a)); [done|..]; rewrite ?Hwait, ?Er; [done|done|].
    intros i Hi _. assert (i = 0%nat) as -> by lia. by apply Hex.
  - apply (fifo_answer _ s _ (length (f_resumers g)) (λ _, Sent a)); [done|..]; rewrite ?Hwait.
    + cbn. rewrite firstn_all. f_equal. symmetry. apply imap_const.
    + by rewrite drop_all.
    + intros i _ _. by apply Hex.
  - apply (fifo_answer _ s _ (length (f_resumers g)) (λ _, Lost)); [done|..]; rewrite ?Hwait.
    + cbn. rewrite firstn_all. f_equal. symmetry. apply imap_const.
    + by rewrite drop_all.
    + intros i _ _. by apply Hex.
  - destruct Hf as [Ho Hw He]. rewrite Hwait in Ho, Hw. by split.
Qed.

Lemma reached_fifo l s : serial_reached l s → fifo l s.
Proof.
  induction 1 as [|l s client id req s' Hr IH Hrun|l s io Hr IH].
  - by split.
  - by eapply enqueue_fifo.
  - apply resume_fifo; [by eapply reached_taken_first|done].
Qed.

Lemma reached_enqueued l s id req :
  serial_reached l s → serial_reached (l ++ [(id, req)]) (enqueue start (Ok tt) id req s).2.
Proof. intros Hr. apply (reached_enqueue _ _ _ _ _ (Ok tt) id req _ Hr). unfold enqueue. by destruct (s_active s). Qed.

(** *** The coroutine ends *)

(** Serving a request comes to an end. *)
Definition comes_back (io : I) : Prop := ∀ q c w, (serve io q c w).1 ≠ Unfinished.

Lemma resume_rounds io s : comes_back io → taken_first s → s_active s ≠ None → (rounds (resume serve io s) < rounds s)%nat ∨ s_active (resume serve io s) = None.
Proof.
  intros He Ht Ha. unfold resume, rounds. destruct (s_active s) as [g|] eqn:Eg; [|done].
  destruct (f_next g) as [q|] eqn:En.
  - destruct (Ht g q Eg En) as (id & rest & Er). rewrite Er.
    specialize (He q (f_local g) (s_world s)).
    destruct (serve io q (f_local g) (s_world s)) as [[a c|a| |] w]; cbn in *; [rewrite Er; cbn; lia|by right..|done].
  - destruct (f_resumers g) as [|[id q] rest]; [by right|]. cbn. lia.
Qed.

Lemma resume_idle ios (s : state) : s_active s = None → foldl (λ s io, resume serve io s) s ios = s.
Proof. intros Hs. induction ios as [|io ios IH]; [done|]. cbn. unfold resume at 2. by rewrite Hs. Qed.

Lemma resume_ends ios : Forall comes_back ios → ∀ s, taken_first s → (rounds s <= length ios)%nat →
  s_active (foldl (λ s io, resume serve io s) s ios) = None.
Proof.
  induction 1 as [|io ios He _ IH]; intros s Ht Hr; cbn [foldl length] in *.
  - unfold rounds in Hr. destruct (s_active s) as [g|] eqn:Eg; [|done].
    destruct (f_resumers g) as [|r rest] eqn:Er; cbn in Hr; [|lia].
    destruct (f_next g) as [q|] eqn:En; [|lia]. destruct (Ht g q Eg En) as (id & rest & Hn). congruence.
  - destruct (s_active s) as [g|] eqn:Eg.
    + destruct (resume_rounds io s He Ht) as [Hlt|Hnone]; [congruence| |].
      * apply IH; [by apply resume_taken_first|lia].
      * rewrite resume_idle; done.
    + unfold resume at 2. rewrite Eg. by rewrite resume_idle.
Qed.

Lemma reached_foldl l ios : ∀ s, serial_reached l s → serial_reached l (foldl (λ s io, resume serve io s) s ios).
Proof. induction ios as [|io ios IH]; intros s Hs; [done|]. by apply IH, reached_resume. Qed.

(** When nothing was lost, everyone that no longer waits was sent a response. *)
Lemma responses_all (s : state) :
  (∀ id, (id, Lost) ∉ s_ended s) → (responses s).*1 = (s_ended s).*1.
Proof.
  unfold responses. induction (s_ended s) as [|[id [a|]] l IH]; intros Hlost; [done|..].
  - cbn. f_equal. apply IH. intros id' Hin. apply (Hlost id'). by right.
  - destruct (Hlost id). by left.
Qed.

Lemma fifo_lost l s id :
  fifo l s → (id, Lost) ∈ s_ended s → ∃ io q c w, q ∈ l.*2 ∧ (serve io q c w).1 = Thrown.
Proof.
  intros Hf [i Hi]%list_elem_of_lookup. destruct (fifo_explained _ _ Hf i id Lost Hi) as (j & id' & q & io & c & w & _ & Hj & Hs).
  exists io, q, c, w. split; [apply list_elem_of_fmap; exists (id', q); by split; [|eapply list_elem_of_lookup_2]|].
  by destruct (serve io q c w).1.
Qed.

(** C25: the requests accepted by a connection end in the order they came, each
    once: with the response that serving it gave, with the one an earlier request
    broke the connection with, or lost without a response, which happens only when
    serving it or an earlier request threw an exception.  When no more come, and
    serving each comes to an end, the coroutine ends after at most two rounds for
    each that waits and one more, and nobody is left waiting; if serving none of
    the requests can throw, every one of them has been sent a response. *)
Theorem serial_answers l s :
  serial_reached l s →
  l.*1 = (s_ended s).*1 ++ (waiting s).*1 ∧
  (∀ i id a, s_ended s !! i = Some (id, a) → explained l i a) ∧
  ∀ ios, Forall comes_back ios → (rounds s <= length ios)%nat →
    let s' := foldl (λ s io, resume serve io s) s ios in
    s_active s' = None ∧ (s_ended s').*1 = l.*1 ∧
    ((∀ io q c w, q ∈ l.*2 → (serve io q c w).1 ≠ Thrown) → (responses s').*1 = l.*1).
Proof.
  intros Hr. pose proof (reached_fifo _ _ Hr) as [Ho _ He]. split_and!; [done|done|].
  intros ios Hends Hios s'. assert (s_active s' = None) as Hnone.
  { apply resume_ends; [done|by eapply reached_taken_first|done]. }
  pose proof (reached_fifo _ _ (reached_foldl _ ios _ Hr)) as Hf. fold s' in Hf.
  assert ((s_ended s').*1 = l.*1) as Hd.
  { pose proof (fifo_order _ _ Hf) as Hd. unfold waiting in Hd. rewrite Hnone in Hd. by rewrite Hd, app_nil_r. }
  split_and!; [done|done|]. intros Hthrow. rewrite <-Hd. apply responses_all. intros id Hlost.
  destruct (fifo_lost _ _ _ Hf Hlost) as (io & q & c & w & Hq & Hs). by apply (Hthrow io q c w).
Qed.
End serial_theorems.

(** *** What is remembered as pending *)

Section submit_theorems.
Context `{L : Lmdb} `{Crypto}.
Context (debug : bool).
Implicit Types d : db L.

(** The request in service, when what comes back is that the daemon relayed its
    transaction. *)
Definition relayed_now (io : exchange bool * string) (s : serial submit_context (expect submit_response) unit (db L)) :
    list (nat * submit_context) :=
  match s_active s, io.1 with
  | Some f, Parsed (Ok true) => match f_next f with Some _ => take 1 (f_resumers f) | None => [] end
  | _, _ => []
  end.

(** What can happen, and the requests whose transaction the daemon relayed in the
    course of it. *)
Inductive submit_event :=
  | Submitted (client : expect unit) (id : nat) (req : submit_context)
  | Resumed (io : exchange bool * string).

Definition submit_step (e : submit_event) s :=
  match e with
  | Submitted client id req => (enqueue tt client id req s).2
  | Resumed io => resume (submit_serve debug) io s
  end.

Fixpoint relayed (es : list submit_event) s : list (nat * submit_context) :=
  match es with
  | [] => []
  | e :: es => match e with Resumed io => relayed_now io s | _ => [] end ++ relayed es (submit_step e s)
  end.

Definition record_relayed (d : db L) (r : nat * submit_context) : db L :=
  record_pending_spends (sc_pending_account r.2) (sc_pending_spends r.2) d.

(** Those that got OK. *)
Definition accepted (ended : list (nat * ending (expect submit_response))) : list nat :=
  omap (λ r, match r.2 with Sent (Ok StatusOk) => Some r.1 | _ => None end) ended.

Lemma accepted_other {T} (l : list (nat * T)) (a : ending (expect submit_response)) :
  a ≠ Sent (Ok StatusOk) → accepted ((λ r, (r.1, a)) <$> l) = [].
Proof.
  intros Ha. unfold accepted. induction l as [|[id x] l IH]; [done|]. cbn. rewrite IH.
  by destruct a as [[[|raw]|e]|].
Qed.

(** One round: it writes what was relayed, and only that gets OK. *)
Lemma resume_relayed io s :
  taken_first s →
  s_world (resume (submit_serve debug) io s) = foldl record_relayed (s_world s) (relayed_now io s) ∧
  accepted (s_ended (resume (submit_serve debug) io s)) = accepted (s_ended s) ++ (relayed_now io s).*1.
Proof.
  intros Ht. unfold resume, relayed_now. destruct (s_active s) as [g|] eqn:Eg; [|by rewrite app_nil_r].
  destruct (f_next g) as [q|] eqn:En.
  2:{ destruct (f_resumers g) as [|[id q] rest], io as [[|[[]|]] raw]; by rewrite app_nil_r. }
  destruct (Ht g q Eg En) as (id & rest & Er).
  assert (∀ a (w : db L), s_world (send_response (Answered a tt) g w (s_ended s)) = w ∧
    accepted (s_ended (send_response (Answered a tt) g w (s_ended s))) =
      accepted (s_ended s) ++ accepted [(id, Sent a)]) as Hans.
  { intros a w. cbn [send_response]. rewrite Er. cbn [s_world s_ended]. split; [done|].
    unfold accepted. by rewrite omap_app. }
  destruct (f_local g), io as [[|[[|]|e]] raw]; unfold submit_serve; cbn [fst snd]; rewrite ?app_nil_r.
  - cbn [send_response s_world s_ended]. split; [done|].
    unfold accepted at 1. rewrite omap_app. fold (accepted (s_ended s)).
    etrans; [|apply app_nil_r]. f_equal. by apply accepted_other.
  - destruct (Hans (Ok StatusOk) (if bool_decide (sc_pending_spends q = []) then s_world s
        else record_pending_spends (sc_pending_account q) (sc_pending_spends q) (s_world s))) as [-> ->].
    rewrite Er. cbn. split; [|done]. unfold record_relayed. cbn. case_bool_decide as Hp; [by rewrite Hp|done].
  - destruct (should_passthrough_submit_raw_tx_error raw debug);
      [destruct (Hans (Ok (RawJson raw)) (s_world s)) as [-> ->]|destruct (Hans (Err tx_relay_failed) (s_world s)) as [-> ->]];
      by rewrite app_nil_r.
  - destruct (should_passthrough_submit_raw_tx_error raw debug);
      [destruct (Hans (Ok (RawJson raw)) (s_world s)) as [-> ->]|destruct (Hans (Err e) (s_world s)) as [-> ->]];
      by rewrite app_nil_r.
Qed.

Lemma submit_step_relayed e s :
  taken_first s →
  let now := match e with Resumed io => relayed_now io s | _ => [] end in
  taken_first (submit_step e s) ∧ s_world (submit_step e s) = foldl record_relayed (s_world s) now ∧
  accepted (s_ended (submit_step e s)) = accepted (s_ended s) ++ now.*1.
Proof.
  intros Ht. destruct e as [client id req|io]; cbn [submit_step].
  - destruct (enqueue tt client id req s) as [[u|e] s'] eqn:Erun; cbn [snd].
    + destruct u. split; [by eapply enqueue_taken_first|]. unfold enqueue in Erun.
      destruct (s_active s); [|destruct client; [|done]]; injection Erun as <-; by rewrite app_nil_r.
    + unfold enqueue in Erun. destruct (s_active s); [done|]. destruct client; [done|]. injection Erun as _ <-.
      by rewrite app_nil_r.
  - split; [by apply resume_taken_first|]. by apply resume_relayed.
Qed.

Lemma run_relayed es : ∀ s, taken_first s →
  s_world (foldl (λ s e, submit_step e s) s es) = foldl record_relayed (s_world s) (relayed es s) ∧
  accepted (s_ended (foldl (λ s e, submit_step e s) s es)) = accepted (s_ended s) ++ (relayed es s).*1.
Proof.
  induction es as [|e es IH]; intros s Ht; [by rewrite app_nil_r|].
  destruct (submit_step_relayed e s Ht) as (Ht' & Hw & Ha). cbn [foldl relayed].
  destruct (IH _ Ht') as [-> ->]. by rewrite Hw, Ha, foldl_app, fmap_app, app_assoc.
Qed.

(** C26: whatever comes in whatever order, the pending spends in the database are
    those of the requests whose transaction the daemon said it relayed, recorded
    once each and in this order; and these requests, and no others, are answered
    with OK. *)
Theorem submit_records_relayed d0 es :
  let s0 := Serial None d0 [] in
  let s := foldl (λ s e, submit_step e s) s0 es in
  s_world s = foldl record_relayed d0 (relayed es s0) ∧ accepted (s_ended s) = (relayed es s0).*1.
Proof. apply run_relayed. by intros f q. Qed.

(** Serving a submission always ends, and never throws. *)
Lemma submit_serve_ends io : comes_back (submit_serve debug) io.
Proof.
  intros q c w. unfold submit_serve. destruct io as [[|[[]|e]] raw]; cbn; [done|done|..];
    by destruct (should_passthrough_submit_raw_tx_error raw debug).
Qed.

Lemma submit_serve_returns io q c d : (submit_serve debug io q c d).1 ≠ Thrown.
Proof.
  unfold submit_serve. destruct io as [[|[[]|e]] raw]; cbn; [done|done|..];
    by destruct (should_passthrough_submit_raw_tx_error raw debug).
Qed.

(** What is recorded belongs to the account whose key came with the request. *)
Lemma submit_prepare_account now req d q :
  submit_prepare now req d = Ok q → sc_pending_spends q ≠ [] →
  ∃ creds user, sr_creds req = Some creds ∧ open_account creds d = Ok user ∧ sc_pending_account q = acc_id user ∧
    pend_source <$> sc_pending_spends q =
      (λ p, OutputId (po_amount p) (po_global_index p)) <$> sr_pending_spent_outputs req.
Proof.
  unfold submit_prepare. case_bool_decide; [by intros [= <-]|].
  intros (creds & Hc%of_option_ok & Hrun)%expect_bind_ok _. apply expect_bind_ok in Hrun as (user & Ho & [= <-]).
  exists creds, user. split_and!; [done..|]. cbn. by rewrite <-list_fmap_compose.
Qed.
End submit_theorems.

(** *** What rings are made of *)

Section random_theorems.
Context `{R : Random} (fuel : nat).

Lemma sorted_split amounts :
  StronglySorted Z.ge amounts → Forall (λ a, 0 <= a) amounts →
  amounts = take (length amounts - ringct_count amounts) amounts ++ replicate (ringct_count amounts) 0 ∧
  (ringct_count amounts <= length amounts)%nat ∧
  Forall (λ a, 0 < a) (take (length amounts - ringct_count amounts) amounts).
Proof.
  unfold ringct_count. induction 1 as [|a amounts Hs IH Ha]; intros Hpos; [done|].
  apply Forall_cons in Hpos as [Hp Hpos]. destruct (IH Hpos) as (IH1 & IH2 & IH3). cbn [lower_bound length].
  destruct (Z.ltb_spec 0 a).
  - rewrite Nat.sub_succ, Nat.sub_succ_l by lia. cbn [take app]. split_and!; [congruence|lia|by constructor].
  - rewrite Nat.sub_0_r, Nat.sub_diag. cbn [take app replicate]. split_and!; [|lia|constructor].
    assert (a = 0) as -> by lia. f_equal. clear -Ha Hpos.
    induction amounts as [|b amounts IH]; [done|]. apply Forall_cons in Ha as [Hb Ha].
    apply Forall_cons in Hpos as [Hp Hpos]. cbn. f_equal; [lia|by apply IH].
Qed.

(** The vector that is moved in and out of the questions is the same afterwards. *)
Lemma fetch_histograms_ok io amounts hist amounts' :
  StronglySorted Z.ge amounts → Forall (λ a, 0 <= a) amounts →
  fetch_histograms io amounts = Ok (hist, amounts') →
  amounts' = amounts ∧
  let asked := List.filter (λ a, 0 <? a) amounts in
  (if bool_decide (asked = []) then hist = [] else
     di_histogram io asked = Parsed (Ok hist) ∧ length hist = length asked).
Proof.
  intros Hs Hp. destruct (sorted_split _ Hs Hp) as (Hsplit & Hle & Hpos).
  assert (List.filter (λ a, 0 <? a) amounts = take (length amounts - ringct_count amounts) amounts) as Hasked.
  { rewrite Hsplit at 1. rewrite List.filter_app.
    assert (∀ n, List.filter (λ a, 0 <? a) (replicate n 0) = []) as -> by (intros n; by induction n).
    rewrite app_nil_r. revert Hpos. generalize (take (length amounts - ringct_count amounts) amounts) as l.
    induction 1 as [|a l Ha _ IH]; [done|]. simpl. by rewrite (proj2 (Z.ltb_lt 0 a) Ha), IH. }
  cbv zeta. rewrite Hasked. unfold fetch_histograms. case_bool_decide as He.
  - apply (f_equal length) in He. rewrite length_take in He. cbn in He.
    destruct (Nat.ltb_spec (ringct_count amounts) (length amounts)); [lia|]. by intros [= <- <-].
  - destruct (Nat.ltb_spec (ringct_count amounts) (length amounts)) as [Hlt|Hge].
    2:{ destruct He. by replace (length amounts - ringct_count amounts)%nat with 0%nat by lia. }
    intros (h & Hx & Hrun)%expect_bind_ok. apply expect_bind_ok in Hrun as ([] & Hlen%guard_err_ok & [= <- <-]).
    apply Nat.eqb_eq in Hlen. split; [by rewrite <-Hsplit|]. split; [|done].
    unfold exchange_result in Hx. by destruct (di_histogram io _); simplify_eq.
Qed.

Lemma fetch_distribution_ok io amounts c c' amounts' :
  StronglySorted Z.ge amounts → Forall (λ a, 0 <= a) amounts →
  fetch_distribution io (ringct_count amounts) amounts c = Ok (c', amounts') →
  amounts' = amounts ∧
  (c' = c ∧ (0 ∈ amounts → c.1 ≠ [] ∧ di_now io - c.2 <= daemon_cache_timeout) ∨
   di_distribution io [0] = Parsed (Ok [(0, c'.1)]) ∧ c'.2 = di_later io).
Proof.
  intros Hs Hp. destruct (sorted_split _ Hs Hp) as (Hsplit & Hle & Hpos).
  assert (0 ∈ amounts → (0 < ringct_count amounts)%nat) as Hzero.
  { intros Hin. destruct (ringct_count amounts) eqn:E; [|lia]. exfalso.
    rewrite Hsplit in Hin. apply elem_of_app in Hin as [Hin|Hin]; [|by apply elem_of_nil in Hin].
    rewrite Forall_forall in Hpos. specialize (Hpos _ Hin). lia. }
  assert (ringct_count amounts = length amounts → amounts = replicate (ringct_count amounts) 0) as Hzeros.
  { intros E. rewrite Hsplit at 1. by rewrite E, Nat.sub_diag. }
  unfold fetch_distribution. destruct c as [dist last].
  destruct (Nat.ltb_spec 0 (ringct_count amounts)) as [Hlt|Hge]; cbn [andb].
  2:{ intros [= <- <-]. split; [done|]. left. split; [done|]. intros Hin%Hzero. lia. }
  destruct (bool_decide (dist = []) || (daemon_cache_timeout <? di_now io - last)) eqn:Hstale.
  2:{ intros [= <- <-]. split; [done|]. left. split; [done|]. intros _.
      apply orb_false_iff in Hstale as [Hd%bool_decide_eq_false Ht%Z.ltb_ge]. done. }
  assert (resize 1 0 (if (ringct_count amounts =? length amounts)%nat then amounts else []) = [0]) as ->.
  { destruct (Nat.eqb_spec (ringct_count amounts) (length amounts)) as [E|]; [|done].
    rewrite (Hzeros E). by destruct (ringct_count amounts) as [|[|n]] eqn:?; [lia|..]. }
  intros (resp & Hx & Hrun)%expect_bind_ok.
  destruct resp as [|[amount dist'] [|? ?]]; [done| |done].
  apply expect_bind_ok in Hrun as ([] & Ha%guard_err_ok%Z.eqb_eq & [= <- <-]). subst amount. split.
  - destruct (Nat.eqb_spec (ringct_count amounts) (length amounts)) as [E|E].
    + rewrite bool_decide_eq_true_2 by done. rewrite (Hzeros E) at 2.
      destruct (ringct_count amounts) as [|n] eqn:?; [lia|]. cbn. by rewrite Nat.sub_0_r.
    + rewrite bool_decide_eq_false_2; [done|]. intros ->. cbn in *. lia.
  - right. unfold exchange_result in Hx. by destruct (di_distribution io [0]); simplify_eq.
Qed.

(** The rings of a request are picked for its amounts in falling order: with
    the histograms the daemon gave for those above zero, and, when zero is asked
    for, with a distribution the daemon gave now or no longer than five seconds
    ago.  More than 20 outputs for an amount or 150 amounts are refused. *)
Theorem random_outs_asks io req q c c' rings :
  Forall (λ a, 0 <= a) (rq_amounts req) →
  random_prepare req = Ok q → (random_serve fuel io q c tt).1 = Answered rings c' →
  rq_count req <= 20 ∧ (length (rq_amounts req) <= 150)%nat ∧
  ∃ hist l s,
    rings = Ok l ∧
    pick_random_outputs fuel (Z.to_nat (rq_count req)) (make_gamma_picker c'.1) (merge_sort Z.ge (rq_amounts req)) hist
      (di_keys io) (di_rng io) = Ok (l, s) ∧
    (let asked := List.filter (λ a, 0 <? a) (merge_sort Z.ge (rq_amounts req)) in
     if bool_decide (asked = []) then hist = [] else
       di_histogram io asked = Parsed (Ok hist) ∧ length hist = length asked) ∧
    (c' = c ∧ (0 ∈ rq_amounts req → c.1 ≠ [] ∧ di_now io - c.2 <= daemon_cache_timeout) ∨
     di_distribution io [0] = Parsed (Ok [(0, c'.1)]) ∧ c'.2 = di_later io).
Proof.
  intros Hpos (u & Hg%guard_err_ok & [= <-])%expect_bind_ok Hserve.
  apply negb_true_iff, orb_false_iff in Hg as [Hcount%Z.ltb_ge Hlen%Nat.ltb_ge].
  split_and!; [done|done|].
  pose proof (merge_sort_Permutation Z.ge (rq_amounts req)) as Hperm.
  assert (StronglySorted Z.ge (merge_sort Z.ge (rq_amounts req))) as Hs.
  { apply StronglySorted_merge_sort; [intros ? ? ?; lia|intros a b; destruct (Z.le_ge_cases a b); lia]. }
  assert (Forall (λ a, 0 <= a) (merge_sort Z.ge (rq_amounts req))) as Hp by by rewrite Hperm.
  unfold random_serve in Hserve. cbn [rq_amounts rq_count] in Hserve.
  destruct (fetch_histograms io _) as [[hist amounts1]|e] eqn:Eh; [|done]. cbn [mbind expect_bind] in Hserve.
  apply fetch_histograms_ok in Eh as [-> Hhist]; [|done|done]. simpl in Hserve.
  destruct (fetch_distribution io _ _ _) as [[c1 amounts2]|e] eqn:Ed; [|done].
  apply fetch_distribution_ok in Ed as [-> Hdist]; [|done|done]. simpl in Hserve.
  destruct (pick_random_outputs _ _ _ _ _ _ _) as [[l s]|e] eqn:Ep; [|by destruct (bool_decide (e = out_of_fuel)), (is_exception e)].
  injection Hserve as <- <-. exists hist, l, s. split_and!; [done|done|done|].
  destruct Hdist as [[-> Hd]|Hd]; [left|by right]. split; [done|]. intros Hin. apply Hd. by rewrite Hperm.
Qed.
End random_theorems.

(** *** What is kept of an answer *)

Section batch_theorems.
Context {Q A R W : Type} (answer : W → Q → expect R → A) (on_failure : expect R) (blank : option R).
Abbreviation shared_state := (shared answer on_failure blank).

(** Nothing that was asked brought a response to keep. *)
Definition all_failed (v : list (Z * exchange R)) : Prop := ∀ e r, e ∈ v → result_of on_failure e.2 ≠ Ok r.

Record kept (t : Z) (l : list (nat * Q)) (v : list (Z * exchange R)) (s : batch Q A R) : Prop := {
  kept_order : l.*1 = (b_done s).*1 ++ (default [] (b_active s)).*1;
  kept_time : 0 <= b_last s <= t;
  kept_result r : b_result s = Some r → ∃ x, last v = Some (b_last s, x) ∧ result_of on_failure x = Ok r;
  kept_active : is_Some (b_active s) → b_result s = None;
  kept_none : b_result s = None → blank = None ∨ all_failed v ∧ b_last s = 0 ∨ b_last s + daemon_cache_timeout <= t
}.

Lemma request_kept t now l v s client w id req s' :
  kept t l v s → t <= now → batch_handle answer blank now client w id req s = (Ok None, s') →
  kept now (l ++ [(id, req)]) v s'.
Proof.
  intros [Ho Ht Hr Ha Hn] Hnow. unfold batch_handle. destruct (cached blank now s) as [r|] eqn:Ec; [done|].
  assert (b_result s = None → blank = None ∨ all_failed v ∧ b_last s = 0 ∨ b_last s + daemon_cache_timeout <= now) as Hn'.
  { intros Hres. destruct (Hn Hres) as [?|[?|?]]; [by left|by right; left|right; right; lia]. }
  destruct (b_active s) as [waiters|] eqn:Eb.
  - intros [= <-]. split; cbn; [|lia|done|intros _; by apply Ha|done].
    rewrite !fmap_app, Ho. cbn. by rewrite app_assoc.
  - destruct client; [|done]. intros [= <-]. split; cbn; [|lia|done|done|].
    + rewrite fmap_app, Ho. cbn. by rewrite app_nil_r.
    + intros _. unfold cached in Ec. destruct (Z.ltb_spec (now - b_last s) daemon_cache_timeout).
      * destruct (b_result s); [done|]. by left.
      * right. right. lia.
Qed.

Lemma complete_kept t now l v s w x :
  kept t l v s → t <= now → is_Some (b_active s) →
  kept now l (v ++ [(now, x)]) (complete answer on_failure now w x s).
Proof.
  intros [Ho Ht Hr Ha Hn] Hnow [waiters Eb]. unfold complete. rewrite Eb in *.
  assert (l.*1 = (b_done s ++ ((λ r, (r.1, answer w r.2 (result_of on_failure x))) <$> waiters)).*1) as Hl.
  { rewrite Ho, fmap_app, <-list_fmap_compose. done. }
  destruct (result_of on_failure x) as [r|e] eqn:Ex; split; cbn; rewrite ?app_nil_r.
  - done.
  - lia.
  - intros r' [= <-]. exists x. by rewrite last_snoc.
  - by intros [].
  - done.
  - done.
  - lia.
  - done.
  - done.
  - intros _. destruct (Hn (Ha ltac:(by eexists))) as [?|[[Hv ?]|?]]; [by left| |right; right; lia].
    right; left. split; [|done]. intros ev r [Hin|Hin%list_elem_of_singleton]%elem_of_app; [by apply Hv|]. subst. cbn. congruence.
Qed.

Lemma shared_kept t l v s : shared_state t l v s → kept t l v s.
Proof.
  induction 1 as [|t now l v s client w id req s' _ IH Hnow Hrun|t now l v s w x _ IH Hnow Ha].
  - split; cbn; [done|lia|done|by intros []|].
    intros _. right; left. split; [|done]. intros ev r Hin. by apply elem_of_nil in Hin.
  - by eapply request_kept.
  - by eapply complete_kept.
Qed.

(** C27: a response that does not wait is made of what came of asking the daemon the
    last time, less than five seconds ago: of its answer, or, when the socket
    failed or ran out of time, of what stands for a failure ([on_failure]: the
    default status for [daemon_status], an error, which is never kept, for
    [get_unspent_outs]).  Only within the first five seconds of the clock, before
    anything succeeded, is it made of an empty cache. *)
Theorem batch_fresh t l v s now r :
  shared_state t l v s → t <= now → cached blank now s = Some r →
  (∃ came x, last v = Some (came, x) ∧ now - came < daemon_cache_timeout ∧
     (x = Parsed (Ok r) ∨ x = IoFailed ∧ on_failure = Ok r)) ∨
  (all_failed v ∧ now < daemon_cache_timeout ∧ blank = Some r).
Proof.
  intros [_ Ht Hr Ha Hn]%shared_kept Hnow. unfold cached.
  destruct (Z.ltb_spec (now - b_last s) daemon_cache_timeout); [|done].
  destruct (b_result s) as [r'|] eqn:Eb.
  - intros [= ->]. left. destruct (Hr r eq_refl) as (x & Hlast & Hx). exists (b_last s), x. split_and!; [done|done|].
    destruct x as [|y]; cbn in Hx; [by right|left; congruence].
  - intros Hblank. destruct (Hn eq_refl) as [?|[[Hv Hl]|?]]; [congruence| |lia]. right. split_and!; [done|lia|done].
Qed.

(** All that wait are answered at once, with the same answer of the daemon,
    and nobody is left or answered twice. *)
Theorem batch_answers t l v s now w x :
  shared_state t l v s → is_Some (b_active s) →
  l.*1 = (b_done s).*1 ++ (default [] (b_active s)).*1 ∧
  (b_done (complete answer on_failure now w x s)).*1 = l.*1 ∧
  b_active (complete answer on_failure now w x s) = None ∧
  ∀ id a, (id, a) ∈ drop (length (b_done s)) (b_done (complete answer on_failure now w x s)) →
    ∃ req, (id, req) ∈ default [] (b_active s) ∧ a = answer w req (result_of on_failure x).
Proof.
  intros Hk%shared_kept [waiters Eb]. pose proof (kept_order _ _ _ _ Hk) as Ho. rewrite Eb in Ho |- *. cbn in Ho |- *.
  unfold complete. rewrite Eb.
  assert (l.*1 = (b_done s ++ ((λ r, (r.1, answer w r.2 (result_of on_failure x))) <$> waiters)).*1) as Hl.
  { rewrite Ho, fmap_app, <-list_fmap_compose. done. }
  split_and!; [done|by destruct (result_of on_failure x)|by destruct (result_of on_failure x)|].
  intros id a Hin.
  assert ((id, a) ∈ (λ r, (r.1, answer w r.2 (result_of on_failure x))) <$> waiters) as Hin'.
  { destruct (result_of on_failure x); cbn in Hin; by rewrite drop_app_length in Hin. }
  apply list_elem_of_fmap in Hin' as ([id' req] & [= -> ->] & Hin'). by exists req.
Qed.
End batch_theorems.

(** A daemon that is ahead of its target counts as synchronizing: the difference
    is of 64 bits. *)
Lemma status_ahead info :
  0 < info_target_height info → info_target_height info < info_height info → info_height info <= u64_max - 5 →
  outgoing info ≠ 0 → ds_state (status_of info) = synchronizing.
Proof.
  intros Ht Hh Hm Ho. unfold status_of. cbn. rewrite (proj2 (Z.eqb_neq _ _) Ho). cbn [andb].
  rewrite (proj2 (Z.eqb_neq (info_target_height info) 0)) by lia. cbn [negb andb].
  assert (wrap 64 (info_target_height info - info_height info) =
    2 ^ 64 + info_target_height info - info_height info) as ->.
  { unfold wrap. symmetry. apply (Z.mod_unique_pos _ _ (-1)); unfold u64_max in Hm; lia. }
  by destruct (Z.leb_spec 5 (2 ^ 64 + info_target_height info - info_height info)); [|unfold u64_max in Hm; lia].
Qed.

(** ** Examples *)

(** Three transactions come while the connection is busy: the first is relayed,
    the second refused, and the connection breaks for the third. *)
Definition test_pending (n : Z) : pending_spend := PendingSpend (OutputId 0 n) n n 0 1000.

Definition test_submits : serial submit_context (expect submit_response) unit (db ListDb.lmdb) :=
  let enqueue id n s := (enqueue tt (Ok tt) id (SubmitContext "tx" n [test_pending n]) s).2 in
  enqueue 3%nat 3 (enqueue 2%nat 2 (enqueue 1%nat 1 (Serial None account_db []))).

Definition test_exchanges : list (exchange bool * string) :=
  let relayed := (Parsed (Ok true), ""%string) in
  let refused := (Parsed (Ok false), ""%string) in
  [relayed; relayed; relayed; refused; relayed; (IoFailed, ""%string); relayed].

Definition test_submitted := foldl (λ s io, resume (submit_serve false) io s) test_submits test_exchanges.

Lemma test_submits_reached :
  reached (submit_serve false) tt account_db
    [(1%nat, SubmitContext "tx" 1 [test_pending 1]); (2%nat, SubmitContext "tx" 2 [test_pending 2]);
     (3%nat, SubmitContext "tx" 3 [test_pending 3])] test_submits.
Proof.
  unfold test_submits. apply (reached_enqueued _ _ _ [_; _]), (reached_enqueued _ _ _ [_]), (reached_enqueued _ _ _ []).
  apply reached_start.
Qed.

Lemma serial_answers_witness :
  s_ended test_submitted = [(1%nat, Sent (Ok StatusOk)); (2%nat, Sent (Err tx_relay_failed)); (3%nat, Sent (Err daemon_timeout))] ∧
  (responses test_submitted).*1 = [1%nat; 2%nat; 3%nat].
Proof.
  split; [reflexivity|].
  destruct (serial_answers _ _ _ _ _ test_submits_reached) as (_ & _ & Hends).
  destruct (Hends test_exchanges) as (_ & _ & Hall); [apply Forall_true; apply submit_serve_ends|vm_compute; lia|].
  apply Hall. intros io q c w _. apply submit_serve_returns.
Defined.

Lemma submit_records_relayed_witness :
  let submitted id n := Submitted (Ok tt) id (SubmitContext "tx" n [test_pending n]) in
  let es := submitted 1%nat 1 :: submitted 2%nat 2 :: submitted 3%nat 3 :: (Resumed <$> test_exchanges) in
  let d := s_world (foldl (λ s e, submit_step false e s) (Serial None account_db []) es) in
  get_pending_spends 1 d = [test_pending 1] ∧ get_pending_spends 2 d = [].
Proof.
  intros submitted es d. unfold d. destruct (submit_records_relayed false account_db es) as [-> _].
  split; vm_compute; reflexivity.
Defined.

(** An answer is kept from second 10 to second 15. *)
Definition test_info_ok : daemon_info := DaemonInfo 8 2 100 0.

Lemma test_status_shared :
  shared status_answer (Ok (default_status 77)) None (10 * 10 ^ 9) [(1%nat, tt)] [(10 * 10 ^ 9, Parsed (Ok (status_of test_info_ok)))]
    (status_complete 77 (10 * 10 ^ 9) tt (Parsed (Ok (status_of test_info_ok)))
      (status_request (9 * 10 ^ 9) (Ok tt) tt 1%nat tt new_batch).2).
Proof.
  apply (shared_complete _ _ _ (9 * 10 ^ 9) _ [(1%nat, tt)] [] _ tt (Parsed (Ok (status_of test_info_ok)))); [|lia|by eexists].
  eapply (shared_request _ _ _ 0 _ [] [] _ (Ok tt) tt); [apply shared_start|lia|reflexivity].
Qed.

Lemma batch_fresh_witness :
  ∃ came x, last [(10 * 10 ^ 9, Parsed (Ok (status_of test_info_ok)))] = Some (came, x) ∧
    14 * 10 ^ 9 - came < daemon_cache_timeout ∧
    (x = Parsed (Ok (status_of test_info_ok)) ∨ x = IoFailed ∧ Ok (default_status 77) = Ok (status_of test_info_ok)).
Proof.
  destruct (batch_fresh _ _ _ _ _ _ _ (14 * 10 ^ 9) (status_of test_info_ok) test_status_shared ltac:(lia) eq_refl)
    as [Hc|(_ & _ & Hn)]; [exact Hc|discriminate Hn].
Defined.

(** What a failure counts as is kept like an answer. *)
Lemma failure_is_kept :
  cached None (14 * 10 ^ 9)
    (status_complete 77 (10 * 10 ^ 9) tt IoFailed (status_request (9 * 10 ^ 9) (Ok tt) tt 1%nat tt new_batch).2) =
  Some (default_status 77).
Proof. reflexivity. Qed.

Lemma batch_answers_witness :
  b_done (status_complete 77 1 tt IoFailed (status_request (9 * 10 ^ 9) (Ok tt) tt 1%nat tt new_batch).2) =
    [(1%nat, Ok (default_status 77))] ∧
  (b_done (status_complete 77 1 tt IoFailed (status_request (9 * 10 ^ 9) (Ok tt) tt 1%nat tt new_batch).2)).*1 = [1%nat].
Proof.
  split; [reflexivity|].
  assert (shared status_answer (Ok (default_status 77)) None (9 * 10 ^ 9) [(1%nat, tt)] []
    (status_request (9 * 10 ^ 9) (Ok tt) tt 1%nat tt new_batch).2) as Hs
    by (eapply (shared_request _ _ _ 0 _ [] [] _ (Ok tt) tt); [apply shared_start|lia|reflexivity]).
  destruct (batch_answers _ _ _ _ _ _ _ 1 tt IoFailed Hs ltac:(by eexists)) as (_ & Hl & _). exact Hl.
Defined.

(** Two amounts and outputs of RingCT, asked for in any order. *)
Definition test_random_io : daemon_io := {|
  di_now := 10 ^ 12; di_later := 10 ^ 12 + 1;
  di_histogram asked := if bool_decide (asked = [9; 7]) then Parsed (Ok example_histograms) else IoFailed;
  di_distribution asked := if bool_decide (asked = [0]) then Parsed (Ok [(0, example_offsets)]) else IoFailed;
  di_keys := example_fetch;
  di_rng := seed 0
|}.

Definition test_random_request : get_random_outs_request := RandomRequest 2 [7; 0; 9].

#[local] Existing Instance example_random.

Lemma random_outs_asks_witness :
  match random_prepare test_random_request with
  | Ok q =>
    match (random_serve 20 test_random_io q ([], 0) tt).1 with
    | Answered rings c => ∃ l, rings = Ok l ∧ rr_amount <$> l = [9; 7; 0] ∧ c = (example_offsets, 10 ^ 12 + 1)
    | _ => False
    end
  | Err _ => False
  end.
Proof.
  destruct (random_prepare test_random_request) as [q|e] eqn:Eq; [|discriminate Eq].
  destruct (random_serve 20 test_random_io q ([], 0) tt).1 as [rings c|a| | ] eqn:Es.
  - destruct (random_outs_asks 20 test_random_io test_random_request q _ c rings ltac:(repeat constructor; lia) Eq Es)
      as (_ & _ & hist & l & s & Hl & _).
    exists l. split; [exact Hl|]. injection Eq as <-. subst rings. vm_compute in Es. injection Es as <- <-. by split.
  - injection Eq as <-. vm_compute in Es. discriminate Es.
  - injection Eq as <-. vm_compute in Es. discriminate Es.
  - injection Eq as <-. vm_compute in Es. discriminate Es.
Defined.
