(* ===== verification/Multisig.v ===== *)
(** * The handlers of multisig wallets (src/src/rest_server.cpp, src/src/rpc/multisig.h)

    What the REST server adds to the store of [MultisigStore]: [multisig_register]
    asks the daemon for a transaction and decodes with its secret key how much it
    pays to a multisig address; the others check their request and pass it on.

    Addresses and hexadecimal strings are converted by Monero ([AddressText]);
    which addresses are taken is db/string.cpp ([address_of_string]).
    Shown is what a registered amount is ([registered_amount]); that the store stays
    well-formed is shown in [MultisigStore]. *)

From S2P Require Import Prelude Lmdb Data Accounts Scan Requests Overlay Balance MultisigStore.

#[local] Open Scope string_scope.
#[local] Open Scope Z_scope.

Record address_parse_info := AddressParseInfo {
  pi_address : account_address;
  pi_is_subaddress : bool;
  pi_has_payment_id : bool
}.

Class AddressText : Type := {
  get_account_address_from_str : string → option address_parse_info;
  string_of_address : account_address → string;
  hex_to_hash : string → option Z;
  hex_to_key : string → option Z;
  hash_to_hex : Z → string;
  derive_public_key : Z → nat → Z → option Z
}.

(** [db::address_string]: neither subaddresses nor addresses with a payment id. *)
Definition address_of_string `{AddressText} (address : string) : option account_address :=
  info ← get_account_address_from_str address;
  if pi_is_subaddress info || pi_has_payment_id info then None else Some (pi_address info).

(** ** Requests and responses *)

Record multisig_register_tx_request := RegisterTxRequest {
  rt_multisig_address : string;
  rt_tx_hash : string;
  rt_tx_key : string;
  rt_context : string
}.

Record multisig_register_tx_response := RegisterTxResponse {
  rt_success : bool;
  rt_message : string;
  rt_amount : Z
}.

Record multisig_balance_response := BalanceResponse {
  br_multisig_address : string;
  br_locked_balance : Z;
  br_tx_count : Z;
  br_context : string
}.

Record multisig_transactions_response := TransactionsResponse {
  mr_multisig_address : string;
  mr_transactions : list multisig_tx_record;
  mr_total_locked : Z
}.

Record multisig_wallet_entry := WalletEntry {
  we_wallet : multisig_wallet_record;
  we_locked_balance : Z;
  we_tx_count : Z
}.

Record multisig_register_wallet_response := RegisterWalletResponse {
  rw_success : bool;
  rw_message : string
}.

Section multisig.
Context `{T : AddressText} `{K : ScanCrypto}.
(** The daemon: the hashes it missed and the transactions by their hash. *)
Context (get_transactions : list Z → expect (list Z * gmap Z transaction)).

(** ** Decoding what a transaction pays *)

(** The amount of an output that was found to be the address's. *)
Definition registered_output_amount (tx : transaction) (derivation : Z) (index : nat) (out : tx_output) : expect Z :=
  if (out_amount out =? 0) && (1 <? tx_version tx) then
    commitment ← of_option bad_daemon_response (tx_out_pk tx !! index);
    info ← of_option bad_daemon_response (tx_ecdh_info tx !! index);
    '(amount, _) ← of_option bad_daemon_response
      (decode_amount commitment info derivation index (RCTTypeBulletproof2 <=? tx_rct_type tx));
    Ok amount
  else Ok (out_amount out).

(** The body of the loop over the outputs: the total and whether one matched. *)
Definition decode_output (address : account_address) (tx : transaction) (derivation : Z) (st : Z * bool)
    (entry : nat * tx_output) : expect (Z * bool) :=
  let '(decoded_total, _) := st in
  let '(index, out) := entry in
  match out_target out with
  | None => Ok st
  | Some out_pub_key =>
    expected_out_pub ← of_option crypto_failure (derive_public_key derivation index (spend_public address));
    if negb (expected_out_pub =? out_pub_key) then Ok st
    else
      amount ← registered_output_amount tx derivation index out;
      total ← add_checked decoded_total amount;
      Ok (total, true)
  end.

Definition decode_registered_multisig_amount (address : account_address) (tx_hash tx_secret_key : Z) : expect Z :=
  '(missed_hashes, txs) ← get_transactions [tx_hash];
  _ ← guard_err (bool_decide (tx_hash ∉ missed_hashes)) bad_daemon_response;
  tx ← of_option bad_daemon_response (txs !! tx_hash);
  _ ← guard_err (bool_decide (find_extra_pub_key (tx_extra tx) ≠ None)) bad_daemon_response;
  base_derivation ← of_option crypto_failure (generate_key_derivation (view_public address) tx_secret_key);
  '(decoded_total, matched_output) ←
    fold_err (decode_output address tx base_derivation) (0, false) (imap pair (tx_vout tx));
  _ ← guard_err matched_output not_enough_amount;
  Ok decoded_total.

(** ** The handlers *)

(** [multisig_register::handle]; [res] is the outcome of writing the file. *)
Definition multisig_register (res : io) (now : Z) (req : multisig_register_tx_request) (s : multisig_store) :
    multisig_register_tx_response * multisig_store :=
  match address_of_string (rt_multisig_address req), hex_to_hash (rt_tx_hash req), hex_to_key (rt_tx_key req) with
  | None, _, _ => (RegisterTxResponse false "Invalid multisig address" 0, s)
  | _, None, _ => (RegisterTxResponse false "Invalid tx_hash format" 0, s)
  | _, _, None => (RegisterTxResponse false "Invalid tx_key format" 0, s)
  | Some parsed, Some tx_hash, Some tx_secret_key =>
    match decode_registered_multisig_amount parsed tx_hash tx_secret_key with
    | Err _ => (RegisterTxResponse false "Failed to decode registered amount" 0, s)
    | Ok decoded_amount =>
      if decoded_amount =? 0 then
        (RegisterTxResponse false "Decoded amount is zero for target multisig address" 0, s)
      else
        let '(result, s) :=
          register_tx_ex res now (rt_multisig_address req) (hash_to_hex tx_hash) decoded_amount (rt_context req) s in
        (match result with
         | inserted => RegisterTxResponse true "Transaction registered successfully" decoded_amount
         | tx_updated => RegisterTxResponse true "Transaction amount backfilled successfully" decoded_amount
         | duplicate => RegisterTxResponse true "Transaction already registered" decoded_amount
         | _ => RegisterTxResponse false "Failed to register transaction" 0
         end, s)
    end
  end.

Definition multisig_balance (multisig_address : string) (s : multisig_store) : expect multisig_balance_response :=
  _ ← of_option bad_address (address_of_string multisig_address);
  let balance := get_balance multisig_address s in
  Ok (BalanceResponse (mad_address balance) (mad_total_locked balance)
        (wrap 32 (Z.of_nat (length (mad_transactions balance)))) (mad_primary_context balance)).

Definition multisig_txs (multisig_address : string) (s : multisig_store) : expect multisig_transactions_response :=
  _ ← of_option bad_address (address_of_string multisig_address);
  Ok (TransactionsResponse multisig_address (get_multisig_transactions multisig_address s)
        (mad_total_locked (get_balance multisig_address s))).

Definition multisig_list_wallets (s : multisig_store) : list multisig_wallet_entry :=
  (λ w, let balance := get_balance (mw_address w) s in
        WalletEntry w (mad_total_locked balance) (wrap 32 (Z.of_nat (length (mad_transactions balance))))) <$> list_wallets s.

Definition multisig_register_wallet_handler (res : io) (req : multisig_wallet_record) (s : multisig_store) :
    multisig_register_wallet_response * multisig_store :=
  if bool_decide (mw_wallet_id req = "") || bool_decide (mw_address req = "") then
    (RegisterWalletResponse false "wallet_id and address are required", s)
  else
    let '(registered, s) := register_wallet res req s in
    (if registered then RegisterWalletResponse true "Wallet registered successfully"
     else RegisterWalletResponse false "Failed to register wallet", s).

(** ** Theorems *)

(** The outputs that derive to an address with the secret key of the transaction. *)
Definition pays (address : account_address) (derivation : Z) (entry : nat * tx_output) : bool :=
  match out_target (entry.2), derive_public_key derivation (entry.1) (spend_public address) with
  | Some out_pub, Some expected => expected =? out_pub
  | _, _ => false
  end.

(** [amounts] are the amounts of the outputs that pay, in their order. *)
Definition paid (address : account_address) (tx : transaction) (derivation : Z) (outs : list (nat * tx_output))
    (amounts : list Z) : Prop :=
  Forall2 (λ entry amount, registered_output_amount tx derivation (entry.1) (entry.2) = Ok amount)
    (List.filter (pays address derivation) outs) amounts.

Lemma decode_outputs_paid address tx derivation outs : ∀ total matched total' matched',
  fold_err (decode_output address tx derivation) (total, matched) outs = Ok (total', matched') → total <= u64_max →
  ∃ amounts, paid address tx derivation outs amounts ∧ total' = total + foldr Z.add 0 amounts ∧ total' <= u64_max ∧
    (matched' = true ↔ matched = true ∨ amounts ≠ []).
Proof.
  induction outs as [|[index out] outs IH]; intros total matched total' matched'; cbn [fold_err].
  { intros [= <- <-] Hle. exists []. split_and!; [constructor|simpl; lia|done|naive_solver]. }
  intros ([total1 matched1] & Hstep & Hrun)%expect_bind_ok Hle. unfold paid. cbn [List.filter].
  unfold decode_output in Hstep. unfold pays at 1. cbn [fst snd].
  destruct (out_target out) as [out_pub|]; [|injection Hstep as <- <-; by apply IH].
  apply expect_bind_ok in Hstep as (expected & Hd%of_option_ok & Hstep). rewrite Hd.
  destruct (Z.eqb_spec expected out_pub) as [->|Hne]; cbn [negb] in Hstep;
    [|injection Hstep as <- <-; by apply IH].
  apply expect_bind_ok in Hstep as (amount & Ha & Hstep). apply expect_bind_ok in Hstep as (sum & Hsum & [= <- <-]).
  unfold add_checked in Hsum. destruct (Z.ltb_spec (u64_max - total) amount); [done|]. injection Hsum as <-.
  destruct (IH _ _ _ _ Hrun) as (amounts & Hpaid & Ht & Hb & Hm); [lia|].
  exists (amount :: amounts). split_and!; [by constructor|simpl; lia|done|]. rewrite Hm. naive_solver.
Qed.

(** The amount registered for a transaction is the sum of what its outputs pay
    to the multisig address, of which there is at least one, as the secret key of
    the transaction shows.  It fits into 64 bits and is not zero. *)
Theorem registered_amount res now req s r s' :
  multisig_register res now req s = (r, s') → rt_success r = true →
  ∃ address tx_hash key missed txs tx derivation amounts,
    address_of_string (rt_multisig_address req) = Some address ∧ hex_to_hash (rt_tx_hash req) = Some tx_hash ∧
    hex_to_key (rt_tx_key req) = Some key ∧ get_transactions [tx_hash] = Ok (missed, txs) ∧ txs !! tx_hash = Some tx ∧
    generate_key_derivation (view_public address) key = Some derivation ∧
    paid address tx derivation (imap pair (tx_vout tx)) amounts ∧ amounts ≠ [] ∧
    rt_amount r = foldr Z.add 0 amounts ∧ rt_amount r ≠ 0 ∧ rt_amount r <= u64_max ∧
    ∃ result, register_tx_ex res now (rt_multisig_address req) (hash_to_hex tx_hash) (rt_amount r) (rt_context req) s = (result, s') ∧
      result ∈ [inserted; tx_updated; duplicate].
Proof.
  unfold multisig_register. destruct (address_of_string _) as [address|]; [|by intros [= <- <-]].
  destruct (hex_to_hash _) as [tx_hash|]; [|by intros [= <- <-]]. destruct (hex_to_key _) as [key|]; [|by intros [= <- <-]].
  destruct (decode_registered_multisig_amount address tx_hash key) as [amount|e] eqn:Ed; [|by intros [= <- <-]].
  destruct (Z.eqb_spec amount 0) as [|Hne]; [by intros [= <- <-]|].
  unfold decode_registered_multisig_amount in Ed.
  apply expect_bind_ok in Ed as ([missed txs] & Hg & Ed). apply expect_bind_ok in Ed as ([] & _ & Ed).
  apply expect_bind_ok in Ed as (tx & Htx%of_option_ok & Ed). apply expect_bind_ok in Ed as ([] & _ & Ed).
  apply expect_bind_ok in Ed as (derivation & Hder%of_option_ok & Ed).
  apply expect_bind_ok in Ed as ([total matched] & Hfold & Ed). apply expect_bind_ok in Ed as ([] & Hm%guard_err_ok & [= ->]).
  destruct (decode_outputs_paid _ _ _ _ _ _ _ _ Hfold) as (amounts & Hpaid & Ht & Hb & Hmatched); [unfold u64_max; lia|].
  destruct (register_tx_ex _ _ _ _ _ _ _) as [result s1] eqn:Er. intros [= <- <-] Hs.
  exists address, tx_hash, key, missed, txs, tx, derivation, amounts.
  assert (amounts ≠ []) as Hsome by (apply Hmatched in Hm; naive_solver).
  destruct result; try done; cbn [rt_amount] in *; (split_and!; [done..|lia|done|done|]); eexists; (split; [exact Er|]); set_solver.
Qed.

End multisig.

(** ** Example *)

#[local] Existing Instance toy_scan.

Definition test_text : AddressText := {|
  get_account_address_from_str s :=
    if bool_decide (s = "multisig") then Some (AddressParseInfo (test_address 6) false false) else None;
  string_of_address a := if bool_decide (a = test_address 6) then "multisig" else "other";
  hex_to_hash s := if bool_decide (s = "aa") then Some 9 else None;
  hex_to_key s := if bool_decide (s = "bb") then Some 40 else None;
  hash_to_hex z := if z =? 9 then "aa" else "";
  derive_public_key derivation index spend := Some (derivation + Z.of_nat index + spend)
|}.
#[local] Existing Instance test_text.

(** Of the two outputs of the transaction the first is the address's. *)
Lemma registered_amount_witness :
  let '(r, s) := multisig_register test_daemon Written 1000 (RegisterTxRequest "multisig" "aa" "bb" "task") (MultisigStore ∅ [] Absent) in
  r = RegisterTxResponse true "Transaction registered successfully" 7 ∧ rt_amount r ≠ 0 ∧
  multisig_balance "multisig" s = Ok (BalanceResponse "multisig" 7 1 "task").
Proof.
  destruct (multisig_register _ _ _ _ _) as [r s] eqn:E.
  assert (rt_success r = true) as Hr by (vm_compute in E; by injection E as <- <-).
  destruct (registered_amount test_daemon _ _ _ _ _ _ E Hr)
    as (a & h & k & m & t & tx & d & l & _ & _ & _ & _ & _ & _ & _ & _ & _ & Hne & _).
  vm_compute in E. injection E as <- <-. split; [reflexivity|]. split; [exact Hne|reflexivity].
Defined.
