(* ===== verification/Txsets.v ===== *)
(** * The registry of transaction sets (src/src/rest_server.cpp, lines 195-210, 261-264, 507-532, 627-649 and 3771-3901)

    To unstake, a miner registers the transaction set of a multisig wallet and
    sends a signed copy.  The registry is in memory only; every handler opens the
    account of the request and then holds the mutex of the registry.

    Shown is what every registry looks like ([txset_registry_ok]), that an account
    only changes the sets it owns ([txset_owner]), and that no set is ever
    submitted ([txset_never_submitted]).

    As in [Kex] the order of an [std::unordered_map] is that of [HashOrder]; the
    error texts of the responses, which are constants, are left out. *)

From S2P Require Import Prelude Lmdb Data Tables Accounts Requests MultisigStore Kex Scan Multisig.

#[local] Open Scope string_scope.
#[local] Open Scope Z_scope.

Record lws_unstake_txset_record := TxsetRecord {
  tr_owner_address : string;
  tr_wallet_id : string;
  tr_multisig_address : string;
  tr_txset_id : string;
  tr_tx_data_hash : string;
  tr_miner_address : string;
  tr_state : string;
  tr_collected_signatures : Z;
  tr_required_signatures : Z;
  tr_signed_tx_data_hash : string;
  tr_submitted_tx_hash : string;
  tr_created_at : Z;
  tr_updated_at : Z
}.

Record multisig_txset_register_request := TxsetRegisterRequest {
  xr_creds : account_credentials;
  xr_wallet_id : string;
  xr_multisig_address : string;
  xr_tx_data_hex : string;
  xr_miner_address : string;
  xr_purpose : string
}.

Record multisig_txset_register_response := TxsetRegisterResponse {
  xrr_success : bool;
  xrr_txset_id : string;
  xrr_state : string
}.

Record multisig_txset_signature_request := TxsetSignatureRequest {
  xs_creds : account_credentials;
  xs_wallet_id : string;
  xs_txset_id : string;
  xs_multisig_address : string;
  xs_signer_address : string;
  xs_signer_role : string;
  xs_signed_tx_data_hex : string
}.

Record multisig_txset_signature_response := TxsetSignatureResponse {
  xsr_success : bool;
  xsr_txset_id : string;
  xsr_state : string;
  xsr_collected_signatures : Z;
  xsr_required_signatures : Z;
  xsr_submitted_tx_hash : string
}.

Record multisig_txset_submit_request := TxsetSubmitRequest {
  xb_creds : account_credentials;
  xb_wallet_id : string;
  xb_txset_id : string;
  xb_multisig_address : string
}.

Record multisig_txset_submit_response := TxsetSubmitResponse {
  xbr_success : bool;
  xbr_tx_hash : string;
  xbr_state : string
}.

Abbreviation registry := (gmap string lws_unstake_txset_record).

Section txsets.
Context `{L : Lmdb} `{Crypto} `{O : HashOrder} `{T : AddressText}.
(** [cn_fast_hash] of a text, in hexadecimal digits. *)
Context (txset_content_hash : string → string).
Implicit Types (d : db L) (m : registry).

Definition lws_unstake_txsets_max_entries : nat := 128.
Definition lws_unstake_txset_ttl_seconds : Z := 60 * 60.

Definition is_xdigit (c : Ascii.ascii) : bool :=
  let n := Ascii.nat_of_ascii c in
  ((48 <=? n) && (n <=? 57) || (65 <=? n) && (n <=? 70) || (97 <=? n) && (n <=? 102))%nat.

Definition is_hex_string (value : string) : bool :=
  negb (bool_decide (value = "")) && forallb is_xdigit (String.list_ascii_of_string value).

Definition stable_txset_id (wallet_id multisig_address tx_data_hex : string) : string :=
  wallet_id ++ ":" ++ multisig_address ++ ":" ++ txset_content_hash tx_data_hex.

Definition txset_is_expired (record : lws_unstake_txset_record) (now : Z) : bool :=
  let last_seen := Z.max (tr_created_at record) (tr_updated_at record) in
  (last_seen =? 0) || (wrap 64 (last_seen + lws_unstake_txset_ttl_seconds) <? now).

Definition older_txset (oldest : option (string * lws_unstake_txset_record)) (it : string * lws_unstake_txset_record) :
    option (string * lws_unstake_txset_record) :=
  match oldest with
  | None => Some it
  | Some old => if tr_updated_at it.2 <? tr_updated_at old.2 then Some it else oldest
  end.

(** The second loop of [prune]; every round takes an entry out, so that their
    number is enough [fuel]. *)
Fixpoint evict_txsets (fuel : nat) (now : Z) m : registry :=
  if (lws_unstake_txset_ttl_seconds <? now) && (lws_unstake_txsets_max_entries <=? size m)%nat then
    match foldl older_txset None (entries m), fuel with
    | Some oldest, S fuel => evict_txsets fuel now (delete oldest.1 m)
    | _, _ => m
    end
  else m.

Definition prune_lws_unstake_txsets (now : Z) m : registry :=
  let alive := filter (λ e, txset_is_expired e.2 now = false) m in
  evict_txsets (size alive) now alive.

(** [multisig_txset_register::handle] *)
Definition register_failed : multisig_txset_register_response := TxsetRegisterResponse false "" "failed".

Definition empty_txset : lws_unstake_txset_record := TxsetRecord "" "" "" "" "" "" "" 0 0 "" "" 0 0.

Definition register_checks (req : multisig_txset_register_request) (owner_address : string) : bool :=
  bool_decide (address_of_string (xr_multisig_address req) ≠ None) && negb (bool_decide (xr_wallet_id req = "")) &&
  bool_decide (xr_purpose req = "miner_unstake") &&
  (is_hex_string (xr_tx_data_hex req) && (64 <? String.length (xr_tx_data_hex req))%nat) &&
  negb (String.prefix "unsigned_emergency_unstake_" (xr_tx_data_hex req) || String.prefix "mock_" (xr_tx_data_hex req)) &&
  bool_decide (xr_miner_address req = owner_address).

(** The record of a set, filled in when it is new. *)
Definition record_of (now : Z) (req : multisig_txset_register_request) (owner_address : string)
    (slot : lws_unstake_txset_record) : lws_unstake_txset_record :=
  let record :=
    if bool_decide (tr_txset_id slot = "") then
      TxsetRecord owner_address (xr_wallet_id req) (xr_multisig_address req)
        (stable_txset_id (xr_wallet_id req) (xr_multisig_address req) (xr_tx_data_hex req))
        (txset_content_hash (xr_tx_data_hex req)) (xr_miner_address req) "registered" 0 2
        (tr_signed_tx_data_hash slot) (tr_submitted_tx_hash slot) now (tr_updated_at slot)
    else slot in
  TxsetRecord (tr_owner_address record) (tr_wallet_id record) (tr_multisig_address record) (tr_txset_id record)
    (tr_tx_data_hash record) (tr_miner_address record) (tr_state record) (tr_collected_signatures record)
    (tr_required_signatures record) (tr_signed_tx_data_hash record) (tr_submitted_tx_hash record)
    (tr_created_at record) now.

Definition multisig_txset_register (now : Z) (req : multisig_txset_register_request) d m :
    expect multisig_txset_register_response * registry :=
  match open_account (xr_creds req) d with
  | Err e => (Err e, m)
  | Ok _ =>
    let owner_address := string_of_address (cr_address (xr_creds req)) in
    if negb (register_checks req owner_address) then (Ok register_failed, m)
    else
      let txset_id := stable_txset_id (xr_wallet_id req) (xr_multisig_address req) (xr_tx_data_hex req) in
      let m := prune_lws_unstake_txsets now m in
      if bool_decide (m !! txset_id = None) && (lws_unstake_txsets_max_entries <=? size m)%nat then
        (Ok register_failed, m)
      else
        let record := record_of now req owner_address (default empty_txset (m !! txset_id)) in
        (Ok (TxsetRegisterResponse true txset_id (tr_state record)), <[txset_id := record]> m)
  end.

(** [multisig_txset_signature::handle]; the clock is read twice. *)
Definition signature_failed (txset_id : string) (collected required : Z) : multisig_txset_signature_response :=
  TxsetSignatureResponse false txset_id "failed" collected required "".

Definition signature_checks (req : multisig_txset_signature_request) (owner_address : string) : bool :=
  negb (bool_decide (xs_wallet_id req = "") || bool_decide (xs_multisig_address req = "")) &&
  bool_decide (xs_signer_role req = "miner") &&
  (is_hex_string (xs_signed_tx_data_hex req) && (64 <? String.length (xs_signed_tx_data_hex req))%nat) &&
  bool_decide (xs_signer_address req = owner_address).

Definition signed_record (later : Z) (req : multisig_txset_signature_request) (record : lws_unstake_txset_record) :
    lws_unstake_txset_record :=
  TxsetRecord (tr_owner_address record) (tr_wallet_id record) (tr_multisig_address record) (tr_txset_id record)
    (tr_tx_data_hash record) (tr_miner_address record) "needs_more_signatures" (Z.max (tr_collected_signatures record) 1)
    (tr_required_signatures record) (txset_content_hash (xs_signed_tx_data_hex req)) (tr_submitted_tx_hash record)
    (tr_created_at record) later.

Definition multisig_txset_signature (now later : Z) (req : multisig_txset_signature_request) d m :
    expect multisig_txset_signature_response * registry :=
  match open_account (xs_creds req) d with
  | Err e => (Err e, m)
  | Ok _ =>
    let owner_address := string_of_address (cr_address (xs_creds req)) in
    if negb (signature_checks req owner_address) then (Ok (signature_failed (xs_txset_id req) 0 2), m)
    else
      let m := prune_lws_unstake_txsets now m in
      match m !! xs_txset_id req with
      | None => (Ok (signature_failed (xs_txset_id req) 0 2), m)
      | Some record =>
        if negb (bool_decide (tr_wallet_id record = xs_wallet_id req ∧ tr_multisig_address record = xs_multisig_address req)) ||
           negb (bool_decide (tr_owner_address record = owner_address ∧ tr_miner_address record = xs_signer_address req))
        then
          (Ok (signature_failed (xs_txset_id req) (tr_collected_signatures record) (tr_required_signatures record)), m)
        else
          let record := signed_record later req record in
          (Ok (TxsetSignatureResponse true (tr_txset_id record) (tr_state record) (tr_collected_signatures record)
                 (tr_required_signatures record) (tr_submitted_tx_hash record)),
           <[xs_txset_id req := record]> m)
      end
  end.

(** [multisig_txset_submit::handle] *)
Definition multisig_txset_submit (now : Z) (req : multisig_txset_submit_request) d m :
    expect multisig_txset_submit_response * registry :=
  match open_account (xb_creds req) d with
  | Err e => (Err e, m)
  | Ok _ =>
    let owner_address := string_of_address (cr_address (xb_creds req)) in
    let m := prune_lws_unstake_txsets now m in
    let failed := TxsetSubmitResponse false "" "failed" in
    match m !! xb_txset_id req with
    | None => (Ok failed, m)
    | Some record =>
      if negb (bool_decide (tr_wallet_id record = xb_wallet_id req ∧ tr_multisig_address record = xb_multisig_address req))
      then (Ok failed, m)
      else if negb (bool_decide (tr_owner_address record = owner_address)) then (Ok failed, m)
      else if tr_collected_signatures record <? tr_required_signatures record then
        (Ok (TxsetSubmitResponse true "" "needs_more_signatures"), m)
      else if bool_decide (tr_submitted_tx_hash record = "") then (Ok failed, m)
      else (Ok (TxsetSubmitResponse true (tr_submitted_tx_hash record) "submitted"), m)
    end
  end.

(** What wallets do to the registry; each request finds a database of its own. *)
Inductive txset_request :=
  | txset_register (now : Z) (req : multisig_txset_register_request)
  | txset_signature (now later : Z) (req : multisig_txset_signature_request)
  | txset_submit (now : Z) (req : multisig_txset_submit_request).

Definition txset_creds (r : txset_request) : account_credentials :=
  match r with
  | txset_register _ req => xr_creds req
  | txset_signature _ _ req => xs_creds req
  | txset_submit _ req => xb_creds req
  end.

Definition txset_handle (r : txset_request) d m : registry :=
  match r with
  | txset_register now req => (multisig_txset_register now req d m).2
  | txset_signature now later req => (multisig_txset_signature now later req d m).2
  | txset_submit now req => (multisig_txset_submit now req d m).2
  end.

Inductive txset_step : registry → registry → Prop :=
  | txset_served r d m : txset_step m (txset_handle r d m).

(** ** Theorems *)

(** A record as the handlers leave it. *)
Record txset_ok (id : string) (r : lws_unstake_txset_record) : Prop := {
  to_id : tr_txset_id r = id;
  to_hash : id = (tr_wallet_id r ++ ":" ++ tr_multisig_address r ++ ":" ++ tr_tx_data_hash r)%string;
  to_owner : tr_miner_address r = tr_owner_address r;
  to_required : tr_required_signatures r = 2;
  to_signed : tr_collected_signatures r = 0 ∧ tr_state r = "registered" ∨
    tr_collected_signatures r = 1 ∧ tr_state r = "needs_more_signatures";
  to_submitted : tr_submitted_tx_hash r = ""
}.

Definition txsets_ok m : Prop := (size m <= 128)%nat ∧ map_Forall txset_ok m.

Lemma evict_txsets_subseteq fuel now m : evict_txsets fuel now m ⊆ m.
Proof.
  revert m. induction fuel as [|fuel IH]; intros m; cbn [evict_txsets]; destruct (_ && _); [|done| |done].
  - by destruct (foldl _ _ _).
  - destruct (foldl _ _ _) as [oldest|]; [|done]. etrans; [apply IH|apply delete_subseteq].
Qed.

Lemma prune_subseteq now m : prune_lws_unstake_txsets now m ⊆ m.
Proof. unfold prune_lws_unstake_txsets. etrans; [apply evict_txsets_subseteq|apply map_filter_subseteq]. Qed.

Lemma prune_txsets_ok now m : txsets_ok m → txsets_ok (prune_lws_unstake_txsets now m).
Proof.
  intros [Hs Hm]. pose proof (prune_subseteq now m) as Hsub. split.
  - apply subseteq_dom, subseteq_size in Hsub. rewrite !size_dom in Hsub. lia.
  - intros id r Hr. apply Hm. by eapply lookup_weaken.
Qed.

Lemma record_of_ok now req owner m id :
  register_checks req owner = true → map_Forall txset_ok m →
  id = stable_txset_id (xr_wallet_id req) (xr_multisig_address req) (xr_tx_data_hex req) →
  txset_ok id (record_of now req owner (default empty_txset (m !! id))).
Proof.
  intros Hc Hm Hid.
  assert (xr_miner_address req = owner) as Howner.
  { unfold register_checks in Hc. apply andb_true_iff in Hc as [_ Hc]. by apply bool_decide_eq_true in Hc. }
  assert (id ≠ "") as Hne by (rewrite Hid; unfold stable_txset_id; by destruct (xr_wallet_id req)).
  unfold record_of. destruct (m !! id) as [r|] eqn:E; cbn.
  - destruct (Hm _ _ E) as [Hi Hh Ho Hreq Hsig Hsub]. rewrite bool_decide_eq_false_2 by congruence. by split.
  - split; cbn; [done|done|done|done|by left|done].
Qed.

Lemma txset_handle_ok r d m : txsets_ok m → txsets_ok (txset_handle r d m).
Proof.
  intros Hok. destruct r as [now req|now later req|now req]; cbn [txset_handle].
  - unfold multisig_txset_register. destruct (open_account _ d); [|done].
    destruct (register_checks _ _) eqn:Hc; [|done]. cbn [negb].
    destruct (prune_txsets_ok now _ Hok) as [Hs Hm]. revert Hs Hm. generalize (prune_lws_unstake_txsets now m) as m'.
    intros m' Hs Hm. set (id := stable_txset_id _ _ _).
    destruct (bool_decide (m' !! id = None) && (lws_unstake_txsets_max_entries <=? size m')%nat) eqn:Hfull; [done|].
    cbn [snd]. split.
    + destruct (m' !! id) as [r|] eqn:E.
      * rewrite map_size_insert_Some by done. done.
      * rewrite map_size_insert_None by done. apply andb_false_iff in Hfull as [Hf|Hf].
        { by rewrite bool_decide_eq_false in Hf. }
        apply Nat.leb_gt in Hf. unfold lws_unstake_txsets_max_entries in Hf. lia.
    + apply map_Forall_insert_2; [|done]. by apply record_of_ok.
  - unfold multisig_txset_signature. destruct (open_account _ d); [|done].
    destruct (negb (signature_checks _ _)); [done|].
    destruct (prune_txsets_ok now _ Hok) as [Hs Hm]. revert Hs Hm. generalize (prune_lws_unstake_txsets now m) as m'.
    intros m' Hs Hm. destruct (m' !! xs_txset_id req) as [r|] eqn:E; [|done]. destruct (_ || _); [done|]. cbn [snd].
    split; [by rewrite map_size_insert_Some by done|]. apply map_Forall_insert_2; [|done].
    destruct (Hm _ _ E) as [Hi Hh Ho Hreq Hsig Hsub]. split; cbn; try done. right. split; [|done].
    destruct Hsig as [[-> _]|[-> _]]; lia.
  - unfold multisig_txset_submit. destruct (open_account _ d); [|done]. pose proof (prune_txsets_ok now _ Hok).
    destruct (_ !! _) as [r|]; [|done]. by repeat case_match.
Qed.

Lemma txsets_reachable m : rtc txset_step ∅ m → txsets_ok m.
Proof.
  intros Hr. assert (∀ m1 m2, rtc txset_step m1 m2 → txsets_ok m1 → txsets_ok m2) as Hkeep.
  { induction 1 as [|m1 m2 m3 [r d m1'] _ IH]; [done|]. intros Hok. by apply IH, txset_handle_ok. }
  apply (Hkeep _ _ Hr). split; [by rewrite map_size_empty; lia|apply map_Forall_empty].
Qed.

(** Whatever wallets send, there are at most 128 sets, each under the id that
    its wallet, address and data make, owned by the miner it is for, and with no
    signature or the one of the miner. *)
Theorem txset_registry_ok m : rtc txset_step ∅ m → txsets_ok m.
Proof. apply txsets_reachable. Qed.

(** No set is ever submitted: every registered set needs two signatures, of
    which only that of the miner is taken. *)
Theorem txset_never_submitted m now req d r m' :
  rtc txset_step ∅ m → multisig_txset_submit now req d m = (Ok r, m') →
  r = TxsetSubmitResponse false "" "failed" ∨ r = TxsetSubmitResponse true "" "needs_more_signatures".
Proof.
  intros Hm%txsets_reachable%(prune_txsets_ok now). unfold multisig_txset_submit.
  destruct (open_account _ d); [|done]. destruct (_ !! _) as [record|] eqn:E; [|intros [= <- <-]; by left].
  destruct (negb _); [intros [= <- <-]; by left|]. destruct (negb _); [intros [= <- <-]; by left|].
  destruct (proj2 Hm _ _ E) as [_ _ _ Hreq Hsig _].
  destruct (Z.ltb_spec (tr_collected_signatures record) (tr_required_signatures record)); [intros [= <- <-]; by right|].
  exfalso. rewrite Hreq in *. destruct Hsig as [[Hz _]|[Hz _]]; lia.
Qed.

(** A record up to the time it was last seen. *)
Definition same_txset (r r' : lws_unstake_txset_record) : Prop :=
  ∃ t, r' = TxsetRecord (tr_owner_address r) (tr_wallet_id r) (tr_multisig_address r) (tr_txset_id r) (tr_tx_data_hash r)
    (tr_miner_address r) (tr_state r) (tr_collected_signatures r) (tr_required_signatures r) (tr_signed_tx_data_hash r)
    (tr_submitted_tx_hash r) (tr_created_at r) t.

(** C24: a request changes the registry only with the view key of an account of the
    server, and of the sets of others it can at most renew the time or, when the
    registry is full or they are old, drop them. *)
Theorem txset_owner r d m id record :
  map_Forall txset_ok m → txset_handle r d m !! id = Some record →
  tr_owner_address record ≠ string_of_address (cr_address (txset_creds r)) ∨ (∃ e, open_account (txset_creds r) d = Err e) →
  ∃ before, m !! id = Some before ∧ same_txset before record.
Proof.
  intros Hok Hafter Howner.
  assert (∀ a, same_txset a a) as Hrefl by (intros []; eexists; reflexivity).
  assert (∀ now, prune_lws_unstake_txsets now m !! id = Some record → ∃ before, m !! id = Some before ∧ same_txset before record) as Hprune.
  { intros now Hl. exists record. split; [|done]. by eapply lookup_weaken, prune_subseteq. }
  assert (m !! id = Some record → ∃ before, m !! id = Some before ∧ same_txset before record) as Hsame
    by (intros Hl; by exists record).
  destruct r as [now req|now later req|now req]; cbn [txset_handle txset_creds] in *.
  - unfold multisig_txset_register in Hafter. destruct (open_account _ d) as [user|e] eqn:Ho; [|by apply Hsame].
    destruct Howner as [Howner|[e' He]]; [|done].
    destruct (negb _) eqn:Hc; [by apply Hsame|]. apply negb_false_iff in Hc.
    destruct (_ && _); [by eapply Hprune|]. cbn [snd] in Hafter.
    apply lookup_insert_Some in Hafter as [[<- <-]|[_ Hl]]; [|by eapply Hprune].
    set (id := stable_txset_id _ _ _) in *. revert Howner. unfold record_of.
    destruct (prune_lws_unstake_txsets now m !! id) as [before|] eqn:E; cbn; [|done].
    assert (m !! id = Some before) as Hl by by eapply lookup_weaken, prune_subseteq.
    assert (id ≠ "") as Hne by (unfold id, stable_txset_id; by destruct (xr_wallet_id req)).
    rewrite bool_decide_eq_false_2 by (rewrite (to_id _ _ (Hok _ _ Hl)); done).
    intros _. exists before. split; [done|by eexists].
  - unfold multisig_txset_signature in Hafter. destruct (open_account _ d) as [user|e] eqn:Ho; [|by apply Hsame].
    destruct Howner as [Howner|[e' He]]; [|done].
    destruct (negb _); [by apply Hsame|]. destruct (_ !! xs_txset_id req) as [before|] eqn:E; [|by eapply Hprune].
    destruct (_ || _) eqn:Hc; [by eapply Hprune|]. apply orb_false_iff in Hc as [_ Hc%negb_false_iff%bool_decide_eq_true].
    cbn [snd] in Hafter. apply lookup_insert_Some in Hafter as [[<- <-]|[_ Hl]]; [|by eapply Hprune].
    by destruct Howner, Hc.
  - unfold multisig_txset_submit in Hafter. destruct (open_account _ d) as [user|e] eqn:Ho; [|by apply Hsame].
    destruct (_ !! xb_txset_id req); [|by eapply Hprune]. repeat case_match; by eapply Hprune.
Qed.
End txsets.

(** *** A full registry *)

Section capacity.
Context `{O : HashOrder} `{!HashOrderLaws O}.
Implicit Types m : registry.

Lemma older_txset_in l : ∀ o,
  match foldl older_txset o l with Some x => o = Some x ∨ x ∈ l | None => o = None ∧ l = [] end.
Proof.
  induction l as [|it l IH]; intros o; cbn [foldl]; [by destruct o; [left|]|].
  specialize (IH (older_txset o it)). assert (older_txset o it = Some it ∨ older_txset o it = o ∧ o ≠ None) as Hstep.
  { destruct o as [old|]; [|by left]. simpl. destruct (_ <? _); [by left|by right]. }
  destruct (foldl _ _ _) as [x|].
  - destruct IH as [IH|IH]; [|right; by right]. destruct Hstep as [Hs|[Hs _]]; rewrite Hs in IH; [|by left].
    injection IH as ->. right. by left.
  - destruct IH as [IH ->]. destruct Hstep as [Hs|[Hs Hn]]; rewrite Hs in IH; done.
Qed.

(** The oldest sets are dropped before a new one is looked at: the answer that
    the registry is full is never given. *)
Lemma capacity_never_reached now m :
  lws_unstake_txset_ttl_seconds < now → (size (prune_lws_unstake_txsets now m) < lws_unstake_txsets_max_entries)%nat.
Proof.
  intros Hnow. unfold prune_lws_unstake_txsets. generalize (filter (λ e, txset_is_expired e.2 now = false) m) as alive.
  clear m. intros m. assert (∀ fuel m, (size m <= fuel)%nat → (size (evict_txsets fuel now m) < lws_unstake_txsets_max_entries)%nat) as Hfuel;
    [|by apply Hfuel].
  clear m. induction fuel as [|fuel IH]; intros m Hm; cbn [evict_txsets]; rewrite (proj2 (Z.ltb_lt _ _) Hnow); cbn [andb];
    destruct (Nat.leb_spec lws_unstake_txsets_max_entries (size m)) as [Hfull|Hfull]; try done.
  { unfold lws_unstake_txsets_max_entries in Hfull. lia. }
  pose proof (older_txset_in (entries m) None) as Hold. destruct (foldl _ _ _) as [[id r]|].
  - destruct Hold as [|Hin]; [done|]. rewrite entries_perm in Hin. apply elem_of_map_to_list in Hin.
    apply IH. cbn [fst]. rewrite map_size_delete_Some by done. lia.
  - destruct Hold as [_ Hnil]. pose proof (entries_perm _ m) as Hp. rewrite Hnil in Hp.
    apply Permutation_nil_l in Hp. symmetry in Hp. apply map_to_list_empty_iff in Hp as ->.
    rewrite map_size_empty in Hfull. unfold lws_unstake_txsets_max_entries in Hfull. lia.
Qed.
End capacity.

(** ** Example *)

#[local] Existing Instance ListDb.lmdb.
#[local] Existing Instance test_crypto.
#[local] Existing Instance test_text.
#[local] Instance list_order : HashOrder := {| entries := λ A (m : gmap string A), map_to_list m |}.

Definition test_txset_data : string :=
  "0123456789abcdef0123456789abcdef0123456789abcdef0123456789abcdef00".

Definition test_txset_hash (data : string) : string := String.substring 0 4 data.

Definition test_txset_id : string := "w1:multisig:0123".

Definition register_request (miner : string) : txset_request :=
  txset_register 5000 (TxsetRegisterRequest (creds 6) "w1" "multisig" test_txset_data miner "miner_unstake").

Definition signature_request (role : string) : txset_request :=
  txset_signature 5100 5101 (TxsetSignatureRequest (creds 6) "w1" test_txset_id "multisig" "multisig" role test_txset_data).

Definition registered : registry := txset_handle test_txset_hash (register_request "multisig") account_db ∅.

Definition signed : registry := txset_handle test_txset_hash (signature_request "miner") account_db registered.

Lemma signed_reachable : rtc (txset_step test_txset_hash) ∅ signed.
Proof. eapply rtc_l; [constructor|]. eapply rtc_l; [constructor|apply rtc_refl]. Qed.

Lemma txset_registry_ok_witness :
  txsets_ok signed ∧ size signed = 1%nat ∧
  tr_collected_signatures <$> signed !! test_txset_id = Some 1.
Proof. split; [apply (txset_registry_ok _ _ signed_reachable)|split; vm_compute; reflexivity]. Defined.

Lemma txset_never_submitted_witness :
  ∃ r, (multisig_txset_submit 5200 (TxsetSubmitRequest (creds 6) "w1" test_txset_id "multisig") account_db signed).1 = Ok r ∧
    (r = TxsetSubmitResponse false "" "failed" ∨ r = TxsetSubmitResponse true "" "needs_more_signatures").
Proof.
  destruct (multisig_txset_submit _ _ _ _) as [r m] eqn:E. destruct r as [r|e]; [|vm_compute in E; discriminate E].
  exists r. split; [reflexivity|]. exact (txset_never_submitted _ _ _ _ _ _ _ signed_reachable E).
Defined.

(** One without an account of the server leaves the set as it is. *)
Lemma txset_owner_witness :
  ∃ before record, registered !! test_txset_id = Some before ∧ same_txset before record ∧ tr_updated_at record = 5000.
Proof.
  destruct (txset_handle test_txset_hash (txset_submit 5200 (TxsetSubmitRequest (creds 7) "w1" test_txset_id "multisig"))
    account_db registered !! test_txset_id) as [record|] eqn:E; [|vm_compute in E; discriminate E].
  destruct (txset_owner test_txset_hash (txset_submit 5200 (TxsetSubmitRequest (creds 7) "w1" test_txset_id "multisig"))
    account_db registered test_txset_id record) as (before & Hb & Hs).
  - apply (txset_handle_ok _ (register_request "multisig")). split; [rewrite map_size_empty; lia|apply map_Forall_empty].
  - exact E.
  - right. vm_compute. eexists. reflexivity.
  - exists before, record. split; [exact Hb|]. split; [exact Hs|]. vm_compute in E. injection E as <-. reflexivity.
Defined.
