(* ===== verification/Endpoints.v ===== *)
(** * From a URI to a handler (src/src/rest_server.cpp)

    A request is dispatched by its URI: the prefix says which of two tables, a
    binary search finds the endpoint, and after checks of size and verb its
    handler runs.  Admin handlers authenticate first.  The result is an HTTP
    status with a body, or comes later from an asynchronous handler.

    The tables are those of the code, and so is their order: they are searched
    as if sorted, which one of them is not.  Shown is which endpoints are found
    ([endpoints_found]), that the search is right on sorted tables ([bisect_lower_bound]),
    and who passes the check of an admin handler ([admin_authenticated]). *)

From S2P Require Import Prelude Lmdb Data Compare Tables Chain Accounts Requests.

#[local] Open Scope string_scope.
#[local] Open Scope Z_scope.

(** ** The tables *)

(** What an endpoint runs. *)
Inductive rest_call :=
  | daemon_status | get_address_info | get_address_txs | get_random_outs | get_subaddrs | get_unspent_outs
  | get_version | import_key_images | import_request | login | multisig_balance | multisig_kex_finalize
  | multisig_kex_submit | multisig_kex_status | multisig_register | multisig_register_wallet_handler
  | multisig_txs | multisig_txset_register | multisig_txset_signature | multisig_txset_submit
  | multisig_list_wallets | provision_subaddrs | request_rescan | submit_raw_tx | upsert_subaddrs
  | accept_requests_ | add_account_ | list_accounts_ | list_requests_ | modify_account_ | reject_requests_
  | rescan_ | validate_ | webhook_add_ | webhook_delete_ | webhook_del_uuid_ | webhook_list_.

Record endpoint := Endpoint {
  ep_name : string;
  ep_run : option rest_call;
  ep_max_size : Z;
  ep_is_async : bool
}.

Definition endpoints : list endpoint := [
  Endpoint "/daemon_status" (Some daemon_status) 1024 true;
  Endpoint "/get_address_info" (Some get_address_info) (2 * 1024) false;
  Endpoint "/get_address_txs" (Some get_address_txs) (2 * 1024) false;
  Endpoint "/get_random_outs" (Some get_random_outs) (2 * 1024) true;
  Endpoint "/get_subaddrs" (Some get_subaddrs) (2 * 1024) false;
  Endpoint "/get_txt_records" None 0 false;
  Endpoint "/get_unspent_outs" (Some get_unspent_outs) (2 * 1024) true;
  Endpoint "/get_version" (Some get_version) 1024 false;
  Endpoint "/import_key_images" (Some import_key_images) (64 * 1024) false;
  Endpoint "/import_wallet_request" (Some import_request) (2 * 1024) false;
  Endpoint "/login" (Some login) (2 * 1024) false;
  Endpoint "/multisig/balance" (Some multisig_balance) (2 * 1024) false;
  Endpoint "/multisig/kex/finalize" (Some multisig_kex_finalize) (4 * 1024) false;
  Endpoint "/multisig/kex/submit" (Some multisig_kex_submit) (64 * 1024) false;
  Endpoint "/multisig/kex/status" (Some multisig_kex_status) (2 * 1024) false;
  Endpoint "/multisig/register_tx" (Some multisig_register) (4 * 1024) false;
  Endpoint "/multisig/register_wallet" (Some multisig_register_wallet_handler) (4 * 1024) false;
  Endpoint "/multisig/transactions" (Some multisig_txs) (2 * 1024) false;
  Endpoint "/multisig/txsets/register" (Some multisig_txset_register) (512 * 1024) false;
  Endpoint "/multisig/txsets/signature" (Some multisig_txset_signature) (512 * 1024) false;
  Endpoint "/multisig/txsets/submit" (Some multisig_txset_submit) (4 * 1024) false;
  Endpoint "/multisig/wallets" (Some multisig_list_wallets) 1024 false;
  Endpoint "/provision_subaddrs" (Some provision_subaddrs) (2 * 1024) false;
  Endpoint "/request_rescan" (Some request_rescan) (2 * 1024) false;
  Endpoint "/submit_raw_tx" (Some submit_raw_tx) (512 * 1024) true;
  Endpoint "/upsert_subaddrs" (Some upsert_subaddrs) (10 * 1024) false].

Definition admin_endpoints : list endpoint := [
  Endpoint "/accept_requests" (Some accept_requests_) (50 * 1024) false;
  Endpoint "/add_account" (Some add_account_) (50 * 1024) false;
  Endpoint "/list_accounts" (Some list_accounts_) 100 false;
  Endpoint "/list_requests" (Some list_requests_) 100 false;
  Endpoint "/modify_account_status" (Some modify_account_) (50 * 1024) false;
  Endpoint "/reject_requests" (Some reject_requests_) (50 * 1024) false;
  Endpoint "/rescan" (Some rescan_) (50 * 1024) false;
  Endpoint "/validate" (Some validate_) (50 * 1024) false;
  Endpoint "/webhook_add" (Some webhook_add_) (50 * 1024) false;
  Endpoint "/webhook_delete" (Some webhook_delete_) (50 * 1024) false;
  Endpoint "/webhook_delete_uuid" (Some webhook_del_uuid_) (50 * 1024) false;
  Endpoint "/webhook_list" (Some webhook_list_) 100 false].

Definition get_max (l : list endpoint) : Z := foldl (λ current_max e, Z.max current_max (ep_max_size e)) 0 l.

(** [max_admin_endpoint_size] is that of the other table. *)
Definition max_standard_endpoint_size : Z := get_max endpoints.
Definition max_admin_endpoint_size : Z := get_max endpoints.
Definition max_endpoint_size : Z := Z.max max_standard_endpoint_size max_admin_endpoint_size.

(** ** Finding an endpoint *)

(** [by_name] of an endpoint and a name. *)
Definition by_name (left : endpoint) (right : string) : bool := String.ltb (ep_name left) right.

(** [std::lower_bound]: halving the part from [first] of length [len]. *)
Fixpoint bisect {A} (fuel : nat) (below : A → bool) (l : list A) (first len : nat) : nat :=
  match fuel, len with
  | O, _ | _, O => first
  | S fuel, _ =>
    let half := (len `div` 2)%nat in
    match l !! (first + half)%nat with
    | Some x =>
      if below x then bisect fuel below l (first + half + 1)%nat (len - half - 1)%nat
      else bisect fuel below l first half
    | None => first
    end
  end.

Definition std_lower_bound {A} (below : A → bool) (l : list A) : nat := bisect (length l) below l 0 (length l).

Definition find_endpoint (handlers : list endpoint) (uri : string) : option endpoint :=
  match handlers !! std_lower_bound (λ e, by_name e uri) handlers with
  | Some handler => if bool_decide (ep_name handler = uri) then Some handler else None
  | None => None
  end.

(** [starts_with] and [remove_prefix]. *)
Fixpoint strip_prefix (prefix uri : string) : option string :=
  match prefix, uri with
  | EmptyString, _ => Some uri
  | String a prefix, String b uri => if Ascii.eqb a b then strip_prefix prefix uri else None
  | String _ _, EmptyString => None
  end.

(** The prefixes of a port, either of which may be missing. *)
Record internal := Internal { port_prefix : option string; port_admin_prefix : option string }.

Definition get_endpoint (port : internal) (uri : string) : option endpoint :=
  match port_admin_prefix port ≫= λ prefix, strip_prefix prefix uri with
  | Some uri => find_endpoint admin_endpoints uri
  | None =>
    match port_prefix port ≫= λ prefix, strip_prefix prefix uri with
    | Some uri => find_endpoint endpoints uri
    | None => None
    end
  end.

(** ** Running it *)

Inductive verb := verb_get | verb_post | verb_other.

#[export] Instance verb_eq_dec : EqDecision verb.
Proof. solve_decision. Defined.

Section call.
Context `{L : Lmdb} `{Crypto}.
Context (options : runtime_options).
Implicit Types (d : db L) (w : world).

(** [call] of a handler whose request is read from the body. *)
Definition call {A B} (last_verb : verb) (req : expect A) (handle : A → handler B) : handler B :=
  _ ← require (bool_decide (last_verb = verb_post)) bad_verb;
  req ← reading (λ _, req);
  handle req.

(** [admin<T>]: the parameters and the key that authenticates. *)
Record admin (T : Type) := Admin { ad_params : T; ad_auth : option Z }.
#[global] Arguments Admin {T} _ _.
#[global] Arguments ad_params {T} _.
#[global] Arguments ad_auth {T} _.

(** The check of [call_admin]: only the view key of the address is filled in. *)
Definition admin_auth (auth : option Z) d : expect unit :=
  key ← of_option account_not_found auth;
  view_public ← of_option crypto_failure (secret_key_to_public_key key);
  '(status, user) ← get_account (AccountAddress view_public 0) d;
  _ ← guard_err (negb (bool_decide (status = inactive))) account_not_found;
  guard_err (negb (Z.land (acc_flags user) admin_account =? 0)) account_not_found.

Definition call_admin {A B} (last_verb : verb) (req : expect (admin A)) (run : A → handler B) : handler B :=
  _ ← require (bool_decide (last_verb = verb_post)) bad_verb;
  req ← reading (λ _, req);
  _ ← (if disable_admin_auth options then mret tt else reading (admin_auth (ad_auth req)));
  run (ad_params req).
End call.

(** ** The response *)

Inductive http_status :=
  | http_ok | http_bad_request | http_forbidden | http_not_found | http_method_not_allowed | http_conflict
  | http_not_implemented | http_service_unavailable | http_internal_server_error.

(** [bad_request] of an error; [is_json] tells the errors of the JSON parser. *)
Definition error_status (is_json : error → bool) (e : error) : http_status :=
  if is_json e || bool_decide (e = invalid_range) || bool_decide (e = not_enough_amount) then http_bad_request
  else if bool_decide (e = bad_verb) then http_method_not_allowed
  else if bool_decide (e = account_not_found) || bool_decide (e = duplicate_request) then http_forbidden
  else if bool_decide (e = max_subaddresses_) then http_conflict
  else if bool_decide (e = daemon_timeout) || bool_decide (e = no_lock_available) then http_service_unavailable
  else http_internal_server_error.

(** What a client gets: a status and a body, or nothing yet. *)
Inductive http_response (B : Type) :=
  | Respond (status : http_status) (body : option B)
  | Later.
Arguments Respond {B} _ _.
Arguments Later {B}.

Section dispatch.
Context `{L : Lmdb} {B : Type} (is_json : error → bool) (is_empty : B → bool).
(** The handlers, given the verb and the body of the request. *)
Context (run : rest_call → verb → string → handler B).

(** [async_response] *)
Definition async_response (port : internal) (target : string) (payload_size : option Z) (method : verb) (body : string)
    (w : world) : http_response B * world :=
  match get_endpoint port target with
  | None => (Respond http_not_found None, w)
  | Some handler =>
    match ep_run handler with
    | None => (Respond http_not_implemented None, w)
    | Some h =>
      if ep_max_size handler <? default u64_max payload_size then (Respond http_bad_request None, w)
      else if bool_decide (method = verb_other) then (Respond http_method_not_allowed None, w)
      else
        match run h method body w with
        | (Err e, w) => (Respond (error_status is_json e) None, w)
        | (Ok out, w) =>
          if negb (ep_is_async handler) || negb (is_empty out) then (Respond http_ok (Some out), w) else (Later, w)
        end
    end
  end.
End dispatch.

(** ** Theorems *)

(** *** The search *)

(** [below] holds up to [k] and not from there on. *)
Definition partitioned {A} (below : A → bool) (l : list A) (k : nat) : Prop :=
  (k <= length l)%nat ∧ ∀ i x, l !! i = Some x → below x = bool_decide (i < k)%nat.

Lemma bisect_partitioned {A} fuel (below : A → bool) l k : ∀ first len,
  partitioned below l k → (len <= fuel)%nat → (first <= k <= first + len)%nat → (first + len <= length l)%nat →
  bisect fuel below l first len = k.
Proof.
  induction fuel as [|fuel IH]; intros first len Hp Hf Hk Hl; [simpl; destruct len; lia|].
  cbn [bisect]. destruct len as [|len]; [lia|].
  set (half := (S len `div` 2)%nat). assert (half < S len)%nat as Hh by (apply Nat.div_lt; lia).
  destruct (lookup_lt_is_Some_2 l (first + half)) as [x Hx]; [lia|]. rewrite Hx.
  rewrite (proj2 Hp _ _ Hx). case_bool_decide; apply IH; (done || lia).
Qed.

Lemma lower_bound_partitioned {A} (below : A → bool) l k : partitioned below l k → lower_bound below l = k.
Proof.
  revert k. induction l as [|x l IH]; intros k [Hk Hp]; simpl in *; [lia|].
  pose proof (Hp 0%nat x eq_refl) as H0. case_bool_decide; rewrite H0.
  - destruct k as [|k]; [lia|]. f_equal. apply IH. split; [lia|]. intros i y Hi.
    rewrite (Hp (S i) y Hi). apply bool_decide_ext. lia.
  - lia.
Qed.

(** On a table in which the names below the one looked for come first, the
    halving search of the standard library finds the first name that is not. *)
Theorem bisect_lower_bound {A} (below : A → bool) (l : list A) k :
  partitioned below l k → std_lower_bound below l = lower_bound below l.
Proof.
  intros Hp. rewrite (lower_bound_partitioned _ _ k Hp). apply bisect_partitioned; [done|lia| |lia].
  destruct Hp. lia.
Qed.

Lemma strip_prefix_app prefix uri : strip_prefix prefix (prefix ++ uri) = Some uri.
Proof. induction prefix as [|a prefix IH]; simpl; [done|]. by rewrite Ascii.eqb_refl. Qed.

Lemma find_endpoint_name handlers uri e : find_endpoint handlers uri = Some e → e ∈ handlers ∧ ep_name e = uri.
Proof.
  unfold find_endpoint. destruct (handlers !! _) as [h|] eqn:E; [|done].
  case_bool_decide; [|done]. intros [= <-]. split; [|done]. by eapply list_elem_of_lookup_2.
Qed.

(** The endpoint no request reaches. *)
Definition lost_name : string := "/multisig/kex/status".

Lemma endpoints_search e :
  e ∈ endpoints → find_endpoint endpoints (ep_name e) = if bool_decide (ep_name e = lost_name) then None else Some e.
Proof.
  revert e. apply Forall_forall. repeat (apply Forall_cons; split; [by vm_compute|]). by apply Forall_nil.
Qed.

Lemma admin_endpoints_search e : e ∈ admin_endpoints → find_endpoint admin_endpoints (ep_name e) = Some e.
Proof.
  revert e. apply Forall_forall. repeat (apply Forall_cons; split; [by vm_compute|]). by apply Forall_nil.
Qed.

(** After the prefix of a port every name of its table is found, and nothing
    else is: but for [/multisig/kex/status], which the table has after
    [/multisig/kex/submit] and the binary search therefore misses. *)
Theorem endpoints_found prefix admin_prefix :
  (∀ e, e ∈ endpoints →
     get_endpoint (Internal (Some prefix) None) (prefix ++ ep_name e) =
       if bool_decide (ep_name e = lost_name) then None else Some e) ∧
  (∀ e p, e ∈ admin_endpoints →
     get_endpoint (Internal p (Some admin_prefix)) (admin_prefix ++ ep_name e) = Some e) ∧
  (∀ port uri e, get_endpoint port uri = Some e → e ∈ endpoints ∨ e ∈ admin_endpoints) ∧
  (∃ e, e ∈ endpoints ∧ ep_name e = lost_name ∧ ep_run e = Some multisig_kex_status).
Proof.
  split_and!.
  - intros e He. unfold get_endpoint. cbn. rewrite strip_prefix_app. by apply endpoints_search.
  - intros e p He. unfold get_endpoint. cbn. rewrite strip_prefix_app. by apply admin_endpoints_search.
  - intros port uri e. unfold get_endpoint. destruct (port_admin_prefix port ≫= _).
    { intros [He _]%find_endpoint_name. by right. }
    destruct (port_prefix port ≫= _); [|done]. intros [He _]%find_endpoint_name. by left.
  - exists (Endpoint lost_name (Some multisig_kex_status) (2 * 1024) false). split_and!; [|done..].
    apply (list_elem_of_lookup_2 _ 14). reflexivity.
Qed.

(** *** Who may administrate *)

Section admin_theorems.
Context `{LL : LmdbLaws} `{Crypto}.
Context (options : runtime_options).
Implicit Types (d : db L) (w : world).

Lemma admin_auth_ok auth d :
  accounts_ok d → admin_auth auth d = Ok tt ↔
    ∃ key view_public s user, auth = Some key ∧ secret_key_to_public_key key = Some view_public ∧
      user ∈ dups accounts s d ∧ acc_address user = AccountAddress view_public 0 ∧ s ≠ inactive ∧
      Z.land (acc_flags user) admin_account ≠ 0.
Proof.
  intros Hok. unfold admin_auth. split.
  - intros (key & Ha%of_option_ok & Hrun)%expect_bind_ok. apply expect_bind_ok in Hrun as (v & Hv%of_option_ok & Hrun).
    apply expect_bind_ok in Hrun as ([s user] & Hget%get_account_iff & Hrun); [|done].
    apply expect_bind_ok in Hrun as ([] & Hs%guard_err_ok%negb_true_iff%bool_decide_eq_false & Hrun).
    apply guard_err_ok, negb_true_iff, Z.eqb_neq in Hrun. destruct Hget. by exists key, v, s, user.
  - intros (key & v & s & user & -> & Hv & Hin & Had & Hs & Hf). simpl. rewrite Hv. simpl.
    assert (get_account (AccountAddress v 0) d = Ok (s, user)) as -> by by apply get_account_iff.
    simpl. rewrite bool_decide_eq_false_2 by done. simpl. by rewrite (proj2 (Z.eqb_neq _ _) Hf).
Qed.

(** C20: an admin handler runs for a POST whose key is the view key of an account
    with the admin flag that is not inactive, or when the check is disabled; in
    every other case the database and the connection stay as they are. *)
Theorem admin_authenticated {A B} last_verb (req : expect (admin A)) (run : A → handler B) w :
  accounts_ok (w_disk w) →
  (∃ r, req = Ok r ∧ last_verb = verb_post ∧
     (disable_admin_auth options = true ∨
      ∃ key view_public s user, ad_auth r = Some key ∧ secret_key_to_public_key key = Some view_public ∧
        user ∈ dups accounts s (w_disk w) ∧ acc_address user = AccountAddress view_public 0 ∧ s ≠ inactive ∧
        Z.land (acc_flags user) admin_account ≠ 0) ∧
     call_admin options last_verb req run w = run (ad_params r) w) ∨
  ∃ e, call_admin options last_verb req run w = (Err e, w).
Proof.
  intros Hok. unfold call_admin, require. case_bool_decide as Hv; [|right; by eexists].
  destruct req as [r|e]; [|right; by eexists]. unfold reading, mbind, handler_bind, mret, handler_ret.
  destruct (disable_admin_auth options); [left; exists r; by auto|].
  destruct (admin_auth (ad_auth r) (w_disk w)) as [[]|e] eqn:E; [|right; by eexists].
  left. exists r. split_and!; [done..| |done]. right. by apply admin_auth_ok.
Qed.
End admin_theorems.

(** ** Witnesses *)

Lemma bisect_lower_bound_witness :
  std_lower_bound (λ e, by_name e "/login") admin_endpoints = lower_bound (λ e, by_name e "/login") admin_endpoints.
Proof.
  apply (bisect_lower_bound _ _ 4). split; [vm_compute; lia|].
  intros i x Hx. do 12 (destruct i as [|i]; [injection Hx as <-; reflexivity|]). discriminate Hx.
Defined.

Lemma endpoints_found_witness :
  get_endpoint (Internal (Some "/v1") None) "/v1/login" = Some (Endpoint "/login" (Some login) (2 * 1024) false).
Proof.
  destruct (endpoints_found "/v1" "") as [Hfound _].
  apply (Hfound (Endpoint "/login" (Some login) (2 * 1024) false)). do 10 right. left.
Defined.

#[local] Existing Instance test_crypto.

Lemma admin_authenticated_witness :
  let options := RuntimeOptions 0 false false false false false 0 0 in
  let run (_ : unit) : handler unit := λ w, (Ok tt, World empty_db (w_passed_login w)) in
  let w := World account_db false in
  ∃ e, call_admin options verb_post (Ok (Admin tt (Some 6))) run w = (Err e, w).
Proof.
  intros options run w.
  destruct (admin_authenticated options verb_post (Ok (Admin tt (Some 6))) run w account_db_ok)
    as [(r & [= <-] & _ & [Hd|(key & v & s & user & [= <-] & [= <-] & Hin & Had & _ & _)] & _)|He].
  - discriminate Hd.
  - exfalso. destruct s; vm_compute in Hin; [|by apply elem_of_nil in Hin..].
    apply list_elem_of_singleton in Hin as ->. discriminate Had.
  - exact He.
Defined.
