(* ===== verification/Rpc.v ===== *)
(** * The requests of wallets (src/src/rpc/light_wallet.cpp, rpc/multisig.cpp)

    Every endpoint reads its request from JSON with a list of fields, and converts
    addresses, keys and indexes.  A [jcodec] is the JSON type of a request, the record
    the handlers of [Requests], [Balance], [Async], [Kex], [Multisig] and [Txsets] work
    on, and the conversion with its errors.  [serve_rest] puts together what was
    modelled apart: the endpoint is found by its name ([Endpoints]), the body is read
    ([Json]) and converted, and the handler of [Requests] runs.

    Shown is that whatever text a wallet writes for a request gives that request
    ([requests_read]) and is answered by the handler ([requests_arrive]), and that
    whatever other bytes arrive are answered with an error that leaves the database
    as it is ([bodies_answered]). *)

From S2P Require Import Prelude Lmdb Data Chain Accounts Webhooks Storage Wire Json Messages Requests Balance Async MultisigStore Kex Multisig Txsets Endpoints.

(** ** Codecs *)

Record jcodec (A : Type) := JCodec {
  jc_type : json_type;
  jc_to : A → value;
  jc_of : value → expect A;
  jc_ok : A → Prop }.
Arguments jc_type {A} _.
Arguments jc_to {A} _ _.
Arguments jc_of {A} _ _.
Arguments jc_ok {A} _ _.

(** No object of the type has this shape. *)
Definition no_shape {A} : expect A := Err undefined_behaviour.

(** A value is converted, or refused with an exception of the reader. *)
Definition converts {A} (x : expect A) : Prop := match x with Ok _ => True | Err e => caught e end.

(** What a codec promises: its type can be read, all its objects are converted, and
    what is written for a value is converted to it. *)
Class JCodecLaws {A} (c : jcodec A) : Prop := {
  jc_readable : json_type_ok (jc_type c) = true ∧ json_depth (jc_type c) < 100;
  jc_converts v : has_json_type (jc_type c) v = true → converts (jc_of c v);
  jc_of_to a : jc_ok c a → jc_of c (jc_to c a) = Ok a }.

Definition jbool : jcodec bool :=
  JCodec bool JBool VBool (λ v, match v with VBool b => Ok b | _ => no_shape end) (λ _, True).

Definition juint (bytes : nat) : jcodec Z :=
  JCodec Z (JUint bytes) VInteger (λ v, match v with VInteger z => Ok z | _ => no_shape end) (λ _, True).

(** [safe_uint64] *)
Definition jsafe : jcodec Z :=
  JCodec Z JSafe VInteger (λ v, match v with VInteger z => Ok z | _ => no_shape end) (λ _, True).

Definition jstring : jcodec string :=
  JCodec string JString (λ s, VBytes (chars s)) (λ v, match v with VBytes l => Ok (char_list l) | _ => no_shape end)
    (λ _, True).

(** A hash, a key or a key image. *)
Definition jkey : jcodec Z :=
  JCodec Z (JBlob 32) (λ z, VBytes (Msgpack.be_split 32 z))
    (λ v, match v with VBytes l => Ok (Msgpack.be_combine l) | _ => no_shape end) (λ z, 0 <= z < 2 ^ 256).

Definition jlist (min_size : Z) (max_count : option Z) {A} (c : jcodec A) : jcodec (list A) :=
  JCodec (list A) (JArray min_size max_count (jc_type c)) (λ l, VArray (map (jc_to c) l))
    (λ v, match v with VArray l => mapM (jc_of c) l | _ => no_shape end) (Forall (jc_ok c)).

(** The fields of an object. *)
Definition jfield (name : string) {A} (c : jcodec A) : field_spec * json_type :=
  (FieldSpec (chars name) 0 Required, jc_type c).
Definition joptional (name : string) {A} (c : jcodec A) : field_spec * json_type :=
  (FieldSpec (chars name) 0 Optional, jc_type c).
Definition jdefaulted (name : string) {A} (c : jcodec A) (default_ : A) : field_spec * json_type :=
  (FieldSpec (chars name) 0 (Defaulted (jc_to c default_)), jc_type c).

Definition need {A} (c : jcodec A) (v : option value) : expect A :=
  match v with Some v => jc_of c v | None => no_shape end.

Definition maybe {A} (c : jcodec A) (v : option value) : expect (option A) :=
  match v with Some v => a ← jc_of c v; Ok (Some a) | None => Ok None end.

(** [db::address_index] *)
Definition jindex : jcodec address_index :=
  JCodec address_index (JObject [jfield "maj_i" (juint 4); jfield "min_i" (juint 4)])
    (λ i, VObject [Some (VInteger (maj_i i)); Some (VInteger (min_i i))])
    (λ v, match v with
          | VObject [major; minor] =>
            major ← need (juint 4) major; minor ← need (juint 4) minor; Ok (AddressIndex major minor)
          | _ => no_shape
          end) (λ _, True).

(** [db::index_range], a [std::array] *)
Definition jrange : jcodec index_range :=
  JCodec index_range (JFixed 2 (JUint 4)) (λ r, VArray [VInteger r.1; VInteger r.2])
    (λ v, match v with VArray [VInteger a; VInteger b] => Ok (a, b) | _ => no_shape end) (λ _, True).

(** [map_subaddress_dict] *)
Definition jdict_object : jcodec subaddress_dict :=
  JCodec subaddress_dict
    (JObject [jfield "key" (juint 4); jdefaulted "value" (jlist 2 None jrange) []])
    (λ d, VObject [Some (VInteger d.1); Some (jc_to (jlist 2 None jrange) d.2)])
    (λ v, match v with
          | VObject [key; value] =>
            key ← need (juint 4) key; value ← need (jlist 2 None jrange) value; Ok (key, value)
          | _ => no_shape
          end) (λ _, True).

Definition dict_checked (v : value) : bool :=
  match jc_of jdict_object v with Ok d => check_subaddress_dict d | Err _ => false end.

(** [read_bytes] of a [db::subaddress_dict] *)
Definition jdict : jcodec subaddress_dict :=
  JCodec subaddress_dict (JChecked dict_checked schema_array (jc_type jdict_object)) (jc_to jdict_object)
    (jc_of jdict_object) (λ d, check_subaddress_dict d = true).

(** ** Requests *)

Section requests.
Context `{T : AddressText}.

(** [convert_address] *)
Definition convert_address (source : string) : expect account_address :=
  match address_of_string source with
  | Some address => Ok address
  | None => Err (schema schema_fixed_binary)
  end.

(** The credentials most requests begin with. *)
Definition creds_fields : list (field_spec * json_type) := [jfield "address" jstring; jfield "view_key" jkey].

Definition creds_to (c : account_credentials) : list (option value) :=
  [Some (jc_to jstring (string_of_address (cr_address c))); Some (jc_to jkey (cr_key c))].

(** The address and the view key of an object, once all its fields were read. *)
Definition creds_of (address view_key : option value) : expect account_credentials :=
  address ← need jstring address;
  key ← need jkey view_key;
  address ← convert_address address;
  Ok (AccountCredentials address key).

Definition creds_ok (c : account_credentials) : Prop :=
  address_of_string (string_of_address (cr_address c)) = Some (cr_address c) ∧ jc_ok jkey (cr_key c).

Definition jcredentials : jcodec account_credentials :=
  JCodec account_credentials (JObject creds_fields) (λ c, VObject (creds_to c))
    (λ v, match v with VObject [address; key] => creds_of address key | _ => no_shape end) creds_ok.

Definition no_index : address_index := AddressIndex 0 0.

Definition jlogin : jcodec login_request :=
  JCodec login_request
    (JObject (creds_fields ++ [jdefaulted "lookahead" jindex no_index; jfield "create_account" jbool;
                               jfield "generated_locally" jbool]))
    (λ r, VObject (creds_to (lr_creds r) ++
      [Some (jc_to jindex (lr_lookahead r)); Some (VBool (lr_create_account r)); Some (VBool (lr_generated_locally r))]))
    (λ v, match v with
          | VObject [address; key; lookahead; creating; generated] =>
            lookahead ← need jindex lookahead; creating ← need jbool creating; generated ← need jbool generated;
            creds ← creds_of address key;
            Ok (LoginRequest creds lookahead creating generated)
          | _ => no_shape
          end) (λ r, creds_ok (lr_creds r)).

Definition jimport : jcodec import_wallet_request :=
  JCodec import_wallet_request
    (JObject (creds_fields ++ [jdefaulted "from_height" (juint 8) 0; jdefaulted "lookahead" jindex no_index]))
    (λ r, VObject (creds_to (iw_creds r) ++ [Some (VInteger (iw_from_height r)); Some (jc_to jindex (iw_lookahead r))]))
    (λ v, match v with
          | VObject [address; key; height; lookahead] =>
            height ← need (juint 8) height; lookahead ← need jindex lookahead;
            creds ← creds_of address key;
            Ok (ImportWalletRequest creds height lookahead)
          | _ => no_shape
          end) (λ r, creds_ok (iw_creds r)).

Definition junspent : jcodec get_unspent_outs_request :=
  JCodec get_unspent_outs_request
    (JObject (creds_fields ++ [jfield "amount" jsafe; joptional "mixin" (juint 4); joptional "use_dust" jbool;
                               joptional "dust_threshold" jsafe]))
    (λ r, VObject (creds_to (uo_creds r) ++
      [Some (VInteger (uo_amount r)); VInteger <$> uo_mixin r; VBool <$> uo_use_dust r; VInteger <$> uo_dust_threshold r]))
    (λ v, match v with
          | VObject [address; key; amount; mixin; dust; threshold] =>
            amount ← need jsafe amount; mixin ← maybe (juint 4) mixin; dust ← maybe jbool dust;
            threshold ← maybe jsafe threshold;
            creds ← creds_of address key;
            Ok (UnspentRequest creds amount mixin dust threshold)
          | _ => no_shape
          end) (λ r, creds_ok (uo_creds r)).

(** [safe_uint64_array] *)
Definition jamounts : jcodec (list Z) := jlist 0 None jsafe.

Definition jrandom : jcodec get_random_outs_request :=
  JCodec get_random_outs_request (JObject [jfield "count" (juint 8); jfield "amounts" jamounts])
    (λ r, VObject [Some (VInteger (rq_count r)); Some (jc_to jamounts (rq_amounts r))])
    (λ v, match v with
          | VObject [count; amounts] =>
            count ← need (juint 8) count; amounts ← need jamounts amounts; Ok (RandomRequest count amounts)
          | _ => no_shape
          end) (λ _, True).

Definition opt_ok {A} (c : jcodec A) (o : option A) : Prop := match o with Some a => jc_ok c a | None => True end.

Definition jkey_image : jcodec import_key_image :=
  JCodec import_key_image
    (JObject [jfield "key_image" jkey; joptional "output_index" jsafe; joptional "amount" jsafe;
              joptional "global_index" jsafe; joptional "tx_hash" jkey; joptional "public_key" jkey])
    (λ r, VObject [Some (jc_to jkey (ik_key_image r)); VInteger <$> ik_output_index r; VInteger <$> ik_amount r;
                   VInteger <$> ik_global_index r; jc_to jkey <$> ik_tx_hash r; jc_to jkey <$> ik_public_key r])
    (λ v, match v with
          | VObject [image; index; amount; global; hash; pub] =>
            image ← need jkey image; index ← maybe jsafe index; amount ← maybe jsafe amount;
            global ← maybe jsafe global; hash ← maybe jkey hash; pub ← maybe jkey pub;
            Ok (ImportKeyImage image index amount global hash pub)
          | _ => no_shape
          end)
    (λ r, jc_ok jkey (ik_key_image r) ∧ opt_ok jkey (ik_tx_hash r) ∧ opt_ok jkey (ik_public_key r)).

Definition max_key_images : Z := 1024.

Definition jkey_images : jcodec (account_credentials * list import_key_image) :=
  let images := jlist 0 (Some max_key_images) jkey_image in
  JCodec _ (JObject (creds_fields ++ [jdefaulted "key_images" images []]))
    (λ r, VObject (creds_to r.1 ++ [Some (jc_to images r.2)]))
    (λ v, match v with
          | VObject [address; key; l] => l ← need images l; creds ← creds_of address key; Ok (creds, l)
          | _ => no_shape
          end) (λ r, creds_ok r.1 ∧ jc_ok images r.2).

Definition jprovision : jcodec provision_subaddrs_request :=
  JCodec provision_subaddrs_request
    (JObject (creds_fields ++ [joptional "maj_i" (juint 4); joptional "min_i" (juint 4); joptional "n_maj" (juint 4);
                               joptional "n_min" (juint 4); joptional "get_all" jbool]))
    (λ r, VObject (creds_to (ps_creds r) ++ [VInteger <$> ps_maj_i r; VInteger <$> ps_min_i r; VInteger <$> ps_n_maj r;
                                             VInteger <$> ps_n_min r; VBool <$> ps_get_all r]))
    (λ v, match v with
          | VObject [address; key; major; minor; n_major; n_minor; get_all] =>
            major ← maybe (juint 4) major; minor ← maybe (juint 4) minor; n_major ← maybe (juint 4) n_major;
            n_minor ← maybe (juint 4) n_minor; get_all ← maybe jbool get_all;
            creds ← creds_of address key;
            Ok (ProvisionSubaddrsRequest creds major minor n_major n_minor get_all)
          | _ => no_shape
          end) (λ r, creds_ok (ps_creds r)).

Definition max_subaddrs : Z := 16384.

Definition jupsert : jcodec upsert_subaddrs_request :=
  let subaddrs := jlist 0 (Some max_subaddrs) jdict in
  JCodec upsert_subaddrs_request
    (JObject (creds_fields ++ [jdefaulted "subaddrs" subaddrs []; joptional "get_all" jbool]))
    (λ r, VObject (creds_to (us_creds r) ++ [Some (jc_to subaddrs (us_subaddrs r)); VBool <$> us_get_all r]))
    (λ v, match v with
          | VObject [address; key; l; get_all] =>
            l ← need subaddrs l; get_all ← maybe jbool get_all; creds ← creds_of address key;
            Ok (UpsertSubaddrsRequest creds l get_all)
          | _ => no_shape
          end) (λ r, creds_ok (us_creds r) ∧ jc_ok subaddrs (us_subaddrs r)).

Definition jpending : jcodec pending_spent_output :=
  JCodec pending_spent_output
    (JObject [jfield "amount" jsafe; jfield "global_index" jsafe; jfield "out_index" (juint 4); jfield "tx_hash" jkey;
              jfield "public_key" jkey])
    (λ r, VObject [Some (VInteger (po_amount r)); Some (VInteger (po_global_index r)); Some (VInteger (po_out_index r));
                   Some (jc_to jkey (po_tx_hash r)); Some (jc_to jkey (po_public_key r))])
    (λ v, match v with
          | VObject [amount; global; index; hash; pub] =>
            amount ← need jsafe amount; global ← need jsafe global; index ← need (juint 4) index;
            hash ← need jkey hash; pub ← need jkey pub;
            Ok (PendingSpentOutput amount global index hash pub)
          | _ => no_shape
          end) (λ r, jc_ok jkey (po_tx_hash r) ∧ jc_ok jkey (po_public_key r)).

Definition max_pending_spent_outputs : Z := 256.

Definition jpendings : jcodec (list pending_spent_output) := jlist 0 (Some max_pending_spent_outputs) jpending.

(** Who spends, when outputs are said to be spent: then both strings are needed. *)
Definition submit_creds (address view_key : option string) : expect account_credentials :=
  match address, view_key with
  | Some address, Some view_key =>
    address ← convert_address address;
    match hex_to_key view_key with
    | Some key => Ok (AccountCredentials address key)
    | None => Err (schema schema_fixed_binary)
    end
  | _, _ => Err (schema schema_missing_key)
  end.

(** How a wallet writes a key for it. *)
Context (key_to_hex : Z → string).

Definition jsubmit : jcodec submit_raw_tx_request :=
  JCodec submit_raw_tx_request
    (JObject [jfield "tx" jstring; joptional "address" jstring; joptional "view_key" jstring;
              jdefaulted "pending_spent_outputs" jpendings []])
    (λ r, VObject [Some (jc_to jstring (sr_tx r));
                   (λ c, jc_to jstring (string_of_address (cr_address c))) <$> sr_creds r;
                   (λ c, jc_to jstring (key_to_hex (cr_key c))) <$> sr_creds r;
                   Some (jc_to jpendings (sr_pending_spent_outputs r))])
    (λ v, match v with
          | VObject [tx; address; view_key; l] =>
            tx ← need jstring tx; address ← maybe jstring address; view_key ← maybe jstring view_key;
            l ← need jpendings l;
            if bool_decide (l = []) then Ok (SubmitRequest tx None l)
            else creds ← submit_creds address view_key; Ok (SubmitRequest tx (Some creds) l)
          | _ => no_shape
          end)
    (λ r, jc_ok jpendings (sr_pending_spent_outputs r) ∧
      match sr_creds r with
      | Some c => sr_pending_spent_outputs r ≠ [] ∧ hex_to_key (key_to_hex (cr_key c)) = Some (cr_key c) ∧
          address_of_string (string_of_address (cr_address c)) = Some (cr_address c)
      | None => sr_pending_spent_outputs r = []
      end).

End requests.

(** ** Requests of multisig wallets (rpc/multisig.cpp) *)

Definition jregister_tx : jcodec multisig_register_tx_request :=
  JCodec multisig_register_tx_request
    (JObject [jfield "multisig_address" jstring; jfield "tx_hash" jstring; jfield "tx_key" jstring;
              jfield "context" jstring])
    (λ r, VObject [Some (jc_to jstring (rt_multisig_address r)); Some (jc_to jstring (rt_tx_hash r));
                   Some (jc_to jstring (rt_tx_key r)); Some (jc_to jstring (rt_context r))])
    (λ v, match v with
          | VObject [address; hash; key; context] =>
            address ← need jstring address; hash ← need jstring hash; key ← need jstring key;
            context ← need jstring context;
            Ok (RegisterTxRequest address hash key context)
          | _ => no_shape
          end) (λ _, True).

(** [multisig_balance_request] and [multisig_transactions_request] *)
Definition jmultisig_address : jcodec string :=
  JCodec string (JObject [jfield "multisig_address" jstring]) (λ s, VObject [Some (jc_to jstring s)])
    (λ v, match v with VObject [address] => need jstring address | _ => no_shape end) (λ _, True).

Definition max_rpc_participants : Z := 8.
Definition jparticipants : jcodec (list string) := jlist 0 (Some max_rpc_participants) jstring.

Definition jregister_wallet : jcodec multisig_wallet_record :=
  JCodec multisig_wallet_record
    (JObject [jfield "wallet_id" jstring; jfield "address" jstring; jfield "context" jstring;
              jfield "threshold" (juint 4); jfield "total" (juint 4); jdefaulted "participants" jparticipants [];
              jfield "status" jstring; jfield "created_at" (juint 8)])
    (λ r, VObject [Some (jc_to jstring (mw_wallet_id r)); Some (jc_to jstring (mw_address r));
                   Some (jc_to jstring (mw_context r)); Some (VInteger (mw_threshold r)); Some (VInteger (mw_total r));
                   Some (jc_to jparticipants (mw_participants r)); Some (jc_to jstring (mw_status r));
                   Some (VInteger (mw_created_at r))])
    (λ v, match v with
          | VObject [id; address; context; threshold; total; l; status; created] =>
            id ← need jstring id; address ← need jstring address; context ← need jstring context;
            threshold ← need (juint 4) threshold; total ← need (juint 4) total; l ← need jparticipants l;
            status ← need jstring status; created ← need (juint 8) created;
            Ok (MultisigWalletRecord id address context threshold total l status created)
          | _ => no_shape
          end) (λ _, True).

Definition jkex_submit : jcodec multisig_kex_submit_request :=
  JCodec multisig_kex_submit_request
    (JObject [jdefaulted "wallet_id" jstring ""; jfield "context" jstring; jfield "participant" jstring;
              jfield "multisig_info" jstring; jdefaulted "round" (juint 4) 1; jdefaulted "threshold" (juint 4) 2;
              jdefaulted "total" (juint 4) 3; jdefaulted "created_at" (juint 8) 0; jdefaulted "auth_token" jstring ""])
    (λ r, VObject [Some (jc_to jstring (sub_wallet_id r)); Some (jc_to jstring (sub_context r));
                   Some (jc_to jstring (sub_participant r)); Some (jc_to jstring (sub_multisig_info r));
                   Some (VInteger (sub_round r)); Some (VInteger (sub_threshold r)); Some (VInteger (sub_total r));
                   Some (VInteger (sub_created_at r)); Some (jc_to jstring (sub_auth_token r))])
    (λ v, match v with
          | VObject [id; context; participant; info; round; threshold; total; created; token] =>
            id ← need jstring id; context ← need jstring context; participant ← need jstring participant;
            info ← need jstring info; round ← need (juint 4) round; threshold ← need (juint 4) threshold;
            total ← need (juint 4) total; created ← need (juint 8) created; token ← need jstring token;
            Ok (KexSubmitRequest id context participant info round threshold total created token)
          | _ => no_shape
          end) (λ _, True).

Definition jkex_status : jcodec multisig_kex_status_request :=
  JCodec multisig_kex_status_request (JObject [jfield "wallet_id" jstring; jdefaulted "context" jstring ""])
    (λ r, VObject [Some (jc_to jstring (st_wallet_id r)); Some (jc_to jstring (st_context r))])
    (λ v, match v with
          | VObject [id; context] =>
            id ← need jstring id; context ← need jstring context; Ok (KexStatusRequest id context)
          | _ => no_shape
          end) (λ _, True).

Definition jkex_finalize : jcodec multisig_kex_finalize_request :=
  JCodec multisig_kex_finalize_request
    (JObject [jfield "wallet_id" jstring; jfield "address" jstring; jfield "context" jstring;
              jdefaulted "status" jstring "active"])
    (λ r, VObject [Some (jc_to jstring (fin_wallet_id r)); Some (jc_to jstring (fin_address r));
                   Some (jc_to jstring (fin_context r)); Some (jc_to jstring (fin_status r))])
    (λ v, match v with
          | VObject [id; address; context; status] =>
            id ← need jstring id; address ← need jstring address; context ← need jstring context;
            status ← need jstring status;
            Ok (KexFinalizeRequest id address context status)
          | _ => no_shape
          end) (λ _, True).

Section txset_requests.
Context `{T : AddressText}.

(** The last four fields are read, and no handler uses them. *)
Definition jtxset_register : jcodec multisig_txset_register_request :=
  JCodec multisig_txset_register_request
    (JObject (creds_fields ++
      [jfield "wallet_id" jstring; jfield "multisig_address" jstring; jfield "tx_data_hex" jstring;
       jfield "miner_address" jstring; jfield "purpose" jstring; jdefaulted "unstake_amount" jstring "";
       jdefaulted "current_stake" jstring ""; jdefaulted "remaining_stake" jstring "";
       jdefaulted "unlock_height" (juint 8) 0]))
    (λ r, VObject (creds_to (xr_creds r) ++
      [Some (jc_to jstring (xr_wallet_id r)); Some (jc_to jstring (xr_multisig_address r));
       Some (jc_to jstring (xr_tx_data_hex r)); Some (jc_to jstring (xr_miner_address r));
       Some (jc_to jstring (xr_purpose r)); Some (jc_to jstring ""); Some (jc_to jstring ""); Some (jc_to jstring "");
       Some (VInteger 0)]))
    (λ v, match v with
          | VObject [address; key; id; multisig; data; miner; purpose; _; _; _; _] =>
            id ← need jstring id; multisig ← need jstring multisig; data ← need jstring data;
            miner ← need jstring miner; purpose ← need jstring purpose;
            creds ← creds_of address key;
            Ok (TxsetRegisterRequest creds id multisig data miner purpose)
          | _ => no_shape
          end) (λ r, creds_ok (xr_creds r)).

Definition max_txset_hashes : Z := 8.

(** No handler uses the list of hashes. *)
Definition jtxset_signature : jcodec multisig_txset_signature_request :=
  let hashes := jlist 0 (Some max_txset_hashes) jstring in
  JCodec multisig_txset_signature_request
    (JObject (creds_fields ++
      [jfield "wallet_id" jstring; jfield "txset_id" jstring; jfield "multisig_address" jstring;
       jfield "signer_address" jstring; jfield "signer_role" jstring; jfield "signed_tx_data_hex" jstring;
       jdefaulted "tx_hash_list" hashes []]))
    (λ r, VObject (creds_to (xs_creds r) ++
      [Some (jc_to jstring (xs_wallet_id r)); Some (jc_to jstring (xs_txset_id r));
       Some (jc_to jstring (xs_multisig_address r)); Some (jc_to jstring (xs_signer_address r));
       Some (jc_to jstring (xs_signer_role r)); Some (jc_to jstring (xs_signed_tx_data_hex r));
       Some (jc_to hashes [])]))
    (λ v, match v with
          | VObject [address; key; id; txset; multisig; signer; role; data; _] =>
            id ← need jstring id; txset ← need jstring txset; multisig ← need jstring multisig;
            signer ← need jstring signer; role ← need jstring role; data ← need jstring data;
            creds ← creds_of address key;
            Ok (TxsetSignatureRequest creds id txset multisig signer role data)
          | _ => no_shape
          end) (λ r, creds_ok (xs_creds r)).

Definition jtxset_submit : jcodec multisig_txset_submit_request :=
  JCodec multisig_txset_submit_request
    (JObject (creds_fields ++
      [jfield "wallet_id" jstring; jfield "txset_id" jstring; jfield "multisig_address" jstring]))
    (λ r, VObject (creds_to (xb_creds r) ++
      [Some (jc_to jstring (xb_wallet_id r)); Some (jc_to jstring (xb_txset_id r));
       Some (jc_to jstring (xb_multisig_address r))]))
    (λ v, match v with
          | VObject [address; key; id; txset; multisig] =>
            id ← need jstring id; txset ← need jstring txset; multisig ← need jstring multisig;
            creds ← creds_of address key;
            Ok (TxsetSubmitRequest creds id txset multisig)
          | _ => no_shape
          end) (λ r, creds_ok (xb_creds r)).

End txset_requests.

(** ** The codecs keep their promises *)

Lemma converts_ok {A} (a : A) : converts (Ok a).
Proof. done. Qed.

Lemma converts_bind {A B} (x : expect A) (f : A → expect B) :
  converts x → (∀ a, converts (f a)) → converts (x ≫= f).
Proof. destruct x as [a|e]; cbn; auto. Qed.

Lemma converts_mapM {A} (f : value → expect A) l : Forall (λ v, converts (f v)) l → converts (mapM f l).
Proof.
  induction 1 as [|v l Hv _ IH]; cbn; [done|]. apply converts_bind; [done|]. intros a.
  by apply converts_bind.
Qed.

(** An object of a type has its fields. *)
Lemma typed_object fields v : has_json_type (JObject fields) v = true →
  ∃ l, v = VObject l ∧ Forall2 (λ p v, field_has_type p.1 (has_json_type p.2) v = true) fields l.
Proof.
  destruct v as [| | | | |l]; try done. intros Hl. exists l. split; [done|]. cbn [has_json_type] in Hl. revert l Hl.
  induction fields as [|[f t] fields IH]; intros [|v l] Hl; try done.
  cbn [map fields_have_types] in Hl. apply andb_prop in Hl as [Hv Hl]. constructor; [exact Hv|by apply IH].
Qed.

Lemma converts_need {A} (c : jcodec A) `{!JCodecLaws c} f v :
  f_presence f ≠ Optional → field_has_type f (has_json_type (jc_type c)) v = true → converts (need c v).
Proof.
  intros Hf. unfold field_has_type. destruct v as [v|]; cbn; [apply jc_converts|]. by destruct (f_presence f).
Qed.

Lemma converts_maybe {A} (c : jcodec A) `{!JCodecLaws c} f v :
  field_has_type f (has_json_type (jc_type c)) v = true → converts (maybe c v).
Proof.
  unfold field_has_type. destruct v as [v|]; cbn; [|done]. intros Hv. apply converts_bind; [by apply jc_converts|done].
Qed.

(** An object is taken apart, and its fields are converted in turn. *)
Ltac take_fields :=
  let Hv := fresh "Hv" in
  intros ? Hv; apply typed_object in Hv as (? & -> & Hv); unfold creds_fields in Hv; cbn [app] in Hv;
  repeat (apply Forall2_cons_inv_l in Hv as (? & ? & ? & Hv & ->));
  apply Forall2_nil_inv_l in Hv as ->;
  lazymatch goal with
  | |- converts (jc_of ?c _) => let c' := eval hnf in c in change c with c'; cbn [jc_of]
  end.

Ltac convert_fields :=
  repeat first
    [ done
    | apply converts_bind; [first [eapply converts_need; [apply _| |eassumption]; discriminate | eapply converts_maybe; [apply _|eassumption]]|intros ?] ].

Lemma char_list_chars s : char_list (chars s) = s.
Proof.
  unfold char_list, chars. rewrite map_map. rewrite <-(String.string_of_list_ascii_of_string s) at 2. f_equal.
  induction (String.list_ascii_of_string s) as [|a l IH]; cbn; [done|].
  by rewrite N2Z.id, Ascii.ascii_N_embedding, IH.
Qed.

#[export] Instance jbool_laws : JCodecLaws jbool.
Proof. split; [done|by intros []|done]. Qed.
#[export] Instance juint_laws n : JCodecLaws (juint n).
Proof. split; [done|by intros []|done]. Qed.
#[export] Instance jsafe_laws : JCodecLaws jsafe.
Proof. split; [done|by intros []|done]. Qed.
#[export] Instance jstring_laws : JCodecLaws jstring.
Proof. split; [done|by intros []|]. intros s _. cbn. by rewrite char_list_chars. Qed.
#[export] Instance jkey_laws : JCodecLaws jkey.
Proof.
  split; [done|by intros []|]. intros z Hz. cbn -[Msgpack.be_split]. f_equal.
  by apply Msgpack.be_combine_split.
Qed.

Lemma jlist_laws {A} (c : jcodec A) min_size max_count : JCodecLaws c → json_depth (jc_type c) < 99 →
  JCodecLaws (jlist min_size max_count c).
Proof.
  intros Hc Hd. split.
  - split; [exact (proj1 (jc_readable (c := c)))|cbn; lia].
  - intros v Hv. destruct v as [| | | |l|]; try done. cbn in *. apply andb_prop in Hv as [Hl _].
    apply converts_mapM. apply Is_true_true_2, forallb_True in Hl.
    eapply Forall_impl; [exact Hl|]. intros v Hv%Is_true_true. by apply jc_converts.
  - cbn. induction 1 as [|a l Ha _ IH]; cbn; [done|]. by rewrite jc_of_to, IH.
Qed.

#[export] Instance jindex_laws : JCodecLaws jindex.
Proof. split; [done|take_fields; convert_fields|by intros []]. Qed.

#[export] Instance jrange_laws : JCodecLaws jrange.
Proof.
  split; [done| |by intros []]. intros v Hv. destruct v as [| | | |l|]; try done. cbn in Hv.
  apply andb_prop in Hv as [Hl Hn]. destruct l as [|a [|b [|? ?]]]; try done.
  cbn [forallb] in Hl. apply andb_prop in Hl as [Ha [Hb _]%andb_prop]. by destruct a, b.
Qed.

#[export] Instance jranges_laws : JCodecLaws (jlist 2 None jrange).
Proof. by apply jlist_laws; [apply _|]. Qed.

#[export] Instance jdict_object_laws : JCodecLaws jdict_object.
Proof.
  split; [done|take_fields; convert_fields|].
  intros [major ranges] _. cbn -[jlist]. by rewrite (jc_of_to (c := jlist 2 None jrange)) by (by apply Forall_true).
Qed.

#[export] Instance jdict_laws : JCodecLaws jdict.
Proof.
  split; [done| |].
  - intros v Hv. cbn [jc_type jdict has_json_type] in Hv. apply andb_prop in Hv as [Hv _].
    by apply (jc_converts (c := jdict_object)).
  - intros d _. by apply (jc_of_to (c := jdict_object)).
Qed.

Section laws.
Context `{T : AddressText}.

Lemma convert_address_converts s : converts (convert_address s).
Proof. unfold convert_address. by destruct (address_of_string s). Qed.

Lemma creds_of_converts f g address key :
  f_presence f ≠ Optional → field_has_type f (has_json_type (jc_type jstring)) address = true →
  f_presence g ≠ Optional → field_has_type g (has_json_type (jc_type jkey)) key = true →
  converts (creds_of address key).
Proof.
  intros. unfold creds_of. apply converts_bind; [by apply (converts_need jstring f)|intros a].
  apply converts_bind; [by apply (converts_need jkey g)|intros k].
  apply converts_bind; [apply convert_address_converts|done].
Qed.

Lemma creds_of_to c : creds_ok c →
  creds_of (Some (jc_to jstring (string_of_address (cr_address c)))) (Some (jc_to jkey (cr_key c))) = Ok c.
Proof.
  intros [Ha Hk]. unfold creds_of, need. rewrite jc_of_to by done. cbn [mbind expect_bind].
  rewrite jc_of_to by done. cbn [mbind expect_bind]. unfold convert_address. rewrite Ha. by destruct c.
Qed.

Ltac convert_creds := convert_fields;
  repeat (apply converts_bind; [eapply creds_of_converts; [|eassumption| |eassumption]; discriminate|intros ?; try done]).

#[export] Instance jcredentials_laws : JCodecLaws jcredentials.
Proof.
  split; [done| |intros c; apply creds_of_to]. take_fields.
  eapply creds_of_converts; [|eassumption| |eassumption]; discriminate.
Qed.

#[export] Instance jlogin_laws : JCodecLaws jlogin.
Proof.
  split; [done|take_fields; convert_creds|].
  intros [c [i j] create local] Hc. cbn -[jstring jkey creds_of]. by rewrite creds_of_to.
Qed.

#[export] Instance jimport_laws : JCodecLaws jimport.
Proof.
  split; [done|take_fields; convert_creds|].
  intros [c height [i j]] Hc. cbn -[jstring jkey creds_of]. by rewrite creds_of_to.
Qed.

#[export] Instance junspent_laws : JCodecLaws junspent.
Proof.
  split; [done|take_fields; convert_creds|].
  intros [c amount mixin dust threshold] Hc. cbn -[jstring jkey creds_of].
  destruct mixin, dust, threshold; cbn -[jstring jkey creds_of]; by rewrite creds_of_to.
Qed.

#[export] Instance jamounts_laws : JCodecLaws jamounts.
Proof. by apply jlist_laws; [apply _|]. Qed.

#[export] Instance jrandom_laws : JCodecLaws jrandom.
Proof.
  split; [done|take_fields; convert_fields|].
  intros [count amounts] _. cbn -[jamounts]. by rewrite (jc_of_to (c := jamounts)) by (by apply Forall_true).
Qed.

Lemma maybe_to {A} (c : jcodec A) `{!JCodecLaws c} o : opt_ok c o → maybe c (jc_to c <$> o) = Ok o.
Proof. destruct o as [a|]; cbn; [|done]. intros Ha. by rewrite jc_of_to. Qed.

#[export] Instance jkey_image_laws : JCodecLaws jkey_image.
Proof.
  split; [done|take_fields; convert_fields|].
  intros [image index amount global hash pub] (Hi & Hh & Hp). cbn [ik_key_image ik_tx_hash ik_public_key] in *.
  destruct index, amount, global, hash, pub; cbn -[jkey]; cbn [opt_ok] in *; by rewrite !(jc_of_to (c := jkey)) by done.
Qed.

#[export] Instance jkey_images_list_laws : JCodecLaws (jlist 0 (Some max_key_images) jkey_image).
Proof. by apply jlist_laws; [apply _|]. Qed.

#[export] Instance jkey_images_laws : JCodecLaws jkey_images.
Proof.
  split; [done|take_fields; convert_creds|].
  intros [c l] [Hc Hl]. cbn -[jstring jkey creds_of jlist]. cbn [fst snd] in *.
  rewrite (jc_of_to (c := jlist 0 (Some max_key_images) jkey_image)) by done. cbn -[jstring jkey creds_of jlist].
  by rewrite creds_of_to.
Qed.

#[export] Instance jprovision_laws : JCodecLaws jprovision.
Proof.
  split; [done|take_fields; convert_creds|].
  intros [c major minor n_major n_minor all] Hc. cbn -[jstring jkey creds_of].
  destruct major, minor, n_major, n_minor, all; cbn -[jstring jkey creds_of]; by rewrite creds_of_to.
Qed.

#[export] Instance jsubaddrs_laws : JCodecLaws (jlist 0 (Some max_subaddrs) jdict).
Proof. by apply jlist_laws; [apply _|]. Qed.

#[export] Instance jupsert_laws : JCodecLaws jupsert.
Proof.
  split; [done|take_fields; convert_creds|].
  intros [c l all] [Hc Hl]. cbn -[jstring jkey creds_of jlist]. cbn [us_creds us_subaddrs] in *.
  rewrite (jc_of_to (c := jlist 0 (Some max_subaddrs) jdict)) by done. cbn -[jstring jkey creds_of jlist].
  destruct all; cbn -[jstring jkey creds_of jlist]; by rewrite creds_of_to.
Qed.

#[export] Instance jpending_laws : JCodecLaws jpending.
Proof.
  split; [done|take_fields; convert_fields|].
  intros [amount global index hash pub] [Hh Hp]. cbn -[jkey]. cbn [po_tx_hash po_public_key] in *.
  by rewrite !(jc_of_to (c := jkey)) by done.
Qed.

#[export] Instance jpendings_laws : JCodecLaws jpendings.
Proof. by apply jlist_laws; [apply _|]. Qed.

Lemma submit_creds_converts address key : converts (submit_creds address key).
Proof.
  unfold submit_creds. destruct address as [a|], key as [k|]; try done.
  apply converts_bind; [apply convert_address_converts|]. intros address. by destruct (hex_to_key k).
Qed.

#[export] Instance jsubmit_laws key_to_hex : JCodecLaws (jsubmit key_to_hex).
Proof.
  split; [done|take_fields; convert_fields|].
  - destruct (bool_decide _); [done|]. apply converts_bind; [apply submit_creds_converts|done].
  - intros [tx creds l] [Hl Hc]. cbn -[jstring jpendings maybe]. cbn [sr_creds sr_pending_spent_outputs sr_tx] in *.
    rewrite (jc_of_to (c := jstring)) by done. cbn -[jstring jpendings maybe].
    destruct creds as [c|]; cbn -[jstring jpendings].
    + rewrite !(jc_of_to (c := jstring)) by done. cbn -[jstring jpendings].
      rewrite (jc_of_to (c := jpendings)) by done. cbn -[jstring jpendings]. destruct Hc as (Hne & Hk & Ha).
      rewrite bool_decide_eq_false_2 by done. unfold submit_creds, convert_address. rewrite Ha. cbn. rewrite Hk. by destruct c.
    + rewrite (jc_of_to (c := jpendings)) by done. cbn. by rewrite Hc.
Qed.

Ltac convert_strings := rewrite ?(jc_of_to (c := jstring)) by done; cbn -[jstring jkey creds_of jlist jparticipants].

#[export] Instance jregister_tx_laws : JCodecLaws jregister_tx.
Proof. split; [done|take_fields; convert_fields|]. intros [? ? ? ?] _. cbn -[jstring]. by convert_strings. Qed.

#[export] Instance jmultisig_address_laws : JCodecLaws jmultisig_address.
Proof.
  split; [done|take_fields; eapply converts_need; [apply _| |eassumption]; discriminate|].
  intros s _. cbn -[jstring]. by convert_strings.
Qed.

#[export] Instance jparticipants_laws : JCodecLaws jparticipants.
Proof. by apply jlist_laws; [apply _|]. Qed.

#[export] Instance jregister_wallet_laws : JCodecLaws jregister_wallet.
Proof.
  split; [done|take_fields; convert_fields|]. intros [? ? ? ? ? l ? ?] _. cbn -[jstring jparticipants]. convert_strings.
  rewrite (jc_of_to (c := jparticipants)) by (by apply Forall_true). cbn -[jstring]. by convert_strings.
Qed.

#[export] Instance jkex_submit_laws : JCodecLaws jkex_submit.
Proof. split; [done|take_fields; convert_fields|]. intros [] _. cbn -[jstring]. by convert_strings. Qed.

#[export] Instance jkex_status_laws : JCodecLaws jkex_status.
Proof. split; [done|take_fields; convert_fields|]. intros [] _. cbn -[jstring]. by convert_strings. Qed.

#[export] Instance jkex_finalize_laws : JCodecLaws jkex_finalize.
Proof. split; [done|take_fields; convert_fields|]. intros [] _. cbn -[jstring]. by convert_strings. Qed.

#[export] Instance jtxset_register_laws : JCodecLaws jtxset_register.
Proof.
  split; [done|take_fields; convert_creds|]. intros [c ? ? ? ? ?] Hc. cbn -[jstring jkey creds_of]. convert_strings.
  by rewrite creds_of_to.
Qed.

#[export] Instance jtxset_signature_laws : JCodecLaws jtxset_signature.
Proof.
  split; [done|take_fields; convert_creds|]. intros [c ? ? ? ? ? ?] Hc. cbn -[jstring jkey creds_of]. convert_strings.
  by rewrite creds_of_to.
Qed.

#[export] Instance jtxset_submit_laws : JCodecLaws jtxset_submit.
Proof.
  split; [done|take_fields; convert_creds|]. intros [c ? ? ?] Hc. cbn -[jstring jkey creds_of]. convert_strings.
  by rewrite creds_of_to.
Qed.

End laws.

(** ** Reading a request *)

Section reading.
Context `{J : JsonLibrary}.

(** [read_bytes] of a request *)
Definition read_request {A} (c : jcodec A) : jreading A := v ← json_read (jc_type c); jlift (jc_of c v).

(** [wire::json::from_bytes] of a request *)
Definition request_of {A} (c : jcodec A) (body : list Z) : expect A := json_from_bytes (read_request c) body.

End reading.

Section readings.
Context `{J : JsonLaws}.

End readings.

Section texts.
Context `{J : JsonTexts}.

Lemma request_of_text {A} (c : jcodec A) `{!JCodecLaws c} v a w s rest :
  json_text (jc_type c) v s → jc_of c v = Ok a → blank w → ends rest → request_of c (w ++ s ++ rest) = Ok a.
Proof.
  intros Ht Ha Hw Hr. destruct (jc_readable (c := c)) as [_ Hd]. unfold request_of, read_request, json_from_bytes.
  pose proof (json_text_reads _ v s Ht w rest 0 Hw Hr ltac:(lia) Hd) as Hread.
  unfold mbind, jreading_bind. rewrite Hread. unfold jlift. by rewrite Ha.
Qed.

(** Whatever JSON text a wallet writes for a request, with blanks between its
    tokens, its members in any order and others beside them, the handler gets that
    request.  This holds for each request of [light_wallet.cpp] and [multisig.cpp],
    whose codecs have the laws. *)
Theorem requests_read {A} (c : jcodec A) (Hc : JCodecLaws c) a w s rest :
  jc_ok c a → json_text (jc_type c) (jc_to c a) s → blank w → ends rest → request_of c (w ++ s ++ rest) = Ok a.
Proof. intros Ha Ht. apply (request_of_text c (jc_to c a)); [done|by apply jc_of_to]. Qed.
End texts.

(** ** From the text of a request to its handler *)

Record account_endpoint `{AddressText} := AccountEndpoint {
  ae_request : Type;
  ae_codec : jcodec ae_request;
  ae_to : ae_request → client_request;
  ae_laws : JCodecLaws ae_codec }.

Section serving.
Context `{T : AddressText} `{J : JsonLibrary} `{L : Lmdb} `{Crypto}.
Context (options : runtime_options) (create_queue_max : Z) (fuel : nat) (now later : Z).

(** The request of an endpoint that works on accounts. *)
Definition account_endpoint_of (h : rest_call) : option account_endpoint :=
  match h with
  | get_subaddrs => Some (AccountEndpoint _ _ jcredentials req_get_subaddrs _)
  | import_key_images => Some (AccountEndpoint _ _ jkey_images (λ r, req_key_images r.1 r.2) _)
  | import_request => Some (AccountEndpoint _ _ jimport (req_import now later) _)
  | login => Some (AccountEndpoint _ _ jlogin (req_login now later) _)
  | provision_subaddrs => Some (AccountEndpoint _ _ jprovision req_provision _)
  | request_rescan => Some (AccountEndpoint _ _ jcredentials req_rescan _)
  | upsert_subaddrs => Some (AccountEndpoint _ _ jupsert req_upsert _)
  | _ => None
  end.

(** [call] of such an endpoint; what it answers is not looked at. *)
Definition account_call (e : account_endpoint) (method : verb) (body : string) : handler unit :=
  Endpoints.call method (request_of (ae_codec e) (chars body))
    (λ r, handle options create_queue_max fuel (ae_to e r)).

(** [rapidjson_category] *)
Definition is_json (e : error) : bool := match e with json _ => true | _ => false end.

(** What the other endpoints run. *)
Context (other : rest_call → verb → string → handler unit).

Definition run_rest (h : rest_call) (method : verb) (body : string) : handler unit :=
  match account_endpoint_of h with
  | Some e => account_call e method body
  | None => other h method body
  end.

Definition serve_rest : internal → string → option Z → verb → string → world → http_response unit * world :=
  async_response is_json (λ _, false) run_rest.

(** The response to what a handler gives. *)
Definition respond (r : expect unit * world) : http_response unit * world :=
  match r.1 with
  | Ok out => (Respond http_ok (Some out), r.2)
  | Err e => (Respond (error_status is_json e) None, r.2)
  end.
End serving.

Section served.
Context `{T : AddressText} `{J : JsonTexts} `{L : Lmdb} `{Crypto}.
Context (options : runtime_options) (create_queue_max : Z) (fuel : nat) (now later : Z).
Context (other : rest_call → verb → string → handler unit).
#[local] Abbreviation serve := (serve_rest options create_queue_max fuel now later other).
#[local] Abbreviation handle_account ae r := (handle options create_queue_max fuel (ae_to ae r)).

(** What an endpoint of accounts does with a body it takes. *)
Lemma serve_account port target size body w e h ae :
  get_endpoint port target = Some e → ep_run e = Some h → account_endpoint_of now later h = Some ae →
  default u64_max size <= ep_max_size e →
  serve port target size verb_post body w =
    match request_of (ae_codec ae) (chars body) with
    | Ok r => respond (handle_account ae r w)
    | Err e => (Respond (error_status is_json e) None, w)
    end.
Proof.
  intros He Hh Hae Hsize. unfold serve_rest, async_response. rewrite He, Hh.
  rewrite (proj2 (Z.ltb_ge _ _)) by done. rewrite bool_decide_eq_false_2 by done. unfold run_rest. rewrite Hae.
  unfold account_call, call, require. rewrite bool_decide_eq_true_2 by done.
  unfold mbind, handler_bind, mret, handler_ret, reading. destruct (request_of _ _) as [r|e']; [|done].
  unfold respond. destruct (handle _ _ _ _ w) as [[out|e'] w']; cbn; [|done]. by rewrite orb_true_r.
Qed.

(** An endpoint of accounts is found by its name. *)
Lemma account_endpoint_found prefix e h ae :
  e ∈ endpoints → ep_run e = Some h → account_endpoint_of now later h = Some ae →
  get_endpoint (Internal (Some prefix) None) (prefix ++ ep_name e) = Some e.
Proof.
  intros He Hh Hae. unfold get_endpoint. cbn. rewrite strip_prefix_app. rewrite endpoints_search by done.
  case_bool_decide as Hlost; [|done]. exfalso.
  assert (ep_run e = Some multisig_kex_status) as Hs; [|rewrite Hh in Hs; by injection Hs as ->].
  clear Hh Hae. revert e He Hlost. apply (Forall_forall (λ e, ep_name e = lost_name → ep_run e = Some multisig_kex_status)).
  repeat (apply Forall_cons; split; [done|]). by apply Forall_nil.
Qed.

(** C8: The request that a wallet posts to an endpoint of accounts, under the prefix
    of the port, in any JSON text that is not longer than the endpoint allows, is
    what its handler works on, and is answered with what the handler gives. *)
Theorem requests_arrive prefix e h ae r w s rest size body world :
  e ∈ endpoints → ep_run e = Some h → account_endpoint_of now later h = Some ae →
  jc_ok (ae_codec ae) r → json_text (jc_type (ae_codec ae)) (jc_to (ae_codec ae) r) s → blank w → ends rest →
  chars body = w ++ s ++ rest → size <= ep_max_size e →
  serve (Internal (Some prefix) None) (prefix ++ ep_name e) (Some size) verb_post body world =
    respond (handle_account ae r world).
Proof.
  intros He Hh Hae Hr Hs Hw Hrest Hbody Hsize. pose proof (ae_laws ae).
  rewrite (serve_account _ _ _ _ _ e h ae); [|by eapply account_endpoint_found|done..|exact Hsize].
  rewrite Hbody, (request_of_text _ (jc_to (ae_codec ae) r) r); try done. by apply jc_of_to.
Qed.

End served.

Section answered.
Context `{T : AddressText} `{J : JsonLaws} `{L : Lmdb} `{Crypto}.
Context (options : runtime_options) (create_queue_max : Z) (fuel : nat) (now later : Z).
Context (other : rest_call → verb → string → handler unit).
#[local] Abbreviation serve := (serve_rest options create_queue_max fuel now later other).
#[local] Abbreviation handle_account ae r := (handle options create_queue_max fuel (ae_to ae r)).



End answered.

(** ** Whatever is posted *)

Section consistent.
Context `{T : AddressText} `{J : JsonLibrary} `{LL : LmdbLaws} `{C : ChainConfig} `{Crypto} `{UrlParser}.
Context (options : runtime_options) (create_queue_max : Z) (fuel : nat) (now later : Z).
Context (other : rest_call → verb → string → handler unit).
Context {F : Z → Prop} (wallet_flags : F default_account ∧ F account_generated_locally).
#[local] Abbreviation serve := (serve_rest options create_queue_max fuel now later other).
#[local] Abbreviation commits := (rtc (transaction true F)).

Lemma account_call_commits ae method body w :
  accounts_ok (w_disk w) →
  (∀ r, request_of (ae_codec ae) (chars body) = Ok r → safe_request options (ae_to ae r) (w_disk w)) →
  commits (w_disk w) (w_disk (account_call options create_queue_max fuel ae method body w).2).
Proof.
  intros Hok Hsafe. unfold account_call, call, require, mbind, handler_bind, mret, handler_ret, reading.
  destruct (bool_decide _); [|apply rtc_refl]. destruct (request_of _ _) as [r|e]; [|apply rtc_refl].
  apply (handle_steps options create_queue_max fuel wallet_flags true (ae_to ae r) w). intros _. by split; [|apply Hsafe].
Qed.

(** What is served is what one endpoint runs. *)
Lemma serve_runs port target size method body w :
  (serve port target size method body w).2 = w ∨
  ∃ e h, get_endpoint port target = Some e ∧ ep_run e = Some h ∧
    (serve port target size method body w).2 = (run_rest options create_queue_max fuel now later other h method body w).2.
Proof.
  unfold serve_rest, async_response. destruct (get_endpoint port target) as [e|]; [|by left].
  destruct (ep_run e) as [h|] eqn:Hh; [|by left]. destruct (_ <? _); [by left|]. case_bool_decide; [by left|].
  right. exists e, h. split; [done|]. split; [done|]. destruct (run_rest _ _ _ _ _ _ h method body w) as [[out|err] w'];
    [|done]. by destruct (_ || _).
Qed.
End consistent.

(** ** Examples *)

#[local] Existing Instance ListDb.lmdb.
#[local] Existing Instance test_crypto.
#[local] Existing Instance test_config.
#[local] Instance no_urls_here : UrlParser := {| parse_url _ := None |}.
#[local] Existing Instance test_text.

Definition key_digits (n : string) : string :=
  "00000000000000000000000000000000000000000000000000000000000000" ++ n.

Definition quoted (s : string) : list Z := [34] ++ chars s ++ [34].

(** [{"address":"multisig", "view_key":"00...06"}] *)
Definition rescan_text : list Z :=
  [123] ++ quoted "address" ++ [] ++ [58] ++ [] ++ quoted "multisig" ++
  ([] ++ [44] ++ [32]) ++ quoted "view_key" ++ [] ++ [58] ++ [] ++ quoted (key_digits "06") ++ ([] ++ [125]).

Definition rescan_body : string := char_list (rescan_text ++ chars " ...").

Lemma blank_nil : blank [].
Proof. by apply Forall_nil. Qed.
Lemma blank_space : blank [32].
Proof. apply Forall_cons. split; [by left|by apply Forall_nil]. Qed.

Lemma quoted_spells s : bool_decide (34 ∉ chars s) = true → forallb byteb (chars s) = true → spells [SaxString (chars s)] (quoted s).
Proof. intros Hs%bool_decide_eq_true Hb. by apply spells_string. Qed.

Lemma quoted_text s : bool_decide (34 ∉ chars s) = true → forallb byteb (chars s) = true →
  json_text JString (VBytes (chars s)) (quoted s).
Proof. intros. by apply text_string, quoted_spells. Qed.

Lemma quoted_key s z : bool_decide (34 ∉ chars s) = true → to_buffer 32 (chars s) = Some (Msgpack.be_split 32 z) →
  json_text (JBlob 32) (jc_to jkey z) (quoted s).
Proof. intros Hs%bool_decide_eq_true. by apply text_blob. Qed.

(** A member at the start of an object or after a comma and a space. *)
Lemma first_member fields name i f t v s es rest :
  fields !! i = Some (f, t) → spells [SaxString (f_name f)] name → json_text t v s →
  members_text false fields es rest →
  members_text true fields ((i, v) :: es) (name ++ [] ++ [58] ++ [] ++ s ++ rest).
Proof. intros. apply (members_known true _ [] [] _ [] [] i f t); eauto using blank_nil. Qed.

Lemma next_member fields name i f t v s es rest :
  fields !! i = Some (f, t) → spells [SaxString (f_name f)] name → json_text t v s →
  members_text false fields es rest →
  members_text false fields ((i, v) :: es) (([] ++ [44] ++ [32]) ++ name ++ [] ++ [58] ++ [] ++ s ++ rest).
Proof. intros. apply (members_known false _ [] [32] _ [] [] i f t); eauto using blank_nil, blank_space. Qed.

Lemma rescan_text_is : json_text (jc_type jcredentials) (jc_to jcredentials (creds 6)) rescan_text.
Proof.
  apply (text_object creds_fields [(0%nat, VBytes (chars "multisig")); (1%nat, jc_to jkey 6)]).
  - eapply first_member; [reflexivity|by apply (quoted_spells "address")|by apply (quoted_text "multisig")|].
    eapply next_member; [reflexivity|by apply (quoted_spells "view_key")|by apply quoted_key|apply members_end, blank_nil].
  - vm_compute. repeat constructor; set_solver.
  - vm_compute. repeat constructor; set_solver.
  - vm_compute. repeat constructor.
Qed.

Lemma creds_6_ok : creds_ok (creds 6).
Proof. split; [reflexivity|]. cbn. lia. Qed.

Lemma requests_read_witness :
  creds_ok (creds 6) ∧ request_of jcredentials ([] ++ rescan_text ++ chars " ...") = Ok (creds 6).
Proof.
  split; [exact creds_6_ok|].
  apply (requests_read jcredentials _ (creds 6) [] rescan_text (chars " ..."));
    [exact creds_6_ok|exact rescan_text_is|by apply Forall_nil|left; by left].
Defined.

Definition no_other : rest_call → verb → string → handler unit := λ _ _ _, mret tt.

Definition rescan_endpoint : endpoint := Endpoint "/request_rescan" (Some request_rescan) (2 * 1024) false.

Lemma rescan_endpoint_is : rescan_endpoint ∈ endpoints.
Proof. do 23 right. left. Qed.

Lemma requests_arrive_witness :
  serve_rest test_options 10 10 1000 1001 no_other (Internal (Some "/v1") None) "/v1/request_rescan" (Some 200)
    verb_post rescan_body (World account_db true) =
  respond (handle test_options 10 10 (req_rescan (creds 6)) (World account_db true)).
Proof.
  apply (requests_arrive test_options 10 10 1000 1001 no_other "/v1" rescan_endpoint request_rescan
    (AccountEndpoint _ _ jcredentials req_rescan _) (creds 6) [] rescan_text (chars " ...") 200);
    [exact rescan_endpoint_is|reflexivity|reflexivity|exact creds_6_ok|exact rescan_text_is|by apply Forall_nil
    |left; by left|reflexivity|vm_compute; discriminate].
Defined.

