(* ===== verification/Responses.v ===== *)
(** * The responses (src/src/rpc/light_wallet.cpp, rpc/multisig.cpp)

    What the handlers answer, as the JSON that is sent: a [writer] is the JSON type of a
    response, the object of it, and the range of its integers and strings.  Amounts are
    written as strings, since a double cannot hold them.

    Shown is that every response in range is sent as a complete document from which the
    receiver reads every field again ([responses_read]), and when one is not sent. *)

From S2P Require Import Prelude Data Wire Json JsonWrite MultisigStore Kex Scan Decoys Requests Balance Async Multisig Txsets Rpc.

(** ** Writers *)

Record writer (A : Type) := Writer {
  wt : json_type;
  wv : A → value;
  wok : A → Prop }.
Arguments Writer {A} _ _ _.
Arguments wt {A} _.
Arguments wv {A} _ _.
Arguments wok {A} _ _.

Record wfield (A : Type) := WField {
  wf_spec : field_spec;
  wf_type : json_type;
  wf_get : A → option value;
  wf_ok : A → Prop }.
Arguments WField {A} _ _ _ _.
Arguments wf_spec {A} _.
Arguments wf_type {A} _.
Arguments wf_get {A} _ _.
Arguments wf_ok {A} _ _.

Definition wbool : writer bool := Writer JBool VBool (λ _, True).
Definition wuint (n : nat) : writer Z := Writer (JUint n) VInteger (λ z, 0 <= z < 2 ^ (8 * Z.of_nat n) ∧ z <= u64_max).
(** [safe_uint64] *)
Definition wsafe : writer Z := Writer JSafe VInteger (λ z, 0 <= z <= u64_max).
Definition wbytes : writer (list Z) := Writer JBinary VBytes (λ l, forallb byteb l = true).
(** A hash, a key or a key image. *)
Definition wkey : writer Z := Writer (JBlob 32) (λ z, VBytes (Msgpack.be_split 32 z)) (λ _, True).
Definition wlist {A} (c : writer A) : writer (list A) :=
  Writer (JArray 0 None (wt c)) (λ l, VArray (map (wv c) l)) (Forall (wok c)).

(** [WIRE_FIELD], [WIRE_FIELD_DEFAULTED], [wire::optional_field] and a vector, which is
    left out when it is empty. *)
Definition required {A B} (name : string) (f : A → B) (c : writer B) : wfield A :=
  WField (FieldSpec (chars name) 0 Required) (wt c) (λ a, Some (wv c (f a))) (λ a, wok c (f a)).
Definition defaulted {A B} (name : string) (f : A → B) (c : writer B) (default_ : B) : wfield A :=
  WField (FieldSpec (chars name) 0 (Defaulted (wv c default_))) (wt c) (λ a, Some (wv c (f a))) (λ a, wok c (f a)).
Definition optional {A B} (name : string) (f : A → option B) (c : writer B) : wfield A :=
  WField (FieldSpec (chars name) 0 Optional) (wt c) (λ a, wv c <$> f a)
    (λ a, match f a with Some b => wok c b | None => True end).
Definition vector {A B} (name : string) (f : A → list B) (c : writer B) : wfield A := defaulted name f (wlist c) [].

Definition wobject {A} (fields : list (wfield A)) : writer A :=
  Writer (JObject (map (λ f, (wf_spec f, wf_type f)) fields)) (λ a, VObject (map (λ f, wf_get f a) fields))
    (λ a, Forall (λ f, wf_ok f a) fields).

(** [db::address_index] *)
Definition windex : writer address_index := wobject [required "maj_i" maj_i (wuint 4); required "min_i" min_i (wuint 4)].

(** [db::index_range], a [std::array] *)
Definition wrange : writer index_range :=
  Writer (JFixed 2 (JUint 4)) (λ r, VArray [VInteger r.1; VInteger r.2])
    (λ r, wok (wuint 4) r.1 ∧ wok (wuint 4) r.2).

(** [map_subaddress_dict] *)
Definition wdict : writer subaddress_dict := wobject [required "key" fst (wuint 4); vector "value" snd wrange].

(** ** Laws *)

Section writer_laws.
Context `{JsonWriterLaws}.

Definition wtext : writer (list Z) := Writer JString VBytes writable.
Definition wstring : writer string := Writer JString (λ s, VBytes (chars s)) (λ s, writable (chars s)).

(** What is written can be read as the same type. *)
Class WriterLaws {A} (c : writer A) : Prop :=
  write_read a : wok c a → reads_as (wt c) (wt c) (wv c a).

#[export] Instance wbool_laws : WriterLaws wbool.
Proof. done. Qed.
#[export] Instance wuint_laws n : WriterLaws (wuint n).
Proof. intros z Hz. exact Hz. Qed.
#[export] Instance wsafe_laws : WriterLaws wsafe.
Proof. intros z Hz. exact Hz. Qed.
Lemma be_split_bytes n z : forallb byteb (Msgpack.be_split n z) = true.
Proof.
  apply forallb_forall. intros b Hb. unfold Msgpack.be_split in Hb. rewrite <-in_rev in Hb. revert z Hb.
  induction n as [|n IH]; intros z; cbn [le_split]; [done|]. intros [<-|Hb]; [|by eapply IH].
  unfold byteb. pose proof (Z.mod_pos_bound z 256). lia.
Qed.

#[export] Instance wkey_laws : WriterLaws wkey.
Proof. intros z _. split; [apply Msgpack.length_be_split|apply be_split_bytes]. Qed.
#[export] Instance wbytes_laws : WriterLaws wbytes.
Proof. intros l Hl. exact Hl. Qed.
#[export] Instance wtext_laws : WriterLaws wtext.
Proof. intros l Hl. exact Hl. Qed.
#[export] Instance wstring_laws : WriterLaws wstring.
Proof. intros l Hl. exact Hl. Qed.

#[export] Instance wlist_laws {A} (c : writer A) : WriterLaws c → WriterLaws (wlist c).
Proof.
  intros Hc l Hl. cbn in *. split; [lia|]. split; [done|]. apply Forall_map. eapply Forall_impl; [exact Hl|].
  intros a Ha. by apply Hc.
Qed.

#[export] Instance wrange_laws : WriterLaws wrange.
Proof. intros [a b] [Ha Hb]. cbn. split; [done|]. repeat constructor; cbn in *; lia. Qed.

(** A field is written when it is read. *)
Class WFieldLaws {A} (f : wfield A) : Prop :=
  field_written a : wf_ok f a →
    presence_fits (f_presence (wf_spec f)) (f_presence (wf_spec f)) (wf_get f a) ∧
    match wf_get f a with Some v => reads_as (wf_type f) (wf_type f) v | None => True end.

#[export] Instance required_laws {A B} name (f : A → B) (c : writer B) : WriterLaws c → WFieldLaws (required name f c).
Proof. intros Hc a Ha. split; [done|by apply Hc]. Qed.
#[export] Instance defaulted_laws {A B} name (f : A → B) (c : writer B) d : WriterLaws c → WFieldLaws (defaulted name f c d).
Proof. intros Hc a Ha. split; [done|by apply Hc]. Qed.
#[export] Instance vector_laws {A B} name (f : A → list B) (c : writer B) : WriterLaws c → WFieldLaws (vector name f c).
Proof. intros Hc. apply defaulted_laws, wlist_laws, Hc. Qed.
#[export] Instance optional_laws {A B} name (f : A → option B) (c : writer B) : WriterLaws c → WFieldLaws (optional name f c).
Proof. intros Hc a Ha. cbn in *. destruct (f a) as [b|]; split; try done. by apply Hc. Qed.

(** The names of the fields, which can be checked. *)
Definition names_ok {A} (fields : list (wfield A)) : bool :=
  bool_decide (NoDup (map (λ f, f_name (wf_spec f)) fields)) &&
  forallb (λ f, forallb plain_char (f_name (wf_spec f))) fields.

Lemma wobject_laws {A} (fields : list (wfield A)) : names_ok fields = true → Forall WFieldLaws fields →
  WriterLaws (wobject fields).
Proof.
  intros [Hnames%bool_decide_eq_true Hplain]%andb_prop Hf a Ha. cbn [wobject wt wv wok] in *. cbn [reads_as].
  split; [by rewrite map_map|]. rewrite map_map. cbn [fst snd]. clear Hnames.
  induction Hf as [|f fields Hf _ IH]; [done|]. cbn [map fields_read forallb fst snd] in *.
  apply andb_prop in Hplain as [Hp Hplain]. apply Forall_cons in Ha as [Hok Ha]. destruct (Hf a Hok) as [Hfit Hv].
  split_and!; [done|by apply writable_plain|exact Hfit|exact Hv|by apply IH].
Qed.

End writer_laws.

Ltac object_laws := apply wobject_laws; [reflexivity|repeat (apply Forall_cons; split; [apply _|]); by apply Forall_nil].

(** ** The responses of light_wallet.cpp *)

Section light_wallet.
Context `{JsonWriterLaws}.

#[export] Instance windex_laws : WriterLaws windex.
Proof. object_laws. Qed.
#[export] Instance wdict_laws : WriterLaws wdict.
Proof. object_laws. Qed.

Definition wlogin : writer login_response :=
  wobject [required "new_address" new_address wbool; required "generated_locally" generated_locally wbool;
           required "lookahead" login_lookahead windex].

Definition wimport : writer import_response :=
  wobject [required "import_fee" import_fee wsafe; required "status" import_status wstring;
           required "new_request" import_new_request wbool; required "request_fulfilled" request_fulfilled wbool;
           required "lookahead" import_lookahead windex].

Definition wrescan : writer request_rescan_response :=
  wobject [required "status" rescan_status wstring; required "previous_scan_height" previous_scan_height wsafe;
           required "target_height" target_height wsafe; required "request_fulfilled" rescan_fulfilled wbool].

Definition wkey_images : writer import_key_images_response :=
  wobject [required "imported" ir_imported wsafe; required "confirmed_spends" ir_confirmed_spends wsafe;
           required "unconfirmed" ir_unconfirmed wsafe].

Definition wnew_subaddrs : writer new_subaddrs_response :=
  wobject [vector "new_subaddrs" new_subaddrs wdict; vector "all_subaddrs" all_subaddrs wdict].

(** [get_subaddrs_response] *)
Definition wsubaddrs : writer (list subaddress_dict) := wobject [vector "all_subaddrs" (λ l, l) wdict].

(** [daemon_status_response], with the network the server is configured for. *)
Definition wdaemon_status : writer (string * daemon_status_response) :=
  wobject [required "outgoing_connections_count" (ds_outgoing_connections_count ∘ snd) (wuint 8);
           required "incoming_connections_count" (ds_incoming_connections_count ∘ snd) (wuint 8);
           required "height" (ds_height ∘ snd) (wuint 8); required "target_height" (ds_target_height ∘ snd) (wuint 8);
           required "network" fst wstring;
           required "state" (λ r, match ds_state r.2 with state_ok => "ok" | no_connections => "no_connections"
                                  | synchronizing => "synchronizing" | unavailable => "unavailable" end)%string wstring].

Definition wspend : writer transaction_spend :=
  wobject [required "amount" (sme_amount ∘ ts_meta) wsafe; required "key_image" (s_image ∘ ts_possible_spend) wkey;
           required "tx_pub_key" (sme_tx_public ∘ ts_meta) wkey; required "out_index" (sme_index ∘ ts_meta) (wuint 4);
           required "mixin" (s_mixin_count ∘ ts_possible_spend) (wuint 4);
           required "sender" (s_sender ∘ ts_possible_spend) windex].

Definition incomplete_hint : string :=
  "spent_state_incomplete: total_sent uses confirmed imported key images only; import key images or rescan this account before trusting available balance against wallet-rpc".

(** [get_address_info_response], when there are no exchange rates. *)
Definition waddress_info : writer get_address_info_response :=
  wobject [required "locked_funds" ai_locked_funds wsafe; required "total_received" ai_total_received wsafe;
           required "total_sent" ai_total_sent wsafe; required "spent_state_incomplete" spent_state_incomplete wbool;
           required "spent_state_confirmed_images" spent_state_confirmed_images (wuint 8);
           required "spent_state_selected_spends" spent_state_selected_spends (wuint 8);
           required "spent_state_unconfirmed_spends" spent_state_unconfirmed_spends (wuint 8);
           required "spent_state_unconfirmed_sources" spent_state_unconfirmed_sources (wuint 8);
           required "spent_state_unconfirmed_source_amount" spent_state_unconfirmed_source_amount wsafe;
           required "spent_state_missing_sources" spent_state_missing_sources (wuint 8);
           required "spent_state_hint" (λ r, if spent_state_incomplete r then incomplete_hint else EmptyString) wstring;
           required "scanned_height" ai_scanned_height (wuint 8);
           required "scanned_block_height" ai_scanned_height (wuint 8);
           required "start_height" ai_start_height (wuint 8);
           required "transaction_height" ai_blockchain_height (wuint 8);
           required "blockchain_height" ai_blockchain_height (wuint 8);
           defaulted "lookahead_fail" ai_lookahead_fail (wuint 8) 0; vector "spent_outputs" ai_spent_outputs wspend;
           defaulted "lookahead" ai_lookahead windex (AddressIndex 0 0)].

#[export] Instance wlogin_laws : WriterLaws wlogin.
Proof. object_laws. Qed.
#[export] Instance wimport_laws : WriterLaws wimport.
Proof. object_laws. Qed.
#[export] Instance wrescan_laws : WriterLaws wrescan.
Proof. object_laws. Qed.
#[export] Instance wkey_images_laws : WriterLaws wkey_images.
Proof. object_laws. Qed.
#[export] Instance wnew_subaddrs_laws : WriterLaws wnew_subaddrs.
Proof. object_laws. Qed.
#[export] Instance wsubaddrs_laws : WriterLaws wsubaddrs.
Proof. object_laws. Qed.
#[export] Instance wdaemon_status_laws : WriterLaws wdaemon_status.
Proof. object_laws. Qed.
#[export] Instance wspend_laws : WriterLaws wspend.
Proof. object_laws. Qed.
#[export] Instance waddress_info_laws : WriterLaws waddress_info.
Proof. object_laws. Qed.

End light_wallet.

(** ** Transactions and outputs (light_wallet.cpp)

    epee's [get_gmt_time] with the text that [std::strftime] makes of it, and what an
    output is encrypted with. *)

Class ClockText := { gmt_text : Z → option (list Z) }.

Class RctEncode := {
  ecdhEncode : Z * Z → Z → bool → Z * Z;
  commit : Z → Z → Z;
  d2h : Z → Z }.

Section outputs.
Context `{ClockText} `{K : ScanCrypto} `{RctEncode}.

(** [iso_timestamp]; the buffer is of 20 characters. *)
Definition iso_timestamp (self : Z) : expect (list Z) :=
  _ ← guard_err (self <=? imax) runtime_error;
  buf ← of_option runtime_error (gmt_text self);
  _ ← guard_err (length buf =? 20)%nat runtime_error;
  Ok buf.

Record rct_bytes := RctBytes { rct_commitment : Z; rct_mask : Z; rct_amount : Z }.

Definition wrct : writer rct_bytes :=
  Writer (JBlob 96) (λ r, VBytes (Msgpack.be_split 32 (rct_commitment r) ++ Msgpack.be_split 32 (rct_mask r) ++
                                  Msgpack.be_split 32 (rct_amount r))) (λ _, True).

(** The flag of an output. *)
Definition has_flag (flag : Z) (o : output) : bool := negb (Z.land (unpack (o_extra o)).1 flag =? 0).

(** [expand_outputs]: the RingCT part is computed again from the amount and the mask. *)
Definition expand_rct (user_key : Z) (o : output) : expect (option rct_bytes) :=
  if has_flag ringct_output o then
    if negb (has_flag coinbase_output o) then
      derived ← of_option crypto_failure (generate_key_derivation (sme_tx_public (o_spend_meta o)) user_key);
      let scalar := derivation_to_scalar derived (Z.to_nat (sme_index (o_spend_meta o))) in
      let encrypted := ecdhEncode (o_ringct_mask o, d2h (sme_amount (o_spend_meta o))) scalar false in
      Ok (Some (RctBytes (commit (sme_amount (o_spend_meta o)) (o_ringct_mask o)) encrypted.1 encrypted.2))
    else Ok (Some (RctBytes 0 rct_identity 0))
  else Ok None.

(** An output that is sent, with its RingCT part and the time. *)
Record expanded := Expanded { ex_data : unspent_output; ex_rct : option rct_bytes; ex_timestamp : list Z }.

Definition expand (user_key : Z) (u : unspent_output) : expect expanded :=
  rct ← expand_rct user_key (uo_meta u);
  timestamp ← iso_timestamp (o_timestamp (uo_meta u));
  Ok (Expanded u rct timestamp).

(** A transaction that is sent, with its number and the time. *)
Record indexed_tx := IndexedTx { ix_index : Z; ix_row : tx_row; ix_timestamp : list Z }.

Fixpoint index_txs (index : Z) (rows : list tx_row) : expect (list indexed_tx) :=
  match rows with
  | [] => Ok []
  | row :: rows =>
    timestamp ← iso_timestamp (o_timestamp (tr_info row));
    txs ← index_txs (index + 1) rows;
    Ok (IndexedTx index row timestamp :: txs)
  end.

(** The union [payment_id] is of 8 or of 32 bytes. *)
Definition sent_payment_id (o : output) : option (list Z) :=
  let length := (unpack (o_extra o)).2 in
  if length =? 0 then None
  else if length =? 8 then Some (take 8 (o_payment_id o)) else Some (o_payment_id o).
End outputs.

Section txs.
Context `{JsonWriterLaws}.

Definition wexpanded : writer expanded :=
  let meta r := uo_meta (ex_data r) in
  let spend_meta r := o_spend_meta (meta r) in
  wobject [required "amount" (sme_amount ∘ spend_meta) wsafe; required "public_key" (o_pub ∘ meta) wkey;
           required "index" (sme_index ∘ spend_meta) (wuint 4);
           required "global_index" (λ r, low (sme_id (spend_meta r))) (wuint 8);
           required "tx_id" (λ r, low (sme_id (spend_meta r))) (wuint 8);
           required "tx_hash" (λ r, tl_tx_hash (o_link (meta r))) wkey;
           required "tx_prefix_hash" (o_tx_prefix_hash ∘ meta) wkey;
           required "tx_pub_key" (sme_tx_public ∘ spend_meta) wkey; required "timestamp" ex_timestamp wtext;
           required "height" (λ r, tl_height (o_link (meta r))) (wuint 8);
           vector "spend_key_images" (uo_spend_key_images ∘ ex_data) wkey;
           vector "additional_tx_pub_keys" (uo_additional_tx_pub_keys ∘ ex_data) wkey;
           optional "rct" ex_rct wrct; required "recipient" (o_recipient ∘ meta) windex].

(** [get_unspent_outs_response], with the outputs expanded. *)
Definition wunspent : writer (get_unspent_outs_response * list expanded) :=
  wobject [required "per_byte_fee" (ur_per_byte_fee ∘ fst) (wuint 8); required "fee_mask" (ur_fee_mask ∘ fst) (wuint 8);
           required "amount" (ur_amount ∘ fst) wsafe; defaulted "lookahead_fail" (ur_lookahead_fail ∘ fst) (wuint 8) 0;
           vector "outputs" snd wexpanded; vector "fees" (ur_fees ∘ fst) (wuint 8)].

Definition windexed_tx : writer indexed_tx :=
  let info r := tr_info (ix_row r) in
  wobject [required "id" ix_index (wuint 8); required "hash" (λ r, tl_tx_hash (o_link (info r))) wkey;
           required "timestamp" ix_timestamp wtext;
           required "total_received" (λ r, sme_amount (o_spend_meta (info r))) wsafe;
           required "total_sent" (tr_spent ∘ ix_row) wsafe; required "fee" (o_fee ∘ info) wsafe;
           required "unlock_time" (o_unlock_time ∘ info) (wuint 8);
           required "height" (λ r, tl_height (o_link (info r))) (wuint 8);
           optional "payment_id" (sent_payment_id ∘ info) wbytes;
           required "coinbase" (λ r, has_flag coinbase_output (info r)) wbool;
           required "mempool" (λ r, tl_height (o_link (info r)) =? block_id_txpool) wbool;
           required "mixin" (λ r, sme_mixin_count (o_spend_meta (info r))) (wuint 4);
           required "recipient" (o_recipient ∘ info) windex;
           vector "spent_outputs" (tr_spends ∘ ix_row) wspend].

(** [get_address_txs_response], with the transactions numbered. *)
Definition waddress_txs : writer (get_address_txs_response * list indexed_tx) :=
  wobject [required "total_received" (at_total_received ∘ fst) wsafe;
           required "scanned_height" (at_scanned_height ∘ fst) (wuint 8);
           required "scanned_block_height" (at_scanned_height ∘ fst) (wuint 8);
           required "start_height" (at_start_height ∘ fst) (wuint 8);
           required "transaction_height" (at_blockchain_height ∘ fst) (wuint 8);
           required "blockchain_height" (at_blockchain_height ∘ fst) (wuint 8);
           defaulted "lookahead_fail" (at_lookahead_fail ∘ fst) (wuint 8) 0;
           defaulted "lookahead" (at_lookahead ∘ fst) windex (AddressIndex 0 0);
           vector "transactions" snd windexed_tx].

Definition wrandom_output : writer random_output :=
  wobject [required "global_index" ro_index wsafe; required "public_key" (λ r, ok_key (ro_keys r)) wkey;
           required "rct" (λ r, RctBytes (ok_mask (ro_keys r)) 0 0) wrct].

Definition wrandom_ring : writer random_ring :=
  wobject [required "amount" rr_amount wsafe; vector "outputs" rr_ring wrandom_output].

(** [get_random_outs_response] *)
Definition wrandom_outs : writer (list random_ring) := wobject [vector "amount_outs" (λ l, l) wrandom_ring].

(** [submit_raw_tx_response] *)
Definition wsubmit : writer string := wobject [required "status" (λ s, s) wstring].

#[export] Instance wrct_laws : WriterLaws wrct.
Proof.
  intros r _. cbn -[Msgpack.be_split]. rewrite !length_app, !Msgpack.length_be_split, !forallb_app, !be_split_bytes. by split.
Qed.
#[export] Instance wexpanded_laws : WriterLaws wexpanded.
Proof. object_laws. Qed.
#[export] Instance wunspent_laws : WriterLaws wunspent.
Proof. object_laws. Qed.
#[export] Instance windexed_tx_laws : WriterLaws windexed_tx.
Proof. object_laws. Qed.
#[export] Instance waddress_txs_laws : WriterLaws waddress_txs.
Proof. object_laws. Qed.
#[export] Instance wrandom_output_laws : WriterLaws wrandom_output.
Proof. object_laws. Qed.
#[export] Instance wrandom_ring_laws : WriterLaws wrandom_ring.
Proof. object_laws. Qed.
#[export] Instance wrandom_outs_laws : WriterLaws wrandom_outs.
Proof. object_laws. Qed.
#[export] Instance wsubmit_laws : WriterLaws wsubmit.
Proof. object_laws. Qed.

End txs.

(** ** The responses of multisig.cpp

    The messages and errors that the handlers of [Kex] and [Txsets] leave out, which are
    constants, come with the response. *)

Section multisig_responses.
Context `{JsonWriterLaws}.

Definition wregister_tx : writer multisig_register_tx_response :=
  wobject [required "success" rt_success wbool; required "message" rt_message wstring;
           required "decoded_amount" rt_amount (wuint 8)].

Definition wbalance : writer multisig_balance_response :=
  wobject [required "multisig_address" br_multisig_address wstring; required "locked_balance" br_locked_balance (wuint 8);
           required "tx_count" br_tx_count (wuint 4); required "context" br_context wstring].

(** [multisig_tx_entry] *)
Definition wtx_entry : writer multisig_tx_record :=
  wobject [required "tx_hash" mtx_hash wstring; required "amount" mtx_amount (wuint 8);
           required "timestamp" mtx_timestamp (wuint 8); required "context" mtx_context wstring].

Definition wtransactions : writer multisig_transactions_response :=
  wobject [required "multisig_address" mr_multisig_address wstring; vector "transactions" mr_transactions wtx_entry;
           required "total_locked" mr_total_locked (wuint 8)].

(** [multisig_register_wallet_response] *)
Definition wregister_wallet : writer multisig_register_wallet_response :=
  wobject [required "success" rw_success wbool; required "message" rw_message wstring].

Definition wwallet_entry : writer multisig_wallet_entry :=
  wobject [required "wallet_id" (mw_wallet_id ∘ we_wallet) wstring; required "address" (mw_address ∘ we_wallet) wstring;
           required "context" (mw_context ∘ we_wallet) wstring; required "threshold" (mw_threshold ∘ we_wallet) (wuint 4);
           required "total" (mw_total ∘ we_wallet) (wuint 4);
           vector "participants" (mw_participants ∘ we_wallet) wstring; required "status" (mw_status ∘ we_wallet) wstring;
           required "locked_balance" we_locked_balance (wuint 8); required "tx_count" we_tx_count (wuint 4);
           required "created_at" (mw_created_at ∘ we_wallet) (wuint 8)].

(** [multisig_list_wallets_response] *)
Definition wlist_wallets : writer (list multisig_wallet_entry) := wobject [vector "wallets" (λ l, l) wwallet_entry].

Definition wkex : writer (multisig_kex_response * string) :=
  wobject [required "success" (kxr_success ∘ fst) wbool; required "wallet_id" (kxr_wallet_id ∘ fst) wstring;
           required "state" (kxr_state ∘ fst) wstring; required "threshold" (kxr_threshold ∘ fst) (wuint 4);
           required "total" (kxr_total ∘ fst) (wuint 4); vector "participants" (kxr_participants ∘ fst) wstring;
           vector "peer_multisig_info" (kxr_peer_multisig_info ∘ fst) wstring; required "message" snd wstring;
           required "created_at" (kxr_created_at ∘ fst) (wuint 8)].

Definition wkex_status : writer (multisig_kex_status_response * string) :=
  wobject [required "success" (sr_success ∘ fst) wbool; required "wallet_id" (sr_wallet_id ∘ fst) wstring;
           required "context" (sr_context ∘ fst) wstring; required "state" (sr_state ∘ fst) wstring;
           required "threshold" (sr_threshold ∘ fst) (wuint 4); required "total" (sr_total ∘ fst) (wuint 4);
           vector "participants" (sr_participants ∘ fst) wstring;
           vector "submitted_participants" (sr_submitted_participants ∘ fst) wstring;
           vector "missing_participants" (sr_missing_participants ∘ fst) wstring;
           required "round" (sr_round ∘ fst) (wuint 4); required "address" (sr_address ∘ fst) wstring;
           required "message" snd wstring; required "created_at" (sr_created_at ∘ fst) (wuint 8);
           required "updated_at" (sr_updated_at ∘ fst) (wuint 8)].

(** [multisig_kex_finalize_response] *)
Definition wkex_finalize : writer (bool * string) :=
  wobject [required "success" fst wbool; required "message" snd wstring].

Definition wtxset_register : writer (multisig_txset_register_response * string) :=
  wobject [required "success" (xrr_success ∘ fst) wbool; required "txset_id" (xrr_txset_id ∘ fst) wstring;
           required "state" (xrr_state ∘ fst) wstring; required "error" snd wstring].

Definition wtxset_signature : writer (multisig_txset_signature_response * string) :=
  wobject [required "success" (xsr_success ∘ fst) wbool; required "txset_id" (xsr_txset_id ∘ fst) wstring;
           required "state" (xsr_state ∘ fst) wstring;
           required "collected_signatures" (xsr_collected_signatures ∘ fst) (wuint 4);
           required "required_signatures" (xsr_required_signatures ∘ fst) (wuint 4);
           required "submitted_tx_hash" (xsr_submitted_tx_hash ∘ fst) wstring; required "error" snd wstring].

Definition wtxset_submit : writer (multisig_txset_submit_response * string) :=
  wobject [required "success" (xbr_success ∘ fst) wbool; required "tx_hash" (xbr_tx_hash ∘ fst) wstring;
           required "state" (xbr_state ∘ fst) wstring; required "error" snd wstring].

#[export] Instance wregister_tx_laws : WriterLaws wregister_tx.
Proof. object_laws. Qed.
#[export] Instance wbalance_laws : WriterLaws wbalance.
Proof. object_laws. Qed.
#[export] Instance wtx_entry_laws : WriterLaws wtx_entry.
Proof. object_laws. Qed.
#[export] Instance wtransactions_laws : WriterLaws wtransactions.
Proof. object_laws. Qed.
#[export] Instance wregister_wallet_laws : WriterLaws wregister_wallet.
Proof. object_laws. Qed.
#[export] Instance wwallet_entry_laws : WriterLaws wwallet_entry.
Proof. object_laws. Qed.
#[export] Instance wlist_wallets_laws : WriterLaws wlist_wallets.
Proof. object_laws. Qed.
#[export] Instance wkex_laws : WriterLaws wkex.
Proof. object_laws. Qed.
#[export] Instance wkex_status_laws : WriterLaws wkex_status.
Proof. object_laws. Qed.
#[export] Instance wkex_finalize_laws : WriterLaws wkex_finalize.
Proof. object_laws. Qed.
#[export] Instance wtxset_register_laws : WriterLaws wtxset_register.
Proof. object_laws. Qed.
#[export] Instance wtxset_signature_laws : WriterLaws wtxset_signature.
Proof. object_laws. Qed.
#[export] Instance wtxset_submit_laws : WriterLaws wtxset_submit.
Proof. object_laws. Qed.

End multisig_responses.

(** ** What is sent *)

Inductive rest_response :=
  | LoginAnswer (r : login_response)
  | ImportAnswer (r : import_response)
  | RescanAnswer (r : request_rescan_response)
  | KeyImagesAnswer (r : import_key_images_response)
  | NewSubaddrsAnswer (r : new_subaddrs_response)
  | SubaddrsAnswer (l : list subaddress_dict)
  | DaemonStatusAnswer (network : string) (r : daemon_status_response)
  | AddressInfoAnswer (r : get_address_info_response)
  | AddressTxsAnswer (r : get_address_txs_response)
  | UnspentAnswer (r : get_unspent_outs_response)
  | RandomOutsAnswer (l : list random_ring)
  | SubmitAnswer (status : string)
  | RegisterTxAnswer (r : multisig_register_tx_response)
  | BalanceAnswer (r : multisig_balance_response)
  | TransactionsAnswer (r : multisig_transactions_response)
  | RegisterWalletAnswer (r : multisig_register_wallet_response)
  | ListWalletsAnswer (l : list multisig_wallet_entry)
  | KexAnswer (r : multisig_kex_response) (message : string)
  | KexStatusAnswer (r : multisig_kex_status_response) (message : string)
  | KexFinalizeAnswer (success : bool) (message : string)
  | TxsetRegisterAnswer (r : multisig_txset_register_response) (error : string)
  | TxsetSignatureAnswer (r : multisig_txset_signature_response) (error : string)
  | TxsetSubmitAnswer (r : multisig_txset_submit_response) (error : string).

Section sent.
Context `{JsonWriterLaws} `{ClockText} `{K : ScanCrypto} `{RctEncode}.

(** A response with its writer, after what writing it may throw. *)
Record written_response := Written_ { wr_type : json_type; wr_value : value; wr_ok : Prop }.

Definition with_writer {A} (c : writer A) (a : A) : expect written_response := Ok (Written_ (wt c) (wv c a) (wok c a)).

(** [write_bytes] of every [db::subaddress_dict] *)
Definition dicts_checked (l : list subaddress_dict) : expect unit :=
  guard_err (forallb check_subaddress_dict l) (schema schema_array).

Definition written_as (r : rest_response) : expect written_response :=
  match r with
  | LoginAnswer r => with_writer wlogin r
  | ImportAnswer r => with_writer wimport r
  | RescanAnswer r => with_writer wrescan r
  | KeyImagesAnswer r => with_writer wkey_images r
  | NewSubaddrsAnswer r => _ ← dicts_checked (new_subaddrs r ++ all_subaddrs r); with_writer wnew_subaddrs r
  | SubaddrsAnswer l => _ ← dicts_checked l; with_writer wsubaddrs l
  | DaemonStatusAnswer network r => with_writer wdaemon_status (network, r)
  | AddressInfoAnswer r => with_writer waddress_info r
  | AddressTxsAnswer r => txs ← index_txs 0 (at_transactions r); with_writer waddress_txs (r, txs)
  | UnspentAnswer r => outputs ← mapM (expand (ur_user_key r)) (ur_outputs r); with_writer wunspent (r, outputs)
  | RandomOutsAnswer l => with_writer wrandom_outs l
  | SubmitAnswer status => with_writer wsubmit status
  | RegisterTxAnswer r => with_writer wregister_tx r
  | BalanceAnswer r => with_writer wbalance r
  | TransactionsAnswer r => with_writer wtransactions r
  | RegisterWalletAnswer r => with_writer wregister_wallet r
  | ListWalletsAnswer l => with_writer wlist_wallets l
  | KexAnswer r message => with_writer wkex (r, message)
  | KexStatusAnswer r message => with_writer wkex_status (r, message)
  | KexFinalizeAnswer success message => with_writer wkex_finalize (success, message)
  | TxsetRegisterAnswer r error => with_writer wtxset_register (r, error)
  | TxsetSignatureAnswer r error => with_writer wtxset_signature (r, error)
  | TxsetSubmitAnswer r error => with_writer wtxset_submit (r, error)
  end.

(** [wire::json::to_bytes] of a response. *)
Definition response_bytes (r : rest_response) : expect (list Z) :=
  w ← written_as r; json_to_bytes (wr_type w) (wr_value w).

(** ** Theorems *)

(** Whether a response is in range, and can be read when it is. *)
Definition response_ok (r : rest_response) : Prop :=
  match written_as r with Ok w => wr_ok w | Err _ => True end.

(** What a response is refused for. *)
Definition refused (r : rest_response) (e : error) : Prop :=
  match r with
  | NewSubaddrsAnswer r =>
    e = schema schema_array ∧ ∃ d, d ∈ new_subaddrs r ++ all_subaddrs r ∧ check_subaddress_dict d = false
  | SubaddrsAnswer l => e = schema schema_array ∧ ∃ d, d ∈ l ∧ check_subaddress_dict d = false
  | AddressTxsAnswer r => ∃ row, row ∈ at_transactions r ∧ iso_timestamp (o_timestamp (tr_info row)) = Err e
  | UnspentAnswer r => ∃ u, u ∈ ur_outputs r ∧ expand (ur_user_key r) u = Err e
  | _ => False
  end.

Lemma with_writer_ok {A} (c : writer A) `{!WriterLaws c} a w : with_writer c a = Ok w → wr_ok w →
  reads_as (wr_type w) (wr_type w) (wr_value w).
Proof. intros [= <-] Ha. by apply write_read. Qed.

Lemma written_as_ok r w : written_as r = Ok w → wr_ok w → reads_as (wr_type w) (wr_type w) (wr_value w).
Proof. destruct r; cbn [written_as]; intros Hr; inv_expect; by (eapply with_writer_ok; [|eassumption]; apply _). Qed.

Lemma written_as_depth r w : written_as r = Ok w → json_depth (wr_type w) < 100.
Proof. destruct r; cbn [written_as]; unfold with_writer; intros Hr; inv_expect; reflexivity. Qed.

Lemma dicts_refused l : dicts_checked l = Ok tt ∨
  dicts_checked l = Err (schema schema_array) ∧ ∃ d, d ∈ l ∧ check_subaddress_dict d = false.
Proof.
  unfold dicts_checked, guard_err. destruct (forallb check_subaddress_dict l) eqn:Hl; [by left|right]. split; [done|].
  induction l as [|d l IH]; [done|]. cbn in Hl. destruct (check_subaddress_dict d) eqn:Hd.
  - destruct (IH Hl) as (d' & Hin & Hd'). exists d'. split; [by right|done].
  - exists d. split; [by left|done].
Qed.

Lemma index_refused rows : ∀ index e, index_txs index rows = Err e →
  ∃ row, row ∈ rows ∧ iso_timestamp (o_timestamp (tr_info row)) = Err e.
Proof.
  induction rows as [|row rows IH]; intros index e; cbn [index_txs]; [done|].
  destruct (iso_timestamp _) as [text|e'] eqn:Ht; cbn; [|intros [= <-]; exists row; split; [by left|done]].
  destruct (index_txs (index + 1) rows) as [txs|e'] eqn:Hi; cbn; [done|]. intros [= <-].
  destruct (IH _ _ Hi) as (row' & Hin & Hr). exists row'. split; [by right|done].
Qed.

Lemma mapM_refused {A B} (f : A → expect B) l e : mapM f l = Err e → ∃ a, a ∈ l ∧ f a = Err e.
Proof.
  induction l as [|a l IH]; cbn; [done|]. destruct (f a) as [b|e'] eqn:Ha; cbn; [|intros [= <-]; exists a; split; [by left|done]].
  destruct (mapM f l) as [bs|e'] eqn:Hl; cbn; [done|]. intros [= <-]. destruct (IH eq_refl) as (a' & Hin & Ha').
  exists a'. split; [by right|done].
Qed.

Lemma written_as_refused r e : written_as r = Err e → refused r e.
Proof.
  destruct r as [| | | |r|l| | |r|r| | | | | | | | | | | | |]; cbn [written_as refused]; try done.
  - destruct (dicts_refused (new_subaddrs r ++ all_subaddrs r)) as [-> | [-> Hd]]; [done|]. by intros [= <-].
  - destruct (dicts_refused l) as [-> | [-> Hd]]; [done|]. by intros [= <-].
  - destruct (index_txs 0 (at_transactions r)) as [txs|e'] eqn:Hi; [done|]. intros [= <-]. by eapply index_refused.
  - destruct (mapM _ (ur_outputs r)) as [l|e'] eqn:Hl; [done|]. intros [= <-]. by apply mapM_refused.
Qed.

(** C12: A response whose integers and strings are in range is sent as a complete JSON
    document, from which every field is read again as it was, amounts as the exact
    integer; or it is not sent, because a subaddress range is invalid, a time has no
    text, or the key of an output cannot be derived. *)
Theorem responses_read r : response_ok r →
  match written_as r with
  | Ok w => ∃ bytes, response_bytes r = Ok bytes ∧ json_from_bytes (json_read (wr_type w)) bytes = Ok (wr_value w)
  | Err e => response_bytes r = Err e ∧ refused r e
  end.
Proof.
  unfold response_ok, response_bytes. destruct (written_as r) as [w|e] eqn:Hw; intros Hr; cbn.
  - destruct (json_to_bytes_text _ _ _ (written_as_ok r w Hw Hr)) as (bytes & Hb & Ht). exists bytes. split; [done|].
    apply json_text_read; [done|by eapply written_as_depth].
  - split; [done|by apply written_as_refused].
Qed.

End sent.

(** ** Examples *)

#[local] Existing Instance Scan.toy_scan.
#[local] Instance test_clock : ClockText := {| gmt_text z := Some (chars "1970-01-01T00:00:00Z") |}.
#[local] Instance test_encode : RctEncode := {| ecdhEncode p s b := (p.1 + s, p.2 + s); commit a m := a + m; d2h a := a |}.

Definition paid_output : output :=
  {| o_link := TransactionLink 7 11; o_spend_meta := SpendMeta (OutputId 0 3) 9007199254740993 15 1 21;
     o_timestamp := 1700000000; o_unlock_time := 0; o_tx_prefix_hash := 5; o_pub := 6; o_ringct_mask := 8;
     o_extra := pack ringct_output 8; o_payment_id := [1; 2; 3; 4; 5; 6; 7; 8] ++ replicate 24 0; o_fee := 30;
     o_recipient := AddressIndex 0 2 |}.

(** An amount that no double is. *)
Definition paid_txs : get_address_txs_response :=
  AddressTxs 9007199254740993 20 1 25 0 [TxRow paid_output [] 0] (AddressIndex 0 0).

Lemma plain_text l : bool_decide (34 ∉ l) && forallb byteb l = true → writable l.
Proof. intros [Hq%bool_decide_eq_true Hs]%andb_prop. by split. Qed.

(** The fields of a response, in turn. *)
Ltac in_range :=
  lazymatch goal with
  | |- True => exact I
  | |- wok wbool _ => exact I
  | |- wok wkey _ => exact I
  | |- wok wrct _ => exact I
  | |- wok (wuint _) _ => split; [vm_compute; split; [discriminate|reflexivity]|vm_compute; discriminate]
  | |- wok wsafe _ => vm_compute; split; discriminate
  | |- wok wtext _ => apply plain_text; vm_compute; reflexivity
  | |- wok wstring _ => apply plain_text; vm_compute; reflexivity
  | |- wok wbytes _ => vm_compute; reflexivity
  | |- wok (wlist ?c) ?l => let l' := eval hnf in l in change (Forall (wok c) l'); in_range
  | |- wok ?c _ => let c' := eval hnf in c in change c with c'; cbn [wok]; in_range
  | |- Forall _ [] => apply Forall_nil; exact I
  | |- Forall _ (_ :: _) => apply Forall_cons; split; [cbn [wf_ok required defaulted vector optional]; in_range|in_range]
  | |- wf_ok _ _ => cbn [wf_ok required defaulted vector optional]; in_range
  | |- match ?o with Some _ => _ | None => _ end => let o' := eval vm_compute in o in change o with o'; cbv iota beta; in_range
  end.

Lemma responses_read_witness :
  response_ok (AddressTxsAnswer paid_txs) ∧
  (match written_as (AddressTxsAnswer paid_txs) with
   | Ok w => ∃ bytes, response_bytes (AddressTxsAnswer paid_txs) = Ok bytes ∧
       json_from_bytes (json_read (wr_type w)) bytes = Ok (wr_value w)
   | Err _ => False
   end) ∧
  response_bytes (SubaddrsAnswer [(0, [(2, 1)])]) = Err (schema schema_array).
Proof.
  assert (response_ok (AddressTxsAnswer paid_txs)) as Hok.
  { change (wok waddress_txs (paid_txs, [IndexedTx 0 (TxRow paid_output [] 0) (chars "1970-01-01T00:00:00Z")])).
    in_range. }
  split; [exact Hok|]. split.
  - exact (responses_read (AddressTxsAnswer paid_txs) Hok).
  - exact (proj1 (responses_read (SubaddrsAnswer [(0, [(2, 1)])]) I)).
Defined.
