(* ===== verification/Files.v ===== *)
(** * The files beside the database (src/src/db/multisig_store.cpp, rest_server.cpp)

    [MultisigStore] and [Kex] keep what they know in a file each, and take its content
    as the record that was saved.  Here is the content itself: the JSON that is
    written, without limits, and the types it is read as, with them.

    Shown is that the bytes of a file that was saved are read back as what was saved
    ([store_file_reads_back], [kex_file_reads_back]), and that whatever bytes are found
    are read as something within the limits, or refused ([store_file_safe]). *)

From S2P Require Import Prelude Data Wire Json JsonWrite MultisigStore Kex Rpc.

Definition limit (n : nat) : option Z := Some (Z.of_nat n).

(** ** The multisig store (multisig_store.cpp) *)

Definition jtx_record : jcodec multisig_tx_record :=
  JCodec multisig_tx_record
    (JObject [jfield "tx_hash" jstring; jfield "amount" (juint 8); jfield "timestamp" (juint 8);
              jfield "context" jstring])
    (λ r, VObject [Some (jc_to jstring (mtx_hash r)); Some (VInteger (mtx_amount r)); Some (VInteger (mtx_timestamp r));
                   Some (jc_to jstring (mtx_context r))])
    (λ v, match v with
          | VObject [tx_hash; amount; timestamp; context] =>
            tx_hash ← need jstring tx_hash; amount ← need (juint 8) amount; timestamp ← need (juint 8) timestamp;
            context ← need jstring context; Ok (MultisigTxRecord tx_hash amount timestamp context)
          | _ => no_shape
          end) (λ _, True).

Definition jwallet_participants : jcodec (list string) := jlist 0 (limit max_participants) jstring.

Definition jwallet_record : jcodec multisig_wallet_record :=
  JCodec multisig_wallet_record
    (JObject [jfield "wallet_id" jstring; jfield "address" jstring; jfield "context" jstring;
              jfield "threshold" (juint 4); jfield "total" (juint 4);
              jdefaulted "participants" jwallet_participants []; jfield "status" jstring; jfield "created_at" (juint 8)])
    (λ r, VObject [Some (jc_to jstring (mw_wallet_id r)); Some (jc_to jstring (mw_address r));
                   Some (jc_to jstring (mw_context r)); Some (VInteger (mw_threshold r)); Some (VInteger (mw_total r));
                   Some (jc_to jwallet_participants (mw_participants r)); Some (jc_to jstring (mw_status r));
                   Some (VInteger (mw_created_at r))])
    (λ v, match v with
          | VObject [id; address; context; threshold; total; l; status; created] =>
            id ← need jstring id; address ← need jstring address; context ← need jstring context;
            threshold ← need (juint 4) threshold; total ← need (juint 4) total; l ← need jwallet_participants l;
            status ← need jstring status; created ← need (juint 8) created;
            Ok (MultisigWalletRecord id address context threshold total l status created)
          | _ => no_shape
          end) (λ _, True).

Definition jtransactions : jcodec (list multisig_tx_record) := jlist 0 (limit max_multisig_txs) jtx_record.

Definition jaddress_data : jcodec multisig_address_data :=
  JCodec multisig_address_data
    (JObject [jfield "address" jstring; jdefaulted "transactions" jtransactions [];
              jfield "total_locked" (juint 8); jfield "primary_context" jstring])
    (λ r, VObject [Some (jc_to jstring (mad_address r)); Some (jc_to jtransactions (mad_transactions r));
                   Some (VInteger (mad_total_locked r)); Some (jc_to jstring (mad_primary_context r))])
    (λ v, match v with
          | VObject [address; l; total; context] =>
            address ← need jstring address; l ← need jtransactions l; total ← need (juint 8) total;
            context ← need jstring context; Ok (MultisigAddressData address l total context)
          | _ => no_shape
          end) (λ _, True).

Definition jstored_addresses : jcodec (list multisig_address_data) :=
  jlist 0 (limit max_multisig_addresses) jaddress_data.
Definition jstored_wallets : jcodec (list multisig_wallet_record) := jlist 0 (limit max_multisig_wallets) jwallet_record.

(** [multisig_snapshot] *)
Definition jsnapshot : jcodec (list multisig_address_data) :=
  JCodec (list multisig_address_data) (JObject [jdefaulted "addresses" jstored_addresses []])
    (λ l, VObject [Some (jc_to jstored_addresses l)])
    (λ v, match v with VObject [addresses] => need jstored_addresses addresses | _ => no_shape end) (λ _, True).

(** [multisig_snapshot_v2] *)
Definition jsnapshot_v2 : jcodec multisig_snapshot :=
  JCodec multisig_snapshot
    (JObject [jdefaulted "addresses" jstored_addresses []; jdefaulted "wallets" jstored_wallets []])
    (λ t, VObject [Some (jc_to jstored_addresses (snap_addresses t)); Some (jc_to jstored_wallets (snap_wallets t))])
    (λ v, match v with
          | VObject [addresses; wallets] =>
            addresses ← need jstored_addresses addresses; wallets ← need jstored_wallets wallets;
            Ok (MultisigSnapshot addresses wallets)
          | _ => no_shape
          end) (λ _, True).

(** *** What is written *)

(** A vector, which is left out when it is empty. *)
Definition wvector (name : string) (t : json_type) : field_spec * json_type :=
  (FieldSpec (chars name) 0 (Defaulted (VArray [])), JArray 0 None t).

Definition w_wallet_record : json_type :=
  JObject [jfield "wallet_id" jstring; jfield "address" jstring; jfield "context" jstring;
           jfield "threshold" (juint 4); jfield "total" (juint 4); wvector "participants" JString;
           jfield "status" jstring; jfield "created_at" (juint 8)].

Definition w_address_data : json_type :=
  JObject [jfield "address" jstring; wvector "transactions" (jc_type jtx_record);
           jfield "total_locked" (juint 8); jfield "primary_context" jstring].

Definition w_snapshot_v2 : json_type := JObject [wvector "addresses" w_address_data; wvector "wallets" w_wallet_record].

Section multisig_file.
Context `{JsonLibrary} `{JsonWriter}.

(** The bytes that [save_locked] writes. *)
Definition saved_bytes (t : multisig_snapshot) : expect (list Z) := json_to_bytes w_snapshot_v2 (jc_to jsnapshot_v2 t).

(** [from_bytes] of a type with a codec. *)
Definition read_file {A} (c : jcodec A) (content : list Z) : expect A :=
  v ← json_from_bytes (json_read (jc_type c)) content; jc_of c v.

(** What [load_locked] reads from the bytes. *)
Definition loaded_bytes (content : list Z) : expect (gmap string multisig_address_data * list multisig_wallet_record) :=
  if decide (content = []) then Ok (∅, [])
  else
    match read_file jsnapshot_v2 content with
    | Ok t => Ok (emplace_all (snap_addresses t), snap_wallets t)
    | Err _ => addresses ← read_file jsnapshot content; Ok (emplace_all addresses, [])
    end.

(** The file of [MultisigStore] that the bytes are. *)
Definition storage_file_of (content : list Z) : storage_file :=
  if decide (content = []) then Absent
  else
    match read_file jsnapshot_v2 content with
    | Ok t => Text t
    | Err _ =>
      match read_file jsnapshot content with
      | Ok addresses => Text (MultisigSnapshot addresses [])
      | Err _ => Broken
      end
    end.

End multisig_file.

(** ** The registry of key exchanges (rest_server.cpp) *)

Definition jpeer : jcodec lws_multisig_kex_peer :=
  JCodec lws_multisig_kex_peer
    (JObject [jfield "participant" jstring; jfield "multisig_info" jstring; jfield "round" (juint 4);
              jfield "updated_at" (juint 8)])
    (λ r, VObject [Some (jc_to jstring (kp_participant r)); Some (jc_to jstring (kp_multisig_info r));
                   Some (VInteger (kp_round r)); Some (VInteger (kp_updated_at r))])
    (λ v, match v with
          | VObject [participant; info; round; updated] =>
            participant ← need jstring participant; info ← need jstring info; round ← need (juint 4) round;
            updated ← need (juint 8) updated; Ok (KexPeer participant info round updated)
          | _ => no_shape
          end) (λ _, True).

Definition jkex_participants : jcodec (list string) := jlist 0 (limit max_lws_multisig_kex_participants) jstring.
Definition jpeers : jcodec (list lws_multisig_kex_peer) := jlist 0 (limit max_lws_multisig_kex_peers) jpeer.

Definition jkex_record : jcodec lws_multisig_kex_record_snapshot :=
  JCodec lws_multisig_kex_record_snapshot
    (JObject [jfield "wallet_id" jstring; jfield "context" jstring; jfield "threshold" (juint 4);
              jfield "total" (juint 4); jdefaulted "participants" jkex_participants []; jdefaulted "peers" jpeers [];
              jdefaulted "address" jstring ""; jfield "state" jstring; jfield "created_at" (juint 8);
              jfield "updated_at" (juint 8)])
    (λ r, VObject [Some (jc_to jstring (ks_wallet_id r)); Some (jc_to jstring (ks_context r));
                   Some (VInteger (ks_threshold r)); Some (VInteger (ks_total r));
                   Some (jc_to jkex_participants (ks_participants r)); Some (jc_to jpeers (ks_peers r));
                   Some (jc_to jstring (ks_address r)); Some (jc_to jstring (ks_state r));
                   Some (VInteger (ks_created_at r)); Some (VInteger (ks_updated_at r))])
    (λ v, match v with
          | VObject [id; context; threshold; total; participants; peers; address; state; created; updated] =>
            id ← need jstring id; context ← need jstring context; threshold ← need (juint 4) threshold;
            total ← need (juint 4) total; participants ← need jkex_participants participants;
            peers ← need jpeers peers; address ← need jstring address; state ← need jstring state;
            created ← need (juint 8) created; updated ← need (juint 8) updated;
            Ok (KexRecordSnapshot id context threshold total participants peers address state created updated)
          | _ => no_shape
          end) (λ _, True).

Definition jkex_records : jcodec (list lws_multisig_kex_record_snapshot) :=
  jlist 0 (limit max_lws_multisig_kex_records) jkex_record.

(** [lws_multisig_kex_registry_snapshot] *)
Definition jregistry : jcodec (list lws_multisig_kex_record_snapshot) :=
  JCodec (list lws_multisig_kex_record_snapshot) (JObject [jdefaulted "records" jkex_records []])
    (λ l, VObject [Some (jc_to jkex_records l)])
    (λ v, match v with VObject [records] => need jkex_records records | _ => no_shape end) (λ _, True).

Definition w_kex_record : json_type :=
  JObject [jfield "wallet_id" jstring; jfield "context" jstring; jfield "threshold" (juint 4);
           jfield "total" (juint 4); wvector "participants" JString; wvector "peers" (jc_type jpeer);
           jfield "address" jstring; jfield "state" jstring; jfield "created_at" (juint 8);
           jfield "updated_at" (juint 8)].

Definition w_registry : json_type := JObject [wvector "records" w_kex_record].

Section kex_file.
Context `{JsonLibrary} `{JsonWriter}.

(** The bytes that [save_lws_multisig_kex_registry_locked] writes. *)
Definition saved_registry (l : list lws_multisig_kex_record_snapshot) : expect (list Z) :=
  json_to_bytes w_registry (jc_to jregistry l).

(** [load_lws_multisig_kex_registry], from the bytes. *)
Definition loaded_registry (content : list Z) (records : gmap string lws_multisig_kex_record) :
    gmap string lws_multisig_kex_record :=
  if decide (content = []) then records
  else
    match read_file jregistry content with
    | Ok l => load_records l
    | Err _ => records
    end.

(** The file of [Kex] that the bytes are. *)
Definition kex_file_of (content : list Z) : kex_file :=
  if decide (content = []) then KexAbsent
  else match read_file jregistry content with Ok l => KexText l | Err _ => KexBroken end.

End kex_file.

(** ** The codecs keep their promises *)

(** Strings and lists are converted back. *)
Ltac convert_back :=
  repeat first
    [ rewrite (jc_of_to (c := jstring)) by done
    | progress cbn -[jstring jlist jwallet_participants jtransactions jstored_addresses jstored_wallets
                     jkex_participants jpeers jkex_records]
    | rewrite jc_of_to by (by apply Forall_true) ].

#[export] Instance jtx_record_laws : JCodecLaws jtx_record.
Proof. split; [done|take_fields; convert_fields|]. intros [] _. by convert_back. Qed.

#[export] Instance jwallet_participants_laws : JCodecLaws jwallet_participants.
Proof. by apply jlist_laws; [apply _|]. Qed.

#[export] Instance jwallet_record_laws : JCodecLaws jwallet_record.
Proof. split; [done|take_fields; convert_fields|]. intros [] _. by convert_back. Qed.

#[export] Instance jtransactions_laws : JCodecLaws jtransactions.
Proof. by apply jlist_laws; [apply _|]. Qed.

#[export] Instance jaddress_data_laws : JCodecLaws jaddress_data.
Proof. split; [done|take_fields; convert_fields|]. intros [] _. by convert_back. Qed.

#[export] Instance jstored_addresses_laws : JCodecLaws jstored_addresses.
Proof. by apply jlist_laws; [apply _|]. Qed.
#[export] Instance jstored_wallets_laws : JCodecLaws jstored_wallets.
Proof. by apply jlist_laws; [apply _|]. Qed.

#[export] Instance jsnapshot_laws : JCodecLaws jsnapshot.
Proof.
  split; [done|take_fields; eapply converts_need; [apply _| |eassumption]; discriminate|].
  intros l _. by convert_back.
Qed.

#[export] Instance jsnapshot_v2_laws : JCodecLaws jsnapshot_v2.
Proof. split; [done|take_fields; convert_fields|]. intros [] _. by convert_back. Qed.

#[export] Instance jpeer_laws : JCodecLaws jpeer.
Proof. split; [done|take_fields; convert_fields|]. intros [] _. by convert_back. Qed.

#[export] Instance jkex_participants_laws : JCodecLaws jkex_participants.
Proof. by apply jlist_laws; [apply _|]. Qed.
#[export] Instance jpeers_laws : JCodecLaws jpeers.
Proof. by apply jlist_laws; [apply _|]. Qed.

#[export] Instance jkex_record_laws : JCodecLaws jkex_record.
Proof. split; [done|take_fields; convert_fields|]. intros [] _. by convert_back. Qed.

#[export] Instance jkex_records_laws : JCodecLaws jkex_records.
Proof. by apply jlist_laws; [apply _|]. Qed.

#[export] Instance jregistry_laws : JCodecLaws jregistry.
Proof.
  split; [done|take_fields; eapply converts_need; [apply _| |eassumption]; discriminate|].
  intros l _. by convert_back.
Qed.

(** ** What is read is within the limits *)

(** Whether a value was read as [a]. *)
Definition typed_as {A} (c : jcodec A) (a : A) : Prop := ∃ v, has_json_type (jc_type c) v = true ∧ jc_of c v = Ok a.

Lemma need_typed {A} (c : jcodec A) f v a : need c v = Ok a →
  field_has_type f (has_json_type (jc_type c)) v = true → typed_as c a.
Proof. destruct v as [v|]; cbn; [|done]. intros Ha Hv. by exists v. Qed.

Lemma list_typed {A} (c : jcodec A) n l : typed_as (jlist 0 (limit n) c) l → (length l ≤ n)%nat ∧ Forall (typed_as c) l.
Proof.
  intros (v & Hv & Hl). destruct v as [| | | |vs|]; try done. cbn in Hv, Hl. apply andb_prop in Hv as [Hv Hn].
  apply Is_true_true_2, forallb_True in Hv.
  assert (length l = length vs ∧ Forall (typed_as c) l) as [-> Hall]; [|split; [lia|done]]. clear Hn.
  revert l Hl. induction Hv as [|v vs Hv _ IH]; intros l Hl; cbn in Hl; [by injection Hl as <-|]. inv_expect.
  match goal with Hm : mapM _ vs = Ok _ |- _ => destruct (IH _ Hm) as [Hlen Hall] end.
  cbn. split; [by f_equal|]. constructor; [|done]. exists v. by apply Is_true_true in Hv.
Qed.

(** An object that was read is taken apart: what each of its fields was read as. *)
Ltac take_typed :=
  let v := fresh "v" in let Hv := fresh "Hv" in let Ha := fresh "Ha" in
  intros (v & Hv & Ha); apply typed_object in Hv as (? & -> & Hv);
  repeat (apply Forall2_cons_inv_l in Hv as (? & ? & ? & Hv & ->));
  apply Forall2_nil_inv_l in Hv as ->;
  lazymatch type of Ha with
  | jc_of ?c _ = _ => let c' := eval hnf in c in change c with c' in Ha; cbn [jc_of] in Ha
  end; inv_expect;
  repeat match goal with
  | Hf : field_has_type _ _ ?v = true, Hn : need _ ?v = Ok _ |- _ =>
      apply (need_typed _ _ _ _ Hn) in Hf; clear Hn
  end.

Lemma address_data_typed a : typed_as jaddress_data a → (length (mad_transactions a) ≤ max_multisig_txs)%nat.
Proof. take_typed. by match goal with Hl : typed_as jtransactions _ |- _ => apply list_typed in Hl as [? _] end. Qed.

Lemma wallet_record_typed w : typed_as jwallet_record w → (length (mw_participants w) ≤ max_participants)%nat.
Proof. take_typed. by match goal with Hl : typed_as jwallet_participants _ |- _ => apply list_typed in Hl as [? _] end. Qed.

Lemma kex_record_typed r : typed_as jkex_record r →
  (length (ks_participants r) ≤ max_lws_multisig_kex_participants)%nat ∧ (length (ks_peers r) ≤ max_lws_multisig_kex_peers)%nat.
Proof.
  take_typed. match goal with Hl : typed_as jkex_participants _ |- _ => apply list_typed in Hl as [? _] end.
  by match goal with Hl : typed_as jpeers _ |- _ => apply list_typed in Hl as [? _] end.
Qed.

Lemma forallb_all {A} (p : A → bool) l : Forall (λ a, p a = true) l → forallb p l = true.
Proof. intros Hl. apply forallb_forall. intros a Ha%list_elem_of_In. by rewrite Forall_forall in Hl; apply Hl. Qed.

Lemma addresses_typed l : typed_as jstored_addresses l → addresses_fit l = true.
Proof.
  intros [Hn Hl]%list_typed. unfold addresses_fit. apply andb_true_intro. split; [by apply Nat.leb_le|].
  apply forallb_all. eapply Forall_impl; [exact Hl|]. intros a Ha%address_data_typed. by apply Nat.leb_le.
Qed.

Lemma wallets_typed l : typed_as jstored_wallets l → wallets_fit l = true.
Proof.
  intros [Hn Hl]%list_typed. unfold wallets_fit. apply andb_true_intro. split; [by apply Nat.leb_le|].
  apply forallb_all. eapply Forall_impl; [exact Hl|]. intros w Hw%wallet_record_typed. by apply Nat.leb_le.
Qed.

Lemma snapshot_typed l : typed_as jsnapshot l → addresses_fit l = true.
Proof. take_typed. by apply addresses_typed. Qed.

Lemma snapshot_v2_typed t : typed_as jsnapshot_v2 t →
  addresses_fit (snap_addresses t) = true ∧ wallets_fit (snap_wallets t) = true.
Proof. take_typed. split; [by apply addresses_typed|by apply wallets_typed]. Qed.

Lemma registry_typed l : typed_as jregistry l → kex_file_fits l = true.
Proof.
  take_typed. match goal with Hr : typed_as jkex_records _ |- _ => apply list_typed in Hr as [Hn Hl] end.
  unfold kex_file_fits. apply andb_true_intro. split; [by apply Nat.leb_le|].
  apply forallb_all. eapply Forall_impl; [exact Hl|]. intros r [H1 H2]%kex_record_typed.
  apply andb_true_intro. by split; apply Nat.leb_le.
Qed.

(** ** Any content is a file *)

Section loading.
Context `{JsonLaws}.

Lemma read_file_ends {A} (c : jcodec A) `{!JCodecLaws c} content :
  match read_file c content with Ok a => typed_as c a | Err e => caught e end.
Proof.
  unfold read_file. pose proof (json_from_bytes_ends (jc_type c) content (proj1 (jc_readable (c := c)))) as Hr.
  destruct (json_from_bytes _ content) as [v|e]; cbn; [|done]. pose proof (jc_converts (c := c) v Hr) as Hc.
  destruct (jc_of c v) as [a|e] eqn:Ha; [by exists v|done].
Qed.

(** Filing entries by their address gives no more of them, each one of the list. *)
Lemma emplace_all_filed l : (size (emplace_all l) ≤ length l)%nat ∧
  ∀ address slot, emplace_all l !! address = Some slot → slot ∈ l ∧ mad_address slot = address.
Proof.
  unfold emplace_all. induction l as [|x l [Hsize Hfiled]] using rev_ind.
  { cbn. rewrite map_size_empty. split; [done|]. intros ? ?. by rewrite lookup_empty. }
  rewrite foldl_snoc, length_app. cbn. unfold emplace at 1 3. destruct (foldl emplace ∅ l !! mad_address x) eqn:Ex.
  - split; [lia|]. intros a slot Ha. destruct (Hfiled a slot Ha) as [Hin Heq]. by split; [apply elem_of_app; left|].
  - rewrite map_size_insert_None by done. split; [lia|]. intros a slot Ha.
    apply lookup_insert_Some in Ha as [[<- <-]|[_ Ha]].
    + split; [|done]. apply elem_of_app. right. by left.
    + destruct (Hfiled a slot Ha) as [Hin Heq]. by split; [apply elem_of_app; left|].
Qed.

(** C14: Whatever bytes the file of the multisig store holds, loading it fails with an
    error of the reader, or gives a store within the limits: at most 16 addresses, each
    filed under its own name with at most 32 transactions, and at most 64 wallets of at
    most 8 participants.  A file in which the reader finds the addresses does not fail
    for what it holds besides: wallets that cannot be read are left out. *)
Theorem store_file_safe content :
  match loaded_bytes content with
  | Ok (data, wallets) =>
    (size data ≤ 16)%nat ∧
    (∀ address slot, data !! address = Some slot →
       mad_address slot = address ∧ (length (mad_transactions slot) ≤ 32)%nat) ∧
    (length wallets ≤ 64)%nat ∧ Forall (λ w, length (mw_participants w) ≤ 8)%nat wallets
  | Err e => caught e
  end ∧
  ∀ addresses, content ≠ [] → read_file jsnapshot content = Ok addresses → ∃ loaded, loaded_bytes content = Ok loaded.
Proof.
  assert (∀ l, addresses_fit l = true → (size (emplace_all l) ≤ 16)%nat ∧
    ∀ address slot, emplace_all l !! address = Some slot →
      mad_address slot = address ∧ (length (mad_transactions slot) ≤ 32)%nat) as Hfit.
  { intros l [Hn%Nat.leb_le Hl]%andb_prop. destruct (emplace_all_filed l) as [Hsize Hfiled].
    unfold max_multisig_addresses in Hn. split; [lia|]. intros a slot Ha. destruct (Hfiled a slot Ha) as [Hin Heq].
    split; [done|]. rewrite forallb_forall in Hl. apply Nat.leb_le, Hl. by apply list_elem_of_In. }
  unfold loaded_bytes. destruct (decide (content = [])) as [->|Hne].
  { split; [|by intros]. rewrite map_size_empty. split; [lia|]. split; [|split; [cbn; lia|constructor]].
    intros a slot. by rewrite lookup_empty. }
  pose proof (read_file_ends jsnapshot_v2 content) as H2. pose proof (read_file_ends jsnapshot content) as H1.
  destruct (read_file jsnapshot_v2 content) as [t|e2]; cbn.
  - apply snapshot_v2_typed in H2 as [Ha [Hn%Nat.leb_le Hw]%andb_prop]. apply Hfit in Ha as [Hsize Hslots].
    split; [|by eexists]. split_and!; [done..|]. apply Forall_forall. intros w Hin. rewrite forallb_forall in Hw.
    apply Nat.leb_le, Hw. by apply list_elem_of_In.
  - destruct (read_file jsnapshot content) as [l|e1]; cbn; [|split; [done|by intros ? _ ?]].
    apply snapshot_typed in H1. apply Hfit in H1 as [Hsize Hslots]. split; [|by eexists].
    split_and!; [done..|cbn; lia|constructor].
Qed.

(** Loading the bytes is what [load_locked] does with the file they are. *)
Lemma store_file_refines content :
  match loaded_bytes content, open_store (storage_file_of content) with
  | Ok (data, wallets), Ok s => s = MultisigStore data wallets (storage_file_of content)
  | Err e, Err _ => caught e
  | _, _ => False
  end.
Proof.
  unfold loaded_bytes, storage_file_of, open_store. destruct (decide (content = [])); [done|].
  pose proof (read_file_ends jsnapshot_v2 content) as H2. pose proof (read_file_ends jsnapshot content) as H1.
  destruct (read_file jsnapshot_v2 content) as [t|e2].
  - apply snapshot_v2_typed in H2 as [Ha Hw]. unfold load_locked, read_snapshot_v2. cbn. by rewrite Ha, Hw.
  - destruct (read_file jsnapshot content) as [l|e1]; [|done]. apply snapshot_typed in H1.
    unfold load_locked, read_snapshot_v2. cbn. by rewrite H1.
Qed.

(** The registry of key exchanges is loaded from any bytes as
    [load_lws_multisig_kex_registry] loads the file they are: a file that cannot be read
    is ignored, and no more than 256 records of 8 participants and peers are taken. *)
Theorem kex_file_refines content records :
  load_lws_multisig_kex_registry (KexRegistry records (kex_file_of content)) =
    KexRegistry (loaded_registry content records) (kex_file_of content).
Proof.
  unfold load_lws_multisig_kex_registry, loaded_registry, kex_file_of. cbn.
  destruct (decide (content = [])); [done|]. pose proof (read_file_ends jregistry content) as Hr.
  destruct (read_file jregistry content) as [l|e]; [|done]. cbn. by rewrite registry_typed.
Qed.

End loading.

(** ** What was saved is read back *)

Section saving.
Context `{JsonWriterLaws}.

Definition text_ok (s : string) : Prop := writable (chars s).
Definition u32_ok (z : Z) : Prop := 0 <= z < 2 ^ 32.
Definition u64_ok (z : Z) : Prop := 0 <= z <= u64_max.

Record tx_ok (r : multisig_tx_record) : Prop := {
  txo_hash : text_ok (mtx_hash r);
  txo_amount : u64_ok (mtx_amount r);
  txo_timestamp : u64_ok (mtx_timestamp r);
  txo_context : text_ok (mtx_context r) }.

Record stored_address_ok (r : multisig_address_data) : Prop := {
  sao_address : text_ok (mad_address r);
  sao_transactions : Forall tx_ok (mad_transactions r);
  sao_total : u64_ok (mad_total_locked r);
  sao_context : text_ok (mad_primary_context r) }.

Record stored_wallet_ok (r : multisig_wallet_record) : Prop := {
  swo_id : text_ok (mw_wallet_id r);
  swo_address : text_ok (mw_address r);
  swo_context : text_ok (mw_context r);
  swo_threshold : u32_ok (mw_threshold r);
  swo_total : u32_ok (mw_total r);
  swo_participants : Forall text_ok (mw_participants r);
  swo_status : text_ok (mw_status r);
  swo_created : u64_ok (mw_created_at r) }.

Record peer_ok (r : lws_multisig_kex_peer) : Prop := {
  pro_participant : text_ok (kp_participant r);
  pro_info : text_ok (kp_multisig_info r);
  pro_round : u32_ok (kp_round r);
  pro_updated : u64_ok (kp_updated_at r) }.

Record kex_record_ok (r : lws_multisig_kex_record_snapshot) : Prop := {
  kro_id : text_ok (ks_wallet_id r);
  kro_context : text_ok (ks_context r);
  kro_threshold : u32_ok (ks_threshold r);
  kro_total : u32_ok (ks_total r);
  kro_participants : Forall text_ok (ks_participants r);
  kro_peers : Forall peer_ok (ks_peers r);
  kro_address : text_ok (ks_address r);
  kro_state : text_ok (ks_state r);
  kro_created : u64_ok (ks_created_at r);
  kro_updated : u64_ok (ks_updated_at r) }.

Lemma text_saved s : text_ok s → reads_as JString JString (jc_to jstring s).
Proof. done. Qed.

Lemma u32_saved z : u32_ok z → reads_as (JUint 4) (JUint 4) (VInteger z).
Proof. unfold u32_ok. cbn. unfold u64_max. lia. Qed.

Lemma u64_saved z : u64_ok z → reads_as (JUint 8) (JUint 8) (VInteger z).
Proof. unfold u64_ok. cbn. unfold u64_max. lia. Qed.

Lemma list_saved {A} (c : jcodec A) (w : json_type) (ok : A → Prop) n l :
  (∀ a, ok a → reads_as (jc_type c) w (jc_to c a)) → Forall ok l → (length l ≤ n)%nat →
  reads_as (JArray 0 (limit n) (jc_type c)) (JArray 0 None w) (VArray (map (jc_to c) l)).
Proof.
  intros Hc Hl Hn. cbn. split; [lia|]. rewrite length_map. split; [lia|]. apply Forall_map.
  eapply Forall_impl; [exact Hl|]. intros a Ha. by apply Hc.
Qed.

Lemma object_saved rs ws l : NoDup (map (λ p, f_name p.1) rs) → fields_read ws (map (λ p, (p.1, reads_as p.2)) rs) l →
  reads_as (JObject rs) (JObject ws) (VObject l).
Proof. done. Qed.

Lemma field_saved wf w rf r ws rs v l : f_name wf = f_name rf → forallb plain_char (f_name wf) = true →
  presence_fits (f_presence wf) (f_presence rf) (Some v) → reads_as r w v →
  fields_read ws (map (λ p, (p.1, reads_as p.2)) rs) l →
  fields_read ((wf, w) :: ws) (map (λ p, (p.1, reads_as p.2)) ((rf, r) :: rs)) (Some v :: l).
Proof. intros Hn Hp Hf Hv Hl. cbn. split_and!; try done. by apply writable_plain. Qed.

End saving.

(** The fields of an object, in turn. *)
Ltac save_fields :=
  apply object_saved; [vm_compute; repeat constructor; set_solver|];
  repeat (apply field_saved; [reflexivity|reflexivity|done||reflexivity| |]); try done.

Section read_back.
Context `{JsonWriterLaws}.

Lemma tx_saved r : tx_ok r → reads_as (jc_type jtx_record) (jc_type jtx_record) (jc_to jtx_record r).
Proof. intros []. save_fields; [by apply u64_saved..]. Qed.

Lemma address_saved r : stored_address_ok r → (length (mad_transactions r) ≤ max_multisig_txs)%nat →
  reads_as (jc_type jaddress_data) w_address_data (jc_to jaddress_data r).
Proof. intros [] Hn. save_fields; [|by apply u64_saved]. eapply list_saved; [apply tx_saved|done|done]. Qed.

Lemma wallet_saved r : stored_wallet_ok r → (length (mw_participants r) ≤ max_participants)%nat →
  reads_as (jc_type jwallet_record) w_wallet_record (jc_to jwallet_record r).
Proof.
  intros [] Hn. save_fields; [by apply u32_saved|by apply u32_saved| |by apply u64_saved].
  eapply (list_saved jstring JString); [apply text_saved|done|done].
Qed.

Lemma peer_saved r : peer_ok r → reads_as (jc_type jpeer) (jc_type jpeer) (jc_to jpeer r).
Proof. intros []. save_fields; [by apply u32_saved|by apply u64_saved]. Qed.

Lemma kex_record_saved r : kex_record_ok r →
  (length (ks_participants r) ≤ max_lws_multisig_kex_participants)%nat →
  (length (ks_peers r) ≤ max_lws_multisig_kex_peers)%nat →
  reads_as (jc_type jkex_record) w_kex_record (jc_to jkex_record r).
Proof.
  intros [] Hn Hp. save_fields; [by apply u32_saved|by apply u32_saved| | |by apply u64_saved|by apply u64_saved].
  - eapply (list_saved jstring JString); [apply text_saved|done|done].
  - eapply list_saved; [apply peer_saved|done|done].
Qed.

(** What fits its limits, for all elements. *)
Lemma fits_all {A} (ok : A → Prop) (p : A → bool) l : Forall ok l → forallb p l = true →
  Forall (λ a, ok a ∧ p a = true) l.
Proof.
  intros Hl Hp. apply Forall_and. split; [done|]. apply Forall_forall. intros a Ha%list_elem_of_In.
  rewrite forallb_forall in Hp. by apply Hp.
Qed.

Lemma snapshot_saved t : Forall stored_address_ok (snap_addresses t) → Forall stored_wallet_ok (snap_wallets t) →
  addresses_fit (snap_addresses t) = true → wallets_fit (snap_wallets t) = true →
  reads_as (jc_type jsnapshot_v2) w_snapshot_v2 (jc_to jsnapshot_v2 t).
Proof.
  intros Ha Hw [Hna Hfa]%andb_prop [Hnw Hfw]%andb_prop. save_fields.
  - eapply list_saved; [|exact (fits_all _ _ _ Ha Hfa)|by apply Nat.leb_le].
    intros a [Hok Hn]. apply address_saved; [done|by apply Nat.leb_le].
  - eapply list_saved; [|exact (fits_all _ _ _ Hw Hfw)|by apply Nat.leb_le].
    intros w [Hok Hn]. apply wallet_saved; [done|by apply Nat.leb_le].
Qed.

Lemma registry_saved l : Forall kex_record_ok l → kex_file_fits l = true →
  reads_as (jc_type jregistry) w_registry (jc_to jregistry l).
Proof.
  intros Hl [Hn Hf]%andb_prop. save_fields. eapply list_saved; [|exact (fits_all _ _ _ Hl Hf)|by apply Nat.leb_le].
  intros r [Hok [Hp Hq]%andb_prop]. apply kex_record_saved; [done|by apply Nat.leb_le|by apply Nat.leb_le].
Qed.

(** An object with a codec, written as a type that is read as the codec's. *)
Lemma file_read {A} (c : jcodec A) `{!JCodecLaws c} w a : reads_as (jc_type c) w (jc_to c a) → jc_ok c a →
  ∃ bytes, json_to_bytes w (jc_to c a) = Ok bytes ∧ bytes ≠ [] ∧ read_file c bytes = Ok a.
Proof.
  intros Hw Ha. destruct (json_to_bytes_text _ _ _ Hw) as (bytes & Hb & Ht). exists bytes. split; [done|].
  split; [by apply json_text_starts in Ht as [? _]|]. unfold read_file.
  rewrite (json_text_read _ _ _ Ht) by apply (jc_readable (c := c)). cbn. by apply jc_of_to.
Qed.

(** C13: The file that a multisig store saves holds, as bytes, what was saved, when the
    store keeps to the limits of the reader; the store opened on it is the same. *)
Theorem store_file_reads_back s : store_ok s →
  Forall stored_address_ok (ordered (ms_data s)) → Forall stored_wallet_ok (ms_wallets s) →
  addresses_fit (ordered (ms_data s)) = true → wallets_fit (ms_wallets s) = true →
  ∃ bytes, saved_bytes (MultisigSnapshot (ordered (ms_data s)) (ms_wallets s)) = Ok bytes ∧
    storage_file_of bytes = ms_file (save_locked Written s).2 ∧ loaded_bytes bytes = Ok (ms_data s, ms_wallets s).
Proof.
  intros Hs Ha Hw Hfa Hfw.
  destruct (file_read jsnapshot_v2 w_snapshot_v2 (MultisigSnapshot (ordered (ms_data s)) (ms_wallets s)))
    as (bytes & Hb & Hne & Hr); [by apply snapshot_saved|done|].
  exists bytes. unfold storage_file_of, loaded_bytes. rewrite !decide_False by done. rewrite Hr. cbn.
  by rewrite emplace_ordered.
Qed.

(** The file of the key exchanges holds, as bytes, what was saved, and a server that
    starts with it has the same records. *)
Theorem kex_file_reads_back `{HashOrderLaws} s : records_ok (kx_records s) →
  Forall kex_record_ok (snapshot_lws_multisig_kex (kx_records s)) →
  kex_file_fits (snapshot_lws_multisig_kex (kx_records s)) = true →
  ∃ bytes, saved_registry (snapshot_lws_multisig_kex (kx_records s)) = Ok bytes ∧
    kex_file_of bytes = kx_file (save_lws_multisig_kex_registry true s).2 ∧
    ∀ records, loaded_registry bytes records = kx_records s.
Proof.
  intros Hs Hl Hf. destruct (file_read jregistry w_registry _ (registry_saved _ Hl Hf) I) as (bytes & Hb & Hne & Hr).
  exists bytes. unfold kex_file_of, loaded_registry. rewrite decide_False by done. rewrite Hr. split_and!; try done.
  intros records. rewrite decide_False by done. by apply load_snapshot.
Qed.

End read_back.

(** ** Examples *)

Lemma text_plain s : bool_decide (34 ∉ chars s) && forallb byteb (chars s) = true → text_ok s.
Proof. intros [Hq%bool_decide_eq_true Hs]%andb_prop. by split. Qed.

Definition small_store : multisig_store := MultisigStore (ms_data one_tx) [wallet "w1"] (ms_file one_tx).

Lemma small_store_ok : store_ok small_store.
Proof. split; [apply one_tx_ok|]. apply NoDup_singleton. Qed.

Lemma store_file_reads_back_witness :
  (store_ok small_store ∧ addresses_fit (ordered (ms_data small_store)) = true ∧
   wallets_fit (ms_wallets small_store) = true) ∧
  ∃ bytes, saved_bytes (MultisigSnapshot (ordered (ms_data small_store)) (ms_wallets small_store)) = Ok bytes ∧
    storage_file_of bytes = ms_file (save_locked Written small_store).2 ∧
    loaded_bytes bytes = Ok (ms_data small_store, ms_wallets small_store).
Proof.
  split; [split; [exact small_store_ok|by split]|]. apply (store_file_reads_back small_store small_store_ok).
  - assert (ordered (ms_data small_store) = [MultisigAddressData "4A" [MultisigTxRecord "t1" 0 7 ""] 0 ""]) as -> by reflexivity.
    repeat constructor; by try apply text_plain.
  - repeat constructor; by try apply text_plain.
  - reflexivity.
  - reflexivity.
Defined.

#[local] Existing Instance Kex.list_order.
#[local] Existing Instance Kex.list_order_laws.

Definition one_wallet : kex_registry := submits ["alice"%string].

Lemma kex_file_reads_back_witness :
  (records_ok (kx_records one_wallet) ∧ kex_file_fits (snapshot_lws_multisig_kex (kx_records one_wallet)) = true) ∧
  ∃ bytes, saved_registry (snapshot_lws_multisig_kex (kx_records one_wallet)) = Ok bytes ∧
    kex_file_of bytes = kx_file (save_lws_multisig_kex_registry true one_wallet).2 ∧
    ∀ records, loaded_registry bytes records = kx_records one_wallet.
Proof.
  assert (records_ok (kx_records one_wallet)) as Hok by exact (proj1 (submits_ok _)).
  split; [by split|]. apply (kex_file_reads_back one_wallet Hok); [|reflexivity].
  assert (snapshot_lws_multisig_kex (kx_records one_wallet) =
    [KexRecordSnapshot "w1" "miner_stake" 2 3 ["alice"; "oracle"; "dao"]%string
       [KexPeer "alice" "info of alice" 1 10000] "" "pending_peers" 10000000 10000]) as -> by reflexivity.
  repeat constructor; by try apply text_plain.
Defined.

(** A file without anything in it; one whose wallets are not a list keeps its
    addresses; one that is not JSON cannot be opened. *)
Definition wallets_broken : list Z := [123] ++ [34] ++ chars "wallets" ++ [34; 58; 55; 125].

Lemma store_file_safe_witness :
  loaded_bytes [123; 125] = Ok (∅, []) ∧
  match loaded_bytes wallets_broken with
  | Ok (data, wallets) => data = ∅ ∧ wallets = [] ∧ Forall (λ w, length (mw_participants w) ≤ 8)%nat wallets
  | Err _ => False
  end ∧
  match loaded_bytes (chars "no") with Ok _ => False | Err e => caught e end.
Proof.
  split; [reflexivity|]. split.
  - destruct (store_file_safe wallets_broken) as [Hsafe _]. assert (loaded_bytes wallets_broken = Ok (∅, [])) as Hl by (vm_compute; reflexivity).
    rewrite Hl in *. split; [reflexivity|]. split; [reflexivity|]. apply Hsafe.
  - destruct (store_file_safe (chars "no")) as [Hsafe _].
    destruct (loaded_bytes (chars "no")) as [p|e] eqn:E; [vm_compute in E; discriminate E|exact Hsafe].
Defined.
