(* ===== verification/Admin.v ===== *)
(** * Administration (src/src/rpc/admin.cpp, rpc/admin.h, admin_main.cpp, and the types [admin_endpoints] runs)

    The commands of the administration, which come over REST ([Endpoints.call_admin])
    or from the command line of lws-admin.  Each is a [handler], as those of
    [Requests]; what it writes is an [admin_response].

    Shown is that wallets and administrators together change the database by its
    transactions only, and keep it consistent as long as what they ask for is safe
    ([admin_keeps_consistent]), that a webhook that was added is found
    ([webhook_added]), that keys that were validated make an account
    ([validated_keys_open]), and that an admin account that was created
    authenticates ([create_admin_authenticates]).

    Keys, uuids and URLs are parsed by epee and checked by Monero ([AdminText]). *)

From S2P Require Import Prelude Lmdb Data Compare Tables Chain Subaddress Accounts Readers Webhooks Storage Identity Requests MultisigStore Multisig Endpoints.

#[local] Open Scope string_scope.
#[local] Open Scope Z_scope.

(** epee's [from_hex::to_buffer] of 32 and of 16 bytes, and Monero's [check_key]. *)
Class AdminText : Type := {
  hex_to_buffer : string → option Z;
  hex_to_uuid : string → option Z;
  check_key : Z → bool
}.

(** ** Requests and responses *)

Record add_account_req := AddAccountReq { aq_address : account_address; aq_key : Z }.

Record address_requests := AddressRequests {
  aq_addresses : list account_address;
  aq_max_subaddresses : Z;
  aq_type : request
}.

Record modify_account_req := ModifyAccountReq { mq_addresses : list account_address; mq_status : account_status }.

Record rescan_req := RescanReq { rr_addresses : list account_address; rr_height : Z }.

Record validate_req := ValidateReq {
  vq_spend_public_hex : string;
  vq_view_public_hex : string;
  vq_view_key_hex : string
}.

(** A payment id is its 8 bytes. *)
Record webhook_add_req := WebhookAddReq {
  hq_url : string;
  hq_token : option string;
  hq_address : option account_address;
  hq_payment_id : option (list Z);
  hq_confirmations : option Z;
  hq_type : webhook_type
}.

Record validate_error := ValidateError { ve_field : string; ve_details : string }.

(** [truncated<account>] and [truncated<request_info>] *)
Record account_row := AccountRow { ar_address : account_address; ar_scan_height : Z; ar_access_time : Z }.
Record request_row := RequestRow { qr_address : account_address; qr_start_height : Z; qr_lookahead : address_index }.

Inductive admin_response :=
  | Updated (addresses : list account_address)
  | ListedAccounts (rows : list (account_status * list account_row))
  | ListedRequests (rows : list (request * list request_row))
  | Invalid (e : validate_error)
  | Validated (address : account_address)
  | AddedWebhook (event : webhook_value)
  | EmptyObject
  | ListedWebhooks (rows : list (webhook_key * list webhook_value))
  | AdminAccount (address : account_address) (key : Z)
  | ListedAdmins (rows : list (account_status * list (account_address * Z)))
  | NewHeight (height : Z)
  | Dumped (show_sensitive : bool).

Section admin.
Context `{L : Lmdb} `{Crypto} `{UrlParser} `{AT : AdminText}.
Context (fuel : nat).
Implicit Types (d : db L).

(** ** The commands; [now] is the clock *)

Definition accept_requests_handle (now : Z) (req : address_requests) : handler admin_response :=
  updated ← writing (accept_requests fuel now (aq_type req) (aq_addresses req) (aq_max_subaddresses req));
  mret (Updated updated).

Definition add_account_handle (now : Z) (req : add_account_req) : handler admin_response :=
  _ ← writing (λ d, d ← add_account now (aq_address req) (aq_key req) 0 d; Ok (tt, d));
  mret (Updated [aq_address req]).

Definition truncated_account (a : account) : account_row := AccountRow (acc_address a) (acc_scan_height a) (acc_access a).

Definition list_accounts_handle : handler admin_response :=
  reading (λ d, Ok (ListedAccounts (map (λ row, (row.1, map truncated_account row.2)) (get_accounts d)))).

Definition truncated_request (r : request_info) : request_row := RequestRow (ri_address r) (ri_start_height r) (ri_lookahead r).

Definition list_requests_handle : handler admin_response :=
  reading (λ d, Ok (ListedRequests (map (λ row, (row.1, map truncated_request row.2)) (get_requests d)))).

Definition modify_account_handle (req : modify_account_req) : handler admin_response :=
  updated ← writing (change_status (mq_status req) (mq_addresses req));
  mret (Updated updated).

Definition reject_requests_handle (req : address_requests) : handler admin_response :=
  updated ← updating (λ d, let '(rejected, d) := reject_requests (aq_type req) (aq_addresses req) d in (Ok rejected, d));
  mret (Updated updated).

Definition rescan_handle (req : rescan_req) : handler admin_response :=
  updated ← writing (rescan (rr_height req) (rr_addresses req));
  mret (Updated updated).

(** [convert_key]; the error that is written for the field. *)
Definition convert_key (text field : string) : validate_error + Z :=
  if negb (String.length text =? 64)%nat then inl (ValidateError field "Expected 64 characters")
  else
    match hex_to_buffer text with
    | None => inl (ValidateError field "Invalid hex")
    | Some key => inr key
    end.

Definition validate (req : validate_req) : validate_error + account_address :=
  if bool_decide (vq_spend_public_hex req = vq_view_public_hex req) then
    inl (ValidateError "spend_public_hex" "spend_public_hex and view_public_hex should not be equal")
  else
    match convert_key (vq_spend_public_hex req) "spend_public_hex", convert_key (vq_view_public_hex req) "view_public_hex",
          convert_key (vq_view_key_hex req) "view_key_hex" with
    | inl e, _, _ => inl e
    | _, inl e, _ => inl e
    | _, _, inl e => inl e
    | inr spend, inr view, inr view_key =>
      if negb (check_key spend) then inl (ValidateError "spend_public_hex" "Invalid public key format")
      else if negb (check_key view) then inl (ValidateError "view_public_hex" "Invalid public key format")
      else
        match secret_key_to_public_key view_key with
        | Some test =>
          if test =? view then inr (AccountAddress view spend)
          else inl (ValidateError "view_key_hex" "view_key and view_public do not match")
        | None => inl (ValidateError "view_key_hex" "view_key and view_public do not match")
        end
    end.

Definition validate_handle (req : validate_req) : handler admin_response :=
  mret match validate req with inl e => Invalid e | inr address => Validated address end.

(** [event_id] is the random uuid. *)
Definition new_webhook (event_id : Z) (req : webhook_add_req) : webhook_value :=
  (WebhookDupsort (from_option le_combine 0 (hq_payment_id req)) event_id,
   WebhookData (hq_url req) (default "" (hq_token req)) (default 1 (hq_confirmations req))).

Definition webhook_add_handle (event_id : Z) (req : webhook_add_req) : handler admin_response :=
  _ ← require (match hq_type req with
               | tx_confirmation | tx_spend => bool_decide (hq_address req ≠ None)
               | new_account => bool_decide (hq_address req = None)
               end) bad_webhook;
  let event := new_webhook event_id req in
  _ ← writing (λ d, d ← add_webhook (hq_type req) (hq_address req) event d; Ok (tt, d));
  mret (AddedWebhook event).

Definition webhook_delete_handle (addresses : list account_address) : handler admin_response :=
  _ ← writing (λ d, d ← clear_webhooks_of addresses d; Ok (tt, d));
  mret EmptyObject.

Definition webhook_del_uuid_handle (event_ids : list Z) : handler admin_response :=
  _ ← updating (λ d, (Ok tt, clear_webhooks event_ids d));
  mret EmptyObject.

Definition webhook_list_handle : handler admin_response :=
  reading (λ d, Ok (ListedWebhooks (get_webhooks d))).

(** ** Over REST *)

(** What [admin_endpoints] run, with the readings of the clock and the random
    source they make. *)
Inductive admin_request :=
  | accept_requests_ (now : Z) (req : address_requests)
  | add_account_ (now : Z) (req : add_account_req)
  | list_accounts_
  | list_requests_
  | modify_account_ (req : modify_account_req)
  | reject_requests_ (req : address_requests)
  | rescan_ (req : rescan_req)
  | validate_ (req : validate_req)
  | webhook_add_ (event_id : Z) (req : webhook_add_req)
  | webhook_delete_ (addresses : list account_address)
  | webhook_del_uuid_ (event_ids : list Z)
  | webhook_list_.

Definition run_admin (r : admin_request) : handler admin_response :=
  match r with
  | accept_requests_ now req => accept_requests_handle now req
  | add_account_ now req => add_account_handle now req
  | list_accounts_ => list_accounts_handle
  | list_requests_ => list_requests_handle
  | modify_account_ req => modify_account_handle req
  | reject_requests_ req => reject_requests_handle req
  | rescan_ req => rescan_handle req
  | validate_ req => validate_handle req
  | webhook_add_ event_id req => webhook_add_handle event_id req
  | webhook_delete_ addresses => webhook_delete_handle addresses
  | webhook_del_uuid_ event_ids => webhook_del_uuid_handle event_ids
  | webhook_list_ => webhook_list_handle
  end.

(** [add_values]: the JSON of a request has no [max_subaddresses]. *)
Definition add_values (max : Z) (r : admin_request) : admin_request :=
  match r with
  | accept_requests_ now req => accept_requests_ now (AddressRequests (aq_addresses req) max (aq_type req))
  | reject_requests_ req => reject_requests_ (AddressRequests (aq_addresses req) max (aq_type req))
  | _ => r
  end.

Definition rest_admin (options : runtime_options) (last_verb : verb) (req : expect (Endpoints.admin admin_request)) :
    handler admin_response :=
  call_admin options last_verb req (λ r, run_admin (add_values (max_subaddresses options) r)).
End admin.

(** ** From the command line *)

(** [std::stoull] in base ten: white space, a sign (45 or 43 in ASCII), and digits, of which there is
    one; what follows them is not looked at. *)
Definition is_space (c : Ascii.ascii) : bool :=
  let n := Ascii.nat_of_ascii c in ((9 <=? n) && (n <=? 13) || (n =? 32))%nat.

Fixpoint skip_spaces (text : string) : string :=
  match text with
  | String c rest => if is_space c then skip_spaces rest else text
  | EmptyString => text
  end.

Definition digit_of (c : Ascii.ascii) : option Z :=
  let n := Z.of_nat (Ascii.nat_of_ascii c) in if (48 <=? n) && (n <=? 57) then Some (n - 48) else None.

Fixpoint leading_number (value : option Z) (text : string) : option Z :=
  match text with
  | String c rest =>
    match digit_of c with
    | Some digit => leading_number (Some (10 * default 0 value + digit)) rest
    | None => value
    end
  | EmptyString => value
  end.

Definition stoull (text : string) : expect Z :=
  let text := skip_spaces text in
  let '(negative, digits) :=
    match text with
    | String c rest =>
      if (Ascii.nat_of_ascii c =? 45)%nat then (true, rest)
      else if (Ascii.nat_of_ascii c =? 43)%nat then (false, rest)
      else (false, text)
    | EmptyString => (false, text)
    end in
  value ← of_option logic_error (leading_number None digits);
  _ ← guard_err (value <=? u64_max) logic_error;
  Ok (if negative then wrap 64 (- value) else value).

(** What the options leave; the database is that of the handlers. *)
Record program := Program {
  pg_arguments : list string;
  pg_max_subaddresses : Z;
  pg_show_sensitive : bool
}.

Definition account_status_from_string (source : string) : expect account_status :=
  match source with
  | "active" => Ok active
  | "inactive" => Ok inactive
  | "hidden" => Ok hidden
  | _ => Err (schema schema_enumeration)
  end.

Definition request_from_string (source : string) : expect request :=
  match source with
  | "create" => Ok create
  | "import" => Ok import_scan
  | _ => Err (schema schema_enumeration)
  end.

Section command_line.
Context `{L : Lmdb} `{Crypto} `{UrlParser} `{AT : AdminText} `{T : AddressText}.
Context (fuel : nat).

Definition map_err {A B} (f : A → expect B) (l : list A) : expect (list B) :=
  fold_err (λ acc a, b ← f a; Ok (acc ++ [b])%list) [] l.

Definition get_key (hex : string) : expect Z := of_option bad_view_key (hex_to_key hex).

Definition get_addresses_ (arguments : list string) : expect (list account_address) :=
  map_err (λ address, of_option bad_address (address_of_string address)) arguments.

(** The first argument is another option. *)
Definition get_addresses (arguments : list string) : expect (list account_address) := get_addresses_ (tail arguments).

Definition first_argument (arguments : list string) : string := default "" (head arguments).

(** The request each command makes of its arguments, or the exception it throws.
    The members of an aggregate are read in their order. *)
Definition prepare_address_requests (missing : error) (prog : program) : expect address_requests :=
  _ ← guard_err (2 <=? length (pg_arguments prog))%nat missing;
  addresses ← get_addresses (pg_arguments prog);
  type ← request_from_string (first_argument (pg_arguments prog));
  Ok (AddressRequests addresses (pg_max_subaddresses prog) type).

Definition prepare_add_account (prog : program) : expect add_account_req :=
  match pg_arguments prog with
  | [address; key] =>
    address ← of_option bad_address (address_of_string address);
    key ← get_key key;
    Ok (AddAccountReq address key)
  | _ => Err runtime_error
  end.

Definition prepare_modify_account (prog : program) : expect modify_account_req :=
  _ ← guard_err (2 <=? length (pg_arguments prog))%nat runtime_error;
  addresses ← get_addresses (pg_arguments prog);
  status ← account_status_from_string (first_argument (pg_arguments prog));
  Ok (ModifyAccountReq addresses status).

Definition prepare_rescan (prog : program) : expect rescan_req :=
  _ ← guard_err (2 <=? length (pg_arguments prog))%nat runtime_error;
  addresses ← get_addresses (pg_arguments prog);
  height ← stoull (first_argument (pg_arguments prog));
  Ok (RescanReq addresses height).

Definition prepare_rollback (prog : program) : expect Z :=
  match pg_arguments prog with
  | [height] => stoull height
  | _ => Err runtime_error
  end.

Definition prepare_webhook_delete (prog : program) : expect (list account_address) :=
  _ ← guard_err (1 <=? length (pg_arguments prog))%nat runtime_error;
  get_addresses_ (pg_arguments prog).

Definition prepare_webhook_delete_uuid (prog : program) : expect (list Z) :=
  _ ← guard_err (1 <=? length (pg_arguments prog))%nat runtime_error;
  map_err (λ id, of_option runtime_error (hex_to_uuid id)) (pg_arguments prog).

Definition no_arguments (prog : program) : expect unit :=
  guard_err (bool_decide (pg_arguments prog = [])) runtime_error.

(** [auth] and [view_public] are what [generate_keys] gave. *)
Definition create_admin_handle (now view_public auth : Z) : handler admin_response :=
  let address := AccountAddress view_public 0 in
  _ ← writing (λ d, d ← add_account now address auth admin_account d; Ok (tt, d));
  mret (AdminAccount address auth).

Definition is_admin (a : account) : bool := negb (Z.land (acc_flags a) admin_account =? 0).

Definition list_admin_handle : handler admin_response :=
  reading (λ d, Ok (ListedAdmins
    (map (λ row, (row.1, map (λ a, (acc_address a, acc_key a)) (List.filter is_admin row.2))) (get_accounts d)))).

Definition rollback_handle (height : Z) : handler admin_response :=
  _ ← writing (λ d, d ← rollback height d; Ok (tt, d));
  mret (NewHeight height).

Inductive command :=
  | cmd_accept_requests | cmd_add_account | cmd_create_admin | cmd_debug_database | cmd_list_accounts | cmd_list_admin
  | cmd_list_requests | cmd_modify_account | cmd_reject_requests | cmd_rescan | cmd_rollback | cmd_webhook_delete
  | cmd_webhook_delete_uuid.

Definition commands : list (string * command) := [
  ("accept_requests", cmd_accept_requests);
  ("add_account", cmd_add_account);
  ("create_admin", cmd_create_admin);
  ("debug_database", cmd_debug_database);
  ("list_accounts", cmd_list_accounts);
  ("list_admin", cmd_list_admin);
  ("list_requests", cmd_list_requests);
  ("modify_account_status", cmd_modify_account);
  ("reject_requests", cmd_reject_requests);
  ("rescan", cmd_rescan);
  ("rollback", cmd_rollback);
  ("webhook_delete", cmd_webhook_delete);
  ("webhook_delete_uuid", cmd_webhook_delete_uuid)].

(** What a command meets: the clock and the keys [generate_keys] gives. *)
Record surroundings := Surroundings { su_now : Z; su_view_public : Z; su_auth : Z }.

(** What a command calls once it has read its arguments. *)
Inductive program_call :=
  | call_admin_request (r : admin_request)
  | call_create_admin
  | call_list_admin
  | call_rollback (height : Z)
  | call_debug (show_sensitive : bool).

Definition prepare (s : surroundings) (c : command) (prog : program) : expect program_call :=
  match c with
  | cmd_accept_requests =>
    req ← prepare_address_requests runtime_error prog; Ok (call_admin_request (accept_requests_ (su_now s) req))
  | cmd_add_account => req ← prepare_add_account prog; Ok (call_admin_request (add_account_ (su_now s) req))
  | cmd_create_admin => _ ← no_arguments prog; Ok call_create_admin
  | cmd_debug_database => _ ← no_arguments prog; Ok (call_debug (pg_show_sensitive prog))
  | cmd_list_accounts => _ ← no_arguments prog; Ok (call_admin_request list_accounts_)
  | cmd_list_admin => _ ← no_arguments prog; Ok call_list_admin
  | cmd_list_requests => _ ← no_arguments prog; Ok (call_admin_request list_requests_)
  | cmd_modify_account => req ← prepare_modify_account prog; Ok (call_admin_request (modify_account_ req))
  | cmd_reject_requests =>
    req ← prepare_address_requests invalid_argument prog; Ok (call_admin_request (reject_requests_ req))
  | cmd_rescan => req ← prepare_rescan prog; Ok (call_admin_request (rescan_ req))
  | cmd_rollback => height ← prepare_rollback prog; Ok (call_rollback height)
  | cmd_webhook_delete => req ← prepare_webhook_delete prog; Ok (call_admin_request (webhook_delete_ req))
  | cmd_webhook_delete_uuid => req ← prepare_webhook_delete_uuid prog; Ok (call_admin_request (webhook_del_uuid_ req))
  end.

Definition run_call (s : surroundings) (call : program_call) : handler admin_response :=
  match call with
  | call_admin_request r => run_admin fuel r
  | call_create_admin => create_admin_handle (su_now s) (su_view_public s) (su_auth s)
  | call_list_admin => list_admin_handle
  | call_rollback height => rollback_handle height
  | call_debug show_sensitive => mret (Dumped show_sensitive)
  end.

Definition find_command (name : string) : option command :=
  match commands !! std_lower_bound (λ c : string * command, String.ltb c.1 name) commands with
  | Some found => if bool_decide (found.1 = name) then Some found.2 else None
  | None => None
  end.

Definition run_main (s : surroundings) (name : string) (prog : program) : handler admin_response :=
  call ← reading (λ _, c ← of_option runtime_error (find_command name); prepare s c prog);
  run_call s call.
End command_line.

(** ** Theorems *)

Section admin_theorems.
Context `{LL : LmdbLaws} `{C : ChainConfig} `{Crypto} `{UrlParser} `{AT : AdminText} `{T : AddressText}.
Context (options : runtime_options) (create_queue_max : Z) (fuel : nat).
Context {F : Z → Prop} (wallet_flags : F default_account ∧ F account_generated_locally).
Implicit Types (d : db L) (w : world).

(** *** Wallets and administrators together *)

(** The conditions of the careful transactions: the ids do not run out, nothing is
    rescanned from above where it is ([Accounts.rescan_above_scan_height]), and no
    address is twice in an import.  Nothing in the code sees to it. *)
Definition safe_admin (r : admin_request) d : Prop :=
  match r with
  | accept_requests_ _ req =>
    match aq_type req with
    | create => ids_left d
    | import_scan =>
      NoDup (view_public <$> aq_addresses req) ∧
      ∀ address info, address ∈ aq_addresses req →
        get_both requests import_scan (spend_public address) d = Some info → scanned_to (ri_start_height info) address d
    end
  | add_account_ _ _ => ids_left d
  | rescan_ req => ∀ address, address ∈ rr_addresses req → scanned_to (rr_height req) address d
  | _ => True
  end.

Definition safe_call (call : program_call) d : Prop :=
  match call with
  | call_admin_request r => safe_admin r d
  | call_create_admin => ids_left d
  | _ => True
  end.

(** New accounts have the flags of [F]. *)
Definition allowed_call (call : program_call) : Prop :=
  match call with call_create_admin => F admin_account | _ => True end.

(** One request of a wallet, one of an administrator, or one run of lws-admin: any,
    or when [careful] one that is safe. *)
Inductive managed (careful : bool) : db L → db L → Prop :=
  | managed_wallet d d' : served options create_queue_max fuel careful d d' → managed careful d d'
  | managed_rest last_verb req d logged_in :
      (careful = true → ∀ r, req = Ok r → safe_admin (add_values (max_subaddresses options) (ad_params r)) d) →
      managed careful d (w_disk (rest_admin fuel options last_verb req (World d logged_in)).2)
  | managed_program s name prog d logged_in :
      (∀ c call, find_command name = Some c → prepare s c prog = Ok call →
         allowed_call call ∧ (careful = true → safe_call call d)) →
      managed careful d (w_disk (run_main fuel s name prog (World d logged_in)).2).

Context (careful : bool).
Abbreviation steps := (keeps (rtc (transaction careful F))).

Lemma writing_steps {A} (f : db L → expect (A * db L)) (k : A → admin_response) w :
  (∀ a d', f (w_disk w) = Ok (a, d') → rtc (transaction careful F) (w_disk w) d') →
  steps (a ← writing f; mret (k a)) w.
Proof. intros Hf. keep keeps_writing. intros a d' Hd. split; [by eapply Hf|keep keeps_ret]. Qed.

Lemma run_admin_steps r w : (careful = true → safe_admin r (w_disk w)) → steps (run_admin fuel r) w.
Proof.
  destruct r; intros Hs; cbn [run_admin]; try (unfold keeps; reflexivity).
  - apply writing_steps. intros l d'. unfold accept_requests. simpl in Hs.
    destruct (aq_addresses req); [by intros [= _ <-]|].
    destruct (aq_type req); intros Hrun; apply rtc_once; [by eapply tx_create_accounts|].
    eapply tx_import_accounts; [by intros Hc; apply (Hs Hc)..|exact Hrun].
  - apply (writing_steps _ (λ _, Updated _)). intros [] d' (d1 & Hd1 & [= <-])%expect_bind_ok.
    apply rtc_once. eapply tx_add_account; [exact Hs|exact Hd1|apply wallet_flags].
  - apply writing_steps. intros l d' Hrun. apply rtc_once. by eapply tx_change_status.
  - keep keeps_updating; [|intros a _; keep keeps_ret]. simpl.
    destruct (reject_requests _ _ _) as [l d] eqn:E. simpl. apply rtc_once.
    pose proof (tx_reject_requests (careful := careful) (F := F) (aq_type req) (aq_addresses req) (w_disk w)) as Ht. by rewrite E in Ht.
  - apply writing_steps. intros l d' Hrun. apply rtc_once. by eapply tx_rescan.
  - unfold webhook_add_handle. keep keeps_require. intros _.
    apply (writing_steps _ (λ _, AddedWebhook _)). intros [] d' (d1 & Hd1 & [= <-])%expect_bind_ok.
    apply rtc_once. by eapply tx_add_webhook.
  - apply (writing_steps _ (λ _, EmptyObject)). intros [] d' (d1 & Hd1 & [= <-])%expect_bind_ok.
    apply rtc_once. by eapply tx_clear_webhooks_of.
  - keep keeps_updating; [|intros a _; keep keeps_ret]. simpl. apply rtc_once, tx_clear_webhooks.
Qed.

Lemma run_call_steps s call w :
  allowed_call call → (careful = true → safe_call call (w_disk w)) → steps (run_call fuel s call) w.
Proof.
  destruct call as [r| | |height|show]; intros Ha Hs; cbn [run_call]; try (unfold keeps; reflexivity).
  - by apply run_admin_steps.
  - apply (writing_steps _ (λ _, AdminAccount _ _)). intros [] d' (d1 & Hd1 & [= <-])%expect_bind_ok.
    apply rtc_once. by eapply tx_add_account.
  - apply (writing_steps _ (λ _, NewHeight _)). intros [] d' (d1 & Hd1 & [= <-])%expect_bind_ok.
    apply rtc_once. by eapply tx_rollback.
Qed.

Lemma rest_admin_steps last_verb req w :
  (careful = true → ∀ r, req = Ok r → safe_admin (add_values (max_subaddresses options) (ad_params r)) (w_disk w)) →
  steps (rest_admin fuel options last_verb req) w.
Proof.
  intros Hs. unfold rest_admin, call_admin. keep keeps_require. intros _. keep keeps_reading. intros r Hr.
  pose proof (λ Hc, Hs Hc r Hr) as Hsafe. destruct (disable_admin_auth options); [by apply run_admin_steps|].
  keep keeps_reading. intros _ _. by apply run_admin_steps.
Qed.

Lemma managed_steps d d' : (careful = true → accounts_ok d) → managed careful d d' → rtc (transaction careful F) d d'.
Proof.
  intros Hok Hm. destruct Hm as [d1 d1' Hw|last_verb req d1 logged_in Hs|s name prog d1 logged_in Hs].
  - destruct Hw as [r logged_in d2 Hs].
    apply (handle_steps options create_queue_max fuel wallet_flags careful r (World d2 logged_in)). auto.
  - exact (rest_admin_steps last_verb req (World d1 logged_in) Hs).
  - assert (∀ w, w_disk w = d1 → steps (run_main fuel s name prog) w) as Hrun.
    { intros w Hw. unfold run_main. keep keeps_reading. intros call (c & Hc%of_option_ok & Hp)%expect_bind_ok.
      destruct (Hs c call Hc Hp) as [Ha Hsafe]. apply run_call_steps; [done|]. by rewrite Hw. }
    by apply (Hrun (World d1 logged_in)).
Qed.
End admin_theorems.

Section managed_theorems.
Context `{LL : LmdbLaws} `{C : ChainConfig} `{Crypto} `{UrlParser} `{AT : AdminText} `{T : AddressText}.
Context (options : runtime_options) (create_queue_max : Z) (fuel : nat).
Context {F : Z → Prop} (wallet_flags : F default_account ∧ F account_generated_locally).
Implicit Types (d : db L).
#[local] Abbreviation managed := (managed options create_queue_max fuel (F := F)).

Lemma managed_consistent d d' :
  consistent d → rtc (managed true) d d' → consistent d' ∧ rtc (transaction true F) d d'.
Proof.
  intros Hd Hr. induction Hr as [d|d1 d2 d3 Hstep _ IH]; [by split; [|apply rtc_refl]|].
  pose proof (managed_steps options create_queue_max fuel wallet_flags true _ _ (λ _, proj1 Hd) Hstep) as Ht.
  destruct (IH (steps_consistent _ _ Ht Hd)). split; [done|by etrans].
Qed.

Lemma managed_transactions d d' : rtc (managed false) d d' → rtc (transaction false F) d d'.
Proof.
  induction 1 as [d|d1 d2 d3 Hstep _ IH]; [apply rtc_refl|]. etrans; [|exact IH].
  by apply (managed_steps options create_queue_max fuel wallet_flags false).
Qed.

(** C5: whatever wallets and administrators ask for, over REST or with lws-admin,
    in whatever order, allowed or not, the database changes by transactions of
    the storage only, and every webhook event in progress keeps its webhook.  The
    account tables stay consistent as long as every request is safe: there are ids
    left when it adds accounts, it does not rescan an account from, or import it
    at, a height above the one it was scanned to, and it does not accept an import
    of an address twice.  The code does not see to that:
    [Requests.import_above_scan_height] is a request of a wallet that is not safe
    and what it does to the tables. *)
Theorem admin_keeps_consistent d d' :
  (rtc (managed false) d d' → rtc (transaction false F) d d' ∧ (events_have_hooks d → events_have_hooks d')) ∧
  (rtc (managed true) d d' → consistent d → rtc (transaction true F) d d' ∧ consistent d').
Proof.
  split.
  - intros Ht%managed_transactions. split; [done|]. by apply transactions_hooks with false F.
  - intros Hr Hd. destruct (managed_consistent _ _ Hd Hr). by split.
Qed.
End managed_theorems.

(** *** The command line *)

(** The table of commands is in order, so that the search finds each of them and
    nothing else. *)
Lemma commands_found name c : find_command name = Some c ↔ (name, c) ∈ commands.
Proof.
  split.
  - unfold find_command. destruct (commands !! _) as [[n c0]|] eqn:E; [|done].
    simpl. case_bool_decide as Hn; [|done]. intros [= <-]. subst n. by eapply list_elem_of_lookup_2.
  - revert name c. assert (Forall (λ e : string * command, find_command e.1 = Some e.2) commands) as Hall.
    { repeat (apply Forall_cons; split; [by vm_compute|]). by apply Forall_nil. }
    intros name c Hin. rewrite Forall_forall in Hall. exact (Hall _ Hin).
Qed.

(** What follows the digits is not looked at, and a sign wraps: a rollback to 1e6
    is one to block 1. *)
Lemma stoull_prefix : stoull "1e6" = Ok 1 ∧ stoull "-1" = Ok u64_max ∧ stoull " 42" = Ok 42 ∧ stoull "x" = Err logic_error.
Proof. done. Qed.

(** *** Adding an account *)

Section account_theorems.
Context `{LL : LmdbLaws} `{C : ChainConfig} `{Crypto} `{UrlParser} `{AT : AdminText} `{T : AddressText}.
Implicit Types (d : db L) (w : world).

(** With the key of an address that is not known, and a fresh id, nothing is in
    the way. *)
Lemma do_add_account_fresh user d :
  accounts_ok d → (∀ s a, a ∈ dups accounts s d → acc_id a ≠ acc_id user) →
  secret_key_to_public_key (acc_key user) = Some (view_public (acc_address user)) →
  find_by_address (acc_address user) d = None →
  ∃ d', do_add_account user d = Ok d' ∧ accounts_ok d' ∧
    user ∈ dups accounts (if acc_flags user =? admin_account then hidden else active) d'.
Proof.
  intros Hok Hfresh Hkey Hnew. pose proof (do_add_account_new user d Hkey Hnew) as Hadd.
  destruct (do_add_account user d) as [d'|e] eqn:E.
  - exists d'. split_and!; [done|by eapply do_add_account_ok|done].
  - exfalso. unfold do_add_account in E. rewrite Hkey in E. simpl in E. rewrite Z.eqb_refl in E. simpl in E.
    set (status := if acc_flags user =? admin_account then hidden else active) in *.
    destruct (put_nodup accounts_by_address _ _ _) as [d1|] eqn:E1; simpl in E;
      [|subst e; by injection E].
    apply put_nodup_Ok in E1 as [-> _].
    destruct (put_nodup accounts_by_height _ _ _) as [d2|] eqn:E2; simpl in E.
    + apply put_nodup_Ok in E2 as [-> _]. apply put_nodup_Err in E as [_ Hin].
      apply Hin, get_both_None. intros u Hu. simpl.
      rewrite (dups_put_other accounts_by_height _ _ _ accounts) in Hu by done.
      rewrite (dups_put_other accounts_by_address _ _ _ accounts) in Hu by done. by eapply Hfresh.
    + apply put_nodup_Err in E2 as [_ Hin]. apply Hin, get_both_None. intros lk Hlk. simpl.
      rewrite (dups_put_other accounts_by_address _ _ _ accounts_by_height) in Hlk by done.
      apply (ao_height _ Hok) in Hlk as (a & Ha & <- & _). by eapply Hfresh.
Qed.

Lemma add_account_fresh now address key flags height d :
  accounts_ok d → ids_left d → 0 <= now <= u32_max → bi_id <$> get_last_block d = Ok height →
  secret_key_to_public_key key = Some (view_public address) → find_by_address address d = None →
  ∃ d' user, add_account now address key flags d = Ok d' ∧ accounts_ok d' ∧
    user ∈ dups accounts (if flags =? admin_account then hidden else active) d' ∧
    acc_address user = address ∧ acc_key user = key ∧ acc_flags user = flags ∧ acc_scan_height user = height.
Proof.
  intros Hok Hids Hnow Hlast Hkey Hnew. unfold add_account.
  assert (get_account_time now = Ok now) as ->.
  { unfold get_account_time. destruct (Z.ltb_spec now 0), (Z.ltb_spec u32_max now); (done || lia). }
  simpl. rewrite Hlast. simpl. set (user := {| acc_id := _ |}).
  destruct (do_add_account_fresh user d) as (d' & Hrun & Hok' & Hin); [done| |done|done|].
  - intros s a Ha%find_last_id_max. simpl. unfold ids_left, u32_max in Hids. rewrite wrap_small by lia. lia.
  - by exists d', user.
Qed.

(** What a database holds after an account was added. *)
Lemma add_account_accounts now address key flags d d' :
  accounts_ok d → ids_left d → add_account now address key flags d = Ok d' →
  accounts_ok d' ∧ ∃ user, acc_address user = address ∧ acc_key user = key ∧ acc_flags user = flags ∧
    ∀ s a, a ∈ dups accounts s d' ↔
      (s = (if flags =? admin_account then hidden else active) ∧ a = user) ∨ a ∈ dups accounts s d.
Proof.
  intros Hok Hids Hrun. split; [by eapply add_account_ok|]. unfold add_account in Hrun.
  apply expect_bind_ok in Hrun as (time & _ & Hrun). apply expect_bind_ok in Hrun as (height & _ & Hrun).
  match type of Hrun with do_add_account ?u d = _ => set (user := u) in * end. exists user. split_and!; [done..|].
  assert (∀ s a, a ∈ dups accounts s d → acc_id a ≠ acc_id user) as Hfresh.
  { intros s a Ha%find_last_id_max. simpl. unfold ids_left, u32_max in Hids. rewrite wrap_small by lia. lia. }
  unfold do_add_account in Hrun. apply expect_bind_ok in Hrun as (verify & _ & Hrun).
  apply expect_bind_ok in Hrun as (_ & _ & Hrun). apply expect_bind_ok in Hrun as (d1 & Hd1 & Hrun).
  destruct (put_nodup accounts_by_address _ _ _) as [d1'|] eqn:E1; [|done]. injection Hd1 as <-.
  apply put_nodup_Ok in E1 as [-> _]. apply expect_bind_ok in Hrun as (d2 & [-> _]%put_nodup_Ok & [-> _]%put_nodup_Ok).
  intros s a. rewrite (elem_of_dups_put accounts).
  rewrite (dups_put_other accounts_by_height _ _ _ accounts) by done.
  rewrite (dups_put_other accounts_by_address _ _ _ accounts) by done. simpl. split.
  - intros [[<- ->]|[Ha _]]; [by left|by right].
  - intros [[-> ->]|Ha]; [by left|right]. split; [done|]. intros _. by eapply Hfresh.
Qed.

(** *** Keys that were validated *)

Lemma convert_key_ok text field key :
  convert_key text field = inr key ↔ String.length text = 64%nat ∧ hex_to_buffer text = Some key.
Proof.
  unfold convert_key. destruct (Nat.eqb_spec (String.length text) 64) as [Hl|Hl]; simpl; [|naive_solver].
  destruct (hex_to_buffer text); naive_solver.
Qed.

Lemma validate_ok req address :
  validate req = inr address →
  ∃ key, hex_to_buffer (vq_view_key_hex req) = Some key ∧
    hex_to_buffer (vq_view_public_hex req) = Some (view_public address) ∧
    hex_to_buffer (vq_spend_public_hex req) = Some (spend_public address) ∧
    check_key (view_public address) = true ∧ check_key (spend_public address) = true ∧
    secret_key_to_public_key key = Some (view_public address).
Proof.
  unfold validate. case_bool_decide; [done|].
  destruct (convert_key (vq_spend_public_hex req) _) as [e|spend] eqn:E1; [done|].
  destruct (convert_key (vq_view_public_hex req) _) as [e|view] eqn:E2; [done|].
  destruct (convert_key (vq_view_key_hex req) _) as [e|key] eqn:E3; [done|].
  apply convert_key_ok in E1 as [_ E1], E2 as [_ E2], E3 as [_ E3].
  destruct (check_key spend) eqn:Hs; [|done]. destruct (check_key view) eqn:Hv; [|done]. simpl.
  destruct (secret_key_to_public_key key) as [test|] eqn:Hk; [|done].
  destruct (Z.eqb_spec test view) as [->|]; [|done]. intros [= <-]. by exists key.
Qed.

(** When the keys of a request are found valid, the account with the address
    of the answer can be added with the view key, unless the view key is in use,
    and the view key then opens it; it is scanned from the last block on. *)
Theorem validated_keys_open req address now height d :
  validate req = inr address →
  accounts_ok d → ids_left d → 0 <= now <= u32_max → bi_id <$> get_last_block d = Ok height →
  find_by_address address d = None →
  ∃ key d' user, hex_to_buffer (vq_view_key_hex req) = Some key ∧
    add_account_handle now (AddAccountReq address key) (World d false) = (Ok (Updated [address]), World d' false) ∧
    open_account (AccountCredentials address key) d' = Ok user ∧ acc_scan_height user = height.
Proof.
  intros (key & Hkey & _ & _ & _ & _ & Hpub)%validate_ok Hok Hids Hnow Hlast Hnew.
  destruct (add_account_fresh now address key 0 height d) as (d' & user & Hadd & Hok' & Hin & Ha & _ & _ & Hh); [done..|].
  exists key, d', user. split_and!; [done| | |done].
  - unfold add_account_handle, writing, mbind, handler_bind. simpl. by rewrite Hadd.
  - apply open_account_iff; [done|]. split_and!; [done..|]. by exists active.
Qed.

(** *** Admin accounts *)

(** The key of an admin account that was created authenticates from then on,
    those of the others still do, and no wallet can open the account. *)
Theorem create_admin_authenticates now pub auth w w' r :
  accounts_ok (w_disk w) → ids_left (w_disk w) → secret_key_to_public_key auth = Some pub →
  create_admin_handle now pub auth w = (Ok r, w') →
  admin_auth (Some auth) (w_disk w') = Ok tt ∧
  (∀ key, admin_auth (Some key) (w_disk w) = Ok tt → admin_auth (Some key) (w_disk w') = Ok tt) ∧
  open_account (AccountCredentials (AccountAddress pub 0) auth) (w_disk w') = Err account_not_found.
Proof.
  intros Hok Hids Hkey Hrun. unfold create_admin_handle in Hrun.
  apply handler_bind_ok in Hrun as ([] & w1 & Hw & [= _ <-]). apply writing_ok in Hw as (d1 & Hadd & ->).
  apply expect_bind_ok in Hadd as (d' & Hadd & [= <-]). cbn [w_disk].
  apply add_account_accounts in Hadd as (Hok' & user & Ha & _ & Hf & Hin); [|done|done].
  assert (user ∈ dups accounts hidden d') as Huser by (apply Hin; by left).
  split_and!.
  - apply admin_auth_ok; [done|]. exists auth, pub, hidden, user. split_and!; [done..|]. by rewrite Hf.
  - intros key. rewrite !admin_auth_ok by done. intros (k & v & s & a & Hk & Hv & Hina & Hrest).
    exists k, v, s, a. split_and!; [done..| |apply Hrest|apply Hrest|apply Hrest]. apply Hin. by right.
  - unfold open_account, key_check. cbn [cr_key cr_address view_public]. rewrite Hkey. simpl. rewrite Z.eqb_refl. simpl.
    assert (get_account (AccountAddress pub 0) d' = Ok (hidden, user)) as -> by by apply get_account_iff.
    done.
Qed.

(** *** Webhooks *)

(** A webhook that was added is found under its account, or under none when it
    is for new accounts, and its payment id, like those that were there and have
    another id; deleting its id leaves those that were there.  One for
    transactions has an account of the database, one for new accounts none. *)
Theorem webhook_added event_id req w w' r :
  (∀ key v, v ∈ dups webhooks key (w_disk w) → 0 <= wd_event_id v.1) → 0 <= event_id →
  webhook_add_handle event_id req w = (Ok r, w') →
  let event := new_webhook event_id req in
  r = AddedWebhook event ∧ (hq_address req = None ↔ hq_type req = new_account) ∧
  ∃ user, match hq_address req with
          | None => user = account_id_invalid
          | Some address => ∃ v, find_by_address address (w_disk w) = Some v ∧ user = lk_id (aba_lookup v)
          end ∧
    (∀ key payment_id v, v ∈ find_webhook key payment_id (w_disk w') ↔
       (key = WebhookKey user (hq_type req) ∧ payment_id = wd_payment_id event.1 ∧ v = event) ∨
       (v ∈ find_webhook key payment_id (w_disk w) ∧ (key = WebhookKey user (hq_type req) → v.1 ≠ event.1))) ∧
    ((∀ key v, v ∈ dups webhooks key (w_disk w) → wd_event_id v.1 ≠ event_id) →
     ∀ key payment_id v, v ∈ find_webhook key payment_id (clear_webhooks [event_id] (w_disk w')) ↔
       v ∈ find_webhook key payment_id (w_disk w)).
Proof.
  intros Hids Hid Hrun event. unfold webhook_add_handle in Hrun. fold event in Hrun.
  apply handler_bind_ok in Hrun as ([] & w1 & [Hreq ->]%require_ok & Hrun).
  apply handler_bind_ok in Hrun as ([] & w1 & Hw & [= <- <-]). apply writing_ok in Hw as (d1 & Hadd & ->).
  apply expect_bind_ok in Hadd as (d' & Hadd & [= <-]). cbn [w_disk].
  unfold add_webhook in Hadd. apply expect_bind_ok in Hadd as ([] & _ & Hadd).
  set (user := match hq_address req with Some _ => _ | None => _ end) in *.
  apply expect_bind_ok in Hadd as ([] & Hg%guard_err_ok%negb_true_iff & [= <-]).
  split; [done|]. split.
  { destruct (hq_type req), (hq_address req); simpl in Hreq; try done; by case_bool_decide. }
  exists user. set (d := w_disk w) in *. set (own := WebhookKey user (hq_type req)).
  assert (∀ key v, v ∈ dups webhooks key (put webhooks own event d) ↔
    (own = key ∧ v = event) ∨ (v ∈ dups webhooks key d ∧ (own = key → v.1 ≠ event.1))) as Hput
    by (intros; apply (elem_of_dups_put webhooks)).
  assert (∀ key v, v ∈ dups webhooks key (put webhooks own event d) → 0 <= wd_event_id v.1) as Hids'.
  { intros key v [[_ ->]|[Hv _]]%Hput; [done|by eapply Hids]. }
  destruct (clear_webhooks_elem [event_id] (put webhooks own event d)) as [Hclear _].
  split_and!.
  - destruct (hq_address req) as [address|] eqn:Ea; [|done]. destruct (find_by_address address d) as [v|] eqn:Ev.
    + by exists v.
    + exfalso. change user with account_id_invalid in Hg. rewrite Z.eqb_refl in Hg. simpl in Hg. destruct (hq_type req); simpl in *; by try case_bool_decide; naive_solver.
  - intros key payment_id v. rewrite !find_webhook_exact, Hput by eauto. naive_solver.
  - intros Hfresh key payment_id v. rewrite !find_webhook_exact, Hclear, Hput; [|by eauto|].
    + split; [|intros [Hv Hp]; split_and!; try done; [right; split; [done|]|]].
      * intros [[[[_ ->]|[Hv _]] Hn] Hp]; [|done]. simpl in Hn. set_solver.
      * intros _ Heq. apply (Hfresh key v Hv). by rewrite Heq.
      * rewrite list_elem_of_singleton. by eapply Hfresh.
    + intros w1 [Hw1 _]%Hclear. by eapply Hids'.
Qed.
(** *** Who is an administrator *)

Definition not_admin (flags : Z) : Prop := Z.land flags admin_account = 0.

Lemma not_admin_wallet : not_admin default_account ∧ not_admin account_generated_locally.
Proof. by split. Qed.

End account_theorems.

(** ** Examples *)

#[local] Existing Instance ListDb.lmdb.
#[local] Existing Instance test_crypto.
#[local] Existing Instance test_config.
#[local] Existing Instance test_text.
#[local] Instance test_urls : UrlParser := {| parse_url url := Some "https" |}.

(** A key is the first digit of its text. *)
#[local] Instance test_admin_text : AdminText := {|
  hex_to_buffer text := head (map (λ c, Z.of_nat (Ascii.nat_of_ascii c) - 48) (String.list_ascii_of_string text));
  hex_to_uuid text := Some 1;
  check_key key := 0 <? key
|}.

Definition repeated (digit : string) : string := String.concat "" (replicate 64 digit).

Definition test_validate : validate_req := ValidateReq (repeated "8") (repeated "7") (repeated "7").

Lemma validated_keys_open_witness :
  ∃ key d' user, add_account_handle 1000 (AddAccountReq (AccountAddress 7 8) key) (World account_db false) =
      (Ok (Updated [AccountAddress 7 8]), World d' false) ∧
    open_account (AccountCredentials (AccountAddress 7 8) key) d' = Ok user ∧ acc_scan_height user = 4.
Proof.
  destruct (validated_keys_open test_validate (AccountAddress 7 8) 1000 4 account_db)
    as (key & d' & user & _ & Hadd & Hopen & Hheight);
    [reflexivity|apply account_db_ok|vm_compute; split; [discriminate|reflexivity]|unfold u32_max; lia|reflexivity|reflexivity|].
  exists key, d', user. split; [exact Hadd|]. split; [exact Hopen|exact Hheight].
Defined.

Definition admin_world : world := (create_admin_handle 1000 9 9 (World account_db false)).2.

Lemma create_admin_authenticates_witness :
  admin_auth (Some 9) (w_disk admin_world) = Ok tt ∧
  open_account (AccountCredentials (AccountAddress 9 0) 9) (w_disk admin_world) = Err account_not_found.
Proof.
  destruct (create_admin_authenticates 1000 9 9 (World account_db false) admin_world (AdminAccount (AccountAddress 9 0) 9))
    as (Hauth & _ & Hopen); [apply account_db_ok|vm_compute; split; [discriminate|reflexivity]|reflexivity|reflexivity|].
  split; [exact Hauth|exact Hopen].
Defined.

Definition test_hook_request : webhook_add_req :=
  WebhookAddReq "https://hook" None (Some (test_address 6)) (Some [5; 0; 0; 0; 0; 0; 0; 0]) (Some 3) tx_confirmation.

Lemma webhook_added_witness :
  ∃ w, webhook_add_handle 77 test_hook_request (World account_db false) =
      (Ok (AddedWebhook (WebhookDupsort 5 77, WebhookData "https://hook" "" 3)), w) ∧
    find_webhook (WebhookKey 1 tx_confirmation) 5 (w_disk w) = [(WebhookDupsort 5 77, WebhookData "https://hook" "" 3)] ∧
    find_webhook (WebhookKey 1 tx_confirmation) 5 (clear_webhooks [77] (w_disk w)) = [].
Proof.
  destruct (webhook_add_handle 77 test_hook_request (World account_db false)) as [[r|e] w] eqn:E; [|vm_compute in E; discriminate E].
  destruct (webhook_added 77 test_hook_request (World account_db false) w r) as (Hr & _ & user & _ & _ & Hback);
    [intros key v Hv; vm_compute in Hv; by apply elem_of_nil in Hv|lia|exact E|].
  exists w. split; [by rewrite Hr|]. split; [vm_compute in E; injection E as <- <-; reflexivity|].
  vm_compute in E. injection E as <- <-. reflexivity.
Defined.

Definition admin_options : runtime_options := RuntimeOptions 1000 false true true false false 0 0.

Definition add_account_request : expect (Endpoints.admin admin_request) :=
  Ok (Admin (add_account_ 1000 (AddAccountReq (test_address 7) 7)) (Some 9)).

Definition managed_db : db ListDb.lmdb :=
  w_disk (rest_admin 10 admin_options verb_post add_account_request (World (w_disk admin_world) false)).2.

Lemma managed_db_reached : rtc (managed admin_options 10 10 (F := not_admin) true) (w_disk admin_world) managed_db.
Proof.
  apply rtc_once. apply (managed_rest admin_options 10 10 true verb_post add_account_request (w_disk admin_world) false).
  intros _ r [= <-]. vm_compute. split; [discriminate|reflexivity].
Qed.

Lemma admin_world_consistent : consistent (w_disk admin_world).
Proof.
  split; [|intros u e He; vm_compute in He; by apply elem_of_nil in He].
  apply (add_account_ok (H := test_crypto) 1000 (AccountAddress 9 0) 9 admin_account account_db);
    [apply account_db_ok|vm_compute; split; [discriminate|reflexivity]|reflexivity].
Qed.

Lemma admin_keeps_consistent_witness :
  consistent managed_db ∧ open_account (creds 7) managed_db = Ok (test_account 3 7 4).
Proof.
  split; [|reflexivity].
  apply (admin_keeps_consistent admin_options 10 10 not_admin_wallet (w_disk admin_world)).
  - exact managed_db_reached.
  - exact admin_world_consistent.
Defined.

