(* ===== verification/AdminRpc.v ===== *)
(** * The requests of administrators (src/src/rpc/admin.cpp, rest_server.cpp)

    The codecs ([Rpc.jcodec]) of the requests that [Admin] serves, inside the
    [admin<T>] of rest_server.cpp that carries the key, and how a posted text gets to
    its handler.

    Shown is that whatever text is written for such a request gives it
    ([admin_requests_arrive]), and that a server whose every port takes whatever bytes
    arrive keeps its database consistent, as long as no request asks for what is not
    safe ([server_keeps_consistent]). *)

From S2P Require Import Prelude Lmdb Data Tables Chain Accounts Webhooks Storage Wire Json Messages Requests MultisigStore Multisig Endpoints Rpc Admin.

#[local] Open Scope string_scope.
#[local] Open Scope Z_scope.

(** ** Codecs *)

(** A [read_bytes] that converts what it read, where it stands in the text. *)
Definition jchecked {A} (e : schema_error) (c : jcodec A) : jcodec A :=
  JCodec A (JChecked (λ v, match jc_of c v with Ok _ => true | Err _ => false end) e (jc_type c))
    (jc_to c) (jc_of c) (jc_ok c).

(** [type_from_string] and [get_string] of [WIRE_DEFINE_ENUM] *)
Definition from_string {A} (table : list (string * A)) (source : string) : option A :=
  (λ found, found.2.2) <$> list_find (λ entry, entry.1 = source) table.

Definition get_string {A} `{EqDecision A} (table : list (string * A)) (source : A) : string :=
  from_option (λ found, found.2.1) "invalid enum value" (list_find (λ entry, entry.2 = source) table).

Definition jenum {A} `{EqDecision A} (table : list (string * A)) : jcodec A :=
  jchecked schema_enumeration (JCodec A JString (λ a, jc_to jstring (get_string table a))
    (λ v, s ← jc_of jstring v; of_option (schema schema_enumeration) (from_string table s))
    (λ a, from_string table (get_string table a) = Some a)).

Definition map_account_status : list (string * account_status) :=
  [("active", active); ("inactive", inactive); ("hidden", hidden)].
Definition map_request : list (string * request) := [("create", create); ("import", import_scan)].
Definition map_webhook_type : list (string * webhook_type) :=
  [("tx-confirmation", tx_confirmation); ("new-account", new_account); ("tx-spend", tx_spend)].

(** A uuid *)
Definition juuid : jcodec Z :=
  JCodec Z (JBlob 16) (λ z, VBytes (Msgpack.be_split 16 z))
    (λ v, match v with VBytes l => Ok (Msgpack.be_combine l) | _ => no_shape end) (λ z, 0 <= z < 2 ^ 128).

(** [crypto::hash8] *)
Definition jhash8 : jcodec (list Z) :=
  JCodec (list Z) (JBlob 8) VBytes (λ v, match v with VBytes l => Ok l | _ => no_shape end) (λ _, True).

Section admin_requests.
Context `{T : AddressText}.

Definition wire_unwrap (source : string) : expect account_address :=
  of_option (schema schema_string) (address_of_string source).

Definition address_ok (a : account_address) : Prop := address_of_string (string_of_address a) = Some a.

(** [base58_address] *)
Definition jaddress : jcodec account_address :=
  jchecked schema_string (JCodec account_address JString (λ a, jc_to jstring (string_of_address a))
    (λ v, s ← jc_of jstring v; wire_unwrap s) address_ok).

Definition jadd_account : jcodec add_account_req :=
  JCodec add_account_req (JObject [jfield "address" jaddress; jfield "key" jkey])
    (λ r, VObject [Some (jc_to jaddress (aq_address r)); Some (jc_to jkey (aq_key r))])
    (λ v, match v with
          | VObject [address; key] =>
            address ← need jaddress address; key ← need jkey key; Ok (AddAccountReq address key)
          | _ => no_shape
          end) (λ r, address_ok (aq_address r) ∧ jc_ok jkey (aq_key r)).

(** [read_addresses]: strings, that are converted after the object. *)
Definition jaddresses : jcodec (list string) := jlist 64 None jstring.

Definition addresses_to (l : list account_address) : option value := Some (jc_to jaddresses (map string_of_address l)).

Definition addresses_of (v : option value) : expect (list account_address) :=
  l ← need jaddresses v; mapM wire_unwrap l.

Definition jaddress_requests : jcodec address_requests :=
  jchecked schema_string
    (JCodec address_requests (JObject [jfield "addresses" jaddresses; jfield "type" (jenum map_request)])
      (λ r, VObject [addresses_to (aq_addresses r); Some (jc_to (jenum map_request) (aq_type r))])
      (λ v, match v with
            | VObject [l; type] =>
              type ← need (jenum map_request) type; l ← addresses_of l; Ok (AddressRequests l 0 type)
            | _ => no_shape
            end) (λ r, Forall address_ok (aq_addresses r) ∧ aq_max_subaddresses r = 0)).

Definition jmodify_account : jcodec modify_account_req :=
  jchecked schema_string
    (JCodec modify_account_req (JObject [jfield "addresses" jaddresses; jfield "status" (jenum map_account_status)])
      (λ r, VObject [addresses_to (mq_addresses r); Some (jc_to (jenum map_account_status) (mq_status r))])
      (λ v, match v with
            | VObject [l; status] =>
              status ← need (jenum map_account_status) status; l ← addresses_of l; Ok (ModifyAccountReq l status)
            | _ => no_shape
            end) (λ r, Forall address_ok (mq_addresses r))).

Definition jrescan : jcodec rescan_req :=
  jchecked schema_string
    (JCodec rescan_req (JObject [jfield "addresses" jaddresses; jfield "height" (juint 8)])
      (λ r, VObject [addresses_to (rr_addresses r); Some (VInteger (rr_height r))])
      (λ v, match v with
            | VObject [l; height] => height ← need (juint 8) height; l ← addresses_of l; Ok (RescanReq l height)
            | _ => no_shape
            end) (λ r, Forall address_ok (rr_addresses r))).

Definition jvalidate : jcodec validate_req :=
  JCodec validate_req
    (JObject [jfield "spend_public_hex" jstring; jfield "view_public_hex" jstring; jfield "view_key_hex" jstring])
    (λ r, VObject [Some (jc_to jstring (vq_spend_public_hex r)); Some (jc_to jstring (vq_view_public_hex r));
                   Some (jc_to jstring (vq_view_key_hex r))])
    (λ v, match v with
          | VObject [spend; view; key] =>
            spend ← need jstring spend; view ← need jstring view; key ← need jstring key; Ok (ValidateReq spend view key)
          | _ => no_shape
          end) (λ _, True).

Definition jwebhook_add : jcodec webhook_add_req :=
  jchecked schema_string
    (JCodec webhook_add_req
      (JObject [jfield "type" (jenum map_webhook_type); jfield "url" jstring; joptional "token" jstring;
                joptional "address" jstring; joptional "payment_id" jhash8; joptional "confirmations" (juint 4)])
      (λ r, VObject [Some (jc_to (jenum map_webhook_type) (hq_type r)); Some (jc_to jstring (hq_url r));
                     jc_to jstring <$> hq_token r; jc_to jstring ∘ string_of_address <$> hq_address r;
                     VBytes <$> hq_payment_id r; VInteger <$> hq_confirmations r])
      (λ v, match v with
            | VObject [type; url; token; address; payment_id; confirmations] =>
              type ← need (jenum map_webhook_type) type; url ← need jstring url; token ← maybe jstring token;
              address ← maybe jstring address; payment_id ← maybe jhash8 payment_id;
              confirmations ← maybe (juint 4) confirmations;
              address ← match address with Some s => a ← wire_unwrap s; Ok (Some a) | None => Ok None end;
              Ok (WebhookAddReq url token address payment_id confirmations type)
            | _ => no_shape
            end) (λ r, match hq_address r with Some a => address_ok a | None => True end)).

Definition jwebhook_delete : jcodec (list account_address) :=
  jchecked schema_string
    (JCodec (list account_address) (JObject [jfield "addresses" jaddresses]) (λ l, VObject [addresses_to l])
      (λ v, match v with VObject [l] => addresses_of l | _ => no_shape end) (Forall address_ok)).

Definition juuids : jcodec (list Z) := jlist 16 None juuid.

(** A vector may be left out of its object, when it is empty. *)
Definition jwebhook_del_uuid : jcodec (list Z) :=
  JCodec (list Z) (JObject [jdefaulted "event_ids" juuids []]) (λ l, VObject [Some (jc_to juuids l)])
    (λ v, match v with VObject [l] => need juuids l | _ => no_shape end) (jc_ok juuids).

(** [admin<T>]: the key may be left out. *)
Definition jadmin {A} (c : jcodec A) : jcodec (Endpoints.admin A) :=
  JCodec (Endpoints.admin A) (JObject [joptional "auth" jkey; jfield "params" c])
    (λ r, VObject [jc_to jkey <$> ad_auth r; Some (jc_to c (ad_params r))])
    (λ v, match v with
          | VObject [auth; params] => auth ← maybe jkey auth; params ← need c params; Ok (Admin params auth)
          | _ => no_shape
          end) (λ r, opt_ok jkey (ad_auth r) ∧ jc_ok c (ad_params r)).

(** [admin<expect<void>>] *)
Definition jadmin_void : jcodec (Endpoints.admin unit) :=
  JCodec (Endpoints.admin unit) (JObject [joptional "auth" jkey]) (λ r, VObject [jc_to jkey <$> ad_auth r])
    (λ v, match v with VObject [auth] => auth ← maybe jkey auth; Ok (Admin tt auth) | _ => no_shape end)
    (λ r, opt_ok jkey (ad_auth r)).

End admin_requests.

(** ** The codecs keep their promises *)

Lemma jchecked_laws {A} e (c : jcodec A) : JCodecLaws c → JCodecLaws (jchecked e c).
Proof.
  intros Hc. split; [exact (jc_readable (c := c))| |exact (jc_of_to (c := c))].
  intros v Hv. cbn [jc_type jchecked has_json_type] in Hv. apply andb_prop in Hv as [Hv _]. by apply (jc_converts (c := c)).
Qed.

Lemma converts_of_option {A} e (o : option A) : caught e → converts (of_option e o).
Proof. by destruct o. Qed.

#[export] Instance jenum_laws {A} `{EqDecision A} (table : list (string * A)) : JCodecLaws (jenum table).
Proof.
  apply jchecked_laws. split; [done| |].
  - intros v Hv. destruct v; try done. cbn. by apply converts_of_option.
  - intros a Ha. cbn. rewrite char_list_chars. cbn in Ha. by rewrite Ha.
Qed.

#[export] Instance juuid_laws : JCodecLaws juuid.
Proof.
  split; [done|by intros []|]. intros z Hz. cbn -[Msgpack.be_split]. f_equal. by apply Msgpack.be_combine_split.
Qed.

#[export] Instance jhash8_laws : JCodecLaws jhash8.
Proof. split; [done|by intros []|done]. Qed.

#[export] Instance juuids_laws : JCodecLaws juuids.
Proof. by apply jlist_laws; [apply _|]. Qed.

#[export] Instance jaddresses_laws : JCodecLaws jaddresses.
Proof. by apply jlist_laws; [apply _|]. Qed.

Section admin_laws.
Context `{T : AddressText}.

Lemma unwrap_converts s : converts (wire_unwrap s).
Proof. by apply converts_of_option. Qed.

Lemma unwrap_address a : address_ok a → wire_unwrap (string_of_address a) = Ok a.
Proof. intros Ha. unfold wire_unwrap. by rewrite Ha. Qed.

#[export] Instance jaddress_laws : JCodecLaws jaddress.
Proof.
  apply jchecked_laws. split; [done| |].
  - intros v Hv. destruct v; try done. cbn. apply unwrap_converts.
  - intros a Ha. cbn. rewrite char_list_chars. by apply unwrap_address.
Qed.

Lemma addresses_converts f v : f_presence f ≠ Optional → field_has_type f (has_json_type (jc_type jaddresses)) v = true →
  converts (addresses_of v).
Proof.
  intros Hf Hv. unfold addresses_of. apply converts_bind; [by apply (converts_need jaddresses f)|intros l].
  induction l as [|s l IH]; [done|]. cbn. apply converts_bind; [apply unwrap_converts|intros a].
  by apply converts_bind.
Qed.

Lemma addresses_of_to l : Forall address_ok l → addresses_of (addresses_to l) = Ok l.
Proof.
  intros Hl. unfold addresses_of, addresses_to, need. rewrite jc_of_to by (by apply Forall_true).
  cbn [mbind expect_bind]. induction Hl as [|a l Ha _ IH]; [done|]. cbn in *. rewrite unwrap_address by done. cbn.
  by rewrite IH.
Qed.

Ltac convert_addresses := convert_fields; try (eapply addresses_converts; [|eassumption]; discriminate);
  try (apply converts_bind; [eapply addresses_converts; [|eassumption]; discriminate|intros ?; done]).

#[export] Instance jadd_account_laws : JCodecLaws jadd_account.
Proof.
  split; [done|take_fields; convert_fields|]. intros [a key] [Ha Hk]. cbn -[jaddress jkey]. cbn [aq_address aq_key] in *.
  rewrite (jc_of_to (c := jaddress)) by done. cbn -[jkey]. by rewrite (jc_of_to (c := jkey)).
Qed.

#[export] Instance jaddress_requests_laws : JCodecLaws jaddress_requests.
Proof.
  apply jchecked_laws. split; [done|take_fields; convert_addresses|].
  intros [l max type] [Hl Hmax]. cbn [aq_addresses aq_max_subaddresses] in *. subst max.
  destruct type; cbn -[addresses_of addresses_to]; by rewrite addresses_of_to.
Qed.

#[export] Instance jmodify_account_laws : JCodecLaws jmodify_account.
Proof.
  apply jchecked_laws. split; [done|take_fields; convert_addresses|].
  intros [l status] Hl. cbn [jc_ok mq_addresses] in Hl.
  destruct status; cbn -[addresses_of addresses_to]; by rewrite addresses_of_to.
Qed.

#[export] Instance jrescan_laws : JCodecLaws jrescan.
Proof.
  apply jchecked_laws. split; [done|take_fields; convert_addresses|].
  intros [l height] Hl. cbn -[addresses_of addresses_to]. by rewrite addresses_of_to.
Qed.

#[export] Instance jvalidate_laws : JCodecLaws jvalidate.
Proof.
  split; [done|take_fields; convert_fields|]. intros [] _. cbn -[jstring].
  by rewrite !(jc_of_to (c := jstring)) by done.
Qed.

#[export] Instance jwebhook_add_laws : JCodecLaws jwebhook_add.
Proof.
  apply jchecked_laws. split; [done|take_fields; convert_fields|].
  - apply converts_bind; [|done].
    match goal with |- converts (match ?o with _ => _ end) => destruct o as [s|]; [|done] end.
    apply converts_bind; [apply unwrap_converts|done].
  - intros [url token a payment_id confirmations type] Ha. cbn [jc_ok hq_address] in Ha.
    destruct type, token, a, payment_id, confirmations; cbn -[jstring string_of_address wire_unwrap];
      rewrite ?(jc_of_to (c := jstring)) by done; cbn -[jstring string_of_address wire_unwrap];
      by rewrite ?unwrap_address by done.
Qed.

#[export] Instance jwebhook_delete_laws : JCodecLaws jwebhook_delete.
Proof.
  apply jchecked_laws. split; [done|take_fields; eapply addresses_converts; [|eassumption]; discriminate|].
  intros l Hl. cbn -[addresses_of addresses_to]. by apply addresses_of_to.
Qed.

#[export] Instance jwebhook_del_uuid_laws : JCodecLaws jwebhook_del_uuid.
Proof.
  split; [done|take_fields; eapply converts_need; [apply _| |eassumption]; discriminate|].
  intros l Hl. cbn -[juuids]. by apply (jc_of_to (c := juuids)).
Qed.

Lemma jadmin_laws {A} (c : jcodec A) : JCodecLaws c → json_depth (jc_type c) < 98 → JCodecLaws (jadmin c).
Proof.
  intros Hc Hd. split.
  - destruct (jc_readable (c := c)) as [Hok _]. pose proof (json_depth_nonneg (jc_type c)). split; [|cbn; lia].
    cbn. by rewrite Hok.
  - take_fields. apply converts_bind; [eapply converts_maybe; [apply _|eassumption]|intros ?].
    apply converts_bind; [eapply converts_need; [apply _| |eassumption]; discriminate|done].
  - intros [params auth] [Ha Hp]. cbn [ad_auth ad_params] in *. cbn -[jkey maybe]. rewrite (maybe_to jkey) by done. cbn.
    by rewrite jc_of_to.
Qed.

#[export] Instance jadmin_void_laws : JCodecLaws jadmin_void.
Proof.
  split; [done|take_fields; convert_fields|]. intros [[] auth] Ha. cbn [jc_ok jadmin_void ad_auth] in Ha.
  cbn -[jkey maybe]. by rewrite (maybe_to jkey).
Qed.

End admin_laws.

(** ** From the text of a request to its handler *)

Record admin_endpoint `{AddressText} := AdminEndpoint {
  am_params : Type;
  am_codec : jcodec (Endpoints.admin am_params);
  am_to : am_params → admin_request;
  am_laws : JCodecLaws am_codec }.

Section serving.
Context `{T : AddressText} `{J : JsonLibrary} `{L : Lmdb} `{Crypto} `{UrlParser} `{AT : AdminText}.
Context (options : runtime_options) (create_queue_max : Z) (fuel : nat) (now later event_id : Z).
(** What the endpoints run that are neither about accounts nor for administrators. *)
Context (other : rest_call → verb → string → handler unit).

Definition params_endpoint {A} (c : jcodec A) `{Hc : !JCodecLaws c} (to : A → admin_request)
    (Hd : json_depth (jc_type c) < 98) : admin_endpoint :=
  AdminEndpoint _ A (jadmin c) to (jadmin_laws c Hc Hd).

(** The request of an endpoint for administrators. *)
Definition admin_endpoint_of (h : rest_call) : option admin_endpoint :=
  match h with
  | Endpoints.accept_requests_ =>
    Some (params_endpoint jaddress_requests (accept_requests_ now) eq_refl)
  | Endpoints.add_account_ => Some (params_endpoint jadd_account (add_account_ now) eq_refl)
  | Endpoints.list_accounts_ => Some (AdminEndpoint _ unit jadmin_void (λ _, list_accounts_) _)
  | Endpoints.list_requests_ => Some (AdminEndpoint _ unit jadmin_void (λ _, list_requests_) _)
  | Endpoints.modify_account_ => Some (params_endpoint jmodify_account modify_account_ eq_refl)
  | Endpoints.reject_requests_ => Some (params_endpoint jaddress_requests reject_requests_ eq_refl)
  | Endpoints.rescan_ => Some (params_endpoint jrescan rescan_ eq_refl)
  | Endpoints.validate_ => Some (params_endpoint jvalidate validate_ eq_refl)
  | Endpoints.webhook_add_ => Some (params_endpoint jwebhook_add (webhook_add_ event_id) eq_refl)
  | Endpoints.webhook_delete_ => Some (params_endpoint jwebhook_delete webhook_delete_ eq_refl)
  | Endpoints.webhook_del_uuid_ => Some (params_endpoint jwebhook_del_uuid webhook_del_uuid_ eq_refl)
  | Endpoints.webhook_list_ => Some (AdminEndpoint _ unit jadmin_void (λ _, webhook_list_) _)
  | _ => None
  end.

(** What was read, as the request of [Admin]. *)
Definition admin_of (ae : admin_endpoint) (r : Endpoints.admin (am_params ae)) : Endpoints.admin admin_request :=
  Admin (am_to ae (ad_params r)) (ad_auth r).

(** [call_admin] of such an endpoint. *)
Definition admin_call (ae : admin_endpoint) (method : verb) (body : string) : handler unit :=
  ignore (rest_admin fuel options method (r ← request_of (am_codec ae) (chars body); Ok (admin_of ae r))).

Definition run_administration (h : rest_call) (method : verb) (body : string) : handler unit :=
  match admin_endpoint_of h with
  | Some ae => admin_call ae method body
  | None => other h method body
  end.

(** The server, with the endpoints of accounts before. *)
Definition serve_all : internal → string → option Z → verb → string → world → http_response unit * world :=
  serve_rest options create_queue_max fuel now later run_administration.
End serving.

Section served.
Context `{T : AddressText} `{J : JsonTexts} `{L : Lmdb} `{Crypto} `{UrlParser} `{AT : AdminText}.
Context (options : runtime_options) (create_queue_max : Z) (fuel : nat) (now later event_id : Z).
Context (other : rest_call → verb → string → handler unit).
#[local] Abbreviation serve := (serve_all options create_queue_max fuel now later event_id other).

(** Every admin endpoint has its request. *)
Lemma admin_endpoints_served e : e ∈ admin_endpoints →
  ∃ h ae, ep_run e = Some h ∧ admin_endpoint_of now event_id h = Some ae ∧ account_endpoint_of now later h = None.
Proof.
  revert e. apply Forall_forall.
  repeat (apply Forall_cons; split; [eexists _, _; split_and!; reflexivity|]). by apply Forall_nil.
Qed.

Lemma serve_admin prefix p e h ae size body w :
  e ∈ admin_endpoints → ep_run e = Some h → admin_endpoint_of now event_id h = Some ae → size <= ep_max_size e →
  serve (Internal p (Some prefix)) (prefix ++ ep_name e) (Some size) verb_post body w =
    respond (admin_call options fuel ae verb_post body w).
Proof.
  intros He Hh Hae Hsize. destruct (admin_endpoints_served e He) as (h' & ae' & Hh' & _ & Hnone).
  rewrite Hh in Hh'. injection Hh' as <-.
  unfold serve_all, serve_rest, async_response, get_endpoint. cbn [port_admin_prefix mbind option_bind].
  rewrite strip_prefix_app, admin_endpoints_search, Hh by done. cbn [default]. rewrite (proj2 (Z.ltb_ge _ _)) by done.
  rewrite bool_decide_eq_false_2 by done. unfold run_rest. rewrite Hnone. unfold run_administration. rewrite Hae.
  unfold respond. destruct (admin_call _ _ _ _ _ w) as [[out|err] w']; cbn; [|done]. by rewrite orb_true_r.
Qed.

(** The request that an administrator posts under the admin prefix of a port, in
    any JSON text that is not longer than the endpoint allows, is what is authenticated
    and run, and every admin endpoint has its request. *)
Theorem admin_requests_arrive prefix p e h ae r w s rest size body world :
  e ∈ admin_endpoints → ep_run e = Some h → admin_endpoint_of now event_id h = Some ae →
  jc_ok (am_codec ae) r → json_text (jc_type (am_codec ae)) (jc_to (am_codec ae) r) s → blank w → ends rest →
  chars body = (w ++ s ++ rest)%list → size <= ep_max_size e →
  serve (Internal p (Some prefix)) (prefix ++ ep_name e) (Some size) verb_post body world =
    respond (ignore (rest_admin fuel options verb_post (Ok (admin_of ae r))) world).
Proof.
  intros He Hh Hae Hr Hs Hw Hrest Hbody Hsize. pose proof (am_laws ae). rewrite (serve_admin _ _ _ h ae) by done.
  unfold admin_call. rewrite Hbody, (request_of_text _ (jc_to (am_codec ae) r) r); try done. by apply jc_of_to.
Qed.
End served.

Section consistent.
Context `{T : AddressText} `{J : JsonLibrary} `{LL : LmdbLaws} `{C : ChainConfig} `{Crypto} `{UrlParser} `{AT : AdminText}.
Context (options : runtime_options) (create_queue_max : Z) (fuel : nat) (now later event_id : Z).
Context (other : rest_call → verb → string → handler unit).
Context {F : Z → Prop} (wallet_flags : F default_account ∧ F account_generated_locally).
#[local] Abbreviation serve := (serve_all options create_queue_max fuel now later event_id other).
#[local] Abbreviation commits := (rtc (transaction true F)).

(** What the storage leaves to whoever asks: the side conditions of the request that
    the body holds. *)
Definition safe_body (h : rest_call) (body : string) (d : db L) : Prop :=
  (∀ ae r, account_endpoint_of now later h = Some ae → request_of (ae_codec ae) (chars body) = Ok r →
     safe_request options (ae_to ae r) d) ∧
  (∀ ae r, admin_endpoint_of now event_id h = Some ae → request_of (am_codec ae) (chars body) = Ok r →
     safe_admin (add_values (max_subaddresses options) (am_to ae (ad_params r))) d).

(** C7: Whatever is sent to whatever address of the server, to wallets or
    administrators, by any method and of any length, the database changes by
    transactions of the storage only and stays consistent, as long as the handlers of
    the other endpoints see to it and what is asked for is safe: ids do not run out,
    and nothing is rescanned from above where it is. *)
Theorem server_keeps_consistent port target size method body w :
  consistent (w_disk w) →
  (∀ e h, get_endpoint port target = Some e → ep_run e = Some h → safe_body h body (w_disk w)) →
  (∀ h, account_endpoint_of now later h = None → admin_endpoint_of now event_id h = None →
     commits (w_disk w) (w_disk (other h method body w).2)) →
  let w' := (serve port target size method body w).2 in
  commits (w_disk w) (w_disk w') ∧ consistent (w_disk w').
Proof.
  intros Hd Hsafe Hother w'. assert (commits (w_disk w) (w_disk w')) as Hc; [|by eauto using steps_consistent].
  unfold w', serve_all.
  destruct (serve_runs options create_queue_max fuel now later (run_administration options fuel now event_id other)
    port target size method body w) as [->|(e & h & He & Hh & ->)]; [apply rtc_refl|].
  destruct (Hsafe e h He Hh) as [Haccount Hadmin]. unfold run_rest.
  destruct (account_endpoint_of now later h) as [ae|] eqn:Hae.
  { apply account_call_commits; [done|apply Hd|]. intros r. by apply Haccount. }
  unfold run_administration. destruct (admin_endpoint_of now event_id h) as [ae|] eqn:Ham; [|by apply Hother].
  unfold admin_call, ignore.
  apply (keeps_bind commits (rest_admin fuel options method _) (λ _, mret tt)); [|intros a _; apply rtc_refl].
  apply (rest_admin_steps options fuel wallet_flags true). intros _ r (q & Hq & [= <-])%expect_bind_ok. by apply Hadmin.
Qed.
End consistent.

(** ** Examples *)

#[local] Existing Instance ListDb.lmdb.
#[local] Existing Instance test_crypto.
#[local] Existing Instance test_config.
#[local] Existing Instance test_urls.
#[local] Existing Instance test_admin_text.

#[local] Instance seven_text : AddressText := {|
  get_account_address_from_str s :=
    if bool_decide (s = "seven") then Some (AddressParseInfo (test_address 7) false false) else None;
  string_of_address _ := "seven";
  hex_to_hash _ := None;
  hex_to_key _ := None;
  hash_to_hex _ := "";
  derive_public_key _ _ _ := None
|}.

#[local] Open Scope list_scope.

(** [{"address":"seven", "key":"00...07"}] *)
Definition params_text : list Z :=
  [123] ++ quoted "address" ++ [] ++ [58] ++ [] ++ quoted "seven" ++
  ([] ++ [44] ++ [32]) ++ quoted "key" ++ [] ++ [58] ++ [] ++ quoted (key_digits "07") ++ ([] ++ [125]).

(** [{"auth":"00...09", "params":...}] *)
Definition add_text : list Z :=
  [123] ++ quoted "auth" ++ [] ++ [58] ++ [] ++ quoted (key_digits "09") ++
  ([] ++ [44] ++ [32]) ++ quoted "params" ++ [] ++ [58] ++ [] ++ params_text ++ ([] ++ [125]).

Definition add_body : string := char_list add_text.
Definition add_request : Endpoints.admin add_account_req := Admin (AddAccountReq (test_address 7) 7) (Some 9).

Lemma params_text_is : json_text (jc_type jadd_account) (jc_to jadd_account (ad_params add_request)) params_text.
Proof.
  apply (text_object [jfield "address" jaddress; jfield "key" jkey]
    [(0%nat, VBytes (chars "seven")); (1%nat, jc_to jkey 7)]).
  - eapply first_member; [reflexivity|by apply (quoted_spells "address")| |].
    { apply text_checked; [by apply (quoted_text "seven")|reflexivity]. }
    eapply next_member; [reflexivity|by apply (quoted_spells "key")| |apply members_end, blank_nil].
    by apply quoted_key.
  - vm_compute. repeat constructor; set_solver.
  - vm_compute. repeat constructor; set_solver.
  - vm_compute. repeat constructor.
Qed.

Lemma add_text_is : json_text (jc_type (jadmin jadd_account)) (jc_to (jadmin jadd_account) add_request) add_text.
Proof.
  apply (text_object [joptional "auth" jkey; jfield "params" jadd_account]
    [(0%nat, jc_to jkey 9); (1%nat, jc_to jadd_account (ad_params add_request))]).
  - eapply first_member; [reflexivity|by apply (quoted_spells "auth")|by apply quoted_key|].
    eapply next_member; [reflexivity|by apply (quoted_spells "params")|exact params_text_is|apply members_end, blank_nil].
  - vm_compute. repeat constructor; set_solver.
  - vm_compute. repeat constructor; set_solver.
  - vm_compute. repeat constructor.
Qed.

Definition add_account_endpoint : endpoint := Endpoint "/add_account" (Some Endpoints.add_account_) (50 * 1024) false.

Lemma add_account_endpoint_is : add_account_endpoint ∈ admin_endpoints.
Proof. right. left. Qed.

Lemma admin_requests_arrive_witness :
  serve_all admin_options 10 10 1000 1001 77 no_other (Internal None (Some "/admin")) "/admin/add_account" (Some 300)
    verb_post add_body (World (w_disk admin_world) false) = (Respond http_ok (Some tt), World managed_db false).
Proof.
  etrans.
  - apply (admin_requests_arrive admin_options 10 10 1000 1001 77 no_other "/admin" None add_account_endpoint
      Endpoints.add_account_ (params_endpoint jadd_account (add_account_ 1000) eq_refl) add_request [] add_text [] 300);
      [exact add_account_endpoint_is|reflexivity|reflexivity| |exact add_text_is|exact blank_nil|exact I
      |reflexivity|vm_compute; discriminate].
    split; [cbn; lia|]. split; [reflexivity|cbn; lia].
  - reflexivity.
Defined.

Lemma server_keeps_consistent_witness :
  let w := (serve_all admin_options 10 10 1000 1001 77 no_other (Internal None (Some "/admin")) "/admin/add_account"
    (Some 300) verb_post add_body (World (w_disk admin_world) false)).2 in
  rtc (transaction true not_admin) (w_disk admin_world) (w_disk w) ∧ consistent (w_disk w).
Proof.
  apply (server_keeps_consistent admin_options 10 10 1000 1001 77 no_other not_admin_wallet _ _ _ _ _
    (World (w_disk admin_world) false)).
  - exact admin_world_consistent.
  - intros e h He Hh. vm_compute in He. injection He as <-. injection Hh as <-. split; [discriminate|].
    intros ae r [= <-] _. vm_compute. split; [discriminate|reflexivity].
  - intros h _ _. apply rtc_refl.
Defined.
