(* ===== verification/HttpClient.v ===== *)
(** * The HTTP client (src/src/net/http/client.cpp)

    Webhooks and the feeds of exchange rates are sent with a client that has one
    connection and a queue of messages.  A coroutine on the strand of the client
    takes the messages in turn: it resolves the host, connects, makes the TLS
    handshake, writes, reads, tells the one who asked, and keeps the connection for
    the next message when it can.

    The coroutine is cut at its yields: a suspended coroutine is a [position], and
    [resume] runs it with what the operation it waited for completed with up to
    the next yield.  The variables that are local to [operator()] start afresh on
    every resumption, as they do in the code.  What is done to the network is
    recorded as a list of [http_action]s.  The network, the parser of URLs and the
    time are arguments or events ([http_event]) that come in any order.

    Shown is that whoever asks is told once and in order, whatever the network does,
    as long as nothing arrives during the last TLS shutdown ([http_answers]); that
    the coroutine ends with an empty queue ([http_drains]); what the connection is
    used for ([http_protocol]); and what happens when something does arrive
    ([two_loops]). *)

From stdpp Require Import pretty.
From S2P Require Import Prelude.

Definition http_version : Z := 11.
Definition max_port : Z := 2 ^ 16 - 1.

(** [boost::system::error_code], when it is an error. *)
Inductive error_code :=
  | host_not_found
  | operation_not_supported
  | other_error (code : Z).

(** A message; its notifier is known by a number. *)
Record message := Message {
  m_json_body : string;
  m_notifier : option nat;
  m_host : string;
  m_target : string;
  m_port : Z;
  m_https : bool }.

Inductive verb := get | post.

Record http_request := HttpRequest {
  hq_verb : verb;
  hq_target : string;
  hq_version : Z;
  hq_body : string;
  hq_fields : list (string * string) }.

Record http_response := HttpResponse {
  hp_status : Z;
  hp_keep_alive : bool;
  hp_body : string }.

(** What the parser of URLs gives ([epee]). *)
Record url_content := UrlContent {
  u_schema : string;
  u_host : string;
  u_port : Z;
  u_uri : string }.

(** Where the coroutine waits. *)
Inductive position :=
  | At_start
  | At_resolve
  | At_connect
  | At_handshake
  | At_write
  | At_read
  | At_shutdown.

#[global] Instance position_eq_dec : EqDecision position.
Proof. solve_decision. Defined.

(** [async_write] and [async_read] are for a message and go through TLS or use the
    socket below it, as the message says; [ToldThat] is a call of a notifier. *)
Inductive http_action {E : Type} :=
  | Resolve (host service : string)
  | Connect (endpoint : option E)
  | ClearBuffer
  | ServerName (host : string)
  | Handshake
  | Write (m : message) (r : http_request)
  | Read (m : message)
  | ToldThat (notifier : nat) (error : option error_code) (body : string)
  | SslShutdown
  | Shutdown
  | Close
  | NewSocket
  | CancelAll
  | Enqueued (m : message).
Arguments http_action : clear implicits.

(** What an operation completes with. *)
Inductive completion {E : Type} :=
  | Started
  | Resolved (error : option error_code) (ips : list E)
  | Completed (error : option error_code)
  | Received (error : option error_code) (r : http_response).
Arguments completion : clear implicits.

(** [client_state]; [s_timer] is the iteration the timer was last armed for, if
    it is armed. *)
Record client_state {E : Type} := ClientState {
  outgoing : list message;
  last_host : string;
  s_endpoint : option E;
  s_timer : option Z;
  iteration : Z }.
Arguments client_state : clear implicits.
Arguments ClientState {E}.

Definition new_client_state {E} : client_state E := ClientState [] "" None None 0.

(** A coroutine writes to the state and to the network; [None] is the use of the
    front of an empty queue. *)
Definition M (E A : Type) : Type :=
  client_state E → list (http_action E) → option (A * client_state E * list (http_action E)).

#[global] Instance m_ret E : MRet (M E) := λ A a s l, Some (a, s, l).
#[global] Instance m_bind E : MBind (M E) := λ A B f m s l,
  match m s l with
  | Some (a, s', l') => f a s' l'
  | None => None
  end.

Definition emit {E} (a : http_action E) : M E unit := λ s l, Some (tt, s, l ++ [a]).
Definition ask {E} : M E (client_state E) := λ s l, Some (s, s, l).
Definition change {E} (f : client_state E → client_state E) : M E unit := λ s l, Some (tt, f s, l).

Definition front {E} : M E message := λ s l,
  match outgoing s with
  | m :: _ => Some (m, s, l)
  | [] => None
  end.

Definition with_outgoing {E} (ms : list message) (s : client_state E) : client_state E :=
  ClientState ms (last_host s) (s_endpoint s) (s_timer s) (iteration s).

(** What the body of the loop comes to: a yield, or its part after the nested
    conditions with [error] and [reuse]. *)
Inductive jump :=
  | Yields (p : position)
  | Rest (error : option error_code) (reuse : bool).

(** How a round ends: the coroutine waits for the TLS shutdown, or the loop starts
    again. *)
Inductive round_end :=
  | Waits
  | Again (reuse : bool) (error : option error_code).

Section http_client.
Context {E : Type} (parse_url : string → option url_content) (is_v6 : string → bool)
  (version_string : string) (prepare_payload : http_request → http_request)
  (close_error : client_state E → option error_code).

Definition standard_port (m : message) : bool :=
  (m_https m && (m_port m =? 443)) || (negb (m_https m) && (m_port m =? 80)).

Definition host_header (m : message) : string :=
  if is_v6 (m_host m) then
    String.app "[" (String.app (m_host m) (String.app "]:" (pretty (m_port m))))
  else if standard_port m then m_host m
  else String.app (m_host m) (String.app ":" (pretty (m_port m))).

Definition make_request (m : message) : http_request :=
  prepare_payload (HttpRequest (match m_notifier m with Some _ => get | None => post end) (m_target m) http_version (m_json_body m)
    ([("User-Agent"%string, version_string)] ++
     (if decide (m_json_body m = ""%string) then [] else [("Content-Type"%string, "application/json"%string)]) ++
     [("Host"%string, host_header m)])).

(** The body is moved out of the message. *)
Definition without_body (m : message) : message :=
  Message "" (m_notifier m) (m_host m) (m_target m) (m_port m) (m_https m).

Definition move_body (s : client_state E) : client_state E :=
  match outgoing s with
  | m :: ms => with_outgoing (without_body m :: ms) s
  | [] => s
  end.

Definition async_write : M E unit :=
  m ← front;
  _ ← change move_body;
  emit (Write m (make_request m)).

Definition async_read : M E unit :=
  m ← front;
  emit (Read m).

Definition notify (m : message) (error : option error_code) (body : string) : M E unit :=
  match m_notifier m with
  | Some n => emit (ToldThat n error body)
  | None => mret tt
  end.

Definition notify_error (e : error_code) : M E unit :=
  m ← front;
  notify m (Some e) "".

(** Only the last timer that was armed is waited for; it expires for the iteration
    it was armed in. *)
Definition set_timeout : M E unit :=
  change (λ s, ClientState (outgoing s) (last_host s) (s_endpoint s) (Some (iteration s)) (iteration s)).

(** The parts of the loop between its yields, each with [error] and [reuse]. *)
Definition after_handshake (error : option error_code) (reuse : bool) : M E jump :=
  match error with
  | Some _ => mret (Rest error reuse)
  | None => _ ← async_write; mret (Yields At_write)
  end.

Definition after_connect (error : option error_code) (reuse : bool) : M E jump :=
  match error with
  | Some _ => mret (Rest error reuse)
  | None =>
    m ← front;
    if negb reuse && m_https m then
      _ ← emit (ServerName (m_host m));
      _ ← emit Handshake;
      mret (Yields At_handshake)
    else after_handshake error reuse
  end.

Definition after_resolve (error : option error_code) (reuse : bool) : M E jump :=
  match error with
  | Some _ => mret (Rest error reuse)
  | None =>
    if reuse then after_connect error reuse
    else
      s ← ask;
      _ ← emit (Connect (s_endpoint s));
      mret (Yields At_connect)
  end.

Definition round (error : option error_code) (reuse : bool) : M E jump :=
  _ ← set_timeout;
  if reuse then after_resolve error reuse
  else
    m ← front;
    _ ← emit (Resolve (m_host m) (pretty (m_port m)));
    mret (Yields At_resolve).

Definition after_write (error : option error_code) : M E jump :=
  match error with
  | Some _ => mret (Rest error false)
  | None => _ ← async_read; mret (Yields At_read)
  end.

Definition after_read (error : option error_code) (r : http_response) : M E jump :=
  match error with
  | Some _ => mret (Rest error false)
  | None =>
    if negb (hp_status r =? 200) && negb (hp_status r =? 201) then
      _ ← notify_error operation_not_supported;
      mret (Rest None false)
    else
      m ← front;
      _ ← notify m None (hp_body r);
      mret (Rest None (hp_keep_alive r))
  end.

(** Closing the connection; [error] is what closing it left there. *)
Definition cleanup (is_https : bool) : M E (option error_code) :=
  _ ← emit Shutdown;
  _ ← emit Close;
  s ← ask;
  _ ← (if is_https then emit NewSocket else mret tt);
  mret (close_error s).

Definition next_iteration : M E unit :=
  change (λ s, ClientState (outgoing s) (last_host s) (s_endpoint s) (s_timer s) (wrap 64 (iteration s + 1))).

Definition pop_front : M E message :=
  m ← front;
  _ ← change (λ s, ClientState (tail (outgoing s)) (m_host m) (s_endpoint s) (s_timer s) (iteration s));
  mret m.

(** Whether the connection is kept for the next message. *)
Definition reusable (m : message) (s : client_state E) : bool :=
  match outgoing s with
  | next :: _ => bool_decide (last_host s = m_host next) && (m_port m =? m_port next)
  | [] => false
  end.

Definition rest (error : option error_code) (reuse : bool) : M E round_end :=
  _ ← match error with Some e => notify_error e | None => mret tt end;
  m ← pop_front;
  s ← ask;
  if reuse && reusable m s then
    _ ← next_iteration;
    mret (Again true error)
  else if m_https m then
    _ ← emit SslShutdown;
    mret Waits
  else
    e ← cleanup false;
    _ ← next_iteration;
    mret (Again false e).

(** The loop from a jump on: where the coroutine waits next, or [None] when it has
    ended.  [fuel] bounds the rounds that end without a yield. *)
Fixpoint loop (fuel : nat) (j : jump) : M E (option position) :=
  match j, fuel with
  | Yields p, _ => mret (Some p)
  | Rest error reuse, S fuel =>
    r ← rest error reuse;
    match r with
    | Waits => mret (Some At_shutdown)
    | Again reuse error =>
      s ← ask;
      match outgoing s with
      | [] => mret None
      | _ => j ← round error reuse; loop fuel j
      end
    end
  | Rest _ _, O => λ _ _, None
  end.

Definition set_endpoint (ip : E) : M E unit :=
  change (λ s, ClientState (outgoing s) (last_host s) (Some ip) (s_timer s) (iteration s)).

(** The beginning and the end of the loop, where the loop starts again. *)
Definition again (error : option error_code) (reuse : bool) : M E (option position) :=
  s ← ask;
  match outgoing s with
  | [] => mret None
  | _ => j ← round error reuse; loop (length (outgoing s)) j
  end.

Definition from_here (part : M E jump) : M E (option position) :=
  s ← ask;
  j ← part;
  loop (length (outgoing s)) j.

(** [resolve::operator()]: what the coroutine goes on with. *)
Definition resolve_done (error : option error_code) (ips : list E) : M E (option error_code) :=
  match error, ips with
  | Some e, _ => mret (Some e)
  | None, [] => mret (Some host_not_found)
  | None, ip :: _ => _ ← set_endpoint ip; mret None
  end.

(** [client_loop::operator()]; [None] when the operation is not the one that is
    waited for. *)
Definition resume (p : position) (c : completion E) : option (M E (option position)) :=
  match p, c with
  | At_start, Started => Some (again None false)
  | At_resolve, Resolved error ips =>
    Some (e ← resolve_done error ips; from_here (after_resolve e false))
  | At_connect, Completed error =>
    Some (_ ← emit ClearBuffer; from_here (after_connect error false))
  | At_handshake, Completed error => Some (from_here (after_handshake error false))
  | At_write, Completed error => Some (from_here (after_write error))
  | At_read, Received error r => Some (from_here (after_read error r))
  | At_shutdown, Completed _ =>
    Some (e ← cleanup true; _ ← next_iteration; again e false)
  | _, _ => None
  end.

(** ** The client

    [state_] is weak: the state lives as long as a coroutine, a function that was
    dispatched to the strand or the handler of a timer holds it. *)

Record client := Client {
  c_state : option (client_state E);
  c_loops : list position;
  c_posted : list message;
  c_expired : list Z }.

Definition new_client : client := Client None [] [] [].

(** What happens: a call of [queue_async], a function of it that runs on the
    strand, an operation that completes, the timer that expires and its handler
    that runs. *)
Inductive http_event :=
  | Queue (url json_body : string) (notifier : option nat)
  | Dispatched (i : nat)
  | Completes (i : nat) (c : completion E)
  | Expires
  | TimedOut.

(** The message of a URL. *)
Definition queue_message (url json_body : string) (notifier : option nat) : expect message :=
  match parse_url url with
  | None => Err bad_url
  | Some parsed =>
    _ ← guard_err (u_port parsed <=? max_port) bad_url;
    _ ← guard_err (bool_decide (u_schema parsed = "http"%string ∨ u_schema parsed = "https"%string)) bad_url;
    let port := if u_port parsed =? 0
                then if decide (u_schema parsed = "http"%string) then 80 else 443
                else u_port parsed in
    let uri := if decide (u_uri parsed = ""%string) then "/"%string else u_uri parsed in
    Ok (Message json_body notifier (u_host parsed) uri port (bool_decide (u_schema parsed = "https"%string)))
  end.

(** [queue_async]: a new state with its loop, or a function for the strand of the
    one that is there. *)
Definition queue_async (url json_body : string) (notifier : option nat) (c : client)
  : expect unit * (client * list (http_action E)) :=
  match queue_message url json_body notifier with
  | Err e => (Err e, (c, []))
  | Ok msg =>
    (Ok tt,
     match c_state c with
     | None =>
       (Client (Some (with_outgoing [msg] new_client_state)) (c_loops c ++ [At_start]) (c_posted c) (c_expired c),
        [Enqueued msg])
     | Some s => (Client (Some s) (c_loops c) (c_posted c ++ [msg]) (c_expired c), [])
     end)
  end.

Definition post_async (url json_body : string) (c : client) := queue_async url json_body None c.

(** A function that is null is a [std::logic_error]. *)
Definition get_async (url : string) (notifier : option nat) (c : client)
  : expect (expect unit * (client * list (http_action E))) :=
  match notifier with
  | None => Err logic_error
  | Some _ => Ok (queue_async url "" notifier c)
  end.

(** The function that [queue_async] dispatches. *)
Definition push_message (msg : message) (s : client_state E) : client_state E * list position :=
  (with_outgoing (outgoing s ++ [msg]) s, match outgoing s with [] => [At_start] | _ => [] end).

(** The handler of a timer. *)
Definition on_timeout (armed : Z) (s : client_state E) : list (http_action E) :=
  if armed <? iteration s then [] else [CancelAll].

(** The state goes with the last one that holds it. *)
Definition release (c : client) : client :=
  match c_state c, c_loops c, c_posted c, c_expired c with
  | Some s, [], [], [] => match s_timer s with Some _ => c | None => new_client end
  | _, _, _, _ => c
  end.

Inductive step_result :=
  | Refused
  | Undefined
  | Next (c : client) (l : list (http_action E)).

Definition http_step (e : http_event) (c : client) : step_result :=
  match e, c_state c with
  | Queue url body notifier, _ =>
    let '(c, l) := (queue_async url body notifier c).2 in Next c l
  | Dispatched i, Some s =>
    match c_posted c !! i with
    | Some msg =>
      let '(s, started) := push_message msg s in
      Next (Client (Some s) (c_loops c ++ started) (delete i (c_posted c)) (c_expired c)) [Enqueued msg]
    | None => Refused
    end
  | Completes i completed, Some s =>
    match c_loops c !! i with
    | Some p =>
      match resume p completed with
      | Some run =>
        match run s [] with
        | Some (next, s, l) =>
          let loops := match next with Some p => <[i := p]> (c_loops c) | None => delete i (c_loops c) end in
          Next (release (Client (Some s) loops (c_posted c) (c_expired c))) l
        | None => Undefined
        end
      | None => Refused
      end
    | None => Refused
    end
  | Expires, Some s =>
    match s_timer s with
    | Some armed =>
      Next (Client (Some (ClientState (outgoing s) (last_host s) (s_endpoint s) None (iteration s)))
              (c_loops c) (c_posted c) (c_expired c ++ [armed])) []
    | None => Refused
    end
  | TimedOut, Some s =>
    match c_expired c with
    | armed :: later => Next (release (Client (Some s) (c_loops c) (c_posted c) later)) (on_timeout armed s)
    | [] => Refused
    end
  | _, None => Refused
  end.

(** What a run of events comes to; what cannot happen is left out. *)
Fixpoint http_run (es : list http_event) (c : client) : option (client * list (http_action E)) :=
  match es with
  | [] => Some (c, [])
  | e :: es =>
    match http_step e c with
    | Refused => http_run es c
    | Undefined => None
    | Next c l => '(c, l') ← http_run es c; Some (c, l ++ l')
    end
  end.

End http_client.
Arguments client : clear implicits.
Arguments http_event : clear implicits.

(** ** Rules for the parts of the coroutine *)

(** Started in [s] with [l] behind it, [m] comes to an end in which [Q] holds. *)
Definition comes_to {E A} (m : M E A) (s : client_state E) (l : list (http_action E))
    (Q : A → client_state E → list (http_action E) → Prop) : Prop :=
  match m s l with
  | Some (a, s, l) => Q a s l
  | None => False
  end.

Lemma comes_to_bind {E A B} (m : M E A) (f : A → M E B) s l Q :
  comes_to (m ≫= f) s l Q ↔ comes_to m s l (λ a s l, comes_to (f a) s l Q).
Proof. unfold comes_to, mbind, m_bind. by destruct (m s l) as [[[??]?]|]. Qed.

Lemma comes_to_ret {E A} (a : A) s l (Q : A → client_state E → list (http_action E) → Prop) :
  comes_to (mret a) s l Q ↔ Q a s l.
Proof. done. Qed.

Lemma comes_to_mono {E A} (m : M E A) s l (Q R : A → client_state E → list (http_action E) → Prop) :
  comes_to m s l Q → (∀ a s l, Q a s l → R a s l) → comes_to m s l R.
Proof. unfold comes_to. destruct (m s l) as [[[??]?]|]; naive_solver. Qed.

Section coroutine_rules.
Context {E : Type} (is_v6 : string → bool) (version_string : string)
  (prepare_payload : http_request → http_request) (close_error : client_state E → option error_code).
Notation loop_ := (loop is_v6 version_string prepare_payload close_error).
Notation round_ := (round is_v6 version_string prepare_payload).
Notation rest_ := (rest close_error).
Notation again_ := (again is_v6 version_string prepare_payload close_error).
Notation from_here_ := (from_here is_v6 version_string prepare_payload close_error).

(** What holds after the parts of a round, when it starts again and when the
    coroutine waits or ends. *)
Context (after : jump → client_state E → list (http_action E) → Prop)
  (starts : bool → option error_code → client_state E → list (http_action E) → Prop)
  (ends : option position → client_state E → list (http_action E) → Prop).
Context (Hrest : ∀ e r s l, after (Rest e r) s l →
  comes_to (rest_ e r) s l (λ z s' l', (length (outgoing s') < length (outgoing s))%nat ∧
    match z with Waits => ends (Some At_shutdown) s' l' | Again r e => starts r e s' l' end)).
Context (Hround : ∀ e r s l, starts r e s l → outgoing s ≠ [] →
  comes_to (round_ e r) s l (λ j s' l', length (outgoing s') = length (outgoing s) ∧ after j s' l')).
Context (Hyields : ∀ p s l, after (Yields p) s l → ends (Some p) s l).
Context (Hends : ∀ r e s l, starts r e s l → outgoing s = [] → ends None s l).

Lemma loop_rule fuel : ∀ j s l,
  after j s l → (length (outgoing s) <= fuel)%nat → comes_to (loop_ fuel j) s l ends.
Proof.
  induction fuel as [|fuel IH]; intros [p|e r] s l Hj Hf; cbn [loop].
  - apply comes_to_ret. auto.
  - pose proof (Hrest _ _ _ _ Hj) as H. unfold comes_to in H.
    destruct (rest_ e r s l) as [[[??]?]|]; [|done]. lia.
  - apply comes_to_ret. auto.
  - apply comes_to_bind. eapply comes_to_mono; [by apply Hrest|].
    intros [|r' e'] s1 l1 [Hlt Hz]; [by apply comes_to_ret|].
    apply comes_to_bind. unfold comes_to at 1, ask.
    destruct (outgoing s1) eqn:Ho; [apply comes_to_ret; eauto|].
    apply comes_to_bind. eapply comes_to_mono; [apply Hround; [done|by rewrite Ho]|].
    intros j s2 l2 [Hlen Hj2]. apply IH; [done|]. rewrite Hlen, Ho in *. lia.
Qed.

Lemma again_rule e r s l : starts r e s l → comes_to (again_ e r) s l ends.
Proof.
  intros Hs. unfold again. apply comes_to_bind. unfold comes_to at 1, ask.
  destruct (outgoing s) eqn:Ho; [apply comes_to_ret; eauto|].
  apply comes_to_bind. eapply comes_to_mono; [apply Hround; [done|by rewrite Ho]|].
  intros j s2 l2 [Hlen Hj]. apply loop_rule; [done|]. rewrite Hlen, Ho. done.
Qed.

Lemma from_here_rule part s l :
  comes_to part s l (λ j s' l', length (outgoing s') = length (outgoing s) ∧ after j s' l') →
  comes_to (from_here_ part) s l ends.
Proof.
  intros Hp. unfold from_here. apply comes_to_bind. unfold comes_to at 1, ask.
  apply comes_to_bind. eapply comes_to_mono; [exact Hp|].
  intros j s2 l2 [Hlen Hj]. apply loop_rule; [done|]. by rewrite Hlen.
Qed.

End coroutine_rules.

(** ** Who is told *)

Definition told {E} (l : list (http_action E)) : list nat :=
  omap (λ a, match a with ToldThat n _ _ => Some n | _ => None end) l.

Definition arrived {E} (l : list (http_action E)) : list message :=
  omap (λ a, match a with Enqueued m => Some m | _ => None end) l.

(** Those who asked with these messages. *)
Definition wanted (ms : list message) : list nat := omap m_notifier ms.

Lemma told_app {E} (l l' : list (http_action E)) : told (l ++ l') = told l ++ told l'.
Proof. apply omap_app. Qed.
Lemma arrived_app {E} (l l' : list (http_action E)) : arrived (l ++ l') = arrived l ++ arrived l'.
Proof. apply omap_app. Qed.
Lemma wanted_app ms ms' : wanted (ms ++ ms') = wanted ms ++ wanted ms'.
Proof. apply omap_app. Qed.

Lemma wanted_cons m ms : wanted (m :: ms) = option_list (m_notifier m) ++ wanted ms.
Proof. unfold wanted. cbn. by destruct (m_notifier m). Qed.

(** How many yields a position is away from the end of its round. *)
Definition rank (p : position) : nat :=
  match p with
  | At_start => 7
  | At_resolve => 6
  | At_connect => 5
  | At_handshake => 4
  | At_write => 3
  | At_read => 2
  | At_shutdown => 7
  end.

Definition work {E} (next : option position) (s : client_state E) : nat :=
  match next with
  | Some p => 7 * length (outgoing s) + rank p
  | None => 0
  end.

Definition in_round (p : position) : Prop := p ≠ At_start ∧ p ≠ At_shutdown.

(** Reduces the monad on a state with a message in front. *)
Ltac m_go :=
  repeat (first [progress cbn [mbind m_bind mret m_ret emit ask change front outgoing with_outgoing
    last_host s_endpoint s_timer iteration tail move_body notify negb andb without_body] in *
    | progress unfold comes_to, mbind, m_bind, mret, m_ret, emit, ask, change, front in *]).

Section counting.
Context {E : Type} (is_v6 : string → bool) (version_string : string)
  (prepare_payload : http_request → http_request) (close_error : client_state E → option error_code).
Context (everyone : list nat) (bound : nat).

Definition all_told (l : list (http_action E)) (ms : list message) : Prop :=
  told l ++ wanted ms = everyone ∧ arrived l = [].

Definition counts_after (j : jump) (s : client_state E) (l : list (http_action E)) : Prop :=
  outgoing s ≠ [] ∧
  match j with
  | Yields p => in_round p ∧ all_told l (outgoing s) ∧ (work (Some p) s < bound)%nat
  | Rest (Some _) r => r = false ∧ all_told l (outgoing s) ∧ (7 * length (outgoing s) < bound)%nat
  | Rest None _ => all_told l (tail (outgoing s)) ∧ (7 * length (outgoing s) < bound)%nat
  end.

Definition counts_starts (r : bool) (e : option error_code) (s : client_state E) (l : list (http_action E)) : Prop :=
  (r = true → e = None) ∧ all_told l (outgoing s) ∧ (7 * length (outgoing s) + 6 < bound)%nat.

Definition counts_ends (next : option position) (s : client_state E) (l : list (http_action E)) : Prop :=
  all_told l (outgoing s) ∧ (work next s < bound)%nat ∧
  match next with
  | Some p => (p = At_shutdown ∨ in_round p ∧ outgoing s ≠ [])
  | None => outgoing s = []
  end.

Lemma all_told_emit a l ms :
  told [a] = [] → arrived [a] = [] → all_told l ms → all_told (l ++ [a]) ms.
Proof. unfold all_told. rewrite told_app, arrived_app. by intros -> -> [<- ->]; rewrite !app_nil_r. Qed.

Lemma all_told_notify m e b s l :
  comes_to (notify m e b) s l (λ _ s' l', s' = s ∧ ∀ ms, all_told l (m :: ms) → all_told l' ms).
Proof.
  unfold notify, all_told. rewrite <-?wanted_cons.
  destruct (m_notifier m) as [n|] eqn:Hn; m_go; split; try done; intros ms; rewrite wanted_cons, Hn; [|done].
  rewrite told_app, arrived_app. cbn. by rewrite <-app_assoc, app_nil_r.
Qed.

Lemma all_told_move_body (s : client_state E) l :
  all_told l (outgoing s) → all_told l (outgoing (move_body s)).
Proof. unfold move_body. destruct s as [[|[??????] ms] ????]; done. Qed.

Ltac count :=
  unfold counts_after, counts_starts, counts_ends, work, in_round in *; cbn [rank length outgoing tail with_outgoing] in *;
  repeat match goal with
  | |- _ ∧ _ => split
  | |- all_told (_ ++ [_]) _ => apply all_told_emit; [reflexivity..|]
  end; try done; try lia.

Lemma counts_handshake e s l :
  outgoing s ≠ [] → all_told l (outgoing s) → (7 * length (outgoing s) + 3 < bound)%nat →
  comes_to (after_handshake is_v6 version_string prepare_payload e false) s l
    (λ j s' l', length (outgoing s') = length (outgoing s) ∧ counts_after j s' l').
Proof.
  intros Ho Ht Hb. destruct s as [[|m ms] ????]; [done|]. unfold after_handshake, async_write.
  destruct e as [e|]; m_go; count.
Qed.

Lemma counts_connect e r s l :
  (r = true → e = None) →
  outgoing s ≠ [] → all_told l (outgoing s) → (7 * length (outgoing s) + 4 < bound)%nat →
  comes_to (after_connect is_v6 version_string prepare_payload e r) s l
    (λ j s' l', length (outgoing s') = length (outgoing s) ∧ counts_after j s' l').
Proof.
  intros Hr Ho Ht Hb. destruct s as [[|m ms] ????]; [done|]. unfold after_connect, after_handshake, async_write.
  destruct e as [e|]; [destruct r; [naive_solver|]; m_go; count|].
  m_go. destruct (_ && _); m_go; count.
Qed.

Lemma counts_resolve e r s l :
  (r = true → e = None) →
  outgoing s ≠ [] → all_told l (outgoing s) → (7 * length (outgoing s) + 5 < bound)%nat →
  comes_to (after_resolve is_v6 version_string prepare_payload e r) s l
    (λ j s' l', length (outgoing s') = length (outgoing s) ∧ counts_after j s' l').
Proof.
  intros Hr Ho Ht Hb. unfold after_resolve. destruct e as [e|]; [|destruct r].
  - destruct r; [naive_solver|]. m_go. count.
  - apply counts_connect; auto with lia.
  - m_go. count.
Qed.

Lemma counts_round e r s l : counts_starts r e s l → outgoing s ≠ [] →
  comes_to (round is_v6 version_string prepare_payload e r) s l
    (λ j s' l', length (outgoing s') = length (outgoing s) ∧ counts_after j s' l').
Proof.
  intros (Hr & Ht & Hb) Ho. unfold round, set_timeout. apply comes_to_bind.
  destruct s as [[|m ms] lh ep t it]; [done|]. destruct r; [|m_go; count].
  refine (counts_resolve e true (ClientState (m :: ms) lh ep (Some it) it) l Hr Ho Ht _).
  cbn [outgoing] in *. lia.
Qed.

Lemma counts_write e s l :
  outgoing s ≠ [] → all_told l (outgoing s) → (7 * length (outgoing s) + 2 < bound)%nat →
  comes_to (after_write e) s l (λ j s' l', length (outgoing s') = length (outgoing s) ∧ counts_after j s' l').
Proof.
  intros Ho Ht Hb. destruct s as [[|m ms] ????]; [done|]. unfold after_write, async_read.
  destruct e as [e|]; m_go; count.
Qed.

Lemma counts_read e r s l :
  outgoing s ≠ [] → all_told l (outgoing s) → (7 * length (outgoing s) < bound)%nat →
  comes_to (after_read e r) s l (λ j s' l', length (outgoing s') = length (outgoing s) ∧ counts_after j s' l').
Proof.
  intros Ho Ht Hb. destruct s as [[|m ms] ????]; [done|]. unfold after_read, notify_error.
  destruct e as [e|]; [m_go; count|]. destruct (_ && _).
  all: apply comes_to_bind; rewrite ?comes_to_bind; unfold comes_to at 1, front; cbn [outgoing].
  all: rewrite ?comes_to_bind; eapply comes_to_mono; [apply all_told_notify|].
  all: intros _ s' l' [-> Hl]; apply comes_to_ret; count; by apply Hl.
Qed.

(** The end of a round takes its message from the queue, told. *)
Lemma counts_rest e r s l : counts_after (Rest e r) s l →
  comes_to (rest close_error e r) s l (λ z s' l', (length (outgoing s') < length (outgoing s))%nat ∧
    match z with Waits => counts_ends (Some At_shutdown) s' l' | Again r e => counts_starts r e s' l' end).
Proof.
  intros [Ho Ht]. destruct s as [[|m ms] ????]; [done|]. unfold rest. apply comes_to_bind.
  apply comes_to_mono with (Q := λ _ s' l', s' = ClientState (m :: ms) last_host0 s_endpoint0 s_timer0 iteration0 ∧
    (r = true → e = None) ∧ all_told l' ms ∧ (7 * length (m :: ms) < bound)%nat).
  { destruct e as [e|]; [|apply comes_to_ret; naive_solver].
    destruct Ht as (-> & Ht & Hb). unfold notify_error. apply comes_to_bind. unfold comes_to at 1, front. cbn [outgoing].
    eapply comes_to_mono; [apply all_told_notify|]. intros _ s' l' [-> Hl]. split_and!; auto. done. }
  intros _ s' l' (-> & Hr & Hl & Hb). unfold pop_front, cleanup, next_iteration. m_go.
  destruct (r && _) eqn:Hre; [|destruct (m_https m)]; m_go; count; auto.
  all: apply andb_prop in Hre as [-> _]; auto.
Qed.

Lemma counts_yields p s l : counts_after (Yields p) s l → counts_ends (Some p) s l.
Proof. intros (? & ? & ? & ?). unfold counts_ends. auto. Qed.

Lemma counts_empty r e s l : counts_starts r e s l → outgoing s = [] → counts_ends None s l.
Proof. intros (? & ? & ?) Ho. unfold counts_ends, work. split_and!; auto. lia. Qed.

Lemma counts_again r e s l : counts_starts r e s l →
  comes_to (again is_v6 version_string prepare_payload close_error e r) s l counts_ends.
Proof.
  apply (again_rule _ _ _ _ counts_after); eauto using counts_rest, counts_round, counts_yields, counts_empty.
Qed.

Lemma counts_from_here part s l :
  comes_to part s l (λ j s' l', length (outgoing s') = length (outgoing s) ∧ counts_after j s' l') →
  comes_to (from_here is_v6 version_string prepare_payload close_error part) s l counts_ends.
Proof.
  apply (from_here_rule _ _ _ _ counts_after counts_starts);
    eauto using counts_rest, counts_round, counts_yields, counts_empty.
Qed.

End counting.

(** ** A coroutine alone *)

Section alone.
Context {E : Type} (is_v6 : string → bool)
  (version_string : string) (prepare_payload : http_request → http_request)
  (close_error : client_state E → option error_code).
Notation resume_ := (resume is_v6 version_string prepare_payload close_error).

(** Where a coroutine can wait with the queue of [s]. *)
Definition waits (p : position) (s : client_state E) : Prop :=
  p = At_shutdown ∨ outgoing s ≠ [].

Lemma resolve_done_keeps e ips (s : client_state E) l :
  comes_to (resolve_done e ips) s l (λ _ s' l', outgoing s' = outgoing s ∧ l' = l).
Proof. unfold resolve_done, set_endpoint. destruct e; [|destruct ips]; m_go; done. Qed.

(** Every completion brings the coroutine closer to its end, and tells the one who
    asked when it takes a message from the queue. *)
Lemma resume_counts p c run s : resume_ p c = Some run → waits p s →
  comes_to run s [] (counts_ends (wanted (outgoing s)) (work (Some p) s)).
Proof.
  intros Hrun Hw. pose proof (conj eq_refl eq_refl : all_told (E:=E) (wanted (outgoing s)) [] (outgoing s)) as Hall.
  destruct p, c; inversion Hrun; subst; clear Hrun; destruct Hw as [Hw|Hw]; try discriminate Hw.
  all: lazymatch goal with
  | |- comes_to (again _ _ _ _ _ _) _ _ _ => apply counts_again; split_and!
  | |- comes_to (from_here _ _ _ _ (after_handshake _ _ _ _ _)) _ _ _ => apply counts_from_here, counts_handshake
  | |- comes_to (from_here _ _ _ _ (after_write _)) _ _ _ => apply counts_from_here, counts_write
  | |- comes_to (from_here _ _ _ _ (after_read _ _)) _ _ _ => apply counts_from_here, counts_read
  | |- comes_to (emit ClearBuffer ≫= _) _ _ _ =>
    apply comes_to_bind, counts_from_here, counts_connect; [|auto|by apply all_told_emit|]
  | |- comes_to (resolve_done _ _ ≫= _) _ _ _ =>
    apply comes_to_bind; eapply comes_to_mono; [apply resolve_done_keeps|];
    intros ??? [Ho ->]; apply counts_from_here, counts_resolve; rewrite ?Ho
  | |- comes_to (cleanup _ _ ≫= _) _ _ _ =>
    apply comes_to_bind; unfold cleanup; m_go;
    apply (counts_again _ _ _ _ _ _ false (close_error s)); split_and!;
    [|by repeat apply all_told_emit|]
  end; auto; try done; cbn [work rank outgoing]; lia.
Qed.

(** The coroutine run [n] times with what a network answers. *)
Fixpoint drive (network : nat → position → completion E) (n : nat) (p : position)
    (s : client_state E) : option (option position * client_state E * list (http_action E)) :=
  match n with
  | O => Some (Some p, s, [])
  | S n =>
    run ← resume_ p (network n p);
    '(next, s, l) ← run s [];
    match next with
    | Some p => '(next, s, l') ← drive network n p s; Some (next, s, l ++ l')
    | None => Some (None, s, l)
    end
  end.

Lemma drive_drains network n : ∀ p s,
  (∀ k p, is_Some (resume_ p (network k p))) → waits p s → (work (Some p) s <= n)%nat →
  ∃ s' l, drive network n p s = Some (None, s', l) ∧ outgoing s' = [] ∧ told l = wanted (outgoing s).
Proof.
  induction n as [|n IH]; intros p s Hnet Hw Hn; [destruct p; cbn [work rank] in Hn; lia|].
  cbn [drive]. destruct (Hnet n p) as [run Hrun]. rewrite Hrun. cbn [mbind option_bind].
  pose proof (resume_counts _ _ _ _ Hrun Hw) as H. unfold comes_to in H.
  destruct (run s []) as [[[next s'] l]|]; [|done]. destruct H as ([Ht _] & Hlt & Hnext).
  cbn [mbind option_bind]. destruct next as [q|].
  - destruct (IH q s') as (s2 & l2 & -> & Ho & Ht2); [done|unfold waits; naive_solver|lia|].
    exists s2, (l ++ l2). rewrite told_app, Ht2. done.
  - exists s', l. rewrite <-Ht, Hnext. cbn. by rewrite app_nil_r.
Qed.

(** C30: Whatever the operations complete with, a coroutine comes to its end within
    seven of them for every message of its queue and seven more; then the queue is
    empty and all who asked were told. *)
Theorem http_drains (network : nat → position → completion E) p (s : client_state E) :
  (∀ k q, is_Some (resume_ q (network k q))) → waits p s →
  ∃ s' l, drive network (7 * length (outgoing s) + 7) p s = Some (None, s', l) ∧
    outgoing s' = [] ∧ told l = wanted (outgoing s).
Proof. intros Hn Hw. apply drive_drains; [done..|]. destruct p; cbn [work rank]; lia. Qed.

End alone.

(** ** Events in any order *)

Section events.
Context {E : Type} (parse_url : string → option url_content) (is_v6 : string → bool)
  (version_string : string) (prepare_payload : http_request → http_request)
  (close_error : client_state E → option error_code).
Notation resume_ := (resume is_v6 version_string prepare_payload close_error).
Notation step_ := (http_step parse_url is_v6 version_string prepare_payload close_error).
Notation run_ := (http_run parse_url is_v6 version_string prepare_payload close_error).


Definition waiting (c : client E) : list nat :=
  match c_state c with Some s => wanted (outgoing s) | None => [] end.

(** There is at most one coroutine, and there is one when there are messages. *)
Definition one_loop (c : client E) : Prop :=
  match c_state c with
  | None => c = new_client
  | Some s => (c_loops c = [] ∧ outgoing s = []) ∨ ∃ p, c_loops c = [p] ∧ waits p s
  end.

(** No message comes to an empty queue while the coroutine waits for the TLS
    shutdown of its last connection. *)
Definition in_time (e : http_event E) (c : client E) : Prop :=
  match e, c_state c with
  | Dispatched _, Some s => ¬ (outgoing s = [] ∧ At_shutdown ∈ c_loops c)
  | _, _ => True
  end.

Fixpoint timely (es : list (http_event E)) (c : client E) : Prop :=
  match es with
  | [] => True
  | e :: es =>
    in_time e c ∧
    match step_ e c with
    | Refused => timely es c
    | Undefined => True
    | Next c _ => timely es c
    end
  end.

(** The messages that [queue_async] took. *)
Definition accepted (es : list (http_event E)) : list message :=
  omap (λ e, match e with
    | Queue url body notifier =>
      match queue_message parse_url url body notifier with Ok m => Some m | Err _ => None end
    | _ => None end) es.

Lemma release_keeps c : one_loop c →
  one_loop (release c) ∧ waiting (release c) = waiting c ∧ c_posted (release c) = c_posted c.
Proof.
  destruct c as [[s|] [|p ps] [|m ms] [|x xs]]; unfold release; cbn; try done.
  intros H. destruct (s_timer s); [done|]. unfold waiting. cbn.
  destruct H as [[_ ->]|(? & ? & _)]; done.
Qed.

Lemma step_tells e c : one_loop c → in_time e c →
  match step_ e c with
  | Refused => accepted [e] = []
  | Undefined => False
  | Next c' l => one_loop c' ∧ told l ++ waiting c' = waiting c ++ wanted (arrived l) ∧
      arrived l ++ c_posted c' ≡ₚ c_posted c ++ accepted [e]
  end.
Proof.
  destruct c as [[s|] ps ms xs]; unfold one_loop, in_time; cbn [c_state c_loops].
  2: { intros [= -> -> ->] _. destruct e as [url body notifier|?|??| |]; cbn [http_step c_state]; try done.
       unfold queue_async. cbn. destruct (queue_message parse_url url body notifier) as [m|]; cbn; [|done].
       split_and!; [right; exists At_start; split; [done|by right]|by rewrite ?app_nil_r|done]. }
  intros Hone Htime. destruct e as [url body notifier|i|i r| |]; cbn [http_step c_state c_posted c_loops c_expired].
  - unfold queue_async. destruct (queue_message parse_url url body notifier) as [m|] eqn:Hm; cbn; rewrite Hm; cbn;
      split_and!; try done; by rewrite app_nil_r.
  - destruct (ms !! i) as [m|] eqn:Hi; [|done]. unfold push_message, one_loop, waiting. cbn. split_and!.
    + right. destruct Hone as [[-> Ho]|(p & -> & [-> | Hp])].
      * exists At_start. rewrite Ho. split; [done|by right].
      * exists At_shutdown. split; [|by left]. destruct (outgoing s) eqn:Ho; [|done].
        destruct Htime. split; [done|set_solver].
      * exists p. destruct (outgoing s) eqn:Ho; [done|]. split; [done|right; by destruct l].
    + apply wanted_app.
    + rewrite app_nil_r. symmetry. by apply delete_Permutation.
  - destruct Hone as [[-> _]|(p & -> & Hp)]; [done|]. destruct i as [|i]; [|done]. cbn [lookup list_lookup].
    destruct (resume_ p r) as [run|] eqn:Hrun; [|done].
    pose proof (resume_counts _ _ _ _ _ _ _ _ Hrun Hp) as H. unfold comes_to in H.
    destruct (run s []) as [[[next s'] l]|]; [|done]. destruct H as ([Ht Ha] & _ & Hnext).
    set (c1 := Client (Some s') _ _ _). destruct (release_keeps c1) as (H1 & -> & ->).
    { unfold c1, one_loop. cbn. destruct next as [q|]; [right|by left]. exists q. unfold waits. naive_solver. }
    split_and!; [done| |]; unfold waiting; cbn; rewrite Ha; cbn; by rewrite ?app_nil_r, ?Ht.
  - destruct (s_timer s); [|done]. cbn. unfold one_loop, waiting. cbn. by rewrite !app_nil_r.
  - destruct xs as [|armed xs]; [done|]. set (c1 := Client (Some s) _ _ _).
    destruct (release_keeps c1) as (H1 & -> & ->); [done|]. unfold on_timeout, waiting. cbn.
    split_and!; [done| |]; destruct (armed <? iteration s); cbn; by rewrite ?app_nil_r.
Qed.

Lemma run_tells es : ∀ c, one_loop c → timely es c →
  ∃ c' l, run_ es c = Some (c', l) ∧ one_loop c' ∧ told l ++ waiting c' = waiting c ++ wanted (arrived l) ∧
    arrived l ++ c_posted c' ≡ₚ c_posted c ++ accepted es.
Proof.
  induction es as [|e es IH]; intros c Hc Ht.
  { exists c, []. cbn. by rewrite !app_nil_r. }
  destruct Ht as [Hin Ht]. pose proof (step_tells e c Hc Hin) as H. cbn [http_run].
  assert (accepted (e :: es) = accepted [e] ++ accepted es) as -> by apply (omap_app _ [e] es).
  destruct (step_ e c) as [| |c1 l1]; [|done|].
  - rewrite H. by apply IH.
  - destruct H as (H1 & H2 & H3), (IH c1 H1 Ht) as (c2 & l2 & -> & Hc2 & H4 & H5).
    exists c2, (l1 ++ l2). cbn. rewrite told_app, arrived_app, wanted_app. split_and!; [done..| |].
    + by rewrite <-app_assoc, H4, app_assoc, H2, <-app_assoc.
    + by rewrite <-app_assoc, H5, app_assoc, H3, <-app_assoc.
Qed.

(** C28: Whatever the network does and in whatever order things happen, no coroutine
    touches an empty queue, whoever asked is told once, in the order in which the
    messages came to the queue, or still waits, and no message that was accepted is
    lost; as long as none comes to an empty queue during a TLS shutdown. *)
Theorem http_answers es : timely es new_client →
  ∃ c l, run_ es new_client = Some (c, l) ∧ told l ++ waiting c = wanted (arrived l) ∧
    arrived l ++ c_posted c ≡ₚ accepted es.
Proof.
  intros Ht. destruct (run_tells es new_client eq_refl Ht) as (c & l & Hr & _ & H1 & H2). by exists c, l.
Qed.

End events.

(** ** What the connection is used for *)

Definition address (m : message) : string * string := (m_host m, pretty (m_port m)).

(** A socket that is not connected, with what was resolved last; one that is, with
    or without TLS; and one that was closed after TLS. *)
Inductive socket :=
  | Fresh (resolved : option (string * string))
  | Open (address : string * string) (tls : bool)
  | Spent.

(** What can be done with a socket: to connect it where the last host was resolved
    to; to make one handshake; to write and read what is for that address in the way
    its scheme asks for; to close it, and to renew it after TLS. *)
Definition uses {E} (k : socket) (a : http_action E) : option socket :=
  match a, k with
  | Resolve host service, Fresh _ => Some (Fresh (Some (host, service)))
  | Resolve _ _, _ => None
  | Connect _, Fresh (Some address) => Some (Open address false)
  | Connect _, _ => None
  | Handshake, Open address false => Some (Open address true)
  | Handshake, _ => None
  | Write m _, Open a tls | Read m, Open a tls => if decide (a = address m ∧ tls = m_https m) then Some k else None
  | Write _ _, _ | Read _, _ => None
  | Close, Open _ true => Some Spent
  | Close, Open _ false | Close, Fresh _ => Some (Fresh None)
  | NewSocket, Open _ _ => None
  | NewSocket, _ => Some (Fresh None)
  | _, _ => Some k
  end.

Fixpoint uses_all {E} (k : socket) (l : list (http_action E)) : option socket :=
  match l with
  | [] => Some k
  | a :: l => k ← uses k a; uses_all k l
  end.

Lemma uses_app {E} (l l' : list (http_action E)) : ∀ k, uses_all k (l ++ l') = k ← uses_all k l; uses_all k l'.
Proof. induction l as [|a l IH]; intros k; cbn; [done|]. destruct (uses k a); cbn; [apply IH|done]. Qed.

Section protocol.
Context {E : Type} (is_v6 : string → bool) (version_string : string)
  (prepare_payload : http_request → http_request) (close_error : client_state E → option error_code).
Context (scheme : string → Z → bool) (start : socket).

(** Every address has one scheme. *)
Definition schemed (m : message) : Prop := m_https m = scheme (m_host m) (m_port m).

Definition is_fresh (k : socket) : Prop := match k with Fresh _ => True | _ => False end.

(** What the socket is while the coroutine waits for a message. *)
Definition socket_at (p : position) (m : message) (k : socket) : Prop :=
  match p with
  | At_start => is_fresh k
  | At_resolve => k = Fresh (Some (address m))
  | At_connect => k = Open (address m) false
  | At_handshake => k = Open (address m) true ∧ m_https m = true
  | At_write | At_read => k = Open (address m) (m_https m)
  | At_shutdown => True
  end.

Definition usable (m : message) (k : socket) : Prop :=
  match k with
  | Fresh _ => True
  | Open a tls => a = address m ∧ (tls = true → m_https m = true)
  | Spent => False
  end.

Definition uses_after (j : jump) (s : client_state E) (l : list (http_action E)) : Prop :=
  Forall schemed (outgoing s) ∧ ∃ m ms k, outgoing s = m :: ms ∧ uses_all start l = Some k ∧
  match j with
  | Yields p => socket_at p m k
  | Rest e r => usable m k ∧ (r = true → e = None ∧ k = Open (address m) (m_https m))
  end.

Definition uses_starts (r : bool) (e : option error_code) (s : client_state E) (l : list (http_action E)) : Prop :=
  Forall schemed (outgoing s) ∧ ∃ k, uses_all start l = Some k ∧
  if r then e = None ∧ ∃ m ms, outgoing s = m :: ms ∧ k = Open (address m) (m_https m)
  else is_fresh k.

Definition uses_ends (next : option position) (s : client_state E) (l : list (http_action E)) : Prop :=
  Forall schemed (outgoing s) ∧ ∃ k, uses_all start l = Some k ∧
  match next with
  | None => is_fresh k
  | Some p => p = At_shutdown ∨ ∃ m ms, outgoing s = m :: ms ∧ socket_at p m k
  end.

Lemma uses_emit (l : list (http_action E)) k k' a :
  uses_all start l = Some k → uses k a = Some k' → uses_all start (l ++ [a]) = Some k'.
Proof. intros H Ha. rewrite uses_app, H. cbn. by rewrite Ha. Qed.

(** A round goes on from a message in front with a socket. *)
Lemma uses_after_intro j m ms k s (l : list (http_action E)) :
  Forall schemed (outgoing s) → outgoing s = m :: ms → uses_all start l = Some k →
  match j with
  | Yields p => socket_at p m k
  | Rest e r => usable m k ∧ (r = true → e = None ∧ k = Open (address m) (m_https m))
  end → uses_after j s l.
Proof. intros H ???. split; [done|]. by exists m, ms, k. Qed.

Ltac here := eapply uses_after_intro; [done|done|eassumption|cbn; naive_solver].

Lemma uses_handshake e m ms lh ep t it l :
  Forall schemed (m :: ms) → uses_all start l = Some (Open (address m) (m_https m)) →
  comes_to (after_handshake is_v6 version_string prepare_payload e false) (ClientState (m :: ms) lh ep t it) l
    (λ j s' l', length (outgoing s') = S (length ms) ∧ uses_after j s' l').
Proof.
  intros Hs Hl. unfold after_handshake, async_write. destruct e as [e|]; m_go; (split; [done|]).
  - here.
  - eapply uses_after_intro; [|done| |done].
    + apply Forall_cons in Hs as [??]. by apply Forall_cons.
    + eapply uses_emit; [done|]. cbn. by rewrite decide_True.
Qed.

Lemma uses_connect e (r : bool) m ms lh ep t it l k :
  Forall schemed (m :: ms) → uses_all start l = Some k →
  (if r then e = None ∧ k = Open (address m) (m_https m) else k = Open (address m) false) →
  comes_to (after_connect is_v6 version_string prepare_payload e r) (ClientState (m :: ms) lh ep t it) l
    (λ j s' l', length (outgoing s') = S (length ms) ∧ uses_after j s' l').
Proof.
  intros Hs Hl Hk. unfold after_connect. destruct e as [e|].
  { destruct r; [naive_solver|]. m_go. split; [done|]. subst. here. }
  apply comes_to_bind. unfold comes_to at 1, front. cbn [outgoing]. destruct r; cbn [negb andb].
  - destruct Hk as [_ ->]. exact (uses_handshake None m ms lh ep t it l Hs Hl).
  - subst k. destruct (m_https m) eqn:Hm.
    + m_go. split; [done|]. eapply uses_after_intro; [done..| |done].
      eapply uses_emit; [by eapply uses_emit|done].
    + apply uses_handshake; [done|]. by rewrite Hm.
Qed.

Lemma uses_resolve e (r : bool) m ms lh ep t it l k :
  Forall schemed (m :: ms) → uses_all start l = Some k →
  (if r then e = None ∧ k = Open (address m) (m_https m) else k = Fresh (Some (address m))) →
  comes_to (after_resolve is_v6 version_string prepare_payload e r) (ClientState (m :: ms) lh ep t it) l
    (λ j s' l', length (outgoing s') = S (length ms) ∧ uses_after j s' l').
Proof.
  intros Hs Hl Hk. unfold after_resolve. destruct e as [e|]; [destruct r; [naive_solver|]|destruct r].
  - m_go. split; [done|]. subst. here.
  - by eapply uses_connect.
  - m_go. split; [done|]. subst. eapply uses_after_intro; [done..| |done]. by eapply uses_emit.
Qed.

Lemma uses_round e r s l : uses_starts r e s l → outgoing s ≠ [] →
  comes_to (round is_v6 version_string prepare_payload e r) s l
    (λ j s' l', length (outgoing s') = length (outgoing s) ∧ uses_after j s' l').
Proof.
  destruct s as [[|m ms] lh ep t it]; [done|]. intros (Hs & k & Hl & Hk) _. unfold round, set_timeout.
  apply comes_to_bind. destruct r.
  - destruct Hk as (-> & ? & ? & [= <- <-] & Hk).
    refine (uses_resolve None true m ms lh ep (Some it) it l k Hs Hl (conj eq_refl Hk)).
  - m_go. split; [done|]. eapply uses_after_intro; [done..| |done]. eapply uses_emit; [done|]. by destruct k.
Qed.

Lemma uses_write e m ms lh ep t it l :
  Forall schemed (m :: ms) → uses_all start l = Some (Open (address m) (m_https m)) →
  comes_to (after_write e) (ClientState (m :: ms) lh ep t it) l
    (λ j s' l', length (outgoing s') = S (length ms) ∧ uses_after j s' l').
Proof.
  intros Hs Hl. unfold after_write, async_read. destruct e as [e|]; m_go; (split; [done|]).
  - here.
  - eapply uses_after_intro; [done..| |done]. eapply uses_emit; [done|]. cbn. by rewrite decide_True.
Qed.

Lemma uses_notify m e b s l (Q : () → client_state E → list (http_action E) → Prop) :
  (∀ l', uses_all start l' = uses_all start l → Q tt s l') → comes_to (notify m e b) s l Q.
Proof.
  intros H. unfold notify. destruct (m_notifier m); m_go; apply H; [|done].
  rewrite uses_app. by destruct (uses_all start l) as [[]|].
Qed.

Lemma uses_read e r m ms lh ep t it l :
  Forall schemed (m :: ms) → uses_all start l = Some (Open (address m) (m_https m)) →
  comes_to (after_read e r) (ClientState (m :: ms) lh ep t it) l
    (λ j s' l', length (outgoing s') = S (length ms) ∧ uses_after j s' l').
Proof.
  intros Hs Hl. unfold after_read, notify_error. destruct e as [e|]; [|destruct (_ && _)].
  - m_go. split; [done|]. here.
  - rewrite !comes_to_bind. unfold comes_to at 1, front. cbn [outgoing]. apply uses_notify. intros l' Hl'.
    apply comes_to_ret. split; [done|]. rewrite Hl in Hl'. here.
  - rewrite !comes_to_bind. unfold comes_to at 1, front. cbn [outgoing]. rewrite comes_to_bind.
    apply uses_notify. intros l' Hl'.
    apply comes_to_ret. split; [done|]. rewrite Hl in Hl'. here.
Qed.

(** Closing leaves a socket that can be connected again. *)
Lemma uses_cleanup https k (s : client_state E) l :
  uses_all start l = Some k → (https = false → match k with Fresh _ | Open _ false => True | _ => False end) →
  comes_to (cleanup close_error https) s l (λ _ s' l', s' = s ∧ uses_all start l' = Some (Fresh None)).
Proof.
  intros Hl Hk. unfold cleanup. destruct https; m_go; split; try done; rewrite !uses_app, Hl; cbn;
    destruct k as [|? []|]; cbn; naive_solver.
Qed.

Lemma usable_plain m k : usable m k → m_https m = false →
  match k with Fresh _ | Open _ false => True | _ => False end.
Proof. destruct k as [|a [] |]; cbn; try done. intros [_ H] Hm. by rewrite H in Hm. Qed.

Lemma reusable_same m (s : client_state E) :
  last_host s = m_host m → schemed m → Forall schemed (outgoing s) → reusable m s = true →
  ∃ m' ms, outgoing s = m' :: ms ∧ address m = address m' ∧ m_https m = m_https m'.
Proof.
  unfold reusable. intros -> Hm Hs Hre. destruct (outgoing s) as [|m' ms]; [done|].
  apply andb_prop in Hre as [Hhost%bool_decide_eq_true Hport%Z.eqb_eq]. exists m', ms. split; [done|].
  apply Forall_cons in Hs as [Hm' _]. unfold schemed, address in *. by rewrite Hm, Hm', Hhost, Hport.
Qed.

(** The connection is kept for what goes to the same address in the same way, and
    is closed otherwise. *)
Lemma uses_rest e r s l : uses_after (Rest e r) s l →
  comes_to (rest close_error e r) s l (λ z s' l', (length (outgoing s') < length (outgoing s))%nat ∧
    match z with Waits => uses_ends (Some At_shutdown) s' l' | Again r e => uses_starts r e s' l' end).
Proof.
  destruct s as [q lh ep t it]. intros (Hs & m & ms & k & Ho & Hl & Hu & Hr). cbn in Hs, Ho. subst q.
  unfold rest. apply comes_to_bind.
  apply comes_to_mono with (Q := λ _ s' l', s' = ClientState (m :: ms) lh ep t it ∧ uses_all start l' = Some k).
  { destruct e as [e|]; [|by apply comes_to_ret]. unfold notify_error. apply comes_to_bind.
    unfold comes_to at 1, front. cbn [outgoing]. apply uses_notify. by rewrite <-Hl. }
  apply Forall_cons in Hs as [Hm Hs]. intros _ s' l' [-> Hl']. unfold pop_front. rewrite !comes_to_bind.
  unfold comes_to at 1, front. cbn [outgoing]. rewrite !comes_to_bind. m_go.
  destruct (r && _) eqn:Hre; [|destruct (m_https m) eqn:Hh].
  - unfold next_iteration. m_go. split; [cbn; lia|]. split; [done|]. exists k. split; [done|].
    apply andb_prop in Hre as [-> Hre]. destruct (Hr eq_refl) as [-> ->]. split; [done|].
    destruct (reusable_same m (ClientState ms (m_host m) ep t it) eq_refl Hm Hs Hre) as (m' & ms' & ? & -> & ->). eauto.
  - m_go. split; [cbn; lia|]. split; [done|]. exists k. split; [by eapply uses_emit|by left].
  - fold (comes_to (cleanup close_error false ≫= λ e, next_iteration ≫= λ _, mret (Again false e))
      (ClientState ms (m_host m) ep t it) l' (λ z s' l', (length (outgoing s') < S (length ms))%nat ∧
        match z with Waits => uses_ends (Some At_shutdown) s' l' | Again r e => uses_starts r e s' l' end)).
    apply comes_to_bind. eapply comes_to_mono.
    { eapply uses_cleanup; [done|]. intros _. by eapply usable_plain. }
    intros e' s' l2 [-> Hl2]. unfold next_iteration. m_go. split; [cbn; lia|]. split; [done|].
    by exists (Fresh None).
Qed.

Lemma uses_yields p s l : uses_after (Yields p) s l → uses_ends (Some p) s l.
Proof. intros (Hs & m & ms & k & Ho & Hl & Hp). split; [done|]. exists k. eauto 10. Qed.

Lemma uses_empty r e s l : uses_starts r e s l → outgoing s = [] → uses_ends None s l.
Proof.
  intros (Hs & k & Hl & Hk) Ho. split; [done|]. exists k. split; [done|].
  destruct r; [|done]. destruct Hk as (_ & ? & ? & Hne & _). by rewrite Ho in Hne.
Qed.

Lemma uses_again r e s l : uses_starts r e s l →
  comes_to (again is_v6 version_string prepare_payload close_error e r) s l uses_ends.
Proof. apply (again_rule _ _ _ _ uses_after); eauto using uses_rest, uses_round, uses_yields, uses_empty. Qed.

Lemma uses_from_here part s l :
  comes_to part s l (λ j s' l', length (outgoing s') = length (outgoing s) ∧ uses_after j s' l') →
  comes_to (from_here is_v6 version_string prepare_payload close_error part) s l uses_ends.
Proof.
  apply (from_here_rule _ _ _ _ uses_after uses_starts); eauto using uses_rest, uses_round, uses_yields, uses_empty.
Qed.

End protocol.

Section protocol_runs.
Context {E : Type} (parse_url : string → option url_content) (is_v6 : string → bool)
  (version_string : string) (prepare_payload : http_request → http_request)
  (close_error : client_state E → option error_code) (scheme : string → Z → bool).
Notation resume_ := (resume is_v6 version_string prepare_payload close_error).
Notation step_ := (http_step parse_url is_v6 version_string prepare_payload close_error).
Notation run_ := (http_run parse_url is_v6 version_string prepare_payload close_error).

(** The socket of a coroutine that waits at [p]. *)
Definition held (p : position) (s : client_state E) (k : socket) : Prop :=
  p = At_shutdown ∨ ∃ m ms, outgoing s = m :: ms ∧ socket_at p m k.

Lemma resume_uses p c run s k : resume_ p c = Some run → Forall (schemed scheme) (outgoing s) → held p s k →
  comes_to run s [] (uses_ends scheme k).
Proof.
  intros Hrun Hs [-> | (m & ms & Ho & Hk)].
  { destruct c; inversion Hrun; subst. apply comes_to_bind. eapply comes_to_mono.
    { by eapply uses_cleanup. }
    intros e s' l' [-> Hl]. apply comes_to_bind. unfold next_iteration. m_go.
    apply uses_again. split; [done|]. by exists (Fresh None). }
  destruct s as [q lh ep t it]. cbn in Ho, Hs. subst q.
  destruct p, c; inversion Hrun; subst; clear Hrun; cbn [socket_at] in Hk.
  - apply uses_again. split; [done|]. by exists k.
  - subst. destruct error as [e|]; [|destruct ips as [|ip ips]]; m_go;
      apply uses_from_here; by eapply uses_resolve.
  - subst. apply comes_to_bind, uses_from_here. eapply uses_connect; [done|by eapply uses_emit|done].
  - destruct Hk as [-> Hm]. apply uses_from_here, uses_handshake; [done|]. cbn. by rewrite Hm.
  - subst. by apply uses_from_here, uses_write.
  - subst. by apply uses_from_here, uses_read.
  - apply comes_to_bind. eapply comes_to_mono; [by eapply uses_cleanup|].
    intros e s' l' [-> Hl]. apply comes_to_bind. unfold next_iteration. m_go.
    apply uses_again. split; [done|]. by exists (Fresh None).
Qed.

(** The messages of a client go to addresses with one scheme each, and its socket is
    what its coroutine takes it to be. *)
Definition socket_held (c : client E) (k : socket) : Prop :=
  Forall (schemed scheme) (c_posted c) ∧
  match c_state c with
  | None => is_fresh k
  | Some s => Forall (schemed scheme) (outgoing s) ∧
      match c_loops c with p :: _ => held p s k | [] => is_fresh k end
  end.

Lemma release_socket c k : one_loop c → socket_held c k → socket_held (release c) k.
Proof.
  destruct c as [[s|] [|p ps] [|m ms] [|x xs]]; unfold release; cbn; try done.
  intros _ H. destruct (s_timer s); [done|]. split; [by apply Forall_nil|apply H].
Qed.

Lemma step_uses e c k : one_loop c → in_time e c → socket_held c k →
  Forall (schemed scheme) (accepted parse_url [e]) →
  match step_ e c with
  | Next c' l => ∃ k', uses_all k l = Some k' ∧ socket_held c' k'
  | _ => True
  end.
Proof.
  destruct c as [[s|] ps ms xs]; unfold one_loop, in_time, socket_held; cbn [c_state c_loops c_posted].
  2: { intros [= -> -> ->] _ [_ Hk] Hm. destruct e as [url body notifier|?|??| |]; cbn [http_step c_state]; try done.
       unfold queue_async, accepted in *. cbn in *.
       destruct (queue_message parse_url url body notifier) as [m|]; cbn in *; exists k; [|done].
       split_and!; try done. right. by exists m, []. }
  intros Hone Htime (Hp & Hs & Hk) Hm.
  destruct e as [url body notifier|i|i r| |]; cbn [http_step c_state c_posted c_loops c_expired].
  - unfold queue_async, accepted in *. cbn in *.
    destruct (queue_message parse_url url body notifier) as [m|]; cbn in *; exists k; split_and!; try done.
    apply Forall_app. done.
  - destruct (ms !! i) as [m|] eqn:Hi; [|done]. exists k. unfold push_message. cbn. split; [done|].
    pose proof (proj1 (Forall_lookup _ _) Hp _ _ Hi) as Hsm.
    split_and!; [by apply Forall_delete|by apply Forall_app; split; [|constructor]|].
    destruct Hone as [[-> Ho]|(p & -> & Hw)]; cbn.
    + rewrite Ho. right. exists m, []. by destruct k.
    + destruct Hk as [-> | (m' & ms' & Ho & Hk)]; [by left|]. rewrite Ho. right. exists m', (ms' ++ [m]). done.
  - destruct (ps !! i) as [p|] eqn:Hi; [|done].
    destruct Hone as [[-> _]|(q & -> & Hw)]; [done|]. destruct i as [|i]; [|done]. injection Hi as ->.
    destruct (resume_ p r) as [run|] eqn:Hrun; [|done].
    pose proof (resume_uses _ _ _ _ k Hrun Hs Hk) as H.
    pose proof (resume_counts _ _ _ _ _ _ _ _ Hrun Hw) as Hc. unfold comes_to in H, Hc.
    destruct (run s []) as [[[next s'] l]|]; [|done]. destruct H as (Hs' & k' & Hl & Hk').
    destruct Hc as (_ & _ & Hnext). exists k'. split; [done|]. apply release_socket.
    + unfold one_loop. cbn. destruct next as [q|]; [right|by left]. exists q. unfold waits. naive_solver.
    + split_and!; cbn; [done..|]. by destruct next.
  - destruct (s_timer s); [|done]. exists k. done.
  - destruct xs as [|armed xs]; [done|]. exists k. split; [unfold on_timeout; by destruct (armed <? iteration s)|].
    apply release_socket; [done|]. split_and!; done.
Qed.

Lemma run_uses es : ∀ c k, one_loop c → timely parse_url is_v6 version_string prepare_payload close_error es c →
  socket_held c k → Forall (schemed scheme) (accepted parse_url es) →
  ∃ c' l k', run_ es c = Some (c', l) ∧ uses_all k l = Some k'.
Proof.
  induction es as [|e es IH]; intros c k Hc Ht Hk Hm; [by exists c, [], k|].
  assert (accepted (E:=E) parse_url (e :: es) = accepted parse_url [e] ++ accepted parse_url es) as Heq
    by apply (omap_app _ [e] es).
  rewrite Heq in Hm. apply Forall_app in Hm as [Hm1 Hm2]. destruct Ht as [Hin Ht].
  pose proof (step_tells parse_url is_v6 version_string prepare_payload close_error e c Hc Hin) as H. pose proof (step_uses e c k Hc Hin Hk Hm1) as Hu.
  cbn [http_run]. destruct (step_ e c) as [| |c1 l1]; [by apply IH|done|].
  destruct H as (H1 & _), Hu as (k1 & Hl1 & Hk1), (IH c1 k1 H1 Ht Hk1 Hm2) as (c2 & l2 & k2 & -> & Hl2).
  exists c2, (l1 ++ l2), k2. split; [done|]. by rewrite uses_app, Hl1.
Qed.

(** C29: As long as every address has one scheme, and no message comes to an empty
    queue during a TLS shutdown ([two_loops] is what happens then), the client writes
    a message only on a connection that was made to where its host was resolved, for
    its port, with a TLS handshake exactly when it is https; it connects only a socket
    that is closed, makes one handshake on it, and closes it before the next. *)
Theorem http_protocol es :
  timely parse_url is_v6 version_string prepare_payload close_error es new_client →
  Forall (schemed scheme) (accepted parse_url es) →
  ∃ c l k, run_ es new_client = Some (c, l) ∧ uses_all (Fresh None) l = Some k.
Proof. intros Ht Hm. by apply run_uses. Qed.

End protocol_runs.

(** ** Runs *)

Definition example_url (url : string) : option url_content :=
  if decide (url = "https://a/"%string) then Some (UrlContent "https" "a" 0 "")
  else if decide (url = "http://a:443/"%string) then Some (UrlContent "http" "a" 443 "/")
  else None.

Definition example_run : list (http_event unit) → client unit → option (client unit * list (http_action unit)) :=
  http_run example_url (λ _, false) "beast" id (λ _, None).

(** What follows the resolution of a host when the network answers everything. *)
Definition plain_answers (keep_alive : bool) : list (http_event unit) :=
  [Completes 0 (Completed None); Completes 0 (Completed None);
   Completes 0 (Received None (HttpResponse 200 keep_alive "price"))].

Definition tls_answers (keep_alive : bool) : list (http_event unit) :=
  Completes 0 (Completed None) :: plain_answers keep_alive.

(** Two requests by TLS over one connection; the second came in time. *)
Definition two_requests : list (http_event unit) :=
  [Queue "https://a/" "" (Some 1%nat); Queue "https://a/" "" (Some 2%nat); Dispatched 0;
   Completes 0 Started; Completes 0 (Resolved None [tt])] ++ tls_answers true ++
  [Completes 0 (Completed None); Completes 0 (Received None (HttpResponse 404 true ""));
   Completes 0 (Completed None)].

Lemma two_requests_timely :
  timely example_url (λ _, false) "beast" id (λ _, None) two_requests new_client.
Proof. vm_compute. repeat split; intros [H1 H2]; congruence. Qed.

(** A message that comes to the empty queue while the coroutine waits for the TLS
    shutdown starts a second coroutine on the same socket and the same queue.  Both
    take the message in turn; it is told by the first, and the second then touches
    the front of an empty queue. *)
Lemma two_loops :
  example_run
    ([Queue "https://a/" "" (Some 1%nat); Completes 0 Started; Completes 0 (Resolved None [tt])] ++
     tls_answers false ++
     [Queue "https://a/" "" (Some 2%nat); Dispatched 0; Completes 1 Started; Completes 0 (Completed None);
      Completes 1 (Resolved None [tt]); Completes 0 (Resolved None [tt])] ++
     tls_answers false ++ [Completes 1 (Completed None)]) new_client = None.
Proof. vm_compute. reflexivity. Qed.

(** A connection is kept for the same host and port whatever the scheme: the message
    for https is written through TLS without a handshake. *)
Lemma scheme_is_not_compared :
  match example_run
    ([Queue "http://a:443/" "" (Some 1%nat); Queue "https://a/" "" (Some 2%nat); Dispatched 0;
      Completes 0 Started; Completes 0 (Resolved None [tt])] ++ plain_answers true) new_client with
  | Some (c, l) => uses_all (Fresh None) l = None ∧ c_loops c = [At_write] ∧ Handshake ∉ l
  | None => False
  end.
Proof. vm_compute. split_and!; [done..|]. intros H. repeat (apply elem_of_cons in H as [H|H]; [done|]). by apply elem_of_nil in H. Qed.

(** What is accepted has a scheme that is known, a port of 16 bits and a target; the
    rest is refused and changes nothing. *)
Lemma queue_message_spec (parse_url : string → option url_content) url body notifier :
  match queue_message parse_url url body notifier with
  | Ok m => ∃ u, parse_url url = Some u ∧ u_port u <= max_port ∧ m_host m = u_host u ∧ m_target m ≠ ""%string ∧
      (u_port u ≠ 0 → m_port m = u_port u) ∧ m_port m ≠ 0 ∧ m_notifier m = notifier ∧
      (u_schema u = "http"%string ∧ m_https m = false ∨ u_schema u = "https"%string ∧ m_https m = true)
  | Err e => e = bad_url ∧ ∀ u, parse_url url = Some u →
      max_port < u_port u ∨ u_schema u ≠ "http"%string ∧ u_schema u ≠ "https"%string
  end.
Proof.
  unfold queue_message. destruct (parse_url url) as [[schema host port uri]|]; [|done]. cbn.
  unfold guard_err. destruct (Z.leb_spec port max_port); cbn; [|split; [done|intros ? [= <-]; by left]].
  destruct (decide (schema = "http"%string ∨ schema = "https"%string)) as [Hs|Hs];
    [rewrite (bool_decide_eq_true_2 _ Hs)|rewrite (bool_decide_eq_false_2 _ Hs)]; cbn.
  2: { split; [done|]. intros ? [= <-]. right. cbn. naive_solver. }
  eexists; split; [done|]. cbn. split_and!; try done.
  - by destruct (decide (uri = _)).
  - intros Hp. apply Z.eqb_neq in Hp. by rewrite Hp.
  - destruct (Z.eqb_spec port 0); [|done]. by destruct (decide _).
  - destruct Hs as [-> | ->]; [left|right]; done.
Qed.

Lemma http_answers_witness :
  timely example_url (λ _, false) "beast" id (λ _, None) two_requests new_client ∧
  ∃ c l, example_run two_requests new_client = Some (c, l) ∧ told l ++ waiting c = wanted (arrived l) ∧
    arrived l ++ c_posted c ≡ₚ accepted example_url two_requests.
Proof.
  split; [exact two_requests_timely|].
  exact (http_answers example_url (λ _, false) "beast" id (λ _, None) two_requests two_requests_timely).
Defined.

(** A network that answers everything. *)
Definition answering (n : nat) (p : position) : completion unit :=
  match p with
  | At_start => Started
  | At_resolve => Resolved None [tt]
  | At_read => Received None (HttpResponse 200 true "price")
  | _ => Completed None
  end.

Definition example_message : message := Message "" (Some 1%nat) "a" "/" 443 true.

Lemma http_drains_witness :
  ∃ s' l, drive (λ _, false) "beast" id (λ _, None) answering 14 At_start
      (with_outgoing [example_message] new_client_state) = Some (None, s', l) ∧
    outgoing s' = [] ∧ told l = [1%nat].
Proof.
  apply (http_drains (λ _, false) "beast" id (λ _, None) answering At_start
    (with_outgoing [example_message] new_client_state)).
  - intros k q. destruct q; by eexists.
  - by right.
Defined.

Lemma http_protocol_witness :
  (timely example_url (λ _, false) "beast" id (λ _, None) two_requests new_client ∧
   Forall (schemed (λ _ _, true)) (accepted example_url two_requests)) ∧
  ∃ c l k, example_run two_requests new_client = Some (c, l) ∧ uses_all (Fresh None) l = Some k.
Proof.
  assert (Forall (schemed (λ _ _, true)) (accepted example_url two_requests)) as H
    by (vm_compute; repeat constructor).
  split; [split; [exact two_requests_timely|exact H]|].
  exact (http_protocol example_url (λ _, false) "beast" id (λ _, None) (λ _ _, true)
    two_requests two_requests_timely H).
Defined.
